(* ===== verification/_CoqProject ===== *)
-Q . S2P
Prelude.v
Bytes.v
Samples.v
Reader.v
ReaderLogic.v
CaptureFormat.v
PyFloat.v
FloatRounding.v
Timestamps.v
IpAddress.v
IpText.v
StructuralIndex.v
StructuralProofs.v
PacketProjection.v
ExportDecoder.v
ExportAgreement.v
PostingCodec.v
PostingModel.v
PostingBuild.v
OffsetIndex.v
OffsetProofs.v
PostingProofs.v
PostingComplete.v
FlowFilter.v
PostingSelect.v
PostingSound.v
PostingQuery.v
CapturePrefix.v
BoundedCapture.v
PacketCount.v
BoundedProofs.v
AdmissionReader.v
CaptureParser.v
ParserProofs.v
ParserInvariants.v
JobMachine.v
CaptureLimits.v
CaptureSink.v
SinkProofs.v
CaptureWriter.v
WriterProofs.v
WriterRoundTrip.v
IndexedPlan.v
PlanProofs.v
PostingIndex.v
ExportRepository.v
StaticStore.v
PostingPlan.v
PlanSelection.v
IndexedCollect.v
SequentialExport.v
SessionProofs.v
PrefixDecode.v
CollectProofs.v
IndexedComplete.v
CollectBudget.v
SequentialProofs.v
Parity.v
ExportQueue.v
ExportQueueProofs.v
ExportQueueSteps.v
ExportQueueSafety.v
ExportWorker.v
ExportWorkerProofs.v
