(* ===== verification/Prelude.v ===== *)
(** * C2Hunter: the capture evidence pipeline

    A development about the Python code of C2Hunter that handles packet
    captures: how a retained capture is verified, indexed, searched, decoded,
    exported and parsed, and the job state and limits around it.

    ** The program

    Captures come from uploads and sensors.  The analysis package
    (analysis/src/c2hunter_analysis) reads them: pcap.py parses an upload in
    memory into flow records; pcap_index.py makes a structural index (one entry
    per packet: offset, lengths, interface, time) in one bounded pass;
    pcap_export.py decodes the same capture as a stream and rebuilds single
    packets from index entries; pcap_postings.py builds an inverted index
    (address, port, protocol, payload to packet ordinals) and answers queries
    with candidate ordinals.  The controller (controller/src/c2hunter_controller)
    uses them: pcap_stream.py admits a prefix of a stored capture while it
    verifies the digest of the whole; flow_review.py and pcap.py compile the
    packet predicates; pcap.py and capture_sink.py write the matched packets to
    a new capture within a byte limit; jobs.py and capture_limits.py keep the
    job's life cycle and its packet limits.  pcap_offset_index.py and
    pcap_posting_index.py bind stored indexes to a version of their source;
    pcap_posting_selection.py queries the postings of every source of an
    analysis, and pcap_indexed_export.py turns the candidates into a few range
    reads instead of a scan, or gives up so that the caller scans;
    pcap_export_service.py is that caller: it streams the retained sources one
    after the other and exports the same packets.  pcap_export_store.py queues
    exports as jobs: a client enqueues one, workers claim jobs under a lease that
    expires, report on them and publish their artifact when they complete;
    maintenance recovers expired leases and drops old jobs.

    ** The files

    - [Prelude], [Bytes]: results and exceptions, generators, integers at their
      width, byte strings, [struct] formats, shared lemmas and tactics;
      [Samples]: two captures to run things on.
    - [Reader], [ReaderLogic]: byte sources with short reads, the cursors
      [_Cursor] and [_StreamCursor], effect trees for scanners and generators,
      and two program logics over them.
    - [CaptureFormat], [IpAddress], [IpText], [PyFloat], [FloatRounding],
      [Timestamps]: the formats' constants, the part of [ipaddress] the code
      uses, binary64 arithmetic and [datetime.fromtimestamp] with error bounds.
    - [StructuralIndex], [StructuralProofs]: pcap_index.py.
    - [PacketProjection], [ExportDecoder], [ExportAgreement]: pcap_export.py.
    - [PostingCodec], [PostingModel], [PostingBuild], [PostingProofs],
      [PostingComplete], [PostingSelect], [PostingSound], [PostingQuery]:
      pcap_postings.py.
    - [FlowFilter]: the packet filters of flow_review.py and
      [CompiledPacketPredicate] of the controller's pcap.py.
    - [CapturePrefix], [PacketCount], [BoundedCapture], [BoundedProofs],
      [AdmissionReader]: [bounded_pcap_prefix] of pcap.py,
      [BoundedVerifiedCapture] and [_AdmissionReader] of pcap_stream.py, and a
      direct count of the whole packets of a byte string.
    - [CaptureParser], [ParserProofs], [ParserInvariants]: pcap.py (analysis).
    - [CaptureSink], [SinkProofs], [CaptureWriter], [WriterProofs],
      [WriterRoundTrip]: capture_sink.py and [build_capture_to_sink] of pcap.py
      (controller).
    - [JobMachine], [CaptureLimits]: the state machine of jobs.py and
      capture_limits.py.
    - [OffsetIndex], [OffsetProofs]: the stored structural index, its digest
      document and its validation (pcap_offset_index.py).
    - [PostingIndex]: the stored posting index, its binding, identity and
      validation (pcap_posting_index.py).
    - [IndexedPlan], [PlanProofs]: locating selected packets and planning the
      range reads (first half of pcap_indexed_export.py).
    - [ExportRepository]: the repository and the callbacks of an export as
      classes over a world of any type, every call of which may raise or change
      the world; [StaticStore]: instances to run things on.
    - [PostingPlan], [PlanSelection]: pcap_posting_selection.py.
    - [IndexedCollect], [CollectProofs], [IndexedComplete], [CollectBudget]: the
      fences, range reads and matching of pcap_indexed_export.py.
    - [SequentialExport], [SessionProofs], [PrefixDecode], [SequentialProofs]:
      the streaming pipeline of pcap_export_service.py; [Parity]: it agrees with
      the indexed export.
    - [ExportQueue], [ExportQueueProofs], [ExportQueueSteps], [ExportQueueSafety]:
      [RepositoryQueueStore] of pcap_export_store.py over the memory repository
      of repositories.py, the steps of clients, workers and maintenance, and the
      states they reach.
    - [ExportWorker], [ExportWorkerProofs]: [PcapExportWorker] of
      pcap_export_worker.py among other threads.

    Definitions keep the source's names; a definition with another name is a
    part of the function its comment names (the body of a loop, a record of the
    locals of a loop, a dictionary literal).  Exceptions are values of [exn], a
    fallible function returns [res], a generator that was run to its end returns
    its values and how it ended ([generated]), stateful objects are records
    passed through.

    ** The theorems

    - C1, C2, the index: a scan returns a well-formed index whose entries
      spell the bytes of the capture, or raises one of its own errors; the
      result does not depend on how the source splits its reads, nor on the
      batch size.
    - C4, C5, C16, the export decoder: it accepts the captures the scan accepts
      and yields the packets the index entries rebuild; it ends; the two ways to
      compute a time part by at most a microsecond, and only on classic records
      with a sub-second field of a second or more (a finding).
    - C6, C8 to C11, the postings: the ordinal codec is a bijection onto canonical
      encodings, a build holds for every key exactly the packets that have it
      and fails by its limits only, a query returns a superset of the matching
      packets or asks for a sequential scan, within its budget.
    - C12 to C15, the bounded capture: nothing is committed unless the whole
      source matches its descriptor, the committed counts are those of the bytes
      handed out, the admitted bytes are those of [bounded_pcap_prefix] (below 24
      bytes of budget for classic captures only), and a scan over the admission
      reader is the scan of that prefix.
    - C17 to C22, the parser: it decodes a packet as the export projection does,
      a prefix parses to the first packets, the search finds the first match,
      the generators end with well-formed packets, counts add up, the interface
      identities of the records tell the interfaces of their packets apart.
    - C23 to C25, the writer: [build_capture_to_sink] refines a storage-free
      reference whatever the storage does, the parser reads back what it wrote,
      an artifact streams only verified bytes.
    - C26 to C28: job histories, sensor shares, the cap over flow records.
    - C29, C31, stored indexes: a scan makes an index that validates unless an
      interface's time resolution exceeds 64 bits (a finding); the identity of
      validated postings is READY for their own source version and structural
      index and for no other.
    - C30, C32, C33, C36, plans: the range plan reads exactly the selected
      packets; query limits are shared out exactly; a selection plan holds what
      validated postings of the manifest's own versions answered, for an
      authorised request.
    - C34, C35, the indexed export: a batch holds exactly the matching packets
      of the sequential decoder, each source as far as the budget the ones before
      it left admits, and no run reads more than the request's limits.
    - C37 to C39, the sequential export: what it returns was verified source by
      source and is exact within the limits; it is the export the index gives,
      record for record, counts and truncation reasons included; C39 shows the
      budget at which it rejects any source instead (a finding).
    - C7, C40, the export queue: in every reachable state the jobs are
      well-formed, leases exclusive, limits kept and only artifacts of completed
      jobs readable, and no step undoes an end or drops a job before it; the
      holder of a lease prolongs it to the time it asks for, and one who lost it
      changes nothing.
    - C3, the export worker: whatever the other threads do, its rounds are steps
      of the queue, and a round ends without the lease it took unless its
      artifact was refused.

    ** Fuel

    Loops that are not structural take fuel.  Each entry point passes the length
    of its input plus one (every record, block, option or varint takes at least
    a byte; [build_capture_to_sink] passes one more than the number of records,
    since each round of its replay reads one frame), and the theorems above show
    that [OutOfFuel] is never the result.

    ** Parameters

    SHA-256, [pow(10.0, -n)] of the C library, the payload features and DDoS
    samples of a packet (payload_features.py, ddos_packets.py), the JSON and
    ISO-8601 text of a frame's metadata (class [MetadataCodec], law
    [LawfulCodec]), the iteration order of the sets of network terms, the chunks
    of a source and the failures of storage are arguments.  The repository of an
    export is an instance of [ExportRepository] (and [JobRepository]): C33 and
    C36 hold for every instance (that a structural index is bound to its source
    follows in C33 from [honest_identities], which the controller's repositories
    implement), C35 for one in which only range reads read, and C34 and C38
    assume [FaithfulRepository]: a range read of a source version returns the
    bytes of that version, and validated postings were built by
    [build_packet_postings] from those bytes and their structural scan.  They
    also assume [subseconds_below_one], which no source checks: classic records
    with a sub-second field below one second, where the two ways to compute a
    time agree (C16 bounds the difference otherwise).  The
    sequential export takes an instance of [SequentialRepository] over any
    [LawfulSource]; C37 and C38 assume that the progress callback raises nothing
    the scan handles, and C38 that a source that streams with the size and
    digest of an indexed version streams that version ([digests_identify]) and
    that the manifest entry of a canonical capture names the job and its sensor
    ([canonical_entry]).
    The queue takes the text of times as a class ([IsoClock], law [LawfulClock])
    and its clock readings, tokens and ids as arguments; a step of [queue_step]
    uses a token that was not issued and an id that no job has, settings allow
    an attempt, and an artifact carries the fields the executor gives it
    ([artifact_ok], [export_ok]).  The worker's clocks, the validity of its source
    and what the other threads do between its calls are an [Environment]
    ([LawfulEnvironment]: they do steps of the queue), its executor is an
    argument ([lawful_executor]).

    ** Not modelled

    Detectors and scoring (statistics over floats), HTTP routes and schemas,
    SQL, Redis and object storage and the workers that poll them, AI prompts and
    baselines, the Go sensor, the web console.  Of the files above: stage
    timings and metrics, the flow-review pages of flow_review.py, the list-based
    predecessors of the capture writer ([_legacy_build_pcap] and the functions
    around it), [VerifiedMatchedPackets], candidate evaluation in jobs.py, and
    the building and publishing of stored indexes in pcap_offset_index.py and
    pcap_posting_index.py, and of pcap_export_service.py everything but the
    streaming scan and the making of a job (the walk from a job to its sources,
    the pipeline over whole captures in memory, the shadow comparison, the
    artifact).  The queue is modelled over memory: its SQLite and PostgreSQL
    branches, its metrics and [delete_job], which drops the exports of a deleted
    analysis, are not; nor are the metrics, the logging and the entry point of
    the worker. *)

From stdpp Require Export base strings sorting pretty numbers list gmap.

#[global] Open Scope Z_scope.

(** ** Exceptions and results *)

(** The exceptions the modelled code raises, one constructor per Python class
    (with the message and, where the class carries one, the machine code). *)
Inductive exn : Type :=
  | PcapParseError (message code : string)
  | StructuralIndexLimitError (message : string)
  | EOFError
  | ValueError (message : string)
  | RuntimeError (message : string)
  | PostingCodecError (message : string)
  | PostingResourceLimitError (message : string)
  | PostingStructuralMismatchError (message : string)
  | PostingBuildError (message code : string)
  | QueryLimitExceeded
  | CaptureRecordError (message : string)
  | CaptureLimitTooSmall (message : string)
  | CaptureIntegrityError (message : string)
  | CaptureStorageError (message : string)
  | StructError (message : string)
  | TypeError (message : string)
  | KeyError (key : string)
  | AttributeError (name : string)
  | IndexError (message : string)
  | OverflowError (message : string)
  | ExportQueueFullError (message : string)
  | ExportPrincipalLimitError (message : string)
  | ExportSourceChangedError (message : string)
  | ArtifactProducerError (message : string)
  | ArtifactAlreadyExistsError (message : string)
  | ArtifactMissingError (message : string)
  | ArtifactStorageError (message : string)
  | ExportQueueStorageError (message : string)
  | TransientExportError (message : string)
  | ExportCancelled
  | ExportSourceChanged
  | ExportTimedOut
  | IndexedFallback (reason : string)
  | CaptureRangeMissing
  | CaptureRangeUnavailable
  | CaptureRangeVersionDrift
  | CaptureRangeShortRead
  | ApiError (status : Z) (code message : string)
  | OutOfFuel.

#[global] Instance exn_eq_dec : EqDecision exn.
Proof. solve_decision. Defined.

(** A Python computation that returns a value or raises. *)
Inductive res (A : Type) : Type :=
  | Ok (a : A)
  | Err (e : exn).
Arguments Ok {A} a.
Arguments Err {A} e.

#[global] Instance res_eq_dec `{EqDecision A} : EqDecision (res A).
Proof. solve_decision. Defined.

#[global] Instance res_ret : MRet res := fun A a => Ok a.
#[global] Instance res_bind : MBind res := fun A B f m =>
  match m with Ok a => f a | Err e => Err e end.
#[global] Instance res_fmap : FMap res := fun A B f m =>
  match m with Ok a => Ok (f a) | Err e => Err e end.

(** [raise PcapParseError(message)] with the default code. *)
Definition parse_error (message : string) : exn :=
  PcapParseError message "INVALID_PCAP".

(** A guard: [if cond: raise e]. *)
Definition raise_if (cond : bool) (e : exn) : res unit :=
  if cond then Err e else Ok tt.

(** [any(f(x) for x in l)]: stops at the first [True] or exception. *)
Fixpoint any_res {A} (f : A -> res bool) (l : list A) : res bool :=
  match l with
  | [] => Ok false
  | x :: l' => match f x with Ok false => any_res f l' | r => r end
  end.

Definition is_Ok {A} (r : res A) : Prop := exists a, r = Ok a.

Lemma bind_Ok {A B} (m : res A) (f : A -> res B) (b : B) :
  (m ≫= f) = Ok b <-> exists a, m = Ok a /\ f a = Ok b.
Proof. destruct m; naive_solver. Qed.

Lemma bind_Err {A B} (m : res A) (f : A -> res B) (e : exn) :
  (m ≫= f) = Err e <-> m = Err e \/ exists a, m = Ok a /\ f a = Err e.
Proof. destruct m; naive_solver. Qed.

Lemma raise_if_Err cond e e' : raise_if cond e = Err e' <-> cond = true /\ e' = e.
Proof. destruct cond; naive_solver. Qed.

Lemma raise_if_Ok cond e u : raise_if cond e = Ok u <-> cond = false.
Proof. destruct cond, u; naive_solver. Qed.

Lemma any_res_true {A} (f : A -> res bool) l :
  any_res f l = Ok true -> exists x, x ∈ l /\ f x = Ok true.
Proof.
  induction l as [|x l IH]; simpl; [done|]. destruct (f x) as [[]|e] eqn:E; try done.
  - intros _. exists x. split; [left|done].
  - intros (y & ? & ?)%IH. exists y. split; [by right|done].
Qed.

Lemma any_res_false {A} (f : A -> res bool) l :
  any_res f l = Ok false <-> forall x, x ∈ l -> f x = Ok false.
Proof.
  induction l as [|x l IH]; simpl.
  - split; [|done]. intros _ x []%not_elem_of_nil.
  - split.
    + destruct (f x) as [[]|e] eqn:E; try done. intros H y [->|Hy]%elem_of_cons; [done|].
      by apply IH.
    + intros H. rewrite (H x) by left. apply IH. intros y Hy. apply H. by right.
Qed.

Lemma any_res_pure {A} (f : A -> bool) l : any_res (fun x => Ok (f x)) l = Ok (existsb f l).
Proof. induction l as [|x l IH]; simpl; [done|]. by destruct (f x). Qed.

(** ** Lengths and slices with Python's integer indices *)

Definition zlen {A} (l : list A) : Z := Z.of_nat (length l).
Definition ztake {A} (n : Z) (l : list A) : list A := take (Z.to_nat n) l.
Definition zdrop {A} (n : Z) (l : list A) : list A := drop (Z.to_nat n) l.

(** [l[a:b]] for non-negative [a] and [b]: empty when [b <= a]. *)
Definition slice {A} (a b : Z) (l : list A) : list A := ztake (b - a) (zdrop a l).

Lemma zlen_nonneg {A} (l : list A) : 0 <= zlen l.
Proof. unfold zlen; lia. Qed.

Lemma zlen_nil {A} : zlen (@nil A) = 0.
Proof. done. Qed.

Lemma zlen_cons {A} (x : A) l : zlen (x :: l) = 1 + zlen l.
Proof. unfold zlen; simpl; lia. Qed.

Lemma zlen_app {A} (l k : list A) : zlen (l ++ k) = zlen l + zlen k.
Proof. unfold zlen; rewrite length_app; lia. Qed.

Lemma zlen_ztake {A} n (l : list A) : 0 <= n -> zlen (ztake n l) = Z.min n (zlen l).
Proof. intros. unfold zlen, ztake. rewrite length_take. lia. Qed.

Lemma zlen_zdrop {A} n (l : list A) : 0 <= n -> zlen (zdrop n l) = Z.max 0 (zlen l - n).
Proof. intros. unfold zlen, zdrop. rewrite length_drop. lia. Qed.

Lemma zlen_slice {A} a b (l : list A) :
  0 <= a <= b -> b <= zlen l -> zlen (slice a b l) = b - a.
Proof. intros. unfold slice. rewrite zlen_ztake, zlen_zdrop; lia. Qed.

Lemma zlen_0_nil {A} (l : list A) : zlen l = 0 -> l = [].
Proof. destruct l; [done|]. rewrite zlen_cons. pose proof (zlen_nonneg l). lia. Qed.

Lemma zlen_nil_iff {A} (l : list A) : zlen l = 0 <-> l = [].
Proof. split; [apply zlen_0_nil|by intros ->]. Qed.

Lemma ztake_zdrop {A} n (l : list A) : ztake n l ++ zdrop n l = l.
Proof. apply take_drop. Qed.

Lemma ztake_app_exact {A} n (l k : list A) : n = zlen l -> ztake n (l ++ k) = l.
Proof. intros ->. unfold ztake, zlen. rewrite Nat2Z.id. apply take_app_length. Qed.

Lemma zdrop_app_exact {A} n (l k : list A) : n = zlen l -> zdrop n (l ++ k) = k.
Proof. intros ->. unfold zdrop, zlen. rewrite Nat2Z.id. apply drop_app_length. Qed.

Lemma zdrop_zdrop {A} a b (l : list A) :
  0 <= a -> 0 <= b -> zdrop b (zdrop a l) = zdrop (a + b) l.
Proof. intros. unfold zdrop. rewrite drop_drop. f_equal. lia. Qed.

Lemma ztake_all {A} n (l : list A) : zlen l <= n -> ztake n l = l.
Proof. intros. unfold ztake. apply take_ge. unfold zlen in *. lia. Qed.

Lemma zdrop_all {A} n (l : list A) : zlen l <= n -> zdrop n l = [].
Proof. intros. unfold zdrop. apply drop_ge. unfold zlen in *. lia. Qed.

Lemma ztake_0 {A} (l : list A) : ztake 0 l = [].
Proof. done. Qed.

Lemma zdrop_0 {A} (l : list A) : zdrop 0 l = l.
Proof. done. Qed.

Lemma slice_slice {A} a b i j (l : list A) :
  0 <= a -> 0 <= i <= j -> a + j <= b -> slice i j (slice a b l) = slice (a + i) (a + j) l.
Proof.
  intros. unfold slice, ztake, zdrop. rewrite skipn_firstn_comm, drop_drop, take_take.
  f_equal; [lia|f_equal; lia].
Qed.

Lemma slice_app {A} a b c (l : list A) :
  0 <= a <= b -> b <= c -> slice a b l ++ slice b c l = slice a c l.
Proof.
  intros. unfold slice, ztake, zdrop.
  replace (Z.to_nat b) with (Z.to_nat a + Z.to_nat (b - a))%nat by lia.
  rewrite <- drop_drop. replace (Z.to_nat (c - a)) with (Z.to_nat (b - a) + Z.to_nat (c - b))%nat by lia.
  generalize (drop (Z.to_nat a) l) as k, (Z.to_nat (b - a)) as n, (Z.to_nat (c - b)) as m.
  intros k n m. rewrite <- (take_drop n k) at 3. rewrite take_app.
  rewrite take_take, length_take.
  destruct (decide (n <= length k)%nat).
  - f_equal; [f_equal; lia|f_equal; lia].
  - rewrite (drop_ge k) by lia. rewrite !take_nil. f_equal. f_equal. lia.
Qed.

Lemma slice_nonempty {A} a b (l : list A) : 0 <= a < b -> b <= zlen l -> slice a b l <> [].
Proof.
  intros Ha Hb Heq%(f_equal zlen). rewrite zlen_slice, zlen_nil in Heq; lia.
Qed.

(** ** Stable sorting: [sorted(l, key=...)] *)

Section sort_by.
Context {A : Type} (le : A -> A -> bool).

Fixpoint insert_by (x : A) (l : list A) : list A :=
  match l with
  | [] => [x]
  | y :: l' => if le x y then x :: y :: l' else y :: insert_by x l'
  end.

Definition sort_by (l : list A) : list A := foldr insert_by [] l.

Lemma insert_by_perm x l : insert_by x l ≡ₚ x :: l.
Proof.
  induction l as [|y l IH]; simpl; [done|]. case_match; [done|].
  rewrite IH. apply Permutation_swap.
Qed.

Lemma sort_by_perm l : sort_by l ≡ₚ l.
Proof. induction l as [|x l IH]; simpl; [done|]. by rewrite insert_by_perm, IH. Qed.

Lemma insert_by_head x l : Forall (fun y => le x y = true) l -> insert_by x l = x :: l.
Proof. destruct 1 as [|y l Hy]; simpl; [done|]. by rewrite Hy. Qed.

(** A list already in order is left as it is. *)
Lemma sort_by_sorted l :
  StronglySorted (fun x y => le x y = true) l -> sort_by l = l.
Proof.
  induction 1 as [|x l _ IH Hx]; simpl; [done|]. rewrite IH. by apply insert_by_head.
Qed.

Context (le_total : forall x y, le x y = true \/ le y x = true).
Context (le_trans : forall x y z, le x y = true -> le y z = true -> le x z = true).

Lemma insert_by_sorted x l :
  StronglySorted (fun x y => le x y = true) l ->
  StronglySorted (fun x y => le x y = true) (insert_by x l).
Proof.
  induction 1 as [|y l Hs IH Hy]; simpl; [repeat constructor|].
  destruct (le x y) eqn:E.
  - constructor; [by constructor|]. constructor; [done|].
    eapply Forall_impl; [exact Hy|]. simpl. intros z. by apply le_trans.
  - constructor; [done|]. rewrite insert_by_perm. constructor; [|done].
    destruct (le_total x y); congruence.
Qed.

Lemma sort_by_is_sorted l : StronglySorted (fun x y => le x y = true) (sort_by l).
Proof. induction l as [|x l IH]; simpl; [constructor|by apply insert_by_sorted]. Qed.
End sort_by.

(** [sorted(l)] of distinct integers is strictly increasing. *)
Lemma sort_Z_lt l : NoDup l -> StronglySorted Z.lt (sort_by Z.leb l).
Proof.
  intros Hnd. rewrite <- (sort_by_perm Z.leb l) in Hnd.
  assert (StronglySorted (fun x y => (x <=? y) = true) (sort_by Z.leb l)) as Hs
    by (apply sort_by_is_sorted; intros; lia).
  induction Hs as [|x k _ IH Hx]; [constructor|]. apply NoDup_cons in Hnd as [Hin Hnd].
  constructor; [by apply IH|]. rewrite Forall_forall in *. intros y Hy.
  assert (x <> y) by (by intros ->). specialize (Hx y Hy). lia.
Qed.

Lemma StronglySorted_filter {A} (R : A -> A -> Prop) (P : A -> Prop) `{!forall x, Decision (P x)} l :
  StronglySorted R l -> StronglySorted R (filter P l).
Proof.
  induction 1 as [|x l _ IH Hx]; [constructor|]. rewrite filter_cons. destruct (decide (P x)); [|done].
  constructor; [done|]. rewrite Forall_forall in *. intros y [_ Hy]%list_elem_of_filter. auto.
Qed.

Lemma StronglySorted_rev {A} (R : A -> A -> Prop) l :
  StronglySorted (fun x y => R y x) l -> StronglySorted R (rev l).
Proof.
  induction 1 as [|x l _ IH Hx]; [constructor|]. simpl. apply StronglySorted_app. split_and!; [|done|repeat constructor].
  intros y z Hy ->%list_elem_of_singleton. rewrite Forall_forall in Hx. apply Hx.
  by rewrite list_elem_of_In, <- in_rev, <- list_elem_of_In in Hy.
Qed.

(** ** Dictionaries filled in a loop *)

Lemma fold_insert_other {K A V} `{Countable K} (key : A -> K) (value : A -> V) l i : forall m : gmap K V,
  i ∉ (key <$> l) -> fold_left (fun m x => <[key x := value x]> m) l m !! i = m !! i.
Proof.
  induction l as [|x l IH]; intros m Hi; [done|]. cbn [fold_left]. rewrite fmap_cons in Hi.
  rewrite IH by set_solver. apply lookup_insert_ne. set_solver.
Qed.

Lemma fold_insert_lookup {K A V} `{Countable K} (key : A -> K) (value : A -> V) l x : forall m : gmap K V,
  NoDup (key <$> l) -> x ∈ l -> fold_left (fun m x => <[key x := value x]> m) l m !! key x = Some (value x).
Proof.
  induction l as [|y l IH]; intros m Hnd Hx; [by apply not_elem_of_nil in Hx|]. cbn [fold_left].
  rewrite fmap_cons in Hnd. apply NoDup_cons in Hnd as [Hy Hnd].
  apply elem_of_cons in Hx as [->|Hx]; [|by apply IH]. rewrite fold_insert_other by done. apply lookup_insert_eq.
Qed.

(** ** Sums *)

Definition sumZ {A} (f : A -> Z) (l : list A) : Z := foldr Z.add 0 (f <$> l).

Lemma sumZ_cons {A} (f : A -> Z) x l : sumZ f (x :: l) = f x + sumZ f l.
Proof. done. Qed.

Lemma sumZ_app {A} (f : A -> Z) l k : sumZ f (l ++ k) = sumZ f l + sumZ f k.
Proof. induction l as [|x l IH]; [done|]. cbn [app]. rewrite !sumZ_cons, IH. lia. Qed.

Lemma sumZ_nonneg {A} (f : A -> Z) l : Forall (fun x => 0 <= f x) l -> 0 <= sumZ f l.
Proof. induction 1; [done|]. rewrite sumZ_cons. lia. Qed.

Lemma sumZ_add {A} (f g h : A -> Z) l :
  (forall x, f x = g x + h x) -> sumZ f l = sumZ g l + sumZ h l.
Proof. intros Hf. induction l as [|x l IH]; [done|]. rewrite !sumZ_cons, IH, Hf. lia. Qed.

Lemma sumZ_ext {A} (f g : A -> Z) l :
  Forall (fun x => f x = g x) l -> sumZ f l = sumZ g l.
Proof. induction 1 as [|x l Hx _ IH]; [done|]. by rewrite !sumZ_cons, Hx, IH. Qed.

Lemma sumZ_zero {A} (f : A -> Z) l : Forall (fun x => f x = 0) l -> sumZ f l = 0.
Proof. induction 1 as [|x l Hx _ IH]; [done|]. by rewrite sumZ_cons, Hx, IH. Qed.

(** Exactly one element of a list without repetition is [k]. *)
Lemma sumZ_indicator `{EqDecision A} (k : A) (v : Z) l :
  NoDup l -> k ∈ l -> sumZ (fun x => if bool_decide (x = k) then v else 0) l = v.
Proof.
  induction 1 as [|x l Hx Hnd IH]; intros Hk; [by apply not_elem_of_nil in Hk|].
  rewrite sumZ_cons. destruct (decide (x = k)) as [->|Hne].
  - rewrite bool_decide_true, sumZ_zero by done || (apply Forall_forall; intros y Hy;
      rewrite bool_decide_false; [done|by intros ->]). lia.
  - rewrite bool_decide_false, IH by set_solver. lia.
Qed.

(** ** Automation *)

(** Breaks a hypothesis [m ≫= f = Ok b] into its steps. *)
Ltac inv_bind :=
  repeat match goal with
  | H : (_ ≫= _) = Ok _ |- _ => apply bind_Ok in H as (? & ? & ?)
  | H : raise_if _ _ = Ok _ |- _ => apply raise_if_Ok in H
  | H : Ok _ = Ok _ |- _ => injection H as H
  | H : mret _ = Ok _ |- _ => injection H as H
  | H : Err _ = Ok _ |- _ => discriminate H
  end.

(** Moves boolean comparisons on [Z] in the context to propositions. *)
Ltac reflect_bools :=
  repeat match goal with
  | H : _ && _ = true |- _ => apply andb_prop in H as [? ?]
  | H : _ || _ = false |- _ => apply orb_false_iff in H as [? ?]
  | H : negb _ = true |- _ => apply negb_true_iff in H
  | H : negb _ = false |- _ => apply negb_false_iff in H
  | H : (_ =? _) = true |- _ => apply Z.eqb_eq in H
  | H : (_ =? _) = false |- _ => apply Z.eqb_neq in H
  | H : (_ <? _) = true |- _ => apply Z.ltb_lt in H
  | H : (_ <? _) = false |- _ => apply Z.ltb_ge in H
  | H : (_ <=? _) = true |- _ => apply Z.leb_le in H
  | H : (_ <=? _) = false |- _ => apply Z.leb_gt in H
  end.

Create HintDb zlist discriminated.
#[export] Hint Resolve zlen_nonneg : zlist.
Create Rewrite HintDb zlist.
#[export] Hint Rewrite @zlen_nil @zlen_cons @zlen_app : zlist.
