(* ===== verification/Bytes.v ===== *)
(** * Bytes

    Byte strings as lists of [Byte.byte], Python's [int.from_bytes] /
    [int.to_bytes], the [struct] formats the capture code uses, and the
    round-up to a multiple of four that PCAPNG padding needs. *)

From Stdlib Require Strings.Byte.
From Corelib Require Export Init.Byte.
From Stdlib Require Import NArith.
From S2P Require Import Prelude.


Abbreviation bytes := (list byte) (only parsing).

(** ** Bytes and integers *)

Definition b2z (b : byte) : Z := Z.of_N (Strings.Byte.to_N b).

(** The byte congruent to [v] modulo 256. *)
Definition z2b (v : Z) : byte := default x00 (Strings.Byte.of_N (Z.to_N (v mod 256))).

#[global] Instance byte_eq_dec : EqDecision byte := Strings.Byte.byte_eq_dec.

#[global] Program Instance byte_countable : Countable byte :=
  inj_countable Strings.Byte.to_N Strings.Byte.of_N _.
Next Obligation. apply Strings.Byte.of_to_N. Qed.

Lemma b2z_range b : 0 <= b2z b < 256.
Proof. unfold b2z. pose proof (Strings.Byte.to_N_bounded b). lia. Qed.

Lemma z2b_b2z b : z2b (b2z b) = b.
Proof.
  unfold z2b. rewrite Z.mod_small by apply b2z_range.
  unfold b2z. by rewrite N2Z.id, Strings.Byte.of_to_N.
Qed.

Lemma b2z_z2b v : b2z (z2b v) = v mod 256.
Proof.
  unfold z2b. pose proof (Z.mod_pos_bound v 256 ltac:(lia)) as Hr.
  destruct (Strings.Byte.of_N (Z.to_N (v mod 256))) as [b|] eqn:E; simpl.
  - apply Strings.Byte.to_of_N in E. unfold b2z. rewrite E. lia.
  - apply Strings.Byte.of_N_None_iff in E. lia.
Qed.

Lemma b2z_inj a b : b2z a = b2z b -> a = b.
Proof. intros H. by rewrite <- (z2b_b2z a), H, z2b_b2z. Qed.

(** ** Byte orders *)

(** Byte order marks of [struct]: "<" and ">" (and "!"). *)
Inductive endian : Type := LE | BE.

#[global] Instance endian_eq_dec : EqDecision endian.
Proof. solve_decision. Defined.

(** [b[i]] where the code has checked [0 <= i < len(b)]. *)
Definition byte_at (bs : bytes) (i : Z) : Z := default 0 (b2z <$> bs !! Z.to_nat i).

Fixpoint from_le (bs : bytes) : Z :=
  match bs with
  | [] => 0
  | b :: bs' => b2z b + 256 * from_le bs'
  end.

Definition from_be (bs : bytes) : Z := from_le (rev bs).

Definition from_bytes (e : endian) (bs : bytes) : Z :=
  match e with LE => from_le bs | BE => from_be bs end.

Fixpoint to_le (n : nat) (v : Z) : bytes :=
  match n with
  | O => []
  | S n' => z2b v :: to_le n' (v / 256)
  end.

Definition to_be (n : nat) (v : Z) : bytes := rev (to_le n v).

Definition to_bytes (e : endian) (n : nat) (v : Z) : bytes :=
  match e with LE => to_le n v | BE => to_be n v end.

(** [struct.unpack_from(f"{e}H", bs, off)], [... I] and [... q]. *)
Definition u16 (e : endian) (bs : bytes) (off : Z) : Z :=
  from_bytes e (slice off (off + 2) bs).
Definition u32 (e : endian) (bs : bytes) (off : Z) : Z :=
  from_bytes e (slice off (off + 4) bs).
Definition i64 (e : endian) (bs : bytes) (off : Z) : Z :=
  let v := from_bytes e (slice off (off + 8) bs) in
  if v <? 2 ^ 63 then v else v - 2 ^ 64.

(** [(n + 3) & ~3]. *)
Definition pad4 (n : Z) : Z := Z.land (n + 3) (Z.lnot 3).

(** ** Lengths *)

Lemma length_to_le n v : length (to_le n v) = n.
Proof. revert v. induction n; intros; simpl; auto. Qed.

Lemma length_to_bytes e n v : length (to_bytes e n v) = n.
Proof. destruct e; simpl; unfold to_be; rewrite ?length_rev; apply length_to_le. Qed.

Lemma zlen_to_bytes e n v : zlen (to_bytes e n v) = Z.of_nat n.
Proof. unfold zlen. by rewrite length_to_bytes. Qed.

(** ** Round trips *)

Lemma from_le_to_le n v : from_le (to_le n v) = v mod 256 ^ Z.of_nat n.
Proof.
  revert v. induction n as [|n IH]; intros v.
  - simpl. by rewrite Z.mod_1_r.
  - cbn [to_le from_le]. rewrite IH, b2z_z2b, Nat2Z.inj_succ, Z.pow_succ_r by lia.
    rewrite Z.rem_mul_r by lia. lia.
Qed.

Lemma to_le_from_le bs : to_le (length bs) (from_le bs) = bs.
Proof.
  induction bs as [|b bs IH]; [done|]. cbn [length to_le from_le].
  pose proof (b2z_range b) as Hb. f_equal.
  - apply b2z_inj. rewrite b2z_z2b, (Z.mul_comm 256), Z.mod_add by lia.
    by apply Z.mod_small.
  - by rewrite (Z.mul_comm 256), Z.div_add, (Z.div_small (b2z b)), Z.add_0_l by lia.
Qed.

Lemma from_bytes_to_bytes e n v :
  0 <= v < 256 ^ Z.of_nat n -> from_bytes e (to_bytes e n v) = v.
Proof.
  intros Hv. destruct e; simpl; unfold from_be, to_be; rewrite ?rev_involutive, from_le_to_le;
    by apply Z.mod_small.
Qed.

Lemma to_bytes_from_bytes e bs : to_bytes e (length bs) (from_bytes e bs) = bs.
Proof.
  destruct e; simpl; [apply to_le_from_le|]. unfold to_be, from_be.
  rewrite <- (length_rev bs), to_le_from_le. apply rev_involutive.
Qed.

Lemma from_le_bound bs : 0 <= from_le bs < 256 ^ zlen bs.
Proof.
  induction bs as [|b bs IH]; [done|]. simpl from_le. pose proof (b2z_range b).
  rewrite zlen_cons, Z.pow_add_r by (pose proof (zlen_nonneg bs); lia). lia.
Qed.

Lemma from_bytes_bound e bs : 0 <= from_bytes e bs < 256 ^ zlen bs.
Proof.
  destruct e; simpl; [apply from_le_bound|]. unfold from_be.
  pose proof (from_le_bound (rev bs)) as H. unfold zlen in *. by rewrite length_rev in H.
Qed.

Lemma from_bytes_slice_bound e a b bs :
  0 <= b - a -> 0 <= from_bytes e (slice a b bs) < 256 ^ (b - a).
Proof.
  intros H. pose proof (from_bytes_bound e (slice a b bs)) as [? Hs]. split; [done|].
  eapply Z.lt_le_trans; [exact Hs|]. apply Z.pow_le_mono_r; [lia|].
  unfold slice. rewrite zlen_ztake by lia. lia.
Qed.

Lemma u16_bound e bs off : 0 <= u16 e bs off < 65536.
Proof.
  pose proof (from_bytes_slice_bound e off (off + 2) bs ltac:(lia)) as H. unfold u16.
  by replace (off + 2 - off) with 2 in H by lia.
Qed.

Lemma i64_bound e bs off : - 2 ^ 63 <= i64 e bs off < 2 ^ 63.
Proof.
  unfold i64. cbv zeta. pose proof (from_bytes_slice_bound e off (off + 8) bs ltac:(lia)) as H.
  replace (off + 8 - off) with 8 in H by lia. change (256 ^ 8) with (2 ^ 64) in H.
  destruct (Z.ltb_spec (from_bytes e (slice off (off + 8) bs)) (2 ^ 63)); lia.
Qed.

Lemma u32_bound e bs off : 0 <= u32 e bs off < 2 ^ 32.
Proof.
  pose proof (from_bytes_slice_bound e off (off + 4) bs ltac:(lia)) as H. unfold u32.
  by replace (off + 4 - off) with 4 in H by lia.
Qed.

(** A field of a record is a field of the buffer the record was cut from. *)
Lemma u16_slice e a b l i :
  0 <= a -> 0 <= i -> a + i + 2 <= b -> u16 e (slice a b l) i = u16 e l (a + i).
Proof. intros. unfold u16. rewrite slice_slice by lia. by rewrite Z.add_assoc. Qed.

Lemma u32_slice e a b l i :
  0 <= a -> 0 <= i -> a + i + 4 <= b -> u32 e (slice a b l) i = u32 e l (a + i).
Proof. intros. unfold u32. rewrite slice_slice by lia. by rewrite Z.add_assoc. Qed.

Lemma byte_at_bound bs i : 0 <= byte_at bs i < 256.
Proof.
  unfold byte_at. destruct (bs !! Z.to_nat i) as [b|]; simpl; [apply b2z_range|lia].
Qed.

(** ** Padding *)

Lemma pad4_spec n : 0 <= n -> pad4 n = 4 * ((n + 3) / 4).
Proof.
  intros. unfold pad4. change (Z.lnot 3) with (Z.lnot (Z.ones 2)).
  rewrite <- Z.ldiff_land, Z.ldiff_ones_r by lia.
  rewrite Z.shiftl_mul_pow2, Z.shiftr_div_pow2 by lia. change (2 ^ 2) with 4. lia.
Qed.

Lemma pad4_bounds n : 0 <= n -> n <= pad4 n < n + 4 /\ pad4 n mod 4 = 0.
Proof.
  intros. rewrite pad4_spec by lia. split.
  - pose proof (Z.div_mod (n + 3) 4). pose proof (Z.mod_pos_bound (n + 3) 4). lia.
  - rewrite Z.mul_comm. apply Z.mod_mul. lia.
Qed.
