(* ===== verification/Samples.v ===== *)
(** * Samples

    Two small captures with one UDP and one TCP packet each, a classic PCAP and
    a PCAPNG file, on which the development's definitions are run. *)

From S2P Require Import Prelude Bytes.

Definition sample_pcap : bytes :=
  [ xd4; xc3; xb2; xa1; x02; x00; x04; x00; x00; x00; x00; x00; x00; x00; x00; x00;
   xff; xff; x00; x00; x65; x00; x00; x00; x00; xf1; x53; x65; x90; xd0; x03; x00;
   x1c; x00; x00; x00; x1c; x00; x00; x00; x45; x00; x00; x1c; x00; x01; x00; x00;
   x40; x11; x00; x00; x0a; x00; x00; x05; x08; x08; x08; x08; x14; xe9; x00; x35;
   x00; x08; x00; x00; x01; xf1; x53; x65; x90; xd0; x03; x00; x28; x00; x00; x00;
   x28; x00; x00; x00; x45; x00; x00; x28; x00; x01; x00; x00; x40; x06; x00; x00;
   x08; x08; x08; x08; x0a; x00; x00; x05; x01; xbb; xc3; x50; x00; x00; x00; x01;
   x00; x00; x00; x00; x50; x02; x04; x00; x00; x00; x00; x00 ].

Definition sample_pcapng : bytes :=
  [ x0a; x0d; x0d; x0a; x1c; x00; x00; x00; x4d; x3c; x2b; x1a; x01; x00; x00; x00;
   xff; xff; xff; xff; xff; xff; xff; xff; x1c; x00; x00; x00; x01; x00; x00; x00;
   x20; x00; x00; x00; x65; x00; x00; x00; xff; xff; x00; x00; x09; x00; x01; x00;
   x06; x00; x00; x00; x00; x00; x00; x00; x20; x00; x00; x00; x06; x00; x00; x00;
   x3c; x00; x00; x00; x00; x00; x00; x00; x24; x0a; x06; x00; x90; x10; x22; x18;
   x1c; x00; x00; x00; x1c; x00; x00; x00; x45; x00; x00; x1c; x00; x01; x00; x00;
   x40; x11; x00; x00; x0a; x00; x00; x05; x08; x08; x08; x08; x14; xe9; x00; x35;
   x00; x08; x00; x00; x3c; x00; x00; x00; x06; x00; x00; x00; x48; x00; x00; x00;
   x00; x00; x00; x00; x24; x0a; x06; x00; xd0; x52; x31; x18; x28; x00; x00; x00;
   x28; x00; x00; x00; x45; x00; x00; x28; x00; x01; x00; x00; x40; x06; x00; x00;
   x08; x08; x08; x08; x0a; x00; x00; x05; x01; xbb; xc3; x50; x00; x00; x00; x01;
   x00; x00; x00; x00; x50; x02; x04; x00; x00; x00; x00; x00; x48; x00; x00; x00 ].
