(* ===== verification/Reader.v ===== *)
(** * Reader

    The byte source of the capture scanners and the two cursors over it
    ([_Cursor] of pcap_index.py, [_StreamCursor] of pcap_export.py), and the
    effect trees in which the scanners are written: a tree asks for an exact
    read, a discard or the current offset, may yield outputs (packets of a
    generator, batches handed to a consumer), and is run by any cursor.  The
    main result is that over a lawful reader both cursors answer exactly as an
    in-memory cursor does, however short the reader's chunks are. *)

From S2P Require Import Prelude Bytes.

(** ** The [CaptureReader] protocol *)

(** [read(size)] of a reader whose state is [R]. *)
Class CaptureReader (R : Type) : Type :=
  reader_read : Z -> R -> bytes * R.

(** What a file object promises for a positive size: it returns the next bytes
    of the stream, at most [size] of them, and an empty result only at the end
    of the stream. *)
Class LawfulReader (R : Type) `{!CaptureReader R} : Type := {
  reader_content : R -> bytes;
  reader_read_next n r p r' :
    0 < n -> reader_read n r = (p, r') ->
    reader_content r = p ++ reader_content r' /\ zlen p <= n;
  reader_read_eof n r r' :
    0 < n -> reader_read n r = ([], r') -> reader_content r = [];
}.

(** An in-memory file: each [read] returns everything asked for. *)
Record BytesIO : Type := { bio_data : bytes }.

#[global] Instance bytesio_reader : CaptureReader BytesIO := fun n r =>
  if n <? 0 then (r.(bio_data), {| bio_data := [] |})
  else (ztake n r.(bio_data), {| bio_data := zdrop n r.(bio_data) |}).

#[global, program] Instance bytesio_lawful : LawfulReader BytesIO :=
  {| reader_content := bio_data |}.
Next Obligation.
  intros n [d] p r' Hn. unfold reader_read, bytesio_reader. simpl.
  rewrite (proj2 (Z.ltb_ge n 0)) by lia. intros [= <- <-]; simpl.
  rewrite ztake_zdrop, zlen_ztake by lia. split; [done|lia].
Qed.
Next Obligation.
  intros n [d] r' Hn. unfold reader_read, bytesio_reader. simpl.
  rewrite (proj2 (Z.ltb_ge n 0)) by lia. intros [= H _].
  destruct d; [done|]. unfold ztake in H. destruct (Z.to_nat n) eqn:E; [lia|done].
Qed.

(** A pipe-like source that hands out one byte per call. *)
Record TrickleReader : Type := { trickle_data : bytes }.

#[global] Instance trickle_reader : CaptureReader TrickleReader := fun n r =>
  match r.(trickle_data) with
  | b :: d => if 0 <? n then ([b], {| trickle_data := d |}) else ([], r)
  | [] => ([], r)
  end.

#[global, program] Instance trickle_lawful : LawfulReader TrickleReader :=
  {| reader_content := trickle_data |}.
Next Obligation.
  intros n [[|b d]] p r' Hn; unfold reader_read, trickle_reader; simpl.
  - intros [= <- <-]. rewrite zlen_nil. split; [done|lia].
  - rewrite (proj2 (Z.ltb_lt 0 n)) by lia. intros [= <- <-]; simpl.
    rewrite zlen_cons, zlen_nil. split; [done|lia].
Qed.
Next Obligation.
  intros n [[|b d]] r' Hn; unfold reader_read, trickle_reader; simpl; [done|].
  by rewrite (proj2 (Z.ltb_lt 0 n)) by lia.
Qed.

(** ** Effect trees *)

Inductive prog (O A : Type) : Type :=
  | Ret (a : A)
  | Raise (e : exn)
  | ReadExact (size : Z) (eof_ok : bool) (k : res bytes -> prog O A)
  | DiscardExact (size : Z) (k : res unit -> prog O A)
  | GetOffset (k : Z -> prog O A)
  | Yield (o : O) (k : prog O A).
Arguments Ret {O A} a.
Arguments Raise {O A} e.
Arguments ReadExact {O A} size eof_ok k.
Arguments DiscardExact {O A} size k.
Arguments GetOffset {O A} k.
Arguments Yield {O A} o k.

Fixpoint prog_bind_ {O A B} (f : A -> prog O B) (p : prog O A) : prog O B :=
  match p with
  | Ret a => f a
  | Raise e => Raise e
  | ReadExact n eof k => ReadExact n eof (fun r => prog_bind_ f (k r))
  | DiscardExact n k => DiscardExact n (fun r => prog_bind_ f (k r))
  | GetOffset k => GetOffset (fun z => prog_bind_ f (k z))
  | Yield o k => Yield o (prog_bind_ f k)
  end.

#[global] Instance prog_ret {O} : MRet (prog O) := fun A => Ret.
#[global] Instance prog_bind {O} : MBind (prog O) := fun A B => prog_bind_.

Definition lift_res {O A} (r : res A) : prog O A :=
  match r with Ok a => Ret a | Err e => Raise e end.

Definition read_exact {O} (size : Z) (eof_ok : bool) : prog O bytes :=
  ReadExact size eof_ok lift_res.
Definition discard_exact {O} (size : Z) : prog O unit := DiscardExact size lift_res.
Definition cursor_tell {O} : prog O Z := GetOffset Ret.
Definition emit {O} (o : O) : prog O unit := Yield o (Ret tt).
Definition guard_not {O} (cond : bool) (e : exn) : prog O unit :=
  if cond then Raise e else Ret tt.

(** [try: p  except EOFError: raise e]. *)
Fixpoint catch_eof {O A} (e : exn) (p : prog O A) : prog O A :=
  match p with
  | Ret a => Ret a
  | Raise EOFError => Raise e
  | Raise x => Raise x
  | ReadExact n eof k => ReadExact n eof (fun r => catch_eof e (k r))
  | DiscardExact n k => DiscardExact n (fun r => catch_eof e (k r))
  | GetOffset k => GetOffset (fun z => catch_eof e (k z))
  | Yield o k => Yield o (catch_eof e k)
  end.

(** ** Cursors *)

Class CursorOps (C : Type) : Type := {
  cursor_read_exact : Z -> bool -> C -> res bytes * C;
  cursor_discard_exact : Z -> C -> res unit * C;
  cursor_offset : C -> Z;
}.

(** Runs a tree: the outputs in order, then the value or exception. *)
Fixpoint run {C} `{!CursorOps C} {O A} (p : prog O A) (c : C) : list O * res A * C :=
  match p with
  | Ret a => ([], Ok a, c)
  | Raise e => ([], Err e, c)
  | ReadExact n eof k => let '(r, c') := cursor_read_exact n eof c in run (k r) c'
  | DiscardExact n k => let '(r, c') := cursor_discard_exact n c in run (k r) c'
  | GetOffset k => run (k (cursor_offset c)) c
  | Yield o k => let '(os, r, c') := run k c in (o :: os, r, c')
  end.

(** [discard_exact] of both cursors: read and drop 64 KiB at a time. *)
Definition DISCARD_CHUNK : Z := 64 * 1024.

Fixpoint discard_loop {C} (read : Z -> bool -> C -> res bytes * C)
    (fuel : nat) (size : Z) (c : C) : res unit * C :=
  match fuel with
  | O => (Err OutOfFuel, c)
  | S fuel' =>
      if size =? 0 then (Ok tt, c)
      else
        let chunk := Z.min size DISCARD_CHUNK in
        match read chunk false c with
        | (Ok _, c') => discard_loop read fuel' (size - chunk) c'
        | (Err e, c') => (Err e, c')
        end
  end.

Definition discard_with {C} (read : Z -> bool -> C -> res bytes * C)
    (size : Z) (c : C) : res unit * C :=
  discard_loop read (Z.to_nat (size / DISCARD_CHUNK + 2)) size c.

(** *** [_Cursor] (pcap_index.py) *)

Definition _MAX_I64 : Z := 2 ^ 63 - 1.

Record Cursor (R : Type) : Type := mk_cursor {
  cur_reader : R;
  cur_offset : Z;
  cur_digest : bytes;   (* the bytes fed to [hashlib.sha256] so far *)
}.
Arguments mk_cursor {R} _ _ _.
Arguments cur_reader {R} _.
Arguments cur_offset {R} _.
Arguments cur_digest {R} _.

Section Cursor.
Context {R : Type} `{!CaptureReader R}.

Definition new_cursor (reader : R) : Cursor R := mk_cursor reader 0 [].

Fixpoint cursor_read_loop (fuel : nat) (size : Z) (eof_ok : bool) (result : bytes)
    (c : Cursor R) : res bytes * Cursor R :=
  match fuel with
  | O => (Err OutOfFuel, c)
  | S fuel' =>
      if zlen result <? size then
        let '(part, r) := reader_read (size - zlen result) c.(cur_reader) in
        match part with
        | [] =>
            let c' := mk_cursor r c.(cur_offset) c.(cur_digest) in
            if eof_ok && bool_decide (result = []) then (Ok [], c') else (Err EOFError, c')
        | _ :: _ =>
            if size - zlen result <? zlen part then
              (Err (parse_error "capture reader returned more bytes than requested"),
               mk_cursor r c.(cur_offset) c.(cur_digest))
            else
              let c' := mk_cursor r (c.(cur_offset) + zlen part) (c.(cur_digest) ++ part) in
              if _MAX_I64 <? c'.(cur_offset) then
                (Err (StructuralIndexLimitError
                        "capture offset exceeds structural index range"), c')
              else cursor_read_loop fuel' size eof_ok (result ++ part) c'
        end
      else (Ok result, c)
  end.

Definition _Cursor_read_exact (size : Z) (eof_ok : bool) (c : Cursor R)
    : res bytes * Cursor R :=
  if size <? 0 then (Err (ValueError "read size must be non-negative"), c)
  else cursor_read_loop (S (Z.to_nat size)) size eof_ok [] c.

#[global] Instance Cursor_ops : CursorOps (Cursor R) := {|
  cursor_read_exact := _Cursor_read_exact;
  cursor_discard_exact := discard_with _Cursor_read_exact;
  cursor_offset := cur_offset;
|}.
End Cursor.

(** *** [_StreamCursor] (pcap_export.py), opened without a prefix *)

Record StreamCursor (R : Type) : Type := mk_stream {
  sc_reader : R;
  sc_offset : Z;
  sc_prefix : bytes;
}.
Arguments mk_stream {R} _ _ _.
Arguments sc_reader {R} _.
Arguments sc_offset {R} _.
Arguments sc_prefix {R} _.

Section StreamCursor.
Context {R : Type} `{!CaptureReader R}.

Definition new_stream_cursor (reader : R) (prefix : bytes) : StreamCursor R :=
  mk_stream reader (zlen prefix) prefix.

Fixpoint stream_read_loop (fuel : nat) (size remaining : Z) (eof_ok : bool)
    (result : bytes) (c : StreamCursor R) : res bytes * StreamCursor R :=
  match fuel with
  | O => (Err OutOfFuel, c)
  | S fuel' =>
      if remaining =? 0 then (Ok result, c)
      else
        let '(part, r) := reader_read remaining c.(sc_reader) in
        match part with
        | [] =>
            let c' := mk_stream r c.(sc_offset) c.(sc_prefix) in
            if eof_ok && (remaining =? size) then (Ok [], c') else (Err EOFError, c')
        | _ :: _ =>
            if remaining <? zlen part then
              (Err (parse_error "capture reader returned more bytes than requested"),
               mk_stream r c.(sc_offset) c.(sc_prefix))
            else
              stream_read_loop fuel' size (remaining - zlen part) eof_ok (result ++ part)
                (mk_stream r (c.(sc_offset) + zlen part) c.(sc_prefix))
        end
  end.

Definition _StreamCursor_read_exact (size : Z) (eof_ok : bool) (c : StreamCursor R)
    : res bytes * StreamCursor R :=
  let part := if bool_decide (c.(sc_prefix) = []) then [] else ztake size c.(sc_prefix) in
  stream_read_loop (S (Z.to_nat size)) size (size - zlen part) eof_ok part
    (mk_stream c.(sc_reader) c.(sc_offset) (zdrop (zlen part) c.(sc_prefix))).

#[global] Instance StreamCursor_ops : CursorOps (StreamCursor R) := {|
  cursor_read_exact := _StreamCursor_read_exact;
  cursor_discard_exact := discard_with _StreamCursor_read_exact;
  cursor_offset := sc_offset;
|}.
End StreamCursor.

(** *** The in-memory cursor: the reference both cursors are compared with *)

Record MemCursor : Type := mk_mem { mem_rest : bytes; mem_offset : Z }.

Definition mem_advance (n : Z) (m : MemCursor) : MemCursor :=
  mk_mem (zdrop n m.(mem_rest)) (m.(mem_offset) + n).

Definition mem_read_exact (n : Z) (eof_ok : bool) (m : MemCursor) : res bytes * MemCursor :=
  let have := zlen m.(mem_rest) in
  if n <=? have then (Ok (ztake n m.(mem_rest)), mem_advance n m)
  else (if eof_ok && bool_decide (m.(mem_rest) = []) then Ok [] else Err EOFError,
        mem_advance have m).

Definition mem_discard_exact (n : Z) (m : MemCursor) : res unit * MemCursor :=
  let have := zlen m.(mem_rest) in
  if n <=? have then (Ok tt, mem_advance n m) else (Err EOFError, mem_advance have m).

#[global] Instance MemCursor_ops : CursorOps MemCursor := {|
  cursor_read_exact := mem_read_exact;
  cursor_discard_exact := mem_discard_exact;
  cursor_offset := mem_offset;
|}.

(** ** Refinement *)

(** A tree never asks for a negative number of bytes. *)
Fixpoint sizes_ok {O A} (p : prog O A) : Prop :=
  match p with
  | Ret _ | Raise _ => True
  | ReadExact n _ k => 0 <= n /\ forall r, sizes_ok (k r)
  | DiscardExact n k => 0 <= n /\ forall r, sizes_ok (k r)
  | GetOffset k => forall z, sizes_ok (k z)
  | Yield _ k => sizes_ok k
  end.

(** [C] answers every request as the in-memory cursor it is related to. *)
Class CursorSim (C : Type) `{!CursorOps C} (rel : C -> MemCursor -> Prop) : Prop := {
  sim_offset c m : rel c m -> cursor_offset c = mem_offset m;
  sim_read n eof c m : rel c m -> 0 <= n ->
    (cursor_read_exact n eof c).1 = (mem_read_exact n eof m).1 /\
    rel (cursor_read_exact n eof c).2 (mem_read_exact n eof m).2;
  sim_discard n c m : rel c m -> 0 <= n ->
    (cursor_discard_exact n c).1 = (mem_discard_exact n m).1 /\
    rel (cursor_discard_exact n c).2 (mem_discard_exact n m).2;
}.

Lemma run_sim {C} `{!CursorOps C} (rel : C -> MemCursor -> Prop) `{!CursorSim C rel}
    {O A} (p : prog O A) (c : C) (m : MemCursor) :
  sizes_ok p -> rel c m ->
  (run p c).1 = (run p m).1 /\ rel (run p c).2 (run p m).2.
Proof.
  revert c m. induction p as [a|e|n eof k IH|n k IH|k IH|o k IH]; intros c m Hp Hrel; simpl.
  - done.
  - done.
  - destruct Hp as [Hn Hk]. destruct (sim_read n eof c m Hrel Hn) as [H1 H2].
    destruct (cursor_read_exact n eof c) as [r c'], (mem_read_exact n eof m) as [r' m'].
    simpl in *. subst. by apply IH.
  - destruct Hp as [Hn Hk]. destruct (sim_discard n c m Hrel Hn) as [H1 H2].
    destruct (cursor_discard_exact n c) as [r c'], (mem_discard_exact n m) as [r' m'].
    simpl in *. subst. by apply IH.
  - rewrite (sim_offset c m Hrel). by apply IH.
  - destruct (IH c m Hp Hrel) as [H1 H2].
    destruct (run k c) as [[os r] c'], (run k m) as [[os' r'] m']. naive_solver.
Qed.

(** A discard is a sequence of reads, so it is enough to refine [read]. *)
Lemma discard_loop_mem {C} (read : Z -> bool -> C -> res bytes * C)
    (rel : C -> MemCursor -> Prop) :
  (forall n eof c m, rel c m -> 0 <= n ->
     (read n eof c).1 = (mem_read_exact n eof m).1 /\
     rel (read n eof c).2 (mem_read_exact n eof m).2) ->
  forall fuel n c m, rel c m -> 0 <= n ->
  (n + DISCARD_CHUNK - 1) / DISCARD_CHUNK < Z.of_nat fuel ->
  (discard_loop read fuel n c).1 = (mem_discard_exact n m).1 /\
  rel (discard_loop read fuel n c).2 (mem_discard_exact n m).2.
Proof.
  intros Hread. induction fuel as [|fuel IH]; intros n c m Hrel Hn Hfuel.
  { pose proof (Z.div_pos (n + DISCARD_CHUNK - 1) DISCARD_CHUNK). unfold DISCARD_CHUNK in *. lia. }
  cbn [discard_loop]. destruct (Z.eqb_spec n 0) as [->|Hn0].
  { unfold mem_discard_exact. pose proof (zlen_nonneg (mem_rest m)).
    rewrite (proj2 (Z.leb_le 0 _)) by done. simpl. split; [done|].
    unfold mem_advance. rewrite zdrop_0, Z.add_0_r. by destruct m. }
  set (chunk := Z.min n DISCARD_CHUNK).
  assert (0 < chunk <= n) by (unfold chunk, DISCARD_CHUNK; lia).
  destruct (Hread chunk false c m Hrel ltac:(lia)) as [H1 H2].
  unfold mem_read_exact in H1, H2. unfold mem_discard_exact.
  pose proof (zlen_nonneg (mem_rest m)) as Hlen.
  destruct (Z.leb_spec chunk (zlen (mem_rest m))) as [Hle|Hgt].
  - destruct (read chunk false c) as [r c']; simpl in H1, H2. subst r.
    destruct (IH (n - chunk) c' _ H2 ltac:(lia)) as [H3 H4].
    { unfold chunk in *. change DISCARD_CHUNK with 65536 in *.
      Z.to_euclidean_division_equations; lia. }
    unfold mem_discard_exact in H3, H4. simpl in H3, H4.
    rewrite zlen_zdrop, Z.max_r in H3, H4 by lia.
    destruct (Z.leb_spec n (zlen (mem_rest m))).
    + rewrite (proj2 (Z.leb_le (n - chunk) _)) in H3, H4 by lia. simpl in *.
      split; [done|]. unfold mem_advance in *; simpl in *.
      rewrite zdrop_zdrop in H4 by lia.
      by replace (chunk + (n - chunk)) with n in H4 by lia;
        replace (mem_offset m + chunk + (n - chunk)) with (mem_offset m + n) in H4 by lia.
    + rewrite (proj2 (Z.leb_gt (n - chunk) _)) in H3, H4 by lia. simpl in *.
      split; [done|]. unfold mem_advance in *; simpl in *.
      rewrite zdrop_zdrop in H4 by lia.
      by replace (chunk + (zlen (mem_rest m) - chunk)) with (zlen (mem_rest m)) in H4 by lia;
        replace (mem_offset m + chunk + (zlen (mem_rest m) - chunk))
          with (mem_offset m + zlen (mem_rest m)) in H4 by lia.
  - destruct (read chunk false c) as [r c']; simpl in H1, H2. subst r. simpl.
    rewrite (proj2 (Z.leb_gt n _)) by lia. done.
Qed.

Lemma discard_with_mem {C} (read : Z -> bool -> C -> res bytes * C)
    (rel : C -> MemCursor -> Prop) :
  (forall n eof c m, rel c m -> 0 <= n ->
     (read n eof c).1 = (mem_read_exact n eof m).1 /\
     rel (read n eof c).2 (mem_read_exact n eof m).2) ->
  forall n c m, rel c m -> 0 <= n ->
  (discard_with read n c).1 = (mem_discard_exact n m).1 /\
  rel (discard_with read n c).2 (mem_discard_exact n m).2.
Proof.
  intros Hread n c m Hrel Hn. apply discard_loop_mem; [done..|].
  change DISCARD_CHUNK with 65536. Z.to_euclidean_division_equations; lia.
Qed.

(** What is left of a read after [result] has been collected. *)
Definition mem_read_rest (k : Z) (eof_ok : bool) (result : bytes) (m : MemCursor)
    : res bytes * MemCursor :=
  let have := zlen m.(mem_rest) in
  if k <=? have then (Ok (result ++ ztake k m.(mem_rest)), mem_advance k m)
  else (if eof_ok && bool_decide (result ++ m.(mem_rest) = []) then Ok [] else Err EOFError,
        mem_advance have m).

(** One non-empty part taken off the front. *)
Lemma mem_read_rest_step k eof result part rest off :
  zlen part <= k ->
  mem_read_rest k eof result (mk_mem (part ++ rest) off) =
  mem_read_rest (k - zlen part) eof (result ++ part) (mk_mem rest (off + zlen part)).
Proof.
  intros Hk. unfold mem_read_rest, mem_advance; simpl. rewrite zlen_app.
  pose proof (zlen_nonneg part). pose proof (zlen_nonneg rest).
  destruct (Z.leb_spec k (zlen part + zlen rest)).
  - rewrite (proj2 (Z.leb_le _ (zlen rest))) by lia. f_equal.
    + rewrite <- app_assoc. do 2 f_equal.
      rewrite <- (ztake_zdrop (zlen part) (ztake k (part ++ rest))). f_equal.
      * unfold ztake. rewrite take_take, Nat.min_l by lia.
        apply (ztake_app_exact (zlen part)). done.
      * unfold zdrop, ztake, zlen. rewrite skipn_firstn_comm, Nat2Z.id, drop_app_length.
        f_equal. lia.
    + f_equal; [|lia]. rewrite <- (zdrop_app_exact (zlen part) part rest eq_refl) at 2.
      rewrite zdrop_zdrop by lia. f_equal. lia.
  - rewrite (proj2 (Z.leb_gt _ (zlen rest))) by lia. rewrite <- app_assoc. f_equal.
    f_equal; [|lia]. rewrite !zdrop_all; rewrite ?zlen_app; done || lia.
Qed.

Lemma mem_read_rest_eof k eof result off :
  0 < k -> mem_read_rest k eof result (mk_mem [] off) =
  (if eof && bool_decide (result = []) then Ok [] else Err EOFError, mk_mem [] off).
Proof.
  intros. unfold mem_read_rest, mem_advance; simpl. rewrite zlen_nil, app_nil_r.
  rewrite (proj2 (Z.leb_gt k 0)) by done. by rewrite Z.add_0_r.
Qed.

Lemma mem_read_rest_0 eof result m : mem_read_rest 0 eof result m = (Ok result, m).
Proof.
  unfold mem_read_rest, mem_advance. pose proof (zlen_nonneg (mem_rest m)).
  rewrite (proj2 (Z.leb_le 0 _)) by done.
  rewrite ztake_0, app_nil_r, zdrop_0, Z.add_0_r. by destruct m.
Qed.

Section cursor_sim.
Context {R : Type} `{!CaptureReader R, !LawfulReader R}.

(** [total] is the whole capture: what has been hashed, then what is left. *)
Definition cursor_rel (total : bytes) (c : Cursor R) (m : MemCursor) : Prop :=
  reader_content c.(cur_reader) = m.(mem_rest) /\
  c.(cur_offset) = m.(mem_offset) /\
  m.(mem_offset) + zlen m.(mem_rest) <= _MAX_I64 /\
  c.(cur_digest) ++ m.(mem_rest) = total.

Lemma cursor_read_loop_mem total fuel size eof result c m :
  cursor_rel total c m -> zlen result <= size -> size - zlen result < Z.of_nat fuel ->
  let x := cursor_read_loop fuel size eof result c in
  let y := mem_read_rest (size - zlen result) eof result m in
  x.1 = y.1 /\ cursor_rel total x.2 y.2.
Proof.
  revert result c m. induction fuel as [|fuel IH]; [lia|].
  intros result c [rest off] (Hr & Ho & Hmax & Ht) Hle Hfuel. cbn [cursor_read_loop].
  simpl in Hr, Ho, Hmax, Ht.
  destruct (Z.ltb_spec (zlen result) size) as [Hlt|Hge].
  2:{ replace (size - zlen result) with 0 by lia. rewrite mem_read_rest_0. done. }
  assert (0 < size - zlen result) as Hpos by lia.
  destruct (reader_read (size - zlen result) (cur_reader c)) as [part r] eqn:Eread.
  destruct part as [|b part].
  - pose proof (reader_read_next _ _ _ _ Hpos Eread) as [Hnext _].
    apply reader_read_eof in Eread; [|done]. rewrite Hr in Eread. rewrite Eread in *.
    rewrite mem_read_rest_eof by lia. simpl. rewrite Hr in Hnext; simpl in Hnext.
    destruct (eof && bool_decide (result = [])); simpl; done.
  - pose proof (reader_read_next _ _ _ _ Hpos Eread) as [Hnext Hlen].
    rewrite (proj2 (Z.ltb_ge _ (zlen (b :: part)))) by lia. rewrite Hr in Hnext. rewrite Hnext in *.
    rewrite mem_read_rest_step by done. cbn [cur_offset].
    pose proof (zlen_nonneg (reader_content r)). rewrite zlen_app in Hmax.
    rewrite (proj2 (Z.ltb_ge _MAX_I64 _)) by lia.
    replace (size - zlen result - zlen (b :: part))
      with (size - zlen (result ++ b :: part)) by (rewrite zlen_app; lia).
    apply IH.
    + unfold cursor_rel; simpl. split_and!; try done; [by rewrite Ho|unfold _MAX_I64 in *; lia|].
      by rewrite <- app_assoc.
    + rewrite zlen_app. lia.
    + rewrite zlen_app. autorewrite with zlist in *. pose proof (zlen_nonneg part). lia.
Qed.

Lemma cursor_read_mem total n eof (c : Cursor R) m :
  cursor_rel total c m -> 0 <= n ->
  (_Cursor_read_exact n eof c).1 = (mem_read_exact n eof m).1 /\
  cursor_rel total (_Cursor_read_exact n eof c).2 (mem_read_exact n eof m).2.
Proof.
  intros Hrel Hn. unfold _Cursor_read_exact. rewrite (proj2 (Z.ltb_ge n 0)) by done.
  pose proof (cursor_read_loop_mem total (S (Z.to_nat n)) n eof [] c m Hrel) as H.
  cbv zeta in H. rewrite zlen_nil, Z.sub_0_r in H. apply H; lia.
Qed.

#[global] Instance Cursor_sim total : CursorSim (Cursor R) (cursor_rel total).
Proof.
  constructor.
  - by intros c m (_ & ? & _).
  - apply cursor_read_mem.
  - intros. by apply (discard_with_mem _Cursor_read_exact _ (cursor_read_mem total)).
Qed.

Definition stream_rel (c : StreamCursor R) (m : MemCursor) : Prop :=
  reader_content c.(sc_reader) = m.(mem_rest) /\
  c.(sc_offset) = m.(mem_offset) /\ c.(sc_prefix) = [].

Lemma stream_read_loop_mem fuel size remaining eof result c m :
  stream_rel c m -> 0 <= remaining -> zlen result = size - remaining ->
  remaining < Z.of_nat fuel ->
  let x := stream_read_loop fuel size remaining eof result c in
  let y := mem_read_rest remaining eof result m in
  x.1 = y.1 /\ stream_rel x.2 y.2.
Proof.
  revert remaining result c m. induction fuel as [|fuel IH]; [lia|].
  intros remaining result c [rest off] (Hr & Ho & Hp) Hrem Hlen Hfuel.
  cbn [stream_read_loop]. simpl in Hr, Ho.
  destruct (Z.eqb_spec remaining 0) as [->|Hne].
  { rewrite mem_read_rest_0. done. }
  assert (0 < remaining) as Hpos by lia.
  destruct (reader_read remaining (sc_reader c)) as [part r] eqn:Eread.
  destruct part as [|b part].
  - pose proof (reader_read_next _ _ _ _ Hpos Eread) as [Hnext _].
    apply reader_read_eof in Eread; [|done]. rewrite Hr in Eread. rewrite Eread in *.
    rewrite mem_read_rest_eof by lia. simpl. rewrite Hr in Hnext; simpl in Hnext.
    assert ((remaining =? size) = bool_decide (result = [])) as ->.
    { destruct result as [|x result].
      - rewrite zlen_nil in Hlen. rewrite bool_decide_true by done. apply Z.eqb_eq. lia.
      - rewrite zlen_cons in Hlen. pose proof (zlen_nonneg result).
        rewrite bool_decide_false by done. apply Z.eqb_neq. lia. }
    destruct (eof && bool_decide (result = [])); simpl; done.
  - pose proof (reader_read_next _ _ _ _ Hpos Eread) as [Hnext Hpl].
    rewrite (proj2 (Z.ltb_ge _ (zlen (b :: part)))) by lia. rewrite Hr in Hnext. rewrite Hnext in *.
    rewrite mem_read_rest_step by done. pose proof (zlen_nonneg part).
    apply IH; [|lia|rewrite zlen_app; lia|rewrite zlen_cons; lia].
    unfold stream_rel; simpl. by rewrite Ho.
Qed.

Lemma stream_read_mem n eof (c : StreamCursor R) m :
  stream_rel c m -> 0 <= n ->
  (_StreamCursor_read_exact n eof c).1 = (mem_read_exact n eof m).1 /\
  stream_rel (_StreamCursor_read_exact n eof c).2 (mem_read_exact n eof m).2.
Proof.
  intros Hrel Hn. unfold _StreamCursor_read_exact.
  destruct Hrel as (Hr & Ho & Hp). rewrite Hp, bool_decide_true by done.
  rewrite zlen_nil, Z.sub_0_r. change (mem_read_exact n eof m) with (mem_read_rest n eof [] m).
  apply stream_read_loop_mem; [|done|rewrite zlen_nil; lia|lia].
  done.
Qed.

#[global] Instance StreamCursor_sim : CursorSim (StreamCursor R) stream_rel.
Proof.
  constructor.
  - by intros c m (_ & ? & _).
  - apply stream_read_mem.
  - intros. by apply (discard_with_mem _StreamCursor_read_exact _ stream_read_mem).
Qed.
End cursor_sim.
