(* ===== verification/ReaderLogic.v ===== *)
(** * ReaderLogic

    Two program logics for the effect trees of [Reader], over the in-memory
    cursor of a capture: [wp] for one tree (what it returns, where it stops,
    what it may raise) and [rwp] for two trees that read the same capture in
    lockstep.  States are offsets into the capture. *)

From S2P Require Import Prelude Bytes Reader.

(** ** Runs of compound trees *)

Lemma run_bind {C} `{!CursorOps C} {O A B} (p : prog O A) (f : A -> prog O B) (c : C) :
  run (p ≫= f) c =
  let '(os, r, c1) := run p c in
  match r with
  | Ok a => let '(os', r', c2) := run (f a) c1 in (os ++ os', r', c2)
  | Err e => (os, Err e, c1)
  end.
Proof.
  revert c. unfold mbind, prog_bind.
  induction p as [a|e|n eof k IH|n k IH|k IH|o k IH]; intros c; simpl.
  - by destruct (run (f a) c) as [[os r] c'].
  - done.
  - destruct (cursor_read_exact n eof c) as [r c']. apply IH.
  - destruct (cursor_discard_exact n c) as [r c']. apply IH.
  - apply IH.
  - rewrite IH. destruct (run k c) as [[os [a|e]] c1]; simpl; [|done].
    by destruct (run (f a) c1) as [[os' r'] c2].
Qed.

Lemma run_bind_assoc {C} `{!CursorOps C} {O A B D} (p : prog O A) (f : A -> prog O B)
    (g : B -> prog O D) (c : C) :
  run ((p ≫= f) ≫= g) c = run (p ≫= fun a => f a ≫= g) c.
Proof.
  rewrite !run_bind. destruct (run p c) as [[os [a|e]] c1]; [|done]. rewrite run_bind.
  destruct (run (f a) c1) as [[os' [b|e]] c2]; [|done].
  destruct (run (g b) c2) as [[os'' r] c3]. by rewrite app_assoc.
Qed.

Lemma run_catch_eof {C} `{!CursorOps C} {O A} (e : exn) (p : prog O A) (c : C) :
  run (catch_eof e p) c =
  let '(os, r, c1) := run p c in
  (os, match r with Err EOFError => Err e | _ => r end, c1).
Proof.
  revert c. induction p as [a|x|n eof k IH|n k IH|k IH|o k IH]; intros c; simpl.
  - done.
  - by destruct x.
  - destruct (cursor_read_exact n eof c) as [r c']. apply IH.
  - destruct (cursor_discard_exact n c) as [r c']. apply IH.
  - apply IH.
  - rewrite IH. by destruct (run k c) as [[os r] c1].
Qed.

(** ** Sizes *)

Create HintDb sizes discriminated.

Lemma sizes_ret {O A} (a : A) : sizes_ok (O := O) (Ret a).
Proof. done. Qed.
Lemma sizes_raise {O A} e : sizes_ok (O := O) (A := A) (Raise e).
Proof. done. Qed.
Lemma sizes_lift {O A} (r : res A) : sizes_ok (O := O) (lift_res r).
Proof. by destruct r. Qed.
Lemma sizes_read {O} n eof : 0 <= n -> sizes_ok (O := O) (read_exact n eof).
Proof. split; [done|]. intros. apply sizes_lift. Qed.
Lemma sizes_discard {O} n : 0 <= n -> sizes_ok (O := O) (discard_exact n).
Proof. split; [done|]. intros. apply sizes_lift. Qed.
Lemma sizes_tell {O} : sizes_ok (O := O) cursor_tell.
Proof. done. Qed.
Lemma sizes_emit {O} (o : O) : sizes_ok (emit o).
Proof. done. Qed.
Lemma sizes_bind {O A B} (p : prog O A) (f : A -> prog O B) :
  sizes_ok p -> (forall a, sizes_ok (f a)) -> sizes_ok (p ≫= f).
Proof.
  unfold mbind, prog_bind. intros Hp Hf. induction p; simpl in *; naive_solver.
Qed.
Lemma sizes_guard {O B} cond e (f : unit -> prog O B) :
  (cond = false -> sizes_ok (f tt)) -> sizes_ok (guard_not cond e ≫= f).
Proof. destruct cond; simpl; naive_solver. Qed.
Lemma sizes_lift_bind {O A B} (r : res A) (f : A -> prog O B) :
  (forall a, r = Ok a -> sizes_ok (f a)) -> sizes_ok (lift_res r ≫= f).
Proof. destruct r; simpl; naive_solver. Qed.
Lemma sizes_catch {O A} e (p : prog O A) : sizes_ok p -> sizes_ok (catch_eof e p).
Proof. induction p as [| [] | | | |]; simpl; naive_solver. Qed.

#[export] Hint Resolve sizes_ret sizes_raise sizes_lift sizes_read sizes_discard sizes_tell
  sizes_emit : sizes.

(** Decomposes a [sizes_ok] goal along the tree. *)
Ltac sizes_step :=
  first
    [ apply sizes_guard; intros ?
    | apply sizes_lift_bind; intros ? ?
    | apply sizes_bind; [|intros ?]
    | apply sizes_catch
    | case_match ].
Ltac sizes := repeat first [ solve [eauto with sizes lia] | progress cbv zeta | sizes_step ].

(** ** Trees that only read *)

Fixpoint quiet {O A} (p : prog O A) : Prop :=
  match p with
  | Ret _ | Raise _ => True
  | ReadExact _ _ k => forall r, quiet (k r)
  | DiscardExact _ k => forall r, quiet (k r)
  | GetOffset k => forall z, quiet (k z)
  | Yield _ _ => False
  end.

Lemma quiet_bind {O A B} (p : prog O A) (f : A -> prog O B) :
  quiet p -> (forall a, quiet (f a)) -> quiet (p ≫= f).
Proof. unfold mbind, prog_bind. intros Hp Hf. induction p; simpl in *; naive_solver. Qed.
Lemma quiet_catch {O A} e (p : prog O A) : quiet p -> quiet (catch_eof e p).
Proof. induction p as [| [] | | | |]; simpl; naive_solver. Qed.
Lemma quiet_lift {O A} (r : res A) : quiet (O := O) (lift_res r).
Proof. by destruct r. Qed.
Lemma quiet_read {O} n eof : quiet (O := O) (read_exact n eof).
Proof. intros r. apply quiet_lift. Qed.
Lemma quiet_discard {O} n : quiet (O := O) (discard_exact n).
Proof. intros r. apply quiet_lift. Qed.
Lemma quiet_ret {O A} (a : A) : quiet (O := O) (Ret a).
Proof. done. Qed.
Lemma quiet_raise {O A} e : quiet (O := O) (A := A) (Raise e).
Proof. done. Qed.
#[export] Hint Resolve quiet_lift quiet_read quiet_discard quiet_ret quiet_raise : sizes.

Lemma run_quiet {C} `{!CursorOps C} {O A} (p : prog O A) (c : C) :
  quiet p -> (run p c).1.1 = [].
Proof.
  revert c. induction p as [a|e|n eof k IH|n k IH|k IH|o k IH]; intros c Hp; simpl in *; try done.
  - destruct (cursor_read_exact n eof c). by apply IH.
  - destruct (cursor_discard_exact n c). by apply IH.
  - by apply IH.
Qed.

(** Decomposes a [quiet] goal along the tree. *)
Ltac quiets := repeat first
  [ solve [eauto with sizes] | progress cbv zeta
  | apply quiet_bind; [|intros ?] | apply quiet_catch | case_match ].

(** ** What a tree raises by itself *)

Fixpoint raises {O A} (E : exn -> Prop) (p : prog O A) : Prop :=
  match p with
  | Ret _ => True
  | Raise e => E e
  | ReadExact _ _ k => (forall bs, raises E (k (Ok bs))) /\ raises E (k (Err EOFError))
  | DiscardExact _ k => raises E (k (Ok tt)) /\ raises E (k (Err EOFError))
  | GetOffset k => forall z, raises E (k z)
  | Yield _ k => raises E k
  end.

Section raises.
Context {O : Type} (E : exn -> Prop).

Lemma raises_ret {A} (a : A) : raises (O := O) E (Ret a).
Proof. done. Qed.
Lemma raises_bind {A B} (p : prog O A) (f : A -> prog O B) :
  raises E p -> (forall a, raises E (f a)) -> raises E (p ≫= f).
Proof. unfold mbind, prog_bind. intros Hp Hf. induction p; simpl in *; naive_solver. Qed.
Lemma raises_catch {A} e (p : prog O A) :
  E e -> raises (fun x => x = EOFError \/ E x) p -> raises E (catch_eof e p).
Proof.
  intros He. induction p as [|x| | | |]; simpl; try naive_solver.
  intros [->|Hx]; [done|]. by destruct x.
Qed.
Lemma raises_lift {A} (r : res A) : (forall e, r = Err e -> E e) -> raises (O := O) E (lift_res r).
Proof. destruct r; simpl; auto. Qed.
Lemma raises_guard cond e : E e -> raises (O := O) E (guard_not cond e).
Proof. by destruct cond. Qed.
Lemma raises_read n eof : E EOFError -> raises (O := O) E (read_exact n eof).
Proof. by split. Qed.
Lemma raises_discard n : E EOFError -> raises (O := O) E (discard_exact n).
Proof. by split. Qed.
Lemma raises_emit (o : O) : raises E (emit o).
Proof. done. Qed.
Lemma raises_tell : raises (O := O) E cursor_tell.
Proof. done. Qed.
End raises.

(** ** The unary logic *)

Section wp.
Context (content : bytes).

(** The in-memory cursor at an offset of the capture. *)
Definition mem_at (off : Z) : MemCursor := mk_mem (zdrop off content) off.

(** [p] started at [off] returns [a] at an offset that satisfies [Q] together
    with its outputs, or raises an exception in [E]. *)
Definition wp {O A} (E : exn -> Prop) (Q : list O -> A -> Z -> Prop) (p : prog O A) (off : Z)
    : Prop :=
  let '(os, r, m) := run p (mem_at off) in
  match r with
  | Ok a => exists off', m = mem_at off' /\ off <= off' <= zlen content /\ Q os a off'
  | Err e => E e
  end.

Lemma mem_at_0 : mem_at 0 = mk_mem content 0.
Proof. done. Qed.

Lemma mem_at_advance off n : 0 <= off -> 0 <= n -> mem_advance n (mem_at off) = mem_at (off + n).
Proof. intros. unfold mem_advance, mem_at; simpl. by rewrite zdrop_zdrop by lia. Qed.

Lemma mem_at_rest off :
  0 <= off <= zlen content -> zlen (mem_rest (mem_at off)) = zlen content - off.
Proof. intros. simpl. rewrite zlen_zdrop; lia. Qed.

(** What a read of the in-memory cursor does, by position. *)
Lemma mem_read_at n eof off :
  0 <= off <= zlen content -> 0 <= n ->
  mem_read_exact n eof (mem_at off) =
  if off + n <=? zlen content then (Ok (slice off (off + n) content), mem_at (off + n))
  else (if eof && (off =? zlen content) then Ok [] else Err EOFError, mem_at (zlen content)).
Proof.
  intros Hoff Hn. unfold mem_read_exact. rewrite mem_at_rest by done.
  destruct (Z.leb_spec n (zlen content - off)), (Z.leb_spec (off + n) (zlen content)); try lia.
  - rewrite mem_at_advance by lia. unfold slice. by replace (off + n - off) with n by lia.
  - rewrite mem_at_advance by lia. replace (off + (zlen content - off)) with (zlen content) by lia.
    assert (bool_decide (mem_rest (mem_at off) = []) = (off =? zlen content)) as ->; [|done].
    apply eq_true_iff_eq. rewrite bool_decide_eq_true, Z.eqb_eq, <- zlen_nil_iff, mem_at_rest; lia.
Qed.

Lemma mem_discard_at n off :
  0 <= off <= zlen content -> 0 <= n ->
  mem_discard_exact n (mem_at off) =
  if off + n <=? zlen content then (Ok tt, mem_at (off + n))
  else (Err EOFError, mem_at (zlen content)).
Proof.
  intros Hoff Hn. unfold mem_discard_exact. rewrite mem_at_rest by done.
  destruct (Z.leb_spec n (zlen content - off)), (Z.leb_spec (off + n) (zlen content)); try lia;
    rewrite mem_at_advance by lia; do 2 f_equal; lia.
Qed.

Section rules.
Context {O : Type} (E : exn -> Prop).

Lemma wp_ret {A} (Q : list O -> A -> Z -> Prop) a off :
  off <= zlen content -> Q [] a off -> wp E Q (Ret a) off.
Proof. intros. exists off. split_and!; done. Qed.

Lemma wp_raise {A} (Q : list O -> A -> Z -> Prop) e off : E e -> wp E Q (Raise e) off.
Proof. done. Qed.

Lemma wp_mono {A} (E' : exn -> Prop) (Q Q' : list O -> A -> Z -> Prop) p off :
  (forall e, E' e -> E e) ->
  (forall os a off', off <= off' <= zlen content -> Q' os a off' -> Q os a off') ->
  wp E' Q' p off -> wp E Q p off.
Proof.
  intros HE HQ. unfold wp. destruct (run p (mem_at off)) as [[os [a|e]] m]; [|by auto].
  intros (off' & ? & ? & ?). exists off'. auto.
Qed.

Lemma wp_bind {A B} (Q : list O -> B -> Z -> Prop) (p : prog O A) (f : A -> prog O B) off :
  wp E (fun os a off' => wp E (fun os' b off'' => Q (os ++ os') b off'') (f a) off') p off ->
  wp E Q (p ≫= f) off.
Proof.
  unfold wp at 1 3. rewrite run_bind.
  destruct (run p (mem_at off)) as [[os [a|e]] m]; [|done].
  intros (off' & -> & ? & H). unfold wp in H.
  destruct (run (f a) (mem_at off')) as [[os' [b|e']] m']; [|done].
  destruct H as (off'' & -> & ? & ?). exists off''. split_and!; done || lia.
Qed.

Lemma wp_lift {A} (Q : list O -> A -> Z -> Prop) (r : res A) off :
  off <= zlen content ->
  (forall e, r = Err e -> E e) -> (forall a, r = Ok a -> Q [] a off) -> wp E Q (lift_res r) off.
Proof. intros. destruct r; [apply wp_ret|apply wp_raise]; auto. Qed.

Lemma wp_read (Q : list O -> bytes -> Z -> Prop) n eof off :
  0 <= off <= zlen content -> 0 < n -> E EOFError ->
  (off + n <= zlen content -> Q [] (slice off (off + n) content) (off + n)) ->
  (eof = true -> off = zlen content -> Q [] [] off) ->
  wp E Q (read_exact n eof) off.
Proof.
  intros Hoff Hn HE HQ Heof. unfold wp, read_exact; cbn [run cursor_read_exact MemCursor_ops].
  rewrite mem_read_at by lia.
  destruct (Z.leb_spec (off + n) (zlen content)); cbn [lift_res run].
  - exists (off + n). split_and!; auto; lia.
  - destruct eof; simpl; [|done]. destruct (Z.eqb_spec off (zlen content)) as [->|]; simpl; [|done].
    exists (zlen content). split_and!; auto; lia.
Qed.

(** A read that may be empty but must be complete. *)
Lemma wp_read_full (Q : list O -> bytes -> Z -> Prop) n off :
  0 <= off <= zlen content -> 0 <= n -> E EOFError ->
  (off + n <= zlen content -> Q [] (slice off (off + n) content) (off + n)) ->
  wp E Q (read_exact n false) off.
Proof.
  intros Hoff Hn HE HQ. unfold wp, read_exact; cbn [run cursor_read_exact MemCursor_ops].
  rewrite mem_read_at by lia.
  destruct (Z.leb_spec (off + n) (zlen content)); cbn [lift_res run]; [|done].
  exists (off + n). split_and!; auto; lia.
Qed.

Lemma wp_discard (Q : list O -> unit -> Z -> Prop) n off :
  0 <= off <= zlen content -> 0 <= n -> E EOFError ->
  (off + n <= zlen content -> Q [] tt (off + n)) ->
  wp E Q (discard_exact n) off.
Proof.
  intros Hoff Hn HE HQ. unfold wp, discard_exact; cbn [run cursor_discard_exact MemCursor_ops].
  rewrite mem_discard_at by lia.
  destruct (Z.leb_spec (off + n) (zlen content)); cbn [lift_res run]; [|done].
  exists (off + n). split_and!; auto; lia.
Qed.

Lemma wp_tell (Q : list O -> Z -> Z -> Prop) off :
  off <= zlen content -> Q [] off off -> wp E Q cursor_tell off.
Proof. intros. exists off. split_and!; done. Qed.

Lemma wp_emit (Q : list O -> unit -> Z -> Prop) o off :
  off <= zlen content -> Q [o] tt off -> wp E Q (emit o) off.
Proof. intros. exists off. split_and!; done. Qed.

Lemma wp_guard (Q : list O -> unit -> Z -> Prop) cond e off :
  off <= zlen content -> (cond = true -> E e) -> (cond = false -> Q [] tt off) ->
  wp E Q (guard_not cond e) off.
Proof. intros. destruct cond; [apply wp_raise|apply wp_ret]; auto. Qed.

Lemma wp_catch {A} (Q : list O -> A -> Z -> Prop) e p off :
  E e -> wp (fun x => x = EOFError \/ E x) Q p off -> wp E Q (catch_eof e p) off.
Proof.
  unfold wp. intros He. rewrite run_catch_eof.
  destruct (run p (mem_at off)) as [[os [a|x]] m]; [done|].
  intros [->|Hx]; [done|]. by destruct x.
Qed.
End rules.

(** A tree that asks for no negative size stays on the capture. *)
Lemma run_at {O A} (p : prog O A) off :
  sizes_ok p -> 0 <= off <= zlen content ->
  exists off', (run p (mem_at off)).2 = mem_at off' /\ off <= off' <= zlen content.
Proof.
  revert off. induction p as [a|e|n eof k IH|n k IH|k IH|o k IH]; intros off Hp Hoff;
    cbn [run cursor_read_exact cursor_discard_exact cursor_offset MemCursor_ops].
  - exists off. simpl. split; [done|lia].
  - exists off. simpl. split; [done|lia].
  - destruct Hp as [Hn Hk]. rewrite mem_read_at by lia.
    destruct (Z.leb_spec (off + n) (zlen content)).
    + destruct (IH (Ok (slice off (off + n) content)) (off + n)) as (off' & ? & ?); [done|lia|].
      exists off'. split; [done|lia].
    + destruct (IH (if eof && (off =? zlen content) then Ok [] else Err EOFError) (zlen content))
        as (off' & ? & ?); [done|lia|]. exists off'. split; [done|lia].
  - destruct Hp as [Hn Hk]. rewrite mem_discard_at by lia.
    destruct (Z.leb_spec (off + n) (zlen content)).
    + destruct (IH (Ok tt) (off + n)) as (off' & ? & ?); [done|lia|].
      exists off'. split; [done|lia].
    + destruct (IH (Err EOFError) (zlen content)) as (off' & ? & ?); [done|lia|].
      exists off'. split; [done|lia].
  - by apply IH.
  - destruct (IH off Hp Hoff) as (off' & ? & ?).
    destruct (run k (mem_at off)) as [[os r] c']. by exists off'.
Qed.

Lemma wp_raises {O A} (E : exn -> Prop) (p : prog O A) off :
  sizes_ok p -> raises E p -> 0 <= off <= zlen content ->
  wp E (fun _ _ _ => True) p off.
Proof.
  intros Hs Hr Hoff. destruct (run_at p off Hs Hoff) as (off' & Hrun & Hle). unfold wp.
  assert (forall e, (run p (mem_at off)).1.2 = Err e -> E e) as He.
  { clear off' Hrun Hle. revert off Hoff.
    induction p as [a|e|n eof k IH|n k IH|k IH|o k IH]; intros off Hoff; simpl in *.
    - done.
    - by intros ? [= <-].
    - destruct Hs as [Hn Hs], Hr as [Hok Herr]. rewrite mem_read_at by lia.
      destruct (Z.leb_spec (off + n) (zlen content)); [apply IH; auto; lia|].
      case_match; apply IH; auto; lia.
    - destruct Hs as [Hn Hs], Hr as [Hok Herr]. rewrite mem_discard_at by lia.
      destruct (Z.leb_spec (off + n) (zlen content)); apply IH; auto; lia.
    - by apply IH.
    - specialize (IH Hs Hr off Hoff). by destruct (run k (mem_at off)) as [[os r] c']. }
  destruct (run p (mem_at off)) as [[os [a|e]] m]; [|by apply He].
  exists off'. done.
Qed.

(** ** The relational logic *)

(** [p] and [q] started at [off] both return, at the same offset and related by
    [Q], or both raise the same exception; [p] may also fail alone with an
    exception in [L], and [q] alone with one in [R]. *)
Definition rwp {O1 A O2 B} (L R : exn -> Prop) (Q : list O1 -> A -> list O2 -> B -> Z -> Prop)
    (p : prog O1 A) (q : prog O2 B) (off : Z) : Prop :=
  let '(os1, r1, m1) := run p (mem_at off) in
  let '(os2, r2, m2) := run q (mem_at off) in
  match r1, r2 with
  | Ok a, Ok b =>
      exists off', m1 = mem_at off' /\ m2 = mem_at off' /\
        off <= off' <= zlen content /\ Q os1 a os2 b off'
  | Err e1, Err e2 => e1 = e2 \/ L e1 \/ R e2
  | Err e1, Ok _ => L e1
  | Ok _, Err e2 => R e2
  end.

Section rel_rules.
Context {O1 O2 : Type} (L R : exn -> Prop).

Lemma rwp_ret {A B} (Q : list O1 -> A -> list O2 -> B -> Z -> Prop) a b off :
  off <= zlen content -> Q [] a [] b off -> rwp L R Q (Ret a) (Ret b) off.
Proof. intros. exists off. split_and!; done. Qed.

Lemma rwp_raise {A B} (Q : list O1 -> A -> list O2 -> B -> Z -> Prop) e off :
  rwp L R Q (Raise e) (Raise e) off.
Proof. by left. Qed.

Lemma rwp_mono {A B} (Q Q' : list O1 -> A -> list O2 -> B -> Z -> Prop) p q off :
  (forall os a os' b off', off <= off' <= zlen content -> Q' os a os' b off' -> Q os a os' b off') ->
  rwp L R Q' p q off -> rwp L R Q p q off.
Proof.
  intros HQ. unfold rwp. destruct (run p (mem_at off)) as [[os1 [a|e1]] m1],
    (run q (mem_at off)) as [[os2 [b|e2]] m2]; try done.
  intros (off' & ? & ? & ? & ?). exists off'. auto.
Qed.

Lemma rwp_bind {A A' B B'} (Q : list O1 -> A' -> list O2 -> B' -> Z -> Prop)
    (p : prog O1 A) (f : A -> prog O1 A') (q : prog O2 B) (g : B -> prog O2 B') off :
  rwp L R (fun os a os' b off' =>
      rwp L R (fun os1 a' os1' b' off'' => Q (os ++ os1) a' (os' ++ os1') b' off'')
        (f a) (g b) off') p q off ->
  rwp L R Q (p ≫= f) (q ≫= g) off.
Proof.
  unfold rwp at 1 3. rewrite !run_bind.
  destruct (run p (mem_at off)) as [[os1 [a|e1]] m1],
    (run q (mem_at off)) as [[os2 [b|e2]] m2].
  - intros (off' & -> & -> & ? & H). unfold rwp in H.
    destruct (run (f a) (mem_at off')) as [[os1' [a'|e1']] m1'],
      (run (g b) (mem_at off')) as [[os2' [b'|e2']] m2']; try done.
    destruct H as (off'' & ? & ? & ? & ?). exists off''. split_and!; done || lia.
  - intros H. destruct (run (f a) m1) as [[os1' [a'|e1']] m1']; auto.
  - intros H. destruct (run (g b) m2) as [[os2' [b'|e2']] m2']; auto.
  - done.
Qed.

(** Two copies of one reading tree agree. *)
Lemma rwp_refl {O A} (Q : list O -> A -> list O -> A -> Z -> Prop) p off :
  sizes_ok p -> quiet p -> 0 <= off <= zlen content ->
  (forall a off', off <= off' <= zlen content -> Q [] a [] a off') ->
  rwp L R Q p p off.
Proof.
  intros Hp Hq Hoff HQ. destruct (run_at p off Hp Hoff) as (off' & Hrun & Hle).
  pose proof (run_quiet p (mem_at off) Hq) as Hnil. unfold rwp.
  destruct (run p (mem_at off)) as [[os [a|e]] m]; [|by left]. simpl in Hrun, Hnil. subst os.
  exists off'. auto.
Qed.

Lemma rwp_read (Q : list O1 -> bytes -> list O2 -> bytes -> Z -> Prop) n eof off :
  0 <= off <= zlen content -> 0 <= n ->
  (off + n <= zlen content ->
     Q [] (slice off (off + n) content) [] (slice off (off + n) content) (off + n)) ->
  (eof = true -> off = zlen content -> Q [] [] [] [] off) ->
  rwp L R Q (read_exact n eof) (read_exact n eof) off.
Proof.
  intros Hoff Hn HQ Heof. unfold rwp, read_exact; cbn [run cursor_read_exact MemCursor_ops].
  rewrite mem_read_at by lia.
  destruct (Z.leb_spec (off + n) (zlen content)); cbn [lift_res run].
  - exists (off + n). split_and!; auto; lia.
  - destruct eof; simpl; [|by left].
    destruct (Z.eqb_spec off (zlen content)) as [->|]; simpl; [|by left].
    exists (zlen content). split_and!; auto; lia.
Qed.

Lemma rwp_discard (Q : list O1 -> unit -> list O2 -> unit -> Z -> Prop) n off :
  0 <= off <= zlen content -> 0 <= n ->
  (off + n <= zlen content -> Q [] tt [] tt (off + n)) ->
  rwp L R Q (discard_exact n) (discard_exact n) off.
Proof.
  intros Hoff Hn HQ. unfold rwp, discard_exact; cbn [run cursor_discard_exact MemCursor_ops].
  rewrite mem_discard_at by lia.
  destruct (Z.leb_spec (off + n) (zlen content)); cbn [lift_res run]; [|by left].
  exists (off + n). split_and!; auto; lia.
Qed.

(** The scanner skips the packet bytes the decoder reads. *)
Lemma rwp_discard_read (Q : list O1 -> unit -> list O2 -> bytes -> Z -> Prop) n off :
  0 <= off <= zlen content -> 0 <= n ->
  (off + n <= zlen content -> Q [] tt [] (slice off (off + n) content) (off + n)) ->
  rwp L R Q (discard_exact n) (read_exact n false) off.
Proof.
  intros Hoff Hn HQ. unfold rwp, discard_exact, read_exact.
  cbn [run cursor_discard_exact cursor_read_exact MemCursor_ops].
  rewrite mem_discard_at, mem_read_at by lia.
  destruct (Z.leb_spec (off + n) (zlen content)); cbn [lift_res run]; [|by left].
  exists (off + n). split_and!; auto; lia.
Qed.

Lemma rwp_tell (Q : list O1 -> Z -> list O2 -> Z -> Z -> Prop) off :
  off <= zlen content -> Q [] off [] off off -> rwp L R Q cursor_tell cursor_tell off.
Proof. intros. exists off. split_and!; done. Qed.

Lemma rwp_guard (Q : list O1 -> unit -> list O2 -> unit -> Z -> Prop) cond e off :
  off <= zlen content -> (cond = false -> Q [] tt [] tt off) ->
  rwp L R Q (guard_not cond e) (guard_not cond e) off.
Proof. intros. destruct cond; [apply rwp_raise|apply rwp_ret]; auto. Qed.

Lemma rwp_lift {A} (Q : list O1 -> A -> list O2 -> A -> Z -> Prop) (r : res A) off :
  off <= zlen content -> (forall a, r = Ok a -> Q [] a [] a off) ->
  rwp L R Q (lift_res r) (lift_res r) off.
Proof. intros. destruct r; [apply rwp_ret|apply rwp_raise]; auto. Qed.

Lemma rwp_catch {A B} (Q : list O1 -> A -> list O2 -> B -> Z -> Prop) e p q off :
  ~ L EOFError -> ~ R EOFError -> rwp L R Q p q off ->
  rwp L R Q (catch_eof e p) (catch_eof e q) off.
Proof.
  intros HL HR. unfold rwp. rewrite !run_catch_eof.
  destruct (run p (mem_at off)) as [[os1 [a|e1]] m1],
    (run q (mem_at off)) as [[os2 [b|e2]] m2]; try done.
  - by destruct e2.
  - by destruct e1.
  - intros [->|[H|H]]; [destruct e2; by left|..];
      destruct e1; try done; destruct e2; try done; auto.
Qed.

(** What is known of the left tree alone may be used. *)
Lemma rwp_wp_l {A B} (E : exn -> Prop) (P : list O1 -> A -> Z -> Prop)
    (Q : list O1 -> A -> list O2 -> B -> Z -> Prop) p q off :
  wp E P p off -> rwp L R Q p q off ->
  rwp L R (fun os a os' b off' => P os a off' /\ Q os a os' b off') p q off.
Proof.
  unfold wp, rwp. destruct (run p (mem_at off)) as [[os1 [a|e1]] m1],
    (run q (mem_at off)) as [[os2 [b|e2]] m2]; try done.
  intros (off1 & -> & ? & ?) (off2 & Heq & -> & ? & ?).
  injection Heq as _ Heq. subst off2. exists off1. split_and!; done || lia.
Qed.

(** A guard, a check or an output that only one side has. *)
Lemma rwp_guard_l {A B} (Q : list O1 -> A -> list O2 -> B -> Z -> Prop) cond e f q off :
  (cond = true -> L e) -> (cond = false -> rwp L R Q (f tt) q off) ->
  rwp L R Q (guard_not cond e ≫= f) q off.
Proof.
  intros HL Hf. destruct cond; [|by apply Hf]. unfold rwp; simpl.
  destruct (run q (mem_at off)) as [[os2 [b|e2]] m2]; auto.
Qed.

Lemma rwp_ret_r {A B C} (Q : list O1 -> A -> list O2 -> C -> Z -> Prop) p (q : prog O2 B)
    (h : B -> C) off :
  rwp L R (fun os a os' b off' => Q os a os' (h b) off') p q off ->
  rwp L R Q p (q ≫= fun b => Ret (h b)) off.
Proof.
  unfold rwp. rewrite run_bind.
  destruct (run p (mem_at off)) as [[os1 [a|e1]] m1],
    (run q (mem_at off)) as [[os2 [b|e2]] m2]; cbn [run]; try done.
  by rewrite app_nil_r.
Qed.

Lemma rwp_ret_l {A B C} (Q : list O1 -> C -> list O2 -> B -> Z -> Prop) (p : prog O1 A)
    (h : A -> C) q off :
  rwp L R (fun os a os' b off' => Q os (h a) os' b off') p q off ->
  rwp L R Q (p ≫= fun a => Ret (h a)) q off.
Proof.
  unfold rwp. rewrite run_bind.
  destruct (run p (mem_at off)) as [[os1 [a|e1]] m1],
    (run q (mem_at off)) as [[os2 [b|e2]] m2]; cbn [run]; try done.
  by rewrite app_nil_r.
Qed.

Lemma rwp_bind_assoc_r {A B C D} (Q : list O1 -> A -> list O2 -> D -> Z -> Prop) p
    (q : prog O2 B) (f : B -> prog O2 C) (g : C -> prog O2 D) off :
  rwp L R Q p (q ≫= fun b => f b ≫= g) off -> rwp L R Q p ((q ≫= f) ≫= g) off.
Proof. unfold rwp. by rewrite run_bind_assoc. Qed.

Lemma rwp_lift_r {A B C} (Q : list O1 -> A -> list O2 -> B -> Z -> Prop) p (r : res C)
    (g : C -> prog O2 B) off :
  (forall e, r = Err e -> R e) -> (forall c, r = Ok c -> rwp L R Q p (g c) off) ->
  rwp L R Q p (lift_res r ≫= g) off.
Proof.
  intros HR Hg. destruct r as [c|e]; [by apply Hg|]. unfold rwp; simpl.
  destruct (run p (mem_at off)) as [[os1 [a|e1]] m1]; auto.
Qed.
End rel_rules.
End wp.
#[global] Arguments wp : simpl never.
#[global] Arguments rwp : simpl never.

(** Decomposes a [raises] goal along the tree; [err] closes the leaves. *)
Ltac raises err := repeat first
  [ apply raises_ret | apply raises_emit | apply raises_tell
  | apply raises_read; err | apply raises_discard; err | apply raises_guard; err
  | apply raises_lift; err
  | apply raises_catch; [err|]
  | apply raises_bind; [|intros ?]
  | progress cbv zeta
  | case_match
  | progress (cbn [raises]; err) ].

(** One step of a [wp] proof; [err] closes the goals about exceptions. *)
Ltac wp_step err :=
  cbv beta zeta;
  lazymatch goal with
  | |- wp _ _ _ (_ ≫= _) _ => apply wp_bind
  | |- wp _ _ _ (Ret _) _ => apply wp_ret; [lia|]
  | |- wp _ _ _ (Raise _) _ => apply wp_raise; err
  | |- wp _ _ _ (guard_not _ _) _ => apply wp_guard; [lia|intros _; err|intros ?; reflect_bools]
  | |- wp _ _ _ (discard_exact _) _ => apply wp_discard; [lia|try lia|err|intros ?]
  | |- wp _ _ _ (read_exact _ false) _ => apply wp_read_full; [lia|try lia|err|intros ?]
  | |- wp _ _ _ (catch_eof _ _) _ => apply wp_catch; [err|]
  | |- wp _ _ _ cursor_tell _ => apply wp_tell; [lia|]
  | |- wp _ _ _ (emit _) _ => apply wp_emit; [lia|]
  | |- wp _ _ _ (lift_res _) _ => apply wp_lift; [lia|intros ? ?|intros ? ?]
  end.

(** One step of an [rwp] proof on two trees of the same shape. *)
Ltac rwp_step :=
  cbv beta zeta;
  lazymatch goal with
  | |- rwp _ _ _ _ (_ ≫= _) (_ ≫= _) _ => apply rwp_bind
  | |- rwp _ _ _ _ (Ret _) (Ret _) _ => apply rwp_ret; [lia|]
  | |- rwp _ _ _ _ (Raise _) (Raise _) _ => apply rwp_raise
  | |- rwp _ _ _ _ (guard_not _ _) (guard_not _ _) _ =>
      apply rwp_guard; [lia|intros ?; reflect_bools]
  | |- rwp _ _ _ _ (discard_exact _) (discard_exact _) _ =>
      apply rwp_discard; [lia|try lia|intros ?]
  | |- rwp _ _ _ _ (discard_exact _) (read_exact _ _) _ =>
      apply rwp_discard_read; [lia|try lia|intros ?]
  | |- rwp _ _ _ _ (read_exact _ false) (read_exact _ false) _ =>
      apply rwp_read; [lia|try lia|intros ?|done]
  | |- rwp _ _ _ _ (catch_eof _ _) (catch_eof _ _) _ =>
      apply rwp_catch; [by intros ?|by intros ?|]
  | |- rwp _ _ _ _ cursor_tell cursor_tell _ => apply rwp_tell; [lia|]
  | |- rwp _ _ _ _ (lift_res _) (lift_res _) _ => apply rwp_lift; [lia|intros ? ?]
  end.
