(* ===== verification/CaptureFormat.v ===== *)
(** * CaptureFormat

    The constants and validators of the classic PCAP and PCAPNG formats that
    pcap.py, pcap_index.py, pcap_export.py and pcap_stream.py each spell out. *)

From S2P Require Import Prelude Bytes.

(** [_MAX_CAPTURED_PACKET_BYTES] *)
Definition MAX_CAPTURED_PACKET_BYTES : Z := 16 * 1024 * 1024.

(** [_CLASSIC_MAGIC]: byte order and ticks per second of a classic capture. *)
Definition CLASSIC_MAGIC (magic : bytes) : option (endian * Z) :=
  if bool_decide (magic = [xd4; xc3; xb2; xa1]) then Some (LE, 1000000)
  else if bool_decide (magic = [xa1; xb2; xc3; xd4]) then Some (BE, 1000000)
  else if bool_decide (magic = [x4d; x3c; xb2; xa1]) then Some (LE, 1000000000)
  else if bool_decide (magic = [xa1; xb2; x3c; x4d]) then Some (BE, 1000000000)
  else None.

(** [_PCAPNG_SECTION] *)
Definition PCAPNG_SECTION : bytes := [x0a; x0d; x0d; x0a].

(** The byte-order magic of a section header. *)
Definition section_endian (bom : bytes) : option endian :=
  if bool_decide (bom = [x4d; x3c; x2b; x1a]) then Some LE
  else if bool_decide (bom = [x1a; x2b; x3c; x4d]) then Some BE
  else None.

(** [_validate_ng_length] *)
Definition validate_ng_length (block_length : Z) : res unit :=
  raise_if ((block_length <? 12) || negb (block_length mod 4 =? 0))
    (parse_error "PCAPNG block length is invalid").

(** [_validate_ng_trailer] *)
Definition validate_ng_trailer (trailer : bytes) (block_length : Z) (e : endian) : res unit :=
  raise_if (negb (u32 e trailer 0 =? block_length))
    (parse_error "PCAPNG block length trailer does not match").

(** [2 ** (exponent & 0x7F) if exponent & 0x80 else 10**exponent] *)
Definition resolution_denominator (exponent : Z) : Z :=
  if Z.land exponent 128 =? 0 then 10 ^ exponent else 2 ^ (Z.land exponent 127).

Lemma resolution_denominator_pos exponent : 0 <= exponent -> 0 < resolution_denominator exponent.
Proof.
  intros. unfold resolution_denominator.
  destruct (Z.land exponent 128 =? 0); apply Z.pow_pos_nonneg; try lia.
  apply Z.land_nonneg. lia.
Qed.

Lemma classic_resolution_range magic e r : CLASSIC_MAGIC magic = Some (e, r) -> 1000000 <= r <= 1000000000.
Proof. unfold CLASSIC_MAGIC. repeat case_match; naive_solver lia. Qed.

Lemma classic_magic_resolution magic e r : CLASSIC_MAGIC magic = Some (e, r) -> 0 < r.
Proof. unfold CLASSIC_MAGIC. repeat case_match; naive_solver lia. Qed.
