(* ===== verification/PyFloat.v ===== *)
(** * PyFloat

    Python's binary64 arithmetic as the capture code uses it, on the Standard
    Library's executable IEEE 754 specification, and [datetime.fromtimestamp]
    with a UTC zone.  An aware datetime is its number of microseconds since the
    epoch. *)

From Stdlib Require Import SpecFloat.
From S2P Require Import Prelude.

Definition py_float : Type := spec_float.
Definition f_prec : Z := 53.
Definition f_emax : Z := 1024.

(** [float(z)]; the integers the code converts are below 2**64 in size. *)
Definition float_of_Z (z : Z) : py_float := binary_normalize f_prec f_emax z 0 false.

Definition float_add : py_float -> py_float -> py_float := SFadd f_prec f_emax.
Definition float_mul : py_float -> py_float -> py_float := SFmul f_prec f_emax.

(** [a / b] on integers, [0 <= a] and [0 < b]: the correctly rounded quotient. *)
Definition int_truediv (a b : Z) : py_float :=
  if a =? 0 then S754_zero false
  else
    let '(m, e, l) := SFdiv_core_binary f_prec f_emax a 0 b 0 in
    binary_round_aux f_prec f_emax false m e l.

(** [modf]: the integral part and the exact fraction, both with the sign of [f]. *)
Definition float_modf (f : py_float) : option (Z * py_float) :=
  match f with
  | S754_zero s => Some (0, S754_zero s)
  | S754_finite s m e =>
      let v := if s then Zneg m else Zpos m in
      if 0 <=? e then Some (Z.shiftl v e, S754_zero s)
      else Some (Z.quot v (2 ^ (- e)),
                 binary_normalize f_prec f_emax (Z.rem v (2 ^ (- e))) e s)
  | _ => None
  end.

(** [math.floor] of a finite float. *)
Definition float_floor (f : py_float) : Z :=
  match f with
  | S754_finite s m e =>
      let v := if s then Zneg m else Zpos m in
      if 0 <=? e then Z.shiftl v e else v / 2 ^ (- e)
  | _ => 0
  end.

Definition float_sub : py_float -> py_float -> py_float := SFsub f_prec f_emax.

(** [min(a, b)] *)
Definition float_min (a b : py_float) : py_float := if SFltb b a then b else a.

(** Rounds to an integer, ties to even. *)
Definition float_round_half_even (f : py_float) : Z :=
  match f with
  | S754_finite s m e =>
      let v := if s then Zneg m else Zpos m in
      if 0 <=? e then Z.shiftl v e
      else
        let d := 2 ^ (- e) in
        let q := v / d in
        let r := v mod d in
        if (2 * r <? d) || ((2 * r =? d) && Z.even q) then q else q + 1
  | _ => 0
  end.

(** The first and the last second of years 1 to 9999. *)
Definition MIN_EPOCH_SECOND : Z := -62135596800.
Definition MAX_EPOCH_SECOND : Z := 253402300799.

(** [datetime.fromtimestamp(f, UTC)] in microseconds; [None] when it raises. *)
Definition datetime_fromtimestamp (f : py_float) : option Z :=
  match float_modf f with
  | None => None
  | Some (seconds, fraction) =>
      let us := float_round_half_even (float_mul fraction (float_of_Z 1000000)) in
      let total := seconds * 1000000 + us in
      let seconds := total / 1000000 in
      if (MIN_EPOCH_SECOND <=? seconds) && (seconds <=? MAX_EPOCH_SECOND)
      then Some total else None
  end.

(** A representable datetime lies in years 1 to 9999. *)
Lemma datetime_fromtimestamp_range f t :
  datetime_fromtimestamp f = Some t ->
  MIN_EPOCH_SECOND * 1000000 <= t < (MAX_EPOCH_SECOND + 1) * 1000000.
Proof.
  unfold datetime_fromtimestamp. destruct (float_modf f) as [[s fr]|]; [|done].
  cbv zeta. generalize (s * 1000000 + float_round_half_even (float_mul fr (float_of_Z 1000000))).
  intros total. case_match eqn:E; [|done]. intros [= <-]. reflect_bools.
  unfold MIN_EPOCH_SECOND, MAX_EPOCH_SECOND in *.
  Z.to_euclidean_division_equations. lia.
Qed.

(** A datetime: its wall-clock microseconds, aware (UTC) or naive. *)
Record Datetime : Type := mk_datetime { dt_us : Z; dt_aware : bool }.

#[export] Instance Datetime_eq_dec : EqDecision Datetime.
Proof. solve_decision. Defined.
