(* ===== verification/FloatRounding.v ===== *)
(** * FloatRounding

    Error bounds for the executable binary64 arithmetic of [PyFloat]: the result
    of a rounding is a multiple of the unit in the last place, at most half a unit
    from the exact value.  Values are compared in the reals. *)

From Stdlib Require Import SpecFloat Reals Lra.
From S2P Require Import Prelude PyFloat.
#[local] Open Scope Z_scope.

(** ** Powers of two and values *)

Definition bpow (e : Z) : R := powerRZ 2 e.

Lemma bpow_pos e : (0 < bpow e)%R.
Proof. apply powerRZ_lt. lra. Qed.

Lemma bpow_add a b : bpow (a + b) = (bpow a * bpow b)%R.
Proof. apply powerRZ_add. lra. Qed.

Lemma bpow_succ e : bpow (e + 1) = (2 * bpow e)%R.
Proof. rewrite bpow_add. unfold bpow at 2. simpl. lra. Qed.

Lemma bpow_IZR n : 0 <= n -> bpow n = IZR (2 ^ n).
Proof.
  intros Hn. pattern n. apply natlike_ind; [done| |done].
  intros m Hm IH. rewrite Z.pow_succ_r, mult_IZR, <- IH by done.
  replace (Z.succ m) with (m + 1) by lia. apply bpow_succ.
Qed.

Lemma bpow_le a b : a <= b -> (bpow a <= bpow b)%R.
Proof.
  intros Hab. replace b with (a + (b - a)) by lia. rewrite bpow_add.
  pose proof (bpow_pos a). rewrite (bpow_IZR (b - a)) by lia.
  assert (1 <= IZR (2 ^ (b - a)))%R by (apply IZR_le; lia). nra.
Qed.

Lemma Rabs_between x y : (Rabs x <= y)%R -> (- y <= x <= y)%R.
Proof. intros H. pose proof (Rle_abs x). pose proof (Rle_abs (- x)). rewrite Rabs_Ropp in *. lra. Qed.

(** The value of a finite float. *)
Definition float_val (f : py_float) : R :=
  match f with
  | S754_finite s m e => ((if s then -1 else 1) * IZR (Zpos m) * bpow e)%R
  | _ => 0%R
  end.

(** ** Locations *)

(** Where [x] lies between [m] and [m + 1] units of [2^e]. *)
Definition located (mrs : shr_record) (e : Z) (x : R) : Prop :=
  let m := IZR (shr_m mrs) in
  match shr_r mrs, shr_s mrs with
  | false, false => x = (m * bpow e)%R
  | false, true => (m * bpow e < x < (m + / 2) * bpow e)%R
  | true, false => x = ((m + / 2) * bpow e)%R
  | true, true => ((m + / 2) * bpow e < x < (m + 1) * bpow e)%R
  end.

Lemma shr_1_m mrs : 0 <= shr_m mrs -> shr_m (shr_1 mrs) = shr_m mrs / 2.
Proof.
  destruct mrs as [m r s]. simpl. intros Hm. destruct m as [|[p|p|]|]; simpl; try done; try lia.
  - rewrite Pos2Z.inj_xI. Z.to_euclidean_division_equations. lia.
  - rewrite Pos2Z.inj_xO. Z.to_euclidean_division_equations. lia.
Qed.

Lemma located_shr_1 mrs e x :
  0 <= shr_m mrs -> located mrs e x -> located (shr_1 mrs) (e + 1) x.
Proof.
  destruct mrs as [m r s]. intros Hm Hx. unfold located in *. rewrite bpow_succ.
  pose proof (bpow_pos e) as Hb. simpl in *.
  destruct m as [|[p|p|]|]; simpl in *; [| | | |lia];
    rewrite ?(Pos2Z.inj_xI p), ?(Pos2Z.inj_xO p), ?plus_IZR, ?mult_IZR in Hx;
    destruct r, s; simpl in *; try lra; try nra.
Qed.

Lemma iter_shr p mrs e x :
  0 <= shr_m mrs -> located mrs e x ->
  shr_m (SpecFloat.iter_pos shr_1 p mrs) = shr_m mrs / 2 ^ Zpos p /\
  located (SpecFloat.iter_pos shr_1 p mrs) (e + Zpos p) x.
Proof.
  assert (forall p mrs e x, 0 <= shr_m mrs -> located mrs e x ->
    0 <= shr_m (SpecFloat.iter_pos shr_1 p mrs) /\
    shr_m (SpecFloat.iter_pos shr_1 p mrs) = shr_m mrs / 2 ^ Zpos p /\
    located (SpecFloat.iter_pos shr_1 p mrs) (e + Zpos p) x) as H.
  { clear. induction p as [p IH|p IH|]; intros mrs e x Hm Hx; cbn [SpecFloat.iter_pos].
    - assert (0 <= shr_m (shr_1 mrs)) as H1 by (rewrite shr_1_m by done; apply Z.div_pos; lia).
      destruct (IH _ _ x H1 (located_shr_1 _ _ _ Hm Hx)) as (H2 & E2 & L2).
      destruct (IH _ _ x H2 L2) as (H3 & E3 & L3). split; [done|]. split.
      + rewrite E3, E2, shr_1_m, !Z.div_div by lia. f_equal.
        rewrite Pos2Z.inj_xI. replace (2 * Zpos p + 1) with (1 + Zpos p + Zpos p) by lia.
        rewrite !Z.pow_add_r by lia. lia.
      + rewrite Pos2Z.inj_xI. by replace (e + (2 * Zpos p + 1)) with (e + 1 + Zpos p + Zpos p) by lia.
    - destruct (IH _ _ x Hm Hx) as (H2 & E2 & L2). destruct (IH _ _ x H2 L2) as (H3 & E3 & L3).
      split; [done|]. split.
      + rewrite E3, E2, Z.div_div, <- Z.pow_add_r by lia. do 2 f_equal. lia.
      + rewrite Pos2Z.inj_xO. by replace (e + 2 * Zpos p) with (e + Zpos p + Zpos p) by lia.
    - rewrite shr_1_m by done. split; [apply Z.div_pos; lia|]. split; [done|by apply located_shr_1]. }
  intros Hm Hx. by apply H.
Qed.

Lemma loc_of_record m l : loc_of_shr_record (shr_record_of_loc m l) = l.
Proof. by destruct l as [|[]]. Qed.

Lemma record_m m l : shr_m (shr_record_of_loc m l) = m.
Proof. by destruct l as [|[]]. Qed.

(** Rounding to nearest moves by at most half a unit. *)
Lemma round_nearest_close mrs e x :
  located mrs e x ->
  let m := round_nearest_even (shr_m mrs) (loc_of_shr_record mrs) in
  (Rabs (IZR m * bpow e - x) <= bpow e / 2)%R /\ shr_m mrs <= m <= shr_m mrs + 1.
Proof.
  intros Hx. pose proof (bpow_pos e) as Hb. unfold located in Hx. destruct mrs as [m r s]. simpl in *.
  assert (forall y, (- (bpow e / 2) <= y <= bpow e / 2)%R -> (Rabs y <= bpow e / 2)%R) as Habs
    by (intros y Hy; by apply Rabs_le).
  destruct r, s; simpl; (split; [|try destruct (Z.even m); lia]).
  - rewrite plus_IZR. apply Habs. nra.
  - destruct (Z.even m); rewrite ?plus_IZR; apply Habs; nra.
  - apply Habs. nra.
  - apply Habs. nra.
Qed.

(** ** Digits *)

Lemma digits_bounds m : 2 ^ (Zpos (digits2_pos m) - 1) <= Zpos m < 2 ^ Zpos (digits2_pos m).
Proof.
  induction m as [p IH|p IH|]; cbn [digits2_pos]; [| |done];
    rewrite Pos2Z.inj_succ, Z.pow_succ_r by lia;
    replace (Z.succ (Zpos (digits2_pos p)) - 1) with (Z.succ (Zpos (digits2_pos p) - 1)) by lia;
    rewrite Z.pow_succ_r by lia; lia.
Qed.

Lemma digits_unique m d : 2 ^ (d - 1) <= Zpos m < 2 ^ d -> 0 < d -> Zpos (digits2_pos m) = d.
Proof.
  intros [Hlo Hhi] Hd. destruct (digits_bounds m) as [Hlo' Hhi'].
  assert (d - 1 < Zpos (digits2_pos m)) by (apply (Z.pow_lt_mono_r_iff 2); lia).
  assert (Zpos (digits2_pos m) - 1 < d) by (apply (Z.pow_lt_mono_r_iff 2); lia). lia.
Qed.

Lemma digits_le m d : 0 <= d -> Zpos m < 2 ^ d -> Zpos (digits2_pos m) <= d.
Proof.
  intros Hd Hm. destruct (digits_bounds m) as [Hlo _].
  assert (Zpos (digits2_pos m) - 1 < d); [|lia]. apply (Z.pow_lt_mono_r_iff 2); lia.
Qed.

Lemma digits_pow2 n : 0 <= n -> Zdigits2 (2 ^ n) = n + 1.
Proof.
  intros Hn. destruct (2 ^ n) as [|p|p] eqn:E; [lia| |lia]. simpl. apply digits_unique; [|lia].
  rewrite <- E. replace (n + 1 - 1) with n by lia. split; [done|]. apply Z.pow_lt_mono_r; lia.
Qed.

(** ** Rounding *)

Abbreviation fexp64 := (fexp f_prec f_emax).

Lemma fexp64_eq e : fexp64 e = Z.max (e - 53) (-1074).
Proof. done. Qed.

(** The second normalisation, after a carry, keeps the value. *)
Lemma renormalise m e :
  0 < m <= 2 ^ 53 -> -1074 <= e -> exists m' e',
    shr_fexp f_prec f_emax m e loc_Exact = (Build_shr_record (Zpos m') false false, e') /\
    (IZR (Zpos m') * bpow e' = IZR m * bpow e)%R /\ Zpos m' < 2 ^ 53 /\ e <= e' <= e + 1.
Proof.
  intros Hm He. unfold shr_fexp. rewrite fexp64_eq. destruct (decide (m = 2 ^ 53)) as [->|Hne].
  - rewrite digits_pow2 by lia. replace (Z.max (53 + 1 + e - 53) (-1074) - e) with 1 by lia.
    exists (2 ^ 52)%positive, (e + 1). split; [done|]. split; [|split; [done|lia]].
    rewrite bpow_succ. change (IZR (2 ^ 53)) with 9007199254740992%R.
    change (IZR (Zpos (2 ^ 52))) with 4503599627370496%R. lra.
  - destruct m as [|p|p]; [lia| |lia]. simpl Zdigits2.
    pose proof (digits_le p 53 ltac:(lia) ltac:(lia)) as Hd.
    exists p, e. split; [|split; [done|lia]].
    destruct (Z.max _ _ - e) eqn:E; try done. lia.
Qed.

(** A positive float near [x], on the grid of [2^u]. *)
Definition rounds (f : py_float) (sx : bool) (x : R) (u : Z) : Prop :=
  exists m e M, f = S754_finite sx m e /\ Zpos m < 2 ^ 53 /\ u <= e <= u + 1 /\
    (IZR (Zpos m) * bpow e = IZR M * bpow u)%R /\
    (Rabs (IZR (Zpos m) * bpow e - x) <= bpow u / 2)%R.

(** The exponent of the last place of a number [m * 2^e] with [d] digits. *)
Definition ulp_exponent (m e : Z) : Z := Z.max e (Zdigits2 m + e - 53).

Lemma round_aux_rounds sx m e l x :
  0 < m -> located (shr_record_of_loc m l) e x ->
  -1074 <= Zdigits2 m + e - 53 -> ulp_exponent m e <= 960 ->
  rounds (binary_round_aux f_prec f_emax sx m e l) sx x (ulp_exponent m e).
Proof.
  intros Hm Hx Hlo Hhi. unfold binary_round_aux, ulp_exponent in *.
  assert (exists mrs e1, shr_fexp f_prec f_emax m e l = (mrs, e1) /\
    e1 = Z.max e (Zdigits2 m + e - 53) /\ located mrs e1 x /\ 0 < shr_m mrs < 2 ^ 53) as
    (mrs & e1 & -> & He1 & Hl & Hm1).
  { unfold shr_fexp. rewrite fexp64_eq, Z.max_l by lia. destruct m as [|p|]; [lia| |lia].
    simpl Zdigits2 in *. pose proof (digits_bounds p) as [Hd1 Hd2].
    destruct (Z.pos (digits2_pos p) + e - 53 - e) as [|k|k] eqn:Ek.
    - eexists _, _. split; [reflexivity|]. split; [lia|]. rewrite record_m.
      replace (Z.pos (digits2_pos p)) with 53 in Hd2 by lia. split; [done|lia].
    - pose proof (iter_shr k (shr_record_of_loc (Zpos p) l) e x) as Hs. rewrite record_m in Hs.
      destruct Hs as [Es Ls]; [done|done|]. eexists _, _. split; [reflexivity|]. split; [lia|].
      split; [done|]. rewrite Es. assert (Zpos k = Z.pos (digits2_pos p) - 53) as Hk by lia.
      split; [apply Z.div_str_pos; split; [lia|]; etrans; [|exact Hd1]; apply Z.pow_le_mono_r; lia|].
      apply Z.div_lt_upper_bound; [lia|]. rewrite <- Z.pow_add_r by lia.
      replace (Z.pos k + 53) with (Z.pos (digits2_pos p)) by lia. done.
    - eexists _, _. split; [reflexivity|]. split; [lia|]. rewrite record_m. split; [done|].
      split; [lia|]. etrans; [exact Hd2|]. apply Z.pow_lt_mono_r; lia. }
  destruct (round_nearest_close _ _ _ Hl) as [Hclose Hr]. simpl in Hclose, Hr.
  set (M := round_nearest_even (shr_m mrs) (loc_of_shr_record mrs)) in *.
  destruct (renormalise M e1) as (m' & e' & -> & Hv & Hm' & He'); [lia|lia|]. simpl.
  change (f_emax - f_prec) with 971. rewrite (proj2 (Z.leb_le e' 971)) by lia.
  rewrite <- He1. exists m', e', M. rewrite Hv. done.
Qed.

(** Rounding an exact number with few digits changes nothing. *)
Lemma round_aux_exact sx m e :
  0 < m -> Zdigits2 m <= 53 -> -1074 <= Zdigits2 m + e - 53 -> e <= 960 ->
  exists m', binary_round_aux f_prec f_emax sx m e loc_Exact = S754_finite sx m' e /\ Zpos m' = m.
Proof.
  intros Hm Hd Hlo Hhi. destruct m as [|p|]; [lia| |lia].
  assert (shr_fexp f_prec f_emax (Zpos p) e loc_Exact = (Build_shr_record (Zpos p) false false, e)) as Hs.
  { unfold shr_fexp. rewrite fexp64_eq. simpl Zdigits2 in *.
    destruct (Z.max _ _ - e) eqn:E; try done. lia. }
  exists p. split; [|done]. unfold binary_round_aux. rewrite Hs. cbn [shr_m loc_of_shr_record round_nearest_even].
  rewrite Hs. cbn [shr_m]. change (f_emax - f_prec) with 971. by rewrite (proj2 (Z.leb_le e 971)) by lia.
Qed.

(** ** Relative error *)

(** A positive float within half a unit in the last place of [x]. *)
Definition rel (f : py_float) (x : R) : Prop :=
  exists m e, f = S754_finite false m e /\ Zpos m < 2 ^ 53 /\
    (Rabs (IZR (Zpos m) * bpow e - x) <= x * bpow (-53))%R.

Lemma rel_val f x : rel f x -> (Rabs (float_val f - x) <= x * bpow (-53))%R.
Proof. intros (m & e & -> & _ & H). simpl float_val. by rewrite Rmult_1_l. Qed.

Lemma located_lower m l e x : located (shr_record_of_loc m l) e x -> (IZR m * bpow e <= x)%R.
Proof. pose proof (bpow_pos e). unfold located. destruct l as [|[]]; simpl; nra. Qed.

Lemma digits_bpow m e : 0 < m -> (bpow (Zdigits2 m - 1 + e) <= IZR m * bpow e)%R.
Proof.
  intros Hm. destruct m as [|p|]; [lia| |lia]. simpl Zdigits2. rewrite bpow_add.
  apply Rmult_le_compat_r; [apply Rlt_le, bpow_pos|]. rewrite bpow_IZR by lia. apply IZR_le.
  apply digits_bounds.
Qed.

Lemma round_aux_rel m e l x :
  0 < m -> located (shr_record_of_loc m l) e x -> l = loc_Exact \/ 53 <= Zdigits2 m ->
  -1000 <= e -> Zdigits2 m + e <= 900 ->
  rel (binary_round_aux f_prec f_emax false m e l) x.
Proof.
  intros Hm Hx Hl Hlo Hhi. assert (0 < Zdigits2 m) as Hd by (destruct m; simpl; lia).
  pose proof (located_lower _ _ _ _ Hx) as Hxm. pose proof (bpow_pos (-53)) as Hb.
  destruct (Z.le_gt_cases 53 (Zdigits2 m)) as [H53|H53].
  - destruct (round_aux_rounds false m e l x) as (m' & e' & M & Hf & Hm' & _ & _ & Herr);
      [done|done|lia|unfold ulp_exponent; lia|].
    exists m', e'. split; [done|]. split; [done|]. etrans; [exact Herr|].
    unfold ulp_exponent. rewrite Z.max_r by lia.
    replace (Zdigits2 m + e - 53) with (Zdigits2 m - 1 + e + (-53) + 1) by lia.
    rewrite bpow_succ, bpow_add. pose proof (digits_bpow m e Hm). nra.
  - destruct Hl as [->|]; [|lia].
    destruct (round_aux_exact false m e) as (m' & Hf & E); [lia..|].
    exists m', e. split; [done|]. rewrite E. destruct m as [|p|]; [lia| |lia]. simpl Zdigits2 in *.
    pose proof (digits_bounds p) as [_ Hp]. split.
    { etrans; [exact Hp|]. apply Z.pow_lt_mono_r; lia. }
    simpl in Hx. unfold located in Hx. simpl in Hx. rewrite Hx, Rminus_diag, Rabs_R0.
    pose proof (bpow_pos e). assert (0 < IZR (Zpos p))%R by (apply IZR_lt; lia).
    apply Rmult_le_pos; [apply Rmult_le_pos|]; lra.
Qed.

(** The exponent of a float follows from its size. *)
Lemma bpow_lt_inv a b : (bpow a < bpow b)%R -> a < b.
Proof. intros H. apply Z.nle_gt. intros Hle%bpow_le. lra. Qed.

Lemma rel_exponent f x a b :
  rel f x -> (bpow a <= x <= bpow b)%R ->
  exists m e, f = S754_finite false m e /\ Zpos m < 2 ^ 53 /\ a - 55 <= e <= b + 1.
Proof.
  intros (m & e & -> & Hm & Herr) Hx. exists m, e. split; [done|]. split; [done|].
  assert (bpow (-53) <= / 2)%R as H53.
  { etrans; [apply (bpow_le _ (-1)); lia|]. unfold bpow; simpl; lra. }
  pose proof (bpow_pos e) as He. pose proof (bpow_pos a) as Ha.
  assert (1 <= IZR (Zpos m) <= bpow 53)%R as Hm53.
  { rewrite bpow_IZR by lia. split; apply IZR_le; lia. }
  assert (IZR (Zpos m) * bpow e - x <= x * bpow (-53))%R as H1
    by (etrans; [apply Rle_abs|exact Herr]).
  assert (- (IZR (Zpos m) * bpow e - x) <= x * bpow (-53))%R as H2
    by (etrans; [apply Rle_abs|rewrite Rabs_Ropp; exact Herr]).
  assert (bpow (a - 1 - 53) <= bpow e)%R as Hlo.
  { assert (bpow (a - 1) <= bpow 53 * bpow e)%R as Hp.
    { assert (bpow a = 2 * bpow (a - 1))%R by (rewrite <- bpow_succ; f_equal; lia).
      assert (x * bpow (-53) <= x * / 2)%R by (apply Rmult_le_compat_l; lra).
      assert (IZR (Zpos m) * bpow e <= bpow 53 * bpow e)%R by (apply Rmult_le_compat_r; lra). lra. }
    replace (a - 1 - 53) with (a - 1 + (-53)) by lia. rewrite bpow_add.
    assert (bpow 53 * bpow (-53) = 1)%R as H1' by (rewrite <- bpow_add; done).
    pose proof (bpow_pos (-53)). nra. }
  assert (bpow e <= bpow (b + 1))%R as Hhi.
  { rewrite bpow_succ. assert (x * bpow (-53) <= x * / 2)%R by (apply Rmult_le_compat_l; lra). nra. }
  assert (a - 1 - 53 < e + 1); [apply bpow_lt_inv; rewrite (bpow_succ e); lra|].
  assert (e < b + 1 + 1); [apply bpow_lt_inv; rewrite (bpow_succ (b + 1)); lra|]. lia.
Qed.

(** ** Operations *)

Lemma iter_xO m k : Zpos (Pos.iter xO m k) = Zpos m * 2 ^ Zpos k.
Proof.
  revert m. induction k as [|k IH] using Pos.peano_ind; intros m; [simpl; lia|].
  rewrite Pos.iter_succ, Pos2Z.inj_xO, IH, Pos2Z.inj_succ, Z.pow_succ_r by lia. lia.
Qed.

(** Aligning to a smaller exponent keeps the value. *)
Lemma shl_align_spec m e e' :
  let '(mz, ez) := shl_align m e e' in
  ez = Z.min e e' /\ Zpos mz = Zpos m * 2 ^ (e - ez).
Proof.
  unfold shl_align. destruct (e' - e) as [|d|d] eqn:E.
  - split; [lia|]. rewrite Z.sub_diag. lia.
  - split; [lia|]. rewrite Z.sub_diag. lia.
  - split; [lia|]. rewrite iter_xO. do 2 f_equal. lia.
Qed.

Lemma digits_shift p m k : 0 <= k -> Zpos p = Zpos m * 2 ^ k -> Zdigits2 (Zpos p) = Zdigits2 (Zpos m) + k.
Proof.
  intros Hk E. simpl. apply digits_unique; [|lia]. rewrite E. destruct (digits_bounds m) as [Hlo Hhi].
  replace (Z.pos (digits2_pos m) + k - 1) with (Z.pos (digits2_pos m) - 1 + k) by lia.
  rewrite !Z.pow_add_r by lia. assert (0 < 2 ^ k) by lia. nia.
Qed.

Lemma IZR_shift m e e' : e' <= e -> (IZR (m * 2 ^ (e - e')) * bpow e' = IZR m * bpow e)%R.
Proof.
  intros He. rewrite mult_IZR, <- bpow_IZR by lia. rewrite Rmult_assoc, <- bpow_add. do 2 f_equal. lia.
Qed.

Lemma normalize_rel m e s :
  0 < m -> -900 <= e -> Zdigits2 m + e <= 900 ->
  rel (binary_normalize f_prec f_emax m e s) (IZR m * bpow e).
Proof.
  intros Hm Hlo Hhi. destruct m as [|p|]; [lia| |lia]. simpl. unfold binary_round.
  pose proof (shl_align_spec p e (fexp64 (Z.pos (digits2_pos p) + e))) as Hs.
  destruct (shl_align _ _ _) as [mz ez]. destruct Hs as [Hez Hmz]. rewrite fexp64_eq in Hez.
  simpl Zdigits2 in Hhi. assert (ez <= e) as Hle by lia.
  assert (Zdigits2 (Zpos mz) = Z.pos (digits2_pos p) + (e - ez)) as Hd
    by (apply digits_shift; [lia|done]).
  apply round_aux_rel; [done| |by left|lia|lia].
  unfold located. simpl. rewrite Hmz, IZR_shift by done. done.
Qed.

(** Integers and fractions that fit the mantissa are exact. *)
Lemma normalize_exact m e s :
  0 < m < 2 ^ 53 -> -900 <= e <= 900 ->
  exists m' e', binary_normalize f_prec f_emax m e s = S754_finite false m' e' /\
    (IZR (Zpos m') * bpow e' = IZR m * bpow e)%R /\ Zpos m' < 2 ^ 53 /\ e - 53 <= e' <= e.
Proof.
  intros Hm He. destruct m as [|p|]; [lia| |lia]. simpl. unfold binary_round.
  pose proof (digits_le p 53 ltac:(lia) ltac:(lia)) as Hd.
  pose proof (shl_align_spec p e (fexp64 (Z.pos (digits2_pos p) + e))) as Hs.
  destruct (shl_align _ _ _) as [mz ez]. destruct Hs as [Hez Hmz]. rewrite fexp64_eq in Hez.
  assert (Zdigits2 (Zpos mz) = Z.pos (digits2_pos p) + (e - ez)) as Hdz
    by (apply digits_shift; [lia|done]).
  destruct (round_aux_exact false (Zpos mz) ez) as (m' & -> & Em); [lia..|].
  exists m', ez. split; [done|]. rewrite Em. split; [rewrite Hmz, IZR_shift by lia; done|].
  split; [|lia]. pose proof (digits_bounds mz) as [_ Hb]. simpl in Hdz.
  eapply Z.lt_le_trans; [exact Hb|]. apply Z.pow_le_mono_r; lia.
Qed.

(** A positive float of moderate size with value [x]. *)
Definition exact_float (f : py_float) (x : R) : Prop :=
  exists m e, f = S754_finite false m e /\ -200 <= e <= 200 /\ Zpos m < 2 ^ 53 /\
    (IZR (Zpos m) * bpow e = x)%R.

Lemma mul_rel f g x y :
  exact_float f x ->
  exact_float g y ->
  rel (float_mul f g) (x * y).
Proof.
  intros (m & e & -> & He & Hm & <-) (m' & e' & -> & He' & Hm' & <-). unfold float_mul. simpl.
  assert (Zpos (m * m') < 2 ^ 106) as Hp by (rewrite Pos2Z.inj_mul; change (2 ^ 106) with (2 ^ 53 * 2 ^ 53); nia).
  pose proof (digits_le (m * m') 106 ltac:(lia) Hp) as Hd.
  apply round_aux_rel; [done| |by left|lia|simpl; lia].
  unfold located. simpl. rewrite Pos2Z.inj_mul, mult_IZR, bpow_add. lra.
Qed.

Lemma add_rel f g x y :
  exact_float f x ->
  exact_float g y ->
  rel (float_add f g) (x + y).
Proof.
  intros (m & e & -> & He & Hm & <-) (m' & e' & -> & He' & Hm' & <-). unfold float_add. simpl SFadd.
  pose proof (shl_align_spec m e (Z.min e e')) as H1. pose proof (shl_align_spec m' e' (Z.min e e')) as H2.
  destruct (shl_align m e _) as [mz ez], (shl_align m' e' _) as [mz' ez'].
  destruct H1 as [E1 V1], H2 as [E2 V2]. cbn [fst cond_Zopp].
  assert (ez = Z.min e e' /\ ez' = Z.min e e') as [-> ->] by lia.
  assert (IZR (Zpos m) * bpow e + IZR (Zpos m') * bpow e' = IZR (Zpos mz + Zpos mz') * bpow (Z.min e e'))%R as ->.
  { rewrite plus_IZR, V1, V2, Rmult_plus_distr_r, !IZR_shift by lia. done. }
  apply (normalize_rel (Zpos mz + Zpos mz') (Z.min e e') false); [lia|lia|]. change (Z.pos mz + Z.pos mz') with (Zpos (mz + mz')). simpl.
  assert (Zpos (digits2_pos (mz + mz')) <= 455); [|lia].
  apply digits_le; [lia|]. rewrite Pos2Z.inj_add, V1, V2.
  assert (2 ^ (e - Z.min e e') <= 2 ^ 400) by (apply Z.pow_le_mono_r; lia).
  assert (2 ^ (e' - Z.min e e') <= 2 ^ 400) by (apply Z.pow_le_mono_r; lia).
  replace 455 with (53 + 400 + 2) by done. rewrite !Z.pow_add_r by lia.
  assert (0 < 2 ^ 400) by lia. nia.
Qed.

(** ** Division of integers *)

Lemma new_location_located q b r e :
  0 < b -> 0 <= r < b ->
  located (shr_record_of_loc q (new_location b r)) e ((IZR q + IZR r / IZR b) * bpow e).
Proof.
  intros Hb Hr. pose proof (bpow_pos e) as He. assert (0 < IZR b)%R as HbR by (by apply IZR_lt).
  assert (IZR r / IZR b < 1)%R as H1.
  { apply (Rmult_lt_reg_r (IZR b)); [done|]. unfold Rdiv. rewrite Rmult_assoc, Rinv_l, Rmult_1_r, Rmult_1_l by lra.
    apply IZR_lt. lia. }
  assert (forall c, (2 * r ?= b) = c -> match c with
    | Lt => IZR r / IZR b < / 2 | Eq => IZR r / IZR b = / 2 | Gt => / 2 < IZR r / IZR b end)%R as Hc.
  { intros c Hc. assert (IZR r = IZR r / IZR b * IZR b)%R as E by (field; lra).
    destruct c; [apply Z.compare_eq in Hc|apply Z.compare_lt_iff in Hc|apply Z.compare_gt_iff in Hc].
    - apply IZR_eq in Hc. rewrite mult_IZR in Hc. nra.
    - apply IZR_lt in Hc. rewrite mult_IZR in Hc. nra.
    - apply IZR_lt in Hc. rewrite mult_IZR in Hc. nra. }
  unfold new_location, new_location_even, new_location_odd.
  destruct r as [|r|r]; [| |lia].
  { destruct (Z.even b); unfold located; simpl; unfold Rdiv; rewrite Rmult_0_l; lra. }
  assert (0 < IZR (Zpos r) / IZR b)%R as H0.
  { apply Rdiv_lt_0_compat; [|done]. apply IZR_lt. lia. }
  assert (forall y z, y < z -> y * bpow e < z * bpow e)%R as Hlt
    by (intros y z Hyz; by apply Rmult_lt_compat_r).
  destruct (Z.even b) eqn:Hev.
  - specialize (Hc _ eq_refl). cbn [Z.eqb]. destruct (2 * Zpos r ?= b); unfold located; simpl.
    + simpl in Hc. rewrite Hc. lra.
    + split; apply Hlt; lra.
    + split; apply Hlt; lra.
  - assert (2 * Zpos r <> b) as Hne by (intros <-; by rewrite Z.even_mul in Hev).
    destruct (Z.compare_spec (2 * Zpos r + 1) b) as [E|E|E].
    + specialize (Hc Lt ltac:(apply Z.compare_lt_iff; lia)). unfold located; simpl; split; apply Hlt; lra.
    + specialize (Hc Lt ltac:(apply Z.compare_lt_iff; lia)). unfold located; simpl; split; apply Hlt; lra.
    + specialize (Hc Gt ltac:(apply Z.compare_gt_iff; lia)). unfold located; simpl; split; apply Hlt; lra.
Qed.

Lemma truediv_rounds a b :
  0 < a < 2 ^ 53 -> 0 < b < 2 ^ 53 ->
  rel (int_truediv a b) (IZR a / IZR b) /\
  exists u, u <= Zdigits2 a - Zdigits2 b - 52 /\ rounds (int_truediv a b) false (IZR a / IZR b) u.
Proof.
  intros Ha Hb. unfold int_truediv. rewrite (proj2 (Z.eqb_neq a 0)) by lia.
  unfold SFdiv_core_binary. rewrite fexp64_eq. destruct a as [|a|], b as [|b|]; try lia.
  pose proof (digits_le a 53 ltac:(lia) ltac:(lia)) as Hda. pose proof (digits_le b 53 ltac:(lia) ltac:(lia)) as Hdb.
  pose proof (digits_bounds a) as [Ha1 Ha2]. pose proof (digits_bounds b) as [Hb1 Hb2]. simpl Zdigits2 in *.
  set (da := Z.pos (digits2_pos a)) in *. set (db := Z.pos (digits2_pos b)) in *.
  rewrite !Z.add_0_r, Z.sub_0_r, (Z.max_l (da - db - 53)), Z.min_l by lia.
  set (e := da - db - 53). destruct (0 - e) as [|s|] eqn:Es; [lia| |lia].
  rewrite Z.shiftl_mul_pow2 by lia.
  pose proof (Z.div_eucl_eq (Zpos a * 2 ^ Zpos s) (Zpos b) ltac:(lia)) as Hq.
  pose proof (Z.mod_pos_bound (Zpos a * 2 ^ Zpos s) (Zpos b) ltac:(lia)) as Hr. unfold Z.modulo in Hr.
  destruct (Z.div_eucl _ _) as [q r].
  assert (2 ^ 52 <= q < 2 ^ 54) as Hqb.
  { assert (2 ^ (52 + db) <= Zpos a * 2 ^ Zpos s < 2 ^ (53 + db)) as Hn.
    { replace (52 + db) with (da - 1 + Zpos s) by lia. replace (53 + db) with (da + Zpos s) by lia.
      rewrite !Z.pow_add_r by lia. assert (0 < 2 ^ Zpos s) by lia. nia. }
    rewrite Z.pow_add_r in Hn by lia. replace (53 + db) with (54 + (db - 1)) in Hn by lia.
    rewrite Z.pow_add_r in Hn by lia. assert (0 < 2 ^ (db - 1)) by (apply Z.pow_pos_nonneg; lia). nia. }
  assert (53 <= Zdigits2 q <= 54) as Hdq.
  { destruct q as [|q|]; [lia| |lia]. simpl. pose proof (digits_bounds q) as [Hq1 Hq2]. split.
    - assert (52 < Z.pos (digits2_pos q)); [|lia]. apply (Z.pow_lt_mono_r_iff 2); lia.
    - apply digits_le; lia. }
  assert ((IZR (Z.pos a) / IZR (Z.pos b))%R = ((IZR q + IZR r / IZR (Zpos b)) * bpow e)%R) as ->.
  { apply IZR_eq in Hq. rewrite plus_IZR, !mult_IZR, <- bpow_IZR in Hq by lia.
    assert (bpow (Zpos s) * bpow e = 1)%R as Hse by (rewrite <- bpow_add; replace (Zpos s + e) with 0 by lia; done).
    assert (0 < IZR (Zpos b))%R by (apply IZR_lt; lia).
    assert (IZR (Zpos a) = (IZR (Zpos b) * IZR q + IZR r) * bpow e)%R as E.
    { rewrite <- Hq, Rmult_assoc, Hse. lra. }
    rewrite E. field. lra. }
  pose proof (new_location_located q (Zpos b) r e ltac:(lia) Hr) as Hloc.
  split; [apply round_aux_rel; [lia|done|right; lia|lia|lia]|].
  exists (ulp_exponent q e). unfold ulp_exponent. split; [lia|].
  apply round_aux_rounds; [lia|done|lia|unfold ulp_exponent; lia].
Qed.

(** A rounded number is not below an integer that the exact one is not below. *)
Lemma rounds_above f x u n :
  rounds f false x u -> u <= 0 -> (IZR n <= x)%R -> (IZR n <= float_val f)%R.
Proof.
  intros (m & e & M & -> & _ & _ & Hgrid & Herr) Hu Hn. simpl float_val. rewrite Rmult_1_l.
  pose proof (bpow_pos u) as Hb. apply Rabs_between in Herr. rewrite Hgrid in *.
  assert (IZR n = IZR (n * 2 ^ (- u)) * bpow u)%R as En.
  { rewrite mult_IZR, <- bpow_IZR, Rmult_assoc, <- bpow_add by lia.
    replace (- u + u) with 0 by lia. change (bpow 0) with 1%R. lra. }
  rewrite En in *. apply Rmult_le_compat_r; [lra|]. apply IZR_le.
  assert (IZR (n * 2 ^ (- u)) - / 2 <= IZR M)%R as HM by nra.
  apply Z.lt_succ_r. apply lt_IZR. rewrite succ_IZR. lra.
Qed.

(** ** Back to integers *)

Lemma div_IZR v d n : 0 < d -> (IZR n * IZR d <= IZR v < (IZR n + 1) * IZR d)%R -> v / d = n.
Proof.
  intros Hd [H1 H2]. rewrite <- mult_IZR in H1. rewrite <- plus_IZR, <- mult_IZR in H2.
  apply le_IZR in H1. apply lt_IZR in H2. symmetry. apply (Z.div_unique v d n (v - d * n)); lia.
Qed.

(** [math.floor] of a non-negative float. *)
Lemma float_floor_val m e n :
  (IZR n <= IZR (Zpos m) * bpow e < IZR n + 1)%R -> float_floor (S754_finite false m e) = n.
Proof.
  intros Hn. simpl. destruct (Z.leb_spec 0 e) as [He|He].
  - rewrite bpow_IZR, <- mult_IZR, <- plus_IZR in Hn by done. destruct Hn as [H1%le_IZR H2%lt_IZR].
    rewrite Z.shiftl_mul_pow2 by done. lia.
  - apply div_IZR; [lia|]. rewrite <- bpow_IZR by lia.
    assert (bpow e * bpow (- e) = 1)%R as E by (rewrite <- bpow_add, Z.add_opp_diag_r; done).
    pose proof (bpow_pos (- e)) as Hp.
    assert (IZR (Zpos m) = IZR (Zpos m) * bpow e * bpow (- e))%R as -> by (rewrite Rmult_assoc, E; lra).
    split; [apply Rmult_le_compat_r|apply Rmult_lt_compat_r]; lra.
Qed.

(** Rounding to the nearest integer, away from ties. *)
Lemma float_round_val m e n :
  (- / 2 < IZR (Zpos m) * bpow e - IZR n < / 2)%R ->
  float_round_half_even (S754_finite false m e) = n.
Proof.
  intros Hn. simpl. destruct (Z.leb_spec 0 e) as [He|He].
  { rewrite bpow_IZR, <- mult_IZR, <- minus_IZR in Hn by done. rewrite Z.shiftl_mul_pow2 by done.
    assert (-1 < Zpos m * 2 ^ e - n < 1); [|lia]. split; apply lt_IZR; lra. }
  set (d := 2 ^ (- e)). assert (0 < d) as Hd by (apply Z.pow_pos_nonneg; lia).
  assert (IZR (Zpos m) * bpow e * IZR d = IZR (Zpos m))%R as E.
  { unfold d. rewrite <- bpow_IZR, Rmult_assoc, <- bpow_add, Z.add_opp_diag_r by lia.
    change (bpow 0) with 1%R. lra. }
  assert (0 < IZR d)%R as HdR by (by apply IZR_lt).
  assert (2 * n * d - d < 2 * Zpos m < 2 * n * d + d) as Hb.
  { split; apply lt_IZR; rewrite ?minus_IZR, ?plus_IZR, ?mult_IZR; nra. }
  pose proof (Z.div_mod (Zpos m) d ltac:(lia)) as Hdm. pose proof (Z.mod_pos_bound (Zpos m) d Hd) as Hm.
  set (q := Zpos m / d) in *. set (r := Zpos m mod d) in *.
  destruct (Z.ltb_spec (2 * r) d); simpl; [nia|]. destruct (Z.eqb_spec (2 * r) d); simpl; [|nia].
  assert (2 * n - 1 < 2 * q + 1 < 2 * n + 1); [|lia].
  split; apply (Z.mul_lt_mono_pos_r d); lia.
Qed.

(** [modf] splits a non-negative float exactly. *)
Lemma float_modf_val m e :
  Zpos m < 2 ^ 53 -> -140 <= e ->
  exists seconds fraction x, float_modf (S754_finite false m e) = Some (seconds, fraction) /\
    (IZR (Zpos m) * bpow e = IZR seconds + x)%R /\ (0 <= x < 1)%R /\
    (fraction = S754_zero false /\ x = 0%R \/ exact_float fraction x).
Proof.
  intros Hm He. simpl. destruct (Z.leb_spec 0 e) as [He0|He0].
  { eexists _, _, 0%R. split; [reflexivity|]. rewrite Z.shiftl_mul_pow2, mult_IZR, bpow_IZR by done.
    split; [lra|]. split; [lra|]. by left. }
  set (d := 2 ^ (- e)). assert (0 < d) as Hd by (apply Z.pow_pos_nonneg; lia).
  rewrite Z.quot_div_nonneg, Z.rem_mod_nonneg by lia.
  pose proof (Z.div_mod (Zpos m) d ltac:(lia)) as Hdm. pose proof (Z.mod_pos_bound (Zpos m) d Hd) as Hr.
  pose proof (Z.mod_le (Zpos m) d ltac:(lia) Hd) as Hle.
  set (q := Zpos m / d) in *. set (r := Zpos m mod d) in *. pose proof (bpow_pos e) as Hb.
  assert (IZR d * bpow e = 1)%R as E.
  { unfold d. rewrite <- bpow_IZR, <- bpow_add, Z.add_opp_diag_l by lia. done. }
  eexists _, _, (IZR r * bpow e)%R. split; [reflexivity|].
  split; [rewrite Hdm, plus_IZR, mult_IZR, Rmult_plus_distr_r, (Rmult_comm (IZR d)), Rmult_assoc, E; lra|].
  assert (0 <= IZR r)%R by (apply IZR_le; lia). assert (IZR r < IZR d)%R by (apply IZR_lt; lia).
  split; [split; [apply Rmult_le_pos; lra|rewrite <- E; by apply Rmult_lt_compat_r]|].
  destruct (Z.eq_dec r 0) as [->|Hr0]; [left; split; [done|lra]|right].
  destruct (normalize_exact r e false) as (m' & e' & -> & V & Hm' & He'); [lia|lia|].
  exists m', e'. split; [done|]. split; [lia|]. split; [done|exact V].
Qed.
