(* ===== verification/Timestamps.v ===== *)
(** * Timestamps

    Microsecond times survive the binary64 arithmetic of the capture code: what
    [datetime.fromtimestamp] returns for seconds and microseconds, [floor] of a
    timestamp, and the microsecond ticks of the PCAPNG writer and parser. *)

From Stdlib Require Import SpecFloat Reals Lra.
From S2P Require Import Prelude PyFloat FloatRounding.
#[local] Open Scope Z_scope.

Lemma bpow_m53 : bpow (-53) = (/ 9007199254740992)%R.
Proof.
  assert (bpow (-53) * bpow 53 = 1)%R as E by (rewrite <- bpow_add; done).
  rewrite (bpow_IZR 53) in E by done. change (2 ^ 53) with 9007199254740992 in E. lra.
Qed.

(** A rounded number as an exact float. *)
Lemma rel_exact f x a b :
  rel f x -> (bpow a <= x <= bpow b)%R -> -145 <= a -> b <= 199 ->
  exists y, exact_float f y /\ float_val f = y /\ (Rabs (y - x) <= x * bpow (-53))%R.
Proof.
  intros Hrel Hx Ha Hb. destruct (rel_exponent f x a b Hrel Hx) as (m & e & -> & Hm & He).
  apply rel_val in Hrel. simpl float_val in *. rewrite Rmult_1_l in *.
  eexists. split; [|split; [reflexivity|done]]. exists m, e. split; [done|]. split; [lia|]. done.
Qed.

Lemma float_of_Z_exact z : 0 < z < 2 ^ 53 -> exact_float (float_of_Z z) (IZR z).
Proof.
  intros Hz. destruct (normalize_exact z 0 false) as (m & e & Hf & V & Hm & He); [done|done|].
  exists m, e. split; [exact Hf|]. split; [lia|]. split; [done|].
  rewrite V. change (bpow 0) with 1%R. lra.
Qed.

(** ** [datetime.fromtimestamp] *)

Lemma fromtimestamp_close f y t :
  exact_float f y -> (-140 <= match f with S754_finite _ _ e => e | _ => 0 end) ->
  (Rabs (y - IZR t / 1000000) <= 49 / 100000000)%R ->
  0 <= t < (MAX_EPOCH_SECOND + 1) * 1000000 ->
  datetime_fromtimestamp f = Some t.
Proof.
  intros (m & e & -> & _ & Hm & <-) He Herr Ht. apply Rabs_between in Herr.
  destruct (float_modf_val m e Hm He) as (seconds & fraction & x & Hmodf & Hv & Hx & Hfr).
  unfold datetime_fromtimestamp. rewrite Hmodf, Hv in *.
  assert (float_round_half_even (float_mul fraction (float_of_Z 1000000)) = t - seconds * 1000000) as ->.
  { destruct Hfr as [[-> ->]|Hfr].
    - change (float_round_half_even _) with 0.
      assert (-1 < t - seconds * 1000000 < 1); [|lia].
      split; apply lt_IZR; rewrite minus_IZR, mult_IZR; lra.
    - destruct (mul_rel _ _ _ _ Hfr (float_of_Z_exact 1000000 ltac:(lia))) as (m' & e' & -> & _ & Herr').
      apply Rabs_between in Herr'. rewrite bpow_m53 in Herr'. apply float_round_val.
      rewrite minus_IZR, mult_IZR. lra. }
  replace (seconds * 1000000 + (t - seconds * 1000000)) with t by lia.
  unfold MAX_EPOCH_SECOND, MIN_EPOCH_SECOND in *.
  rewrite (proj2 (Z.leb_le _ _)), (proj2 (Z.leb_le _ _)); [done| |].
  - assert (t / 1000000 < 253402300799 + 1); [|lia]. apply Z.div_lt_upper_bound; lia.
  - etrans; [|apply Z.div_pos; lia]. lia.
Qed.

Lemma exact_exponent f y a b :
  exact_float f y -> (bpow a <= y <= bpow b)%R ->
  a - 55 <= match f with S754_finite _ _ e => e | _ => 0 end.
Proof.
  intros (m & e & -> & _ & Hm & <-) Hy.
  destruct (rel_exponent (S754_finite false m e) (IZR (Zpos m) * bpow e) a b) as (m' & e' & [= <- <-] & _ & He);
    [|done|lia].
  exists m, e. split; [done|]. split; [done|]. rewrite Rminus_diag, Rabs_R0.
  pose proof (bpow_pos (-53)). pose proof (bpow_pos a). apply Rmult_le_pos; lra.
Qed.

(** Numbers between a millionth and [2^33]. *)
Lemma bpow_m20 : (bpow (-20) <= / 1000000)%R.
Proof.
  assert (bpow (-20) * bpow 20 = 1)%R as E by (rewrite <- bpow_add; done).
  rewrite (bpow_IZR 20) in E by done. change (2 ^ 20) with 1048576 in E. lra.
Qed.

Lemma bpow_33 : bpow 33 = 8589934592%R.
Proof. rewrite bpow_IZR by done. done. Qed.

Lemma us_rel us : 0 < us < 2 ^ 53 -> rel (int_truediv us 1000000) (IZR us / 1000000).
Proof. intros Hus. apply (truediv_rounds us 1000000); [done|lia]. Qed.

Lemma us_exact us :
  0 < us < 2 ^ 32 * 1000000 ->
  exists y, exact_float (int_truediv us 1000000) y /\ float_val (int_truediv us 1000000) = y /\
    (Rabs (y - IZR us / 1000000) <= IZR us / 1000000 / 9007199254740992)%R.
Proof.
  intros Hus. assert (1 <= IZR us <= 4294967296000000)%R as HR by (split; apply IZR_le; lia).
  pose proof bpow_m20. pose proof bpow_33.
  destruct (rel_exact _ _ (-20) 33 (us_rel us ltac:(lia))) as (y & Hy & Hv & Herr); [lra|lia|lia|].
  exists y. split; [done|]. split; [done|]. rewrite bpow_m53 in Herr. lra.
Qed.

(** Whole seconds and microseconds, as the classic decoders add them. *)
Lemma classic_time_round_trip s us :
  0 <= s < 2 ^ 32 -> 0 <= us < 1000000 ->
  datetime_fromtimestamp (float_add (float_of_Z s) (int_truediv us 1000000)) = Some (s * 1000000 + us).
Proof.
  intros Hs Hus. pose proof bpow_m20 as H20. pose proof bpow_33 as H33.
  assert (0 <= s * 1000000 + us < (MAX_EPOCH_SECOND + 1) * 1000000) as Ht by (unfold MAX_EPOCH_SECOND; lia).
  assert (IZR (s * 1000000 + us) / 1000000 = IZR s + IZR us / 1000000)%R as Ex
    by (rewrite plus_IZR, mult_IZR; field).
  assert (0 <= IZR s <= 4294967295)%R as HsR by (split; apply IZR_le; lia).
  assert (0 <= IZR us <= 999999)%R as HusR by (split; apply IZR_le; lia).
  destruct (Z.eq_dec s 0) as [->|Hs0], (Z.eq_dec us 0) as [->|Hus0].
  - vm_compute. done.
  - destruct (us_exact us) as (y & Hy & _ & Herr); [lia|].
    assert (1 <= IZR us)%R by (apply IZR_le; lia). pose proof (Rabs_between _ _ Herr) as Hb.
    assert (float_add (float_of_Z 0) (int_truediv us 1000000) = int_truediv us 1000000) as ->
      by (destruct Hy as (m & e & -> & _); done).
    apply (fromtimestamp_close _ y); [done| | |done].
    + pose proof (exact_exponent _ _ (-21) 33 Hy) as He. etrans; [|apply He]; [lia|].
      assert (bpow (-20) = 2 * bpow (-21))%R by (rewrite <- bpow_succ; done). pose proof (bpow_pos (-21)). lra.
    + rewrite Ex. apply Rabs_le. lra.
  - pose proof (float_of_Z_exact s ltac:(lia)) as Hx.
    assert (float_add (float_of_Z s) (int_truediv 0 1000000) = float_of_Z s) as ->
      by (destruct Hx as (m & e & -> & _); done).
    assert (1 <= IZR s)%R by (apply IZR_le; lia).
    apply (fromtimestamp_close _ (IZR s)); [done| | |done].
    + pose proof (exact_exponent _ _ 0 33 Hx) as He. etrans; [|apply He]; [lia|].
      change (bpow 0) with 1%R. lra.
    + rewrite Ex. apply Rabs_le. lra.
  - pose proof (float_of_Z_exact s ltac:(lia)) as Hx.
    destruct (us_exact us) as (y & Hy & _ & Herr); [lia|]. pose proof (Rabs_between _ _ Herr) as Hb.
    assert (1 <= IZR s)%R by (apply IZR_le; lia). assert (1 <= IZR us)%R by (apply IZR_le; lia).
    destruct (rel_exact _ _ 0 33 (add_rel _ _ _ _ Hx Hy)) as (z & Hz & _ & Hz'); [change (bpow 0) with 1%R; lra|lia|lia|].
    rewrite bpow_m53 in Hz'. pose proof (Rabs_between _ _ Hz') as Hb'.
    apply (fromtimestamp_close _ z); [done| | |done].
    + pose proof (exact_exponent _ _ (-1) 34 Hz) as He. etrans; [|apply He]; [lia|].
      assert (bpow 0 = 2 * bpow (-1))%R by (rewrite <- bpow_succ; done). change (bpow 0) with 1%R in *.
      assert (bpow 34 = 2 * bpow 33)%R by (rewrite <- bpow_succ; done). lra.
    + rewrite Ex. apply Rabs_le. lra.
Qed.

(** [math.floor(timestamp)] is the whole seconds. *)
Lemma floor_timestamp t :
  0 <= t < 2 ^ 32 * 1000000 -> float_floor (int_truediv t 1000000) = t / 1000000.
Proof.
  intros Ht. destruct (Z.eq_dec t 0) as [->|Ht0]; [done|].
  destruct (us_exact t) as (y & Hy & Hv & Herr); [lia|].
  destruct (truediv_rounds t 1000000) as (_ & u & Hu & Hr); [lia|lia|].
  assert (Zdigits2 t <= 52) as Hd.
  { destruct t as [|p|]; [lia| |lia]. simpl. apply digits_le; lia. }
  change (Zdigits2 1000000) with 20 in Hu.
  pose proof (Z.div_mod t 1000000 ltac:(lia)) as Hdm. pose proof (Z.mod_pos_bound t 1000000 ltac:(lia)) as Hm.
  set (n := t / 1000000) in *.
  assert (IZR t / 1000000 = IZR n + IZR (t mod 1000000) / 1000000)%R as Ex
    by (rewrite Hdm at 1; rewrite plus_IZR, mult_IZR; field).
  assert (0 <= IZR (t mod 1000000) <= 999999)%R as HmR by (split; apply IZR_le; lia).
  assert (IZR t <= 4294967296000000)%R as HtR by (apply IZR_le; lia).
  assert (1 <= IZR t)%R as HtR1 by (apply IZR_le; lia).
  pose proof (rounds_above _ _ _ n Hr ltac:(lia) ltac:(lra)) as Habove.
  pose proof (Rabs_between _ _ Herr) as Hb. rewrite Hv in Habove.
  destruct Hy as (m & e & -> & _ & _ & <-). apply float_floor_val. lra.
Qed.

(** [round(timestamp * 1_000_000)] is the microseconds. *)
Lemma ticks_of_timestamp t :
  0 <= t < 2 ^ 31 * 1000000 ->
  float_round_half_even (float_mul (int_truediv t 1000000) (float_of_Z 1000000)) = t.
Proof.
  intros Ht. destruct (Z.eq_dec t 0) as [->|Ht0]; [done|].
  destruct (us_exact t) as (y & Hy & _ & Herr); [lia|]. apply Rabs_between in Herr.
  destruct (mul_rel _ _ _ _ Hy (float_of_Z_exact 1000000 ltac:(lia))) as (m & e & -> & _ & Hz).
  apply Rabs_between in Hz. rewrite bpow_m53 in Hz.
  assert (1 <= IZR t <= 2147483648000000)%R as HtR by (split; apply IZR_le; lia).
  apply float_round_val. lra.
Qed.

(** Microsecond ticks, as the PCAPNG parser scales them. *)
Lemma ng_time_round_trip t :
  0 <= t < 2 ^ 31 * 1000000 ->
  datetime_fromtimestamp
    (float_add (float_mul (float_of_Z t) (int_truediv 1 1000000)) (float_of_Z 0)) = Some t.
Proof.
  intros Ht. destruct (Z.eq_dec t 0) as [->|Ht0]; [vm_compute; done|].
  pose proof bpow_m20 as H20. pose proof bpow_33 as H33.
  assert (1 <= IZR t <= 2147483648000000)%R as HtR by (split; apply IZR_le; lia).
  destruct (us_exact 1) as (r & Hr & _ & Herr); [lia|]. apply Rabs_between in Herr.
  pose proof (mul_rel _ _ _ _ (float_of_Z_exact t ltac:(lia)) Hr) as Hrel.
  assert (IZR t * / 1000000 * (1 - / 9007199254740992) <= IZR t * r <= IZR t * / 1000000 * (1 + / 9007199254740992))%R as Htr
    by (split; nra).
  assert (bpow (-20) = 2 * bpow (-21))%R as H21 by (rewrite <- bpow_succ; done).
  pose proof (bpow_pos (-21)) as Hp21.
  destruct (rel_exact _ _ (-21) 33 Hrel) as (z & Hz & _ & Hz'); [lra|lia|lia|].
  rewrite bpow_m53 in Hz'. apply Rabs_between in Hz'.
  assert (forall f, exact_float f z -> float_add f (float_of_Z 0) = f) as Hadd
    by (intros f (m & e & -> & _); done).
  rewrite Hadd by done.
  apply (fromtimestamp_close _ z); [done| | |unfold MAX_EPOCH_SECOND; lia].
  - assert (bpow (-21) = 2 * bpow (-22))%R by (rewrite <- bpow_succ; done). pose proof (bpow_pos (-22)).
    pose proof (exact_exponent _ _ (-22) 33 Hz) as He. etrans; [|apply He]; [lia|]. lra.
  - apply Rabs_le. lra.
Qed.

(** ** Times beyond the microsecond *)

(** Rounding to an integer moves a number by at most a half. *)
Lemma float_round_near m e :
  (Rabs (IZR (float_round_half_even (S754_finite false m e)) - IZR (Zpos m) * bpow e) <= / 2)%R.
Proof.
  simpl. destruct (Z.leb_spec 0 e) as [He|He].
  { rewrite Z.shiftl_mul_pow2, mult_IZR, bpow_IZR, Rminus_diag, Rabs_R0 by done. lra. }
  set (d := 2 ^ (- e)). assert (0 < d) as Hd by (apply Z.pow_pos_nonneg; lia).
  assert (IZR (Zpos m) * bpow e * IZR d = IZR (Zpos m))%R as E.
  { unfold d. rewrite <- bpow_IZR, Rmult_assoc, <- bpow_add, Z.add_opp_diag_r by lia.
    change (bpow 0) with 1%R. lra. }
  assert (0 < IZR d)%R as HdR by (by apply IZR_lt).
  pose proof (Z.div_mod (Zpos m) d ltac:(lia)) as Hdm. pose proof (Z.mod_pos_bound (Zpos m) d Hd) as Hm.
  set (q := Zpos m / d) in *. set (r := Zpos m mod d) in *.
  assert (forall n, - d <= 2 * (n * d - Zpos m) <= d ->
    (Rabs (IZR n - IZR (Zpos m) * bpow e) <= / 2)%R) as Hn.
  { intros n [H1 H2]. apply IZR_le in H1, H2. rewrite ?mult_IZR, ?minus_IZR, ?mult_IZR in H1, H2.
    rewrite (opp_IZR d) in H1. revert E H1 H2. generalize (IZR (Zpos m) * bpow e)%R. intros X <- H1 H2. apply Rabs_le.
    split; apply (Rmult_le_reg_r (IZR d)); nra. }
  destruct (Z.ltb_spec (2 * r) d); simpl; [apply Hn; rewrite Hdm; nia|].
  destruct (Z.eqb_spec (2 * r) d); simpl; [|apply Hn; nia]. destruct (Z.even q); apply Hn; nia.
Qed.

(** [datetime.fromtimestamp] gives a microsecond next to the number. *)
Lemma fromtimestamp_near f y :
  exact_float f y -> (-140 <= match f with S754_finite _ _ e => e | _ => 0 end) -> (0 <= y <= 8589934592)%R ->
  exists t, datetime_fromtimestamp f = Some t /\ (Rabs (IZR t - y * 1000000) <= / 2 + / 1000000)%R.
Proof.
  intros (m & e & -> & _ & Hm & <-) He Hy.
  destruct (float_modf_val m e Hm He) as (seconds & fraction & x & Hmodf & Hv & Hx & Hfr).
  unfold datetime_fromtimestamp. rewrite Hmodf, Hv in *. clear Hmodf Hv.
  set (us := float_round_half_even _).
  assert (Rabs (IZR us - x * 1000000) <= / 2 + / 1000000)%R as Hus.
  { destruct Hfr as [[-> ->]|Hfr].
    - unfold us. change (float_round_half_even _) with 0. apply Rabs_le. lra.
    - destruct (mul_rel _ _ _ _ Hfr (float_of_Z_exact 1000000 ltac:(lia))) as (m' & e' & Hf' & _ & Herr').
      unfold us. rewrite Hf'. pose proof (Rabs_between _ _ (float_round_near m' e')) as H2.
      apply Rabs_between in Herr'. rewrite bpow_m53 in Herr'. apply Rabs_le. lra. }
  apply Rabs_between in Hus.
  assert (-1 < seconds < 8589934593) as Hs by (split; apply lt_IZR; lra).
  assert (-1 < us < 1000001) as Hu by (split; apply lt_IZR; lra).
  cbv zeta. unfold MAX_EPOCH_SECOND, MIN_EPOCH_SECOND.
  assert (0 <= (seconds * 1000000 + us) / 1000000 < 253402300799) as Hq.
  { split; [apply Z.div_pos; lia|apply Z.div_lt_upper_bound; lia]. }
  rewrite (proj2 (Z.leb_le _ _)), (proj2 (Z.leb_le _ _)) by lia. eexists. split; [done|].
  rewrite plus_IZR, mult_IZR. apply Rabs_le. lra.
Qed.

Lemma truediv_exact a b :
  0 < a < 2 ^ 32 -> 0 < b <= 1000000000 ->
  exists y, exact_float (int_truediv a b) y /\ (Rabs (y - IZR a / IZR b) <= IZR a / IZR b / 9007199254740992)%R.
Proof.
  intros Ha Hb. assert (1 <= IZR a <= 4294967295)%R as HaR by (split; apply IZR_le; lia).
  assert (1 <= IZR b <= 1000000000)%R as HbR by (split; apply IZR_le; lia).
  assert (bpow (-30) <= IZR a / IZR b <= bpow 33)%R as Hx.
  { rewrite bpow_33. assert (bpow (-30) * bpow 30 = 1)%R as E by (rewrite <- bpow_add; done).
    rewrite (bpow_IZR 30) in E by done. change (2 ^ 30) with 1073741824 in E.
    split; apply (Rmult_le_reg_r (IZR b)); try lra; unfold Rdiv; rewrite Rmult_assoc, Rinv_l by lra; nra. }
  destruct (truediv_rounds a b ltac:(lia) ltac:(lia)) as [Hrel _].
  destruct (rel_exact _ _ (-30) 33 Hrel Hx) as (y & Hy & _ & Herr); [lia|lia|].
  exists y. split; [done|]. by rewrite bpow_m53 in Herr.
Qed.

(** Whole seconds and a sub-second field of any size, as the classic decoders add
    them: less than a microsecond from the exact sum. *)
Lemma classic_time_near s f r :
  0 <= s < 2 ^ 32 + 5000 -> 0 <= f < 2 ^ 32 -> 1000000 <= r <= 1000000000 ->
  exists t, datetime_fromtimestamp (float_add (float_of_Z s) (int_truediv f r)) = Some t /\
    (Rabs (IZR t - (IZR s + IZR f / IZR r) * 1000000) < 1)%R.
Proof.
  intros Hs Hf Hr. pose proof bpow_33 as H33.
  assert (0 <= IZR s <= 4294972295)%R as HsR by (split; apply IZR_le; lia).
  assert (0 <= IZR f <= 4294967295)%R as HfR by (split; apply IZR_le; lia).
  assert (1000000 <= IZR r <= 1000000000)%R as HrR by (split; apply IZR_le; lia).
  assert (0 <= IZR f / IZR r <= 4295)%R as Hq.
  { split; apply (Rmult_le_reg_r (IZR r)); try lra; unfold Rdiv; rewrite Rmult_assoc, Rinv_l by lra; lra. }
  destruct (Z.eq_dec s 0) as [->|Hs0], (Z.eq_dec f 0) as [->|Hf0].
  - exists 0. split; [by vm_compute|]. apply Rabs_def1; lra.
  - destruct (truediv_exact f r) as (y & Hy & Herr); [lia|lia|]. apply Rabs_between in Herr.
    assert (float_add (float_of_Z 0) (int_truediv f r) = int_truediv f r) as ->
      by (destruct Hy as (m & e & -> & _); done).
    assert (bpow (-31) <= y)%R as Hlow.
    { assert (1 <= IZR f)%R by (apply IZR_le; lia).
      assert (bpow (-31) * bpow 31 = 1)%R as E by (rewrite <- bpow_add; done).
      rewrite (bpow_IZR 31) in E by done. change (2 ^ 31) with 2147483648 in E.
      assert (/ 1000000000 <= IZR f / IZR r)%R; [|lra].
      apply (Rmult_le_reg_r (IZR r)); [lra|]. unfold Rdiv. rewrite Rmult_assoc, Rinv_l by lra. lra. }
    destruct (fromtimestamp_near _ y Hy) as (t & Ht & Hn).
    + etrans; [|apply (exact_exponent _ _ (-31) 33 Hy)]; [lia|]. lra.
    + pose proof (bpow_pos (-31)). lra.
    + exists t. split; [done|]. apply Rabs_between in Hn. apply Rabs_def1; lra.
  - pose proof (float_of_Z_exact s ltac:(lia)) as Hx.
    assert (float_add (float_of_Z s) (int_truediv 0 r) = float_of_Z s) as ->
      by (destruct Hx as (m & e & -> & _); done).
    assert (1 <= IZR s)%R by (apply IZR_le; lia).
    destruct (fromtimestamp_near _ (IZR s) Hx) as (t & Ht & Hn).
    + etrans; [|apply (exact_exponent _ _ 0 33 Hx)]; [lia|]. change (bpow 0) with 1%R. lra.
    + lra.
    + exists t. split; [done|]. apply Rabs_between in Hn. apply Rabs_def1; lra.
  - pose proof (float_of_Z_exact s ltac:(lia)) as Hx.
    destruct (truediv_exact f r) as (y & Hy & Herr); [lia|lia|]. apply Rabs_between in Herr.
    assert (1 <= IZR s)%R by (apply IZR_le; lia).
    destruct (rel_exact _ _ 0 33 (add_rel _ _ _ _ Hx Hy)) as (z & Hz & _ & Hz'); [change (bpow 0) with 1%R; lra|lia|lia|].
    rewrite bpow_m53 in Hz'. apply Rabs_between in Hz'.
    destruct (fromtimestamp_near _ z Hz) as (t & Ht & Hn).
    + etrans; [|apply (exact_exponent _ _ (-1) 33 Hz)]; [lia|].
      assert (bpow 0 = 2 * bpow (-1))%R by (rewrite <- bpow_succ; done). change (bpow 0) with 1%R in *. lra.
    + lra.
    + exists t. split; [done|]. apply Rabs_between in Hn. apply Rabs_def1; lra.
Qed.

(** Adding a zero offset changes no time. *)
Lemma fromtimestamp_add_0 f : datetime_fromtimestamp (float_add f (float_of_Z 0)) = datetime_fromtimestamp f.
Proof. change (float_of_Z 0) with (S754_zero false). unfold float_add. destruct f as [[]|[]| |s m e]; done. Qed.

(** Two ways to write a time agree to a microsecond. *)
Lemma classic_times_close s f s' f' r :
  0 <= s < 2 ^ 32 + 5000 -> 0 <= f < 2 ^ 32 -> 0 <= s' < 2 ^ 32 + 5000 -> 0 <= f' < 2 ^ 32 ->
  1000000 <= r <= 1000000000 -> s * r + f = s' * r + f' ->
  exists t t', datetime_fromtimestamp (float_add (float_of_Z s) (int_truediv f r)) = Some t /\
    datetime_fromtimestamp (float_add (float_of_Z s') (int_truediv f' r)) = Some t' /\ Z.abs (t' - t) <= 1.
Proof.
  intros Hs Hf Hs' Hf' Hr Heq. destruct (classic_time_near s f r Hs Hf Hr) as (t & -> & Ht).
  destruct (classic_time_near s' f' r Hs' Hf' Hr) as (t' & -> & Ht'). exists t, t'. split_and!; [done|done|].
  assert (IZR s + IZR f / IZR r = IZR s' + IZR f' / IZR r)%R as E.
  { apply (f_equal IZR) in Heq. rewrite !plus_IZR, !mult_IZR in Heq.
    assert (1000000 <= IZR r)%R by (apply IZR_le; lia). apply (Rmult_eq_reg_r (IZR r)); [|lra].
    unfold Rdiv. rewrite !Rmult_plus_distr_r, !Rmult_assoc, !Rinv_l by lra. lra. }
  rewrite E in Ht. apply Rabs_def2 in Ht, Ht'.
  assert (-2 < t' - t < 2); [|lia]. split; apply lt_IZR; rewrite minus_IZR; lra.
Qed.
