(* ===== verification/IpAddress.v ===== *)
(** * IpAddress

    The part of Python's [ipaddress] module the code uses: textual form and
    parsing of IPv4 and IPv6 addresses, networks with [strict=False], and
    membership of an address in a network.  Text is ASCII.  The scope of an
    IPv6 address ("%eth0") is checked and then dropped: it never takes part in
    the integers the callers compare. *)

From Stdlib Require Import Ascii String.
From S2P Require Import Prelude Bytes.

(** [IPv4Address] / [IPv6Address] with their integer value. *)
Inductive ip_address : Type :=
  | IPv4Address (ip : Z)
  | IPv6Address (ip : Z).

#[global] Instance ip_address_eq_dec : EqDecision ip_address.
Proof. solve_decision. Defined.

Definition ip_version (a : ip_address) : Z :=
  match a with IPv4Address _ => 4 | IPv6Address _ => 6 end.
Definition ip_int (a : ip_address) : Z :=
  match a with IPv4Address n | IPv6Address n => n end.

(** [max_prefixlen] of a version. *)
Definition max_prefixlen (version : Z) : Z := if version =? 4 then 32 else 128.

Definition ip_ok (a : ip_address) : Prop := 0 <= ip_int a < 2 ^ max_prefixlen (ip_version a).

(** [ip_address(packed_bytes)] on four or sixteen bytes, and [.packed]. *)
Definition ip_of_packed (bs : bytes) : ip_address :=
  if zlen bs =? 4 then IPv4Address (from_be bs) else IPv6Address (from_be bs).
Definition ip_packed (a : ip_address) : bytes :=
  match a with IPv4Address n => to_be 4 n | IPv6Address n => to_be 16 n end.

(** ** Strings as lists of characters *)

Abbreviation text := (list ascii) (only parsing).

Definition chars (s : string) : text := String.list_ascii_of_string s.
Definition of_chars (l : text) : string := String.string_of_list_ascii l.

(** [s.split(sep)] for a one-character separator. *)
Fixpoint split_on (sep : ascii) (l : text) : list text :=
  match l with
  | [] => [[]]
  | c :: l' =>
      if bool_decide (c = sep) then [] :: split_on sep l'
      else match split_on sep l' with
           | p :: ps => (c :: p) :: ps
           | [] => [[c]]
           end
  end.

(** [sep.join(parts)]. *)
Fixpoint join_with (sep : ascii) (parts : list text) : text :=
  match parts with
  | [] => []
  | [p] => p
  | p :: ps => p ++ sep :: join_with sep ps
  end.

(** Digits in a base up to 16, lower case, most significant first, no padding. *)
Definition digit_char (d : Z) : ascii :=
  ascii_of_N (Z.to_N (if d <? 10 then 48 + d else 87 + d)).

Fixpoint digits_loop (fuel : nat) (base v : Z) (acc : text) : text :=
  match fuel with
  | O => acc
  | S fuel' =>
      let acc := digit_char (v mod base) :: acc in
      if v <? base then acc else digits_loop fuel' base (v / base) acc
  end.

(** ["%d" % v] for an octet and ["%x" % v] for a hextet. *)
Definition format_octet (v : Z) : text := digits_loop 3 10 v [].
Definition format_hextet (v : Z) : text := digits_loop 4 16 v [].

(** The value of a digit character in base 16. *)
Definition hex_value (c : ascii) : option Z :=
  let n := Z.of_N (N_of_ascii c) in
  if (48 <=? n) && (n <=? 57) then Some (n - 48)
  else if (97 <=? n) && (n <=? 102) then Some (n - 87)
  else if (65 <=? n) && (n <=? 70) then Some (n - 55)
  else None.

Fixpoint parse_base (base : Z) (l : text) (acc : Z) : option Z :=
  match l with
  | [] => Some acc
  | c :: l' =>
      match hex_value c with
      | Some d => if d <? base then parse_base base l' (acc * base + d) else None
      | None => None
      end
  end.

(** ** IPv4 text *)

Definition ipv4_str (n : Z) : text :=
  join_with "."%char (map (fun b => format_octet (b2z b)) (to_be 4 n)).

(** [_parse_octet] *)
Definition parse_octet (l : text) : option Z :=
  if bool_decide (l = []) || (3 <? zlen l) || (bool_decide (head l = Some "0"%char) && (1 <? zlen l))
  then None
  else match parse_base 10 l 0 with
       | Some v => if v <=? 255 then Some v else None
       | None => None
       end.

Definition parse_octets (parts : list text) : option Z :=
  match mapM parse_octet parts with
  | Some vs => if zlen parts =? 4 then Some (from_be (map z2b vs)) else None
  | None => None
  end.

(** [IPv4Address(text)] *)
Definition parse_ipv4 (l : text) : option Z :=
  if existsb (fun c => bool_decide (c = "/"%char)) l then None
  else parse_octets (split_on "."%char l).

(** ** IPv6 text *)

(** The eight hextets, most significant first. *)
Definition hextets (n : Z) : list Z :=
  map (fun i => Z.land (Z.shiftr n (16 * (7 - Z.of_nat i))) 65535) (seq 0 8).

(** The longest run of zero hextets: start and length of the first longest. *)
Fixpoint best_zero_run (l : list Z) (index start len best_start best_len : Z) : Z * Z :=
  match l with
  | [] => (best_start, best_len)
  | h :: l' =>
      if h =? 0 then
        let len := len + 1 in
        let start := if start =? -1 then index else start in
        if best_len <? len then best_zero_run l' (index + 1) start len start len
        else best_zero_run l' (index + 1) start len best_start best_len
      else best_zero_run l' (index + 1) (-1) 0 best_start best_len
  end.

(** [_compress_hextets] *)
Definition compress_hextets (hs : list Z) : list text :=
  let parts := map format_hextet hs in
  let '(start, len) := best_zero_run hs 0 (-1) 0 (-1) 0 in
  if 1 <? len then
    let stop := start + len in
    let tail := zdrop stop parts ++ (if stop =? zlen parts then [[]] else []) in
    (if start =? 0 then [[]] else []) ++ ztake start parts ++ [[]] ++ tail
  else parts.

Definition ipv6_str (n : Z) : text := join_with ":"%char (compress_hextets (hextets n)).

(** [_parse_hextet] *)
Definition parse_hextet (l : text) : option Z :=
  match parse_base 16 l 0 with
  | Some v => if 4 <? zlen l then None else Some v
  | None => None
  end.

Definition parse_hextets (parts : list text) : option (list Z) := mapM parse_hextet parts.

(** The inner positions of the empty parts. *)
Definition skip_indices (parts : list text) : list nat :=
  filter (fun i => parts !! i = Some []) (seq 1 (length parts - 2)).

Fixpoint from_hextets (hs : list Z) (acc : Z) : Z :=
  match hs with
  | [] => acc
  | h :: hs' => from_hextets hs' (Z.lor (Z.shiftl acc 16) h)
  end.

(** A dotted quad in the last part becomes two hextets. *)
Definition expand_ipv4_tail (parts : list text) : option (list text) :=
  match last parts with
  | Some tail =>
      if existsb (fun c => bool_decide (c = "."%char)) tail then
        match parse_ipv4 tail with
        | Some v => Some (take (length parts - 1) parts
                          ++ [format_hextet (Z.land (Z.shiftr v 16) 65535);
                              format_hextet (Z.land v 65535)])
        | None => None
        end
      else Some parts
  | None => Some parts
  end.

(** The parts before and after "::" and the hextets it stands for. *)
Definition layout_parts (parts : list text) : option (list text * Z * list text) :=
  match skip_indices parts with
  | [] =>
      if (zlen parts =? 8) && negb (bool_decide (head parts = Some []))
         && negb (bool_decide (last parts = Some []))
      then Some (parts, 0, []) else None
  | [skip] =>
      let hi := Z.of_nat skip in
      let lo := zlen parts - hi - 1 in
      let lead := bool_decide (head parts = Some []) in
      let trail := bool_decide (last parts = Some []) in
      let hi := if lead then hi - 1 else hi in
      let lo := if trail then lo - 1 else lo in
      if (lead && negb (hi =? 0)) || (trail && negb (lo =? 0)) || (8 - (hi + lo) <? 1) then None
      else Some (ztake hi parts, 8 - (hi + lo), zdrop (zlen parts - lo) parts)
  | _ => None
  end.

Definition parse_ipv6_parts (parts : list text) : option Z :=
  if zlen parts <? 3 then None
  else
    parts ← expand_ipv4_tail parts;
    if 9 <? zlen parts then None
    else
      '(hi, skipped, lo) ← layout_parts parts;
      his ← parse_hextets hi;
      los ← parse_hextets lo;
      Some (from_hextets los (Z.shiftl (from_hextets his 0) (16 * skipped))).

(** [ip_str.partition('%')]: the address, unless the scope is malformed. *)
Definition strip_scope (l : text) : option text :=
  match split_on "%"%char l with
  | [addr] => Some addr
  | [addr; scope] => if bool_decide (scope = []) then None else Some addr
  | _ => None
  end.

(** [IPv6Address(text)] *)
Definition parse_ipv6 (l : text) : option Z :=
  if existsb (fun c => bool_decide (c = "/"%char)) l then None
  else addr ← strip_scope l;
       if bool_decide (addr = []) then None else parse_ipv6_parts (split_on ":"%char addr).

(** ** Addresses and networks *)

(** [str(address)] *)
Definition ip_str (a : ip_address) : string :=
  of_chars (match a with IPv4Address n => ipv4_str n | IPv6Address n => ipv6_str n end).

(** [ipaddress.ip_address(text)]; [None] is [ValueError]. *)
Definition parse_ip_address (s : string) : option ip_address :=
  match parse_ipv4 (chars s) with
  | Some n => Some (IPv4Address n)
  | None => IPv6Address <$> parse_ipv6 (chars s)
  end.

(** A network: its (masked) address and prefix length. *)
Record ip_network : Type := mk_network {
  net_address : ip_address;
  net_prefixlen : Z;
}.

#[global] Instance ip_network_eq_dec : EqDecision ip_network.
Proof. solve_decision. Defined.

Definition netmask (width prefix : Z) : Z := Z.shiftl (Z.ones prefix) (width - prefix).

(** [_prefix_from_prefix_string] *)
Definition parse_prefix (width : Z) (l : text) : option Z :=
  if bool_decide (l = []) then None
  else match parse_base 10 l 0 with
       | Some p => if p <=? width then Some p else None
       | None => None
       end.

(** [_prefix_from_ip_int]: a mask of leading ones. *)
Definition prefix_from_mask (width mask : Z) : option Z :=
  Z.of_nat <$> head (filter (fun p => netmask width (Z.of_nat p) = mask)
                       (seq 0 (S (Z.to_nat width)))).

(** [_prefix_from_ip_string]: a netmask or a host mask. *)
Definition prefix_from_ip_string (l : text) : option Z :=
  match parse_ipv4 l with
  | Some mask =>
      match prefix_from_mask 32 mask with
      | Some p => Some p
      | None => prefix_from_mask 32 (Z.lxor mask (Z.ones 32))
      end
  | None => None
  end.

Definition ipv4_network (l : text) : option ip_network :=
  match split_on "/"%char l with
  | [addr] => n ← parse_ipv4 addr; Some (mk_network (IPv4Address n) 32)
  | [addr; mask] =>
      n ← parse_ipv4 addr;
      p ← match parse_prefix 32 mask with
          | Some p => Some p
          | None => prefix_from_ip_string mask
          end;
      Some (mk_network (IPv4Address (Z.land n (netmask 32 p))) p)
  | _ => None
  end.

Definition ipv6_network (l : text) : option ip_network :=
  match split_on "/"%char l with
  | [addr] => n ← parse_ipv6 addr; Some (mk_network (IPv6Address n) 128)
  | [addr; mask] =>
      n ← parse_ipv6 addr;
      p ← parse_prefix 128 mask;
      Some (mk_network (IPv6Address (Z.land n (netmask 128 p))) p)
  | _ => None
  end.

(** [ipaddress.ip_network(text, strict=False)]; [None] is [ValueError]. *)
Definition parse_ip_network (s : string) : option ip_network :=
  match ipv4_network (chars s) with
  | Some net => Some net
  | None => ipv6_network (chars s)
  end.

Definition net_version (net : ip_network) : Z := ip_version net.(net_address).

(** [address in network] *)
Definition in_network (a : ip_address) (net : ip_network) : bool :=
  (ip_version a =? net_version net) &&
  (Z.land (ip_int a) (netmask (max_prefixlen (ip_version a)) net.(net_prefixlen))
     =? ip_int net.(net_address)).

(** Printing and parsing are not unfolded by simplification. *)
#[global] Arguments ipv4_str : simpl never.
#[global] Arguments ipv6_str : simpl never.
#[global] Arguments hextets : simpl never.
#[global] Arguments compress_hextets : simpl never.
#[global] Arguments parse_ipv4 : simpl never.
#[global] Arguments parse_ipv6 : simpl never.
#[global] Arguments ip_str : simpl never.
#[global] Arguments parse_ip_address : simpl never.
#[global] Arguments parse_ip_network : simpl never.
#[global] Arguments netmask : simpl never.
#[global] Arguments in_network : simpl never.
#[global] Arguments chars : simpl never.
#[global] Arguments of_chars : simpl never.
