(* ===== verification/IpText.v ===== *)
(** * IpText

    The textual forms of [IpAddress] lose nothing: parsing what [str] prints
    gives the address back, as an address and as a host network.  Everything
    that compares addresses as text relies on this. *)

From Stdlib Require Import Ascii String.
From S2P Require Import Prelude Bytes IpAddress.

(** ** Splitting and joining *)

Lemma split_on_no_sep sep p : sep ∉ p -> split_on sep p = [p].
Proof.
  induction p as [|c p IH]; intros H; simpl; [done|].
  apply not_elem_of_cons in H as [Hc Hp].
  rewrite bool_decide_false by done. by rewrite IH.
Qed.

Lemma split_on_app sep p l : sep ∉ p -> split_on sep (p ++ sep :: l) = p :: split_on sep l.
Proof.
  induction p as [|c p IH]; intros H; simpl.
  - by rewrite bool_decide_true.
  - apply not_elem_of_cons in H as [Hc Hp].
    rewrite bool_decide_false by done. by rewrite IH.
Qed.

Lemma split_join sep parts :
  parts <> [] -> Forall (fun p => sep ∉ p) parts -> split_on sep (join_with sep parts) = parts.
Proof.
  intros Hne H. induction H as [|p parts Hp H IH]; [done|].
  destruct parts as [|q parts]; simpl.
  - by apply split_on_no_sep.
  - rewrite split_on_app by done. f_equal. by apply IH.
Qed.

Lemma join_with_no_char sep c parts :
  c <> sep -> Forall (fun p => c ∉ p) parts -> c ∉ join_with sep parts.
Proof.
  intros Hc H. induction H as [|p parts Hp H IH]; simpl; [apply not_elem_of_nil|].
  destruct parts as [|q parts]; [done|].
  apply not_elem_of_app. split; [done|]. by apply not_elem_of_cons.
Qed.

Lemma existsb_char_false (c : ascii) l : c ∉ l -> existsb (fun x => bool_decide (x = c)) l = false.
Proof.
  induction l as [|x l IH]; intros H; simpl; [done|].
  apply not_elem_of_cons in H as [Hx Hl]. rewrite bool_decide_false by done. by apply IH.
Qed.

(** What the parsers need of a printed number. *)
Record digits_ok (l : text) : Prop := {
  digits_nonempty : l <> [];
  digits_no_sep : forall c, c ∈ ["."; "/"; ":"; "%"]%char -> c ∉ l;
}.

Definition digits_okb (l : text) : bool :=
  match l with [] => false | _ => true end &&
  forallb (fun c => match hex_value c with Some _ => true | None => false end) l.

Lemma digits_okb_ok l : digits_okb l = true -> digits_ok l.
Proof.
  unfold digits_okb. intros [H1 H2]%andb_prop. split; [by destruct l|].
  intros c Hc Hin. rewrite forallb_forall in H2. apply list_elem_of_In, H2 in Hin.
  rewrite !elem_of_cons in Hc. by destruct Hc as [->|[->|[->|[->|[]%elem_of_nil]]]].
Qed.

Lemma octet_round_trip b :
  parse_octet (format_octet (b2z b)) = Some (b2z b) /\ digits_ok (format_octet (b2z b)).
Proof. split; [|apply digits_okb_ok]; destruct b; vm_compute; reflexivity. Qed.

(** Checks a boolean property of [v, v+1, ..., v+n-1]. *)
Fixpoint check_range (f : Z -> bool) (n : nat) (v : Z) : bool :=
  match n with O => true | S n' => f v && check_range f n' (v + 1) end.

Lemma check_range_spec f n v x :
  check_range f n v = true -> v <= x < v + Z.of_nat n -> f x = true.
Proof.
  revert v. induction n as [|n IH]; intros v; cbn [check_range]; [lia|].
  intros [H1 H2]%andb_prop Hx. destruct (Z.eq_dec x v) as [->|]; [done|].
  apply (IH (v + 1)); [done|lia].
Qed.

Definition hextet_check (v : Z) : bool :=
  let l := format_hextet v in
  match parse_hextet l with Some w => w =? v | None => false end && digits_okb l.

Lemma hextet_round_trip v :
  0 <= v < 65536 ->
  parse_hextet (format_hextet v) = Some v /\ digits_ok (format_hextet v).
Proof.
  intros Hv. assert (hextet_check v = true) as [H1 H2]%andb_prop.
  { apply (check_range_spec hextet_check (Z.to_nat 65536) 0); [vm_compute; reflexivity|lia]. }
  split; [|by apply digits_okb_ok].
  destruct (parse_hextet (format_hextet v)) as [w|]; [|done]. by apply Z.eqb_eq in H1 as ->.
Qed.

Lemma mapM_round_trip {A B} (f : A -> B) (g : B -> option A) l :
  Forall (fun x => g (f x) = Some x) l -> mapM g (map f l) = Some l.
Proof.
  induction 1 as [|x l Hx _ IH]; [done|]. simpl. rewrite Hx. simpl. by rewrite IH.
Qed.

Lemma parse_ipv4_str n : 0 <= n < 2 ^ 32 -> parse_ipv4 (ipv4_str n) = Some n.
Proof.
  intros Hn. unfold parse_ipv4, ipv4_str. remember (to_be 4 n) as bs eqn:Hbs.
  assert (length bs = 4%nat) as Hlen by (subst bs; apply (length_to_bytes BE)).
  assert (forall c, c ∈ ["."; "/"; ":"; "%"]%char ->
     Forall (fun p => c ∉ p) (map (fun b => format_octet (b2z b)) bs)) as Hsep.
  { intros c Hc. apply Forall_map, Forall_forall. intros b _. simpl.
    destruct (octet_round_trip b) as [_ [_ H]]. by apply H. }
  rewrite existsb_char_false
    by (apply join_with_no_char; [done|apply Hsep; set_solver]).
  rewrite split_join; [|by destruct bs|apply Hsep; set_solver].
  unfold parse_octets. rewrite <- (map_map b2z format_octet).
  rewrite (mapM_round_trip format_octet parse_octet).
  2:{ apply Forall_map, Forall_forall. intros b _. apply octet_round_trip. }
  unfold zlen. rewrite !length_map, Hlen. change (Z.of_nat 4 =? 4) with true. cbv iota.
  rewrite map_map, (map_ext _ (fun b => b) z2b_b2z), map_id. subst bs.
  f_equal. by apply (from_bytes_to_bytes BE 4).
Qed.

(** *** IPv6 *)

(** The run found is made of zeros and lies inside the list. *)
Lemma best_zero_run_spec l pre start len bs bl :
  (bl = 0 \/ (0 <= bs /\ 0 < bl /\ bs + bl <= zlen (pre ++ l) /\
     slice bs (bs + bl) (pre ++ l) = replicate (Z.to_nat bl) 0)) ->
  (start = -1 /\ len = 0) \/
    (0 <= start /\ 0 < len /\ start + len = zlen pre /\
     zdrop start pre = replicate (Z.to_nat len) 0) ->
  let '(s, n) := best_zero_run l (zlen pre) start len bs bl in
  n = 0 \/ (0 <= s /\ 0 < n /\ s + n <= zlen (pre ++ l) /\
    slice s (s + n) (pre ++ l) = replicate (Z.to_nat n) 0).
Proof.
  revert pre start len bs bl. induction l as [|h l IH]; intros pre start len bs bl Hb Hs; [done|].
  cbn [best_zero_run].
  replace (zlen pre + 1) with (zlen (pre ++ [h])) by (rewrite zlen_app, zlen_cons, zlen_nil; lia).
  assert (pre ++ h :: l = (pre ++ [h]) ++ l) as Eapp by (by rewrite <- app_assoc).
  rewrite Eapp in *.
  destruct (Z.eqb_spec h 0) as [->|Hh]; [|apply IH; [done|by left]].
  pose proof (zlen_nonneg pre) as Hpre. pose proof (zlen_nonneg l) as Hl.
  set (start' := if start =? -1 then zlen pre else start).
  assert (0 <= start' /\ 0 < len + 1 /\ start' + (len + 1) = zlen (pre ++ [0]) /\
    zdrop start' (pre ++ [0]) = replicate (Z.to_nat (len + 1)) 0) as Hrun.
  { unfold start'. destruct Hs as [[-> ->]|(H1 & H2 & H3 & H4)].
    - simpl. rewrite zlen_app. change (zlen [0]) with 1. split_and!; try lia.
      by rewrite zdrop_app_exact.
    - rewrite (proj2 (Z.eqb_neq start (-1))) by lia.
      rewrite zlen_app. change (zlen [0]) with 1. split_and!; try lia.
      unfold zdrop in *. rewrite drop_app_le by (unfold zlen in *; lia). rewrite H4.
      replace (Z.to_nat (len + 1)) with (Z.to_nat len + 1)%nat by lia.
      by rewrite replicate_add. }
  destruct (bl <? len + 1); apply IH; try (by right); [|done].
  right. destruct Hrun as (H1 & H2 & H3 & H4). rewrite zlen_app. split_and!; try lia.
  unfold slice. replace (start' + (len + 1) - start') with (len + 1) by lia.
  unfold zdrop in *. rewrite drop_app_le by (unfold zlen in *; lia). rewrite H4.
  apply ztake_app_exact. unfold zlen. rewrite length_replicate. lia.
Qed.

(** The hextets around the run that [compress_hextets] replaces. *)
Lemma compress_hextets_cases hs :
  length hs = 8%nat ->
  compress_hextets hs = map format_hextet hs \/
  exists hi lo, (length hi + length lo <= 6)%nat /\
    hs = hi ++ replicate (8 - length hi - length lo) 0 ++ lo /\
    compress_hextets hs =
      (if bool_decide (hi = []) then [[]] else []) ++ map format_hextet hi ++ [[]] ++
      map format_hextet lo ++ (if bool_decide (lo = []) then [[]] else []).
Proof.
  intros Hlen. unfold compress_hextets.
  pose proof (best_zero_run_spec hs [] (-1) 0 (-1) 0 (or_introl eq_refl)
                (or_introl (conj eq_refl eq_refl))) as Hrun.
  rewrite zlen_nil in Hrun.
  destruct (best_zero_run hs 0 (-1) 0 (-1) 0) as [s n].
  destruct (Z.ltb_spec 1 n) as [Hn|]; [|by left]. right.
  destruct Hrun as [|(H1 & _ & H3 & H4)]; [lia|]. simpl in H3, H4.
  assert (zlen hs = 8) as Hz by (unfold zlen; lia).
  exists (ztake s hs), (zdrop (s + n) hs).
  assert (zlen (ztake s hs) = s) as Hls by (rewrite zlen_ztake; lia).
  assert (zlen (zdrop (s + n) hs) = 8 - (s + n)) as Hld by (rewrite zlen_zdrop; lia).
  split_and!.
  - unfold zlen in *. lia.
  - rewrite <- (ztake_zdrop s hs) at 1. f_equal.
    rewrite <- (ztake_zdrop n (zdrop s hs)) at 1. rewrite zdrop_zdrop by lia. f_equal.
    unfold slice in H4. replace (s + n - s) with n in H4 by lia. rewrite H4. f_equal.
    unfold zlen in *. lia.
  - unfold zlen at 1. rewrite length_map, Hlen. change (Z.of_nat 8) with 8.
    replace (bool_decide (ztake s hs = [])) with (s =? 0).
    2:{ destruct (Z.eqb_spec s 0) as [->|]; [by rewrite bool_decide_true|].
        rewrite bool_decide_false; [done|]. intros E. rewrite E, zlen_nil in Hls. lia. }
    replace (bool_decide (zdrop (s + n) hs = [])) with (s + n =? 8).
    2:{ destruct (Z.eqb_spec (s + n) 8) as [E|].
        - rewrite bool_decide_true; [done|]. apply zlen_0_nil. lia.
        - rewrite bool_decide_false; [done|]. intros E. rewrite E, zlen_nil in Hld. lia. }
    unfold ztake, zdrop. by rewrite <- !firstn_map, <- !skipn_map.
Qed.

Lemma expand_ipv4_tail_none parts :
  Forall (fun p => "."%char ∉ p) parts -> expand_ipv4_tail parts = Some parts.
Proof.
  intros H. unfold expand_ipv4_tail. destruct (last parts) as [t|] eqn:E; [|done].
  rewrite existsb_char_false; [done|].
  apply last_Some_elem_of in E. rewrite Forall_forall in H. by apply H.
Qed.

(** Around "::" the layout is found from the two sides alone. *)
Lemma layout_parts_compressed (hi lo : list text) :
  (length hi + length lo <= 6)%nat ->
  Forall (fun p => p <> []) hi -> Forall (fun p => p <> []) lo ->
  layout_parts ((if bool_decide (hi = []) then [[]] else []) ++ hi ++ [[]] ++
                lo ++ (if bool_decide (lo = []) then [[]] else [])) =
  Some (if bool_decide (hi = []) then [] else hi, 8 - (zlen hi + zlen lo),
        if bool_decide (lo = []) then [] else lo).
Proof.
  intros Hlen Hhi Hlo.
  destruct hi as [|? [|? [|? [|? [|? [|? [|? hi]]]]]]]; simpl in Hlen; try lia;
  destruct lo as [|? [|? [|? [|? [|? [|? [|? lo]]]]]]]; simpl in Hlen; try lia;
  repeat match goal with
    | H : Forall _ (?p :: _) |- _ => inversion H; clear H; subst
    | H : ?p <> [] |- _ => destruct p; [done|clear H]
    end; vm_compute; reflexivity.
Qed.

(** *** The integer behind the hextets *)

Lemma lor_shift16 n i j :
  0 <= j -> i = 16 + j ->
  Z.lor (Z.shiftl (Z.shiftr n i) 16) (Z.land (Z.shiftr n j) 65535) = Z.shiftr n j.
Proof.
  intros Hj ->. change 65535 with (Z.ones 16). apply Z.bits_inj'. intros k Hk.
  rewrite Z.lor_spec, Z.land_spec, Z.shiftr_spec, Z.testbit_ones_nonneg by lia.
  destruct (Z.ltb_spec k 16).
  - rewrite Z.shiftl_spec_low by lia. by rewrite andb_true_r.
  - rewrite Z.shiftl_spec, Z.shiftr_spec by lia. rewrite andb_false_r, orb_false_r. f_equal. lia.
Qed.

Lemma from_hextets_hextets n : 0 <= n < 2 ^ 128 -> from_hextets (hextets n) 0 = n.
Proof.
  intros Hn.
  change (hextets n) with
    (map (fun j => Z.land (Z.shiftr n j) 65535) [112; 96; 80; 64; 48; 32; 16; 0]).
  cbn [map from_hextets].
  assert (0 = Z.shiftr n 128) as Hz.
  { rewrite Z.shiftr_div_pow2 by lia. symmetry. by apply Z.div_small. }
  rewrite Hz at 1. by rewrite !lor_shift16, Z.shiftr_0_r by lia.
Qed.

Lemma hextets_range n : Forall (fun h => 0 <= h < 65536) (hextets n).
Proof.
  unfold hextets. apply Forall_map, Forall_forall. intros i _. simpl.
  change 65535 with (Z.ones 16). rewrite Z.land_ones by lia. by apply Z.mod_pos_bound.
Qed.

Lemma from_hextets_app l k acc : from_hextets (l ++ k) acc = from_hextets k (from_hextets l acc).
Proof. revert acc. induction l; intros; simpl; auto. Qed.

Lemma from_hextets_zeros n acc :
  from_hextets (replicate n 0) acc = Z.shiftl acc (16 * Z.of_nat n).
Proof.
  revert acc. induction n as [|n IH]; intros acc; simpl; [by rewrite Z.shiftl_0_r|].
  rewrite IH, Z.lor_0_r, Z.shiftl_shiftl by lia. f_equal. lia.
Qed.

Lemma parse_hextets_format hs :
  Forall (fun h => 0 <= h < 65536) hs -> parse_hextets (map format_hextet hs) = Some hs.
Proof.
  intros H. apply mapM_round_trip. eapply Forall_impl; [exact H|].
  intros h Hh. by apply hextet_round_trip.
Qed.

Lemma format_hextets_free hs c :
  Forall (fun h => 0 <= h < 65536) hs -> c ∈ ["."; "/"; ":"; "%"]%char ->
  Forall (fun p => c ∉ p) (map format_hextet hs).
Proof.
  intros H Hc. apply Forall_map. eapply Forall_impl; [exact H|]. intros h Hh. simpl.
  destruct (hextet_round_trip h Hh) as [_ [_ Hs]]. by apply Hs.
Qed.

Lemma format_hextets_nonempty hs :
  Forall (fun h => 0 <= h < 65536) hs -> Forall (fun p => p <> []) (map format_hextet hs).
Proof.
  intros H. apply Forall_map. eapply Forall_impl; [exact H|]. intros h Hh. simpl.
  by destruct (hextet_round_trip h Hh) as [_ [? _]].
Qed.

Lemma compress_hextets_free hs c :
  length hs = 8%nat -> Forall (fun h => 0 <= h < 65536) hs ->
  c ∈ ["."; "/"; ":"; "%"]%char -> Forall (fun p => c ∉ p) (compress_hextets hs).
Proof.
  intros Hlen Hr Hc.
  destruct (compress_hextets_cases hs Hlen) as [->|(hi & lo & _ & -> & ->)].
  - by apply format_hextets_free.
  - rewrite !Forall_app in Hr. destruct Hr as (Hhi & _ & Hlo).
    repeat (apply Forall_app; split); try (by apply format_hextets_free);
      repeat case_bool_decide; repeat constructor; apply not_elem_of_nil.
Qed.

Lemma compress_hextets_length hs :
  length hs = 8%nat -> (3 <= length (compress_hextets hs) <= 9)%nat.
Proof.
  intros Hlen. destruct (compress_hextets_cases hs Hlen) as [->|(hi & lo & Hl & -> & ->)].
  - rewrite length_map. lia.
  - rewrite !length_app, !length_map. simpl.
    assert (forall l : list Z, l <> [] -> (0 < length l)%nat) as Hne
      by (intros [|? ?] ?; simpl; done || lia).
    repeat case_bool_decide; subst; simpl in *;
      repeat match goal with H : ?l <> [] |- _ => apply Hne in H end; lia.
Qed.

Lemma layout_parts_plain (parts : list text) :
  length parts = 8%nat -> Forall (fun p => p <> []) parts ->
  layout_parts parts = Some (parts, 0, []).
Proof.
  intros Hlen H. destruct parts as [|? [|? [|? [|? [|? [|? [|? [|? [|? ?]]]]]]]]]; try done.
  repeat match goal with
    | H : Forall _ (?p :: _) |- _ => inversion H; clear H; subst
    | H : ?p <> [] |- _ => destruct p; [done|clear H]
    end. vm_compute. reflexivity.
Qed.

Lemma parse_compressed_hextets hs :
  length hs = 8%nat -> Forall (fun h => 0 <= h < 65536) hs ->
  parse_ipv6_parts (compress_hextets hs) = Some (from_hextets hs 0).
Proof.
  intros Hlen Hr. unfold parse_ipv6_parts.
  pose proof (compress_hextets_length hs Hlen) as Hcl.
  rewrite (proj2 (Z.ltb_ge (zlen (compress_hextets hs)) 3)) by (unfold zlen; lia).
  rewrite expand_ipv4_tail_none by (apply compress_hextets_free; [done..|set_solver]).
  simpl. rewrite (proj2 (Z.ltb_ge 9 (zlen (compress_hextets hs)))) by (unfold zlen; lia).
  destruct (compress_hextets_cases hs Hlen) as [->|(hi & lo & Hl & Heq & ->)].
  - rewrite layout_parts_plain by (rewrite ?length_map; done || by apply format_hextets_nonempty).
    simpl. rewrite parse_hextets_format by done. simpl. by rewrite Z.shiftl_0_r.
  - pose proof Hr as Hr'. rewrite Heq, !Forall_app in Hr'. destruct Hr' as (Hhi & _ & Hlo).
    replace (bool_decide (hi = [])) with (bool_decide (map format_hextet hi = []))
      by (by destruct hi).
    replace (bool_decide (lo = [])) with (bool_decide (map format_hextet lo = []))
      by (by destruct lo).
    rewrite layout_parts_compressed;
      [|by rewrite !length_map|by apply format_hextets_nonempty..].
    simpl.
    assert (forall l : list Z, (if bool_decide (map format_hextet l = []) then []
              else map format_hextet l) = map format_hextet l) as Hif
      by (intros [|? ?]; done).
    rewrite !Hif, !parse_hextets_format by done. simpl. f_equal.
    rewrite Heq at 1. rewrite !from_hextets_app, from_hextets_zeros. do 2 f_equal.
    unfold zlen. rewrite !length_map. lia.
Qed.

(** The printed form of eight hextets, as the parsers see it. *)
Lemma hextets_text hs :
  length hs = 8%nat -> Forall (fun h => 0 <= h < 65536) hs ->
  let l := join_with ":"%char (compress_hextets hs) in
  ("/"%char ∉ l) /\ ("%"%char ∉ l) /\ ("."%char ∉ l) /\ l <> [] /\
  split_on ":"%char l = compress_hextets hs.
Proof.
  intros Hlen Hr l. pose proof (compress_hextets_length hs Hlen) as Hl.
  pose proof (compress_hextets_free hs) as Hfree. unfold l. clear l.
  generalize dependent (compress_hextets hs). intros parts Hl Hfree.
  split_and!; try (apply join_with_no_char; [done|apply Hfree; [done..|set_solver]]).
  - destruct parts as [|p [|q parts]]; simpl in Hl; try lia. simpl. by destruct p.
  - apply split_join; [by intros ->; simpl in Hl; lia|]. apply Hfree; [done..|set_solver].
Qed.

Lemma parse_ipv6_str n : 0 <= n < 2 ^ 128 -> parse_ipv6 (ipv6_str n) = Some n.
Proof.
  intros Hn. unfold parse_ipv6, ipv6_str, strip_scope.
  destruct (hextets_text (hextets n) eq_refl (hextets_range n)) as (H1 & H2 & _ & H4 & H5).
  pose proof (parse_compressed_hextets (hextets n) eq_refl (hextets_range n)) as H6.
  rewrite (from_hextets_hextets n Hn) in H6. clear Hn.
  generalize dependent (compress_hextets (hextets n)). intros parts H1 H2 H4 H5 H6.
  rewrite existsb_char_false, split_on_no_sep by done. simpl.
  by rewrite bool_decide_false, H5.
Qed.

(** ** Addresses *)

(** No IPv6 text is an IPv4 address. *)
Lemma parse_ipv4_ipv6_str n : parse_ipv4 (ipv6_str n) = None.
Proof.
  unfold parse_ipv4, ipv6_str.
  destruct (hextets_text (hextets n) eq_refl (hextets_range n)) as (H1 & _ & H3 & _).
  generalize dependent (compress_hextets (hextets n)). intros parts H1 H3.
  rewrite existsb_char_false, split_on_no_sep by done. unfold parse_octets.
  destruct (mapM parse_octet _); [|done]. by rewrite zlen_cons, zlen_nil.
Qed.

Lemma chars_of_chars l : chars (of_chars l) = l.
Proof. apply String.list_ascii_of_string_of_list_ascii. Qed.

Lemma parse_ip_str a : ip_ok a -> parse_ip_address (ip_str a) = Some a.
Proof.
  unfold parse_ip_address, ip_str, ip_ok.
  destruct a as [n|n]; intros Hn; cbn [ip_int ip_version] in Hn; rewrite chars_of_chars.
  - by rewrite parse_ipv4_str.
  - by rewrite parse_ipv4_ipv6_str, parse_ipv6_str.
Qed.

Lemma ip_str_inj a b : ip_ok a -> ip_ok b -> ip_str a = ip_str b -> a = b.
Proof.
  intros Ha Hb H. apply (f_equal parse_ip_address) in H.
  rewrite !parse_ip_str in H by done. congruence.
Qed.

(** ** Networks *)

Definition host_network (a : ip_address) : ip_network :=
  mk_network a (max_prefixlen (ip_version a)).

Lemma ipv4_str_no_slash n : "/"%char ∉ ipv4_str n.
Proof.
  apply join_with_no_char; [done|]. apply Forall_map, Forall_forall. intros b _. simpl.
  destruct (octet_round_trip b) as [_ [_ H]]. apply H. set_solver.
Qed.

Lemma ipv6_str_no_slash n : "/"%char ∉ ipv6_str n.
Proof. apply (hextets_text (hextets n) eq_refl (hextets_range n)). Qed.

(** [ip_network(str(a))] is the host network of [a]. *)
Lemma parse_network_ip_str a : ip_ok a -> parse_ip_network (ip_str a) = Some (host_network a).
Proof.
  unfold parse_ip_network, ip_str, ip_ok, ipv4_network, ipv6_network.
  destruct a as [n|n]; intros Hn; cbn [ip_int ip_version] in Hn; rewrite chars_of_chars.
  - rewrite split_on_no_sep by apply ipv4_str_no_slash. by rewrite parse_ipv4_str.
  - rewrite split_on_no_sep by apply ipv6_str_no_slash.
    by rewrite parse_ipv4_ipv6_str, parse_ipv6_str.
Qed.

Lemma land_full_mask w n : 0 <= w -> 0 <= n < 2 ^ w -> Z.land n (netmask w w) = n.
Proof.
  intros Hw Hn. unfold netmask. rewrite Z.sub_diag, Z.shiftl_0_r, Z.land_ones by done.
  by apply Z.mod_small.
Qed.

(** Membership in a host network is equality. *)
Lemma in_host_network a b :
  ip_ok a -> in_network a (host_network b) = true <-> a = b.
Proof.
  intros Ha. unfold in_network, host_network, net_version; cbn [net_address net_prefixlen].
  split.
  - intros [H1 H2]%andb_prop. apply Z.eqb_eq in H1, H2. rewrite <- H1, land_full_mask in H2.
    + destruct a, b; simpl in *; congruence || done.
    + unfold max_prefixlen. case_match; lia.
    + apply Ha.
  - intros <-. rewrite Z.eqb_refl, land_full_mask, Z.eqb_refl; [done| |apply Ha].
    unfold max_prefixlen. case_match; lia.
Qed.

(** Packed form. *)
Lemma ip_packed_length a :
  zlen (ip_packed a) = if ip_version a =? 4 then 4 else 16.
Proof. destruct a as [n|n]; unfold ip_packed; [apply (zlen_to_bytes BE 4)|apply (zlen_to_bytes BE 16)]. Qed.

Lemma ip_of_packed_packed a : ip_ok a -> ip_of_packed (ip_packed a) = a.
Proof.
  intros Ha. unfold ip_of_packed. rewrite ip_packed_length.
  destruct a as [n|n]; simpl; f_equal.
  - by apply (from_bytes_to_bytes BE 4).
  - by apply (from_bytes_to_bytes BE 16).
Qed.

Lemma ip_packed_of_packed bs :
  zlen bs = 4 \/ zlen bs = 16 -> ip_packed (ip_of_packed bs) = bs.
Proof.
  intros H. unfold ip_of_packed. destruct (Z.eqb_spec (zlen bs) 4) as [E|E]; simpl.
  - replace 4%nat with (length bs) by (unfold zlen in *; lia). apply (to_bytes_from_bytes BE).
  - replace 16%nat with (length bs) by (unfold zlen in *; lia). apply (to_bytes_from_bytes BE).
Qed.

Lemma ip_of_packed_ok bs : zlen bs = 4 \/ zlen bs = 16 -> ip_ok (ip_of_packed bs).
Proof.
  intros H. unfold ip_of_packed, ip_ok. pose proof (from_bytes_bound BE bs) as Hb. simpl in Hb.
  destruct (Z.eqb_spec (zlen bs) 4) as [E|E]; simpl.
  - by rewrite E in Hb.
  - destruct H as [|E']; [done|]. by rewrite E' in Hb.
Qed.

(** ** What parsing returns is in range *)

Lemma hex_value_range c d : hex_value c = Some d -> 0 <= d < 16.
Proof. unfold hex_value. repeat case_match; intros; simplify_eq; reflect_bools; lia. Qed.

Lemma parse_base_range base l acc v :
  0 < base -> 0 <= acc -> parse_base base l acc = Some v ->
  0 <= v < (acc + 1) * base ^ zlen l.
Proof.
  intros Hb. revert acc. induction l as [|c l IH]; intros acc Hacc; cbn [parse_base].
  { intros [= <-]. change (base ^ zlen []) with 1. lia. }
  destruct (hex_value c) as [d|] eqn:Hd; [|done]. apply hex_value_range in Hd.
  destruct (Z.ltb_spec d base); [|done]. intros Hv%IH; [|nia].
  pose proof (zlen_nonneg l) as Hl. rewrite zlen_cons, Z.pow_add_r by lia.
  pose proof (Z.pow_pos_nonneg base (zlen l) Hb Hl). nia.
Qed.

Lemma parse_hextet_range l v : parse_hextet l = Some v -> 0 <= v < 65536.
Proof.
  unfold parse_hextet. destruct (parse_base 16 l 0) as [w|] eqn:E; [|done].
  destruct (Z.ltb_spec 4 (zlen l)) as [|Hl]; [done|]. intros [= <-].
  apply parse_base_range in E; [|lia..]. pose proof (zlen_nonneg l).
  pose proof (Z.pow_le_mono_r 16 (zlen l) 4). lia.
Qed.

Lemma mapM_Forall {A B} (f : A -> option B) (P : B -> Prop) l k :
  (forall x y, f x = Some y -> P y) -> mapM f l = Some k -> length k = length l /\ Forall P k.
Proof.
  intros HP. revert k. induction l as [|x l IH]; intros k; simpl.
  { intros [= <-]. done. }
  destruct (f x) as [y|] eqn:E; [|done]. simpl. destruct (mapM f l) as [k'|]; [|done].
  intros [= <-]. destruct (IH k' eq_refl) as [Hl HF]. split; [simpl; lia|]. constructor; eauto.
Qed.

Lemma parse_ipv4_range l n : parse_ipv4 l = Some n -> 0 <= n < 2 ^ 32.
Proof.
  unfold parse_ipv4, parse_octets. case_match; [done|].
  destruct (mapM parse_octet _) as [vs|] eqn:E; [|done].
  apply (mapM_Forall _ (fun _ => True)) in E as [Hlen _]; [|done].
  destruct (Z.eqb_spec (zlen (split_on "."%char l)) 4) as [H4|]; [|done]. intros [= <-].
  pose proof (from_bytes_bound BE (map z2b vs)) as Hb. simpl in Hb.
  unfold zlen in *. rewrite length_map, Hlen, H4 in Hb. done.
Qed.

Lemma from_hextets_range hs acc k :
  0 <= k -> 0 <= acc < 2 ^ k -> Forall (fun h => 0 <= h < 65536) hs ->
  0 <= from_hextets hs acc < 2 ^ (k + 16 * zlen hs).
Proof.
  intros Hk Hacc H. revert acc k Hk Hacc. induction H as [|h hs Hh _ IH]; intros acc k Hk Hacc;
    cbn [from_hextets].
  { change (zlen (@nil Z)) with 0. by replace (k + 16 * 0) with k by lia. }
  rewrite zlen_cons. replace (k + 16 * (1 + zlen hs)) with ((k + 16) + 16 * zlen hs) by lia.
  apply IH; [lia|]. rewrite Z.shiftl_mul_pow2, Z.pow_add_r by lia. change (2 ^ 16) with 65536.
  assert (Z.lor (acc * 65536) h = acc * 65536 + h) as ->; [|nia].
  rewrite <- (Z.add_lor_land (acc * 65536) h).
  enough (Z.land (acc * 65536) h = 0) by lia.
  apply Z.bits_inj'. intros j Hj. change 65536 with (2 ^ 16). rewrite Z.land_spec, Z.bits_0.
  destruct (Z.ltb_spec j 16).
  - by rewrite Z.mul_pow2_bits_low.
  - rewrite andb_comm. rewrite (Z.bits_above_log2 h j); [done|lia|].
    destruct (decide (h = 0)) as [->|]; [simpl; lia|]. apply Z.log2_lt_pow2; [lia|].
    pose proof (Z.pow_le_mono_r 2 16 j). lia.
Qed.

Lemma layout_parts_lengths parts hi skipped lo :
  layout_parts parts = Some (hi, skipped, lo) -> 0 <= skipped /\ zlen hi + skipped + zlen lo <= 8.
Proof.
  unfold layout_parts. destruct (skip_indices parts) as [|skip [|? ?]] eqn:Es; [| |done].
  { destruct (Z.eqb_spec (zlen parts) 8); simpl; [|done]. case_match; [|done]. intros [= <- <- <-].
    change (zlen (@nil (list ascii))) with 0. lia. }
  assert (skip ∈ skip_indices parts) as Hin by (rewrite Es; left).
  unfold skip_indices in Hin. apply list_elem_of_filter in Hin as [_ [Hs1 Hs2]%elem_of_seq].
  case_match eqn:Hc; [done|]. reflect_bools. intros [= <- <- <-].
  destruct (bool_decide (head parts = Some [])), (bool_decide (last parts = Some []));
    cbn [andb] in *; rewrite zlen_ztake, zlen_zdrop by (unfold zlen; lia); unfold zlen in *; lia.
Qed.

Lemma parse_ipv6_range l n : parse_ipv6 l = Some n -> 0 <= n < 2 ^ 128.
Proof.
  unfold parse_ipv6, parse_ipv6_parts. case_match; [done|].
  destruct (strip_scope l) as [addr|]; [|done]. simpl. case_match; [done|]. case_match; [done|].
  destruct (expand_ipv4_tail _) as [parts|]; [|done]. simpl. case_match; [done|].
  destruct (layout_parts parts) as [[[hi skipped] lo]|] eqn:El; [|done]. simpl.
  apply layout_parts_lengths in El as [Hs Hlen]. unfold parse_hextets.
  destruct (mapM parse_hextet hi) as [his|] eqn:Ehi; [|done]. simpl.
  destruct (mapM parse_hextet lo) as [los|] eqn:Elo; [|done]. simpl. intros [= <-].
  apply (mapM_Forall _ _ _ _ parse_hextet_range) in Ehi as [Lhi Hhi].
  apply (mapM_Forall _ _ _ _ parse_hextet_range) in Elo as [Llo Hlo].
  pose proof (from_hextets_range his 0 0 ltac:(lia) ltac:(lia) Hhi) as B1.
  pose proof (zlen_nonneg his). pose proof (zlen_nonneg los).
  assert (0 <= Z.shiftl (from_hextets his 0) (16 * skipped) < 2 ^ (16 * (zlen his + skipped))) as B2.
  { rewrite Z.shiftl_mul_pow2 by lia. replace (16 * (zlen his + skipped)) with
      ((0 + 16 * zlen his) + 16 * skipped) by lia. rewrite Z.pow_add_r by lia.
    pose proof (Z.pow_pos_nonneg 2 (16 * skipped)). nia. }
  pose proof (from_hextets_range los _ (16 * (zlen his + skipped)) ltac:(lia) B2 Hlo) as B3.
  split; [apply B3|]. eapply Z.lt_le_trans; [apply B3|].
  apply Z.pow_le_mono_r; [lia|]. unfold zlen in *. rewrite Lhi, Llo. lia.
Qed.

Lemma parse_ip_address_ok s a : parse_ip_address s = Some a -> ip_ok a.
Proof.
  unfold parse_ip_address, ip_ok. destruct (parse_ipv4 _) as [n|] eqn:E4.
  - intros [= <-]. by apply parse_ipv4_range in E4.
  - destruct (parse_ipv6 _) as [n|] eqn:E6; [|done]. intros [= <-]. by apply parse_ipv6_range in E6.
Qed.

Lemma land_range n m w : 0 <= n < 2 ^ w -> 0 <= Z.land n m < 2 ^ w.
Proof.
  intros Hn. destruct (decide (n = 0)) as [->|]; [rewrite Z.land_0_l; lia|].
  assert (0 <= Z.land n m) as H0 by (apply Z.land_nonneg; lia). split; [done|].
  destruct (decide (Z.land n m = 0)) as [->|]; [lia|]. apply Z.log2_lt_pow2; [lia|].
  assert (Z.log2 n < w) as Hl by (apply Z.log2_lt_pow2; lia).
  destruct (Z.lt_ge_cases (Z.log2 (Z.land n m)) w) as [|Hge]; [done|]. exfalso.
  assert (Z.testbit (Z.land n m) (Z.log2 (Z.land n m)) = true) as Hb
    by (apply Z.bit_log2; lia).
  rewrite Z.land_spec, Z.bits_above_log2 in Hb by lia. done.
Qed.

(** The address of a parsed network is an address. *)
Lemma parse_ip_network_ok s net : parse_ip_network s = Some net -> ip_ok net.(net_address).
Proof.
  unfold parse_ip_network, ipv4_network, ipv6_network, ip_ok.
  destruct (split_on _ _) as [|addr [|mask [|? ?]]]; try done.
  - destruct (parse_ipv4 addr) as [n|] eqn:E4; simpl.
    + intros [= <-]. by apply parse_ipv4_range in E4.
    + destruct (parse_ipv6 addr) as [n|] eqn:E6; [|done]. intros [= <-].
      by apply parse_ipv6_range in E6.
  - assert (forall r, (n ← parse_ipv6 addr; p ← parse_prefix 128 mask;
      Some (mk_network (IPv6Address (Z.land n (netmask 128 p))) p)) = Some r ->
      0 <= ip_int r.(net_address) < 2 ^ max_prefixlen (ip_version r.(net_address))) as H6.
    { intros r. destruct (parse_ipv6 addr) as [n|] eqn:E6; [|done]. simpl.
      destruct (parse_prefix 128 mask); [|done]. intros [= <-]. apply parse_ipv6_range in E6.
      by apply (land_range n _ 128). }
    destruct (parse_ipv4 addr) as [n|] eqn:E4; simpl; [|apply H6].
    apply parse_ipv4_range in E4.
    destruct (parse_prefix 32 mask) as [p|]; simpl;
      [|destruct (prefix_from_ip_string mask) as [p|]; simpl; [|apply H6]];
      intros H; injection H as <-; by apply (land_range n _ 32).
Qed.
