(* ===== verification/StructuralIndex.v ===== *)
(** * StructuralIndex

    pcap_index.py: the strict one-pass scan of a capture into interface and
    packet entries, with bounded reads, packet batches and the capture digest. *)

From S2P Require Import Prelude Bytes Reader CaptureFormat.

Record StructuralInterfaceEntry : Type := {
  sie_section_index : Z;
  sie_interface_id : Z;
  sie_interface_ordinal : Z;
  sie_link_type : Z;
  sie_snaplen : Z;
  sie_timestamp_resolution_numerator : Z;
  sie_timestamp_resolution_denominator : Z;
  sie_timestamp_offset_seconds : Z;
}.

Record StructuralPacketEntry : Type := {
  spe_packet_index : Z;
  spe_record_offset : Z;
  spe_data_offset : Z;
  spe_captured_length : Z;
  spe_original_length : Z;
  spe_framed_length : Z;
  spe_section_index : Z;
  spe_interface_id : Z;
  spe_interface_ordinal : Z;
  spe_raw_timestamp_ticks : Z;
}.

Inductive capture_format : Type := PCAP | PCAPNG.

#[global] Instance sie_eq_dec : EqDecision StructuralInterfaceEntry.
Proof. solve_decision. Defined.
#[global] Instance spe_eq_dec : EqDecision StructuralPacketEntry.
Proof. solve_decision. Defined.
#[global] Instance capture_format_eq_dec : EqDecision capture_format.
Proof. solve_decision. Defined.

Record StructuralScanResult : Type := {
  ssr_capture_format : capture_format;
  ssr_size_bytes : Z;
  ssr_sha256 : string;
  ssr_interfaces : list StructuralInterfaceEntry;
  ssr_packets : list StructuralPacketEntry;
  ssr_packet_count : Z;
}.

(** A scan yields the batches it passes to [consume_packet_batch]. *)
Abbreviation scan A := (prog (list StructuralPacketEntry) A) (only parsing).

(** The arguments every step of a scan shares. *)
Record ScanLimits : Type := {
  sl_max_packets : Z;
  sl_max_interfaces : Z;
  sl_batch_size : Z;
  sl_consumer : bool;   (* [consume_packet_batch is not None] *)
}.

(** [batch] and [retained] of the scan loops. *)
Record ScanBuffers : Type := mk_buffers {
  sb_batch : list StructuralPacketEntry;
  sb_retained : list StructuralPacketEntry;
}.

Definition _emit (packet : StructuralPacketEntry) (b : ScanBuffers) (lim : ScanLimits)
    : scan ScanBuffers :=
  if negb lim.(sl_consumer) then Ret (mk_buffers b.(sb_batch) (b.(sb_retained) ++ [packet]))
  else
    let batch := b.(sb_batch) ++ [packet] in
    if lim.(sl_batch_size) <=? zlen batch then
      _ ← emit batch; Ret (mk_buffers [] b.(sb_retained))
    else Ret (mk_buffers batch b.(sb_retained)).

Definition _finish_batch (b : ScanBuffers) (lim : ScanLimits) : scan unit :=
  if negb (bool_decide (b.(sb_batch) = [])) && lim.(sl_consumer)
  then emit b.(sb_batch) else Ret tt.

(** What the scan loops return: interfaces, retained packets, packet count. *)
Definition scan_output : Type :=
  (list StructuralInterfaceEntry * list StructuralPacketEntry * Z)%type.

Definition empty_capture : exn :=
  PcapParseError "capture does not contain timestamped packets" "EMPTY_PCAP".

(** ** Classic captures *)

Definition classic_packet_entry (count record_offset seconds fraction captured original
    resolution : Z) : StructuralPacketEntry := {|
  spe_packet_index := count;
  spe_record_offset := record_offset;
  spe_data_offset := record_offset + 16;
  spe_captured_length := captured;
  spe_original_length := original;
  spe_framed_length := 16 + captured;
  spe_section_index := 0;
  spe_interface_id := 0;
  spe_interface_ordinal := 0;
  spe_raw_timestamp_ticks := seconds * resolution + fraction;
|}.

(** The [while True] body after a non-empty packet header. *)
Definition scan_classic_record (e : endian) (resolution snaplen : Z) (lim : ScanLimits)
    (record_offset count : Z) (b : ScanBuffers) (header : bytes) : scan ScanBuffers :=
  let seconds := u32 e header 0 in
  let fraction := u32 e header 4 in
  let captured_length := u32 e header 8 in
  let original_length := u32 e header 12 in
  let oversized := parse_error "classic PCAP packet data is truncated or oversized" in
  _ ← guard_not (MAX_CAPTURED_PACKET_BYTES <? captured_length) oversized;
  _ ← catch_eof oversized (discard_exact captured_length);
  _ ← guard_not ((original_length <? captured_length) || (snaplen <? captured_length))
        (parse_error "classic PCAP packet length exceeds original length or snap length");
  _ ← guard_not (lim.(sl_max_packets) <=? count)
        (StructuralIndexLimitError "structural packet limit exceeded");
  _emit (classic_packet_entry count record_offset seconds fraction captured_length
           original_length resolution) b lim.

Fixpoint scan_classic_loop (fuel : nat) (e : endian) (resolution snaplen : Z)
    (lim : ScanLimits) (interfaces : list StructuralInterfaceEntry) (count : Z)
    (b : ScanBuffers) : scan scan_output :=
  match fuel with
  | O => Raise OutOfFuel
  | S fuel' =>
      record_offset ← cursor_tell;
      header ← catch_eof (parse_error "classic PCAP packet header is truncated")
                 (read_exact 16 true);
      if bool_decide (header = []) then
        if count =? 0 then Raise empty_capture
        else _ ← _finish_batch b lim; Ret (interfaces, b.(sb_retained), count)
      else
        b' ← scan_classic_record e resolution snaplen lim record_offset count b header;
        scan_classic_loop fuel' e resolution snaplen lim interfaces (count + 1) b'
  end.

Definition classic_interface (link_type snaplen resolution : Z) : StructuralInterfaceEntry := {|
  sie_section_index := 0;
  sie_interface_id := 0;
  sie_interface_ordinal := 0;
  sie_link_type := Z.land link_type 65535;
  sie_snaplen := snaplen;
  sie_timestamp_resolution_numerator := 1;
  sie_timestamp_resolution_denominator := resolution;
  sie_timestamp_offset_seconds := 0;
|}.

Definition unsupported_version (major minor : Z) : exn :=
  parse_error ("unsupported classic PCAP version " +:+ pretty major +:+ "." +:+ pretty minor).

Definition _scan_classic (fuel : nat) (e : endian) (resolution : Z) (lim : ScanLimits)
    : scan scan_output :=
  header ← catch_eof (parse_error "classic PCAP global header is truncated")
             (read_exact 20 false);
  let major := u16 e header 0 in
  let minor := u16 e header 2 in
  let snaplen := u32 e header 12 in
  let link_type := u32 e header 16 in
  _ ← guard_not (negb (major =? 2) || negb (minor =? 4)) (unsupported_version major minor);
  _ ← guard_not ((snaplen <? 1) || (MAX_CAPTURED_PACKET_BYTES <? snaplen))
        (parse_error "classic PCAP snap length is invalid");
  _ ← guard_not (lim.(sl_max_interfaces) <? 1)
        (StructuralIndexLimitError "structural interface limit exceeded");
  scan_classic_loop fuel e resolution snaplen lim
    [classic_interface link_type snaplen resolution] 0 (mk_buffers [] []).

(** ** PCAPNG captures *)

(** [_read_ng_options]: numerator, denominator, offset and a deferred error. *)
Definition ng_options : Type := (Z * Z * Z * option exn)%type.

Definition option_truncated : exn := parse_error "PCAPNG interface option is truncated".

(** One known or unknown option body of [length] bytes padded to [padded]. *)
Definition read_ng_option {O} (e : endian) (code length padded denominator ts_offset : Z)
    : prog O (Z * Z) :=
  if (code =? 9) && (length =? 1) then
    value ← read_exact 1 false;
    _ ← discard_exact (padded - 1);
    Ret (resolution_denominator (byte_at value 0), ts_offset)
  else if (code =? 14) && (length =? 8) then
    value ← read_exact 8 false;
    _ ← discard_exact (padded - 8);
    Ret (denominator, i64 e value 0)
  else
    _ ← discard_exact padded; Ret (denominator, ts_offset).

Fixpoint read_ng_options_loop {O} (fuel : nat) (remaining : Z) (e : endian)
    (denominator ts_offset : Z) : prog O ng_options :=
  match fuel with
  | O => Raise OutOfFuel
  | S fuel' =>
      if remaining =? 0 then Ret (1, denominator, ts_offset, None)
      else if remaining <? 4 then
        _ ← discard_exact remaining;
        Ret (1, denominator, ts_offset, Some option_truncated)
      else
        header ← read_exact 4 false;
        let remaining := remaining - 4 in
        let code := u16 e header 0 in
        let length := u16 e header 2 in
        if code =? 0 then
          _ ← discard_exact remaining; Ret (1, denominator, ts_offset, None)
        else
          let padded := pad4 length in
          if remaining <? padded then
            _ ← discard_exact remaining;
            Ret (1, denominator, ts_offset, Some option_truncated)
          else
            values ← read_ng_option e code length padded denominator ts_offset;
            read_ng_options_loop fuel' (remaining - padded) e values.1 values.2
  end.

Definition _read_ng_options {O} (size : Z) (e : endian) : prog O ng_options :=
  read_ng_options_loop (S (Z.to_nat size)) size e 1000000 0.

(** The loop state of [_scan_pcapng]. *)
Record NgState : Type := {
  ng_endian : endian;
  ng_section_interfaces : list StructuralInterfaceEntry;
  ng_all_interfaces : list StructuralInterfaceEntry;
  ng_section_index : Z;
  ng_count : Z;
  ng_buffers : ScanBuffers;
}.

Definition ng_initial : NgState := {|
  ng_endian := LE;
  ng_section_interfaces := [];
  ng_all_interfaces := [];
  ng_section_index := -1;
  ng_count := 0;
  ng_buffers := mk_buffers [] [];
|}.

(** [trailer = block_prefix[8:12] if body_length == 0 else cursor.read_exact(4)] *)
Definition read_trailer {O} (block_prefix : bytes) (body_length : Z) : prog O bytes :=
  if body_length =? 0 then Ret (slice 8 12 block_prefix) else read_exact 4 false.

(** [if body_length: cursor.discard_exact(body_length - 4)] *)
Definition discard_body {O} (body_length : Z) : prog O unit :=
  if body_length =? 0 then Ret tt else discard_exact (body_length - 4).

(** [if semantic_error is not None: raise semantic_error] *)
Definition check_in_section {O} (section_index : Z) : prog O unit :=
  guard_not (section_index <? 0) (parse_error "PCAPNG data appears before a section header").

Definition scan_section_block (block_prefix : bytes) (st : NgState) : scan NgState :=
  match section_endian (slice 8 12 block_prefix) with
  | None => Raise (parse_error "PCAPNG section has an invalid byte-order magic")
  | Some e =>
      let block_length := u32 e (slice 4 8 block_prefix) 0 in
      _ ← lift_res (validate_ng_length block_length);
      trailer ← catch_eof (parse_error "PCAPNG block length is invalid")
        (if block_length =? 12 then Ret (slice 8 12 block_prefix)
         else _ ← discard_exact (block_length - 16); read_exact 4 false);
      _ ← lift_res (validate_ng_trailer trailer block_length e);
      Ret {|
        ng_endian := e;
        ng_section_interfaces := [];
        ng_all_interfaces := st.(ng_all_interfaces);
        ng_section_index := st.(ng_section_index) + 1;
        ng_count := st.(ng_count);
        ng_buffers := st.(ng_buffers);
      |}
  end.

(** The fixed part and the options of an interface block; [None] when the body
    is too short. *)
Definition scan_interface_values {O} (e : endian) (body_prefix : bytes) (body_length : Z)
    : prog O (option (Z * Z * ng_options)) :=
  if body_length <? 8 then
    _ ← discard_body body_length; Ret None
  else
    more ← read_exact 4 false;
    let fixed := body_prefix ++ more in
    options ← _read_ng_options (body_length - 8) e;
    Ret (Some (u16 e fixed 0, u32 e fixed 4, options)).

Definition scan_interface_block (lim : ScanLimits) (block_prefix : bytes)
    (block_length body_length : Z) (body_prefix : bytes) (st : NgState) : scan NgState :=
  let e := st.(ng_endian) in
  values ← scan_interface_values e body_prefix body_length;
  trailer ← read_trailer block_prefix body_length;
  _ ← lift_res (validate_ng_trailer trailer block_length e);
  _ ← check_in_section st.(ng_section_index);
  match values with
  | None => Raise (parse_error "PCAPNG interface block is truncated")
  | Some (link_type, snaplen, (numerator, denominator, ts_offset, option_error)) =>
      _ ← guard_not ((snaplen <? 1) || (MAX_CAPTURED_PACKET_BYTES <? snaplen))
            (parse_error "PCAPNG interface snap length is invalid");
      _ ← match option_error with Some x => Raise x | None => Ret tt end;
      _ ← guard_not (lim.(sl_max_interfaces) <=? zlen st.(ng_all_interfaces))
            (StructuralIndexLimitError "structural interface limit exceeded");
      let interface := {|
        sie_section_index := st.(ng_section_index);
        sie_interface_id := zlen st.(ng_section_interfaces);
        sie_interface_ordinal := zlen st.(ng_all_interfaces);
        sie_link_type := link_type;
        sie_snaplen := snaplen;
        sie_timestamp_resolution_numerator := numerator;
        sie_timestamp_resolution_denominator := denominator;
        sie_timestamp_offset_seconds := ts_offset;
      |} in
      Ret {|
        ng_endian := e;
        ng_section_interfaces := st.(ng_section_interfaces) ++ [interface];
        ng_all_interfaces := st.(ng_all_interfaces) ++ [interface];
        ng_section_index := st.(ng_section_index);
        ng_count := st.(ng_count);
        ng_buffers := st.(ng_buffers);
      |}
  end.

(** The packet header of an enhanced (6) or obsolete (2) packet block:
    interface, timestamp high and low, captured and original length. *)
Definition ng_packet_values (e : endian) (block_type : Z) (fixed : bytes)
    : Z * Z * Z * Z * Z :=
  if block_type =? 6 then
    (u32 e fixed 0, u32 e fixed 4, u32 e fixed 8, u32 e fixed 12, u32 e fixed 16)
  else
    (u16 e fixed 0, u32 e fixed 4, u32 e fixed 8, u32 e fixed 12, u32 e fixed 16).

Definition scan_packet_values {O} (e : endian) (block_type : Z) (body_prefix : bytes)
    (body_length : Z) : prog O (option (Z * Z * Z * Z * Z)) :=
  if body_length <? 20 then
    _ ← discard_body body_length; Ret None
  else
    more ← read_exact 16 false;
    let values := ng_packet_values e block_type (body_prefix ++ more) in
    let '(_, _, _, caplen, _) := values in
    let available := body_length - 20 in
    _ ← (if (caplen <=? MAX_CAPTURED_PACKET_BYTES) && (pad4 caplen <=? available) then
           _ ← discard_exact caplen; discard_exact (available - caplen)
         else discard_exact available);
    Ret (Some values).

Definition scan_packet_block (lim : ScanLimits) (record_offset : Z) (block_prefix : bytes)
    (block_type block_length body_length : Z) (body_prefix : bytes) (st : NgState)
    : scan NgState :=
  let e := st.(ng_endian) in
  values ← scan_packet_values e block_type body_prefix body_length;
  trailer ← read_trailer block_prefix body_length;
  _ ← lift_res (validate_ng_trailer trailer block_length e);
  _ ← check_in_section st.(ng_section_index);
  match values with
  | None => Raise (parse_error "PCAPNG packet block is truncated")
  | Some (interface_id, high, low, caplen, origlen) =>
      match st.(ng_section_interfaces) !! Z.to_nat interface_id with
      | None => Raise (parse_error "PCAPNG packet references an unknown interface")
      | Some interface =>
          _ ← guard_not ((MAX_CAPTURED_PACKET_BYTES <? caplen) || (body_length - 20 <? pad4 caplen))
                (parse_error "PCAPNG packet data is truncated or oversized");
          _ ← guard_not ((origlen <? caplen) || (interface.(sie_snaplen) <? caplen))
                (parse_error
                   "PCAPNG packet length exceeds original length or interface snap length");
          _ ← guard_not (lim.(sl_max_packets) <=? st.(ng_count))
                (StructuralIndexLimitError "structural packet limit exceeded");
          let packet := {|
            spe_packet_index := st.(ng_count);
            spe_record_offset := record_offset;
            spe_data_offset := record_offset + 28;
            spe_captured_length := caplen;
            spe_original_length := origlen;
            spe_framed_length := block_length;
            spe_section_index := st.(ng_section_index);
            spe_interface_id := interface_id;
            spe_interface_ordinal := interface.(sie_interface_ordinal);
            spe_raw_timestamp_ticks := Z.lor (Z.shiftl high 32) low;
          |} in
          b ← _emit packet st.(ng_buffers) lim;
          Ret {|
            ng_endian := e;
            ng_section_interfaces := st.(ng_section_interfaces);
            ng_all_interfaces := st.(ng_all_interfaces);
            ng_section_index := st.(ng_section_index);
            ng_count := st.(ng_count) + 1;
            ng_buffers := b;
          |}
      end
  end.

Definition simple_packet_unsupported : exn :=
  PcapParseError "PCAPNG simple packet blocks have no timestamp and are not supported"
    "UNSUPPORTED_PCAPNG_BLOCK".

(** Simple packet blocks (3) are refused, every other block is skipped. *)
Definition scan_skipped_block (block_prefix : bytes) (block_type block_length body_length : Z)
    (st : NgState) : scan NgState :=
  _ ← discard_body body_length;
  trailer ← read_trailer block_prefix body_length;
  _ ← lift_res (validate_ng_trailer trailer block_length st.(ng_endian));
  _ ← check_in_section st.(ng_section_index);
  if block_type =? 3 then Raise simple_packet_unsupported else Ret st.

(** The [while True] body after a non-empty block prefix. *)
Definition scan_ng_block (lim : ScanLimits) (record_offset : Z) (block_prefix : bytes)
    (st : NgState) : scan NgState :=
  if bool_decide (ztake 4 block_prefix = PCAPNG_SECTION) then scan_section_block block_prefix st
  else
    let block_type := u32 st.(ng_endian) block_prefix 0 in
    let block_length := u32 st.(ng_endian) block_prefix 4 in
    _ ← lift_res (validate_ng_length block_length);
    let body_length := block_length - 12 in
    let body_prefix := if body_length =? 0 then [] else slice 8 12 block_prefix in
    catch_eof (parse_error "PCAPNG block length is invalid")
      (if block_type =? 1 then
         scan_interface_block lim block_prefix block_length body_length body_prefix st
       else if (block_type =? 2) || (block_type =? 6) then
         scan_packet_block lim record_offset block_prefix block_type block_length body_length
           body_prefix st
       else scan_skipped_block block_prefix block_type block_length body_length st).

(** [magic] is the four bytes already read, for the first iteration only. *)
Fixpoint scan_ng_loop (fuel : nat) (lim : ScanLimits) (magic : option bytes) (st : NgState)
    : scan scan_output :=
  match fuel with
  | O => Raise OutOfFuel
  | S fuel' =>
      here ← cursor_tell;
      let record_offset := here - (match magic with Some _ => 4 | None => 0 end) in
      block_prefix ← catch_eof (parse_error "PCAPNG block header is truncated")
        match magic with
        | Some m => rest ← read_exact 8 false; Ret (m ++ rest)
        | None => read_exact 12 true
        end;
      if bool_decide (block_prefix = []) then
        if st.(ng_count) =? 0 then Raise empty_capture
        else
          _ ← _finish_batch st.(ng_buffers) lim;
          Ret (st.(ng_all_interfaces), st.(ng_buffers).(sb_retained), st.(ng_count))
      else
        st' ← scan_ng_block lim record_offset block_prefix st;
        scan_ng_loop fuel' lim None st'
  end.

Definition _scan_pcapng (fuel : nat) (magic : bytes) (lim : ScanLimits) : scan scan_output :=
  scan_ng_loop fuel lim (Some magic) ng_initial.

(** ** The scan *)

Definition not_a_capture : exn := parse_error "file is not a classic PCAP or PCAPNG capture".

(** The format dispatch on the first four bytes. *)
Definition scan_capture (fuel : nat) (lim : ScanLimits) : scan (capture_format * scan_output) :=
  magic ← catch_eof not_a_capture (read_exact 4 false);
  match CLASSIC_MAGIC magic with
  | Some (e, resolution) => out ← _scan_classic fuel e resolution lim; Ret (PCAP, out)
  | None =>
      if bool_decide (magic = PCAPNG_SECTION) then
        out ← _scan_pcapng fuel magic lim; Ret (PCAPNG, out)
      else Raise not_a_capture
  end.

Section scan.
(** [hashlib.sha256(...).hexdigest()]. *)
Context (sha256_hex : bytes -> string).
Context {R : Type} `{!CaptureReader R}.

(** The batches passed to the consumer and the scan's result. *)
Definition scan_structural_packet_index (fuel : nat) (reader : R) (lim : ScanLimits)
    : list (list StructuralPacketEntry) * res StructuralScanResult :=
  if (lim.(sl_max_packets) <=? 0) || (lim.(sl_max_interfaces) <=? 0)
     || (lim.(sl_batch_size) <=? 0)
  then ([], Err (ValueError "structural index limits must be positive"))
  else
    let '(batches, r, c) := run (scan_capture fuel lim) (new_cursor reader) in
    (batches,
     '(fmt, (interfaces, packets, count)) ← r;
     Ok {| ssr_capture_format := fmt;
           ssr_size_bytes := c.(cur_offset);
           ssr_sha256 := sha256_hex c.(cur_digest);
           ssr_interfaces := interfaces;
           ssr_packets := packets;
           ssr_packet_count := count |}).
End scan.
