(* ===== verification/StructuralProofs.v ===== *)
(** * StructuralProofs

    Correctness of the structural scan of pcap_index.py: it terminates within a
    fuel above the capture's length, raises only its documented errors, and on
    success the index it builds is well formed, describes records that lie in
    order and apart in the capture, and carries the lengths and timestamps that
    the bytes of the record spell. *)

From S2P Require Import Prelude Bytes Samples Reader ReaderLogic CaptureFormat StructuralIndex.

(** ** The scan never asks for a negative number of bytes *)

Lemma validate_ng_length_Ok n u :
  validate_ng_length n = Ok u -> 12 <= n /\ (n = 12 \/ 16 <= n).
Proof.
  unfold validate_ng_length. intros H%raise_if_Ok. reflect_bools.
  split; [done|]. Z.to_euclidean_division_equations. lia.
Qed.

Lemma validate_ng_length_mod n u : validate_ng_length n = Ok u -> n mod 4 = 0.
Proof. unfold validate_ng_length. intros H%raise_if_Ok. by reflect_bools. Qed.

Lemma sizes_emit_packet packet b lim : sizes_ok (_emit packet b lim).
Proof. unfold _emit. sizes. Qed.
Lemma sizes_finish_batch b lim : sizes_ok (_finish_batch b lim).
Proof. unfold _finish_batch. sizes. Qed.
#[export] Hint Resolve sizes_emit_packet sizes_finish_batch : sizes.

Lemma sizes_classic_record e resolution snaplen lim off count b header :
  sizes_ok (scan_classic_record e resolution snaplen lim off count b header).
Proof.
  unfold scan_classic_record. pose proof (u32_bound e header 8). sizes.
Qed.
#[export] Hint Resolve sizes_classic_record : sizes.

Lemma sizes_classic_loop fuel e resolution snaplen lim ifs count b :
  sizes_ok (scan_classic_loop fuel e resolution snaplen lim ifs count b).
Proof. revert count b. induction fuel; intros; cbn [scan_classic_loop]; sizes. Qed.
#[export] Hint Resolve sizes_classic_loop : sizes.

Lemma sizes_classic fuel e resolution lim : sizes_ok (_scan_classic fuel e resolution lim).
Proof. unfold _scan_classic. sizes. Qed.
#[export] Hint Resolve sizes_classic : sizes.

Lemma sizes_read_ng_option {O} e code length denominator ts_offset :
  0 <= length ->
  sizes_ok (O := O) (read_ng_option e code length (pad4 length) denominator ts_offset).
Proof.
  intros Hl. unfold read_ng_option. pose proof (pad4_bounds length Hl).
  destruct ((code =? 9) && (length =? 1)) eqn:E1; reflect_bools; [sizes|].
  destruct ((code =? 14) && (length =? 8)) eqn:E2; reflect_bools; sizes.
Qed.

Lemma sizes_ng_options_loop {O} fuel remaining e denominator ts_offset :
  0 <= remaining ->
  sizes_ok (O := O) (read_ng_options_loop fuel remaining e denominator ts_offset).
Proof.
  revert remaining denominator ts_offset.
  induction fuel as [|fuel IH]; intros remaining denominator ts_offset Hr;
    cbn [read_ng_options_loop]; [done|].
  destruct (remaining =? 0); [sizes|].
  destruct (Z.ltb_spec remaining 4); [sizes|].
  apply sizes_bind; [sizes|intros header]. cbv zeta.
  destruct (u16 e header 0 =? 0); [sizes|].
  pose proof (u16_bound e header 2).
  destruct (Z.ltb_spec (remaining - 4) (pad4 (u16 e header 2))); [sizes|].
  apply sizes_bind; [apply sizes_read_ng_option; lia|]. intros values. apply IH. lia.
Qed.

Lemma sizes_read_ng_options {O} size e :
  0 <= size -> sizes_ok (O := O) (_read_ng_options size e).
Proof. apply sizes_ng_options_loop. Qed.

Lemma sizes_read_trailer {O} prefix n : sizes_ok (O := O) (read_trailer prefix n).
Proof. unfold read_trailer. sizes. Qed.

Lemma sizes_discard_body {O} n : n = 0 \/ 4 <= n -> sizes_ok (O := O) (discard_body n).
Proof. intros. unfold discard_body. destruct (Z.eqb_spec n 0); sizes. Qed.

Lemma sizes_check_in_section {O} n : sizes_ok (O := O) (check_in_section n).
Proof. unfold check_in_section, guard_not. sizes. Qed.
#[export] Hint Resolve sizes_read_ng_options sizes_read_trailer sizes_discard_body
  sizes_check_in_section : sizes.

Lemma sizes_section_block prefix st : sizes_ok (scan_section_block prefix st).
Proof.
  unfold scan_section_block. destruct (section_endian _) as [e|]; [|done]. cbv zeta.
  apply sizes_lift_bind. intros u [H12 [->|H16]]%validate_ng_length_Ok; [sizes|].
  rewrite (proj2 (Z.eqb_neq _ 12)) by lia. sizes.
Qed.

Lemma sizes_interface_values {O} e prefix n :
  n = 0 \/ 4 <= n -> sizes_ok (O := O) (scan_interface_values e prefix n).
Proof. intros. unfold scan_interface_values. destruct (Z.ltb_spec n 8); sizes. Qed.

Lemma sizes_packet_values {O} e block_type prefix n :
  n = 0 \/ 4 <= n -> sizes_ok (O := O) (scan_packet_values e block_type prefix n).
Proof.
  intros. unfold scan_packet_values. destruct (Z.ltb_spec n 20); [sizes|].
  apply sizes_bind; [sizes|]. intros more. unfold ng_packet_values.
  destruct (block_type =? 6); cbv zeta;
    (pose proof (u32_bound e (prefix ++ more) 12);
     pose proof (pad4_bounds (u32 e (prefix ++ more) 12));
     destruct (_ && _) eqn:E; reflect_bools; sizes).
Qed.
#[export] Hint Resolve sizes_section_block sizes_interface_values sizes_packet_values : sizes.

Lemma sizes_ng_block lim off prefix st : sizes_ok (scan_ng_block lim off prefix st).
Proof.
  unfold scan_ng_block. case_match; [sizes|]. cbv zeta.
  apply sizes_lift_bind. intros u Hlen%validate_ng_length_Ok.
  unfold scan_interface_block, scan_packet_block, scan_skipped_block.
  assert (u32 (ng_endian st) prefix 4 - 12 = 0 \/ 4 <= u32 (ng_endian st) prefix 4 - 12) by lia.
  apply sizes_catch. repeat case_match; sizes.
Qed.
#[export] Hint Resolve sizes_ng_block : sizes.

Lemma sizes_ng_loop fuel lim magic st : sizes_ok (scan_ng_loop fuel lim magic st).
Proof. revert magic st. induction fuel; intros; cbn [scan_ng_loop]; [done|]. sizes. Qed.
#[export] Hint Resolve sizes_ng_loop : sizes.

Lemma sizes_scan_capture fuel lim : sizes_ok (scan_capture fuel lim).
Proof. unfold scan_capture, _scan_pcapng. sizes. Qed.

(** ** Errors *)

(** What the scan may raise once its limits are positive. *)
Definition scan_error (e : exn) : Prop :=
  match e with PcapParseError _ _ | StructuralIndexLimitError _ => True | _ => False end.

(** Inside a block the end of the capture may also show. *)
Definition block_error (e : exn) : Prop := e = EOFError \/ scan_error e.

Lemma raise_if_error cond e u : raise_if cond e = Err u -> u = e.
Proof. by destruct cond; intros [= <-]. Qed.

Lemma validate_ng_length_error n e : validate_ng_length n = Err e -> scan_error e.
Proof. by intros ->%raise_if_error. Qed.

Lemma validate_ng_trailer_error t n e x : validate_ng_trailer t n e = Err x -> scan_error x.
Proof. by intros ->%raise_if_error. Qed.

Create HintDb scan discriminated.
#[export] Hint Resolve validate_ng_length_error validate_ng_trailer_error : scan.

Ltac scan_err :=
  first [ exact I | by left | right; exact I | by eauto with scan | right; by eauto with scan ].
Ltac wp_go := wp_step scan_err.

(** ** The index *)

(** The record [p] describes: its data lies inside it, after its header. *)
Definition packet_span (p : StructuralPacketEntry) : Prop :=
  0 <= p.(spe_record_offset) /\ p.(spe_record_offset) + 16 <= p.(spe_data_offset) /\
  p.(spe_data_offset) + p.(spe_captured_length) <= p.(spe_record_offset) + p.(spe_framed_length) /\
  0 <= p.(spe_captured_length) <= MAX_CAPTURED_PACKET_BYTES /\
  p.(spe_captured_length) <= p.(spe_original_length).

Definition packet_end (p : StructuralPacketEntry) : Z :=
  p.(spe_record_offset) + p.(spe_framed_length).

(** [p] is wholly before [q] in the capture. *)
Definition packet_before (p q : StructuralPacketEntry) : Prop :=
  packet_end p <= q.(spe_record_offset).

(** The interface [p] names is in the index and admits its length. *)
Definition packet_interface (interfaces : list StructuralInterfaceEntry)
    (p : StructuralPacketEntry) : Prop :=
  exists k i, interfaces !! k = Some i /\ p.(spe_interface_ordinal) = Z.of_nat k /\
    i.(sie_interface_id) = p.(spe_interface_id) /\
    i.(sie_section_index) = p.(spe_section_index) /\
    p.(spe_captured_length) <= i.(sie_snaplen).

Definition interface_ok (k : nat) (i : StructuralInterfaceEntry) : Prop :=
  i.(sie_interface_ordinal) = Z.of_nat k /\ 0 <= i.(sie_section_index) /\
  0 <= i.(sie_interface_id) /\ 0 <= i.(sie_link_type) < 65536 /\
  1 <= i.(sie_snaplen) <= MAX_CAPTURED_PACKET_BYTES /\
  i.(sie_timestamp_resolution_numerator) = 1 /\ 0 < i.(sie_timestamp_resolution_denominator) /\
  i.(sie_interface_id) <= Z.of_nat k /\ - 2 ^ 63 <= i.(sie_timestamp_offset_seconds) < 2 ^ 63.

(** A classic record: its header spells the entry. *)
Definition classic_record (e : endian) (resolution : Z) (content : bytes)
    (p : StructuralPacketEntry) : Prop :=
  let r := p.(spe_record_offset) in
  p = classic_packet_entry p.(spe_packet_index) r (u32 e content r) (u32 e content (r + 4))
        (u32 e content (r + 8)) (u32 e content (r + 12)) resolution.

(** A PCAPNG packet block: header, both block lengths and packet fields. *)
Definition ng_record (content : bytes) (p : StructuralPacketEntry) : Prop :=
  let r := p.(spe_record_offset) in
  exists e,
    (u32 e content r = 6 /\ p.(spe_interface_id) = u32 e content (r + 8) \/
     u32 e content r = 2 /\ p.(spe_interface_id) = u16 e content (r + 8)) /\
    p.(spe_framed_length) = u32 e content (r + 4) /\
    u32 e content (packet_end p - 4) = p.(spe_framed_length) /\
    p.(spe_framed_length) mod 4 = 0 /\
    p.(spe_data_offset) + p.(spe_captured_length) <= packet_end p - 4 /\
    p.(spe_data_offset) = r + 28 /\
    p.(spe_captured_length) = u32 e content (r + 20) /\
    p.(spe_original_length) = u32 e content (r + 24) /\
    p.(spe_raw_timestamp_ticks) =
      Z.lor (Z.shiftl (u32 e content (r + 12)) 32) (u32 e content (r + 16)).

(** The index of the first [off] bytes of a capture. *)
Record index_wf (P : StructuralPacketEntry -> Prop) (lim : ScanLimits) (off : Z)
    (interfaces : list StructuralInterfaceEntry) (packets : list StructuralPacketEntry)
    : Prop := {
  wf_index : forall k p, packets !! k = Some p -> p.(spe_packet_index) = Z.of_nat k;
  wf_span : Forall packet_span packets;
  wf_end : Forall (fun p => packet_end p <= off) packets;
  wf_order : StronglySorted packet_before packets;
  wf_record : Forall P packets;
  wf_interface : Forall (packet_interface interfaces) packets;
  wf_interfaces : forall k i, interfaces !! k = Some i -> interface_ok k i;
  wf_keys : NoDup ((fun i => (i.(sie_section_index), i.(sie_interface_id))) <$> interfaces);
  wf_sections : Forall (fun i => i.(sie_section_index) <= off) interfaces;
  wf_max_packets : zlen packets <= lim.(sl_max_packets);
  wf_max_interfaces : zlen interfaces <= lim.(sl_max_interfaces);
}.

Lemma packet_interface_app interfaces more p :
  packet_interface interfaces p -> packet_interface (interfaces ++ more) p.
Proof.
  intros (k & i & Hk & ?). exists k, i. split; [by apply lookup_app_l_Some|done].
Qed.

Lemma index_wf_mono P lim off off' interfaces packets :
  off <= off' -> index_wf P lim off interfaces packets -> index_wf P lim off' interfaces packets.
Proof.
  intros Hle []. constructor; try done.
  - eapply Forall_impl; [exact wf_end0|]. simpl. lia.
  - eapply Forall_impl; [exact wf_sections0|]. simpl. lia.
Qed.

Lemma index_wf_nil P lim off :
  0 <= sl_max_packets lim -> 0 <= sl_max_interfaces lim -> index_wf P lim off [] [].
Proof. constructor; simpl; try done; try apply Forall_nil_2; constructor. Qed.

Lemma index_wf_packet P lim off off' interfaces packets p :
  index_wf P lim off interfaces packets ->
  p.(spe_packet_index) = zlen packets -> packet_span p -> P p ->
  packet_interface interfaces p ->
  off <= p.(spe_record_offset) -> packet_end p <= off' -> off <= off' ->
  zlen packets < lim.(sl_max_packets) ->
  index_wf P lim off' interfaces (packets ++ [p]).
Proof.
  intros [] Hidx Hspan HP Hif Hoff Hend Hle Hmax. constructor; try done.
  - intros k q [Hk|[? Hk]]%lookup_app_Some; [by auto|].
    apply list_lookup_singleton_Some in Hk as [? <-]. unfold zlen in *. lia.
  - apply Forall_app; auto.
  - apply Forall_app; split; [|by auto]. eapply Forall_impl; [exact wf_end0|]. simpl. lia.
  - apply StronglySorted_app. split_and!; [|done|by repeat constructor].
    intros q r Hq ->%list_elem_of_singleton.
    rewrite Forall_forall in wf_end0. specialize (wf_end0 q Hq). unfold packet_before. lia.
  - apply Forall_app; auto.
  - apply Forall_app; auto.
  - eapply Forall_impl; [exact wf_sections0|]. simpl. lia.
  - rewrite zlen_app, zlen_cons, zlen_nil. lia.
Qed.

Lemma index_wf_interface P lim off interfaces packets i :
  index_wf P lim off interfaces packets ->
  interface_ok (length interfaces) i -> i.(sie_section_index) <= off ->
  (i.(sie_section_index), i.(sie_interface_id)) ∉
    ((fun j => (j.(sie_section_index), j.(sie_interface_id))) <$> interfaces) ->
  zlen interfaces < lim.(sl_max_interfaces) ->
  index_wf P lim off (interfaces ++ [i]) packets.
Proof.
  intros [] Hok Hsec Hnew Hmax. constructor; try done.
  - eapply Forall_impl; [exact wf_interface0|]. intros p. apply packet_interface_app.
  - intros k j [Hk|[? Hk]]%lookup_app_Some; [by auto|].
    apply list_lookup_singleton_Some in Hk as [? <-].
    by replace k with (length interfaces) by lia.
  - rewrite fmap_app. apply NoDup_app. split_and!; [done| |apply NoDup_singleton].
    intros x Hx ->%list_elem_of_singleton. done.
  - by apply Forall_app; split; [|apply Forall_singleton].
  - rewrite zlen_app, zlen_cons, zlen_nil. lia.
Qed.

(** ** Batches *)

Definition pending (b : ScanBuffers) : list StructuralPacketEntry := b.(sb_batch) ++ b.(sb_retained).

(** With a consumer nothing is retained and the open batch is not full;
    without one nothing is batched. *)
Definition buffers_wf (lim : ScanLimits) (b : ScanBuffers) : Prop :=
  if lim.(sl_consumer) then b.(sb_retained) = [] /\ zlen b.(sb_batch) < lim.(sl_batch_size)
  else b.(sb_batch) = [].

Definition batches_wf (lim : ScanLimits) (batches : list (list StructuralPacketEntry)) : Prop :=
  if lim.(sl_consumer)
  then Forall (fun x => 0 < zlen x <= lim.(sl_batch_size)) batches
  else batches = [].

Lemma batches_wf_nil lim : batches_wf lim [].
Proof. unfold batches_wf. case_match; constructor. Qed.

Lemma batches_wf_app lim x y : batches_wf lim x -> batches_wf lim y -> batches_wf lim (x ++ y).
Proof. unfold batches_wf. case_match; [apply Forall_app_2|by intros -> ->]. Qed.
#[export] Hint Resolve batches_wf_nil batches_wf_app : scan.

Section scan_wp.
Context (content : bytes) (lim : ScanLimits).
Hypothesis batch_size_pos : 0 < lim.(sl_batch_size).
Hypothesis max_packets_pos : 0 < lim.(sl_max_packets).
Hypothesis max_interfaces_pos : 0 < lim.(sl_max_interfaces).

(** A packet goes to the retained list or to the open batch, which is handed
    over when it is full. *)
Lemma wp_emit_packet E packet b off :
  off <= zlen content -> buffers_wf lim b ->
  wp content E (fun os b' off' => off' = off /\ buffers_wf lim b' /\ batches_wf lim os /\
       concat os ++ pending b' = pending b ++ [packet])
    (_emit packet b lim) off.
Proof.
  intros Hoff Hb. unfold _emit, batches_wf, buffers_wf, pending in *.
  destruct (sl_consumer lim) eqn:Ec; cbn [negb].
  - destruct Hb as [Hr Hlen]. pose proof (zlen_nonneg (sb_batch b)).
    destruct (Z.leb_spec (sl_batch_size lim) (zlen (sb_batch b ++ [packet]))) as [Hfull|Hfull];
      rewrite zlen_app, zlen_cons, zlen_nil in Hfull.
    + apply wp_bind, wp_emit; [done|]. apply wp_ret; [done|]. simpl.
      rewrite Hr, !app_nil_r, zlen_nil. split_and!; try done.
      apply Forall_singleton. autorewrite with zlist. lia.
    + apply wp_ret; [done|]. simpl. rewrite Hr, !app_nil_r. split_and!; try done.
      autorewrite with zlist. lia.
  - apply wp_ret; [done|]. simpl. rewrite Hb. done.
Qed.

Lemma wp_finish_batch E b off :
  off <= zlen content -> buffers_wf lim b ->
  wp content E (fun os _ off' => off' = off /\ batches_wf lim os /\
       concat os ++ sb_retained b = pending b)
    (_finish_batch b lim) off.
Proof.
  intros Hoff Hb. unfold _finish_batch, batches_wf, buffers_wf, pending in *.
  destruct (sl_consumer lim) eqn:Ec.
  - destruct Hb as [Hr Hlen]. rewrite andb_true_r.
    case_bool_decide as Hnil; simpl.
    + apply wp_ret; [done|]. by rewrite Hnil.
    + apply wp_emit; [done|]. simpl. rewrite app_nil_r. split_and!; try done.
      apply Forall_singleton. pose proof (zlen_nonneg (sb_batch b)).
      destruct (decide (zlen (sb_batch b) = 0)) as [H0%zlen_0_nil|]; [done|lia].
  - rewrite andb_false_r. apply wp_ret; [done|]. by rewrite Hb.
Qed.

(** What a scan loop leaves: batches, interfaces, retained packets and count
    describe one index of the whole capture. *)
Definition scan_post (P : StructuralPacketEntry -> Prop) (flushed : list StructuralPacketEntry)
    (os : list (list StructuralPacketEntry)) (out : scan_output) (off : Z) : Prop :=
  let '(interfaces, retained, count) := out in
  off = zlen content /\ batches_wf lim os /\
  (if lim.(sl_consumer) then retained = [] else True) /\
  index_wf P lim off interfaces (flushed ++ concat os ++ retained) /\
  count = zlen (flushed ++ concat os ++ retained) /\ 0 < count.

(** Batches handed over before the rest of a loop runs. *)
Lemma scan_post_flush P flushed os os' out off :
  batches_wf lim os -> scan_post P (flushed ++ concat os) os' out off ->
  scan_post P flushed (os ++ os') out off.
Proof.
  destruct out as [[ifs retained] count]. unfold scan_post.
  rewrite concat_app, <- !app_assoc. intros ? (? & ? & ? & ? & ? & ?).
  split_and!; eauto with scan.
Qed.

Lemma wp_finish_scan P flushed interfaces b count off :
  off = zlen content -> buffers_wf lim b -> count <> 0 ->
  index_wf P lim off interfaces (flushed ++ pending b) -> count = zlen (flushed ++ pending b) ->
  wp content scan_error (scan_post P flushed)
    (_ ← _finish_batch b lim; Ret (interfaces, b.(sb_retained), count)) off.
Proof.
  intros Hoff Hb Hc Hwf Hcount. apply wp_bind.
  eapply wp_mono; [done| |apply wp_finish_batch; [lia|done]].
  intros os _ off' Hle (-> & Hos & Heq). apply wp_ret; [lia|]. rewrite app_nil_r.
  unfold scan_post. rewrite Heq. pose proof (zlen_nonneg (flushed ++ pending b)).
  split_and!; try done; try lia.
  unfold buffers_wf in Hb. destruct (sl_consumer lim); [by destruct Hb|done].
Qed.

(** ** Classic captures *)

Lemma wp_classic_record e resolution snaplen interfaces flushed count b off :
  0 <= off -> off + 16 <= zlen content -> buffers_wf lim b ->
  index_wf (classic_record e resolution content) lim off interfaces (flushed ++ pending b) ->
  count = zlen (flushed ++ pending b) ->
  packet_interface interfaces (classic_packet_entry 0 0 0 0 snaplen 0 0) ->
  wp content scan_error (fun os b' off' => off + 16 <= off' /\ buffers_wf lim b' /\
      batches_wf lim os /\
      index_wf (classic_record e resolution content) lim off' interfaces
        ((flushed ++ concat os) ++ pending b') /\
      count + 1 = zlen ((flushed ++ concat os) ++ pending b'))
    (scan_classic_record e resolution snaplen lim off count b (slice off (off + 16) content))
    (off + 16).
Proof.
  intros Hoff Hlen Hb Hwf Hcount Hif. unfold scan_classic_record.
  rewrite !u32_slice by lia. rewrite Z.add_0_r. pose proof (u32_bound e content (off + 8)).
  wp_go. wp_go. wp_go. wp_go. wp_go. wp_go. wp_go. wp_go. wp_go.
  eapply wp_mono; [done| |apply wp_emit_packet; [lia|done]].
  intros os b' off' _ (-> & Hb' & Hos & Heq).
  cbn [app]. rewrite <- app_assoc, Heq, app_assoc, zlen_app, zlen_cons, zlen_nil, <- Hcount.
  split_and!; try done; try lia.
  eapply index_wf_packet; [done|done| |done| |unfold packet_end; simpl; lia..].
  - unfold packet_span; simpl. lia.
  - destruct Hif as (k & i & Hk & ? & ? & ? & Hs). exists k, i. simpl in *. split_and!; try done. lia.
Qed.

Lemma wp_classic_loop fuel e resolution snaplen interfaces flushed count b off :
  0 <= off <= zlen content -> zlen content - off < Z.of_nat fuel -> buffers_wf lim b ->
  index_wf (classic_record e resolution content) lim off interfaces (flushed ++ pending b) ->
  count = zlen (flushed ++ pending b) ->
  packet_interface interfaces (classic_packet_entry 0 0 0 0 snaplen 0 0) ->
  wp content scan_error (scan_post (classic_record e resolution content) flushed)
    (scan_classic_loop fuel e resolution snaplen lim interfaces count b) off.
Proof.
  revert flushed count b off. induction fuel as [|fuel IH];
    intros flushed count b off Hoff Hfuel Hb Hwf Hcount Hif; [lia|].
  cbn [scan_classic_loop]. wp_go. wp_go. wp_go. wp_go.
  apply wp_read; [lia|lia|by left| |].
  - intros Hlen. rewrite bool_decide_false by (apply slice_nonempty; lia).
    apply wp_bind. eapply wp_mono; [done| |by apply wp_classic_record; [lia|..]].
    intros os b' off' Hle (? & Hb' & Hos & Hwf' & Hcount').
    eapply wp_mono; [done| |apply (IH (flushed ++ concat os)); [lia|lia|done..]].
    intros os' out off'' _ Hpost. by apply (scan_post_flush _ _ os).
  - intros _ Hend. rewrite bool_decide_true by done.
    destruct (Z.eqb_spec count 0); [wp_go|]. by apply wp_finish_scan.
Qed.

Lemma wp_scan_classic fuel e resolution off :
  0 <= off <= zlen content -> zlen content - off < Z.of_nat fuel -> 0 < resolution ->
  wp content scan_error (scan_post (classic_record e resolution content) [])
    (_scan_classic fuel e resolution lim) off.
Proof.
  intros Hoff Hfuel Hres. unfold _scan_classic. do 2 wp_go. wp_go. do 6 wp_go.
  cbv beta. set (header := slice off (off + 20) content) in *.
  apply wp_classic_loop; [lia|lia| | | |].
  - unfold buffers_wf. simpl. case_match; [|done]. by rewrite zlen_nil.
  - apply (index_wf_interface _ _ _ []); simpl.
    + by apply index_wf_nil; lia.
    + unfold interface_ok, classic_interface; simpl. split_and!; try done; try lia.
      * apply Z.land_nonneg. lia.
      * change 65535 with (Z.ones 16). rewrite Z.land_ones by lia.
        apply Z.mod_pos_bound. lia.
    + lia.
    + apply not_elem_of_nil.
    + by rewrite zlen_nil.
  - done.
  - by exists 0%nat, (classic_interface (u32 e header 16) (u32 e header 12) resolution).
Qed.

(** ** PCAPNG captures *)

Lemma wp_ng_option e code length denominator ts_offset off :
  0 <= off <= zlen content -> 0 <= length -> 0 < denominator -> - 2 ^ 63 <= ts_offset < 2 ^ 63 ->
  wp content block_error (fun (os : list (list StructuralPacketEntry)) v off' =>
      os = [] /\ off' = off + pad4 length /\ 0 < v.1 /\ - 2 ^ 63 <= v.2 < 2 ^ 63)
    (read_ng_option e code length (pad4 length) denominator ts_offset) off.
Proof.
  intros Hoff Hl Hd Ht. unfold read_ng_option. pose proof (pad4_bounds length Hl).
  destruct ((code =? 9) && (length =? 1)) eqn:E1; reflect_bools;
    [|destruct ((code =? 14) && (length =? 8)) eqn:E2; reflect_bools].
  - do 5 wp_go. simpl. split_and!; [done|lia| |lia|lia].
    apply resolution_denominator_pos, byte_at_bound.
  - do 5 wp_go. simpl. pose proof (i64_bound e (slice off (off + 8) content) 0). split_and!; done || lia.
  - do 3 wp_go. simpl. split_and!; done || lia.
Qed.

Lemma wp_ng_options_loop fuel remaining e denominator ts_offset off :
  0 <= off <= zlen content -> 0 <= remaining < Z.of_nat fuel -> 0 < denominator ->
  - 2 ^ 63 <= ts_offset < 2 ^ 63 ->
  wp content block_error (fun (os : list (list StructuralPacketEntry)) v off' =>
      os = [] /\ off' = off + remaining /\ v.1.1.1 = 1 /\ 0 < v.1.1.2 /\ - 2 ^ 63 <= v.1.2 < 2 ^ 63 /\
      forall x, v.2 = Some x -> block_error x)
    (read_ng_options_loop fuel remaining e denominator ts_offset) off.
Proof.
  revert remaining denominator ts_offset off.
  induction fuel as [|fuel IH]; intros remaining denominator ts_offset off Hoff Hr Hd Ht; [lia|].
  cbn [read_ng_options_loop].
  destruct (Z.eqb_spec remaining 0).
  { wp_go. simpl. split_and!; done || lia. }
  destruct (Z.ltb_spec remaining 4).
  { do 3 wp_go. simpl. split_and!; try done; try lia. intros x [= <-]. scan_err. }
  do 2 wp_go. cbv zeta. set (header := slice off (off + 4) content) in *.
  destruct (u16 e header 0 =? 0).
  { do 3 wp_go. simpl. split_and!; done || lia. }
  pose proof (u16_bound e header 2). pose proof (pad4_bounds (u16 e header 2)).
  destruct (Z.ltb_spec (remaining - 4) (pad4 (u16 e header 2))).
  { do 3 wp_go. simpl. split_and!; try done; try lia. intros x [= <-]. scan_err. }
  wp_go. eapply wp_mono; [done| |apply wp_ng_option; [lia|lia|done|done]].
  intros os v off' Hle (-> & -> & Hv & Hvt).
  eapply wp_mono; [done| |apply IH; [lia|lia|done|done]].
  intros os' v' off'' Hle' (-> & -> & ?). split_and!; try done; try lia; naive_solver lia.
Qed.

(** [rec] is the offset of the block, whose prefix has been read. *)
Lemma wp_read_trailer rec body_length :
  0 <= rec -> body_length = 0 \/ 4 <= body_length ->
  rec + 8 + Z.max 4 body_length <= zlen content ->
  wp content block_error (fun (os : list (list StructuralPacketEntry)) t off' =>
      os = [] /\ off' = rec + 12 + body_length /\
      t = slice (rec + body_length + 8) (rec + body_length + 12) content)
    (read_trailer (slice rec (rec + 12) content) body_length) (rec + 8 + Z.max 4 body_length).
Proof.
  intros Hrec Hbody Hlen. unfold read_trailer.
  destruct (Z.eqb_spec body_length 0) as [->|].
  - wp_go. rewrite slice_slice by lia. split_and!; [done|lia|f_equal; lia].
  - wp_go. split_and!; [done|lia|f_equal; lia].
Qed.

Lemma wp_discard_body rec body_length :
  0 <= rec -> body_length = 0 \/ 4 <= body_length -> rec + 12 <= zlen content ->
  wp content block_error (fun (os : list (list StructuralPacketEntry)) _ off' =>
      os = [] /\ off' = rec + 8 + Z.max 4 body_length)
    (discard_body body_length) (rec + 12).
Proof.
  intros Hrec Hbody Hlen. unfold discard_body.
  destruct (Z.eqb_spec body_length 0) as [->|]; wp_go; split_and!; done || lia.
Qed.

Lemma wp_interface_values e prefix rec body_length :
  0 <= rec -> body_length = 0 \/ 4 <= body_length -> rec + 12 <= zlen content ->
  wp content block_error (fun (os : list (list StructuralPacketEntry)) v off' =>
      os = [] /\ off' = rec + 8 + Z.max 4 body_length /\
      (forall lt snaplen num den tso err, v = Some (lt, snaplen, (num, den, tso, err)) ->
        0 <= lt < 65536 /\ num = 1 /\ 0 < den /\ - 2 ^ 63 <= tso < 2 ^ 63 /\ forall x, err = Some x -> block_error x))
    (scan_interface_values e prefix body_length) (rec + 12).
Proof.
  intros Hrec Hbody Hlen. unfold scan_interface_values. destruct (Z.ltb_spec body_length 8).
  { wp_go. eapply wp_mono; [done| |by apply wp_discard_body].
    intros os _ off' ? (-> & ->). wp_go. split_and!; done. }
  do 3 wp_go. unfold _read_ng_options.
  eapply wp_mono; [done| |apply wp_ng_options_loop; lia].
  intros os [[[num den] tso] err] off' ? (-> & -> & ?). wp_go. simpl in *.
  split_and!; [done|lia|].
  intros ? ? ? ? ? ? [= <- <- <- <- <- <-]. split_and!; naive_solver (first [apply u16_bound|lia]).
Qed.

Lemma wp_packet_values e block_type rec body_length :
  0 <= rec -> body_length = 0 \/ 4 <= body_length -> rec + 12 <= zlen content ->
  wp content block_error (fun (os : list (list StructuralPacketEntry)) v off' =>
      os = [] /\ off' = rec + 8 + Z.max 4 body_length /\
      (forall values, v = Some values -> 20 <= body_length /\
        values = ng_packet_values e block_type (slice (rec + 8) (rec + 28) content)))
    (scan_packet_values e block_type (if body_length =? 0 then []
       else slice 8 12 (slice rec (rec + 12) content)) body_length) (rec + 12).
Proof.
  intros Hrec Hbody Hlen. unfold scan_packet_values. destruct (Z.ltb_spec body_length 20).
  { wp_go. eapply wp_mono; [done| |by apply wp_discard_body].
    intros os _ off' ? (-> & ->). wp_go. split_and!; done. }
  rewrite (proj2 (Z.eqb_neq body_length 0)) by lia. rewrite slice_slice by lia.
  do 2 wp_go. replace (rec + 12 + 16) with (rec + 28) by lia. rewrite slice_app by lia.
  set (values := ng_packet_values e block_type (slice (rec + 8) (rec + 28) content)).
  cbv beta zeta. destruct values as [[[[iid hi] lo] caplen] orig] eqn:Evalues.
  assert (0 <= caplen) as Hcap.
  { pose proof (u32_bound e (slice (rec + 8) (rec + 28) content) 12).
    unfold values, ng_packet_values in Evalues. case_match; simplify_eq; lia. }
  pose proof (pad4_bounds caplen Hcap).
  wp_go. destruct (_ && _) eqn:Efit; reflect_bools.
  - do 4 wp_go. split_and!; [done|lia|]. intros ? [= <-]. done.
  - do 2 wp_go. split_and!; [done|lia|]. intros ? [= <-]. done.
Qed.

(** The loop invariant of [_scan_pcapng]. *)
Record ng_inv (off : Z) (flushed : list StructuralPacketEntry) (st : NgState) : Prop := {
  inv_index : index_wf (ng_record content) lim off st.(ng_all_interfaces)
                (flushed ++ pending st.(ng_buffers));
  inv_count : st.(ng_count) = zlen (flushed ++ pending st.(ng_buffers));
  inv_buffers : buffers_wf lim st.(ng_buffers);
  inv_section : forall k i, st.(ng_section_interfaces) !! k = Some i ->
    i.(sie_section_index) = st.(ng_section_index) /\ i.(sie_interface_id) = Z.of_nat k /\
    exists k', st.(ng_all_interfaces) !! k' = Some i;
  inv_all : Forall (fun i => i.(sie_section_index) < st.(ng_section_index) \/
      i.(sie_section_index) = st.(ng_section_index) /\
      i.(sie_interface_id) < zlen st.(ng_section_interfaces)) st.(ng_all_interfaces);
  inv_sections : st.(ng_section_index) < off;
  inv_section_length : zlen st.(ng_section_interfaces) <= zlen st.(ng_all_interfaces);
}.

Lemma ng_inv_initial : ng_inv 0 [] ng_initial.
Proof.
  constructor; simpl; try done.
  - apply index_wf_nil; lia.
  - unfold buffers_wf; simpl. case_match; [|done]. by rewrite zlen_nil.
Qed.

Lemma ng_inv_mono off off' flushed st :
  off <= off' -> ng_inv off flushed st -> ng_inv off' flushed st.
Proof. intros Hle []. constructor; try done; [by eapply index_wf_mono|lia]. Qed.

Definition block_post (flushed : list StructuralPacketEntry) (rec : Z)
    (os : list (list StructuralPacketEntry)) (st : NgState) (off : Z) : Prop :=
  rec + 12 <= off /\ batches_wf lim os /\ ng_inv off (flushed ++ concat os) st.

Lemma wp_check_in_section {A} (Q : list (list StructuralPacketEntry) -> A -> Z -> Prop) n f off :
  off <= zlen content -> (0 <= n -> wp content block_error Q (f tt) off) ->
  wp content block_error Q (check_in_section n ≫= f) off.
Proof.
  intros. unfold check_in_section. do 2 wp_go. auto.
Qed.

Lemma validate_ng_trailer_Ok t n e u : validate_ng_trailer t n e = Ok u -> u32 e t 0 = n.
Proof. unfold validate_ng_trailer. intros H%raise_if_Ok. by reflect_bools. Qed.

Lemma wp_section_block flushed rec st :
  0 <= rec -> rec + 12 <= zlen content -> ng_inv rec flushed st ->
  wp content scan_error (block_post flushed rec)
    (scan_section_block (slice rec (rec + 12) content) st) (rec + 12).
Proof.
  intros Hrec Hlen Hinv. unfold scan_section_block.
  destruct (section_endian _) as [e|]; [|wp_go]. cbv zeta.
  set (n := u32 e (slice 4 8 (slice rec (rec + 12) content)) 0).
  do 2 wp_go; [scan_err|].
  match goal with H : validate_ng_length _ = _ |- _ => apply validate_ng_length_Ok in H as [H12 H16] end.
  wp_go. wp_go.
  assert (forall t off', rec + 12 <= off' <= zlen content ->
    wp content scan_error (fun os st' off'' => block_post flushed rec ([] ++ os) st' off'')
      (lift_res (validate_ng_trailer t n e) ≫= fun _ => Ret {|
        ng_endian := e; ng_section_interfaces := []; ng_all_interfaces := ng_all_interfaces st;
        ng_section_index := ng_section_index st + 1; ng_count := ng_count st;
        ng_buffers := ng_buffers st |}) off') as Hrest.
  { intros t off' Hoff'. do 2 wp_go; [scan_err|]. wp_go. split_and!; [lia|apply batches_wf_nil|].
    simpl. rewrite app_nil_r. apply (ng_inv_mono (rec + 12)); [lia|].
    destruct (ng_inv_mono rec (rec + 12) flushed st ltac:(lia) Hinv).
    pose proof (inv_sections _ _ _ Hinv). constructor; simpl; try done; try lia.
    + eapply Forall_impl; [exact inv_all0|]. simpl. lia.
    + apply zlen_nonneg. }
  case_match; [wp_go; by apply Hrest|].
  do 3 wp_go. apply Hrest. lia.
Qed.

Lemma wp_interface_block flushed prefix rec block_length st :
  0 <= rec -> rec + 12 <= zlen content ->
  block_length - 12 = 0 \/ 4 <= block_length - 12 -> ng_inv rec flushed st ->
  wp content block_error (block_post flushed rec)
    (scan_interface_block lim (slice rec (rec + 12) content) block_length (block_length - 12)
       prefix st) (rec + 12).
Proof.
  intros Hrec Hlen Hbody Hinv. unfold scan_interface_block. cbv zeta.
  wp_go. eapply wp_mono; [done| |by apply wp_interface_values].
  intros os values off' Hoff' (-> & -> & Hvalues).
  wp_go. eapply wp_mono; [done| |apply wp_read_trailer; lia].
  intros os t off' Hoff'' (-> & -> & ->).
  do 2 wp_go; [scan_err|]. apply wp_check_in_section; [lia|]. intros Hsec.
  destruct values as [[[lt snaplen] [[[num den] tso] err]]|]; [|wp_go].
  destruct (Hvalues _ _ _ _ _ _ eq_refl) as (Hlt & -> & Hden & Htso & Herr).
  do 2 wp_go. destruct err as [x|]; [wp_go; apply wp_raise; by apply Herr|].
  do 4 wp_go. wp_go. split_and!; [lia|apply batches_wf_nil|].
  simpl. rewrite app_nil_r. apply (ng_inv_mono rec); [lia|].
  destruct Hinv. constructor; simpl; try done.
  - apply index_wf_interface; [done| |simpl; lia| |lia].
    + pose proof (zlen_nonneg (ng_section_interfaces st)).
      unfold interface_ok; simpl. unfold zlen in *. split_and!; done || lia.
    + simpl. intros (j & Hj & Hin)%list_elem_of_fmap. injection Hj as Hs Hi.
      rewrite Forall_forall in inv_all0. specialize (inv_all0 j Hin). lia.
  - intros k i [Hk|[? Hk]]%lookup_app_Some.
    + destruct (inv_section0 k i Hk) as (? & ? & k' & ?). split_and!; try done.
      exists k'. by apply lookup_app_l_Some.
    + apply list_lookup_singleton_Some in Hk as [? <-]. simpl. unfold zlen.
      split_and!; [done|lia|]. exists (length (ng_all_interfaces st)).
      rewrite lookup_app_r, Nat.sub_diag by lia. done.
  - apply Forall_app. split.
    + eapply Forall_impl; [exact inv_all0|]. simpl. intros i.
      rewrite zlen_app, zlen_cons, zlen_nil. lia.
    + apply Forall_singleton. right. simpl. rewrite zlen_app, zlen_cons, zlen_nil. lia.
  - rewrite !zlen_app, !zlen_cons, !zlen_nil. lia.
Qed.

(** The entry of a packet block agrees with the bytes of the block. *)
Lemma ng_record_entry e block_type rec index section ordinal iid hi lo caplen origlen :
  0 <= rec -> block_type = u32 e content rec -> block_type = 2 \/ block_type = 6 ->
  (iid, hi, lo, caplen, origlen) =
    ng_packet_values e block_type (slice (rec + 8) (rec + 28) content) ->
  u32 e content (rec + u32 e content (rec + 4) - 4) = u32 e content (rec + 4) ->
  u32 e content (rec + 4) mod 4 = 0 -> 28 + caplen <= u32 e content (rec + 4) - 4 ->
  ng_record content {|
    spe_packet_index := index; spe_record_offset := rec; spe_data_offset := rec + 28;
    spe_captured_length := caplen; spe_original_length := origlen;
    spe_framed_length := u32 e content (rec + 4); spe_section_index := section;
    spe_interface_id := iid; spe_interface_ordinal := ordinal;
    spe_raw_timestamp_ticks := Z.lor (Z.shiftl hi 32) lo |}.
Proof.
  intros Hrec -> Htype Hvalues Htrailer Hmod Hfit. exists e. unfold packet_end; simpl.
  unfold ng_packet_values in Hvalues. rewrite u16_slice, !u32_slice in Hvalues by lia.
  rewrite Z.add_0_r, <- !Z.add_assoc in Hvalues. simpl in Hvalues.
  destruct (Z.eqb_spec (u32 e content rec) 6); simplify_eq; split_and!; try done; try lia.
Qed.

Lemma wp_packet_block flushed rec block_type block_length st :
  0 <= rec -> rec + 12 <= zlen content ->
  block_type = u32 st.(ng_endian) content rec -> block_type = 2 \/ block_type = 6 ->
  block_length = u32 st.(ng_endian) content (rec + 4) ->
  block_length - 12 = 0 \/ 4 <= block_length - 12 -> block_length mod 4 = 0 -> ng_inv rec flushed st ->
  wp content block_error (block_post flushed rec)
    (scan_packet_block lim rec (slice rec (rec + 12) content) block_type block_length
       (block_length - 12) (if block_length - 12 =? 0 then []
       else slice 8 12 (slice rec (rec + 12) content)) st) (rec + 12).
Proof.
  intros Hrec Hlen Htype Htype' Hblock Hbody Hmod Hinv. unfold scan_packet_block. cbv zeta.
  wp_go. eapply wp_mono; [done| |by apply wp_packet_values].
  intros os values off' Hoff' (-> & -> & Hvalues).
  wp_go. eapply wp_mono; [done| |apply wp_read_trailer; lia].
  intros os t off' Hoff'' (-> & -> & ->).
  do 2 wp_go; [scan_err|].
  match goal with H : validate_ng_trailer _ _ _ = _ |- _ =>
    apply validate_ng_trailer_Ok in H; rewrite u32_slice, Z.add_0_r in H by lia; rename H into Htr end.
  apply wp_check_in_section; [lia|]. intros Hsec.
  destruct values as [[[[[iid hi] lo] caplen] origlen]|]; [|wp_go].
  destruct (Hvalues _ eq_refl) as [H20 Hval].
  destruct (ng_section_interfaces st !! Z.to_nat iid) as [interface|] eqn:Eif; [|wp_go].
  do 6 wp_go. apply wp_bind.
  eapply wp_mono; [done| |apply wp_emit_packet; [lia|by destruct Hinv]].
  intros os b' off' _ (-> & Hb' & Hos & Heq). wp_go. cbn [app]. rewrite app_nil_r.
  destruct Hinv. destruct (inv_section0 _ _ Eif) as (Hs & Hi & k' & Hk').
  pose proof (wf_interfaces _ _ _ _ _ inv_index0 _ _ Hk') as Hok.
  assert (0 <= iid /\ 0 <= caplen) as [Hiid Hcap].
  { unfold ng_packet_values in Hval. rewrite u16_slice, !u32_slice in Hval by lia.
    case_match; simplify_eq; split; apply u32_bound || apply u16_bound. }
  pose proof (pad4_bounds caplen Hcap).
  split_and!; [lia|done|]. constructor; simpl; try done.
  - rewrite <- app_assoc, Heq, app_assoc.
    eapply index_wf_packet; [done|done| | | |unfold packet_end; simpl; lia..].
    + unfold packet_span; simpl. lia.
    + subst block_length. eapply ng_record_entry; try done; [|lia].
      by replace (rec + u32 (ng_endian st) content (rec + 4) - 4)
        with (rec + (u32 (ng_endian st) content (rec + 4) - 12) + 8) by lia.
    + exists k', interface. simpl. destruct Hok as [Hord _]. split_and!; try done; try lia.
  - rewrite <- app_assoc, Heq, app_assoc, zlen_app, zlen_cons, zlen_nil. lia.
  - lia.
Qed.

Lemma wp_skipped_block flushed rec block_type block_length st :
  0 <= rec -> rec + 12 <= zlen content ->
  block_length - 12 = 0 \/ 4 <= block_length - 12 -> ng_inv rec flushed st ->
  wp content block_error (block_post flushed rec)
    (scan_skipped_block (slice rec (rec + 12) content) block_type block_length
       (block_length - 12) st) (rec + 12).
Proof.
  intros Hrec Hlen Hbody Hinv. unfold scan_skipped_block.
  wp_go. eapply wp_mono; [done| |by apply wp_discard_body].
  intros os _ off' Hoff' (-> & ->).
  wp_go. eapply wp_mono; [done| |apply wp_read_trailer; lia].
  intros os t off' Hoff'' (-> & -> & ->).
  do 2 wp_go; [scan_err|]. apply wp_check_in_section; [lia|]. intros Hsec.
  case_match; wp_go. split_and!; [lia|apply batches_wf_nil|].
  simpl. rewrite app_nil_r. apply (ng_inv_mono rec); [lia|done].
Qed.

Lemma wp_ng_block flushed rec st :
  0 <= rec -> rec + 12 <= zlen content -> ng_inv rec flushed st ->
  wp content scan_error (block_post flushed rec)
    (scan_ng_block lim rec (slice rec (rec + 12) content) st) (rec + 12).
Proof.
  intros Hrec Hlen Hinv. unfold scan_ng_block. case_bool_decide; [by apply wp_section_block|].
  cbv zeta. rewrite !u32_slice, Z.add_0_r by lia.
  do 2 wp_go; [scan_err|].
  match goal with H : validate_ng_length _ = _ |- _ =>
    pose proof (validate_ng_length_mod _ _ H) as Hm4; apply validate_ng_length_Ok in H as [H12 H16] end.
  wp_go. set (st_type := u32 (ng_endian st) content rec).
  destruct (Z.eqb_spec st_type 1); [apply wp_interface_block; try done; lia|].
  destruct (_ || _) eqn:Etype.
  - apply wp_packet_block; try done; try lia.
  - apply wp_skipped_block; try done; lia.
Qed.

Lemma wp_ng_loop fuel (magic : option bytes) flushed st rec :
  let off := rec + match magic with Some _ => 4 | None => 0 end in
  match magic with Some m => m = slice rec (rec + 4) content | None => True end ->
  0 <= rec -> off <= zlen content -> zlen content - rec < Z.of_nat fuel -> ng_inv rec flushed st ->
  wp content scan_error (scan_post (ng_record content) flushed)
    (scan_ng_loop fuel lim magic st) off.
Proof.
  revert magic flushed st rec. induction fuel as [|fuel IH];
    intros magic flushed st rec off Hmagic Hrec Hoff Hfuel Hinv;
    [unfold off in *; destruct magic; lia|].
  cbn [scan_ng_loop]. do 2 wp_go.
  replace (off - match magic with Some _ => 4 | None => 0 end) with rec by (unfold off; destruct magic; lia).
  assert (rec + 12 <= zlen content ->
    wp content scan_error (fun os out off' => scan_post (ng_record content) flushed os out off')
      (st' ← scan_ng_block lim rec (slice rec (rec + 12) content) st;
       scan_ng_loop fuel lim None st') (rec + 12)) as Hblock.
  { intros Hlen. wp_go. eapply wp_mono; [done| |by apply wp_ng_block].
    intros os st' off' Hle (Hprog & Hos & Hinv').
    pose proof (IH None (flushed ++ concat os) st' off' I ltac:(lia)) as IH'.
    cbv zeta in IH'. rewrite Z.add_0_r in IH'.
    eapply wp_mono; [done| |apply IH'; [lia|lia|done]].
    intros os' out off'' _ Hpost. by apply (scan_post_flush _ _ os). }
  wp_go. wp_go. destruct magic as [m|]; unfold off in *.
  - do 3 wp_go. rewrite Hmagic.
    replace (rec + 4 + 8) with (rec + 12) in * by lia. rewrite slice_app by lia.
    rewrite bool_decide_false by (apply slice_nonempty; lia). by apply Hblock.
  - rewrite Z.add_0_r in *. apply wp_read; [lia|lia|by left| |].
    + intros Hlen. rewrite bool_decide_false by (apply slice_nonempty; lia). by apply Hblock.
    + intros _ Hend. rewrite bool_decide_true by done. destruct Hinv.
      destruct (Z.eqb_spec (ng_count st) 0); [wp_go|]. by apply wp_finish_scan.
Qed.

(** ** The whole scan *)

(** The records of an index: classic or PCAPNG ones. *)
Definition record_of (content : bytes) (fmt : capture_format) (p : StructuralPacketEntry) : Prop :=
  match fmt with
  | PCAP => exists e resolution,
      CLASSIC_MAGIC (slice 0 4 content) = Some (e, resolution) /\
      classic_record e resolution content p
  | PCAPNG => ng_record content p
  end.

Lemma index_wf_record P P' off interfaces packets :
  (forall p, P p -> P' p) ->
  index_wf P lim off interfaces packets -> index_wf P' lim off interfaces packets.
Proof. intros HP []. constructor; try done. eapply Forall_impl; [exact wf_record0|done]. Qed.

Lemma wp_scan_capture fuel :
  zlen content < Z.of_nat fuel ->
  wp content scan_error
    (fun os out off => scan_post (record_of content out.1) [] os out.2 off)
    (scan_capture fuel lim) 0.
Proof.
  intros Hfuel. unfold scan_capture. pose proof (zlen_nonneg content). do 2 wp_go.
  wp_go. destruct (CLASSIC_MAGIC (slice 0 (0 + 4) content)) as [[e resolution]|] eqn:Emagic.
  - wp_go. eapply wp_mono; [done| |apply wp_scan_classic; [lia|lia|]].
    + intros os [[ifs retained] count] off' Hle Hpost. wp_go. simpl. rewrite app_nil_r.
      destruct Hpost as (? & ? & ? & ? & ? & ?). split_and!; try done.
      eapply index_wf_record; [|done]. intros p Hp. by exists e, resolution.
    + by eapply classic_magic_resolution.
  - case_bool_decide; [|wp_go]. wp_go. unfold _scan_pcapng.
    eapply wp_mono; [done| |
      apply (wp_ng_loop fuel (Some (slice 0 (0 + 4) content)) [] ng_initial 0);
        try done; try lia; apply ng_inv_initial].
    intros os [[ifs retained] count] off' Hle Hpost. wp_go. simpl. by rewrite app_nil_r.
Qed.
End scan_wp.

(** ** Batching *)

(** Two limits that differ only in how packets are handed over. *)
Definition same_bounds (lim1 lim2 : ScanLimits) : Prop :=
  lim1.(sl_max_packets) = lim2.(sl_max_packets) /\
  lim1.(sl_max_interfaces) = lim2.(sl_max_interfaces).

Section batching.
Context (content : bytes) (lim1 lim2 : ScanLimits).
Hypothesis bounds : same_bounds lim1 lim2.

(** No exception belongs to one side only. *)
Abbreviation none := (fun _ : exn => False).

Definition buffers_agree (flushed1 : list (list StructuralPacketEntry)) (b1 : ScanBuffers)
    (flushed2 : list (list StructuralPacketEntry)) (b2 : ScanBuffers) : Prop :=
  buffers_wf lim1 b1 /\ buffers_wf lim2 b2 /\
  concat flushed1 ++ pending b1 = concat flushed2 ++ pending b2.

Lemma rwp_emit_packet packet b1 b2 flushed1 flushed2 off :
  off <= zlen content -> 0 < lim1.(sl_batch_size) -> 0 < lim2.(sl_batch_size) ->
  buffers_agree flushed1 b1 flushed2 b2 ->
  rwp content none none (fun os1 b1' os2 b2' off' => off' = off /\
      buffers_agree (flushed1 ++ os1) b1' (flushed2 ++ os2) b2')
    (_emit packet b1 lim1) (_emit packet b2 lim2) off.
Proof.
  intros Hoff Hs1 Hs2 (Hb1 & Hb2 & Heq).
  pose proof (wp_emit_packet content lim1 Hs1 none packet b1 off Hoff Hb1) as H1.
  pose proof (wp_emit_packet content lim2 Hs2 none packet b2 off Hoff Hb2) as H2.
  unfold wp in H1, H2. unfold rwp.
  destruct (run (_emit packet b1 lim1) (mem_at content off)) as [[os1 [b1'|e1]] m1]; [|done].
  destruct (run (_emit packet b2 lim2) (mem_at content off)) as [[os2 [b2'|e2]] m2]; [|done].
  destruct H1 as (? & ? & ? & -> & ? & ? & Hc1), H2 as (? & ? & ? & -> & ? & ? & Hc2).
  exists off. split_and!; try done. unfold buffers_agree. split_and!; try done.
  rewrite !concat_app, <- !app_assoc, Hc1, Hc2, !app_assoc. by rewrite Heq.
Qed.

Hypothesis batch_size1 : 0 < lim1.(sl_batch_size).
Hypothesis batch_size2 : 0 < lim2.(sl_batch_size).

(** The outputs of both scans are the same packets in the same order. *)
Definition outputs_agree (flushed1 : list (list StructuralPacketEntry)) (out1 : scan_output)
    (flushed2 : list (list StructuralPacketEntry)) (out2 : scan_output) : Prop :=
  out1.1.1 = out2.1.1 /\ out1.2 = out2.2 /\
  concat flushed1 ++ out1.1.2 = concat flushed2 ++ out2.1.2.

Lemma rwp_finish_scan flushed1 flushed2 ifs b1 b2 count off :
  off <= zlen content -> buffers_agree flushed1 b1 flushed2 b2 ->
  rwp content none none (fun os1 out1 os2 out2 _ =>
      outputs_agree (flushed1 ++ os1) out1 (flushed2 ++ os2) out2)
    (_ ← _finish_batch b1 lim1; Ret (ifs, b1.(sb_retained), count))
    (_ ← _finish_batch b2 lim2; Ret (ifs, b2.(sb_retained), count)) off.
Proof.
  intros Hoff (Hb1 & Hb2 & Heq). apply rwp_bind.
  pose proof (wp_finish_batch content lim1 none b1 off Hoff Hb1) as H1.
  pose proof (wp_finish_batch content lim2 none b2 off Hoff Hb2) as H2.
  unfold wp in H1, H2. unfold rwp at 1.
  destruct (run (_finish_batch b1 lim1) (mem_at content off)) as [[os1 [b1'|e1]] m1]; [|done].
  destruct (run (_finish_batch b2 lim2) (mem_at content off)) as [[os2 [b2'|e2]] m2]; [|done].
  destruct H1 as (? & ? & ? & -> & ? & Hc1), H2 as (? & ? & ? & -> & ? & Hc2).
  exists off. split_and!; try done; try lia. apply rwp_ret; [lia|].
  unfold outputs_agree; simpl. split_and!; try done.
  rewrite !app_nil_r, !concat_app, <- !app_assoc, Hc1, Hc2. done.
Qed.

Lemma rwp_batch_classic_loop fuel e resolution snaplen ifs count flushed1 b1 flushed2 b2 off :
  0 <= off <= zlen content -> buffers_agree flushed1 b1 flushed2 b2 ->
  rwp content none none (fun os1 out1 os2 out2 _ =>
      outputs_agree (flushed1 ++ os1) out1 (flushed2 ++ os2) out2)
    (scan_classic_loop fuel e resolution snaplen lim1 ifs count b1)
    (scan_classic_loop fuel e resolution snaplen lim2 ifs count b2) off.
Proof.
  revert count flushed1 b1 flushed2 b2 off. induction fuel as [|fuel IH];
    intros count flushed1 b1 flushed2 b2 off Hoff Hagree; cbn [scan_classic_loop]; [apply rwp_raise|].
  do 2 rwp_step. do 2 rwp_step. apply rwp_read; [lia|lia| |].
  2:{ intros _ Hend. rewrite bool_decide_true by done.
      destruct (count =? 0); [apply rwp_raise|]. apply rwp_finish_scan; [lia|done]. }
  intros Hlen. rewrite bool_decide_false by (apply slice_nonempty; lia).
  rwp_step. unfold scan_classic_record. destruct bounds as [-> _].
  set (header := slice off (off + 16) content). pose proof (u32_bound e header 8).
  do 9 rwp_step. eapply rwp_mono; [|apply (rwp_emit_packet _ _ _ flushed1 flushed2); [lia|done..]].
  intros os1 b1' os2 b2' off' Hle (-> & Hagree'). cbn [app].
  eapply rwp_mono; [|apply (IH _ (flushed1 ++ os1) _ (flushed2 ++ os2)); [lia|done]].
  intros ? ? ? ? ? ? Hout. cbv beta in Hout. by rewrite <- !app_assoc in Hout.
Qed.

Record ng_agree (flushed1 : list (list StructuralPacketEntry)) (st1 : NgState)
    (flushed2 : list (list StructuralPacketEntry)) (st2 : NgState) : Prop := {
  agree_endian : st1.(ng_endian) = st2.(ng_endian);
  agree_section : st1.(ng_section_interfaces) = st2.(ng_section_interfaces);
  agree_all : st1.(ng_all_interfaces) = st2.(ng_all_interfaces);
  agree_index : st1.(ng_section_index) = st2.(ng_section_index);
  agree_count : st1.(ng_count) = st2.(ng_count);
  agree_buffers : buffers_agree flushed1 st1.(ng_buffers) flushed2 st2.(ng_buffers);
}.


(** The reading steps yield nothing. *)
Lemma quiet_ng_options_loop {O} fuel remaining e denominator ts_offset :
  quiet (O := O) (read_ng_options_loop fuel remaining e denominator ts_offset).
Proof.
  revert remaining denominator ts_offset. induction fuel; intros; cbn [read_ng_options_loop];
    unfold read_ng_option; quiets.
Qed.
Lemma quiet_read_trailer {O} prefix n : quiet (O := O) (read_trailer prefix n).
Proof. unfold read_trailer. quiets. Qed.
Lemma quiet_discard_body {O} n : quiet (O := O) (discard_body n).
Proof. unfold discard_body. quiets. Qed.
#[local] Hint Resolve quiet_ng_options_loop quiet_read_trailer quiet_discard_body : sizes.

Lemma quiet_interface_values {O} e prefix n : quiet (O := O) (scan_interface_values e prefix n).
Proof. unfold scan_interface_values, _read_ng_options. quiets. Qed.
Lemma quiet_packet_values {O} e t prefix n : quiet (O := O) (scan_packet_values e t prefix n).
Proof. unfold scan_packet_values, ng_packet_values. quiets. Qed.
#[local] Hint Resolve quiet_interface_values quiet_packet_values : sizes.

Ltac rwp_same := apply rwp_refl; [solve [sizes]|solve [quiets]|lia|intros ? ? ?].

Lemma rwp_batch_section_block flushed1 st1 flushed2 st2 prefix off :
  0 <= off <= zlen content -> ng_agree flushed1 st1 flushed2 st2 ->
  rwp content none none (fun os1 st1' os2 st2' _ =>
      ng_agree (flushed1 ++ os1) st1' (flushed2 ++ os2) st2')
    (scan_section_block prefix st1) (scan_section_block prefix st2) off.
Proof.
  intros Hoff []. unfold scan_section_block. destruct (section_endian _) as [e|]; [|rwp_step].
  do 2 rwp_step.
  match goal with H : validate_ng_length _ = _ |- _ => apply validate_ng_length_Ok in H as [H12 H16] end.
  rwp_step. apply rwp_refl; [|solve [quiets]|lia|intros t off' ?].
  { apply sizes_catch. destruct (Z.eqb_spec (u32 e (slice 4 8 prefix) 0) 12); sizes. }
  do 3 rwp_step. cbn [app]. rewrite !app_nil_r. constructor; simpl; congruence || done.
Qed.

Lemma rwp_batch_interface_block flushed1 st1 flushed2 st2 bp n body prefix off :
  0 <= off <= zlen content -> body = 0 \/ 4 <= body -> ng_agree flushed1 st1 flushed2 st2 ->
  rwp content none none (fun os1 st1' os2 st2' _ =>
      ng_agree (flushed1 ++ os1) st1' (flushed2 ++ os2) st2')
    (scan_interface_block lim1 bp n body prefix st1)
    (scan_interface_block lim2 bp n body prefix st2) off.
Proof.
  intros Hoff Hbody []. unfold scan_interface_block, check_in_section.
  rewrite agree_endian0, agree_index0, agree_all0, agree_section0.
  destruct bounds as [_ ->].
  rwp_step. rwp_same. rwp_step. rwp_same. do 4 rwp_step.
  destruct a as [[[lt snaplen] [[[num den] tso] err]]|]; [|rwp_step].
  do 2 rwp_step. rwp_step. apply rwp_refl; [by destruct err..|lia|intros ? ? ?].
  do 3 rwp_step. cbn [app]. rewrite !app_nil_r. constructor; simpl; congruence || done.
Qed.

Lemma rwp_batch_packet_block flushed1 st1 flushed2 st2 rec bp t n body prefix off :
  0 <= off <= zlen content -> body = 0 \/ 4 <= body -> ng_agree flushed1 st1 flushed2 st2 ->
  rwp content none none (fun os1 st1' os2 st2' _ =>
      ng_agree (flushed1 ++ os1) st1' (flushed2 ++ os2) st2')
    (scan_packet_block lim1 rec bp t n body prefix st1)
    (scan_packet_block lim2 rec bp t n body prefix st2) off.
Proof.
  intros Hoff Hbody []. unfold scan_packet_block, check_in_section.
  rewrite agree_endian0, agree_index0, agree_section0, agree_count0.
  destruct bounds as [-> _].
  rwp_step. rwp_same. rwp_step. rwp_same. do 4 rwp_step.
  destruct a as [[[[[iid hi] lo] caplen] origlen]|]; [|rwp_step].
  destruct (ng_section_interfaces st2 !! Z.to_nat iid); [|rwp_step].
  do 7 rwp_step. eapply rwp_mono; [|apply rwp_emit_packet; [lia|done..]].
  intros os1 b1 os2 b2 ? Hle (-> & Hagree). rwp_step. cbn [app].
  rewrite !app_nil_r. constructor; simpl; congruence || done.
Qed.

Lemma rwp_batch_ng_block flushed1 st1 flushed2 st2 rec prefix off :
  0 <= off <= zlen content -> ng_agree flushed1 st1 flushed2 st2 ->
  rwp content none none (fun os1 st1' os2 st2' _ =>
      ng_agree (flushed1 ++ os1) st1' (flushed2 ++ os2) st2')
    (scan_ng_block lim1 rec prefix st1) (scan_ng_block lim2 rec prefix st2) off.
Proof.
  intros Hoff Hagree. unfold scan_ng_block.
  case_bool_decide; [by apply rwp_batch_section_block|]. cbv zeta.
  rewrite (agree_endian _ _ _ _ Hagree).
  do 2 rwp_step.
  match goal with H : validate_ng_length _ = _ |- _ => apply validate_ng_length_Ok in H as [H12 H16] end.
  rwp_step. case_match; [apply rwp_batch_interface_block; try done; lia|].
  case_match; [apply rwp_batch_packet_block; try done; lia|].
  unfold scan_skipped_block, check_in_section.
  rewrite (agree_endian _ _ _ _ Hagree), (agree_index _ _ _ _ Hagree).
  rwp_step. apply rwp_refl; [apply sizes_discard_body; lia|solve [quiets]|lia|intros ? ? ?].
  rwp_step. rwp_same. do 4 rwp_step. case_match; rwp_step. by rewrite !app_nil_r.
Qed.

Lemma rwp_batch_ng_loop fuel magic flushed1 st1 flushed2 st2 off :
  0 <= off <= zlen content -> ng_agree flushed1 st1 flushed2 st2 ->
  rwp content none none (fun os1 out1 os2 out2 _ =>
      outputs_agree (flushed1 ++ os1) out1 (flushed2 ++ os2) out2)
    (scan_ng_loop fuel lim1 magic st1) (scan_ng_loop fuel lim2 magic st2) off.
Proof.
  revert magic flushed1 st1 flushed2 st2 off. induction fuel as [|fuel IH];
    intros magic flushed1 st1 flushed2 st2 off Hoff Hagree; cbn [scan_ng_loop]; [rwp_step|].
  do 2 rwp_step. rwp_step. rwp_same. cbv beta. case_bool_decide.
  - rewrite (agree_count _ _ _ _ Hagree), (agree_all _ _ _ _ Hagree).
    destruct (ng_count st2 =? 0); [rwp_step|]. apply rwp_finish_scan; [lia|by destruct Hagree].
  - rwp_step. eapply rwp_mono; [|apply rwp_batch_ng_block; [lia|done]].
    intros os1 st1' os2 st2' off2 Hle Hagree'.
    eapply rwp_mono; [|apply (IH _ (flushed1 ++ os1) _ (flushed2 ++ os2)); [lia|done]].
    intros ? ? ? ? ? ? Hout. cbv beta in Hout. by rewrite <- !app_assoc in Hout.
Qed.

Lemma rwp_batch_scan_capture fuel :
  rwp content none none (fun os1 out1 os2 out2 _ =>
      out1.1 = out2.1 /\ outputs_agree os1 out1.2 os2 out2.2)
    (scan_capture fuel lim1) (scan_capture fuel lim2) 0.
Proof.
  pose proof (zlen_nonneg content). unfold scan_capture. do 3 rwp_step.
  assert (buffers_agree [] (mk_buffers [] []) [] (mk_buffers [] [])) as Hempty.
  { unfold buffers_agree, buffers_wf; simpl. rewrite zlen_nil. repeat case_match; done. }
  destruct (CLASSIC_MAGIC _) as [[e resolution]|].
  - unfold _scan_classic. destruct bounds as [_ ->].
    rwp_step. do 9 rwp_step. eapply rwp_mono; [|apply (rwp_batch_classic_loop _ _ _ _ _ _ []); [lia|done]].
    intros os1 out1 os2 out2 off' Hle Hout. rwp_step. by rewrite !app_nil_r.
  - case_bool_decide; [|rwp_step]. unfold _scan_pcapng. rwp_step.
    eapply rwp_mono; [|apply (rwp_batch_ng_loop _ _ [] _ []); [lia|done]].
    intros os1 out1 os2 out2 off' Hle Hout. rwp_step. by rewrite !app_nil_r.
Qed.
End batching.

(** ** The scan of a reader *)

Section reader.
Context (sha256_hex : bytes -> string).
Context {R : Type} `{!CaptureReader R, !LawfulReader R}.

Definition limits_ok (lim : ScanLimits) : Prop :=
  0 < lim.(sl_max_packets) /\ 0 < lim.(sl_max_interfaces) /\ 0 < lim.(sl_batch_size).

Lemma limits_guard lim :
  limits_ok lim ->
  (lim.(sl_max_packets) <=? 0) || (lim.(sl_max_interfaces) <=? 0)
    || (lim.(sl_batch_size) <=? 0) = false.
Proof. unfold limits_ok. lia. Qed.

(** The scan computed on the reader's content alone. *)
Definition scan_of_content (content : bytes) (fuel : nat) (lim : ScanLimits)
    : list (list StructuralPacketEntry) * res StructuralScanResult :=
  let '(batches, r, m) := run (scan_capture fuel lim) (mk_mem content 0) in
  (batches,
   '(fmt, (interfaces, packets, count)) ← r;
   Ok {| ssr_capture_format := fmt;
         ssr_size_bytes := m.(mem_offset);
         ssr_sha256 := sha256_hex (ztake (zlen content - zlen m.(mem_rest)) content);
         ssr_interfaces := interfaces;
         ssr_packets := packets;
         ssr_packet_count := count |}).

Lemma scan_refines_content fuel (r : R) lim :
  limits_ok lim -> zlen (reader_content r) <= _MAX_I64 ->
  scan_structural_packet_index sha256_hex fuel r lim =
  scan_of_content (reader_content r) fuel lim.
Proof.
  intros Hlim Hmax. unfold scan_structural_packet_index, scan_of_content.
  rewrite limits_guard by done.
  assert (cursor_rel (reader_content r) (new_cursor r) (mk_mem (reader_content r) 0)) as Hrel.
  { by unfold cursor_rel. }
  destruct (run_sim (cursor_rel (reader_content r)) (scan_capture fuel lim) _ _
              (sizes_scan_capture fuel lim) Hrel) as [H1 H2].
  destruct (run (scan_capture fuel lim) (new_cursor r)) as [[os1 r1] c1].
  destruct (run (scan_capture fuel lim) (mk_mem (reader_content r) 0)) as [[os2 r2] m2].
  simpl in H1, H2. injection H1 as -> ->. destruct H2 as (_ & Ho & _ & Hd).
  f_equal. destruct r2 as [[fmt [[ifs ps] n]]|e]; simpl; [|done]. do 2 f_equal; [done|].
  f_equal. rewrite <- Hd, zlen_app. symmetry. apply ztake_app_exact. lia.
Qed.

(** What a successful scan promises about the capture. *)
Definition scan_result_ok (content : bytes) (lim : ScanLimits)
    (batches : list (list StructuralPacketEntry)) (out : StructuralScanResult) : Prop :=
  out.(ssr_size_bytes) = zlen content /\ out.(ssr_sha256) = sha256_hex content /\
  batches_wf lim batches /\
  (if lim.(sl_consumer) then out.(ssr_packets) = [] else True) /\
  index_wf (record_of content out.(ssr_capture_format)) lim (zlen content)
    out.(ssr_interfaces) (concat batches ++ out.(ssr_packets)) /\
  out.(ssr_packet_count) = zlen (concat batches ++ out.(ssr_packets)) /\
  0 < out.(ssr_packet_count).

Lemma scan_of_content_ok content fuel lim :
  limits_ok lim -> zlen content < Z.of_nat fuel ->
  let '(batches, result) := scan_of_content content fuel lim in
  match result with
  | Ok out => scan_result_ok content lim batches out
  | Err e => scan_error e
  end.
Proof.
  intros (Hp & Hi & Hb) Hfuel. unfold scan_of_content.
  pose proof (wp_scan_capture content lim Hb Hp Hi fuel Hfuel) as H. unfold wp in H.
  rewrite mem_at_0 in H.
  destruct (run (scan_capture fuel lim) (mk_mem content 0)) as [[os r] m].
  destruct r as [[fmt [[ifs ps] n]]|e]; [|done]. destruct H as (off & -> & Hle & Hpost).
  destruct Hpost as (-> & ? & ? & ? & ? & ?). simpl in *.
  unfold scan_result_ok; simpl. split_and!; try done. f_equal.
  rewrite zdrop_all, zlen_nil, Z.sub_0_r by lia. by apply ztake_all.
Qed.
End reader.

(** ** Properties *)

(** C1: over every lawful reader, whatever the sizes of its chunks, a scan with
    positive limits and fuel above the capture's length either raises a parse
    or limit error or returns an index that is right for the capture: size and
    digest of the whole content, packet indices 0, 1, 2, ..., records in order,
    disjoint, inside the capture and with captured length at most the original
    length and the snap length of an interface of the index, each entry spelled
    by the bytes of its record, limits respected, and batches of at most the
    batch size whose concatenation with the retained packets is that index. *)
Theorem scan_structural_packet_index_sound (sha256_hex : bytes -> string) (R : Type)
    (reads : CaptureReader R) (lawful : LawfulReader R) (fuel : nat) (r : R) (lim : ScanLimits) :
  limits_ok lim -> zlen (reader_content r) <= _MAX_I64 ->
  zlen (reader_content r) < Z.of_nat fuel ->
  let '(batches, result) := scan_structural_packet_index sha256_hex fuel r lim in
  match result with
  | Ok out => scan_result_ok sha256_hex (reader_content r) lim batches out
  | Err e => scan_error e
  end.
Proof.
  intros Hlim Hmax Hfuel. rewrite (scan_refines_content sha256_hex fuel r) by done. by apply scan_of_content_ok.
Qed.

Definition sample_limits (batch : Z) (consumer : bool) : ScanLimits :=
  {| sl_max_packets := 10; sl_max_interfaces := 2; sl_batch_size := batch;
     sl_consumer := consumer |}.

Lemma scan_structural_packet_index_sound_witness :
  exists batches out,
    scan_structural_packet_index (fun _ => "d"%string) 500 {| trickle_data := sample_pcapng |}
      (sample_limits 1 true) = (batches, Ok out) /\
    length batches = 2%nat /\
    scan_result_ok (fun _ => "d"%string) sample_pcapng (sample_limits 1 true) batches out.
Proof.
  pose proof (scan_structural_packet_index_sound (fun _ => "d"%string) TrickleReader
    trickle_reader trickle_lawful 500 {| trickle_data := sample_pcapng |} (sample_limits 1 true))
    as H.
  destruct (scan_structural_packet_index _ _ _ _) as [batches result] eqn:E.
  vm_compute in E. injection E as E1 E2. subst result.
  eexists batches, _. split; [done|]. split; [by rewrite <- E1|].
  apply H; [|vm_compute; discriminate|vm_compute; reflexivity].
  repeat split; vm_compute; reflexivity.
Defined.

(** Scans of one capture with other batch sizes. *)
Lemma scan_batching_equivalent (sha256_hex : bytes -> string) (R : Type)
    (reads : CaptureReader R) (lawful : LawfulReader R) (fuel : nat) (r : R)
    (lim1 lim2 : ScanLimits) :
  limits_ok lim1 -> limits_ok lim2 -> same_bounds lim1 lim2 ->
  zlen (reader_content r) <= _MAX_I64 ->
  match scan_structural_packet_index sha256_hex fuel r lim1,
        scan_structural_packet_index sha256_hex fuel r lim2 with
  | (batches1, Ok out1), (batches2, Ok out2) =>
      concat batches1 ++ out1.(ssr_packets) = concat batches2 ++ out2.(ssr_packets) /\
      out1.(ssr_capture_format) = out2.(ssr_capture_format) /\
      out1.(ssr_size_bytes) = out2.(ssr_size_bytes) /\ out1.(ssr_sha256) = out2.(ssr_sha256) /\
      out1.(ssr_interfaces) = out2.(ssr_interfaces) /\
      out1.(ssr_packet_count) = out2.(ssr_packet_count)
  | (_, Err e1), (_, Err e2) => e1 = e2
  | _, _ => False
  end.
Proof.
  intros Hlim1 Hlim2 Hbounds Hmax. rewrite !(scan_refines_content sha256_hex fuel r) by done.
  unfold scan_of_content. destruct Hlim1 as (_ & _ & Hb1), Hlim2 as (_ & _ & Hb2).
  pose proof (rwp_batch_scan_capture (reader_content r) lim1 lim2 Hbounds Hb1 Hb2 fuel) as H.
  unfold rwp in H. rewrite mem_at_0 in H.
  destruct (run (scan_capture fuel lim1) _) as [[os1 [[fmt1 [[ifs1 ps1] n1]]|e1]] m1],
    (run (scan_capture fuel lim2) _) as [[os2 [[fmt2 [[ifs2 ps2] n2]]|e2]] m2]; simpl in *;
    [|done|done|naive_solver].
  destruct H as (off & -> & -> & _ & -> & Hi & Hn & Heq). simpl in *. by subst.
Qed.

(** C2: the scan depends on the bytes of the capture only: two lawful readers
    with the same content, of any kind and chunking, give the same batches and
    the same result or error; and handing packets to a consumer in batches
    changes nothing but the way they are handed over: scans under the same packet
    and interface limits, with any batch sizes and with or without a consumer,
    raise the same error, or return the same format, size, digest, interfaces
    and count, and deliver the same packets in the same order. *)
Theorem scan_reader_independent (sha256_hex : bytes -> string) (R1 R2 : Type)
    (reads1 : CaptureReader R1) (lawful1 : LawfulReader R1)
    (reads2 : CaptureReader R2) (lawful2 : LawfulReader R2)
    (fuel : nat) (r1 : R1) (r2 : R2) :
  zlen (reader_content r1) <= _MAX_I64 -> reader_content r1 = reader_content r2 ->
  (forall lim, limits_ok lim ->
     scan_structural_packet_index sha256_hex fuel r1 lim = scan_structural_packet_index sha256_hex fuel r2 lim) /\
  (forall lim1 lim2, limits_ok lim1 -> limits_ok lim2 -> same_bounds lim1 lim2 ->
     match scan_structural_packet_index sha256_hex fuel r1 lim1,
           scan_structural_packet_index sha256_hex fuel r2 lim2 with
     | (batches1, Ok out1), (batches2, Ok out2) =>
         concat batches1 ++ out1.(ssr_packets) = concat batches2 ++ out2.(ssr_packets) /\
         out1.(ssr_capture_format) = out2.(ssr_capture_format) /\
         out1.(ssr_size_bytes) = out2.(ssr_size_bytes) /\ out1.(ssr_sha256) = out2.(ssr_sha256) /\
         out1.(ssr_interfaces) = out2.(ssr_interfaces) /\
         out1.(ssr_packet_count) = out2.(ssr_packet_count)
     | (_, Err e1), (_, Err e2) => e1 = e2
     | _, _ => False
     end).
Proof.
  intros Hmax Heq.
  assert (forall lim, limits_ok lim ->
    scan_structural_packet_index sha256_hex fuel r1 lim = scan_structural_packet_index sha256_hex fuel r2 lim) as Hsame.
  { intros lim Hlim. rewrite (scan_refines_content sha256_hex fuel r1) by done.
    by rewrite (scan_refines_content sha256_hex fuel r2), Heq by congruence. }
  split; [exact Hsame|]. intros lim1 lim2 H1 H2 Hb. rewrite <- (Hsame lim2 H2). by apply (scan_batching_equivalent _ _ _ lawful1).
Qed.

Lemma scan_reader_independent_witness :
  scan_structural_packet_index (fun _ => "d"%string) 500 {| trickle_data := sample_pcap |}
    (sample_limits 2 false) =
  scan_structural_packet_index (fun _ => "d"%string) 500 {| bio_data := sample_pcap |}
    (sample_limits 2 false) /\
  concat (scan_structural_packet_index (fun _ => "d"%string) 500
            {| trickle_data := sample_pcap |} (sample_limits 1 true)).1 =
  concat (scan_structural_packet_index (fun _ => "d"%string) 500
            {| bio_data := sample_pcap |} (sample_limits 2 true)).1.
Proof.
  destruct (scan_reader_independent (fun _ => "d"%string) TrickleReader BytesIO _ trickle_lawful _ bytesio_lawful
    500 {| trickle_data := sample_pcap |} {| bio_data := sample_pcap |}) as [Hsame Hbatch];
    [vm_compute; discriminate|reflexivity|].
  split; [apply Hsame; repeat split; vm_compute; reflexivity|].
  pose proof (Hbatch (sample_limits 1 true) (sample_limits 2 true)) as H.
  destruct (scan_structural_packet_index _ _ _ (sample_limits 1 true)) as [b1 r1] eqn:E1.
  destruct (scan_structural_packet_index _ _ _ (sample_limits 2 true)) as [b2 r2] eqn:E2.
  vm_compute in E1, E2. injection E1 as E1 E1'. injection E2 as E2 E2'. subst r1 r2. simpl in *.
  rewrite !app_nil_r in H. apply H; repeat split; vm_compute; reflexivity.
Defined.
