(* ===== verification/PacketProjection.v ===== *)
(** * PacketProjection

    The packet decoder of pcap_export.py: link layer, IPv4 / IPv6 with
    extension headers, transport, direction, and the projection that sequential
    export, posting construction and predicates all work on. *)

From S2P Require Import Prelude Bytes IpAddress IpText.

Inductive Direction : Type := INBOUND | OUTBOUND | UNKNOWN.

#[global] Instance Direction_eq_dec : EqDecision Direction.
Proof. solve_decision. Defined.

Definition direction_str (d : Direction) : string :=
  match d with INBOUND => "INBOUND" | OUTBOUND => "OUTBOUND" | UNKNOWN => "UNKNOWN" end.

(** [PacketProjection]: the eight projected fields of a packet. *)
Record Projection : Type := {
  pp_source_ip : option string;
  pp_destination_ip : option string;
  pp_source_port : option Z;
  pp_destination_port : option Z;
  pp_protocol : option string;
  pp_direction : option Direction;
  pp_has_payload : option bool;
  pp_supported : bool;
}.

Definition unsupported : Projection := {|
  pp_source_ip := None; pp_destination_ip := None;
  pp_source_port := None; pp_destination_port := None;
  pp_protocol := None; pp_direction := None;
  pp_has_payload := None; pp_supported := false;
|}.

(** ** Link layer *)

Definition _ethertype_payload (protocol : Z) (payload : bytes) : option (Z * bytes) :=
  if protocol =? 0x0800 then Some (4, payload)
  else if protocol =? 0x86DD then Some (6, payload)
  else None.

Definition _raw_ip (packet : bytes) : option (Z * bytes) :=
  if bool_decide (packet = []) then None
  else
    let version := Z.shiftr (byte_at packet 0) 4 in
    if (version =? 4) || (version =? 6) then Some (version, packet) else None.

Definition is_vlan_tag (protocol : Z) : bool :=
  (protocol =? 0x8100) || (protocol =? 0x88A8) || (protocol =? 0x9100).

(** [for _ in range(n)]: up to [n] VLAN tags; [None] when one is truncated. *)
Fixpoint skip_vlan_tags (n : nat) (packet : bytes) (protocol offset : Z) : option (Z * Z) :=
  match n with
  | O => Some (protocol, offset)
  | S n' =>
      if negb (is_vlan_tag protocol) then Some (protocol, offset)
      else if zlen packet <? offset + 4 then None
      else skip_vlan_tags n' packet (from_be (slice (offset + 2) (offset + 4) packet)) (offset + 4)
  end.

Definition _network_packet (packet : bytes) (link_type : Z) : option (Z * bytes) :=
  if link_type =? 1 then
    if zlen packet <? 14 then None
    else
      '(protocol, offset) ← skip_vlan_tags 2 packet (from_be (slice 12 14 packet)) 14;
      _ethertype_payload protocol (zdrop offset packet)
  else if (link_type =? 12) || (link_type =? 101) then _raw_ip packet
  else if link_type =? 228 then
    if negb (bool_decide (packet = [])) && (Z.shiftr (byte_at packet 0) 4 =? 4)
    then Some (4, packet) else None
  else if link_type =? 229 then
    if negb (bool_decide (packet = [])) && (Z.shiftr (byte_at packet 0) 4 =? 6)
    then Some (6, packet) else None
  else if link_type =? 113 then
    if zlen packet <? 16 then None
    else _ethertype_payload (from_be (slice 14 16 packet)) (zdrop 16 packet)
  else if link_type =? 276 then
    if zlen packet <? 20 then None
    else _ethertype_payload (from_be (slice 0 2 packet)) (zdrop 20 packet)
  else if (link_type =? 0) || (link_type =? 108) then
    if zlen packet <? 4 then None
    else
      let little := from_le (ztake 4 packet) in
      let big := from_be (ztake 4 packet) in
      let has f := (little =? f) || (big =? f) in
      if has 2 then Some (4, zdrop 4 packet)
      else if has 10 || has 24 || has 28 || has 30 then Some (6, zdrop 4 packet)
      else None
  else None.

(** ** Transport *)

(** The protocol name of an IP protocol number. *)
Definition protocol_name (number : Z) : string :=
  if number =? 1 then "ICMP"
  else if number =? 6 then "TCP"
  else if number =? 17 then "UDP"
  else if number =? 58 then "ICMPV6"
  else "IP_" +:+ pretty number.

Definition _transport (protocol_number : Z) (transport : bytes) (first_fragment : bool)
    : string * option Z * option Z * bytes :=
  let protocol := protocol_name protocol_number in
  if negb first_fragment then (protocol, None, None, [])
  else if (protocol_number =? 6) && (20 <=? zlen transport) then
    let header_length := Z.shiftr (byte_at transport 12) 4 * 4 in
    let payload := if (20 <=? header_length) && (header_length <=? zlen transport)
                   then zdrop header_length transport else [] in
    (protocol, Some (u16 BE transport 0), Some (u16 BE transport 2), payload)
  else if (protocol_number =? 17) && (8 <=? zlen transport) then
    let udp_length := u16 BE transport 4 in
    let stop := if 8 <=? udp_length then Z.min (zlen transport) udp_length else zlen transport in
    (protocol, Some (u16 BE transport 0), Some (u16 BE transport 2), slice 8 stop transport)
  else
    let header_length :=
      if ((protocol_number =? 1) || (protocol_number =? 58)) && (8 <=? zlen transport)
      then 8 else 0 in
    (protocol, None, None, zdrop header_length transport).

(** ** Network layer *)

(** Source and destination text, ports, protocol name, payload. *)
Definition decoded : Type := (string * string * option Z * option Z * string * bytes)%type.

Definition _decode_ipv4 (packet : bytes) : option decoded :=
  if (zlen packet <? 20) || negb (Z.shiftr (byte_at packet 0) 4 =? 4) then None
  else
    let header_length := Z.land (byte_at packet 0) 15 * 4 in
    let total_length := from_be (slice 2 4 packet) in
    if (header_length <? 20) || (total_length <? header_length) || (zlen packet <? header_length)
    then None
    else
      let stop := Z.min (zlen packet) total_length in
      let first_fragment := Z.land (from_be (slice 6 8 packet)) 0x1FFF =? 0 in
      let '(protocol, source_port, destination_port, payload) :=
        _transport (byte_at packet 9) (slice header_length stop packet) first_fragment in
      Some (ip_str (ip_of_packed (slice 12 16 packet)),
            ip_str (ip_of_packed (slice 16 20 packet)),
            source_port, destination_port, protocol, payload).

(** [for _ in range(n)] over extension headers: next header, offset and whether
    this is a first fragment; [None] when a header does not fit. *)
Fixpoint ipv6_headers (n : nat) (packet : bytes) (stop next_header offset : Z)
    (first_fragment : bool) : option (Z * Z * bool) :=
  match n with
  | O => Some (next_header, offset, first_fragment)
  | S n' =>
      let step length first_fragment :=
        if (length <? 8) || (stop <? offset + length) then None
        else ipv6_headers n' packet stop (byte_at packet offset) (offset + length) first_fragment in
      if (next_header =? 0) || (next_header =? 43) || (next_header =? 60) then
        if stop <? offset + 2 then None
        else step ((byte_at packet (offset + 1) + 1) * 8) first_fragment
      else if next_header =? 44 then
        if stop <? offset + 8 then None
        else step 8 (Z.shiftr (from_be (slice (offset + 2) (offset + 4) packet)) 3 =? 0)
      else if next_header =? 51 then
        if stop <? offset + 2 then None
        else step ((byte_at packet (offset + 1) + 2) * 4) first_fragment
      else Some (next_header, offset, first_fragment)
  end.

Definition _decode_ipv6 (packet : bytes) : option decoded :=
  if (zlen packet <? 40) || negb (Z.shiftr (byte_at packet 0) 4 =? 6) then None
  else
    let payload_length := from_be (slice 4 6 packet) in
    let stop := if payload_length =? 0 then zlen packet
                else Z.min (zlen packet) (40 + payload_length) in
    '(next_header, offset, first_fragment) ← ipv6_headers 8 packet stop (byte_at packet 6) 40 true;
    let '(protocol, source_port, destination_port, payload) :=
      _transport next_header (slice offset stop packet) first_fragment in
    Some (ip_str (ip_of_packed (slice 8 24 packet)),
          ip_str (ip_of_packed (slice 24 40 packet)),
          source_port, destination_port, protocol, payload).

(** ** Projection *)

(** [ip_address(text)] raising [ValueError]. *)
Definition ip_address_of (s : string) : res ip_address :=
  match parse_ip_address s with
  | Some a => Ok a
  | None => Err (ValueError (s +:+ " does not appear to be an IPv4 or IPv6 address"))
  end.

(** [any(address.version == network.version and address in network ...)] *)
Definition in_any_network (a : ip_address) (networks : list ip_network) : bool :=
  existsb (fun net => (ip_version a =? net_version net) && in_network a net) networks.

Definition _direction (source destination : string) (networks : list ip_network)
    : res Direction :=
  source_address ← ip_address_of source;
  destination_address ← ip_address_of destination;
  let source_internal := in_any_network source_address networks in
  let destination_internal := in_any_network destination_address networks in
  if source_internal && negb destination_internal then Ok OUTBOUND
  else if destination_internal && negb source_internal then Ok INBOUND
  else Ok UNKNOWN.

Definition _project (packet : bytes) (link_type : Z) (networks : list ip_network)
    : res Projection :=
  match _network_packet packet link_type with
  | None => Ok unsupported
  | Some (version, raw) =>
      match (if version =? 4 then _decode_ipv4 raw else _decode_ipv6 raw) with
      | None => Ok unsupported
      | Some (source, destination, source_port, destination_port, protocol, payload) =>
          direction ← _direction source destination networks;
          Ok {| pp_source_ip := Some source;
                pp_destination_ip := Some destination;
                pp_source_port := source_port;
                pp_destination_port := destination_port;
                pp_protocol := Some protocol;
                pp_direction := Some direction;
                pp_has_payload := Some (negb (bool_decide (payload = [])));
                pp_supported := true |}
      end
  end.

(** ** What a projection promises its users *)

(** Ports come in 16-bit pairs, and only with TCP or UDP. *)
Definition ports_wf (n : Z) (sp dp : option Z) : Prop :=
  (sp = None /\ dp = None) \/
  (exists s d, sp = Some s /\ dp = Some d /\ 0 <= s < 65536 /\ 0 <= d < 65536 /\
     (n = 6 \/ n = 17)).

(** Addresses of one version in canonical text, a protocol number, ports. *)
Definition decoded_wf (x : decoded) : Prop :=
  let '(s, d, sp, dp, protocol, _) := x in
  exists a b n, ip_ok a /\ ip_ok b /\ ip_version a = ip_version b /\ s = ip_str a /\
    d = ip_str b /\ 0 <= n < 256 /\ protocol = protocol_name n /\ ports_wf n sp dp.

(** The fields of a supported packet: canonical address text of one version,
    ports that are 16-bit and come in pairs, a protocol name, and a direction
    decided by the internal networks. *)
Record supported_projection (networks : list ip_network) (p : Projection)
    (a b : ip_address) (n : Z) : Prop := {
  sp_source_ok : ip_ok a;
  sp_destination_ok : ip_ok b;
  sp_same_version : ip_version a = ip_version b;
  sp_source : p.(pp_source_ip) = Some (ip_str a);
  sp_destination : p.(pp_destination_ip) = Some (ip_str b);
  sp_number : 0 <= n < 256;
  sp_protocol : p.(pp_protocol) = Some (protocol_name n);
  sp_ports : ports_wf n p.(pp_source_port) p.(pp_destination_port);
  sp_payload : is_Some p.(pp_has_payload);
  sp_direction : p.(pp_direction) = Some
    (if in_any_network a networks && negb (in_any_network b networks) then OUTBOUND
     else if in_any_network b networks && negb (in_any_network a networks) then INBOUND
     else UNKNOWN);
}.

Definition projection_wf (networks : list ip_network) (p : Projection) : Prop :=
  p = unsupported \/
  (p.(pp_supported) = true /\ exists a b n, supported_projection networks p a b n).

Lemma transport_spec n transport first protocol sp dp payload :
  _transport n transport first = (protocol, sp, dp, payload) ->
  protocol = protocol_name n /\
  ports_wf n sp dp.
Proof.
  unfold _transport, ports_wf. repeat case_match; intros; simplify_eq; split; auto; reflect_bools; right;
    do 2 eexists; (split_and!; [done|done| | | | |]); try apply u16_bound; auto.
Qed.

Lemma ipv6_headers_byte n packet stop nh offset ff nh' offset' ff' :
  ipv6_headers n packet stop nh offset ff = Some (nh', offset', ff') ->
  0 <= nh < 256 -> 0 <= nh' < 256.
Proof.
  revert nh offset ff. induction n as [|n IH]; intros nh offset ff; cbn [ipv6_headers].
  - naive_solver.
  - repeat case_match; try done; intros; simplify_eq; try done;
      (eapply IH; [eassumption|apply byte_at_bound]).
Qed.

(** The extension header walk never leaves the packet. *)
Lemma ipv6_headers_bound n packet stop nh offset ff nh' offset' ff' :
  ipv6_headers n packet stop nh offset ff = Some (nh', offset', ff') ->
  offset <= offset' /\ (offset' = offset \/ offset' <= stop).
Proof.
  revert nh offset ff. induction n as [|n IH]; intros nh offset ff; cbn [ipv6_headers].
  - naive_solver lia.
  - repeat case_match; try done; intros; simplify_eq; reflect_bools;
      try match goal with H : ipv6_headers _ _ _ _ _ _ = _ |- _ => apply IH in H end; lia.
Qed.

Lemma decode_ipv4_spec packet s d sp dp protocol payload :
  _decode_ipv4 packet = Some (s, d, sp, dp, protocol, payload) ->
  decoded_wf (s, d, sp, dp, protocol, payload).
Proof.
  unfold _decode_ipv4. intros H. case_match eqn:E; [done|]. case_match; [done|].
  destruct (_transport _ _ _) as [[[p x] y] pl] eqn:Et. injection H as <- <- <- <- <- <-.
  apply transport_spec in Et as [-> Hp]. reflect_bools.
  assert (zlen (slice 12 16 packet) = 4) as Hs by (rewrite zlen_slice; lia).
  assert (zlen (slice 16 20 packet) = 4) as Hd by (rewrite zlen_slice; lia).
  exists (ip_of_packed (slice 12 16 packet)), (ip_of_packed (slice 16 20 packet)),
    (byte_at packet 9).
  assert (ip_version (ip_of_packed (slice 12 16 packet)) =
          ip_version (ip_of_packed (slice 16 20 packet)))
    by (unfold ip_of_packed; by rewrite Hs, Hd).
  split_and!; try done; try apply byte_at_bound; apply ip_of_packed_ok; by left.
Qed.

Lemma decode_ipv6_spec packet s d sp dp protocol payload :
  _decode_ipv6 packet = Some (s, d, sp, dp, protocol, payload) ->
  decoded_wf (s, d, sp, dp, protocol, payload).
Proof.
  unfold _decode_ipv6. intros H. case_match eqn:E; [done|].
  destruct (ipv6_headers _ _ _ _ _ _) as [[[nh off] ff]|] eqn:Eh; [|done]. simpl in H.
  destruct (_transport _ _ _) as [[[p x] y] pl] eqn:Et. injection H as <- <- <- <- <- <-.
  apply transport_spec in Et as [-> Hp]. reflect_bools.
  apply ipv6_headers_byte in Eh; [|apply byte_at_bound].
  assert (zlen (slice 8 24 packet) = 16) as Hs by (rewrite zlen_slice; lia).
  assert (zlen (slice 24 40 packet) = 16) as Hd by (rewrite zlen_slice; lia).
  exists (ip_of_packed (slice 8 24 packet)), (ip_of_packed (slice 24 40 packet)), nh.
  assert (ip_version (ip_of_packed (slice 8 24 packet)) =
          ip_version (ip_of_packed (slice 24 40 packet)))
    by (unfold ip_of_packed; by rewrite Hs, Hd).
  split_and!; try done; try apply Eh; apply ip_of_packed_ok; by right.
Qed.

Lemma direction_spec a b networks :
  ip_ok a -> ip_ok b ->
  _direction (ip_str a) (ip_str b) networks = Ok
    (if in_any_network a networks && negb (in_any_network b networks) then OUTBOUND
     else if in_any_network b networks && negb (in_any_network a networks) then INBOUND
     else UNKNOWN).
Proof.
  intros Ha Hb. unfold _direction, ip_address_of. rewrite !parse_ip_str by done. simpl.
  by repeat case_match.
Qed.

(** Projection is total: every byte string on every link type either projects to
    a well-formed supported packet or to the unsupported one; it never raises. *)
Lemma project_wf packet link_type networks :
  exists p, _project packet link_type networks = Ok p /\ projection_wf networks p.
Proof.
  unfold _project. destruct (_network_packet packet link_type) as [[version raw]|];
    [|eexists; split; [done|by left]].
  destruct (if version =? 4 then _decode_ipv4 raw else _decode_ipv6 raw)
    as [[[[[[s d] sp] dp] pr] pl]|] eqn:E; [|eexists; split; [done|by left]].
  assert (decoded_wf (s, d, sp, dp, pr, pl)) as (a & b & n & Ha & Hb & Hv & -> & -> & Hn & -> & Hp)
    by (case_match; [by eapply decode_ipv4_spec|by eapply decode_ipv6_spec]).
  rewrite direction_spec by done. eexists. split; [done|]. right. split; [done|].
  exists a, b, n. by split.
Qed.
