(* ===== verification/ExportDecoder.v ===== *)
(** * ExportDecoder

    pcap_export.py: the streaming decoder behind sequential export and posting
    construction.  A decoder is a generator: an effect tree that yields export
    packets. *)

From S2P Require Import Prelude Bytes Reader CaptureFormat PyFloat IpAddress PacketProjection.
From S2P Require Import StructuralIndex.

Record PacketLocator : Type := {
  loc_source_id : string;
  loc_source_order : Z;
  loc_packet_index : Z;
  loc_record_offset : Z;
  loc_data_offset : Z;
  loc_captured_length : Z;
  loc_framed_length : Z;
}.

Record CaptureInterface : Type := {
  ci_section_index : Z;
  ci_interface_id : Z;
  ci_interface_ordinal : Z;
  ci_link_type : Z;
  ci_snaplen : Z;
  ci_timestamp_resolution_numerator : Z;
  ci_timestamp_resolution_denominator : Z;
  ci_timestamp_offset_seconds : Z;
}.

Record ExportPacket : Type := {
  ep_timestamp : Z;   (* microseconds since the epoch *)
  ep_projection : Projection;
  ep_raw_packet_bytes : bytes;
  ep_locator : PacketLocator;
  ep_interface : CaptureInterface;
  ep_original_length : Z;
}.

(** ** Timestamps *)

Definition invalid_timestamp : exn := parse_error "capture contains an invalid packet timestamp".
Definition invalid_metadata : exn :=
  parse_error "capture contains invalid structural timestamp metadata".

Definition _timestamp (seconds : py_float) : res Z :=
  match datetime_fromtimestamp seconds with
  | Some t => Ok t
  | None => Err invalid_timestamp
  end.

Definition is_negative (o : option Z) : bool :=
  match o with Some v => v <? 0 | None => false end.

Definition export_timestamp_from_ticks (raw_ticks numerator denominator offset_seconds : Z)
    (classic_seconds classic_fraction : option Z) : res Z :=
  if (raw_ticks <? 0) || (numerator <=? 0) || (denominator <=? 0)
     || negb (eqb (bool_decide (classic_seconds = None)) (bool_decide (classic_fraction = None)))
     || is_negative classic_seconds || is_negative classic_fraction
  then Err invalid_metadata
  else
    match classic_seconds, classic_fraction with
    | Some seconds, Some fraction =>
        if negb (numerator =? 1) then Err invalid_metadata
        else _timestamp (float_add (float_add (float_of_Z seconds)
                                      (int_truediv fraction denominator))
                           (float_of_Z offset_seconds))
    | _, _ => _timestamp (float_add (float_mul (float_of_Z raw_ticks)
                                       (int_truediv numerator denominator))
                            (float_of_Z offset_seconds))
    end.

(** ** Internal networks *)

Definition invalid_network (message : string) : exn :=
  PcapParseError message "INVALID_INTERNAL_NETWORK".

Fixpoint parse_networks (values : list string) : res (list ip_network) :=
  match values with
  | [] => Ok []
  | v :: values' =>
      match parse_ip_network v with
      | None => Err (invalid_network ("invalid internal network: '" +:+ v +:+
                       "' does not appear to be an IPv4 or IPv6 network"))
      | Some net => rest ← parse_networks values'; Ok (net :: rest)
      end
  end.

Definition _networks (values : list string) : res (list ip_network) :=
  networks ← parse_networks values;
  _ ← raise_if (bool_decide (networks = []))
        (invalid_network "at least one internal network is required");
  Ok networks.

(** ** Generators *)

Abbreviation gen A := (prog ExportPacket A) (only parsing).

Section decoder.
(** [self._source_id], [self._source_order], [self._networks]. *)
Context (source_id : string) (source_order : Z) (networks : list ip_network).

(** *** [_iter_classic] *)

Definition decode_classic_record (e : endian) (resolution : Z) (interface : CaptureInterface)
    (record_offset count : Z) (header : bytes) : gen unit :=
  let seconds := u32 e header 0 in
  let fraction := u32 e header 4 in
  let captured_length := u32 e header 8 in
  let original_length := u32 e header 12 in
  let oversized := parse_error "classic PCAP packet data is truncated or oversized" in
  _ ← guard_not (MAX_CAPTURED_PACKET_BYTES <? captured_length) oversized;
  raw ← catch_eof oversized (read_exact captured_length false);
  _ ← guard_not ((original_length <? captured_length)
                 || (interface.(ci_snaplen) <? captured_length))
        (parse_error "classic PCAP packet length exceeds original length or snap length");
  timestamp ← lift_res (export_timestamp_from_ticks (seconds * resolution + fraction)
                          1 resolution 0 (Some seconds) (Some fraction));
  projection ← lift_res (_project raw interface.(ci_link_type) networks);
  emit {|
    ep_timestamp := timestamp;
    ep_projection := projection;
    ep_raw_packet_bytes := raw;
    ep_locator := {|
      loc_source_id := source_id;
      loc_source_order := source_order;
      loc_packet_index := count;
      loc_record_offset := record_offset;
      loc_data_offset := record_offset + 16;
      loc_captured_length := captured_length;
      loc_framed_length := 16 + captured_length;
    |};
    ep_interface := interface;
    ep_original_length := original_length;
  |}.

Fixpoint iter_classic_loop (fuel : nat) (e : endian) (resolution : Z)
    (interface : CaptureInterface) (count : Z) : gen unit :=
  match fuel with
  | O => Raise OutOfFuel
  | S fuel' =>
      record_offset ← cursor_tell;
      header ← catch_eof (parse_error "classic PCAP packet header is truncated")
                 (read_exact 16 true);
      if bool_decide (header = []) then
        if count =? 0 then Raise empty_capture else Ret tt
      else
        _ ← decode_classic_record e resolution interface record_offset count header;
        iter_classic_loop fuel' e resolution interface (count + 1)
  end.

Definition _iter_classic (fuel : nat) (e : endian) (resolution : Z) : gen unit :=
  header ← catch_eof (parse_error "classic PCAP global header is truncated")
             (read_exact 20 false);
  let major := u16 e header 0 in
  let minor := u16 e header 2 in
  let snaplen := u32 e header 12 in
  let link_type := u32 e header 16 in
  _ ← guard_not (negb (major =? 2) || negb (minor =? 4)) (unsupported_version major minor);
  _ ← guard_not ((snaplen <? 1) || (MAX_CAPTURED_PACKET_BYTES <? snaplen))
        (parse_error "classic PCAP snap length is invalid");
  iter_classic_loop fuel e resolution
    {| ci_section_index := 0; ci_interface_id := 0; ci_interface_ordinal := 0;
       ci_link_type := Z.land link_type 65535; ci_snaplen := snaplen;
       ci_timestamp_resolution_numerator := 1;
       ci_timestamp_resolution_denominator := resolution;
       ci_timestamp_offset_seconds := 0 |} 0.

(** *** [_read_ng_options] *)

(** One option body: the new denominator and offset.  (The float resolution
    the code computes beside the denominator is never read.) *)
Definition decode_ng_option (e : endian) (code length padded denominator ts_offset : Z)
    : gen (Z * Z) :=
  if (code =? 9) && (length =? 1) then
    exponent ← read_exact 1 false;
    _ ← discard_exact (padded - 1);
    Ret (resolution_denominator (byte_at exponent 0), ts_offset)
  else if (code =? 14) && (length =? 8) then
    value ← read_exact 8 false;
    _ ← discard_exact (padded - 8);
    Ret (denominator, i64 e value 0)
  else
    _ ← discard_exact padded; Ret (denominator, ts_offset).

(** Numerator, denominator and offset, then the deferred error. *)
Fixpoint decode_options_loop (fuel : nat) (remaining : Z) (e : endian)
    (denominator ts_offset : Z) : gen (Z * Z * Z * option exn) :=
  match fuel with
  | O => Raise OutOfFuel
  | S fuel' =>
      if remaining =? 0 then Ret (1, denominator, ts_offset, None)
      else if remaining <? 4 then
        _ ← discard_exact remaining;
        Ret (1, denominator, ts_offset, Some option_truncated)
      else
        header ← read_exact 4 false;
        let remaining := remaining - 4 in
        let code := u16 e header 0 in
        let length := u16 e header 2 in
        if code =? 0 then
          _ ← discard_exact remaining; Ret (1, denominator, ts_offset, None)
        else
          let padded := pad4 length in
          if remaining <? padded then
            _ ← discard_exact remaining;
            Ret (1, denominator, ts_offset, Some option_truncated)
          else
            values ← decode_ng_option e code length padded denominator ts_offset;
            decode_options_loop fuel' (remaining - padded) e values.1 values.2
  end.

Definition decode_ng_options (size : Z) (e : endian) : gen (Z * Z * Z * option exn) :=
  decode_options_loop (S (Z.to_nat size)) size e 1000000 0.

(** *** [_iter_pcapng] *)

Record NgDecodeState : Type := {
  nd_endian : endian;
  nd_interfaces : list CaptureInterface;
  nd_section_index : Z;
  nd_next_interface_ordinal : Z;
  nd_count : Z;
}.

Definition nd_initial : NgDecodeState := {|
  nd_endian := LE; nd_interfaces := []; nd_section_index := -1;
  nd_next_interface_ordinal := 0; nd_count := 0;
|}.

Definition decode_section_block (block_prefix : bytes) (st : NgDecodeState)
    : gen NgDecodeState :=
  match section_endian (slice 8 12 block_prefix) with
  | None => Raise (parse_error "PCAPNG section has an invalid byte-order magic")
  | Some e =>
      let block_length := u32 e (slice 4 8 block_prefix) 0 in
      _ ← lift_res (validate_ng_length block_length);
      trailer ← catch_eof (parse_error "PCAPNG block length is invalid")
        (if block_length =? 12 then Ret (slice 8 12 block_prefix)
         else _ ← discard_exact (block_length - 16); read_exact 4 false);
      _ ← lift_res (validate_ng_trailer trailer block_length e);
      Ret {| nd_endian := e; nd_interfaces := [];
             nd_section_index := st.(nd_section_index) + 1;
             nd_next_interface_ordinal := st.(nd_next_interface_ordinal);
             nd_count := st.(nd_count) |}
  end.

Definition decode_interface_block (block_prefix : bytes) (block_length body_length : Z)
    (body_prefix : bytes) (st : NgDecodeState) : gen NgDecodeState :=
  let e := st.(nd_endian) in
  values ← (if body_length <? 8 then
              _ ← discard_body body_length; Ret None
            else
              more ← read_exact 4 false;
              let fixed := body_prefix ++ more in
              options ← decode_ng_options (body_length - 8) e;
              Ret (Some (u16 e fixed 0, u32 e fixed 4, options)));
  trailer ← read_trailer block_prefix body_length;
  _ ← lift_res (validate_ng_trailer trailer block_length e);
  _ ← check_in_section st.(nd_section_index);
  match values with
  | None => Raise (parse_error "PCAPNG interface block is truncated")
  | Some (link_type, snaplen, (numerator, denominator, ts_offset, option_error)) =>
      _ ← guard_not ((snaplen <? 1) || (MAX_CAPTURED_PACKET_BYTES <? snaplen))
            (parse_error "PCAPNG interface snap length is invalid");
      _ ← match option_error with Some x => Raise x | None => Ret tt end;
      Ret {| nd_endian := e;
             nd_interfaces := st.(nd_interfaces) ++ [{|
               ci_section_index := st.(nd_section_index);
               ci_interface_id := zlen st.(nd_interfaces);
               ci_interface_ordinal := st.(nd_next_interface_ordinal);
               ci_link_type := link_type;
               ci_snaplen := snaplen;
               ci_timestamp_resolution_numerator := numerator;
               ci_timestamp_resolution_denominator := denominator;
               ci_timestamp_offset_seconds := ts_offset;
             |}];
             nd_section_index := st.(nd_section_index);
             nd_next_interface_ordinal := st.(nd_next_interface_ordinal) + 1;
             nd_count := st.(nd_count) |}
  end.

(** The packet header and the captured bytes (empty when they do not fit). *)
Definition decode_packet_values (e : endian) (block_type : Z) (body_prefix : bytes)
    (body_length : Z) : gen (option (Z * Z * Z * Z * Z) * bytes) :=
  if body_length <? 20 then
    _ ← discard_body body_length; Ret (None, [])
  else
    more ← read_exact 16 false;
    let values := ng_packet_values e block_type (body_prefix ++ more) in
    let '(_, _, _, captured_length, _) := values in
    let available := body_length - 20 in
    raw ← (if (captured_length <=? MAX_CAPTURED_PACKET_BYTES)
              && (pad4 captured_length <=? available) then
             raw ← read_exact captured_length false;
             _ ← discard_exact (available - captured_length); Ret raw
           else _ ← discard_exact available; Ret []);
    Ret (Some values, raw).

Definition decode_packet_block (record_offset : Z) (block_prefix : bytes)
    (block_type block_length body_length : Z) (body_prefix : bytes) (st : NgDecodeState)
    : gen NgDecodeState :=
  let e := st.(nd_endian) in
  '(values, raw) ← decode_packet_values e block_type body_prefix body_length;
  trailer ← read_trailer block_prefix body_length;
  _ ← lift_res (validate_ng_trailer trailer block_length e);
  _ ← check_in_section st.(nd_section_index);
  match values with
  | None => Raise (parse_error "PCAPNG packet block is truncated")
  | Some (interface_id, high, low, captured_length, original_length) =>
      match st.(nd_interfaces) !! Z.to_nat interface_id with
      | None => Raise (parse_error "PCAPNG packet references an unknown interface")
      | Some interface =>
          _ ← guard_not ((MAX_CAPTURED_PACKET_BYTES <? captured_length)
                         || (body_length - 20 <? pad4 captured_length))
                (parse_error "PCAPNG packet data is truncated or oversized");
          _ ← guard_not ((original_length <? captured_length)
                         || (interface.(ci_snaplen) <? captured_length))
                (parse_error
                   "PCAPNG packet length exceeds original length or interface snap length");
          let raw_timestamp := Z.lor (Z.shiftl high 32) low in
          projection ← lift_res (_project raw interface.(ci_link_type) networks);
          timestamp ← lift_res (export_timestamp_from_ticks raw_timestamp
            interface.(ci_timestamp_resolution_numerator)
            interface.(ci_timestamp_resolution_denominator)
            interface.(ci_timestamp_offset_seconds) None None);
          _ ← emit {|
            ep_timestamp := timestamp;
            ep_projection := projection;
            ep_raw_packet_bytes := raw;
            ep_locator := {|
              loc_source_id := source_id;
              loc_source_order := source_order;
              loc_packet_index := st.(nd_count);
              loc_record_offset := record_offset;
              loc_data_offset := record_offset + 28;
              loc_captured_length := captured_length;
              loc_framed_length := block_length;
            |};
            ep_interface := interface;
            ep_original_length := original_length;
          |};
          Ret {| nd_endian := e; nd_interfaces := st.(nd_interfaces);
                 nd_section_index := st.(nd_section_index);
                 nd_next_interface_ordinal := st.(nd_next_interface_ordinal);
                 nd_count := st.(nd_count) + 1 |}
      end
  end.

Definition decode_skipped_block (block_prefix : bytes) (block_type block_length body_length : Z)
    (st : NgDecodeState) : gen NgDecodeState :=
  _ ← discard_body body_length;
  trailer ← read_trailer block_prefix body_length;
  _ ← lift_res (validate_ng_trailer trailer block_length st.(nd_endian));
  _ ← check_in_section st.(nd_section_index);
  if block_type =? 3 then Raise simple_packet_unsupported else Ret st.

Definition decode_ng_block (record_offset : Z) (block_prefix : bytes) (st : NgDecodeState)
    : gen NgDecodeState :=
  if bool_decide (ztake 4 block_prefix = PCAPNG_SECTION)
  then decode_section_block block_prefix st
  else
    let block_type := u32 st.(nd_endian) block_prefix 0 in
    let block_length := u32 st.(nd_endian) block_prefix 4 in
    _ ← lift_res (validate_ng_length block_length);
    let body_length := block_length - 12 in
    let body_prefix := if body_length =? 0 then [] else slice 8 12 block_prefix in
    catch_eof (parse_error "PCAPNG block length is invalid")
      (if block_type =? 1 then
         decode_interface_block block_prefix block_length body_length body_prefix st
       else if (block_type =? 2) || (block_type =? 6) then
         decode_packet_block record_offset block_prefix block_type block_length body_length
           body_prefix st
       else decode_skipped_block block_prefix block_type block_length body_length st).

Fixpoint iter_pcapng_loop (fuel : nat) (magic : option bytes) (st : NgDecodeState)
    : gen unit :=
  match fuel with
  | O => Raise OutOfFuel
  | S fuel' =>
      here ← cursor_tell;
      let record_offset := here - (match magic with Some _ => 4 | None => 0 end) in
      block_prefix ← catch_eof (parse_error "PCAPNG block header is truncated")
        match magic with
        | Some m => rest ← read_exact 8 false; Ret (m ++ rest)
        | None => read_exact 12 true
        end;
      if bool_decide (block_prefix = []) then
        if st.(nd_count) =? 0 then Raise empty_capture else Ret tt
      else
        st' ← decode_ng_block record_offset block_prefix st;
        iter_pcapng_loop fuel' None st'
  end.

Definition _iter_pcapng (fuel : nat) (magic : bytes) : gen unit :=
  iter_pcapng_loop fuel (Some magic) nd_initial.

(** [open_export_capture]: the format is taken from the first four bytes. *)
Definition open_magic : gen bytes :=
  magic ← catch_eof not_a_capture (read_exact 4 false);
  _ ← guard_not (negb (bool_decide (is_Some (CLASSIC_MAGIC magic)))
                 && negb (bool_decide (magic = PCAPNG_SECTION))) not_a_capture;
  Ret magic.

(** [iter_packets] of a fresh decoder: the format picks the generator. *)
Definition iter_packets (fuel : nat) (magic : bytes) : gen unit :=
  match CLASSIC_MAGIC magic with
  | Some (e, resolution) => _iter_classic fuel e resolution
  | None => _iter_pcapng fuel magic
  end.

Definition export_capture (fuel : nat) : gen unit :=
  magic ← open_magic; iter_packets fuel magic.
End decoder.

(** ** The decoder object *)

(** [ExportCaptureDecoder]: its cursor and whether it was iterated. *)
Record ExportCaptureDecoder (R : Type) : Type := mk_decoder {
  ecd_cursor : StreamCursor R;
  ecd_magic : bytes;
  ecd_source_id : string;
  ecd_source_order : Z;
  ecd_networks : list ip_network;
  ecd_started : bool;
}.
Arguments mk_decoder {R} _ _ _ _ _ _.
Arguments ecd_cursor {R} _.
Arguments ecd_magic {R} _.
Arguments ecd_source_id {R} _.
Arguments ecd_source_order {R} _.
Arguments ecd_networks {R} _.
Arguments ecd_started {R} _.

Section decoder_object.
Context {R : Type} `{!CaptureReader R}.

(** The networks are validated before the first byte is read. *)
Definition open_export_capture (reader : R) (source_id : string) (source_order : Z)
    (internal_networks : list string) : res (ExportCaptureDecoder R) :=
  networks ← _networks internal_networks;
  match run open_magic (new_stream_cursor reader []) with
  | (_, Ok magic, cursor) => Ok (mk_decoder cursor magic source_id source_order networks false)
  | (_, Err e, _) => Err e
  end.

(** Consuming [iter_packets]: the packets yielded, how it ended, and the
    decoder afterwards.  A second iteration is refused. *)
Definition decoder_iter_packets (fuel : nat) (d : ExportCaptureDecoder R)
    : list ExportPacket * res unit * ExportCaptureDecoder R :=
  if d.(ecd_started) then
    ([], Err (RuntimeError "capture packets can only be iterated once"), d)
  else
    let '(packets, r, cursor) :=
      run (iter_packets d.(ecd_source_id) d.(ecd_source_order) d.(ecd_networks) fuel d.(ecd_magic))
        d.(ecd_cursor) in
    (packets, r, mk_decoder cursor d.(ecd_magic) d.(ecd_source_id) d.(ecd_source_order)
                   d.(ecd_networks) true).
End decoder_object.

(** ** Packets rebuilt from the structural index *)

(** [internal_networks]: texts, or networks that were already parsed. *)
Definition project_export_packet (raw_packet_bytes : bytes) (link_type : Z)
    (internal_networks : list string + list ip_network) : res Projection :=
  networks ← match internal_networks with
             | inr networks => Ok networks
             | inl [] => Ok []
             | inl values => _networks values
             end;
  _project raw_packet_bytes link_type networks.

Definition export_packet_from_structural_locator (raw_packet_bytes : bytes)
    (locator : PacketLocator) (interface : CaptureInterface)
    (original_length raw_timestamp_ticks : Z)
    (internal_networks : list string + list ip_network) : res ExportPacket :=
  _ ← raise_if (negb (zlen raw_packet_bytes =? locator.(loc_captured_length)))
        (parse_error "selected packet bytes do not match structural captured length");
  _ ← raise_if ((locator.(loc_captured_length) <? 0)
                || (original_length <? locator.(loc_captured_length))
                || (interface.(ci_snaplen) <? locator.(loc_captured_length)))
        (parse_error "selected packet structural lengths are invalid");
  projection ← project_export_packet raw_packet_bytes interface.(ci_link_type) internal_networks;
  let classic := (locator.(loc_data_offset) =? locator.(loc_record_offset) + 16)
                 && (locator.(loc_framed_length) =? 16 + locator.(loc_captured_length)) in
  let denominator := interface.(ci_timestamp_resolution_denominator) in
  timestamp ← export_timestamp_from_ticks raw_timestamp_ticks
    interface.(ci_timestamp_resolution_numerator) denominator
    interface.(ci_timestamp_offset_seconds)
    (if classic then Some (raw_timestamp_ticks / denominator) else None)
    (if classic then Some (raw_timestamp_ticks mod denominator) else None);
  Ok {|
    ep_timestamp := timestamp;
    ep_projection := projection;
    ep_raw_packet_bytes := raw_packet_bytes;
    ep_locator := locator;
    ep_interface := interface;
    ep_original_length := original_length;
  |}.
