(* ===== verification/ExportAgreement.v ===== *)
(** * ExportAgreement

    The structural scan (pcap_index.py) and the export decoder (pcap_export.py)
    walk a capture by separate copies of the same format logic.  They agree:
    they accept the same captures, and the packets the decoder yields are the
    packets that [export_packet_from_structural_locator] rebuilds from the
    entries of the index and the bytes those entries locate. *)

From S2P Require Import Prelude Bytes Samples Reader ReaderLogic CaptureFormat PyFloat IpAddress.
From S2P Require Import Timestamps StructuralIndex StructuralProofs PacketProjection ExportDecoder.

(** ** What the two sides may refuse alone *)

(** The scan has packet and interface limits the decoder has not. *)
Definition limit_error (e : exn) : Prop :=
  match e with StructuralIndexLimitError _ => True | _ => False end.

(** The decoder refuses packets whose time is not a [datetime]. *)
Definition timestamp_error (e : exn) : Prop := e = invalid_timestamp.

(** Structural timestamp metadata of an index is always accepted. *)
Lemma export_timestamp_error ticks den offset cs cf e :
  0 <= ticks -> 0 < den -> (cs = None <-> cf = None) ->
  (forall s, cs = Some s -> 0 <= s) -> (forall f, cf = Some f -> 0 <= f) ->
  export_timestamp_from_ticks ticks 1 den offset cs cf = Err e -> timestamp_error e.
Proof.
  intros Ht Hd Hiff Hs Hf. unfold export_timestamp_from_ticks, _timestamp, timestamp_error.
  rewrite (proj2 (Z.ltb_ge ticks 0)), (proj2 (Z.leb_gt den 0)) by done.
  destruct cs as [s|], cf as [f|]; simpl; try (exfalso; naive_solver).
  - rewrite (proj2 (Z.ltb_ge s 0)), (proj2 (Z.ltb_ge f 0)) by auto. simpl. case_match; congruence.
  - case_match; congruence.
Qed.

(** Normalising the seconds and the sub-second field of a classic record moves its
    time by at most a microsecond. *)
Lemma classic_rebuild_close seconds fraction resolution ts :
  0 <= seconds < 2 ^ 32 -> 0 <= fraction < 2 ^ 32 -> 1000000 <= resolution <= 1000000000 ->
  let ticks := seconds * resolution + fraction in
  export_timestamp_from_ticks ticks 1 resolution 0 (Some seconds) (Some fraction) = Ok ts ->
  exists t, export_timestamp_from_ticks ticks 1 resolution 0 (Some (ticks / resolution)) (Some (ticks mod resolution)) = Ok t /\
    Z.abs (t - ts) <= 1.
Proof.
  intros Hs Hf Hr ticks. assert (0 <= ticks) by (unfold ticks; nia).
  assert (forall s f, 0 <= s -> 0 <= f -> export_timestamp_from_ticks ticks 1 resolution 0 (Some s) (Some f) =
    _timestamp (float_add (float_add (float_of_Z s) (int_truediv f resolution)) (float_of_Z 0))) as Hdef.
  { intros s f Hs0 Hf0. unfold export_timestamp_from_ticks. rewrite (proj2 (Z.ltb_ge ticks 0)), (proj2 (Z.leb_gt resolution 0)) by lia.
    simpl. by rewrite (proj2 (Z.ltb_ge s 0)), (proj2 (Z.ltb_ge f 0)) by lia. }
  assert (ticks / resolution = seconds + fraction / resolution /\ ticks mod resolution = fraction mod resolution) as [Ed Em].
  { unfold ticks. split; [by rewrite Z.div_add_l by lia|]. by rewrite Z.add_comm, Z.mod_add by lia. }
  pose proof (Z.mod_pos_bound fraction resolution ltac:(lia)). pose proof (Z.div_mod fraction resolution ltac:(lia)) as Hdm.
  assert (0 <= fraction / resolution < 5000) by (split; [apply Z.div_pos; lia|apply Z.div_lt_upper_bound; lia]).
  rewrite !Hdef by (rewrite ?Ed, ?Em; lia). rewrite Ed, Em. unfold _timestamp. rewrite !fromtimestamp_add_0.
  destruct (classic_times_close seconds fraction (seconds + fraction / resolution) (fraction mod resolution) resolution)
    as (t1 & t2 & -> & -> & Hc); [lia..|]. intros [= <-]. by exists t2.
Qed.

Lemma project_total raw link_type networks e :
  _project raw link_type networks = Err e -> False.
Proof. by destruct (project_wf raw link_type networks) as (p & -> & _). Qed.

(** ** Entries and packets *)

(** The interface and the locator of a packet, from the index. *)
Definition ci_of (i : StructuralInterfaceEntry) : CaptureInterface := {|
  ci_section_index := i.(sie_section_index);
  ci_interface_id := i.(sie_interface_id);
  ci_interface_ordinal := i.(sie_interface_ordinal);
  ci_link_type := i.(sie_link_type);
  ci_snaplen := i.(sie_snaplen);
  ci_timestamp_resolution_numerator := i.(sie_timestamp_resolution_numerator);
  ci_timestamp_resolution_denominator := i.(sie_timestamp_resolution_denominator);
  ci_timestamp_offset_seconds := i.(sie_timestamp_offset_seconds);
|}.

Definition locator_of (source_id : string) (source_order : Z) (p : StructuralPacketEntry)
    : PacketLocator := {|
  loc_source_id := source_id;
  loc_source_order := source_order;
  loc_packet_index := p.(spe_packet_index);
  loc_record_offset := p.(spe_record_offset);
  loc_data_offset := p.(spe_data_offset);
  loc_captured_length := p.(spe_captured_length);
  loc_framed_length := p.(spe_framed_length);
|}.

(** The captured bytes of [p]. *)
Definition packet_bytes (content : bytes) (p : StructuralPacketEntry) : bytes :=
  slice p.(spe_data_offset) (p.(spe_data_offset) + p.(spe_captured_length)) content.

(** The packet with another time. *)
Definition with_time (t : Z) (q : ExportPacket) : ExportPacket := {|
  ep_timestamp := t; ep_projection := q.(ep_projection); ep_raw_packet_bytes := q.(ep_raw_packet_bytes);
  ep_locator := q.(ep_locator); ep_interface := q.(ep_interface); ep_original_length := q.(ep_original_length);
|}.

(** A classic record whose sub-second field is below one second. *)
Definition fraction_ok (content : bytes) (p : StructuralPacketEntry) : Prop :=
  forall e resolution, CLASSIC_MAGIC (slice 0 4 content) = Some (e, resolution) ->
  u32 e content (p.(spe_record_offset) + 4) < resolution.

Section agreement.
Context (content : bytes) (source_id : string) (source_order : Z) (networks : list ip_network).

(** [q] is the packet of the entry [p]. *)
Definition decoded_as (interfaces : list StructuralInterfaceEntry)
    (p : StructuralPacketEntry) (q : ExportPacket) : Prop :=
  exists i, interfaces !! Z.to_nat p.(spe_interface_ordinal) = Some i /\
    q.(ep_locator) = locator_of source_id source_order p /\
    q.(ep_interface) = ci_of i /\
    q.(ep_original_length) = p.(spe_original_length) /\
    q.(ep_raw_packet_bytes) = packet_bytes content p /\
    _project (packet_bytes content p) i.(sie_link_type) networks = Ok q.(ep_projection) /\
    (fraction_ok content p ->
     export_packet_from_structural_locator (packet_bytes content p)
       (locator_of source_id source_order p) (ci_of i) p.(spe_original_length)
       p.(spe_raw_timestamp_ticks) (inr networks) = Ok q).

(** The packet rebuilt from the entry differs from [q] at most in its time, by at
    most a microsecond. *)
Definition rebuilt_near (interfaces : list StructuralInterfaceEntry)
    (p : StructuralPacketEntry) (q : ExportPacket) : Prop :=
  exists i t, interfaces !! Z.to_nat p.(spe_interface_ordinal) = Some i /\
    export_packet_from_structural_locator (packet_bytes content p)
      (locator_of source_id source_order p) (ci_of i) p.(spe_original_length)
      p.(spe_raw_timestamp_ticks) (inr networks) = Ok (with_time t q) /\
    Z.abs (t - q.(ep_timestamp)) <= 1.

Definition decoded_near (interfaces : list StructuralInterfaceEntry)
    (p : StructuralPacketEntry) (q : ExportPacket) : Prop :=
  decoded_as interfaces p q /\ rebuilt_near interfaces p q.

Lemma decoded_near_app interfaces more p q :
  decoded_near interfaces p q -> decoded_near (interfaces ++ more) p q.
Proof.
  intros [(i & Hi & ?) (i' & t & Hi' & ?)]. split; [exists i|exists i', t]; (split; [by apply lookup_app_l_Some|done]).
Qed.

(** Rebuilding succeeds once lengths and timestamp are those of the packet. *)
Lemma rebuild_Ok p i ts projection cs cf :
  zlen (packet_bytes content p) = p.(spe_captured_length) ->
  p.(spe_captured_length) <= p.(spe_original_length) ->
  p.(spe_captured_length) <= i.(sie_snaplen) ->
  _project (packet_bytes content p) i.(sie_link_type) networks = Ok projection ->
  let classic := (p.(spe_data_offset) =? p.(spe_record_offset) + 16)
                 && (p.(spe_framed_length) =? 16 + p.(spe_captured_length)) in
  let den := i.(sie_timestamp_resolution_denominator) in
  (if classic then Some (p.(spe_raw_timestamp_ticks) / den) else None) = cs ->
  (if classic then Some (p.(spe_raw_timestamp_ticks) mod den) else None) = cf ->
  export_timestamp_from_ticks p.(spe_raw_timestamp_ticks)
    i.(sie_timestamp_resolution_numerator) den i.(sie_timestamp_offset_seconds) cs cf = Ok ts ->
  export_packet_from_structural_locator (packet_bytes content p)
    (locator_of source_id source_order p) (ci_of i) p.(spe_original_length)
    p.(spe_raw_timestamp_ticks) (inr networks) =
  Ok {| ep_timestamp := ts; ep_projection := projection;
        ep_raw_packet_bytes := packet_bytes content p;
        ep_locator := locator_of source_id source_order p;
        ep_interface := ci_of i; ep_original_length := p.(spe_original_length) |}.
Proof.
  intros Hlen Horig Hsnap Hproj classic den <- <- Hts.
  pose proof (zlen_nonneg (packet_bytes content p)).
  unfold export_packet_from_structural_locator. cbn [loc_captured_length locator_of ci_snaplen ci_of].
  rewrite Hlen, Z.eqb_refl. cbn [negb raise_if mbind res_bind].
  rewrite (proj2 (Z.ltb_ge _ 0)), !(proj2 (Z.ltb_ge _ (spe_captured_length p))) by lia.
  unfold project_export_packet. simpl. rewrite Hproj. simpl.
  fold den. fold classic. rewrite Hts. done.
Qed.

(** ** Lockstep *)

Context (lim : ScanLimits).
Hypothesis batch_size_pos : 0 < lim.(sl_batch_size).
Hypothesis max_packets_pos : 0 < lim.(sl_max_packets).
Hypothesis max_interfaces_pos : 0 < lim.(sl_max_interfaces).

Abbreviation agree Q p q off := (rwp content limit_error timestamp_error Q p q off) (only parsing).

Lemma rwp_emit_both packet (q : ExportPacket) b off :
  off <= zlen content -> buffers_wf lim b ->
  agree (fun os1 b' os2 (_ : unit) off' => off' = off /\ buffers_wf lim b' /\
      concat os1 ++ pending b' = pending b ++ [packet] /\ os2 = [q])
    (_emit packet b lim) (emit q) off.
Proof.
  intros Hoff Hb.
  pose proof (wp_emit_packet content lim batch_size_pos (fun _ => False) packet b off Hoff Hb) as H.
  unfold wp in H. unfold rwp, emit. cbn [run].
  destruct (run (_emit packet b lim) (mem_at content off)) as [[os1 [b'|e1]] m1]; [|done].
  destruct H as (? & -> & ? & -> & ? & ? & ?). exists off. done.
Qed.

(** The packets of the scan so far and the packets yielded so far. *)
Definition agree_post (flushed : list StructuralPacketEntry) (yielded : list ExportPacket)
    (os1 : list (list StructuralPacketEntry)) (out : scan_output) (os2 : list ExportPacket)
    (_ : unit) (_ : Z) : Prop :=
  Forall2 (decoded_near out.1.1) (flushed ++ concat os1 ++ out.1.2) (yielded ++ os2).

Lemma agree_post_step flushed yielded os1 os2 os1' out os2' u off :
  agree_post (flushed ++ concat os1) (yielded ++ os2) os1' out os2' u off ->
  agree_post flushed yielded (os1 ++ os1') out (os2 ++ os2') u off.
Proof. unfold agree_post. by rewrite concat_app, <- !app_assoc. Qed.

Lemma agree_finish flushed yielded ifs b count off :
  off <= zlen content -> buffers_wf lim b ->
  Forall2 (decoded_near ifs) (flushed ++ pending b) yielded ->
  agree (agree_post flushed yielded)
    (_ ← _finish_batch b lim; Ret (ifs, b.(sb_retained), count)) (Ret tt) off.
Proof.
  intros Hoff Hb Hdec.
  pose proof (wp_finish_batch content lim (fun _ => False) b off Hoff Hb) as H.
  unfold wp in H. unfold rwp. rewrite run_bind. cbn [run].
  destruct (run (_finish_batch b lim) (mem_at content off)) as [[os1 [b'|e1]] m1]; [|done].
  destruct H as (? & -> & ? & -> & ? & Heq). cbn [run]. exists off. split_and!; try done; try lia.
  unfold agree_post. simpl. by rewrite !app_nil_r, Heq.
Qed.

(** *** Classic captures *)

Lemma agree_classic_record e resolution interface flushed yielded count b off :
  CLASSIC_MAGIC (slice 0 4 content) = Some (e, resolution) ->
  interface.(sie_timestamp_resolution_numerator) = 1 ->
  interface.(sie_timestamp_resolution_denominator) = resolution ->
  interface.(sie_timestamp_offset_seconds) = 0 ->
  0 <= off -> off + 16 <= zlen content -> buffers_wf lim b ->
  Forall2 (decoded_near [interface]) (flushed ++ pending b) yielded ->
  agree (fun os1 b' os2 (_ : unit) _ => buffers_wf lim b' /\
      Forall2 (decoded_near [interface]) ((flushed ++ concat os1) ++ pending b') (yielded ++ os2))
    (scan_classic_record e resolution interface.(sie_snaplen) lim off count b
       (slice off (off + 16) content))
    (decode_classic_record source_id source_order networks e resolution (ci_of interface) off count
       (slice off (off + 16) content)) (off + 16).
Proof.
  intros Hmagic Hnum Hden Hts Hoff Hlen Hb Hdec.
  pose proof (classic_magic_resolution _ _ _ Hmagic) as Hres.
  unfold scan_classic_record, decode_classic_record. rewrite !u32_slice, Z.add_0_r by lia.
  cbn [ci_snaplen ci_link_type ci_of].
  pose proof (u32_bound e content off). pose proof (u32_bound e content (off + 4)).
  pose proof (u32_bound e content (off + 8)). pose proof (u32_bound e content (off + 12)).
  set (sec := u32 e content off) in *. set (frac := u32 e content (off + 4)) in *.
  set (cap := u32 e content (off + 8)) in *. set (orig := u32 e content (off + 12)) in *.
  do 7 rwp_step. apply rwp_guard_l; [done|]. intros _. cbv beta.
  apply rwp_lift_r; [intros x; apply export_timestamp_error; naive_solver lia|].
  intros ts Ets. apply rwp_lift_r; [intros x Hx; by apply project_total in Hx|].
  intros projection Eproj.
  set (p := classic_packet_entry count off sec frac cap orig resolution).
  assert (packet_bytes content p = slice (off + 16) (off + 16 + cap) content) as Hraw by done.
  eapply rwp_mono; [|apply rwp_emit_both; [lia|done]].
  intros os1 b' os2 u off' Hle (-> & Hb' & Heq & ->). split; [done|]. cbn [app].
  rewrite <- app_assoc, Heq, app_assoc. apply Forall2_app; [done|].
  apply Forall2_cons; split; [|by constructor]. split; cycle 1.
  { destruct (classic_rebuild_close sec frac resolution ts) as (t & Et & Hclose); [lia|lia|by eapply classic_resolution_range|done|].
    exists interface, t. split; [done|]. split; [|done]. unfold with_time. simpl.
    apply (rebuild_Ok p interface t projection (Some ((sec * resolution + frac) / resolution))
      (Some ((sec * resolution + frac) mod resolution))); simpl; try done; try lia.
    - rewrite Hraw. rewrite zlen_slice; lia.
    - by rewrite !Z.eqb_refl, Hden.
    - by rewrite !Z.eqb_refl, Hden.
    - by rewrite Hnum, Hden, Hts. }
  exists interface. rewrite Hraw. split_and!; try done.
  intros Hfrac. specialize (Hfrac _ _ Hmagic). simpl in Hfrac. fold frac in Hfrac.
  rewrite <- Hraw. apply (rebuild_Ok p interface ts
    projection (Some sec) (Some frac)); simpl; try done; try lia.
  - rewrite Hraw. rewrite zlen_slice; lia.
  - rewrite !Z.eqb_refl. simpl. rewrite Hden. f_equal. rewrite Z.div_add_l, Z.div_small; lia.
  - rewrite !Z.eqb_refl. simpl. rewrite Hden. f_equal.
    rewrite Z.add_comm, Z.mod_add, Z.mod_small; lia.
  - by rewrite Hnum, Hden, Hts.
Qed.

Lemma agree_classic_loop fuel e resolution interface flushed yielded count b off :
  CLASSIC_MAGIC (slice 0 4 content) = Some (e, resolution) ->
  interface.(sie_timestamp_resolution_numerator) = 1 ->
  interface.(sie_timestamp_resolution_denominator) = resolution ->
  interface.(sie_timestamp_offset_seconds) = 0 ->
  0 <= off <= zlen content -> buffers_wf lim b ->
  Forall2 (decoded_near [interface]) (flushed ++ pending b) yielded ->
  agree (agree_post flushed yielded)
    (scan_classic_loop fuel e resolution interface.(sie_snaplen) lim [interface] count b)
    (iter_classic_loop source_id source_order networks fuel e resolution (ci_of interface) count)
    off.
Proof.
  intros Hmagic Hnum Hden Hts. revert flushed yielded count b off. induction fuel as [|fuel IH];
    intros flushed yielded count b off Hoff Hb Hdec;
    cbn [scan_classic_loop iter_classic_loop]; [rwp_step|].
  do 2 rwp_step. do 2 rwp_step. apply rwp_read; [lia|lia| |].
  - intros Hlen. rewrite bool_decide_false by (apply slice_nonempty; lia). rwp_step.
    eapply rwp_mono; [|by apply agree_classic_record; [..|lia|lia| |]].
    intros os1 b' os2 u off' Hle (Hb' & Hdec').
    eapply rwp_mono; [|apply (IH (flushed ++ concat os1) (yielded ++ os2)); [lia|done..]].
    intros ? ? ? ? ? _ Hpost. by apply (agree_post_step _ _ os1 os2).
  - intros _ Hend. rewrite bool_decide_true by done.
    destruct (count =? 0); [rwp_step|]. by apply agree_finish; [lia|..].
Qed.

(** *** PCAPNG captures *)

Lemma agree_ng_option e code length denominator ts_offset off :
  0 <= off <= zlen content -> 0 <= length ->
  agree (fun (os1 : list (list StructuralPacketEntry)) v1 os2 v2 _ =>
      os1 = [] /\ os2 = [] /\ v1 = v2)
    (read_ng_option e code length (pad4 length) denominator ts_offset)
    (decode_ng_option e code length (pad4 length) denominator ts_offset) off.
Proof.
  intros Hoff Hl. pose proof (pad4_bounds length Hl). unfold read_ng_option, decode_ng_option.
  destruct ((code =? 9) && (length =? 1)) eqn:E1; reflect_bools;
    [|destruct ((code =? 14) && (length =? 8)) eqn:E2; reflect_bools].
  - by do 5 rwp_step.
  - by do 5 rwp_step.
  - by do 3 rwp_step.
Qed.

Lemma agree_ng_options_loop fuel remaining e denominator ts_offset off :
  0 <= off <= zlen content -> 0 <= remaining ->
  agree (fun (os1 : list (list StructuralPacketEntry)) v1 os2 v2 _ =>
      os1 = [] /\ os2 = [] /\ v1 = v2)
    (read_ng_options_loop fuel remaining e denominator ts_offset)
    (decode_options_loop fuel remaining e denominator ts_offset) off.
Proof.
  revert remaining denominator ts_offset off. induction fuel as [|fuel IH];
    intros remaining denominator ts_offset off Hoff Hr;
    cbn [read_ng_options_loop decode_options_loop]; [rwp_step|].
  destruct (remaining =? 0); [by rwp_step|].
  destruct (Z.ltb_spec remaining 4); [by do 3 rwp_step|].
  do 2 rwp_step. cbv zeta. set (header := slice off (off + 4) content).
  destruct (u16 e header 0 =? 0); [by do 3 rwp_step|].
  pose proof (u16_bound e header 2).
  destruct (Z.ltb_spec (remaining - 4) (pad4 (u16 e header 2))); [by do 3 rwp_step|].
  rwp_step. eapply rwp_mono; [|apply agree_ng_option; lia].
  intros os1 v1 os2 v2 off' Hle (-> & -> & ->).
  eapply rwp_mono; [|apply IH; lia]. intros ? ? ? ? ? _ (-> & -> & ->). done.
Qed.

Record nd_agree (flushed : list StructuralPacketEntry) (yielded : list ExportPacket)
    (st : NgState) (nd : NgDecodeState) : Prop := {
  nda_endian : nd.(nd_endian) = st.(ng_endian);
  nda_interfaces : nd.(nd_interfaces) = ci_of <$> st.(ng_section_interfaces);
  nda_section : nd.(nd_section_index) = st.(ng_section_index);
  nda_ordinal : nd.(nd_next_interface_ordinal) = zlen st.(ng_all_interfaces);
  nda_count : nd.(nd_count) = st.(ng_count);
  nda_packets : Forall2 (decoded_near st.(ng_all_interfaces))
                  (flushed ++ pending st.(ng_buffers)) yielded;
}.

Definition agree_block (flushed : list StructuralPacketEntry) (yielded : list ExportPacket)
    (os1 : list (list StructuralPacketEntry)) (st : NgState) (os2 : list ExportPacket)
    (nd : NgDecodeState) (_ : Z) : Prop :=
  nd_agree (flushed ++ concat os1) (yielded ++ os2) st nd.

Lemma agree_read_trailer prefix n off :
  0 <= off <= zlen content ->
  agree (fun (os1 : list (list StructuralPacketEntry)) t1 (os2 : list ExportPacket) t2 off' =>
      os1 = [] /\ os2 = [] /\ t1 = t2) (read_trailer prefix n) (read_trailer prefix n) off.
Proof. intros. unfold read_trailer. case_match; by rwp_step. Qed.

Lemma agree_discard_body n off :
  0 <= off <= zlen content -> n = 0 \/ 4 <= n ->
  agree (fun (os1 : list (list StructuralPacketEntry)) (_ : unit) (os2 : list ExportPacket)
      (_ : unit) off' => os1 = [] /\ os2 = []) (discard_body n) (discard_body n) off.
Proof. intros. unfold discard_body. destruct (Z.eqb_spec n 0); by rwp_step. Qed.

Lemma agree_check {A B} (Q : list (list StructuralPacketEntry) -> A -> list ExportPacket -> B
    -> Z -> Prop) n f g off :
  off <= zlen content -> agree Q (f tt) (g tt) off ->
  agree Q (check_in_section n ≫= f) (check_in_section n ≫= g) off.
Proof. intros. unfold check_in_section. by do 2 rwp_step. Qed.

Lemma agree_section_block flushed yielded prefix st nd off :
  0 <= off <= zlen content -> nd_agree flushed yielded st nd ->
  agree (agree_block flushed yielded) (scan_section_block prefix st)
    (decode_section_block prefix nd) off.
Proof.
  intros Hoff []. unfold scan_section_block, decode_section_block.
  destruct (section_endian _) as [e|]; [|rwp_step]. do 2 rwp_step.
  match goal with H : validate_ng_length _ = _ |- _ => apply validate_ng_length_Ok in H as [H12 H16] end.
  rwp_step. rwp_step. set (n := u32 e (slice 4 8 prefix) 0) in *.
  eapply (rwp_mono _ _ _ _ (fun os1 t1 os2 t2 _ => os1 = [] /\ os2 = [] /\ t1 = t2)).
  2:{ destruct (Z.eqb_spec n 12); [by rwp_step|]. by do 3 rwp_step. }
  intros os1 t1 os2 t2 off' Hle (-> & -> & ->). do 3 rwp_step.
  unfold agree_block. simpl. rewrite !app_nil_r. constructor; simpl; congruence || done.
Qed.

Lemma agree_interface_block flushed yielded bp n body prefix st nd off :
  0 <= off <= zlen content -> body = 0 \/ 4 <= body -> nd_agree flushed yielded st nd ->
  agree (agree_block flushed yielded)
    (scan_interface_block lim bp n body prefix st)
    (decode_interface_block bp n body prefix nd) off.
Proof.
  intros Hoff Hbody []. unfold scan_interface_block, decode_interface_block.
  rewrite nda_endian0, nda_section0. rwp_step.
  eapply (rwp_mono _ _ _ _ (fun os1 v1 os2 v2 _ => os1 = [] /\ os2 = [] /\ v1 = v2)).
  2:{ unfold scan_interface_values. destruct (Z.ltb_spec body 8).
      - rwp_step. eapply rwp_mono; [|apply agree_discard_body; lia].
        intros ? ? ? ? ? ? (-> & ->). by rwp_step.
      - do 3 rwp_step. eapply rwp_mono; [|apply agree_ng_options_loop; lia].
        intros ? ? ? ? ? ? (-> & -> & ->). by rwp_step. }
  intros os1 v1 os2 v2 off' Hle (-> & -> & ->). rwp_step.
  eapply rwp_mono; [|apply agree_read_trailer; lia].
  intros os1 t1 os2 t2 off2 Hle2 (-> & -> & ->). do 2 rwp_step. apply agree_check; [lia|].
  destruct v2 as [[[lt snaplen] [[[num den] tso] err]]|]; [|rwp_step].
  do 2 rwp_step. rwp_step. destruct err as [x|]; [rwp_step|]. rwp_step.
  apply rwp_guard_l; [done|]. intros _. rwp_step.
  unfold agree_block. simpl. rewrite !app_nil_r. constructor; simpl; try done.
  - rewrite fmap_app, nda_interfaces0. simpl. unfold ci_of at 3; simpl.
    rewrite nda_ordinal0. unfold zlen. by rewrite length_fmap.
  - rewrite nda_ordinal0, zlen_app, zlen_cons, zlen_nil. lia.
  - eapply Forall2_impl; [done|]. intros ? ?. apply decoded_near_app.
Qed.

(** The decoder keeps the captured bytes the scan skips. *)
Lemma agree_packet_values e block_type prefix body off :
  0 <= off <= zlen content -> body = 0 \/ 4 <= body ->
  agree (fun (os1 : list (list StructuralPacketEntry)) v1 (os2 : list ExportPacket) v2 _ =>
      os1 = [] /\ os2 = [] /\ v1 = v2.1 /\
      forall iid hi lo cap orig, v1 = Some (iid, hi, lo, cap, orig) ->
        0 <= iid /\ 0 <= hi /\ 0 <= lo /\ 0 <= cap /\
        (cap <= MAX_CAPTURED_PACKET_BYTES -> pad4 cap <= body - 20 ->
         off + 16 + cap <= zlen content /\ v2.2 = slice (off + 16) (off + 16 + cap) content))
    (scan_packet_values e block_type prefix body)
    (decode_packet_values e block_type prefix body) off.
Proof.
  intros Hoff Hbody. unfold scan_packet_values, decode_packet_values.
  destruct (Z.ltb_spec body 20).
  { rwp_step. eapply rwp_mono; [|apply agree_discard_body; lia].
    intros ? ? ? ? ? ? (-> & ->). by rwp_step. }
  do 2 rwp_step. cbv beta zeta.
  set (fixed := prefix ++ slice off (off + 16) content).
  destruct (ng_packet_values e block_type fixed) as [[[[iid hi] lo] cap] orig] eqn:Evalues.
  assert (0 <= iid /\ 0 <= hi /\ 0 <= lo /\ 0 <= cap) as (Hiid & Hhi & Hlo & Hcap).
  { unfold ng_packet_values in Evalues.
    pose proof (u32_bound e fixed 0). pose proof (u16_bound e fixed 0).
    pose proof (u32_bound e fixed 4). pose proof (u32_bound e fixed 8).
    pose proof (u32_bound e fixed 12). case_match; simplify_eq; lia. }
  pose proof (pad4_bounds cap Hcap). rwp_step.
  destruct ((cap <=? MAX_CAPTURED_PACKET_BYTES) && (pad4 cap <=? body - 20)) eqn:Efit.
  - reflect_bools. do 2 rwp_step. apply rwp_ret_r. do 2 rwp_step. split_and!; try done.
    intros ? ? ? ? ? [= <- <- <- <- <-]. split_and!; done || lia.
  - apply rwp_ret_r. do 2 rwp_step. split_and!; try done.
    intros ? ? ? ? ? [= <- <- <- <- <-]. split_and!; try done. lia.
Qed.

Lemma agree_packet_block flushed yielded rec bp t n body prefix st nd :
  0 <= rec -> rec + 12 <= zlen content -> body = 0 \/ 4 <= body -> n = body + 12 ->
  ng_inv content lim rec flushed st -> nd_agree flushed yielded st nd ->
  agree (agree_block flushed yielded)
    (scan_packet_block lim rec bp t n body prefix st)
    (decode_packet_block source_id source_order networks rec bp t n body prefix nd) (rec + 12).
Proof.
  intros Hrec Hlen Hbody Hn Hinv [].
  unfold scan_packet_block, decode_packet_block. rewrite nda_endian0, nda_section0.
  rwp_step. eapply rwp_mono; [|apply agree_packet_values; lia].
  intros os1 v1 os2 [v2 raw] off' Hle (-> & -> & -> & Hval). cbn [fst snd] in *. rwp_step.
  eapply rwp_mono; [|apply agree_read_trailer; lia].
  intros os1 t1 os2 t2 off2 Hle2 (-> & -> & ->). do 2 rwp_step. apply agree_check; [lia|].
  destruct v2 as [[[[[iid hi] lo] cap] orig]|]; [|rwp_step].
  destruct (Hval _ _ _ _ _ eq_refl) as (Hiid & Hhi & Hlo & Hcap & Hraw).
  rewrite nda_interfaces0, list_lookup_fmap.
  destruct (ng_section_interfaces st !! Z.to_nat iid) as [i|] eqn:Ei;
    cbn [fmap option_fmap option_map]; [|rwp_step].
  do 4 rwp_step. destruct Hraw as [Hfit ->]; [lia..|].
  apply rwp_guard_l; [done|]. intros _. cbv beta.
  destruct Hinv as [Hwf Hcnt Hbuf Hsec Hall]. destruct (Hsec _ _ Ei) as (Hs & Hid & k & Hk).
  pose proof (wf_interfaces _ _ _ _ _ Hwf _ _ Hk) as (Hord & _ & _ & _ & _ & Hnum & Hden & _).
  apply rwp_lift_r; [intros x Hx; by apply project_total in Hx|]. intros projection Eproj.
  assert (0 <= Z.lor (Z.shiftl hi 32) lo) as Hticks.
  { apply Z.lor_nonneg. split; [by apply Z.shiftl_nonneg|done]. }
  cbn [ci_timestamp_resolution_numerator ci_timestamp_resolution_denominator
    ci_timestamp_offset_seconds ci_of]. rewrite Hnum.
  apply rwp_lift_r; [intros x; apply export_timestamp_error; done|]. intros ts Ets.
  rewrite nda_count0. rwp_step.
  eapply rwp_mono; [|apply rwp_emit_both; [lia|done]].
  intros os1 b' os2 u ? _ (-> & Hb' & Heq & ->). rwp_step. unfold agree_block. cbn [app].
  constructor; simpl; try congruence || done.
  rewrite !app_nil_r, <- app_assoc, Heq, app_assoc. apply Forall2_app; [done|].
  apply Forall2_cons; split; [|by constructor].
  set (p := {| spe_packet_index := _ |}).
  assert (packet_bytes content p = slice (rec + 12 + 16) (rec + 12 + 16 + cap) content) as Hraw.
  { unfold packet_bytes; simpl. f_equal; lia. }
  match goal with |- decoded_near _ _ ?q => set (q0 := q) end.
  assert (export_packet_from_structural_locator (packet_bytes content p) (locator_of source_id source_order p) (ci_of i)
    p.(spe_original_length) p.(spe_raw_timestamp_ticks) (inr networks) = Ok q0) as Hre.
  { unfold q0. rewrite <- Hraw. apply (rebuild_Ok p i ts projection None None); simpl; try done; try lia.
    - rewrite Hraw, zlen_slice; lia.
    - by rewrite Hraw.
    - by rewrite (proj2 (Z.eqb_neq (rec + 28) (rec + 16))) by lia.
    - by rewrite (proj2 (Z.eqb_neq (rec + 28) (rec + 16))) by lia.
    - by rewrite Hnum. }
  assert (ng_all_interfaces st !! Z.to_nat (spe_interface_ordinal p) = Some i) as Hlook
    by (simpl; by rewrite Hord, Nat2Z.id).
  split; [exists i|exists i, ts; split_and!; [done|by rewrite Hre|simpl; lia]].
  split_and!; try done; by rewrite Hraw.
Qed.

Lemma agree_ng_block flushed yielded rec st nd :
  0 <= rec -> rec + 12 <= zlen content ->
  ng_inv content lim rec flushed st -> nd_agree flushed yielded st nd ->
  agree (agree_block flushed yielded)
    (scan_ng_block lim rec (slice rec (rec + 12) content) st)
    (decode_ng_block source_id source_order networks rec (slice rec (rec + 12) content) nd)
    (rec + 12).
Proof.
  intros Hrec Hlen Hinv Hagree. unfold scan_ng_block, decode_ng_block.
  case_bool_decide; [by apply agree_section_block; [lia|]|].
  rewrite (nda_endian _ _ _ _ Hagree). do 2 rwp_step.
  match goal with H : validate_ng_length _ = _ |- _ => apply validate_ng_length_Ok in H as [H12 H16] end.
  rwp_step. case_match; [apply agree_interface_block; try done; lia|].
  case_match; [apply agree_packet_block; try done; lia|].
  unfold scan_skipped_block, decode_skipped_block.
  rewrite (nda_endian _ _ _ _ Hagree), (nda_section _ _ _ _ Hagree).
  rwp_step. eapply rwp_mono; [|apply agree_discard_body; lia].
  intros ? ? ? ? ? ? (-> & ->). rwp_step.
  eapply rwp_mono; [|apply agree_read_trailer; lia].
  intros ? ? ? ? ? ? (-> & -> & ->). do 2 rwp_step. apply agree_check; [lia|].
  case_match; rwp_step. unfold agree_block. by rewrite !app_nil_r.
Qed.

Lemma agree_ng_loop fuel (magic : option bytes) flushed yielded st nd rec :
  let off := rec + match magic with Some _ => 4 | None => 0 end in
  match magic with Some m => m = slice rec (rec + 4) content | None => True end ->
  0 <= rec -> off <= zlen content ->
  ng_inv content lim rec flushed st -> nd_agree flushed yielded st nd ->
  agree (agree_post flushed yielded)
    (scan_ng_loop fuel lim magic st)
    (iter_pcapng_loop source_id source_order networks fuel magic nd) off.
Proof.
  revert magic flushed yielded st nd rec. induction fuel as [|fuel IH];
    intros magic flushed yielded st nd rec off Hmagic Hrec Hoff Hinv Hagree;
    cbn [scan_ng_loop iter_pcapng_loop]; [rwp_step|].
  assert (0 <= off) by (unfold off; destruct magic; lia). do 2 rwp_step.
  replace (off - match magic with Some _ => 4 | None => 0 end) with rec
    by (unfold off; destruct magic; lia).
  assert (rec + 12 <= zlen content ->
    agree (agree_post flushed yielded)
      (st' ← scan_ng_block lim rec (slice rec (rec + 12) content) st;
       scan_ng_loop fuel lim None st')
      (nd' ← decode_ng_block source_id source_order networks rec
               (slice rec (rec + 12) content) nd;
       iter_pcapng_loop source_id source_order networks fuel None nd') (rec + 12)) as Hblock.
  { intros Hlen. rwp_step.
    eapply rwp_mono; [|eapply rwp_wp_l; [by apply wp_ng_block|by apply agree_ng_block]].
    intros os1 st' os2 nd' off' Hle ((Hprog & Hos & Hinv') & Hagree').
    pose proof (IH None (flushed ++ concat os1) (yielded ++ os2) st' nd' off' I ltac:(lia)) as IH'.
    cbv zeta in IH'. rewrite Z.add_0_r in IH'.
    eapply rwp_mono; [|apply IH'; [lia|done..]].
    intros ? ? ? ? ? _ Hpost. by apply (agree_post_step _ _ os1 os2). }
  rwp_step. rwp_step. destruct magic as [m|]; unfold off in *.
  - do 3 rwp_step. rewrite Hmagic.
    replace (rec + 4 + 8) with (rec + 12) in * by lia. rewrite slice_app by lia.
    rewrite bool_decide_false by (apply slice_nonempty; lia). by apply Hblock.
  - rewrite Z.add_0_r in *. apply rwp_read; [lia|lia| |].
    + intros Hlen. rewrite bool_decide_false by (apply slice_nonempty; lia). by apply Hblock.
    + intros _ Hend. rewrite bool_decide_true by done. destruct Hinv as [Hwf Hcnt Hbuf _ _], Hagree.
      rewrite nda_count0.
      destruct (ng_count st =? 0); [rwp_step|]. by apply agree_finish.
Qed.

Lemma agree_classic fuel e resolution off :
  CLASSIC_MAGIC (slice 0 4 content) = Some (e, resolution) -> 0 <= off <= zlen content ->
  agree (agree_post [] []) (_scan_classic fuel e resolution lim)
    (_iter_classic source_id source_order networks fuel e resolution) off.
Proof.
  intros Emagic Hoff. unfold _scan_classic, _iter_classic. do 7 rwp_step.
  apply rwp_guard_l; [done|]. intros _.
  set (header := slice off (off + 20) content).
  apply (agree_classic_loop _ _ _ (classic_interface (u32 e header 16) (u32 e header 12)
    resolution)); try done; [lia|].
  unfold buffers_wf; simpl. case_match; [|done]. by rewrite zlen_nil.
Qed.

Lemma agree_pcapng fuel :
  4 <= zlen content ->
  agree (agree_post [] []) (_scan_pcapng fuel (slice 0 4 content) lim)
    (_iter_pcapng source_id source_order networks fuel (slice 0 4 content)) 4.
Proof.
  intros Hlen. unfold _scan_pcapng, _iter_pcapng.
  apply (agree_ng_loop fuel (Some (slice 0 4 content)) [] [] ng_initial nd_initial 0);
    try done; try lia; by apply ng_inv_initial.
Qed.

Lemma agree_capture_near fuel :
  agree (fun os1 (out : capture_format * scan_output) os2 _ _ =>
      Forall2 (decoded_near out.2.1.1) (concat os1 ++ out.2.1.2) os2)
    (scan_capture fuel lim) (export_capture source_id source_order networks fuel) 0.
Proof.
  unfold scan_capture, export_capture, open_magic. pose proof (zlen_nonneg content).
  apply rwp_bind_assoc_r. do 3 rwp_step. apply rwp_bind_assoc_r. unfold iter_packets.
  replace (0 + 4) with 4 in * by lia.
  destruct (CLASSIC_MAGIC (slice 0 4 content)) as [[e resolution]|] eqn:Emagic.
  - rewrite bool_decide_true by done. apply rwp_ret_l.
    cbn [negb andb guard_not mbind prog_bind prog_bind_]. rewrite Emagic.
    eapply rwp_mono; [|apply (agree_classic fuel e resolution 4); [done|lia]].
    intros ? ? ? ? ? _ Hpost. exact Hpost.
  - rewrite (bool_decide_false (is_Some (@None (endian * Z)))) by (by apply eq_None_not_Some).
    case_bool_decide; cbn [negb andb]; [|apply rwp_raise].
    apply rwp_ret_l. cbn [guard_not mbind prog_bind prog_bind_]. rewrite Emagic.
    eapply rwp_mono; [|apply agree_pcapng; lia].
    intros ? ? ? ? ? _ Hpost. exact Hpost.
Qed.

Lemma agree_capture fuel :
  agree (fun os1 (out : capture_format * scan_output) os2 _ _ =>
      Forall2 (decoded_as out.2.1.1) (concat os1 ++ out.2.1.2) os2)
    (scan_capture fuel lim) (export_capture source_id source_order networks fuel) 0.
Proof.
  eapply rwp_mono; [|apply agree_capture_near]. intros ? ? ? ? ? _ H. eapply Forall2_impl; [exact H|]. by intros ? ? [].
Qed.
End agreement.

(** ** The decoder alone *)

Lemma sizes_decode_options_loop fuel remaining e den tso :
  0 <= remaining -> sizes_ok (decode_options_loop fuel remaining e den tso).
Proof.
  revert remaining den tso. induction fuel as [|fuel IH]; intros remaining den tso Hr;
    cbn [decode_options_loop]; [done|].
  destruct (remaining =? 0); [sizes|]. destruct (Z.ltb_spec remaining 4); [sizes|].
  apply sizes_bind; [sizes|intros header]. cbv zeta.
  destruct (u16 e header 0 =? 0); [sizes|].
  pose proof (u16_bound e header 2) as Hl. pose proof (pad4_bounds (u16 e header 2) ltac:(lia)).
  destruct (Z.ltb_spec (remaining - 4) (pad4 (u16 e header 2))); [sizes|].
  apply sizes_bind; [|intros; apply IH; lia]. unfold decode_ng_option.
  destruct (_ && (_ =? 1)) eqn:E1; reflect_bools; [sizes|].
  destruct (_ && (_ =? 8)) eqn:E2; reflect_bools; sizes.
Qed.

Lemma sizes_decode_ng_options size e : 0 <= size -> sizes_ok (decode_ng_options size e).
Proof. apply sizes_decode_options_loop. Qed.

Lemma sizes_decode_packet_values e t prefix n :
  n = 0 \/ 4 <= n -> sizes_ok (decode_packet_values e t prefix n).
Proof.
  intros. unfold decode_packet_values. destruct (Z.ltb_spec n 20); [sizes|].
  apply sizes_bind; [sizes|]. intros more. unfold ng_packet_values.
  destruct (t =? 6); cbv zeta;
    (pose proof (u32_bound e (prefix ++ more) 12);
     pose proof (pad4_bounds (u32 e (prefix ++ more) 12));
     destruct (_ && _) eqn:E; reflect_bools; sizes).
Qed.
#[export] Hint Resolve sizes_decode_ng_options sizes_decode_packet_values : sizes.

Section decoder_sizes.
Context (source_id : string) (source_order : Z) (networks : list ip_network).

Lemma sizes_decode_ng_block off prefix nd :
  sizes_ok (decode_ng_block source_id source_order networks off prefix nd).
Proof.
  unfold decode_ng_block. case_match.
  { unfold decode_section_block. destruct (section_endian _) as [e|]; [|done]. cbv zeta.
    apply sizes_lift_bind. intros u [H12 [->|H16]]%validate_ng_length_Ok; [sizes|].
    rewrite (proj2 (Z.eqb_neq _ 12)) by lia. sizes. }
  cbv zeta. apply sizes_lift_bind. intros u Hlen%validate_ng_length_Ok.
  assert (u32 (nd_endian nd) prefix 4 - 12 = 0 \/ 4 <= u32 (nd_endian nd) prefix 4 - 12) as Hn by lia.
  unfold decode_interface_block, decode_packet_block, decode_skipped_block.
  apply sizes_catch. case_match; [|case_match; sizes].
  cbv zeta. apply sizes_bind; [destruct (Z.ltb_spec (u32 (nd_endian nd) prefix 4 - 12) 8)|intros ?]; sizes.
Qed.

Lemma sizes_decode_classic_record e resolution interface off count header :
  sizes_ok (decode_classic_record source_id source_order networks e resolution interface off
              count header).
Proof. unfold decode_classic_record. pose proof (u32_bound e header 8). sizes. Qed.
#[local] Hint Resolve sizes_decode_ng_block sizes_decode_classic_record : sizes.

Lemma sizes_iter_classic_loop fuel e resolution interface count :
  sizes_ok (iter_classic_loop source_id source_order networks fuel e resolution interface count).
Proof. revert count. induction fuel; intros; cbn [iter_classic_loop]; sizes. Qed.

Lemma sizes_iter_pcapng_loop fuel magic nd :
  sizes_ok (iter_pcapng_loop source_id source_order networks fuel magic nd).
Proof. revert magic nd. induction fuel; intros; cbn [iter_pcapng_loop]; sizes. Qed.
#[local] Hint Resolve sizes_iter_classic_loop sizes_iter_pcapng_loop : sizes.

Lemma sizes_export_capture fuel :
  sizes_ok (export_capture source_id source_order networks fuel).
Proof.
  unfold export_capture, open_magic, iter_packets, _iter_classic, _iter_pcapng. sizes.
Qed.
End decoder_sizes.

(** *** Fuel *)

(** The decoder's own exceptions: neither the fuel nor the verification of a source. *)
Definition decoder_error (e : exn) : Prop :=
  match e with OutOfFuel | CaptureIntegrityError _ => False | _ => True end.

Lemma decoder_error_timestamp ticks num den offset cs cf e :
  export_timestamp_from_ticks ticks num den offset cs cf = Err e -> decoder_error e.
Proof.
  unfold export_timestamp_from_ticks, _timestamp. repeat case_match; by intros [= <-].
Qed.

Section decoder_fuel.
Context (content : bytes) (source_id : string) (source_order : Z) (networks : list ip_network).

Ltac fuel_err := first [ exact I | intros ?; exact I ].
Ltac fuel_go := wp_step fuel_err.

Lemma wp_fuel_raise_if {A} cond e (Q : list ExportPacket -> A -> Z -> Prop) f off :
  off <= zlen content -> decoder_error e ->
  wp content decoder_error Q (f tt) off ->
  wp content decoder_error Q (lift_res (raise_if cond e) ≫= f) off.
Proof. intros. destruct cond; [by apply wp_raise|done]. Qed.

Lemma wp_fuel_options fuel remaining e den tso off :
  0 <= off <= zlen content -> 0 <= remaining < Z.of_nat fuel ->
  wp content decoder_error (fun _ v _ => forall x, v.2 = Some x -> decoder_error x)
    (decode_options_loop fuel remaining e den tso) off.
Proof.
  revert remaining den tso off. induction fuel as [|fuel IH];
    intros remaining den tso off Hoff Hr; [lia|]. cbn [decode_options_loop].
  destruct (remaining =? 0); [by fuel_go|].
  destruct (Z.ltb_spec remaining 4); [do 3 fuel_go; by intros ? [= <-]|].
  do 2 fuel_go. cbv zeta. set (header := slice off (off + 4) content) in *.
  destruct (u16 e header 0 =? 0); [by do 3 fuel_go|].
  pose proof (u16_bound e header 2). pose proof (pad4_bounds (u16 e header 2)).
  destruct (Z.ltb_spec (remaining - 4) (pad4 (u16 e header 2)));
    [do 3 fuel_go; by intros ? [= <-]|].
  fuel_go. eapply (wp_mono _ _ decoder_error _ (fun _ _ _ => True)); [done| |].
  { intros os v off' Hle _. eapply (wp_mono _ _ decoder_error); [done| |apply IH; lia]. done. }
  unfold decode_ng_option.
  destruct (_ && (_ =? 1)) eqn:E1; reflect_bools; [by do 5 fuel_go|].
  destruct (_ && (_ =? 8)) eqn:E2; reflect_bools; [by do 5 fuel_go|by do 3 fuel_go].
Qed.

Lemma decoder_error_raise_if cond e x : decoder_error e -> raise_if cond e = Err x -> decoder_error x.
Proof. by intros ? ->%raise_if_error. Qed.

(** The steps of a block other than its options. *)
Ltac fuel_leaf := first
  [ exact I | by left | right; exact I
  | intros ?; first [ by intros ?%decoder_error_timestamp | by intros ?%project_total
                    | apply decoder_error_raise_if; exact I
                    | intros ?; right; by eapply decoder_error_timestamp
                    | intros ->%raise_if_error; right; exact I ] ].
Ltac fuel_raises := raises fuel_leaf.

Lemma wp_fuel_ng_block rec prefix nd off :
  0 <= off <= zlen content ->
  wp content decoder_error (fun _ _ _ => True)
    (decode_ng_block source_id source_order networks rec prefix nd) off.
Proof.
  intros Hoff. pose proof (sizes_decode_ng_block source_id source_order networks rec prefix nd) as Hs.
  unfold decode_ng_block in *. case_bool_decide.
  { apply wp_raises; [done| |done]. unfold decode_section_block. fuel_raises. }
  cbv zeta in *. set (e := nd_endian nd) in *. set (t := u32 e prefix 0) in *. set (n := u32 e prefix 4) in *.
  destruct (Z.eqb_spec t 1) as [Ht|Ht].
  2:{ apply wp_raises; [done| |done]. fuel_raises; unfold decode_packet_block, decode_skipped_block,
        check_in_section, decode_packet_values, discard_body, read_trailer; fuel_raises. }
  assert (12 <= n -> n - 12 = 0 \/ 4 <= n - 12 -> wp content (fun x => x = EOFError \/ decoder_error x)
    (fun _ _ _ => True) (decode_interface_block prefix n (n - 12)
      (if n - 12 =? 0 then [] else slice 8 12 prefix) nd) off) as Hblock.
  { intros H12 Hn. unfold decode_interface_block. cbv zeta. apply wp_bind.
    eapply (wp_mono _ _ (fun x => x = EOFError \/ decoder_error x) _ (fun _ v _ => forall lt sl o x, v = Some (lt, sl, (o, Some x)) -> decoder_error x));
      [done| |].
    - intros os v off' Hle Hv. apply wp_raises; [sizes| |lia].
      unfold check_in_section, read_trailer. fuel_raises; right; by eapply Hv.
    - destruct (Z.ltb_spec (n - 12) 8).
      + apply wp_bind. eapply (wp_mono _ _ (fun x => x = EOFError \/ decoder_error x)); [done| |apply wp_raises;
          [sizes|unfold discard_body; fuel_raises|lia]].
        intros ? ? ? ? _. by apply wp_ret; [lia|].
      + do 2 wp_step ltac:(by left). wp_step idtac.
        eapply (wp_mono _ _ decoder_error); [by right| |apply wp_fuel_options; lia].
        intros ? v ? ? Hv. apply wp_ret; [lia|]. intros ? ? ? ? [= <- <- ->]. by apply Hv. }
  apply wp_bind, wp_lift; [lia|intros ? ->%raise_if_error; exact I|].
  intros u [H12 H16]%validate_ng_length_Ok. apply wp_catch; [exact I|].
  apply Hblock; lia.
Qed.

Lemma wp_fuel_classic_record e resolution interface rec count header off :
  0 <= off <= zlen content ->
  wp content decoder_error (fun _ _ _ => True)
    (decode_classic_record source_id source_order networks e resolution interface rec count header)
    off.
Proof.
  intros. apply wp_raises; [apply sizes_decode_classic_record| |done].
  unfold decode_classic_record. fuel_raises.
Qed.

Lemma wp_fuel_classic_loop fuel e resolution interface count off :
  0 <= off <= zlen content -> zlen content - off < Z.of_nat fuel ->
  wp content decoder_error (fun _ _ _ => True)
    (iter_classic_loop source_id source_order networks fuel e resolution interface count) off.
Proof.
  revert count off. induction fuel as [|fuel IH]; intros count off Hoff Hfuel; [lia|].
  cbn [iter_classic_loop]. do 4 fuel_go. apply wp_read; [lia|lia|by left| |].
  - intros Hlen. rewrite bool_decide_false by (apply slice_nonempty; lia). fuel_go.
    eapply (wp_mono _ _ decoder_error); [done| |apply wp_fuel_classic_record; lia].
    intros ? ? off' ? _. eapply (wp_mono _ _ decoder_error); [done| |apply IH; lia]. done.
  - intros _ _. rewrite bool_decide_true by done. case_match; by fuel_go.
Qed.

Lemma wp_fuel_pcapng_loop fuel magic nd off :
  (magic = None \/ exists m, magic = Some m /\ m <> []) ->
  0 <= off <= zlen content -> zlen content - off < Z.of_nat fuel ->
  wp content decoder_error (fun _ _ _ => True)
    (iter_pcapng_loop source_id source_order networks fuel magic nd) off.
Proof.
  revert magic nd off. induction fuel as [|fuel IH]; intros magic nd off Hmagic Hoff Hfuel; [lia|].
  cbn [iter_pcapng_loop]. do 2 fuel_go.
  set (rec := off - match magic with Some _ => 4 | None => 0 end).
  assert (forall prefix off', off < off' <= zlen content ->
    wp content decoder_error (fun _ _ _ => True)
      (nd' ← decode_ng_block source_id source_order networks rec prefix nd;
       iter_pcapng_loop source_id source_order networks fuel None nd') off') as Hblock.
  { intros prefix off' Hlt. fuel_go.
    eapply (wp_mono _ _ decoder_error); [done| |apply wp_fuel_ng_block; lia].
    intros ? ? off2 ? _. eapply (wp_mono _ _ decoder_error); [done| |apply IH; [by left|lia..]]. done. }
  fuel_go. fuel_go. destruct Hmagic as [->|(m & -> & Hm)].
  - apply wp_read; [lia|lia|by left| |].
    + intros Hlen. rewrite bool_decide_false by (apply slice_nonempty; lia). apply Hblock. lia.
    + intros _ _. rewrite bool_decide_true by done. case_match; by fuel_go.
  - do 2 wp_step ltac:(by left). fuel_go. rewrite bool_decide_false by (by destruct m).
    apply Hblock. lia.
Qed.

Lemma wp_fuel_export_capture fuel :
  zlen content < Z.of_nat fuel ->
  wp content decoder_error (fun _ _ _ => True)
    (export_capture source_id source_order networks fuel) 0.
Proof.
  intros Hfuel. pose proof (zlen_nonneg content). unfold export_capture. fuel_go. unfold open_magic.
  do 2 fuel_go. wp_step ltac:(by left). fuel_go. fuel_go. fuel_go. unfold iter_packets.
  assert (slice 0 (0 + 4) content <> []) by (apply slice_nonempty; lia).
  destruct (CLASSIC_MAGIC _) as [[e resolution]|].
  - unfold _iter_classic. do 2 fuel_go. wp_step ltac:(by left). do 4 fuel_go.
    apply wp_fuel_classic_loop; lia.
  - apply wp_fuel_pcapng_loop; [|lia..]. right. by eexists.
Qed.
End decoder_fuel.

(** ** The decoder over a reader *)

Section export_reader.
Context {R : Type} `{!CaptureReader R, !LawfulReader R}.

(** Opening a capture and consuming its packets. *)
Definition export_packets (fuel : nat) (reader : R) (source_id : string) (source_order : Z)
    (internal_networks : list string) : list ExportPacket * res unit :=
  match open_export_capture reader source_id source_order internal_networks with
  | Err e => ([], Err e)
  | Ok d => (decoder_iter_packets fuel d).1
  end.

Lemma export_packets_run fuel (reader : R) source_id source_order values networks :
  _networks values = Ok networks ->
  export_packets fuel reader source_id source_order values =
  (run (export_capture source_id source_order networks fuel)
     (mk_mem (reader_content reader) 0)).1.
Proof.
  intros Hnet.
  assert (export_packets fuel reader source_id source_order values =
    (run (export_capture source_id source_order networks fuel) (new_stream_cursor reader [])).1) as ->.
  { unfold export_packets, open_export_capture, export_capture. rewrite Hnet, run_bind.
    cbn [mbind res_bind].
    pose proof (run_quiet (open_magic) (new_stream_cursor reader [])) as Hquiet.
    specialize (Hquiet ltac:(unfold open_magic, guard_not; quiets)).
    destruct (run open_magic (new_stream_cursor reader [])) as [[os [magic|e]] c];
      simpl in Hquiet; subst os; [|done].
    unfold decoder_iter_packets; simpl.
    by destruct (run (iter_packets source_id source_order networks fuel magic) c) as [[? ?] ?]. }
  apply (run_sim stream_rel); [apply sizes_export_capture|done].
Qed.
End export_reader.

(** ** Properties *)

(** C4: the structural scan and the export decoder agree on every capture, for
    any lawful readers of the same content.  Both succeed and then the decoder
    yields, in order, exactly one packet per entry of the index, with the
    entry's locator, lengths and interface, the bytes the entry locates and
    the projection of those bytes, and equal to the packet
    [export_packet_from_structural_locator] rebuilds from the entry (for a
    classic record whose sub-second field is below one second); or both raise
    the same error; the scan alone may hit one of its limits, and the decoder
    alone a time that is not a [datetime]. *)
Theorem export_agrees_with_index (sha256_hex : bytes -> string) (R1 R2 : Type)
    (reads1 : CaptureReader R1) (lawful1 : LawfulReader R1)
    (reads2 : CaptureReader R2) (lawful2 : LawfulReader R2) (fuel : nat) (r1 : R1) (r2 : R2)
    (lim : ScanLimits) (source_id : string) (source_order : Z) (values : list string)
    (networks : list ip_network) :
  limits_ok lim -> zlen (reader_content r1) <= _MAX_I64 ->
  reader_content r1 = reader_content r2 -> _networks values = Ok networks ->
  match scan_structural_packet_index sha256_hex fuel r1 lim,
        export_packets fuel r2 source_id source_order values with
  | (batches, Ok out), (packets, Ok _) =>
      Forall2 (decoded_as (reader_content r1) source_id source_order networks
                 out.(ssr_interfaces))
        (concat batches ++ out.(ssr_packets)) packets
  | (_, Err e1), (_, Err e2) => e1 = e2 \/ limit_error e1 \/ timestamp_error e2
  | (_, Err e1), (_, Ok _) => limit_error e1
  | (_, Ok _), (_, Err e2) => timestamp_error e2
  end.
Proof.
  intros Hlim Hmax Heq Hnet. rewrite (scan_refines_content sha256_hex fuel r1) by done.
  rewrite (export_packets_run fuel r2 _ _ _ networks), <- Heq by done.
  unfold scan_of_content. destruct Hlim as (Hp & Hi & Hb).
  pose proof (agree_capture (reader_content r1) source_id source_order networks lim Hb Hp Hi fuel)
    as H. unfold rwp in H. rewrite mem_at_0 in H.
  destruct (run (scan_capture fuel lim) _) as [[os1 [[fmt [[ifs ps] n]]|e1]] m1],
    (run (export_capture _ _ _ fuel) _) as [[os2 [u|e2]] m2]; [|exact H..].
  by destruct H as (off & _ & _ & _ & H).
Qed.

(** C16: rebuilding a packet from the index never moves it by more than a
    microsecond. For every capture the structural scan and the decoder accept,
    classic or PCAPNG and whatever its sub-second fields hold, each entry of the
    index and the bytes it locates rebuild the packet the decoder yields, field
    by field, with a time that is the same for PCAPNG packets and classic records
    whose sub-second field is below one second, and otherwise at most one
    microsecond away: the seconds and the field are added in binary64 as they
    stand by the decoder, and normalised first when the packet is rebuilt. *)
Theorem rebuilt_time_close (sha256_hex : bytes -> string) (R1 R2 : Type)
    (reads1 : CaptureReader R1) (lawful1 : LawfulReader R1)
    (reads2 : CaptureReader R2) (lawful2 : LawfulReader R2) (fuel : nat) (r1 : R1) (r2 : R2)
    (lim : ScanLimits) (source_id : string) (source_order : Z) (values : list string)
    (networks : list ip_network) (batches : list (list StructuralPacketEntry)) (out : StructuralScanResult)
    (packets : list ExportPacket) (content := reader_content r1) :
  limits_ok lim -> zlen content <= _MAX_I64 -> content = reader_content r2 -> _networks values = Ok networks ->
  scan_structural_packet_index sha256_hex fuel r1 lim = (batches, Ok out) ->
  export_packets fuel r2 source_id source_order values = (packets, Ok tt) ->
  Forall2 (fun p q => exists i t,
    out.(ssr_interfaces) !! Z.to_nat p.(spe_interface_ordinal) = Some i /\
    export_packet_from_structural_locator (packet_bytes content p) (locator_of source_id source_order p)
      (ci_of i) p.(spe_original_length) p.(spe_raw_timestamp_ticks) (inr networks) =
      Ok {| ep_timestamp := t; ep_projection := q.(ep_projection); ep_raw_packet_bytes := q.(ep_raw_packet_bytes);
            ep_locator := q.(ep_locator); ep_interface := q.(ep_interface);
            ep_original_length := q.(ep_original_length) |} /\
    Z.abs (t - q.(ep_timestamp)) <= 1 /\
    ((forall e resolution, CLASSIC_MAGIC (slice 0 4 content) = Some (e, resolution) ->
        u32 e content (p.(spe_record_offset) + 4) < resolution) -> t = q.(ep_timestamp)))
    (concat batches ++ out.(ssr_packets)) packets.
Proof.
  intros Hlim Hmax Heq Hnet Hscan Hexp. rewrite (scan_refines_content sha256_hex fuel r1) in Hscan by done.
  rewrite (export_packets_run fuel r2 _ _ _ networks), <- Heq in Hexp by done.
  unfold scan_of_content in Hscan. destruct Hlim as (Hp & Hi & Hb).
  pose proof (agree_capture_near content source_id source_order networks lim Hb Hp Hi fuel) as H.
  unfold rwp in H. rewrite mem_at_0 in H. fold content in Hscan.
  destruct (run (scan_capture fuel lim) _) as [[os1 [[fmt [[ifs ps] n]]|e1]] m1]; [|done].
  destruct (run (export_capture _ _ _ fuel) _) as [[os2 r] m2]. injection Hscan as <- <-. injection Hexp as <- ->.
  destruct H as (off & _ & _ & _ & H). simpl in *. eapply Forall2_impl; [exact H|].
  intros p q [(i & Hl & _ & _ & _ & _ & _ & Hsame) (i' & t & Hl' & Hre & Hc)].
  rewrite Hl in Hl'. injection Hl' as <-. exists i, t. split_and!; [done|exact Hre|done|].
  intros Hf. specialize (Hsame Hf). rewrite Hre in Hsame. injection Hsame as Hq. by rewrite <- Hq.
Qed.

(** C5: the decoder terminates: with fuel above the capture's length, opening
    and consuming a capture never runs out of it, whatever the bytes are. *)
Theorem export_terminates (R : Type) (reads : CaptureReader R) (lawful : LawfulReader R)
    (fuel : nat) (r : R) (source_id : string) (source_order : Z) (values : list string) :
  zlen (reader_content r) < Z.of_nat fuel ->
  (export_packets fuel r source_id source_order values).2 <> Err OutOfFuel.
Proof.
  intros Hfuel. destruct (_networks values) as [networks|e] eqn:Hnet.
  - rewrite (export_packets_run fuel r _ _ _ networks) by done.
    pose proof (wp_fuel_export_capture (reader_content r) source_id source_order networks fuel Hfuel)
      as H. unfold wp in H. rewrite mem_at_0 in H.
    destruct (run (export_capture _ _ _ fuel) _) as [[os [u|e]] m]; simpl; [done|by intros [= ->]].
  - unfold export_packets, open_export_capture. rewrite Hnet. simpl.
    intros [= ->]. unfold _networks in Hnet. revert Hnet. clear.
    assert (forall vs, parse_networks vs <> Err OutOfFuel) as Hp.
    { induction vs as [|v vs IH]; simpl; [done|]. destruct (parse_ip_network v); [|done].
      destruct (parse_networks vs); naive_solver. }
    destruct (parse_networks values) eqn:E; simpl; [by case_bool_decide|].
    intros [= ->]. by apply (Hp values).
Qed.

Lemma export_terminates_witness :
  (export_packets 300 {| trickle_data := sample_pcap |} "s" 0 ["10.0.0.0/8"%string]).2
    <> Err OutOfFuel.
Proof.
  apply (export_terminates TrickleReader trickle_reader trickle_lawful). vm_compute. reflexivity.
Defined.

Lemma export_agrees_with_index_witness :
  exists batches out packets networks,
    scan_structural_packet_index (fun _ => "d"%string) 300 {| trickle_data := sample_pcapng |}
      (sample_limits 1 true) = (batches, Ok out) /\
    export_packets 300 {| bio_data := sample_pcapng |} "s" 0 ["10.0.0.0/8"%string] =
      (packets, Ok tt) /\ length packets = 2%nat /\
    Forall2 (decoded_as sample_pcapng "s" 0 networks out.(ssr_interfaces))
      (concat batches ++ out.(ssr_packets)) packets.
Proof.
  destruct (_networks ["10.0.0.0/8"%string]) as [networks|e] eqn:Enet;
    [|vm_compute in Enet; discriminate].
  pose proof (export_agrees_with_index (fun _ => "d"%string) TrickleReader BytesIO trickle_reader
    trickle_lawful bytesio_reader bytesio_lawful 300 {| trickle_data := sample_pcapng |}
    {| bio_data := sample_pcapng |} (sample_limits 1 true) "s" 0 ["10.0.0.0/8"%string] networks) as H.
  destruct (scan_structural_packet_index _ _ _ _) as [batches result] eqn:E1.
  destruct (export_packets _ _ _ _ _) as [packets r] eqn:E2.
  vm_compute in E1, E2. injection E1 as E1 E1'. injection E2 as E2 E2'. subst result r.
  eexists batches, _, packets, networks. split; [done|]. split; [done|].
  split; [by rewrite <- E2|]. apply H; [|vm_compute; discriminate|reflexivity|exact Enet].
  repeat split; vm_compute; reflexivity.
Defined.

(** A classic nanosecond record with seconds 6 and sub-second field
    1856916500: the field is not below one second, no check refuses it, and the
    rebuilt packet is one microsecond before the decoded one. *)
Definition sample_fraction_pcap : bytes :=
  [ x4d; x3c; xb2; xa1; x02; x00; x04; x00; x00; x00; x00; x00; x00; x00; x00; x00;
    xff; xff; x00; x00; x65; x00; x00; x00;
    x06; x00; x00; x00 ] ++ to_bytes LE 4 1856916500 ++
  [ x00; x00; x00; x00; x00; x00; x00; x00 ].

Definition sample_fraction_entry : StructuralPacketEntry :=
  classic_packet_entry 0 24 6 1856916500 0 0 1000000000.

(** The classic sub-second field is not checked against the resolution, and the
    decoder adds it to the seconds as it stands while
    [export_packet_from_structural_locator] normalises it first: on this capture
    the index holds the entry, and the decoded and the rebuilt packet differ in
    their times, by one microsecond. *)
Lemma unchecked_fraction_diverges :
  (scan_structural_packet_index (fun _ => "d"%string) 100 {| bio_data := sample_fraction_pcap |}
     (sample_limits 2 false)).2 =
  Ok {| ssr_capture_format := PCAP; ssr_size_bytes := 40; ssr_sha256 := "d";
        ssr_interfaces := [classic_interface 101 65535 1000000000];
        ssr_packets := [sample_fraction_entry]; ssr_packet_count := 1 |} /\
  ep_timestamp <$> (export_packets 100 {| bio_data := sample_fraction_pcap |} "s" 0
     ["10.0.0.0/8"%string]).1 = [7856917] /\
  ep_timestamp <$> export_packet_from_structural_locator [] (locator_of "s" 0 sample_fraction_entry)
    (ci_of (classic_interface 101 65535 1000000000)) 0
    (spe_raw_timestamp_ticks sample_fraction_entry) (inl ["10.0.0.0/8"%string]) = Ok 7856916.
Proof. split_and!; vm_compute; reflexivity. Qed.

Lemma rebuilt_time_close_witness :
  exists networks i q t,
    (export_packets 100 {| bio_data := sample_fraction_pcap |} "s" 0 ["10.0.0.0/8"%string]).1 = [q] /\
    export_packet_from_structural_locator [] (locator_of "s" 0 sample_fraction_entry) (ci_of i) 0
      (spe_raw_timestamp_ticks sample_fraction_entry) (inr networks) = Ok (with_time t q) /\
    Z.abs (t - q.(ep_timestamp)) <= 1.
Proof.
  destruct (_networks ["10.0.0.0/8"%string]) as [networks|e] eqn:Enet; [|vm_compute in Enet; discriminate].
  destruct (scan_structural_packet_index (fun _ => "d"%string) 100 {| bio_data := sample_fraction_pcap |} (sample_limits 2 false))
    as [batches result] eqn:E1.
  destruct (export_packets 100 {| bio_data := sample_fraction_pcap |} "s" 0 ["10.0.0.0/8"%string]) as [packets r] eqn:E2.
  pose proof (rebuilt_time_close (fun _ => "d"%string) BytesIO BytesIO _ _ _ _ 100 {| bio_data := sample_fraction_pcap |}
    {| bio_data := sample_fraction_pcap |} (sample_limits 2 false) "s" 0 ["10.0.0.0/8"%string] networks batches) as H.
  rewrite E1, E2 in H. vm_compute in E1, E2. injection E1 as <- <-. injection E2 as <- <-.
  specialize (H _ _ ltac:(repeat split; vm_compute; reflexivity) ltac:(vm_compute; discriminate) eq_refl Enet eq_refl eq_refl).
  apply Forall2_cons in H as [(i & t & _ & Hre & Hc & _) _]. exists networks, i. eexists _, t.
  split; [reflexivity|]. split; [exact Hre|exact Hc].
Defined.
