(* ===== verification/PostingCodec.v ===== *)
(** * PostingCodec

    pcap_postings.py, the ordinal codec: strictly increasing packet ordinals as
    canonical varint deltas, and its decoder, a generator that yields ordinals
    until the end or the first fault.  The two are inverse to each other. *)

From S2P Require Import Prelude Bytes.

Definition MAX_POSTING_ORDINAL : Z := 2 ^ 64 - 1.

(** ** Encoding *)

(** The loop of [_varint]: seven bits a byte, low bits first. *)
Fixpoint varint_loop (fuel : nat) (value : Z) : bytes :=
  match fuel with
  | O => []
  | S fuel' =>
      if 0x80 <=? value
      then z2b (Z.lor (Z.land value 0x7F) 0x80) :: varint_loop fuel' (Z.shiftr value 7)
      else [z2b value]
  end.

(** Ten bytes hold seventy bits, more than a checked value has. *)
Definition _varint (value : Z) : res bytes :=
  if negb ((0 <=? value) && (value <=? MAX_POSTING_ORDINAL))
  then Err (PostingCodecError "delta must fit in an unsigned 64-bit integer")
  else Ok (varint_loop 10 value).

Fixpoint encode_from (previous : Z) (values : list Z) : res bytes :=
  match values with
  | [] => Ok []
  | value :: values' =>
      _ ← raise_if ((value <? 0) || (MAX_POSTING_ORDINAL <? value))
            (PostingCodecError "packet ordinal exceeds unsigned 64-bit range");
      _ ← raise_if (value <=? previous)
            (PostingCodecError "packet ordinals must be strictly increasing");
      let delta := value - previous in
      _ ← raise_if (MAX_POSTING_ORDINAL <? delta)
            (PostingCodecError "delta must fit in an unsigned 64-bit integer");
      head ← _varint delta;
      rest ← encode_from value values';
      Ok (head ++ rest)
  end.

Definition encode_ordinals (values : list Z) : res bytes := encode_from (-1) values.

(** ** Decoding *)

Definition varint_truncated : exn := PostingCodecError "truncated or oversized delta varint".

(** [for byte_index in range(10)], [n] iterations before the end. *)
Fixpoint decode_varint (n : nat) (byte_index decoded : Z) (value : bytes) : res (Z * bytes) :=
  match n with
  | O => Err varint_truncated
  | S n' =>
      match value with
      | [] => Err varint_truncated
      | byte :: value' =>
          let b := b2z byte in
          let payload := Z.land b 0x7F in
          let shift := byte_index * 7 in
          if (byte_index =? 9) && (negb (Z.land b 0x80 =? 0) || (1 <? payload))
          then Err varint_truncated
          else if Z.shiftr MAX_POSTING_ORDINAL shift <? payload
          then Err (PostingCodecError "delta varint exceeds unsigned 64-bit range")
          else
            let decoded := Z.lor decoded (Z.shiftl payload shift) in
            if Z.land b 0x80 =? 0 then Ok (decoded, value')
            else decode_varint n' (byte_index + 1) decoded value'
      end
  end.

Definition above_universe (max_ordinal : option Z) (ordinal : Z) : bool :=
  match max_ordinal with Some m => m <? ordinal | None => false end.

(** One delta: the next ordinal and the bytes after it. *)
Definition next_ordinal (previous : Z) (max_ordinal : option Z) (value : bytes)
    : res (Z * bytes) :=
  '(decoded, rest) ← decode_varint 10 0 0 value;
  canonical ← _varint decoded;
  _ ← raise_if (negb (bool_decide (ztake (zlen value - zlen rest) value = canonical)))
        (PostingCodecError "delta varint is not canonical");
  _ ← raise_if (decoded =? 0)
        (PostingCodecError "decoded ordinals are not strictly increasing");
  _ ← raise_if (MAX_POSTING_ORDINAL - decoded <? previous)
        (PostingCodecError "decoded ordinal exceeds unsigned 64-bit range");
  let ordinal := previous + decoded in
  _ ← raise_if (above_universe max_ordinal ordinal)
        (PostingCodecError "decoded ordinal exceeds packet universe");
  Ok (ordinal, rest).

(** The ordinals yielded, then how the generator ended. *)
Fixpoint iter_decoded_loop (fuel : nat) (previous : Z) (max_ordinal : option Z) (value : bytes)
    : list Z * res unit :=
  match fuel with
  | O => ([], Err OutOfFuel)
  | S fuel' =>
      match value with
      | [] => ([], Ok tt)
      | _ =>
          match next_ordinal previous max_ordinal value with
          | Err e => ([], Err e)
          | Ok (ordinal, rest) =>
              let '(ordinals, r) := iter_decoded_loop fuel' ordinal max_ordinal rest in
              (ordinal :: ordinals, r)
          end
      end
  end.

Definition _iter_decoded_ordinals (value : bytes) (max_ordinal : option Z) : list Z * res unit :=
  match max_ordinal with
  | Some m =>
      if negb ((0 <=? m) && (m <=? MAX_POSTING_ORDINAL))
      then ([], Err (PostingCodecError "maximum ordinal must be an unsigned 64-bit integer"))
      else iter_decoded_loop (S (length value)) (-1) max_ordinal value
  | None => iter_decoded_loop (S (length value)) (-1) max_ordinal value
  end.

Definition decode_ordinals (value : bytes) (max_ordinal : option Z) : res (list Z) :=
  match _iter_decoded_ordinals value max_ordinal with
  | (ordinals, Ok _) => Ok ordinals
  | (_, Err e) => Err e
  end.

(** ** Varints *)

Lemma land_7f v : 0 <= v -> Z.land v 0x7F = v mod 128.
Proof. intros. change 0x7F with (Z.ones 7). by rewrite Z.land_ones by lia. Qed.

Lemma lor_disjoint_high a b n : 0 <= a < 2 ^ n -> 0 <= n -> Z.lor a (Z.shiftl b n) = a + b * 2 ^ n.
Proof.
  intros Ha Hn. rewrite Z.shiftl_mul_pow2 by done. symmetry. rewrite <- Z.lxor_lor.
  - apply Z.add_nocarry_lxor. rewrite <- (Z.mod_small a (2 ^ n)), <- Z.land_ones by done.
    rewrite <- Z.land_assoc. rewrite (Z.land_comm (Z.ones n)), Z.land_ones by done.
    by rewrite Z.mod_mul, Z.land_0_r by lia.
  - rewrite <- (Z.mod_small a (2 ^ n)), <- Z.land_ones by done.
    rewrite <- Z.land_assoc, (Z.land_comm (Z.ones n)), Z.land_ones by done.
    by rewrite Z.mod_mul, Z.land_0_r by lia.
Qed.

(** The byte with its continuation bit. *)
Lemma varint_byte v :
  0 <= v -> let b := b2z (z2b (Z.lor (Z.land v 0x7F) 0x80)) in
  b = v mod 128 + 128 /\ Z.land b 0x7F = v mod 128 /\ Z.land b 0x80 = 128.
Proof.
  intros Hv b. pose proof (Z.mod_pos_bound v 128 ltac:(lia)) as Hm.
  assert (b = v mod 128 + 128) as Hb.
  { unfold b. rewrite b2z_z2b, land_7f by done.
    change (Z.lor (v mod 128) 0x80) with (Z.lor (v mod 128) (Z.shiftl 1 7)).
    rewrite lor_disjoint_high by (change (2 ^ 7) with 128; lia). rewrite Z.mul_1_l.
    change (2 ^ 7) with 128. apply Z.mod_small. lia. }
  rewrite Hb, land_7f by lia. split_and!; [done| |].
  - clear -Hm. Z.to_euclidean_division_equations. lia.
  - replace (v mod 128 + 128) with (Z.lor (v mod 128) 128).
    + rewrite Z.land_lor_distr_l, Z.land_diag, <- land_7f, <- Z.land_assoc by done.
      by rewrite Z.land_0_r.
    + change (Z.lor (v mod 128) 128) with (Z.lor (v mod 128) (Z.shiftl 1 7)). rewrite lor_disjoint_high; change (2 ^ 7) with 128; lia.
Qed.

Lemma varint_last v : 0 <= v < 128 -> b2z (z2b v) = v /\ Z.land v 0x7F = v /\ Z.land v 0x80 = 0.
Proof.
  intros Hv. rewrite b2z_z2b, land_7f by lia. rewrite (Z.mod_small v 128) by lia.
  split_and!; [apply Z.mod_small; lia|done|].
  rewrite <- (Z.mod_small v 128), <- land_7f, <- Z.land_assoc by lia. by rewrite Z.land_0_r.
Qed.

(** Decoding the bytes of [v] from position [i] on adds [v * 2 ^ (7 * i)]. *)
Lemma decode_varint_loop n i acc v rest :
  i = 10 - Z.of_nat n -> 0 <= i < 10 -> 0 <= v -> v * 2 ^ (i * 7) <= MAX_POSTING_ORDINAL ->
  0 <= acc < 2 ^ (i * 7) ->
  decode_varint n i acc (varint_loop n v ++ rest) = Ok (acc + v * 2 ^ (i * 7), rest).
Proof.
  revert i acc v. induction n as [|n IH]; intros i acc v Hi Hrange Hv Hmax Hacc; [lia|].
  assert (0 < 2 ^ (i * 7)) as Hpow by lia.
  assert (v <= Z.shiftr MAX_POSTING_ORDINAL (i * 7)) as Hshift.
  { rewrite Z.shiftr_div_pow2 by lia. by apply Z.div_le_lower_bound; lia. }
  assert (i = 9 -> v <= 1) as H9.
  { intros ->. change (2 ^ (9 * 7)) with (2 ^ 63) in Hmax. unfold MAX_POSTING_ORDINAL in Hmax. lia. }
  cbn [varint_loop]. destruct (Z.leb_spec 0x80 v) as [Hbig|Hsmall].
  - destruct (varint_byte v Hv) as (Hb & Hpay & Hcont). cbv zeta in *.
    cbn [decode_varint app]. rewrite Hpay, Hcont.
    pose proof (Z.mod_pos_bound v 128 ltac:(lia)). pose proof (Z.mod_le v 128 ltac:(lia) ltac:(lia)).
    rewrite (proj2 (Z.eqb_neq i 9)) by (intros Hi9; specialize (H9 Hi9); lia). cbn [andb].
    rewrite (proj2 (Z.ltb_ge _ (v mod 128))) by lia. cbn [Z.eqb].
    rewrite lor_disjoint_high by lia.
    assert (2 ^ ((i + 1) * 7) = 128 * 2 ^ (i * 7)) as Hp.
    { replace ((i + 1) * 7) with (7 + i * 7) by lia. rewrite Z.pow_add_r by lia. done. }
    rewrite Z.shiftr_div_pow2 by lia. change (2 ^ 7) with 128.
    pose proof (Z.div_mod v 128 ltac:(lia)) as Hdm.
    pose proof (Z.div_pos v 128 Hv ltac:(lia)).
    rewrite IH; [|lia|lia|lia|rewrite Hp; nia|rewrite Hp; nia].
    do 2 f_equal. rewrite Hp. rewrite Hdm at 3. lia.
  - destruct (varint_last v ltac:(lia)) as (Hb & Hpay & Hcont).
    cbn [decode_varint app]. rewrite Hb, Hpay, Hcont.
    cbn [Z.eqb negb orb]. assert ((i =? 9) && (1 <? v) = false) as ->.
    { destruct (Z.eqb_spec i 9) as [Hi9|]; [specialize (H9 Hi9)|]; lia. }
    rewrite (proj2 (Z.ltb_ge _ v)) by done.
    by rewrite lor_disjoint_high by lia.
Qed.

Lemma varint_decode v rest :
  0 <= v <= MAX_POSTING_ORDINAL -> decode_varint 10 0 0 (varint_loop 10 v ++ rest) = Ok (v, rest).
Proof.
  intros Hv. pose proof (decode_varint_loop 10 0 0 v rest eq_refl) as H.
  change (2 ^ (0 * 7)) with 1 in H. rewrite Z.mul_1_r in H. apply H; lia.
Qed.

Lemma varint_Ok v : 0 <= v <= MAX_POSTING_ORDINAL -> _varint v = Ok (varint_loop 10 v).
Proof.
  intros Hv. unfold _varint. by rewrite (proj2 (Z.leb_le 0 v)), (proj2 (Z.leb_le v _)) by lia.
Qed.

Lemma varint_inv v bs : _varint v = Ok bs -> 0 <= v <= MAX_POSTING_ORDINAL /\ bs = varint_loop 10 v.
Proof.
  unfold _varint. destruct (_ && _) eqn:E; cbn [negb]; [|done].
  generalize (varint_loop 10 v). intros l [= <-]. by reflect_bools.
Qed.

Lemma varint_loop_nonempty n v : varint_loop (S n) v <> [].
Proof. cbn [varint_loop]. by case_match. Qed.

#[global] Arguments varint_loop : simpl never.
#[global] Arguments _varint : simpl never.

(** ** Ordinals *)

(** What the codec can carry after [previous]. *)
Definition ordinals_ok (previous : Z) (values : list Z) : Prop :=
  StronglySorted Z.lt values /\
  Forall (fun v => Z.max 0 (previous + 1) <= v <= MAX_POSTING_ORDINAL) values /\
  (forall v, head values = Some v -> v - previous <= MAX_POSTING_ORDINAL).

Lemma ordinals_ok_nil previous : ordinals_ok previous [].
Proof. split_and!; [apply SSorted_nil|by apply Forall_nil_2|done]. Qed.

Lemma ordinals_ok_cons previous v vs :
  -1 <= previous ->
  ordinals_ok previous (v :: vs) <->
  previous < v /\ 0 <= v <= MAX_POSTING_ORDINAL /\ v - previous <= MAX_POSTING_ORDINAL /\
  ordinals_ok v vs.
Proof.
  intros Hprev. unfold ordinals_ok. split.
  - intros ([Hs Hv]%StronglySorted_inv & [H1 H2]%Forall_cons & Hhead).
    specialize (Hhead v eq_refl). split_and!; try done; try lia.
    + rewrite Forall_forall in *. intros w Hw. specialize (Hv w Hw). specialize (H2 w Hw). lia.
    + intros w Hw. apply head_Some_elem_of in Hw. rewrite Forall_forall in H2.
      specialize (H2 w Hw). lia.
  - intros (H1 & H2 & H3 & Hs & Hall & Hhead). split_and!.
    + constructor; [done|]. eapply Forall_impl; [exact Hall|]. simpl. lia.
    + constructor; [lia|]. eapply Forall_impl; [exact Hall|]. simpl. lia.
    + intros w [= <-]. done.
Qed.

Lemma encode_from_Ok previous vs :
  -1 <= previous -> (is_Ok (encode_from previous vs) <-> ordinals_ok previous vs).
Proof.
  revert previous. induction vs as [|v vs IH]; intros previous Hprev.
  { split; [|by eexists]. intros _. apply ordinals_ok_nil. }
  rewrite ordinals_ok_cons by done. cbn [encode_from]. split.
  - intros [bs H]. inv_bind. reflect_bools. split_and!; try lia. apply IH; [lia|]. by eexists.
  - intros (H1 & H2 & H3 & [bs Hrest]%IH); [|lia].
    rewrite (proj2 (Z.ltb_ge v 0)), !(proj2 (Z.ltb_ge MAX_POSTING_ORDINAL _)),
      (proj2 (Z.leb_gt v previous)) by lia.
    cbn [orb raise_if mbind res_bind]. rewrite varint_Ok, Hrest by lia. by eexists.
Qed.

Lemma decode_varint_suffix n i acc value d rest :
  decode_varint n i acc value = Ok (d, rest) -> exists pre, value = pre ++ rest.
Proof.
  revert i acc value. induction n as [|n IH]; intros i acc value; cbn [decode_varint]; [done|].
  destruct value as [|b value]; [done|]. cbv zeta. repeat case_match; try done.
  all: first [ intros [pre ->]%IH; by exists (b :: pre)
             | intros Heq; injection Heq as _ <-; by exists [b] ].
Qed.

(** A decoded delta is the canonical varint in front of the rest. *)
Lemma next_ordinal_inv previous max_ordinal value o rest :
  next_ordinal previous max_ordinal value = Ok (o, rest) ->
  value = varint_loop 10 (o - previous) ++ rest /\ 1 <= o - previous <= MAX_POSTING_ORDINAL /\
  o <= MAX_POSTING_ORDINAL /\ above_universe max_ordinal o = false.
Proof.
  unfold next_ordinal. intros ([d rest'] & Hd & H)%bind_Ok. inv_bind. simplify_eq. reflect_bools.
  match goal with H : _varint _ = _ |- _ => apply varint_inv in H as [Hrange ->] end.
  match goal with H : bool_decide _ = true |- _ => apply bool_decide_eq_true in H; rename H into Hcan end.
  apply decode_varint_suffix in Hd as [pre ->].
  rewrite zlen_app in Hcan. replace (zlen pre + zlen rest - zlen rest) with (zlen pre) in Hcan by lia.
  rewrite ztake_app_exact in Hcan by done.
  replace (previous + d - previous) with d by lia. rewrite <- Hcan. split_and!; done || lia.
Qed.

Lemma next_ordinal_varint previous max_ordinal o rest :
  1 <= o - previous <= MAX_POSTING_ORDINAL -> o <= MAX_POSTING_ORDINAL ->
  above_universe max_ordinal o = false ->
  next_ordinal previous max_ordinal (varint_loop 10 (o - previous) ++ rest) = Ok (o, rest).
Proof.
  intros Hd Ho Hmax. unfold next_ordinal. rewrite varint_decode by lia. cbn [mbind res_bind].
  rewrite varint_Ok by lia. cbn [mbind res_bind]. rewrite zlen_app.
  replace (zlen (varint_loop 10 (o - previous)) + zlen rest - zlen rest)
    with (zlen (varint_loop 10 (o - previous))) by lia.
  rewrite ztake_app_exact, bool_decide_true by done. cbn [negb raise_if mbind res_bind].
  rewrite (proj2 (Z.eqb_neq (o - previous) 0)), (proj2 (Z.ltb_ge _ previous)) by lia.
  cbn [raise_if mbind res_bind]. replace (previous + (o - previous)) with o by lia.
  by rewrite Hmax.
Qed.

(** The generator yields ordinals in the codec's range, in order. *)
Lemma iter_decoded_range fuel previous max_ordinal value os r :
  -1 <= previous -> iter_decoded_loop fuel previous max_ordinal value = (os, r) ->
  ordinals_ok previous os /\ Forall (fun o => above_universe max_ordinal o = false) os.
Proof.
  revert previous value os. induction fuel as [|fuel IH]; intros previous value os Hprev;
    cbn [iter_decoded_loop].
  { intros [= <- <-]. split; [apply ordinals_ok_nil|by apply Forall_nil_2]. }
  destruct value as [|b value]; [intros [= <- <-]; split; [apply ordinals_ok_nil|by apply Forall_nil_2]|].
  destruct (next_ordinal _ _ _) as [[o rest]|e] eqn:E;
    [|intros [= <- <-]; split; [apply ordinals_ok_nil|by apply Forall_nil_2]].
  apply next_ordinal_inv in E as (_ & Hd & Ho & Hmax).
  destruct (iter_decoded_loop fuel o max_ordinal rest) as [os' r'] eqn:Eloop.
  intros [= <- <-]. apply IH in Eloop as [Hok Hall]; [|lia].
  split; [|by constructor]. apply ordinals_ok_cons; [done|]. split_and!; done || lia.
Qed.

Lemma decode_encoded fuel previous max_ordinal vs bs :
  -1 <= previous -> encode_from previous vs = Ok bs ->
  Forall (fun o => above_universe max_ordinal o = false) vs -> (length bs < fuel)%nat ->
  iter_decoded_loop fuel previous max_ordinal bs = (vs, Ok tt).
Proof.
  revert previous bs fuel. induction vs as [|v vs IH]; intros previous bs fuel Hprev Henc Hall Hfuel.
  { injection Henc as <-. by destruct fuel; [simpl in Hfuel; lia|]. }
  cbn [encode_from] in Henc. inv_bind. reflect_bools.
  match goal with H : _varint _ = _ |- _ => apply varint_inv in H as [Hrange ->] end.
  match goal with H : encode_from v vs = Ok ?x |- _ => rename H into Hrest; set (rest := x) in * end.
  subst bs. apply Forall_cons in Hall as [Hv Hall].
  pose proof (varint_loop_nonempty 9 (v - previous)) as Hne.
  destruct fuel as [|fuel]; [lia|]. cbn [iter_decoded_loop].
  destruct (varint_loop 10 (v - previous) ++ rest) as [|b bs] eqn:Ebs.
  { by apply app_eq_nil in Ebs as [? _]. }
  rewrite <- Ebs, next_ordinal_varint by (done || lia).
  rewrite (IH v rest fuel); [done|lia|done|done|].
  rewrite <- Ebs, length_app in Hfuel. destruct (varint_loop 10 (v - previous)); [done|simpl in Hfuel; lia].
Qed.

Lemma encode_decoded fuel previous max_ordinal vs bs :
  -1 <= previous -> iter_decoded_loop fuel previous max_ordinal bs = (vs, Ok tt) ->
  encode_from previous vs = Ok bs.
Proof.
  revert previous bs vs. induction fuel as [|fuel IH]; intros previous bs vs Hprev;
    cbn [iter_decoded_loop]; [done|].
  destruct bs as [|b bs]; [by intros [= <-]|].
  destruct (next_ordinal _ _ _) as [[o rest]|e] eqn:E; [|done].
  apply next_ordinal_inv in E as (-> & Hd & Ho & Hmax).
  destruct (iter_decoded_loop fuel o max_ordinal rest) as [os r] eqn:Eloop.
  intros [= <- ->]. apply IH in Eloop; [|lia]. cbn [encode_from].
  rewrite (proj2 (Z.ltb_ge o 0)), !(proj2 (Z.ltb_ge MAX_POSTING_ORDINAL _)),
    (proj2 (Z.leb_gt o previous)) by lia.
  cbn [orb raise_if mbind res_bind]. by rewrite varint_Ok, Eloop by lia.
Qed.

Definition codec_error (e : exn) : Prop := exists message, e = PostingCodecError message.

Lemma decode_varint_error n i acc v e : decode_varint n i acc v = Err e -> codec_error e.
Proof.
  revert i acc v. induction n as [|n IH]; intros i acc v; cbn [decode_varint];
    [intros [= <-]; by eexists|].
  destruct v; [intros [= <-]; by eexists|]. cbv zeta.
  repeat case_match; try done; try (intros [= <-]; by eexists). apply IH.
Qed.

Lemma next_ordinal_error previous max_ordinal value e :
  next_ordinal previous max_ordinal value = Err e -> codec_error e.
Proof.
  unfold next_ordinal. destruct (decode_varint 10 0 0 value) as [[d rest]|e'] eqn:Ed;
    cbn [mbind res_bind]; [|intros [= <-]; by eapply decode_varint_error].
  destruct (_varint d) as [c|e'] eqn:Ev; cbn [mbind res_bind].
  - unfold raise_if. repeat (case_match; cbn [mbind res_bind]); intros [= <-]; by eexists.
  - intros [= <-]. unfold _varint in Ev. case_match; [|done]. injection Ev as <-. by eexists.
Qed.

(** Decoding terminates, since a delta takes at least one byte: it ends or
    raises a codec error. *)
Lemma iter_decoded_error fuel previous max_ordinal value e :
  (length value < fuel)%nat ->
  (iter_decoded_loop fuel previous max_ordinal value).2 = Err e -> codec_error e.
Proof.
  revert previous value. induction fuel as [|fuel IH]; intros previous value Hlen;
    cbn [iter_decoded_loop]; [lia|].
  destruct value as [|b value]; [done|].
  destruct (next_ordinal previous max_ordinal (b :: value)) as [[o rest]|e'] eqn:E.
  - apply next_ordinal_inv in E as (Heq & _).
    assert (length rest < fuel)%nat as Hrest.
    { apply (f_equal length) in Heq. rewrite length_app in Heq. simpl in Heq, Hlen.
      pose proof (varint_loop_nonempty 9 (o - previous)).
      destruct (varint_loop 10 (o - previous)); [done|simpl in Heq; lia]. }
    specialize (IH o rest Hrest). by destruct (iter_decoded_loop fuel o max_ordinal rest).
  - simpl. intros [= <-]. by eapply next_ordinal_error.
Qed.

Lemma iter_decoded_ordinals_error value max_ordinal e :
  (_iter_decoded_ordinals value max_ordinal).2 = Err e -> codec_error e.
Proof.
  unfold _iter_decoded_ordinals. repeat case_match; try (intros [= <-]; by eexists);
    apply iter_decoded_error; lia.
Qed.

(** An encoding decodes in every universe that holds its ordinals. *)
Lemma decode_ordinals_encoded values bs max_ordinal :
  (forall m, max_ordinal = Some m ->
     0 <= m <= MAX_POSTING_ORDINAL /\ Forall (fun v => v <= m) values) ->
  encode_ordinals values = Ok bs ->
  _iter_decoded_ordinals bs max_ordinal = (values, Ok tt).
Proof.
  intros Hmax Henc. unfold _iter_decoded_ordinals.
  assert (iter_decoded_loop (S (length bs)) (-1) max_ordinal bs = (values, Ok tt)) as Hloop.
  { apply decode_encoded; [lia|done| |lia]. destruct max_ordinal as [m|]; simpl.
    - destruct (Hmax m eq_refl) as [_ Hall]. eapply Forall_impl; [exact Hall|]. simpl. lia.
    - by apply Forall_true. }
  rewrite Hloop. destruct max_ordinal as [m|]; [|done]. destruct (Hmax m eq_refl) as [Hm _].
  by rewrite (proj2 (Z.leb_le 0 m)), (proj2 (Z.leb_le m _)) by lia.
Qed.

(** ** Properties *)

(** A byte string that decodes is the encoding of what it decodes to. *)
Lemma decoded_ordinals_canonical (bs : bytes) (max_ordinal : option Z) (values : list Z) :
  decode_ordinals bs max_ordinal = Ok values ->
  encode_ordinals values = Ok bs /\ StronglySorted Z.lt values /\
  Forall (fun v => 0 <= v <= MAX_POSTING_ORDINAL /\ above_universe max_ordinal v = false) values.
Proof.
  unfold decode_ordinals. intros H.
  assert (exists u, iter_decoded_loop (S (length bs)) (-1) max_ordinal bs = (values, Ok u)) as [[] Hloop].
  { unfold _iter_decoded_ordinals in H. destruct max_ordinal; [destruct (negb _); [done|]|];
      destruct (iter_decoded_loop _ _ _ _) as [os [u|e]]; simplify_eq; by exists u. }
  split; [by eapply encode_decoded; [|exact Hloop]; lia|].
  apply iter_decoded_range in Hloop as [(Hs & Hall & _) Huniv]; [|lia]. split; [done|].
  apply Forall_and. split; [|done]. eapply Forall_impl; [exact Hall|]. simpl. lia.
Qed.

(** C6: encoding and decoding of packet ordinals are inverse: encoding succeeds
    exactly on the strictly increasing 64-bit sequences whose first delta fits
    (the first ordinal is below [2 ** 64 - 1]), and decoding the result, under
    any universe that contains the ordinals, gives them back.  The encoding is
    canonical: a byte string decodes to at most one list, which is strictly
    increasing and within the universe, and encoding that list gives the same
    bytes back, so two different byte strings never stand for the same
    ordinals. *)
Theorem ordinals_round_trip (max_ordinal : option Z) :
  (forall values, is_Ok (encode_ordinals values) <-> ordinals_ok (-1) values) /\
  (forall values bs,
     (forall m, max_ordinal = Some m -> 0 <= m <= MAX_POSTING_ORDINAL /\ Forall (fun v => v <= m) values) ->
     encode_ordinals values = Ok bs -> decode_ordinals bs max_ordinal = Ok values) /\
  (forall bs values, decode_ordinals bs max_ordinal = Ok values ->
     encode_ordinals values = Ok bs /\ StronglySorted Z.lt values /\
     Forall (fun v => 0 <= v <= MAX_POSTING_ORDINAL /\ above_universe max_ordinal v = false) values).
Proof.
  split_and!; [intros values; by apply encode_from_Ok| |intros bs values; apply decoded_ordinals_canonical].
  intros values bs Hmax Henc. unfold decode_ordinals. by rewrite (decode_ordinals_encoded values bs max_ordinal).
Qed.

Lemma ordinals_round_trip_witness :
  exists bs, encode_ordinals [0; 1; 127; 300; 2 ^ 64 - 1] = Ok bs /\
    decode_ordinals bs (Some (2 ^ 64 - 1)) = Ok [0; 1; 127; 300; 2 ^ 64 - 1] /\
    encode_ordinals [4; 204] = Ok [x05; xc8; x01].
Proof.
  eexists. split; [vm_compute; reflexivity|]. split.
  - apply (ordinals_round_trip (Some (2 ^ 64 - 1))).
    + intros m [= <-]. split; [done|]. repeat constructor; simpl; done.
    + vm_compute. reflexivity.
  - apply (ordinals_round_trip (Some 300)). vm_compute. reflexivity.
Defined.
