(* ===== verification/PostingModel.v ===== *)
(** * PostingModel

    pcap_postings.py: the data of a posting generation, the canonical values of
    its dictionary, and the document its digest is taken over. *)

From S2P Require Import Prelude Bytes IpAddress PacketProjection ExportDecoder PostingCodec.
From Stdlib Require Import String Ascii.
#[local] Open Scope Z_scope.

Definition PCAP_POSTING_INDEX_SCHEMA_VERSION : Z := 1.
Definition PCAP_POSTING_INDEX_PARSER_CONTRACT_VERSION : Z := 1.
Definition PCAP_FILTER_CONTRACT_VERSION : Z := 1.

Inductive PostingDimension : Type :=
  | ALL_PACKET | SUPPORTED | SRC_ADDRESS | DST_ADDRESS
  | SRC_PORT | DST_PORT | PROTOCOL | HAS_PAYLOAD.

#[global] Instance PostingDimension_eq_dec : EqDecision PostingDimension.
Proof. solve_decision. Defined.

(** The [value] of the enumeration member. *)
Definition dimension_value (d : PostingDimension) : string :=
  match d with
  | ALL_PACKET => "ALL_PACKET" | SUPPORTED => "SUPPORTED"
  | SRC_ADDRESS => "SRC_ADDRESS" | DST_ADDRESS => "DST_ADDRESS"
  | SRC_PORT => "SRC_PORT" | DST_PORT => "DST_PORT"
  | PROTOCOL => "PROTOCOL" | HAS_PAYLOAD => "HAS_PAYLOAD"
  end.

Definition all_dimensions : list PostingDimension :=
  [ALL_PACKET; SUPPORTED; SRC_ADDRESS; DST_ADDRESS; SRC_PORT; DST_PORT; PROTOCOL; HAS_PAYLOAD].

Definition dimension_index (d : PostingDimension) : nat :=
  match d with
  | ALL_PACKET => 0 | SUPPORTED => 1 | SRC_ADDRESS => 2 | DST_ADDRESS => 3
  | SRC_PORT => 4 | DST_PORT => 5 | PROTOCOL => 6 | HAS_PAYLOAD => 7
  end%nat.

#[global, program] Instance PostingDimension_countable : Countable PostingDimension :=
  inj_countable dimension_index (fun n => all_dimensions !! n) _.
Next Obligation. by intros []. Qed.

(** A dictionary key: dimension and canonical value. *)
Abbreviation posting_key := (PostingDimension * bytes)%type (only parsing).

(** ** Limits *)

Record PostingBuildLimits : Type := mk_build_limits {
  pbl_max_packets : Z;
  pbl_max_memberships : Z;
  pbl_max_distinct_keys : Z;
  pbl_max_encoded_bytes : Z;
  pbl_max_chunks : Z;
  pbl_batch_size : Z;
}.

(** [PostingBuildLimits()] and its [__post_init__]. *)
Definition default_build_limits : PostingBuildLimits :=
  mk_build_limits 10000000 20000000 1000000 (512 * 1024 * 1024) 1000000 1000.

Definition min_limit (l : list Z) : Z := foldr Z.min (default 0 (head l)) l.

Definition PostingBuildLimits_post_init (l : PostingBuildLimits) : res PostingBuildLimits :=
  if min_limit [l.(pbl_max_packets); l.(pbl_max_memberships); l.(pbl_max_distinct_keys);
                l.(pbl_max_encoded_bytes); l.(pbl_max_chunks); l.(pbl_batch_size)] <=? 0
  then Err (ValueError "posting build limits must be positive") else Ok l.

Record PostingQueryLimits : Type := mk_query_limits {
  pql_max_operations : Z;
  pql_max_result_ordinals : Z;
  pql_max_decoded_memberships : Z;
  pql_max_directory_chunks : Z;
  pql_max_dictionary_terms : Z;
}.

Definition default_query_limits : PostingQueryLimits :=
  mk_query_limits 100000 100000 100000 100000 100000.

Definition PostingQueryLimits_post_init (l : PostingQueryLimits) : res PostingQueryLimits :=
  if min_limit [l.(pql_max_operations); l.(pql_max_result_ordinals);
                l.(pql_max_decoded_memberships); l.(pql_max_directory_chunks);
                l.(pql_max_dictionary_terms)] <=? 0
  then Err (ValueError "posting query limits must be positive") else Ok l.

(** ** Generations *)

Record PostingChunk : Type := {
  pc_dimension : PostingDimension;
  pc_value : bytes;
  pc_chunk_ordinal : Z;
  pc_first_packet_index : Z;
  pc_last_packet_index : Z;
  pc_count : Z;
  pc_encoded_ordinals : bytes;
}.

Definition pc_key (c : PostingChunk) : posting_key := (c.(pc_dimension), c.(pc_value)).

Record PacketPostingProjection : Type := {
  pr_packet_index : Z;
  pr_source_address : option bytes;
  pr_destination_address : option bytes;
  pr_source_port : option bytes;
  pr_destination_port : option bytes;
  pr_protocol : option bytes;
  pr_has_payload : option bytes;
  pr_supported : bool;
}.

Record PostingGeneration : Type := {
  pg_schema_version : Z;
  pg_parser_contract_version : Z;
  pg_filter_contract_version : Z;
  pg_packet_count : Z;
  pg_supported_count : Z;
  pg_membership_count : Z;
  pg_distinct_key_count : Z;
  pg_encoded_byte_count : Z;
  pg_complete_dimensions : gset PostingDimension;
  pg_chunks : list PostingChunk;
  pg_digest : string;
  pg_binding_document : bytes;
}.

Definition _ALL_DIMENSIONS : gset PostingDimension := list_to_set all_dimensions.

(** ** Canonical values *)

(** [s.encode("ascii")] and [b.decode("ascii")]. *)
Definition encode_ascii (s : string) : bytes := list_byte_of_string s.
Definition decode_ascii (b : bytes) : option string :=
  if forallb (fun x => b2z x <? 128) b then Some (string_of_list_byte b) else None.

Definition canonical_address (value : string) : res bytes :=
  match parse_ip_address value with
  | None => Err (ValueError ("'" +:+ value +:+ "' does not appear to be an IPv4 or IPv6 address"))
  | Some a => Ok (z2b (ip_version a) :: ip_packed a)
  end.

Definition canonical_port (value : Z) : res bytes :=
  if negb ((0 <=? value) && (value <=? 65535))
  then Err (ValueError "port must be an unsigned 16-bit integer")
  else Ok (to_be 2 value).

(** [str.upper] on ASCII text. *)
Definition ascii_upper (c : ascii) : ascii :=
  let n := Z.of_N (N_of_ascii c) in
  if (97 <=? n) && (n <=? 122) then ascii_of_N (Z.to_N (n - 32)) else c.

Definition str_map (f : ascii -> ascii) (s : string) : string :=
  string_of_list_ascii (f <$> list_ascii_of_string s).
Definition str_upper (s : string) : string := str_map ascii_upper s.

Definition is_upper (c : ascii) : bool := let n := N_of_ascii c in (65 <=? n)%N && (n <=? 90)%N.
Definition is_digit_char (c : ascii) : bool := let n := N_of_ascii c in (48 <=? n)%N && (n <=? 57)%N.
Definition is_underscore (c : ascii) : bool := (N_of_ascii c =? 95)%N.

(** [_PROTOCOL.fullmatch]: the second alternative of the pattern is covered by
    the first. *)
Definition protocol_pattern (s : string) : bool :=
  match list_ascii_of_string s with
  | [] => false
  | c :: cs => is_upper c && forallb (fun d => is_upper d || is_digit_char d || is_underscore d) cs
  end.

(** [int(text)] on digits and underscores: an underscore stands only between
    two digits. *)
Fixpoint int_digits (acc : Z) (after_digit : bool) (cs : list ascii) : option Z :=
  match cs with
  | [] => if after_digit then Some acc else None
  | c :: cs' =>
      if is_digit_char c then int_digits (acc * 10 + (Z.of_N (N_of_ascii c) - 48)) true cs'
      else if is_underscore c && after_digit then int_digits acc false cs'
      else None
  end.
Definition int_of_text (s : string) : option Z := int_digits 0 false (list_ascii_of_string s).

Fixpoint str_drop (n : nat) (s : string) : string :=
  match n, s with S n', String _ s' => str_drop n' s' | _, _ => s end.

Definition canonical_protocol (value : string) : res bytes :=
  let normalized := str_upper value in
  if negb (protocol_pattern normalized) then Err (ValueError "protocol is not canonicalizable")
  else if String.prefix "IP_" normalized then
    match int_of_text (str_drop 3 normalized) with
    | None => Err (ValueError ("invalid literal for int() with base 10: '" +:+
                                 str_drop 3 normalized +:+ "'"))
    | Some n =>
        if 255 <? n then Err (ValueError "IP protocol number must be at most 255")
        else Ok (encode_ascii normalized)
    end
  else Ok (encode_ascii normalized).

Definition canonical_payload (value : bool) : bytes := if value then [x01] else [x00].

Definition _valid_posting_value (dimension : PostingDimension) (value : bytes) : bool :=
  match dimension with
  | ALL_PACKET | SUPPORTED => bool_decide (value = [])
  | SRC_ADDRESS | DST_ADDRESS =>
      ((zlen value =? 5) && bool_decide (ztake 1 value = [x04]))
      || ((zlen value =? 17) && bool_decide (ztake 1 value = [x06]))
  | SRC_PORT | DST_PORT => zlen value =? 2
  | HAS_PAYLOAD => bool_decide (value = [x00]) || bool_decide (value = [x01])
  | PROTOCOL =>
      match decode_ascii value with
      | None => false
      | Some decoded =>
          match canonical_protocol decoded with
          | Ok canonical => bool_decide (canonical = value)
          | Err _ => false
          end
      end
  end.

(** ** Order of keys: [(item[0].value, item[1])] *)

Fixpoint bytes_leb (a b : bytes) : bool :=
  match a, b with
  | [], _ => true
  | _ :: _, [] => false
  | x :: a', y :: b' =>
      (b2z x <? b2z y) || ((b2z x =? b2z y) && bytes_leb a' b')
  end.

Definition key_leb (k1 k2 : posting_key) : bool :=
  match String.compare (dimension_value k1.1) (dimension_value k2.1) with
  | Lt => true
  | Gt => false
  | Eq => bytes_leb k1.2 k2.2
  end.

(** ** The digest document *)

Definition hex_digit (n : Z) : byte :=
  z2b (if n <? 10 then 48 + n else 87 + n).

(** [b.hex()] as ASCII bytes. *)
Definition hex (b : bytes) : bytes :=
  b ≫= fun x => [hex_digit (b2z x / 16); hex_digit (b2z x mod 16)].

Definition text (s : string) : bytes := encode_ascii s.
(** A JSON string without characters to escape, and a JSON integer. *)
Definition json_string (b : bytes) : bytes := [x22] ++ b ++ [x22].
Definition json_int (n : Z) : bytes := text (pretty n).

Fixpoint json_join (items : list bytes) : bytes :=
  match items with
  | [] => []
  | [x] => x
  | x :: items' => x ++ text "," ++ json_join items'
  end.

Definition json_field (name : string) (value : bytes) : bytes :=
  json_string (text name) ++ text ":" ++ value.

Definition str_leb (a b : string) : bool :=
  match String.compare a b with Gt => false | _ => true end.

Definition _digest_header (g : PostingGeneration) : bytes :=
  text "{" ++ json_join [
    json_field "binding" (json_string (hex g.(pg_binding_document)));
    json_field "complete_dimensions"
      (text "[" ++ json_join ((fun s => json_string (text s)) <$>
         sort_by str_leb (dimension_value <$> elements g.(pg_complete_dimensions))) ++ text "]");
    json_field "distinct_key_count" (json_int g.(pg_distinct_key_count));
    json_field "filter_contract_version" (json_int g.(pg_filter_contract_version));
    json_field "membership_count" (json_int g.(pg_membership_count));
    json_field "packet_count" (json_int g.(pg_packet_count));
    json_field "parser_contract_version" (json_int g.(pg_parser_contract_version));
    json_field "schema_version" (json_int g.(pg_schema_version));
    json_field "supported_count" (json_int g.(pg_supported_count))
  ] ++ text "}".

Record _LogicalPostingStats : Type := mk_stats {
  st_memberships : Z;
  st_encoded_bytes : Z;
  st_distinct_keys : Z;
  st_supported : Z;
  st_all_packets : Z;
}.

(** The counters and the document of [_stream_generation_digest_document]. *)
Record DigestState : Type := mk_digest_state {
  ds_document : bytes;
  ds_memberships : Z;
  ds_supported : Z;
  ds_all_packets : Z;
}.

Definition ds_update (part : bytes) (s : DigestState) : DigestState :=
  mk_digest_state (s.(ds_document) ++ part) s.(ds_memberships) s.(ds_supported)
    s.(ds_all_packets).

(** The loop state of one chunk: [logical_previous], [first], [last], [count]. *)
Record ChunkState : Type := mk_chunk_state {
  cs_logical_previous : Z;
  cs_first : option Z;
  cs_last : option Z;
  cs_count : Z;
}.

(** The body of [for ordinal in _iter_decoded_ordinals(...)]. *)
Definition digest_ordinal (dimension : PostingDimension) (ordinal : Z)
    (x : ChunkState * DigestState) : res (ChunkState * DigestState) :=
  let '(c, s) := x in
  _ ← raise_if (ordinal <=? c.(cs_logical_previous))
        (PostingCodecError "decoded chunks are not strictly increasing");
  delta ← _varint (ordinal - c.(cs_logical_previous));
  let s := ds_update (hex delta) s in
  let c := mk_chunk_state ordinal (match c.(cs_first) with None => Some ordinal | f => f end)
             (Some ordinal) (c.(cs_count) + 1) in
  _ ← raise_if (bool_decide (dimension = ALL_PACKET) && negb (ordinal =? s.(ds_all_packets)))
        (PostingCodecError "ALL_PACKET is not contiguous");
  Ok (c, mk_digest_state s.(ds_document) (s.(ds_memberships) + 1)
           (s.(ds_supported) + if bool_decide (dimension = SUPPORTED) then 1 else 0)
           (s.(ds_all_packets) + if bool_decide (dimension = ALL_PACKET) then 1 else 0)).

Fixpoint digest_ordinals (dimension : PostingDimension) (ordinals : list Z)
    (x : ChunkState * DigestState) : res (ChunkState * DigestState) :=
  match ordinals with
  | [] => Ok x
  | o :: ordinals' => x' ← digest_ordinal dimension o x; digest_ordinals dimension ordinals' x'
  end.

Definition digest_chunk (dimension : PostingDimension) (packet_count expected_chunk : Z)
    (chunk : PostingChunk) (x : Z * DigestState) : res (Z * DigestState) :=
  let '(logical_previous, s) := x in
  let '(ordinals, r) :=
    _iter_decoded_ordinals chunk.(pc_encoded_ordinals) (Some (packet_count - 1)) in
  '(c, s) ← digest_ordinals dimension ordinals (mk_chunk_state logical_previous None None 0, s);
  _ ← r;
  _ ← raise_if (negb (chunk.(pc_chunk_ordinal) =? expected_chunk) || (c.(cs_count) <? 1)
                || negb (c.(cs_count) =? chunk.(pc_count))
                || negb (bool_decide (c.(cs_first) = Some chunk.(pc_first_packet_index)))
                || negb (bool_decide (c.(cs_last) = Some chunk.(pc_last_packet_index))))
        (PostingCodecError "posting chunk metadata does not match ordinals");
  Ok (c.(cs_logical_previous), s).

Fixpoint digest_chunks (dimension : PostingDimension) (packet_count expected_chunk : Z)
    (chunks : list PostingChunk) (x : Z * DigestState) : res (Z * DigestState) :=
  match chunks with
  | [] => Ok x
  | chunk :: chunks' =>
      x' ← digest_chunk dimension packet_count expected_chunk chunk x;
      digest_chunks dimension packet_count (expected_chunk + 1) chunks' x'
  end.

(** The chunks of a key, in the order they appear. *)
Definition directory_add (chunk : PostingChunk) (d : gmap posting_key (list PostingChunk))
    : gmap posting_key (list PostingChunk) :=
  <[pc_key chunk := default [] (d !! pc_key chunk) ++ [chunk]]> d.
Definition directory_of (chunks : list PostingChunk) : gmap posting_key (list PostingChunk) :=
  fold_left (fun d c => directory_add c d) chunks ∅.

Definition chunk_ordinal_leb (a b : PostingChunk) : bool :=
  a.(pc_chunk_ordinal) <=? b.(pc_chunk_ordinal).

(** The [(dimension, value)] line of the document. *)
Definition digest_key (packet_count : Z) (directory : gmap posting_key (list PostingChunk))
    (key : posting_key) (s : DigestState) : res DigestState :=
  let '(dimension, value) := key in
  _ ← raise_if (negb (_valid_posting_value dimension value))
        (PostingCodecError "posting dictionary value is not canonical");
  let q := [x22] in
  let s := ds_update (text "{" ++ q ++ text "dimension" ++ q ++ text ":") s in
  let s := ds_update (json_string (text (dimension_value dimension))) s in
  let s := ds_update (text "," ++ q ++ text "ordinals" ++ q ++ text ":" ++ q) s in
  let ordered := sort_by chunk_ordinal_leb (default [] (directory !! key)) in
  '(_, s) ← digest_chunks dimension packet_count 0 ordered (-1, s);
  let s := ds_update (q ++ text "," ++ q ++ text "value" ++ q ++ text ":") s in
  let s := ds_update (json_string (hex value)) s in
  Ok (ds_update (text "}" ++ [x0a]) s).

Fixpoint digest_keys (packet_count : Z) (directory : gmap posting_key (list PostingChunk))
    (keys : list posting_key) (s : DigestState) : res DigestState :=
  match keys with
  | [] => Ok s
  | key :: keys' =>
      s' ← digest_key packet_count directory key s;
      digest_keys packet_count directory keys' s'
  end.

Definition _DIGEST_DOMAIN : bytes := text "c2hunter-pcap-posting-index-v1" ++ [x0a].

(** The document, and the statistics of the decoded chunks. *)
Definition _stream_generation_digest_document (g : PostingGeneration)
    : res (bytes * _LogicalPostingStats) :=
  let directory := directory_of g.(pg_chunks) in
  let encoded_bytes := foldr Z.add 0 ((fun c => zlen c.(pc_encoded_ordinals)) <$> g.(pg_chunks)) in
  let keys := sort_by key_leb (elements (dom directory)) in
  s ← digest_keys g.(pg_packet_count) directory keys
        (mk_digest_state (_DIGEST_DOMAIN ++ _digest_header g ++ [x0a]) 0 0 0);
  Ok (s.(ds_document),
      mk_stats s.(ds_memberships) encoded_bytes (zlen keys) s.(ds_supported) s.(ds_all_packets)).

Section digest.
(** [hashlib.sha256(...).hexdigest()]. *)
Context (sha256_hex : bytes -> string).

Definition _generation_digest (g : PostingGeneration) : res string :=
  '(document, _) ← _stream_generation_digest_document g; Ok (sha256_hex document).
End digest.
