(* ===== verification/PostingBuild.v ===== *)
(** * PostingBuild

    pcap_postings.py: [build_packet_postings], which consumes one export
    decoder against the structural index and returns a posting generation, and
    [posting_values] and [validate_posting_generation] on generations. *)

From S2P Require Import Prelude Bytes IpAddress PacketProjection StructuralIndex ExportDecoder.
From S2P Require Import PostingCodec PostingModel.

(** ** One packet *)

Definition _same_interface (decoded : CaptureInterface) (structural : StructuralInterfaceEntry)
    : bool :=
  (decoded.(ci_section_index) =? structural.(sie_section_index))
  && (decoded.(ci_interface_id) =? structural.(sie_interface_id))
  && (decoded.(ci_interface_ordinal) =? structural.(sie_interface_ordinal))
  && (decoded.(ci_link_type) =? structural.(sie_link_type))
  && (decoded.(ci_snaplen) =? structural.(sie_snaplen))
  && (decoded.(ci_timestamp_resolution_numerator)
      =? structural.(sie_timestamp_resolution_numerator))
  && (decoded.(ci_timestamp_resolution_denominator)
      =? structural.(sie_timestamp_resolution_denominator))
  && (decoded.(ci_timestamp_offset_seconds) =? structural.(sie_timestamp_offset_seconds)).

(** [f(value) if supported and value else None], for text, where the empty text
    counts as absent, and for ports and the payload flag, where it does not. *)
Definition canonical_text (f : string -> res bytes) (supported : bool) (value : option string)
    : res (option bytes) :=
  match supported, value with
  | true, Some s => if bool_decide (s = ""%string) then Ok None else b ← f s; Ok (Some b)
  | _, _ => Ok None
  end.

Definition canonical_opt {A} (f : A -> res bytes) (supported : bool) (value : option A)
    : res (option bytes) :=
  match supported, value with
  | true, Some v => b ← f v; Ok (Some b)
  | _, _ => Ok None
  end.

Definition _projection (packet : ExportPacket) : res PacketPostingProjection :=
  let p := packet.(ep_projection) in
  let supported := p.(pp_supported) in
  source_address ← canonical_text canonical_address supported p.(pp_source_ip);
  destination_address ← canonical_text canonical_address supported p.(pp_destination_ip);
  source_port ← canonical_opt canonical_port supported p.(pp_source_port);
  destination_port ← canonical_opt canonical_port supported p.(pp_destination_port);
  protocol ← canonical_text canonical_protocol supported p.(pp_protocol);
  has_payload ← canonical_opt (fun v => Ok (canonical_payload v)) supported p.(pp_has_payload);
  Ok {|
    pr_packet_index := packet.(ep_locator).(loc_packet_index);
    pr_source_address := source_address;
    pr_destination_address := destination_address;
    pr_source_port := source_port;
    pr_destination_port := destination_port;
    pr_protocol := protocol;
    pr_has_payload := has_payload;
    pr_supported := supported;
  |}.

Definition membership (dimension : PostingDimension) (value : option bytes) : list posting_key :=
  match value with Some v => [(dimension, v)] | None => [] end.

Definition _projection_memberships (item : PacketPostingProjection) : list posting_key :=
  (ALL_PACKET, []) ::
  if negb item.(pr_supported) then []
  else
    (SUPPORTED, []) ::
    membership SRC_ADDRESS item.(pr_source_address)
    ++ membership DST_ADDRESS item.(pr_destination_address)
    ++ membership SRC_PORT item.(pr_source_port)
    ++ membership DST_PORT item.(pr_destination_port)
    ++ membership PROTOCOL item.(pr_protocol)
    ++ membership HAS_PAYLOAD item.(pr_has_payload).

(** ** The build *)

Record BuildState : Type := mk_build {
  b_chunks : list PostingChunk;
  b_next_chunk : gmap posting_key Z;
  b_distinct : gset posting_key;
  b_memberships : Z;
  b_encoded_bytes : Z;
  b_supported : Z;
  b_count : Z;
  b_batch : gmap posting_key (list Z);
}.

Definition build_initial : BuildState := mk_build [] ∅ ∅ 0 0 0 0 ∅.

(** The chunk of a key's open batch. *)
Definition batch_chunk (st : BuildState) (key : posting_key) : res PostingChunk :=
  let ordinals := default [] (st.(b_batch) !! key) in
  encoded ← encode_ordinals ordinals;
  Ok {|
    pc_dimension := key.1;
    pc_value := key.2;
    pc_chunk_ordinal := default 0 (st.(b_next_chunk) !! key);
    pc_first_packet_index := default 0 (head ordinals);
    pc_last_packet_index := default 0 (last ordinals);
    pc_count := zlen ordinals;
    pc_encoded_ordinals := encoded;
  |}.

Fixpoint batch_chunks (st : BuildState) (keys : list posting_key) : res (list PostingChunk) :=
  match keys with
  | [] => Ok []
  | key :: keys' => c ← batch_chunk st key; cs ← batch_chunks st keys'; Ok (c :: cs)
  end.

Definition chunks_bytes (chunks : list PostingChunk) : Z :=
  foldr Z.add 0 ((fun c => zlen c.(pc_encoded_ordinals)) <$> chunks).

Definition bump_chunk (next : gmap posting_key Z) (c : PostingChunk) : gmap posting_key Z :=
  <[pc_key c := default 0 (next !! pc_key c) + 1]> next.

Definition flush (limits : PostingBuildLimits) (st : BuildState) : res BuildState :=
  pending ← batch_chunks st (sort_by key_leb (elements (dom st.(b_batch))));
  let pending_bytes := chunks_bytes pending in
  _ ← raise_if (limits.(pbl_max_encoded_bytes) <? st.(b_encoded_bytes) + pending_bytes)
        (PostingResourceLimitError "posting encoded-byte limit exceeded");
  _ ← raise_if (limits.(pbl_max_chunks) <? zlen st.(b_chunks) + zlen pending)
        (PostingResourceLimitError "posting chunk limit exceeded");
  Ok (mk_build (st.(b_chunks) ++ pending) (fold_left bump_chunk pending st.(b_next_chunk))
        st.(b_distinct) st.(b_memberships) (st.(b_encoded_bytes) + pending_bytes)
        st.(b_supported) st.(b_count) ∅).

Definition structural_mismatch : exn :=
  PostingStructuralMismatchError "posting source does not match structural snapshot".

(** The comparison of a decoded packet with the structural entry. *)
Definition packet_matches (interface_by_ordinal : gmap Z StructuralInterfaceEntry)
    (expected : StructuralPacketEntry) (packet : ExportPacket) : bool :=
  let locator := packet.(ep_locator) in
  let interface := packet.(ep_interface) in
  (locator.(loc_packet_index) =? expected.(spe_packet_index))
  && (locator.(loc_record_offset) =? expected.(spe_record_offset))
  && (locator.(loc_data_offset) =? expected.(spe_data_offset))
  && (locator.(loc_captured_length) =? expected.(spe_captured_length))
  && (locator.(loc_framed_length) =? expected.(spe_framed_length))
  && (packet.(ep_original_length) =? expected.(spe_original_length))
  && match interface_by_ordinal !! expected.(spe_interface_ordinal) with
     | None => false
     | Some structural_interface =>
         (expected.(spe_section_index) =? interface.(ci_section_index))
         && (expected.(spe_interface_id) =? interface.(ci_interface_id))
         && (expected.(spe_interface_ordinal) =? interface.(ci_interface_ordinal))
         && _same_interface interface structural_interface
     end.

Definition batch_append (count : Z) (batch : gmap posting_key (list Z)) (key : posting_key)
    : gmap posting_key (list Z) :=
  <[key := default [] (batch !! key) ++ [count]]> batch.

(** [distinct.update(new_keys)] to [count += 1]. *)
Definition push_packet (projection : PacketPostingProjection) (st : BuildState) : BuildState :=
  let packet_memberships := _projection_memberships projection in
  let new_keys := filter (fun key => key ∉ st.(b_distinct)) packet_memberships in
  mk_build st.(b_chunks) st.(b_next_chunk)
    (st.(b_distinct) ∪ list_to_set new_keys)
    (st.(b_memberships) + zlen packet_memberships) st.(b_encoded_bytes)
    (st.(b_supported) + if projection.(pr_supported) then 1 else 0) (st.(b_count) + 1)
    (fold_left (batch_append st.(b_count)) packet_memberships st.(b_batch)).

(** The body of [for packet in decoder.iter_packets()]. *)
Definition build_packet (limits : PostingBuildLimits)
    (interface_by_ordinal : gmap Z StructuralInterfaceEntry)
    (structural_packets : list StructuralPacketEntry) (packet : ExportPacket) (st : BuildState)
    : res BuildState :=
  _ ← raise_if (limits.(pbl_max_packets) <=? st.(b_count))
        (PostingResourceLimitError "posting packet limit exceeded");
  match structural_packets !! Z.to_nat st.(b_count) with
  | None => Err (PostingStructuralMismatchError "decoder produced extra packet")
  | Some expected =>
      _ ← raise_if (negb (packet_matches interface_by_ordinal expected packet))
            structural_mismatch;
      projection ← _projection packet;
      let packet_memberships := _projection_memberships projection in
      _ ← raise_if (limits.(pbl_max_memberships) <? st.(b_memberships) + zlen packet_memberships)
            (PostingResourceLimitError "posting membership limit exceeded");
      let new_keys := filter (fun key => key ∉ st.(b_distinct)) packet_memberships in
      _ ← raise_if (limits.(pbl_max_distinct_keys)
                    <? Z.of_nat (size st.(b_distinct)) + zlen new_keys)
            (PostingResourceLimitError "posting distinct-key limit exceeded");
      let st' := push_packet projection st in
      if st'.(b_count) mod limits.(pbl_batch_size) =? 0 then flush limits st' else Ok st'
  end.

Fixpoint build_packets (limits : PostingBuildLimits)
    (interface_by_ordinal : gmap Z StructuralInterfaceEntry)
    (structural_packets : list StructuralPacketEntry) (packets : list ExportPacket)
    (st : BuildState) : res BuildState :=
  match packets with
  | [] => Ok st
  | packet :: packets' =>
      st' ← build_packet limits interface_by_ordinal structural_packets packet st;
      build_packets limits interface_by_ordinal structural_packets packets' st'
  end.

Definition interface_map (interfaces : list StructuralInterfaceEntry)
    : gmap Z StructuralInterfaceEntry :=
  fold_left (fun m i => <[i.(sie_interface_ordinal) := i]> m) interfaces ∅.

(** ** Reading and checking a generation *)

Fixpoint decode_chunks (packet_count : Z) (chunks : list PostingChunk) : res (list Z) :=
  match chunks with
  | [] => Ok []
  | c :: cs =>
      ordinals ← decode_ordinals c.(pc_encoded_ordinals) (Some (packet_count - 1));
      rest ← decode_chunks packet_count cs;
      Ok (ordinals ++ rest)
  end.

Definition posting_values (g : PostingGeneration) (dimension : PostingDimension) (value : bytes)
    : res (list Z) :=
  decode_chunks g.(pg_packet_count)
    (sort_by chunk_ordinal_leb
       (filter (fun c => pc_key c = (dimension, value)) g.(pg_chunks))).

(** [re.fullmatch(r"[0-9a-f]{64}", digest)] *)
Definition is_hex_char (c : Ascii.ascii) : bool :=
  let n := Ascii.N_of_ascii c in
  ((48 <=? n)%N && (n <=? 57)%N) || ((97 <=? n)%N && (n <=? 102)%N).
Definition is_sha256_hex (s : string) : bool :=
  Nat.eqb (String.length s) 64 && forallb is_hex_char (String.list_ascii_of_string s).

(** The scalar checks of [validate_posting_generation]. *)
Definition generation_header_ok (limits : PostingBuildLimits) (g : PostingGeneration) : bool :=
  forallb (fun item => 0 <=? item)
    [g.(pg_packet_count); g.(pg_supported_count); g.(pg_membership_count);
     g.(pg_distinct_key_count); g.(pg_encoded_byte_count)]
  && (g.(pg_schema_version) =? PCAP_POSTING_INDEX_SCHEMA_VERSION)
  && (g.(pg_parser_contract_version) =? PCAP_POSTING_INDEX_PARSER_CONTRACT_VERSION)
  && (g.(pg_filter_contract_version) =? PCAP_FILTER_CONTRACT_VERSION)
  && (1 <=? g.(pg_packet_count))
  && (g.(pg_packet_count) <=? Z.min limits.(pbl_max_packets) (MAX_POSTING_ORDINAL + 1))
  && (g.(pg_supported_count) <=? g.(pg_packet_count))
  && (g.(pg_membership_count) <=? limits.(pbl_max_memberships))
  && (g.(pg_distinct_key_count) <=? limits.(pbl_max_distinct_keys))
  && (g.(pg_encoded_byte_count) <=? limits.(pbl_max_encoded_bytes))
  && (zlen g.(pg_chunks) <=? limits.(pbl_max_chunks))
  && (zlen g.(pg_chunks) <=? g.(pg_membership_count))
  && (zlen g.(pg_binding_document) <=? limits.(pbl_max_encoded_bytes))
  && bool_decide (g.(pg_complete_dimensions) = _ALL_DIMENSIONS)
  && is_sha256_hex g.(pg_digest).

Definition chunk_declaration_ok (packet_count : Z) (c : PostingChunk) : bool :=
  _valid_posting_value c.(pc_dimension) c.(pc_value)
  && negb (bool_decide (c.(pc_encoded_ordinals) = []))
  && (0 <=? c.(pc_chunk_ordinal))
  && (1 <=? c.(pc_count))
  && (0 <=? c.(pc_first_packet_index))
  && (c.(pc_first_packet_index) <=? c.(pc_last_packet_index))
  && (c.(pc_last_packet_index) <? packet_count).

(** The [for chunk in generation.chunks] loop: declared memberships, encoded
    bytes and keys; [None] when it returns [False]. *)
Fixpoint declared_totals (g : PostingGeneration) (chunks : list PostingChunk)
    (memberships encoded_bytes : Z) (keys : gset posting_key) : option (Z * Z * gset posting_key) :=
  match chunks with
  | [] => Some (memberships, encoded_bytes, keys)
  | c :: chunks' =>
      if negb (chunk_declaration_ok g.(pg_packet_count) c) then None
      else
        let memberships := memberships + c.(pc_count) in
        let encoded_bytes := encoded_bytes + zlen c.(pc_encoded_ordinals) in
        let keys := {[pc_key c]} ∪ keys in
        if (g.(pg_membership_count) <? memberships) || (g.(pg_encoded_byte_count) <? encoded_bytes)
           || (g.(pg_distinct_key_count) <? Z.of_nat (size keys))
        then None
        else declared_totals g chunks' memberships encoded_bytes keys
  end.

Section build.
(** [hashlib.sha256(...).hexdigest()]. *)
Context (sha256_hex : bytes -> string).

Definition validate_posting_generation (g : PostingGeneration) (limits : PostingBuildLimits)
    : bool :=
  generation_header_ok limits g
  && match declared_totals g g.(pg_chunks) 0 0 ∅ with
     | None => false
     | Some (memberships, encoded_bytes, keys) =>
         (memberships =? g.(pg_membership_count))
         && (encoded_bytes =? g.(pg_encoded_byte_count))
         && (Z.of_nat (size keys) =? g.(pg_distinct_key_count))
         && match _stream_generation_digest_document g with
            | Err _ => false
            | Ok (document, stats) =>
                (stats.(st_memberships) =? g.(pg_membership_count))
                && (stats.(st_encoded_bytes) =? g.(pg_encoded_byte_count))
                && (stats.(st_distinct_keys) =? g.(pg_distinct_key_count))
                && (stats.(st_supported) =? g.(pg_supported_count))
                && (stats.(st_all_packets) =? g.(pg_packet_count))
                && bool_decide (sha256_hex document = g.(pg_digest))
            end
     end.

Definition generation_of (st : BuildState) (binding_document : bytes) (digest : string)
    : PostingGeneration := {|
  pg_schema_version := PCAP_POSTING_INDEX_SCHEMA_VERSION;
  pg_parser_contract_version := PCAP_POSTING_INDEX_PARSER_CONTRACT_VERSION;
  pg_filter_contract_version := PCAP_FILTER_CONTRACT_VERSION;
  pg_packet_count := st.(b_count);
  pg_supported_count := st.(b_supported);
  pg_membership_count := st.(b_memberships);
  pg_distinct_key_count := Z.of_nat (size st.(b_distinct));
  pg_encoded_byte_count := st.(b_encoded_bytes);
  pg_complete_dimensions := _ALL_DIMENSIONS;
  pg_chunks := st.(b_chunks);
  pg_digest := digest;
  pg_binding_document := binding_document;
|}.

(** [decoded] is what consuming [decoder.iter_packets()] gives: the packets
    yielded, then how the generator ended. *)
Definition build_packet_postings (decoded : list ExportPacket * res unit)
    (structural_packets : list StructuralPacketEntry)
    (structural_interfaces : list StructuralInterfaceEntry) (limits : PostingBuildLimits)
    (binding_document : bytes) : res PostingGeneration :=
  let interface_by_ordinal := interface_map structural_interfaces in
  _ ← raise_if (negb (Z.of_nat (size interface_by_ordinal) =? zlen structural_interfaces))
        (PostingStructuralMismatchError "structural interface identities are invalid");
  st ← build_packets limits interface_by_ordinal structural_packets decoded.1 build_initial;
  _ ← decoded.2;
  st ← flush limits st;
  _ ← raise_if (negb (st.(b_count) =? zlen structural_packets) || (st.(b_count) <? 1))
        (PostingStructuralMismatchError
           "decoder packet count does not match structural snapshot");
  digest ← _generation_digest sha256_hex (generation_of st binding_document "");
  let g := generation_of st binding_document digest in
  if validate_posting_generation g default_build_limits then Ok g
  else Err (PostingBuildError "built posting generation failed validation"
              "POSTING_INTEGRITY_MISMATCH").
End build.
