(* ===== verification/OffsetIndex.v ===== *)
(** * OffsetIndex

    pcap_offset_index.py: the identity of a capture source, the binding of an
    index to it, the stored snapshot of a structural index with its digest, and
    the validation every reader of a snapshot runs first.

    Integers of the snapshot are Python integers, so the checks that a value has
    type [int] hold by typing, as do the checks of the two [Literal] fields.
    Text is ASCII. *)

From Stdlib Require Import String Ascii.
From S2P Require Import Prelude Bytes Reader CaptureFormat StructuralIndex PyFloat.
From S2P Require Import PostingModel PostingBuild.
#[local] Open Scope Z_scope.

Definition PCAP_OFFSET_INDEX_SCHEMA_VERSION : Z := 1.
Definition PCAP_OFFSET_INDEX_PARSER_CONTRACT_VERSION : Z := 1.

Definition _MAX_U64 : Z := 2 ^ 64 - 1.
Definition _MIN_I64 : Z := - 2 ^ 63.

(** ** Sources and bindings *)

Inductive source_kind : Type := PCAP_UPLOAD | LIVE_SEGMENT.

#[export] Instance source_kind_eq_dec : EqDecision source_kind.
Proof. solve_decision. Defined.

Definition source_kind_value (k : source_kind) : string :=
  match k with PCAP_UPLOAD => "PCAP_UPLOAD" | LIVE_SEGMENT => "LIVE_SEGMENT" end.

Record CaptureSourceVersion : Type := mk_source_version {
  csv_source_kind : source_kind;
  csv_source_id : string;
  csv_object_key : string;
  csv_source_version_id : string;
  csv_source_size_bytes : Z;
  csv_source_sha256 : string;
}.

#[export] Instance CaptureSourceVersion_eq_dec : EqDecision CaptureSourceVersion.
Proof. solve_decision. Defined.

Definition is_empty (s : string) : bool := bool_decide (s = ""%string).

Definition CaptureSourceVersion_post_init (s : CaptureSourceVersion) : res unit :=
  _ ← raise_if (is_empty s.(csv_source_id) || is_empty s.(csv_object_key)
                || is_empty s.(csv_source_version_id))
        (ValueError "invalid capture source version identity");
  _ ← raise_if ((s.(csv_source_size_bytes) <? 0) || (_MAX_I64 <? s.(csv_source_size_bytes)))
        (ValueError "invalid capture source version size");
  raise_if (negb (is_sha256_hex s.(csv_source_sha256)))
    (ValueError "capture source SHA-256 must be lowercase hexadecimal").

Record SourceIndexBinding : Type := mk_binding {
  sib_source_kind : source_kind;
  sib_source_id : string;
  sib_source_version_id : string;
  sib_source_size_bytes : Z;
  sib_source_sha256 : string;
  sib_capture_format : capture_format;
  sib_schema_version : Z;
  sib_parser_contract_version : Z;
}.

#[export] Instance SourceIndexBinding_eq_dec : EqDecision SourceIndexBinding.
Proof. solve_decision. Defined.

Definition SourceIndexBinding_post_init (b : SourceIndexBinding) : res unit :=
  _ ← raise_if (is_empty b.(sib_source_id) || is_empty b.(sib_source_version_id))
        (ValueError "invalid structural index source identity");
  _ ← raise_if ((b.(sib_source_size_bytes) <? 0) || (_MAX_I64 <? b.(sib_source_size_bytes)))
        (ValueError "invalid structural index source size");
  raise_if (negb (is_sha256_hex b.(sib_source_sha256)))
    (ValueError "source SHA-256 must be lowercase hexadecimal").

Record StructuralIndexSnapshot : Type := mk_snapshot {
  sis_build_id : string;
  sis_binding : SourceIndexBinding;
  sis_created_at : Datetime;
  sis_index_sha256 : string;
  sis_interfaces : list StructuralInterfaceEntry;
  sis_packets : list StructuralPacketEntry;
}.

#[export] Instance StructuralIndexSnapshot_eq_dec : EqDecision StructuralIndexSnapshot.
Proof. solve_decision. Defined.

(** ** Identities *)

Inductive IndexAvailability : Type := READY | MISSING | STALE | CORRUPT | UNSUPPORTED_SCHEMA.

#[export] Instance IndexAvailability_eq_dec : EqDecision IndexAvailability.
Proof. solve_decision. Defined.

Record StructuralIndexIdentity : Type := mk_index_identity {
  sii_build_id : string;
  sii_binding : SourceIndexBinding;
  sii_created_at : Datetime;
  sii_index_sha256 : string;
}.

#[export] Instance StructuralIndexIdentity_eq_dec : EqDecision StructuralIndexIdentity.
Proof. solve_decision. Defined.

(** [StructuralIndexLookup] and [StructuralIndexIdentityLookup]. *)
Record StructuralIndexLookup : Type := mk_index_lookup {
  sil_availability : IndexAvailability;
  sil_snapshot : option StructuralIndexSnapshot;
}.
Record StructuralIndexIdentityLookup : Type := mk_index_identity_lookup {
  siil_availability : IndexAvailability;
  siil_identity : option StructuralIndexIdentity;
}.

Definition structural_index_identity (s : StructuralIndexSnapshot) : StructuralIndexIdentity :=
  mk_index_identity s.(sis_build_id) s.(sis_binding) s.(sis_created_at) s.(sis_index_sha256).

(** The versions of the binding are the current ones. *)
Definition current_versions (b : SourceIndexBinding) : bool :=
  (b.(sib_schema_version) =? PCAP_OFFSET_INDEX_SCHEMA_VERSION)
  && (b.(sib_parser_contract_version) =? PCAP_OFFSET_INDEX_PARSER_CONTRACT_VERSION).

(** The binding names exactly this version of this source. *)
Definition binds (b : SourceIndexBinding) (s : CaptureSourceVersion) : bool :=
  bool_decide (b.(sib_source_kind) = s.(csv_source_kind))
  && bool_decide (b.(sib_source_id) = s.(csv_source_id))
  && bool_decide (b.(sib_source_version_id) = s.(csv_source_version_id))
  && (b.(sib_source_size_bytes) =? s.(csv_source_size_bytes))
  && bool_decide (b.(sib_source_sha256) = s.(csv_source_sha256)).

Definition structural_index_identity_availability (identity : StructuralIndexIdentity)
    (source : CaptureSourceVersion) : IndexAvailability :=
  if negb (current_versions identity.(sii_binding)) then UNSUPPORTED_SCHEMA
  else if negb (binds identity.(sii_binding) source) then STALE
  else if is_empty identity.(sii_build_id) || negb identity.(sii_created_at).(dt_aware)
          || negb (is_sha256_hex identity.(sii_index_sha256)) then CORRUPT
  else READY.

(** ** The digest *)

(** [json.dumps] of a string, [ensure_ascii]. *)
Definition json_char (b : byte) : bytes :=
  if bool_decide (b = x22) then text "\" ++ [x22]
  else if bool_decide (b = x5c) then text "\\"
  else if bool_decide (b = x0a) then text "\n"
  else if bool_decide (b = x0d) then text "\r"
  else if bool_decide (b = x09) then text "\t"
  else if bool_decide (b = x08) then text "\b"
  else if bool_decide (b = x0c) then text "\f"
  else if b2z b <? 32 then text "\u00" ++ hex [b]
  else [b].

Definition json_text (s : string) : bytes := json_string (text s ≫= json_char).

Definition json_object (fields : list (string * bytes)) : bytes :=
  text "{" ++ json_join ((fun '(k, v) => json_field k v) <$> fields) ++ text "}".

Definition capture_format_value (f : capture_format) : string :=
  match f with PCAP => "PCAP" | PCAPNG => "PCAPNG" end.

(** Keys in order, as [sort_keys] writes them. *)
Definition binding_document (b : SourceIndexBinding) : bytes :=
  json_object [
    ("capture_format", json_text (capture_format_value b.(sib_capture_format)));
    ("parser_contract_version", json_int b.(sib_parser_contract_version));
    ("schema_version", json_int b.(sib_schema_version));
    ("source_id", json_text b.(sib_source_id));
    ("source_kind", json_text (source_kind_value b.(sib_source_kind)));
    ("source_sha256", json_text b.(sib_source_sha256));
    ("source_size_bytes", json_int b.(sib_source_size_bytes));
    ("source_version_id", json_text b.(sib_source_version_id))]%string.

Definition interface_document (i : StructuralInterfaceEntry) : bytes :=
  json_object [
    ("interface_id", json_int i.(sie_interface_id));
    ("interface_ordinal", json_int i.(sie_interface_ordinal));
    ("link_type", json_int i.(sie_link_type));
    ("section_index", json_int i.(sie_section_index));
    ("snaplen", json_int i.(sie_snaplen));
    ("timestamp_offset_seconds", json_int i.(sie_timestamp_offset_seconds));
    ("timestamp_resolution_denominator", json_int i.(sie_timestamp_resolution_denominator));
    ("timestamp_resolution_numerator", json_int i.(sie_timestamp_resolution_numerator))]%string.

Definition packet_document (p : StructuralPacketEntry) : bytes :=
  json_object [
    ("captured_length", json_int p.(spe_captured_length));
    ("data_offset", json_int p.(spe_data_offset));
    ("framed_length", json_int p.(spe_framed_length));
    ("interface_id", json_int p.(spe_interface_id));
    ("interface_ordinal", json_int p.(spe_interface_ordinal));
    ("original_length", json_int p.(spe_original_length));
    ("packet_index", json_int p.(spe_packet_index));
    ("raw_timestamp_ticks", json_int p.(spe_raw_timestamp_ticks));
    ("record_offset", json_int p.(spe_record_offset));
    ("section_index", json_int p.(spe_section_index))]%string.

Definition index_document (b : SourceIndexBinding) (interfaces : list StructuralInterfaceEntry)
    (packets : list StructuralPacketEntry) : bytes :=
  text "c2hunter-pcap-offset-index-v1" ++ [x0a] ++ binding_document b ++ [x0a]
  ++ concat ((fun i => interface_document i ++ [x0a]) <$> interfaces)
  ++ concat ((fun p => packet_document p ++ [x0a]) <$> packets).

(** ** Validation *)

Definition within (lo v hi : Z) : bool := (lo <=? v) && (v <=? hi).

Definition interface_values_ok (i : StructuralInterfaceEntry) : bool :=
  within 0 i.(sie_section_index) _MAX_I64 && within 0 i.(sie_interface_id) _MAX_I64
  && within 0 i.(sie_interface_ordinal) _MAX_I64 && within 0 i.(sie_link_type) 0xFFFF
  && within 1 i.(sie_snaplen) MAX_CAPTURED_PACKET_BYTES
  && within 1 i.(sie_timestamp_resolution_numerator) _MAX_I64
  && within 1 i.(sie_timestamp_resolution_denominator) _MAX_I64
  && within _MIN_I64 i.(sie_timestamp_offset_seconds) _MAX_I64.

Definition interface_index_key (i : StructuralInterfaceEntry) : Z * Z * Z :=
  (i.(sie_section_index), i.(sie_interface_id), i.(sie_interface_ordinal)).

(** The dictionary comprehension [interface_map]. *)
Definition validation_interfaces (interfaces : list StructuralInterfaceEntry)
    : gmap (Z * Z * Z) StructuralInterfaceEntry :=
  fold_left (fun m i => <[interface_index_key i := i]> m) interfaces ∅.

Definition packet_values_ok (p : StructuralPacketEntry) : bool :=
  within 0 p.(spe_record_offset) _MAX_I64 && within 0 p.(spe_data_offset) _MAX_I64
  && within 0 p.(spe_captured_length) _MAX_I64 && within 0 p.(spe_original_length) _MAX_I64
  && within 0 p.(spe_framed_length) _MAX_I64 && within 0 p.(spe_section_index) _MAX_I64
  && within 0 p.(spe_interface_id) _MAX_I64 && within 0 p.(spe_interface_ordinal) _MAX_I64
  && within 0 p.(spe_raw_timestamp_ticks) _MAX_U64.

Definition packet_bounds_ok (size snaplen previous_end : Z) (p : StructuralPacketEntry) : bool :=
  let record_end := p.(spe_record_offset) + p.(spe_framed_length) in
  let data_end := p.(spe_data_offset) + p.(spe_captured_length) in
  (record_end <=? size) && (data_end <=? record_end) && (previous_end <=? p.(spe_record_offset))
  && (p.(spe_captured_length) <=? p.(spe_original_length))
  && (p.(spe_captured_length) <=? snaplen).

Definition packet_framing_ok (format : capture_format) (p : StructuralPacketEntry) : bool :=
  let record_end := p.(spe_record_offset) + p.(spe_framed_length) in
  let data_end := p.(spe_data_offset) + p.(spe_captured_length) in
  match format with
  | PCAP => (p.(spe_data_offset) =? p.(spe_record_offset) + 16)
            && (p.(spe_framed_length) =? 16 + p.(spe_captured_length))
  | PCAPNG => (p.(spe_data_offset) =? p.(spe_record_offset) + 28) && (32 <=? p.(spe_framed_length))
              && (p.(spe_framed_length) mod 4 =? 0) && (data_end <=? record_end - 4)
  end.

(** The loop over the packets. *)
Fixpoint validate_packets (format : capture_format) (size : Z)
    (interfaces : gmap (Z * Z * Z) StructuralInterfaceEntry) (expected_index previous_end : Z)
    (packets : list StructuralPacketEntry) : bool :=
  match packets with
  | [] => true
  | p :: packets' =>
      match interfaces !! (p.(spe_section_index), p.(spe_interface_id), p.(spe_interface_ordinal)) with
      | None => false
      | Some interface =>
          (p.(spe_packet_index) =? expected_index) && packet_values_ok p
          && packet_bounds_ok size interface.(sie_snaplen) previous_end p
          && packet_framing_ok format p
          && validate_packets format size interfaces (expected_index + 1)
               (p.(spe_record_offset) + p.(spe_framed_length)) packets'
      end
  end.

Section digest.
(** [hashlib.sha256(...).hexdigest()]. *)
Context (sha256_hex : bytes -> string).

Definition structural_index_digest (b : SourceIndexBinding)
    (interfaces : list StructuralInterfaceEntry) (packets : list StructuralPacketEntry) : string :=
  sha256_hex (index_document b interfaces packets).

Definition validate_structural_index (s : StructuralIndexSnapshot) : bool :=
  let b := s.(sis_binding) in
  let interfaces := s.(sis_interfaces) in
  let packets := s.(sis_packets) in
  current_versions b && is_sha256_hex s.(sis_index_sha256)
  && negb (bool_decide (interfaces = []))
  && bool_decide (sie_interface_ordinal <$> interfaces = seqZ 0 (zlen interfaces))
  && forallb interface_values_ok interfaces
  && (Z.of_nat (size (validation_interfaces interfaces)) =? zlen interfaces)
  && validate_packets b.(sib_capture_format) b.(sib_source_size_bytes)
       (validation_interfaces interfaces) 0 0 packets
  && bool_decide (s.(sis_index_sha256) = structural_index_digest b interfaces packets).
End digest.
