(* ===== verification/OffsetProofs.v ===== *)
(** * OffsetProofs

    What a valid snapshot promises its readers, and that the structural scan of
    a source gives one, provided every interface has a timestamp resolution that
    fits 64 bits. *)

From Stdlib Require Import String.
From S2P Require Import Prelude Bytes Samples Reader CaptureFormat StructuralIndex StructuralProofs PyFloat.
From S2P Require Import PostingModel PostingBuild OffsetIndex.
#[local] Open Scope Z_scope.

Lemma within_spec lo v hi : within lo v hi = true <-> lo <= v <= hi.
Proof. unfold within. lia. Qed.

(** ** The interface dictionary *)

Section interfaces.
Abbreviation insert_interface := (fun m i => <[interface_index_key i := i]> m).

Lemma insert_interfaces_lookup (l : list StructuralInterfaceEntry) (m : gmap (Z * Z * Z) StructuralInterfaceEntry) k i :
  NoDup (interface_index_key <$> l) ->
  fold_left insert_interface l m !! k = Some i <->
  (i ∈ l /\ interface_index_key i = k) \/ ((k ∉ (interface_index_key <$> l)) /\ m !! k = Some i).
Proof.
  revert m. induction l as [|j l IH]; intros m Hnd; simpl; [set_solver|].
  apply NoDup_cons in Hnd as [Hj Hnd]. rewrite IH by done.
  rewrite lookup_insert_Some. split.
  - intros [[Hi <-]|[Hk [[<- <-]|[Hne Hm]]]]; [left; set_solver|left; set_solver|right; set_solver].
  - intros [[[->|Hi]%elem_of_cons <-]|[Hk Hm]]; [right; auto|left; auto|].
    right. set_solver.
Qed.

Lemma insert_interfaces_size (l : list StructuralInterfaceEntry) (m : gmap (Z * Z * Z) StructuralInterfaceEntry) :
  NoDup (interface_index_key <$> l) -> (forall i, i ∈ l -> m !! interface_index_key i = None) ->
  size (fold_left insert_interface l m) = (length l + size m)%nat.
Proof.
  revert m. induction l as [|j l IH]; intros m Hnd Hm; simpl; [done|].
  apply NoDup_cons in Hnd as [Hj Hnd]. rewrite IH; [|done|].
  - rewrite map_size_insert_None by (apply Hm; set_solver). lia.
  - intros i Hi. rewrite lookup_insert_ne; [apply Hm; set_solver|].
    intros E. apply Hj. rewrite E. by apply list_elem_of_fmap_2.
Qed.
End interfaces.

(** Ordinals count the interfaces. *)
Lemma ordinals_lookup interfaces k i :
  sie_interface_ordinal <$> interfaces = seqZ 0 (zlen interfaces) ->
  interfaces !! k = Some i -> i.(sie_interface_ordinal) = Z.of_nat k.
Proof.
  intros Ho Hk. apply (f_equal (lookup k)) in Ho. rewrite list_lookup_fmap, Hk in Ho. simpl in Ho.
  symmetry in Ho. apply lookup_seqZ in Ho as [-> _]. lia.
Qed.

Lemma ordinals_NoDup interfaces :
  sie_interface_ordinal <$> interfaces = seqZ 0 (zlen interfaces) ->
  NoDup (interface_index_key <$> interfaces).
Proof.
  intros Ho. apply (NoDup_fmap_1 (fun k => k.2)). rewrite <- list_fmap_compose.
  change (NoDup (sie_interface_ordinal <$> interfaces)). rewrite Ho. apply NoDup_seqZ.
Qed.

(** ** Packets *)

(** What validation establishes of a packet on its own. *)
Record packet_valid (format : capture_format) (size : Z)
    (interfaces : gmap (Z * Z * Z) StructuralInterfaceEntry) (p : StructuralPacketEntry) : Prop := {
  pv_interface : exists i,
    interfaces !! (p.(spe_section_index), p.(spe_interface_id), p.(spe_interface_ordinal)) = Some i
    /\ p.(spe_captured_length) <= i.(sie_snaplen);
  pv_values : packet_values_ok p = true;
  pv_end : packet_end p <= size;
  pv_data : p.(spe_data_offset) + p.(spe_captured_length) <= packet_end p;
  pv_lengths : p.(spe_captured_length) <= p.(spe_original_length);
  pv_framing : packet_framing_ok format p = true;
}.

Lemma packet_values_spec p :
  packet_values_ok p = true <->
  0 <= p.(spe_record_offset) <= _MAX_I64 /\ 0 <= p.(spe_data_offset) <= _MAX_I64 /\
  0 <= p.(spe_captured_length) <= _MAX_I64 /\ 0 <= p.(spe_original_length) <= _MAX_I64 /\
  0 <= p.(spe_framed_length) <= _MAX_I64 /\ 0 <= p.(spe_section_index) <= _MAX_I64 /\
  0 <= p.(spe_interface_id) <= _MAX_I64 /\ 0 <= p.(spe_interface_ordinal) <= _MAX_I64 /\
  0 <= p.(spe_raw_timestamp_ticks) <= _MAX_U64.
Proof. unfold packet_values_ok. rewrite !andb_true_iff, !within_spec. tauto. Qed.

Lemma validate_packets_spec format size interfaces index previous_end packets :
  validate_packets format size interfaces index previous_end packets = true <->
  Forall (packet_valid format size interfaces) packets /\
  (forall k p, packets !! k = Some p -> p.(spe_packet_index) = index + Z.of_nat k) /\
  (forall p, head packets = Some p -> previous_end <= p.(spe_record_offset)) /\
  StronglySorted packet_before packets.
Proof.
  revert index previous_end. induction packets as [|p packets IH]; intros index previous_end;
    cbn [validate_packets].
  { split; [|done]. intros _. split_and!; [constructor|done|done|constructor]. }
  assert (forall i, interfaces !! (spe_section_index p, spe_interface_id p, spe_interface_ordinal p) = Some i ->
    packet_values_ok p && packet_bounds_ok size (sie_snaplen i) previous_end p && packet_framing_ok format p = true
    <-> packet_valid format size interfaces p /\ previous_end <= spe_record_offset p) as Hone.
  { intros i Hi. unfold packet_bounds_ok. cbv zeta. fold (packet_end p). rewrite !andb_true_iff, !Z.leb_le. split.
    - intros [[Hv Hb] Hf]. split; [|tauto]. constructor; try done; try tauto. exists i. tauto.
    - intros [[(j & Hj & Hsn) Hv He Hd Hl Hf] Hp]. rewrite Hi in Hj. injection Hj as ->. tauto. }
  destruct (interfaces !! _) as [i|] eqn:Hi.
  2: { split; [done|]. intros (Hf & _). apply Forall_cons in Hf as [[(j & Hj & _) _ _ _ _ _] _]. congruence. }
  specialize (Hone i eq_refl). rewrite andb_true_iff, <- !andb_assoc, andb_true_iff, andb_assoc.
  rewrite Hone, Z.eqb_eq, IH, Forall_cons. fold (packet_end p). split.
  - intros [[Hidx [Hv Hp]] (Hf & Hk & Hhd & Hs)]. split_and!; [done|done| |by intros ? [= <-]|].
    + intros [|k] q Hq; [injection Hq as <-; lia|]. apply Hk in Hq. lia.
    + constructor; [done|]. destruct packets as [|q packets]; [constructor|]. specialize (Hhd q eq_refl).
      apply Forall_cons. split; [exact Hhd|]. apply StronglySorted_inv in Hs as [_ Hs].
      apply Forall_cons in Hf as [[_ Hqv _ _ _ _] _]. apply packet_values_spec in Hqv.
      eapply Forall_impl; [exact Hs|]. unfold packet_before, packet_end in *. lia.
  - intros ([Hv Hf] & Hk & Hhd & Hs). apply StronglySorted_inv in Hs as [Hs Hall]. split_and!.
    + rewrite (Hk 0%nat p eq_refl). lia.
    + done.
    + by apply Hhd.
    + done.
    + intros k q Hq. rewrite (Hk (S k) q Hq). lia.
    + intros q Hq. destruct packets as [|q' packets]; [done|]. injection Hq as ->.
      apply Forall_cons in Hall as [Hq _]. exact Hq.
    + done.
Qed.

(** ** Snapshots *)

(** What a reader of a valid snapshot relies on. *)
Record snapshot_valid (s : StructuralIndexSnapshot) : Prop := {
  sv_ordinals : sie_interface_ordinal <$> s.(sis_interfaces) = seqZ 0 (zlen s.(sis_interfaces));
  sv_packets : Forall (packet_valid s.(sis_binding).(sib_capture_format) s.(sis_binding).(sib_source_size_bytes)
                 (validation_interfaces s.(sis_interfaces))) s.(sis_packets);
  sv_index : forall k p, s.(sis_packets) !! k = Some p -> p.(spe_packet_index) = Z.of_nat k;
  sv_order : StronglySorted packet_before s.(sis_packets);
}.

Lemma validate_snapshot_valid sha256_hex s : validate_structural_index sha256_hex s = true -> snapshot_valid s.
Proof.
  unfold validate_structural_index. rewrite !andb_true_iff.
  intros [[[[[[[_ _] _] Ho%bool_decide_eq_true] _] _] Hp] _].
  apply validate_packets_spec in Hp as (Hf & Hk & _ & Hs). constructor; try done.
Qed.

(** The interface a valid packet names. *)
Lemma valid_packet_interface s p :
  snapshot_valid s -> p ∈ s.(sis_packets) ->
  exists i, s.(sis_interfaces) !! Z.to_nat p.(spe_interface_ordinal) = Some i /\
    interface_index_key i = (p.(spe_section_index), p.(spe_interface_id), p.(spe_interface_ordinal)) /\
    p.(spe_captured_length) <= i.(sie_snaplen).
Proof.
  intros [Ho Hf _ _] Hp. rewrite Forall_forall in Hf. destruct (Hf p Hp) as [(i & Hi & Hsn) _ _ _ _ _].
  apply insert_interfaces_lookup in Hi; [|by apply ordinals_NoDup].
  destruct Hi as [[Hin Hkey]|[_ Hm]]; [|by rewrite lookup_empty in Hm].
  apply list_elem_of_lookup in Hin as [k Hk]. exists i. split; [|done].
  pose proof (ordinals_lookup _ _ _ Ho Hk) as Hord.
  assert (spe_interface_ordinal p = Z.of_nat k) as -> by (unfold interface_index_key in Hkey; congruence).
  by rewrite Nat2Z.id.
Qed.

(** ** The scan gives a valid snapshot *)

Lemma classic_magic_bound m e resolution :
  CLASSIC_MAGIC m = Some (e, resolution) -> 0 < resolution <= 1000000000.
Proof. unfold CLASSIC_MAGIC. repeat case_match; intros [= <- <-]; lia. Qed.

Lemma lor_ticks_bound hi lo : 0 <= hi < 2 ^ 32 -> 0 <= lo < 2 ^ 32 -> 0 <= Z.lor (Z.shiftl hi 32) lo < 2 ^ 64.
Proof.
  intros Hhi Hlo. rewrite Z.shiftl_mul_pow2 by lia.
  assert (Z.lor (hi * 2 ^ 32) lo = hi * 2 ^ 32 + lo) as ->; [|lia].
  symmetry. apply Z.add_nocarry_lor.
  apply Z.bits_inj_iff'. intros n Hn. rewrite Z.land_spec, Z.bits_0.
  destruct (Z.lt_ge_cases n 32).
  - by rewrite Z.mul_pow2_bits_low.
  - rewrite (Z.bits_above_log2 lo n), andb_false_r; [done|lia|].
    destruct (Z.eq_dec lo 0) as [->|]; [simpl; lia|]. apply Z.log2_lt_pow2; [lia|].
    eapply Z.lt_le_trans; [apply Hlo|]. apply Z.pow_le_mono_r; lia.
Qed.

(** The record of an entry frames it as validation asks. *)
Lemma record_framing content fmt p :
  record_of content fmt p -> 0 <= p.(spe_captured_length) ->
  packet_framing_ok fmt p = true /\ 0 <= p.(spe_original_length) < 2 ^ 32 /\
  0 <= p.(spe_raw_timestamp_ticks) <= _MAX_U64.
Proof.
  intros Hr Hc. unfold packet_framing_ok. cbv zeta. destruct fmt; simpl in Hr.
  - destruct Hr as (e & resolution & Hm & Hr). apply classic_magic_bound in Hm. unfold classic_record in Hr.
    cbv zeta in Hr. rewrite Hr. simpl. rewrite !Z.eqb_refl. split; [done|].
    pose proof (u32_bound e content (spe_record_offset p)) as H1.
    pose proof (u32_bound e content (spe_record_offset p + 4)) as H2.
    pose proof (u32_bound e content (spe_record_offset p + 12)) as H3. split; [done|]. unfold _MAX_U64. nia.
  - destruct Hr as (e & _ & Hf & _ & Hm & Hd & Hdo & Hcap & Horig & Ht). unfold packet_end in Hd.
    rewrite Horig, Ht. split; [|split; [apply u32_bound|]].
    + rewrite Hdo, Hm, !Z.eqb_refl. cbn [andb]. rewrite andb_true_r, andb_true_iff, !Z.leb_le. lia.
    + pose proof (lor_ticks_bound _ _ (u32_bound e content (spe_record_offset p + 12))
        (u32_bound e content (spe_record_offset p + 16))). unfold _MAX_U64. lia.
Qed.

Section scanned.
Context (sha256_hex : bytes -> string) (Hsha : forall b, is_sha256_hex (sha256_hex b) = true).
Context (content : bytes) (lim : ScanLimits) (out : StructuralScanResult) (batches : list (list StructuralPacketEntry)).
Context (Hok : scan_result_ok sha256_hex content lim batches out) (Hmax : zlen content <= _MAX_I64).
Context (Hifs : lim.(sl_max_interfaces) <= _MAX_I64).

Abbreviation packets := (concat batches ++ out.(ssr_packets)).

Lemma scanned_ordinals : sie_interface_ordinal <$> out.(ssr_interfaces) = seqZ 0 (zlen out.(ssr_interfaces)).
Proof.
  destruct Hok as (_ & _ & _ & _ & Hwf & _). apply list_eq. intros k. rewrite list_lookup_fmap.
  destruct (ssr_interfaces out !! k) as [i|] eqn:Hk; simpl.
  - symmetry. apply lookup_seqZ. destruct (wf_interfaces _ _ _ _ _ Hwf k i Hk) as [-> _].
    apply lookup_lt_Some in Hk. unfold zlen. lia.
  - symmetry. apply lookup_seqZ_ge. apply lookup_ge_None in Hk. unfold zlen. lia.
Qed.

Lemma scanned_interface i :
  i ∈ out.(ssr_interfaces) ->
  interface_values_ok i = true <-> i.(sie_timestamp_resolution_denominator) <= _MAX_I64.
Proof.
  intros Hi. destruct Hok as (_ & _ & _ & _ & Hwf & _).
  pose proof (proj1 (Forall_forall _ _) (wf_sections _ _ _ _ _ Hwf) i Hi) as Hsec. simpl in Hsec.
  pose proof (wf_max_interfaces _ _ _ _ _ Hwf) as Hn.
  apply list_elem_of_lookup in Hi as [k Hk]. pose proof (lookup_lt_Some _ _ _ Hk) as Hlt.
  destruct (wf_interfaces _ _ _ _ _ Hwf k i Hk) as (Ho & Hs & Hid & Hl & Hsn & Hnum & Hden & Hidk & Ht).
  unfold interface_values_ok. rewrite !andb_true_iff, !within_spec. unfold _MIN_I64, _MAX_I64, zlen in *. lia.
Qed.

Lemma scanned_packet p :
  p ∈ packets ->
  packet_valid out.(ssr_capture_format) (zlen content) (validation_interfaces out.(ssr_interfaces)) p.
Proof.
  intros Hp. destruct Hok as (_ & _ & _ & _ & Hwf & _).
  pose proof (proj1 (Forall_forall _ _) (wf_span _ _ _ _ _ Hwf) p Hp) as (Hr & Hd & He & Hc & Ho).
  pose proof (proj1 (Forall_forall _ _) (wf_end _ _ _ _ _ Hwf) p Hp) as Hend. simpl in Hend.
  pose proof (proj1 (Forall_forall _ _) (wf_record _ _ _ _ _ Hwf) p Hp) as Hrec.
  destruct (proj1 (Forall_forall _ _) (wf_interface _ _ _ _ _ Hwf) p Hp) as (k & i & Hk & Hord & Hid & Hsec & Hsn).
  destruct (record_framing _ _ _ Hrec ltac:(lia)) as (Hf & Horig & Hticks).
  pose proof (list_elem_of_lookup_2 _ _ _ Hk) as Hi.
  pose proof (proj1 (Forall_forall _ _) (wf_sections _ _ _ _ _ Hwf) i Hi) as Hs. simpl in Hs.
  pose proof (wf_max_interfaces _ _ _ _ _ Hwf) as Hn. pose proof (lookup_lt_Some _ _ _ Hk) as Hlt.
  destruct (wf_interfaces _ _ _ _ _ Hwf k i Hk) as (Ho' & Hs' & Hid' & _ & _ & _ & _ & Hidk & _).
  unfold packet_end in *. constructor; try done; try lia.
  - exists i. split; [|done]. apply insert_interfaces_lookup; [apply ordinals_NoDup, scanned_ordinals|]. left.
    split; [done|]. unfold interface_index_key. by rewrite Hsec, Hid, Ho', Hord.
  - apply packet_values_spec. unfold zlen, _MAX_I64 in *. lia.
Qed.

Lemma scanned_index binding build_id created_at :
  current_versions binding = true -> binding.(sib_source_size_bytes) = zlen content ->
  binding.(sib_capture_format) = out.(ssr_capture_format) ->
  validate_structural_index sha256_hex (mk_snapshot build_id binding created_at
    (structural_index_digest sha256_hex binding out.(ssr_interfaces) packets) out.(ssr_interfaces) packets) = true <->
  Forall (fun i => i.(sie_timestamp_resolution_denominator) <= _MAX_I64) out.(ssr_interfaces).
Proof.
  intros Hv Hsize Hfmt. unfold validate_structural_index. simpl.
  assert (is_sha256_hex (structural_index_digest sha256_hex binding (ssr_interfaces out) packets) = true) as Hd
    by apply Hsha.
  pose proof Hok as (_ & _ & _ & _ & Hwf & Hcount & Hpos).
  assert (ssr_interfaces out <> []) as Hne.
  { intros Hnil. destruct packets as [|p ps] eqn:E; [rewrite Hcount in Hpos; by unfold zlen in Hpos|].
    pose proof (wf_interface _ _ _ _ _ Hwf) as Hf.
    apply Forall_cons in Hf as [(k & i & Hk & _) _]. by rewrite Hnil in Hk. }
  assert (size (validation_interfaces (ssr_interfaces out)) = length (ssr_interfaces out)) as Hsz.
  { unfold validation_interfaces. rewrite insert_interfaces_size; [rewrite map_size_empty; lia| |done].
    apply ordinals_NoDup, scanned_ordinals. }
  rewrite Hv, Hd, Hsz, (bool_decide_false _ Hne), (bool_decide_true _ scanned_ordinals). unfold zlen at 1.
  rewrite Z.eqb_refl, (bool_decide_true (structural_index_digest _ _ _ _ = _)) by done.
  rewrite (proj2 (validate_packets_spec _ _ _ _ _ _)).
  2: { rewrite Hsize, Hfmt. split_and!.
    - apply Forall_forall. apply scanned_packet.
    - apply (wf_index _ _ _ _ _ Hwf).
    - intros p Hp. apply head_Some_elem_of in Hp.
      pose proof (proj1 (Forall_forall _ _) (wf_span _ _ _ _ _ Hwf) p Hp) as (Hr & _). done.
    - apply (wf_order _ _ _ _ _ Hwf). }
  cbn [negb andb]. rewrite !andb_true_r, forallb_forall, Forall_forall.
  setoid_rewrite <- list_elem_of_In. split; intros H i Hi; by apply scanned_interface, H.
Qed.
End scanned.

(** C29: a snapshot made from a structural scan of its source passes validation
    exactly when every interface's timestamp resolution fits a signed 64-bit
    integer: order, extent, framing, interface and value checks never refuse
    what the scanner itself produced, and the resolution check refuses an index
    the scanner accepts. *)
Theorem scanned_index_validates (sha256_hex : bytes -> string) (R : Type)
    (reads : CaptureReader R) (lawful : LawfulReader R) (fuel : nat) (r : R) (lim : ScanLimits)
    (batches : list (list StructuralPacketEntry)) (out : StructuralScanResult)
    (binding : SourceIndexBinding) (build_id : string) (created_at : Datetime)
    (Hsha : forall b, is_sha256_hex (sha256_hex b) = true)
    (Hlim : limits_ok lim) (Hifs : lim.(sl_max_interfaces) <= _MAX_I64)
    (Hmax : zlen (reader_content r) <= _MAX_I64) (Hfuel : zlen (reader_content r) < Z.of_nat fuel)
    (Hscan : scan_structural_packet_index sha256_hex fuel r lim = (batches, Ok out))
    (Hversions : current_versions binding = true)
    (Hsize : binding.(sib_source_size_bytes) = out.(ssr_size_bytes))
    (Hformat : binding.(sib_capture_format) = out.(ssr_capture_format)) :
  let packets := concat batches ++ out.(ssr_packets) in
  validate_structural_index sha256_hex (mk_snapshot build_id binding created_at
    (structural_index_digest sha256_hex binding out.(ssr_interfaces) packets) out.(ssr_interfaces) packets) = true <->
  Forall (fun i => i.(sie_timestamp_resolution_denominator) <= _MAX_I64) out.(ssr_interfaces).
Proof.
  pose proof (scan_of_content_ok sha256_hex (reader_content r) fuel lim Hlim Hfuel) as Hok.
  rewrite <- (scan_refines_content sha256_hex fuel r), Hscan in Hok by done. pose proof Hok as [Hsz _].
  apply (scanned_index sha256_hex Hsha (reader_content r) lim out batches); try done. by rewrite Hsize.
Qed.

(** A digest function for concrete runs. *)
Definition zero_digest (b : bytes) : string := String.concat "" (repeat "0"%string 64).

Lemma scanned_index_validates_witness :
  match scan_structural_packet_index zero_digest 1000 {| bio_data := sample_pcapng |} (sample_limits 2 true) with
  | (batches, Ok out) =>
      let binding := mk_binding PCAP_UPLOAD "job" "version" out.(ssr_size_bytes) (zero_digest []) PCAPNG 1 1 in
      let packets := concat batches ++ out.(ssr_packets) in
      out.(ssr_capture_format) = PCAPNG /\
      validate_structural_index zero_digest (mk_snapshot "build" binding (mk_datetime 0 true)
        (structural_index_digest zero_digest binding out.(ssr_interfaces) packets) out.(ssr_interfaces) packets) = true
  | (_, Err _) => False
  end.
Proof.
  destruct (scan_structural_packet_index zero_digest 1000 {| bio_data := sample_pcapng |} (sample_limits 2 true))
    as [batches [out|e]] eqn:Hs; [|vm_compute in Hs; discriminate Hs].
  assert (ssr_capture_format out = PCAPNG /\
    Forall (fun i => i.(sie_timestamp_resolution_denominator) <= _MAX_I64) out.(ssr_interfaces)) as [Hf Hd].
  { vm_compute in Hs. injection Hs as _ <-. split; [reflexivity|]. repeat constructor; vm_compute; discriminate. }
  split; [exact Hf|]. apply (scanned_index_validates zero_digest BytesIO _ _ 1000 {| bio_data := sample_pcapng |}
    (sample_limits 2 true) batches out); try exact Hs; try exact Hd; try reflexivity.
  - repeat split; reflexivity.
  - vm_compute. discriminate.
  - vm_compute. discriminate.
  - symmetry. exact Hf.
Defined.
