(* ===== verification/PostingProofs.v ===== *)
(** * PostingProofs

    Correctness of [build_packet_postings]: the generation it returns holds, for
    every dictionary key, exactly the indices of the packets that have the key,
    and on a capture's own index and decoder it fails only by its limits. *)

From S2P Require Import Prelude Bytes Samples Reader ReaderLogic IpAddress IpText.
From S2P Require Import PacketProjection StructuralIndex StructuralProofs ExportDecoder.
From S2P Require Import ExportAgreement PostingCodec PostingModel PostingBuild.

(** ** The reference: the packets that have a key *)

Fixpoint ordinals_from (i : Z) (key : posting_key) (mems : list (list posting_key)) : list Z :=
  match mems with
  | [] => []
  | m :: mems' => (if bool_decide (key ∈ m) then [i] else []) ++ ordinals_from (i + 1) key mems'
  end.

(** [mems] lists the memberships of packets 0, 1, 2, ... *)
Definition ordinals_for (key : posting_key) (mems : list (list posting_key)) : list Z :=
  ordinals_from 0 key mems.

Lemma ordinals_from_app i key ms ms' :
  ordinals_from i key (ms ++ ms') =
  ordinals_from i key ms ++ ordinals_from (i + zlen ms) key ms'.
Proof.
  revert i. induction ms as [|m ms IH]; intros i; simpl.
  - by rewrite zlen_nil, Z.add_0_r.
  - rewrite IH, zlen_cons, <- app_assoc. do 2 f_equal. f_equal. lia.
Qed.

Lemma ordinals_for_snoc key ms m :
  ordinals_for key (ms ++ [m]) =
  ordinals_for key ms ++ (if bool_decide (key ∈ m) then [zlen ms] else []).
Proof. unfold ordinals_for. rewrite ordinals_from_app. simpl. by rewrite app_nil_r. Qed.

Lemma elem_of_ordinals_from i key ms n :
  n ∈ ordinals_from i key ms <->
  exists k m, n = i + Z.of_nat k /\ ms !! k = Some m /\ key ∈ m.
Proof.
  revert i. induction ms as [|m ms IH]; intros i; simpl.
  - split; [by intros ?%not_elem_of_nil|by intros (k & m & _ & ? & _)].
  - rewrite elem_of_app, IH. split.
    + intros [H|(k & m' & -> & ? & ?)].
      * case_bool_decide; [|by apply not_elem_of_nil in H].
        apply list_elem_of_singleton in H as ->. exists 0%nat, m. split_and!; [lia|done|done].
      * exists (S k), m'. split_and!; [lia|done|done].
    + intros ([|k] & m' & -> & Hk & Hin).
      * simpl in Hk. injection Hk as ->. left. rewrite bool_decide_true by done.
        apply list_elem_of_singleton. lia.
      * right. exists k, m'. split_and!; [lia|done|done].
Qed.

Lemma elem_of_ordinals_for key ms n :
  n ∈ ordinals_for key ms <->
  0 <= n /\ exists m, ms !! Z.to_nat n = Some m /\ key ∈ m.
Proof.
  unfold ordinals_for. rewrite elem_of_ordinals_from. split.
  - intros (k & m & -> & ? & ?). split; [lia|]. exists m. by rewrite Z.add_0_l, Nat2Z.id.
  - intros (Hn & m & ? & ?). exists (Z.to_nat n), m. split_and!; [lia|done|done].
Qed.

Lemma ordinals_from_sorted i key ms :
  StronglySorted Z.lt (ordinals_from i key ms) /\
  Forall (fun n => i <= n < i + zlen ms) (ordinals_from i key ms).
Proof.
  revert i. induction ms as [|m ms IH]; intros i; simpl.
  { split; [apply SSorted_nil|by apply Forall_nil_2]. }
  destruct (IH (i + 1)) as [Hs Hr]. rewrite zlen_cons.
  assert (Forall (fun n => i + 1 <= n < i + (1 + zlen ms)) (ordinals_from (i + 1) key ms)) as Hr'.
  { eapply Forall_impl; [exact Hr|]. simpl. lia. }
  pose proof (zlen_nonneg ms). case_bool_decide; simpl.
  - split; constructor; try done; try lia; (eapply Forall_impl; [exact Hr'|]); simpl; lia.
  - split; [done|]. eapply Forall_impl; [exact Hr'|]. simpl. lia.
Qed.

Lemma ordinals_for_sorted key ms : StronglySorted Z.lt (ordinals_for key ms).
Proof. apply ordinals_from_sorted. Qed.

Lemma ordinals_for_range key ms : Forall (fun n => 0 <= n < zlen ms) (ordinals_for key ms).
Proof. apply (ordinals_from_sorted 0 key ms). Qed.

(** ** Chunks *)

(** [c] is chunk [i] of [key] and encodes [part]. *)
Definition chunk_of (key : posting_key) (i : Z) (part : list Z) (c : PostingChunk) : Prop :=
  part <> [] /\ encode_ordinals part = Ok c.(pc_encoded_ordinals) /\
  c = {| pc_dimension := key.1; pc_value := key.2; pc_chunk_ordinal := i;
         pc_first_packet_index := default 0 (head part);
         pc_last_packet_index := default 0 (last part);
         pc_count := zlen part; pc_encoded_ordinals := c.(pc_encoded_ordinals) |}.

Fixpoint chunks_of (key : posting_key) (i : Z) (parts : list (list Z)) (cs : list PostingChunk)
    : Prop :=
  match parts, cs with
  | [], [] => True
  | p :: parts', c :: cs' => chunk_of key i p c /\ chunks_of key (i + 1) parts' cs'
  | _, _ => False
  end.

Lemma chunks_of_snoc key i parts cs p c :
  chunks_of key i parts cs -> chunk_of key (i + zlen parts) p c ->
  chunks_of key i (parts ++ [p]) (cs ++ [c]).
Proof.
  revert i cs. induction parts as [|q parts IH]; intros i [|d cs]; simpl; try done.
  - rewrite zlen_nil, Z.add_0_r. auto.
  - intros [Hd Hcs] Hc. split; [done|]. apply IH; [done|].
    by replace (i + 1 + zlen parts) with (i + zlen (q :: parts)) by (rewrite zlen_cons; lia).
Qed.

(** The chunks of a key in a list of chunks. *)
Definition key_chunks (key : posting_key) (cs : list PostingChunk) : list PostingChunk :=
  filter (fun c => pc_key c = key) cs.

Lemma chunk_of_key key i p c : chunk_of key i p c -> pc_key c = key.
Proof. intros (_ & _ & ->). by destruct key. Qed.

(** ** Flushing *)

Lemma batch_chunk_Ok st key c :
  batch_chunk st key = Ok c -> default [] (st.(b_batch) !! key) <> [] ->
  chunk_of key (default 0 (st.(b_next_chunk) !! key)) (default [] (st.(b_batch) !! key)) c.
Proof. unfold batch_chunk. intros H Hne. inv_bind. subst c. by split_and!. Qed.

Lemma batch_chunks_keys st keys pending :
  batch_chunks st keys = Ok pending -> pc_key <$> pending = keys.
Proof.
  revert pending. induction keys as [|k keys IH]; intros pending; simpl.
  - by intros [= <-].
  - intros H. inv_bind. subst pending. simpl. f_equal; [|by auto].
    match goal with H : batch_chunk _ _ = _ |- _ => unfold batch_chunk in H; inv_bind end.
    subst. by destruct k.
Qed.

Lemma batch_chunks_filter st keys pending key :
  NoDup keys -> batch_chunks st keys = Ok pending ->
  if bool_decide (key ∈ keys)
  then exists c, batch_chunk st key = Ok c /\ key_chunks key pending = [c]
  else key_chunks key pending = [].
Proof.
  unfold key_chunks. revert pending. induction keys as [|k keys IH]; intros pending Hnd;
    cbn [batch_chunks].
  { intros [= <-]. rewrite bool_decide_false by apply not_elem_of_nil. done. }
  intros H. apply NoDup_cons in Hnd as [Hk Hnd].
  apply bind_Ok in H as (c & Hc & H). apply bind_Ok in H as (cs & Hcs & [= <-]).
  specialize (IH cs Hnd Hcs). rewrite filter_cons.
  assert (pc_key c = k) as Hck.
  { unfold batch_chunk in Hc. inv_bind. subst. by destruct k. }
  destruct (decide (key = k)) as [->|Hne].
  - rewrite bool_decide_true by set_solver. rewrite bool_decide_false in IH by done.
    exists c. split; [done|]. by rewrite decide_True, IH by done.
  - rewrite decide_False by congruence.
    destruct (decide (key ∈ keys)).
    + rewrite bool_decide_true by set_solver. by rewrite bool_decide_true in IH by done.
    + rewrite bool_decide_false by set_solver. by rewrite bool_decide_false in IH by done.
Qed.

Lemma bump_chunks_lookup pending next key :
  NoDup (pc_key <$> pending) ->
  default 0 (fold_left bump_chunk pending next !! key) =
  default 0 (next !! key) + (if bool_decide (key ∈ pc_key <$> pending) then 1 else 0).
Proof.
  revert next. induction pending as [|c cs IH]; intros next Hnd; cbn [fold_left].
  { rewrite bool_decide_false by apply not_elem_of_nil. lia. }
  apply NoDup_cons in Hnd as [Hc Hnd]. rewrite IH by done. unfold bump_chunk.
  destruct (decide (key = pc_key c)) as [->|Hne].
  - rewrite lookup_insert_eq. simpl. rewrite (bool_decide_false (pc_key c ∈ _ <$> cs)) by done.
    rewrite bool_decide_true by set_solver. lia.
  - rewrite lookup_insert_ne by done. f_equal.
    rewrite (bool_decide_ext (key ∈ pc_key <$> c :: cs) (key ∈ pc_key <$> cs)); [done|].
    rewrite fmap_cons, elem_of_cons. naive_solver.
Qed.

(** ** Memberships of a packet *)

Lemma memberships_NoDup item : NoDup (_projection_memberships item).
Proof.
  unfold _projection_memberships, membership.
  repeat case_match; simpl; repeat (apply NoDup_cons; split; [set_solver|]); apply NoDup_nil_2.
Qed.

Lemma memberships_all item : (ALL_PACKET, []) ∈ _projection_memberships item.
Proof. unfold _projection_memberships. set_solver. Qed.

Lemma memberships_supported item :
  (SUPPORTED, []) ∈ _projection_memberships item <-> item.(pr_supported) = true.
Proof.
  unfold _projection_memberships, membership. destruct (pr_supported item); simpl; [set_solver|].
  split; [|done]. rewrite elem_of_cons. intros [?|?%not_elem_of_nil]; done.
Qed.

Lemma batch_append_lookup count m batch key :
  NoDup m ->
  default [] (fold_left (batch_append count) m batch !! key) =
  default [] (batch !! key) ++ (if bool_decide (key ∈ m) then [count] else []).
Proof.
  revert batch. induction m as [|k m IH]; intros batch Hnd; cbn [fold_left].
  { rewrite bool_decide_false by apply not_elem_of_nil. by rewrite app_nil_r. }
  apply NoDup_cons in Hnd as [Hk Hnd]. rewrite IH by done. unfold batch_append.
  destruct (decide (key = k)) as [->|Hne].
  - rewrite lookup_insert_eq. simpl. rewrite (bool_decide_false (k ∈ m)) by done.
    rewrite bool_decide_true by set_solver. by rewrite app_nil_r.
  - rewrite lookup_insert_ne by done. f_equal.
    rewrite (bool_decide_ext (key ∈ k :: m) (key ∈ m)); [done|]. rewrite elem_of_cons. naive_solver.
Qed.

Lemma batch_append_nonempty count m batch :
  (forall key l, batch !! key = Some l -> l <> []) ->
  forall key l, fold_left (batch_append count) m batch !! key = Some l -> l <> [].
Proof.
  revert batch. induction m as [|k m IH]; intros batch Hb; cbn [fold_left]; [done|].
  apply IH. unfold batch_append. intros key l. rewrite lookup_insert_Some.
  intros [[_ <-]|[_ ?]]; [by destruct (default [] _)|by eapply Hb].
Qed.

(** ** The loop invariant *)

Definition total_memberships (mems : list (list posting_key)) : Z := foldr Z.add 0 (zlen <$> mems).

Record build_inv (limits : PostingBuildLimits) (mems : list (list posting_key)) (st : BuildState)
    : Prop := {
  bi_count : st.(b_count) = zlen mems;
  bi_memberships : st.(b_memberships) = total_memberships mems;
  bi_distinct : forall key, key ∈ st.(b_distinct) <-> exists m, m ∈ mems /\ key ∈ m;
  bi_supported : st.(b_supported) = zlen (ordinals_for (SUPPORTED, []) mems);
  bi_batch : forall key l, st.(b_batch) !! key = Some l -> l <> [];
  bi_bytes : st.(b_encoded_bytes) = chunks_bytes st.(b_chunks);
  bi_keys : forall key, exists parts,
    chunks_of key 0 parts (key_chunks key st.(b_chunks)) /\
    default 0 (st.(b_next_chunk) !! key) = zlen parts /\
    concat parts ++ default [] (st.(b_batch) !! key) = ordinals_for key mems;
  bi_max_packets : st.(b_count) <= limits.(pbl_max_packets);
  bi_max_memberships : st.(b_memberships) <= limits.(pbl_max_memberships);
  bi_max_distinct : Z.of_nat (size st.(b_distinct)) <= limits.(pbl_max_distinct_keys);
  bi_max_bytes : st.(b_encoded_bytes) <= limits.(pbl_max_encoded_bytes);
  bi_max_chunks : zlen st.(b_chunks) <= limits.(pbl_max_chunks);
}.

Definition build_limits_ok (l : PostingBuildLimits) : Prop :=
  0 < l.(pbl_max_packets) /\ 0 < l.(pbl_max_memberships) /\ 0 < l.(pbl_max_distinct_keys) /\
  0 < l.(pbl_max_encoded_bytes) /\ 0 < l.(pbl_max_chunks) /\ 0 < l.(pbl_batch_size).

Lemma build_inv_initial limits : build_limits_ok limits -> build_inv limits [] build_initial.
Proof.
  intros (? & ? & ? & ? & ? & ?). constructor; simpl; try done; try lia.
  - intros key. split; [set_solver|]. intros (m & ?%not_elem_of_nil & _). done.
  - intros key. exists []. rewrite lookup_empty. done.
  - change (0 <= limits.(pbl_max_distinct_keys)). lia.
  - rewrite zlen_nil. lia.
Qed.

Lemma chunks_bytes_app a b : chunks_bytes (a ++ b) = chunks_bytes a + chunks_bytes b.
Proof.
  unfold chunks_bytes. rewrite fmap_app. induction a as [|c a IH]; [done|].
  rewrite fmap_cons. cbn [foldr app]. rewrite IH. lia.
Qed.

Lemma flush_inv limits mems st st' :
  build_inv limits mems st -> flush limits st = Ok st' ->
  build_inv limits mems st' /\ st'.(b_batch) = ∅ /\ st'.(b_count) = st.(b_count).
Proof.
  intros [Hc Hm Hd Hs Hb Hby Hk Hmp Hmm Hmd Hmb Hmc] H. unfold flush in H.
  apply bind_Ok in H as (pending & Hp & H). inv_bind. reflect_bools. subst st'. simpl.
  set (keys := sort_by key_leb (elements (dom (b_batch st)))) in *.
  assert (keys ≡ₚ elements (dom (b_batch st))) as Hperm by apply sort_by_perm.
  assert (NoDup keys) as Hnd by (rewrite Hperm; apply NoDup_elements).
  split; [|done]. constructor; simpl; try done; try lia.
  - rewrite chunks_bytes_app. lia.
  - intros key. destruct (Hk key) as (parts & Hparts & Hnext & Hconcat).
    pose proof (batch_chunks_filter st keys pending key Hnd Hp) as Hfilter.
    rewrite bump_chunks_lookup by (by rewrite (batch_chunks_keys st keys pending)).
    rewrite (batch_chunks_keys st keys pending) by done.
    unfold key_chunks. rewrite filter_app. fold (key_chunks key (b_chunks st)) (key_chunks key pending).
    rewrite lookup_empty. simpl. destruct (b_batch st !! key) as [l|] eqn:El.
    + assert (key ∈ keys) as Hin.
      { rewrite Hperm, elem_of_elements. by apply elem_of_dom_2 in El. }
      rewrite bool_decide_true in Hfilter |- * by done. destruct Hfilter as (c & Hbc & ->).
      apply batch_chunk_Ok in Hbc; [|rewrite El; simpl; by eapply Hb].
      rewrite El in Hbc. simpl in Hbc, Hconcat.
      exists (parts ++ [l]). split_and!.
      * apply chunks_of_snoc; [done|]. by rewrite Z.add_0_l, <- Hnext.
      * autorewrite with zlist. lia.
      * rewrite concat_app. simpl. by rewrite !app_nil_r.
    + assert (key ∉ keys) as Hin.
      { rewrite Hperm, elem_of_elements. by apply not_elem_of_dom. }
      rewrite bool_decide_false in Hfilter |- * by done. rewrite Hfilter.
      exists parts. rewrite !app_nil_r. split_and!; [done|lia|].
      by rewrite <- Hconcat, app_nil_r.
  - rewrite zlen_app. lia.
Qed.

Definition packet_memberships (packet : ExportPacket) (m : list posting_key) : Prop :=
  exists item, _projection packet = Ok item /\ m = _projection_memberships item.

Lemma total_memberships_app a b :
  total_memberships (a ++ b) = total_memberships a + total_memberships b.
Proof.
  unfold total_memberships. rewrite fmap_app. induction a as [|m a IH]; [done|].
  rewrite fmap_cons. cbn [foldr app]. rewrite IH. lia.
Qed.

(** The new keys of a packet are counted once each. *)
Lemma distinct_size (distinct : gset posting_key) (m : list posting_key) :
  NoDup m ->
  Z.of_nat (size (distinct ∪ list_to_set (filter (fun key => key ∉ distinct) m))) =
  Z.of_nat (size distinct) + zlen (filter (fun key => key ∉ distinct) m).
Proof.
  intros Hnd. rewrite size_union.
  - rewrite size_list_to_set by (by apply NoDup_filter). unfold zlen. lia.
  - intros key Hk Hin. apply elem_of_list_to_set, list_elem_of_filter in Hin as [? _]. done.
Qed.

Lemma push_packet_inv limits mems st item :
  let m := _projection_memberships item in
  build_inv limits mems st -> st.(b_count) < limits.(pbl_max_packets) ->
  st.(b_memberships) + zlen m <= limits.(pbl_max_memberships) ->
  Z.of_nat (size st.(b_distinct)) + zlen (filter (fun key => key ∉ st.(b_distinct)) m)
    <= limits.(pbl_max_distinct_keys) ->
  build_inv limits (mems ++ [m]) (push_packet item st).
Proof.
  intros m [Hc Hm Hd Hs Hb Hby Hk Hmp Hmm Hmd Hmb Hmc] H0 H1 H2. unfold push_packet.
  fold m. pose proof (memberships_NoDup item) as Hnd. pose proof (memberships_supported item) as Hsup.
  fold m in Hnd, Hsup. clearbody m. constructor; simpl.
  - rewrite zlen_app, zlen_cons, zlen_nil. lia.
  - rewrite total_memberships_app, Hm. unfold total_memberships at 3. simpl. lia.
  - intros key. rewrite elem_of_union, elem_of_list_to_set, list_elem_of_filter, Hd. split.
    + intros [(y & ? & ?)|[? ?]]; [exists y|exists m]; rewrite elem_of_app; [by auto|].
      split; [right; by apply list_elem_of_singleton|done].
    + intros (y & [?| ->%list_elem_of_singleton]%elem_of_app & ?); [left; by exists y|].
      destruct (decide (key ∈ b_distinct st)) as [?%Hd|Hnew]; [by left|].
      rewrite Hd in Hnew. by right.
  - rewrite ordinals_for_snoc, zlen_app, Hs. f_equal.
    destruct (pr_supported item); case_bool_decide; try done; naive_solver.
  - exact (batch_append_nonempty _ _ _ Hb).
  - done.
  - intros key. destruct (Hk key) as (parts & ? & ? & Hconcat). exists parts.
    split_and!; [done|done|]. rewrite batch_append_lookup by done.
    rewrite ordinals_for_snoc, <- Hconcat, Hc. by rewrite app_assoc.
  - lia.
  - lia.
  - rewrite distinct_size by done. lia.
  - lia.
  - lia.
Qed.

Lemma build_packet_inv limits ifs structural packet mems st st' :
  build_inv limits mems st -> build_packet limits ifs structural packet st = Ok st' ->
  exists m, packet_memberships packet m /\ build_inv limits (mems ++ [m]) st'.
Proof.
  intros Hinv H. unfold build_packet in H. apply bind_Ok in H as (? & Hmax & H).
  destruct (structural !! _) as [expected|]; [|done].
  apply bind_Ok in H as (? & ? & H). apply bind_Ok in H as (item & Hitem & H).
  apply bind_Ok in H as (? & H1 & H). apply bind_Ok in H as (? & H2 & H). inv_bind. reflect_bools.
  exists (_projection_memberships item). split; [by exists item|].
  pose proof (push_packet_inv limits mems st item Hinv ltac:(lia) ltac:(lia) ltac:(lia)) as Hinv1.
  cbv zeta in *. destruct (_ =? 0); [by eapply flush_inv in H as (? & _)|by injection H as <-].
Qed.

Lemma build_packets_inv limits ifs structural packets mems st st' :
  build_inv limits mems st -> build_packets limits ifs structural packets st = Ok st' ->
  exists ms, Forall2 packet_memberships packets ms /\ build_inv limits (mems ++ ms) st'.
Proof.
  revert mems st. induction packets as [|packet packets IH]; intros mems st Hinv; simpl.
  - intros [= <-]. exists []. by rewrite app_nil_r.
  - intros (st1 & H1 & H2)%bind_Ok. apply (build_packet_inv _ _ _ _ mems) in H1 as (m & Hm & Hinv1);
      [|done]. apply (IH (mems ++ [m])) in H2 as (ms & Hms & Hinv2); [|done].
    exists (m :: ms). split; [by constructor|]. by rewrite <- app_assoc in Hinv2.
Qed.

(** ** Reading a generation *)

Lemma decode_chunks_of key i parts cs count :
  chunks_of key i parts cs -> 0 < count <= MAX_POSTING_ORDINAL + 1 ->
  Forall (fun n => 0 <= n < count) (concat parts) ->
  decode_chunks count cs = Ok (concat parts).
Proof.
  revert i cs. induction parts as [|p parts IH]; intros i [|c cs]; simpl; try done.
  intros [(Hne & Henc & _) Hcs] Hcount [Hp Hall]%Forall_app.
  unfold decode_ordinals. rewrite (decode_ordinals_encoded p); [|intros m [= <-]; split; [lia|]|done].
  - simpl. rewrite (IH (i + 1)); done.
  - eapply Forall_impl; [exact Hp|]. simpl. lia.
Qed.

Lemma chunks_of_sorted key i parts cs :
  chunks_of key i parts cs ->
  StronglySorted (fun x y => chunk_ordinal_leb x y = true) cs /\
  Forall (fun c => i <= c.(pc_chunk_ordinal)) cs.
Proof.
  revert i cs. induction parts as [|p parts IH]; intros i [|c cs]; simpl; try done.
  - split; [apply SSorted_nil|by apply Forall_nil_2].
  - intros [(_ & _ & Hc) Hcs]. apply IH in Hcs as [Hs Hall].
    assert (pc_chunk_ordinal c = i) as Hi by (by rewrite Hc).
    split; constructor; try done; try lia.
    + eapply Forall_impl; [exact Hall|]. unfold chunk_ordinal_leb. simpl. lia.
    + eapply Forall_impl; [exact Hall|]. simpl. lia.
Qed.

Lemma posting_values_of g key parts :
  chunks_of key 0 parts (key_chunks key g.(pg_chunks)) ->
  0 < g.(pg_packet_count) <= MAX_POSTING_ORDINAL + 1 ->
  Forall (fun n => 0 <= n < g.(pg_packet_count)) (concat parts) ->
  posting_values g key.1 key.2 = Ok (concat parts).
Proof.
  intros Hparts Hcount Hall. unfold posting_values. destruct key as [d v]. simpl.
  fold (key_chunks (d, v) (pg_chunks g)).
  rewrite sort_by_sorted by (by eapply chunks_of_sorted). by eapply decode_chunks_of.
Qed.

(** The state a successful build ends in. *)
Lemma build_Ok sha256_hex decoded structural interfaces limits binding g :
  build_limits_ok limits ->
  build_packet_postings sha256_hex decoded structural interfaces limits binding = Ok g ->
  decoded.2 = Ok tt /\ zlen decoded.1 = zlen structural /\
  validate_posting_generation sha256_hex g default_build_limits = true /\
  exists mems st, Forall2 packet_memberships decoded.1 mems /\ build_inv limits mems st /\
    st.(b_batch) = ∅ /\ g = generation_of st binding g.(pg_digest).
Proof.
  intros Hlim H. unfold build_packet_postings in H. destruct decoded as [packets fin]. simpl in *.
  apply bind_Ok in H as (? & _ & H). apply bind_Ok in H as (st & Hst & H).
  apply bind_Ok in H as ([] & -> & H). apply bind_Ok in H as (st' & Hflush & H).
  apply bind_Ok in H as (? & Hcount & H). apply bind_Ok in H as (digest & _ & H).
  apply raise_if_Ok in Hcount. reflect_bools.
  destruct (validate_posting_generation _ _ _) eqn:Hvalid; [|done]. injection H as <-.
  apply (build_packets_inv _ _ _ _ []) in Hst as (mems & Hmems & Hinv);
    [|by apply build_inv_initial]. simpl in Hinv.
  apply (flush_inv _ mems) in Hflush as (Hinv' & Hbatch & Hcnt); [|done].
  split; [done|]. split.
  - apply Forall2_length in Hmems. pose proof (bi_count _ _ _ Hinv'). unfold zlen in *. lia.
  - split; [done|]. exists mems, st'. done.
Qed.

Lemma validated_packet_count sha256_hex g limits :
  validate_posting_generation sha256_hex g limits = true ->
  0 < g.(pg_packet_count) <= MAX_POSTING_ORDINAL + 1.
Proof.
  unfold validate_posting_generation, generation_header_ok. intros H. reflect_bools. lia.
Qed.

(** [g] lists the packets that have the key, for every key. *)
Definition represents (g : PostingGeneration) (mems : list (list posting_key)) : Prop :=
  forall key, posting_values g key.1 key.2 = Ok (ordinals_for key mems).

Lemma build_values sha256_hex decoded structural interfaces limits binding g :
  build_limits_ok limits ->
  build_packet_postings sha256_hex decoded structural interfaces limits binding = Ok g ->
  g.(pg_packet_count) = zlen decoded.1 /\
  exists mems, Forall2 packet_memberships decoded.1 mems /\ represents g mems.
Proof.
  intros Hlim H. apply build_Ok in H as (_ & _ & Hvalid & mems & st & Hmems & Hinv & Hb & Hg);
    [|done]. apply validated_packet_count in Hvalid as Hcount.
  assert (pg_packet_count g = zlen mems) as Hpc by (rewrite Hg; apply Hinv).
  split; [rewrite Hpc; unfold zlen; by rewrite (Forall2_length _ _ _ Hmems)|].
  exists mems. split; [done|]. intros key.
  destruct (bi_keys _ _ _ Hinv key) as (parts & Hparts & _ & Hconcat).
  rewrite Hb, lookup_empty, app_nil_r in Hconcat. simpl in Hconcat.
  rewrite <- Hconcat. apply posting_values_of; [by rewrite Hg|done|].
  rewrite Hconcat, Hpc. apply ordinals_for_range.
Qed.

(** ** Properties *)

(** C8: a generation that [build_packet_postings] returns is right: the decoder
    ended without error after as many packets as the structural snapshot has,
    and for every dictionary key [posting_values] succeeds and lists, in
    increasing order and without repetition, exactly the indices of the packets
    whose memberships include the key, however the packets fell into chunks. *)
Theorem build_packet_postings_represents (sha256_hex : bytes -> string)
    (decoded : list ExportPacket * res unit) (structural : list StructuralPacketEntry)
    (interfaces : list StructuralInterfaceEntry) (limits : PostingBuildLimits) (binding : bytes)
    (g : PostingGeneration) :
  build_limits_ok limits ->
  build_packet_postings sha256_hex decoded structural interfaces limits binding = Ok g ->
  decoded.2 = Ok tt /\ zlen decoded.1 = zlen structural /\
  g.(pg_packet_count) = zlen decoded.1 /\
  exists mems, Forall2 packet_memberships decoded.1 mems /\
    forall key, posting_values g key.1 key.2 = Ok (ordinals_for key mems) /\
      StronglySorted Z.lt (ordinals_for key mems) /\
      forall n, n ∈ ordinals_for key mems <->
        0 <= n /\ exists m, mems !! Z.to_nat n = Some m /\ key ∈ m.
Proof.
  intros Hlim H. destruct (build_values _ _ _ _ _ _ _ Hlim H) as (Hpc & mems & Hmems & Hvalues).
  apply build_Ok in H as (Hfin & Hlen & _); [|done].
  split_and!; [done..|]. exists mems. split; [done|]. intros key.
  split_and!; [apply Hvalues|apply ordinals_for_sorted|intros; apply elem_of_ordinals_for].
Qed.

Definition sample_hash (_ : bytes) : string :=
  "0123456789abcdef0123456789abcdef0123456789abcdef0123456789abcdef".

(** The decoder and the index of a sample, as the build takes them. *)
Definition sample_decoded (content : bytes) : list ExportPacket * res unit :=
  export_packets 400 {| bio_data := content |} "s" 0 ["10.0.0.0/8"%string].
Definition sample_structural (content : bytes)
    : list StructuralPacketEntry * list StructuralInterfaceEntry :=
  match (scan_structural_packet_index sample_hash 400 {| bio_data := content |}
           (sample_limits 5 false)).2 with
  | Ok out => (out.(ssr_packets), out.(ssr_interfaces))
  | Err _ => ([], [])
  end.

Lemma build_packet_postings_represents_witness :
  exists g, build_packet_postings sample_hash (sample_decoded sample_pcap)
      (sample_structural sample_pcap).1 (sample_structural sample_pcap).2
      (mk_build_limits 9 99 99 999 99 1) [] = Ok g /\
    g.(pg_packet_count) = zlen (sample_decoded sample_pcap).1 /\
    posting_values g PROTOCOL (text "TCP") = Ok [1].
Proof.
  destruct (build_packet_postings sample_hash (sample_decoded sample_pcap)
      (sample_structural sample_pcap).1 (sample_structural sample_pcap).2
      (mk_build_limits 9 99 99 999 99 1) []) as [g|e] eqn:E; [|vm_compute in E; discriminate].
  exists g. split; [done|]. split; [|vm_compute in E; injection E as <-; vm_compute; reflexivity].
  eapply (build_packet_postings_represents sample_hash); [|exact E]. repeat split; reflexivity.
Defined.
