(* ===== verification/PostingComplete.v ===== *)
(** * PostingComplete

    The other half of [build_packet_postings]: on the packets and the index of
    one capture the build never reports a structural mismatch, an invalid
    value, a codec fault or a failed validation; it returns a generation or
    stops at one of its limits. *)

From S2P Require Import Prelude Bytes Samples Reader ReaderLogic IpAddress IpText.
From S2P Require Import PacketProjection StructuralIndex StructuralProofs ExportDecoder.
From S2P Require Import ExportAgreement PostingCodec PostingModel PostingBuild PostingProofs.

(** ** Canonical values of decoded packets *)

Lemma canonical_address_ip a :
  ip_ok a -> canonical_address (ip_str a) = Ok (z2b (ip_version a) :: ip_packed a).
Proof. intros Ha. unfold canonical_address. by rewrite parse_ip_str. Qed.

Lemma ip_str_nonempty a : ip_ok a -> ip_str a <> ""%string.
Proof. intros Ha Heq. pose proof (parse_ip_str a Ha) as H. by rewrite Heq in H. Qed.

Lemma valid_address_value a :
  ip_ok a -> _valid_posting_value SRC_ADDRESS (z2b (ip_version a) :: ip_packed a) = true.
Proof.
  intros Ha. unfold _valid_posting_value. rewrite zlen_cons, ip_packed_length.
  generalize (ip_packed a). by destruct a.
Qed.

Lemma canonical_port_Ok p :
  0 <= p < 65536 -> canonical_port p = Ok (to_be 2 p) /\ zlen (to_be 2 p) = 2.
Proof.
  intros Hp. unfold canonical_port. rewrite (proj2 (Z.leb_le 0 p)), (proj2 (Z.leb_le p _)) by lia.
  split; [done|]. apply (zlen_to_bytes BE 2).
Qed.

(** All 256 protocol names. *)
Definition protocol_name_ok (n : Z) : bool :=
  let name := protocol_name n in
  match canonical_protocol name with
  | Ok b => bool_decide (b = encode_ascii name) && _valid_posting_value PROTOCOL b
            && negb (bool_decide (name = ""%string))
  | Err _ => false
  end.

Lemma protocol_names_ok : forallb protocol_name_ok (Z.of_nat <$> seq 0 256) = true.
Proof. vm_compute. reflexivity. Qed.

Lemma canonical_protocol_name n :
  0 <= n < 256 ->
  protocol_name n <> ""%string /\
  canonical_protocol (protocol_name n) = Ok (encode_ascii (protocol_name n)) /\
  _valid_posting_value PROTOCOL (encode_ascii (protocol_name n)) = true.
Proof.
  intros Hn. pose proof protocol_names_ok as H. rewrite forallb_forall in H.
  specialize (H n). unfold protocol_name_ok in H.
  assert (In n (Z.of_nat <$> seq 0 256)) as Hin.
  { apply list_elem_of_In, list_elem_of_fmap. exists (Z.to_nat n).
    split; [lia|]. apply elem_of_seq. lia. }
  specialize (H Hin). destruct (canonical_protocol (protocol_name n)) as [b|e]; [|done].
  apply andb_prop in H as [[Hb Hv]%andb_prop Hne]. apply bool_decide_eq_true in Hb as ->.
  apply negb_true_iff, bool_decide_eq_false in Hne. done.
Qed.

Definition keys_valid (m : list posting_key) : Prop :=
  Forall (fun k => _valid_posting_value k.1 k.2 = true) m.

Lemma payload_valid b : _valid_posting_value HAS_PAYLOAD (canonical_payload b) = true.
Proof. by destruct b. Qed.

(** A decoded packet has a posting projection, with canonical values only. *)
Lemma projection_total networks packet :
  projection_wf networks packet.(ep_projection) ->
  exists item, _projection packet = Ok item /\ keys_valid (_projection_memberships item).
Proof.
  unfold _projection, keys_valid. intros [->|(Hsup & a & b & n & Hp)]; simpl.
  { eexists. split; [done|]. repeat constructor. }
  destruct Hp as [Ha Hb _ Hs Hd Hn Hproto Hports [pl Hpl] _].
  destruct (canonical_protocol_name n Hn) as (Hne & Hcp & Hvp).
  rewrite Hsup, Hs, Hd, Hproto, Hpl. cbn [canonical_text canonical_opt].
  rewrite !bool_decide_false by (done || by apply ip_str_nonempty).
  rewrite !canonical_address_ip, Hcp by done. cbn [mbind res_bind].
  assert (forall d v, d = SRC_ADDRESS \/ d = DST_ADDRESS ->
    _valid_posting_value SRC_ADDRESS v = true -> _valid_posting_value d v = true) as Haddr
    by (by intros ? ? [-> | ->]).
  pose proof (valid_address_value a Ha) as Hva. pose proof (valid_address_value b Hb) as Hvb.
  pose proof (payload_valid pl) as Hvpl.
  destruct Hports as [[-> ->]|(sp & dp & -> & -> & Hsp & Hdp & _)].
  - eexists. split; [done|]. unfold _projection_memberships; simpl.
    repeat (apply Forall_cons; split); try done.
  - destruct (canonical_port_Ok sp Hsp) as [Esp Lsp], (canonical_port_Ok dp Hdp) as [Edp Ldp].
    simpl. rewrite Esp, Edp. simpl. eexists. split; [done|].
    unfold _projection_memberships; simpl.
    repeat (apply Forall_cons; split); try done.
Qed.

(** ** The structural comparison *)

Lemma interface_map_snoc ifs i :
  interface_map (ifs ++ [i]) = <[i.(sie_interface_ordinal) := i]> (interface_map ifs).
Proof. unfold interface_map. by rewrite fold_left_app. Qed.

Lemma interface_map_spec ifs :
  (forall k i, ifs !! k = Some i -> i.(sie_interface_ordinal) = Z.of_nat k) ->
  (forall n, interface_map ifs !! n = if 0 <=? n then ifs !! Z.to_nat n else None) /\
  Z.of_nat (size (interface_map ifs)) = zlen ifs.
Proof.
  induction ifs as [|i ifs IH] using rev_ind; intros Hord.
  { split; [|done]. intros n. unfold interface_map; simpl. rewrite lookup_empty. by case_match. }
  destruct IH as [Hlookup Hsize].
  { intros k j Hk. apply Hord. by apply lookup_app_l_Some. }
  assert (sie_interface_ordinal i = zlen ifs) as Hi.
  { apply (Hord (length ifs)). by rewrite lookup_app_r, Nat.sub_diag by lia. }
  rewrite interface_map_snoc, Hi. split.
  - intros n. destruct (decide (n = zlen ifs)) as [->|Hn].
    + rewrite lookup_insert_eq, (proj2 (Z.leb_le 0 _)) by apply zlen_nonneg. unfold zlen.
      by rewrite Nat2Z.id, lookup_app_r, Nat.sub_diag by lia.
    + rewrite lookup_insert_ne, Hlookup by done. destruct (Z.leb_spec 0 n); [|done].
      destruct (ifs !! Z.to_nat n) eqn:E; [by rewrite lookup_app_l_Some with (x := s)|].
      apply lookup_ge_None in E. symmetry. apply lookup_ge_None. rewrite length_app; simpl.
      unfold zlen in Hn. lia.
  - rewrite map_size_insert_None, zlen_app, zlen_cons, zlen_nil; [lia|].
    rewrite Hlookup. case_match; [|done]. apply lookup_ge_None. unfold zlen. lia.
Qed.

Lemma decoded_matches content source_id source_order networks ifs p q :
  (forall k i, ifs !! k = Some i -> interface_ok k i) ->
  packet_interface ifs p -> decoded_as content source_id source_order networks ifs p q ->
  packet_matches (interface_map ifs) p q = true.
Proof.
  intros Hok (k & i & Hk & Hord & Hid & Hsec & _) (j & Hj & Hloc & Hif & Horig & _).
  rewrite Hord, Nat2Z.id, Hk in Hj. injection Hj as <-.
  destruct (interface_map_spec ifs) as [Hlookup _]. { intros; by eapply Hok. }
  unfold packet_matches. rewrite Hloc, Hif, Horig, Hlookup, Hord. simpl.
  rewrite (proj2 (Z.leb_le 0 _)), Nat2Z.id, Hk by lia.
  destruct (Hok _ _ Hk) as [Hio _]. unfold _same_interface; simpl.
  by rewrite <- Hid, <- Hsec, Hio, !Z.eqb_refl.
Qed.

(** ** Progress of the build *)

Definition resource_limit (e : exn) : Prop :=
  match e with PostingResourceLimitError _ => True | _ => False end.

(** A result, or one of the limits. *)
Definition or_limit {A} (P : A -> Prop) (r : res A) : Prop :=
  match r with Ok a => P a | Err e => resource_limit e end.

Lemma or_limit_bind {A B} (Q : A -> Prop) (P : B -> Prop) (r : res A) (f : A -> res B) :
  or_limit Q r -> (forall a, Q a -> or_limit P (f a)) -> or_limit P (r ≫= f).
Proof. destruct r; simpl; auto. Qed.

Lemma or_limit_guard cond msg :
  or_limit (fun _ => cond = false) (raise_if cond (PostingResourceLimitError msg)).
Proof. by destruct cond. Qed.

Lemma ordinals_suffix_ok key mems pre l :
  pre ++ l = ordinals_for key mems -> zlen mems <= MAX_POSTING_ORDINAL -> ordinals_ok (-1) l.
Proof.
  intros Heq Hmax. pose proof (ordinals_for_sorted key mems) as Hs.
  pose proof (ordinals_for_range key mems) as Hr. rewrite <- Heq in Hs, Hr.
  apply StronglySorted_app in Hs as (_ & _ & Hs). apply Forall_app in Hr as [_ Hr].
  split_and!; [done| |].
  - eapply Forall_impl; [exact Hr|]. simpl. lia.
  - intros v Hv%head_Some_elem_of. rewrite Forall_forall in Hr. specialize (Hr v Hv). lia.
Qed.

Lemma batch_chunks_total limits mems st keys :
  build_inv limits mems st -> zlen mems <= MAX_POSTING_ORDINAL ->
  is_Ok (batch_chunks st keys).
Proof.
  intros Hinv Hmax. induction keys as [|key keys [cs IH]]; simpl; [by eexists|].
  destruct (bi_keys _ _ _ Hinv key) as (parts & _ & _ & Hconcat).
  apply ordinals_suffix_ok in Hconcat; [|done].
  apply encode_from_Ok in Hconcat as [bs Henc]; [|lia].
  unfold batch_chunk, encode_ordinals. rewrite Henc. simpl. rewrite IH. by eexists.
Qed.

Lemma flush_progress limits mems st :
  build_inv limits mems st -> zlen mems <= MAX_POSTING_ORDINAL ->
  or_limit (fun st' => build_inv limits mems st' /\ st'.(b_batch) = ∅ /\
                       st'.(b_count) = st.(b_count)) (flush limits st).
Proof.
  intros Hinv Hmax. pose proof (fun st' => flush_inv limits mems st st' Hinv) as Hflush.
  unfold flush in *.
  destruct (batch_chunks_total limits mems st (sort_by key_leb (elements (dom (b_batch st)))) Hinv Hmax)
    as [pending Hp]. rewrite Hp in *. cbn [mbind res_bind] in *.
  destruct (raise_if (_ <? b_encoded_bytes st + _) _) eqn:E1; simpl;
    [|by apply raise_if_error in E1 as ->]. simpl in Hflush.
  destruct (raise_if (_ <? zlen _ + _) _) eqn:E2; simpl in *;
    [|by apply raise_if_error in E2 as ->]. exact (Hflush _ eq_refl).
Qed.

Section progress.
Context (content : bytes) (source_id : string) (source_order : Z) (networks : list ip_network).
Context (interfaces : list StructuralInterfaceEntry) (limits : PostingBuildLimits).
Hypothesis interfaces_ok : forall k i, interfaces !! k = Some i -> interface_ok k i.
Hypothesis packets_bound : limits.(pbl_max_packets) <= MAX_POSTING_ORDINAL.

Definition mems_valid (mems : list (list posting_key)) : Prop := Forall keys_valid mems.

Lemma build_packet_progress structural p q mems st :
  structural !! Z.to_nat st.(b_count) = Some p -> packet_interface interfaces p ->
  decoded_as content source_id source_order networks interfaces p q ->
  build_inv limits mems st -> mems_valid mems ->
  or_limit (fun st' => exists m, packet_memberships q m /\ mems_valid (mems ++ [m]) /\
                                 build_inv limits (mems ++ [m]) st')
    (build_packet limits (interface_map interfaces) structural q st).
Proof.
  intros Hk Hif Hdec Hinv Hvalid. unfold build_packet.
  eapply or_limit_bind; [apply or_limit_guard|]. intros ? Hmax; cbv beta in Hmax. rewrite Hk.
  rewrite (decoded_matches content source_id source_order networks) by done.
  destruct Hdec as (i & _ & _ & _ & _ & _ & Hproj & _).
  destruct (project_wf (packet_bytes content p) (sie_link_type i) networks) as (pr & Hpr & Hwf).
  rewrite Hpr in Hproj. injection Hproj as ->.
  destruct (projection_total networks q Hwf) as (item & Hitem & Hkeys). rewrite Hitem.
  cbn [negb raise_if mbind res_bind].
  eapply or_limit_bind; [apply or_limit_guard|]. intros ? H1; cbv beta in H1.
  eapply or_limit_bind; [apply or_limit_guard|]. intros ? H2; cbv beta in H2. reflect_bools.
  pose proof (push_packet_inv limits mems st item Hinv ltac:(lia) ltac:(lia) ltac:(lia)) as Hinv1.
  cbv zeta in *. pose proof (bi_count _ _ _ Hinv1) as Hc1. pose proof (bi_max_packets _ _ _ Hinv1).
  assert (mems_valid (mems ++ [_projection_memberships item])) as Hvalid1.
  { apply Forall_app. split; [done|]. by apply Forall_singleton. }
  destruct (_ =? 0).
  - pose proof (flush_progress limits _ _ Hinv1 ltac:(lia)) as Hflush.
    destruct (flush limits (push_packet item st)); simpl in *; [|done].
    eexists. split_and!; [by exists item|done|apply Hflush].
  - simpl. eexists. split_and!; [by exists item|done|done].
Qed.

Lemma build_packets_progress structural pre entries packets mems st :
  structural = pre ++ entries -> zlen pre = zlen mems ->
  Forall (packet_interface interfaces) entries ->
  Forall2 (decoded_as content source_id source_order networks interfaces) entries packets ->
  build_inv limits mems st -> mems_valid mems ->
  or_limit (fun st' => exists ms, Forall2 packet_memberships packets ms /\
                         mems_valid (mems ++ ms) /\ build_inv limits (mems ++ ms) st')
    (build_packets limits (interface_map interfaces) structural packets st).
Proof.
  intros Hstr Hlen Hif Hdec. revert pre mems st Hstr Hlen.
  induction Hdec as [|p q entries packets Hpq Hdec IH]; intros pre mems st Hstr Hlen Hinv Hvalid; simpl.
  { exists []. rewrite app_nil_r. done. }
  apply Forall_cons in Hif as [Hp Hif].
  eapply or_limit_bind.
  { apply (build_packet_progress structural p q mems); try done.
    rewrite (bi_count _ _ _ Hinv), <- Hlen, Hstr. unfold zlen.
    by rewrite Nat2Z.id, lookup_app_r, Nat.sub_diag by lia. }
  intros st1 (m & Hm & Hvalid1 & Hinv1).
  specialize (IH Hif (pre ++ [p]) (mems ++ [m]) st1). rewrite <- app_assoc in IH. simpl in IH.
  specialize (IH Hstr). rewrite !zlen_app, Hlen, !zlen_cons, !zlen_nil in IH.
  specialize (IH eq_refl Hinv1 Hvalid1).
  destruct (build_packets _ _ _ packets st1) as [st'|e]; simpl in *; [|done].
  destruct IH as (ms & Hms & Hv & Hi). exists (m :: ms). rewrite <- app_assoc in Hv, Hi.
  split_and!; [by constructor|done|done].
Qed.
End progress.

(** ** The digest document of a built generation *)

Lemma directory_of_snoc cs c : directory_of (cs ++ [c]) = directory_add c (directory_of cs).
Proof. unfold directory_of. by rewrite fold_left_app. Qed.

Lemma directory_of_lookup cs key :
  default [] (directory_of cs !! key) = key_chunks key cs /\
  (key ∈ dom (directory_of cs) <-> key ∈ pc_key <$> cs).
Proof.
  unfold key_chunks. induction cs as [|c cs IH] using rev_ind.
  { unfold directory_of; simpl. rewrite lookup_empty. set_solver. }
  destruct IH as [Hl Hd]. rewrite directory_of_snoc, filter_app, fmap_app. unfold directory_add.
  rewrite dom_insert, elem_of_union, Hd, elem_of_app. split.
  - destruct (decide (pc_key c = key)) as [<-|Hne].
    + rewrite lookup_insert_eq, filter_cons, decide_True by done. simpl. by rewrite Hl.
    + rewrite lookup_insert_ne, filter_cons, decide_False by done. by rewrite app_nil_r.
  - rewrite elem_of_singleton. simpl. rewrite list_elem_of_singleton. naive_solver.
Qed.

Definition count_if (b : bool) (n : Z) : Z := if b then n else 0.

Lemma digest_ordinals_ok d os c s :
  -1 <= c.(cs_logical_previous) -> StronglySorted Z.lt os ->
  Forall (fun o => c.(cs_logical_previous) < o < MAX_POSTING_ORDINAL) os ->
  (d = ALL_PACKET -> forall k o, os !! k = Some o -> o = s.(ds_all_packets) + Z.of_nat k) ->
  exists document, digest_ordinals d os (c, s) = Ok (
    mk_chunk_state (default c.(cs_logical_previous) (last os))
      (match c.(cs_first) with None => head os | f => f end)
      (match last os with None => c.(cs_last) | l => l end) (c.(cs_count) + zlen os),
    mk_digest_state document (s.(ds_memberships) + zlen os)
      (s.(ds_supported) + count_if (bool_decide (d = SUPPORTED)) (zlen os))
      (s.(ds_all_packets) + count_if (bool_decide (d = ALL_PACKET)) (zlen os))).
Proof.
  revert c s. induction os as [|o os IH]; intros c s Hprev Hsort Hrange Hall.
  { exists (ds_document s). unfold count_if. destruct c as [? []], s; simpl. rewrite !zlen_nil, !Z.add_0_r.
    all: repeat case_match; by rewrite ?Z.add_0_r. }
  apply StronglySorted_inv in Hsort as [Hsort Hlt]. apply Forall_cons in Hrange as [Ho Hrange].
  cbn [digest_ordinals]. unfold digest_ordinal.
  rewrite (proj2 (Z.leb_gt o _)) by lia. cbn [raise_if mbind res_bind].
  rewrite varint_Ok by lia. cbn [mbind res_bind].
  assert (bool_decide (d = ALL_PACKET) && negb (o =? ds_all_packets s) = false) as Hcont.
  { destruct (decide (d = ALL_PACKET)) as [Hd|Hd]; [|by rewrite bool_decide_false].
    rewrite (Hall Hd 0%nat o eq_refl), Z.add_0_r, Z.eqb_refl. apply andb_false_r. }
  cbn [ds_all_packets ds_update]. rewrite Hcont. cbn [raise_if mbind res_bind].
  edestruct IH as [document Heq]; last first.
  { exists document. rewrite Heq. cbn [cs_logical_previous cs_first cs_last cs_count ds_memberships
      ds_supported ds_all_packets ds_update]. rewrite !zlen_cons. unfold count_if.
    rewrite last_cons. do 2 f_equal; f_equal; repeat case_match; simplify_eq; try lia; done. }
  - simpl. intros Hd k x Hk. rewrite (Hall Hd (S k) x Hk). rewrite bool_decide_true by done. lia.
  - simpl. rewrite Forall_forall in *. intros x Hx. specialize (Hlt x Hx). specialize (Hrange x Hx). lia.
  - done.
  - simpl. lia.
Qed.

#[local] Arguments digest_chunk : simpl never.

(** The counters after [n] ordinals of dimension [d]. *)
Definition counted (d : PostingDimension) (n : Z) (s s' : DigestState) : Prop :=
  s'.(ds_memberships) = s.(ds_memberships) + n /\
  s'.(ds_supported) = s.(ds_supported) + count_if (bool_decide (d = SUPPORTED)) n /\
  s'.(ds_all_packets) = s.(ds_all_packets) + count_if (bool_decide (d = ALL_PACKET)) n.

Lemma counted_trans d n n' s s' s'' :
  counted d n s s' -> counted d n' s' s'' -> counted d (n + n') s s''.
Proof. unfold counted, count_if. intros (-> & -> & ->) (-> & -> & ->). repeat case_match; lia. Qed.

Lemma counted_update d n s s' part part' :
  counted d n (ds_update part s) s' -> counted d n s (ds_update part' s').
Proof. done. Qed.

Lemma digest_chunk_ok d v count i part c prev s :
  chunk_of (d, v) i part c -> -1 <= prev -> 0 < count <= MAX_POSTING_ORDINAL ->
  StronglySorted Z.lt part -> Forall (fun o => prev < o < count) part ->
  (d = ALL_PACKET -> forall k o, part !! k = Some o -> o = s.(ds_all_packets) + Z.of_nat k) ->
  exists s', digest_chunk d count i c (prev, s) = Ok (default prev (last part), s') /\
    counted d (zlen part) s s'.
Proof.
  intros (Hne & Henc & Hc) Hprev Hcount Hsort Hrange Hall. unfold digest_chunk.
  rewrite (decode_ordinals_encoded part); [|intros m [= <-]; split; [lia|]|done].
  2:{ eapply Forall_impl; [exact Hrange|]. simpl. lia. }
  destruct (digest_ordinals_ok d part (mk_chunk_state prev None None 0) s) as [document Heq];
    [done|done|eapply Forall_impl; [exact Hrange|]; simpl; lia|done|].
  rewrite Heq. cbn [mbind res_bind cs_count cs_first cs_last cs_logical_previous].
  rewrite Hc. cbn [pc_chunk_ordinal pc_count pc_first_packet_index pc_last_packet_index].
  assert (1 <= zlen part) as Hlen.
  { destruct part as [|x part]; [done|]. rewrite zlen_cons. pose proof (zlen_nonneg part). lia. }
  assert (head part = Some (default 0 (head part))) as Hhead by (by destruct part).
  assert (exists x, last part = Some x) as [x Hx].
  { destruct (last part) eqn:E; [by eexists|]. by apply last_None in E. }
  rewrite Hx, !Z.add_0_l, !Z.eqb_refl, <- Hhead, (bool_decide_true (head part = head part)),
    (bool_decide_true (Some x = _)) by done.
  rewrite (proj2 (Z.ltb_ge (zlen part) 1)) by lia. cbn [orb negb raise_if mbind res_bind].
  eexists. split; [done|]. done.
Qed.

Lemma digest_chunks_ok d v count i parts cs prev s :
  chunks_of (d, v) i parts cs -> -1 <= prev -> 0 < count <= MAX_POSTING_ORDINAL ->
  StronglySorted Z.lt (concat parts) -> Forall (fun o => prev < o < count) (concat parts) ->
  (d = ALL_PACKET -> forall k o, concat parts !! k = Some o -> o = s.(ds_all_packets) + Z.of_nat k) ->
  exists last s', digest_chunks d count i cs (prev, s) = Ok (last, s') /\
    counted d (zlen (concat parts)) s s'.
Proof.
  revert i cs prev s. induction parts as [|p parts IH]; intros i [|c cs] prev s; simpl; try done.
  { intros. exists prev, s. split; [done|]. unfold counted, count_if. rewrite zlen_nil.
    repeat case_match; lia. }
  intros [Hc Hcs] Hprev Hcount (Hcross & Hsp & Hs)%StronglySorted_app [Hp Hr]%Forall_app Hall.
  destruct (digest_chunk_ok d v count i p c prev s) as (s1 & Heq & Hcnt); try done.
  { intros Hd k o Hk. apply (Hall Hd). by apply lookup_app_l_Some. }
  rewrite Heq. cbn [mbind res_bind]. destruct Hc as [Hne _].
  assert (exists x, last p = Some x) as [x Hx].
  { destruct (last p) eqn:E; [by eexists|]. by apply last_None in E. }
  rewrite Hx. simpl. assert (x ∈ p) as Hxp by (by apply last_Some_elem_of).
  destruct (IH (i + 1) cs x s1) as (l & s2 & Heq2 & Hcnt2); try done.
  - rewrite Forall_forall in Hp. specialize (Hp x Hxp). lia.
  - rewrite Forall_forall in *. intros o Ho. specialize (Hr o Ho). split; [by apply Hcross|lia].
  - intros Hd k o Hk. destruct Hcnt as (_ & _ & ->). rewrite bool_decide_true by done. simpl.
    rewrite (Hall Hd (length p + k)%nat o); [unfold zlen; lia|].
    rewrite lookup_app_r by lia. by replace (length p + k - length p)%nat with k by lia.
  - rewrite Heq2. exists l, s2. split; [done|]. rewrite zlen_app. by eapply counted_trans.
Qed.

(** Every packet is in [ALL_PACKET]: its ordinals are contiguous. *)
Lemma ordinals_from_all i key mems k o :
  Forall (fun m => key ∈ m) mems -> ordinals_from i key mems !! k = Some o -> o = i + Z.of_nat k.
Proof.
  intros Hall. revert i k. induction Hall as [|m mems Hm Hall IH]; intros i k; simpl; [done|].
  rewrite bool_decide_true by done. destruct k as [|k]; simpl.
  - intros [= <-]. lia.
  - intros H%IH. lia.
Qed.

Lemma zlen_ordinals_all key mems :
  Forall (fun m => key ∈ m) mems -> zlen (ordinals_for key mems) = zlen mems.
Proof.
  unfold ordinals_for. generalize 0. intros i Hall. revert i.
  induction Hall as [|m mems Hm Hall IH]; intros i; simpl; [done|].
  rewrite bool_decide_true by done. simpl. rewrite !zlen_cons, IH. done.
Qed.

Lemma valid_unit_dimension d v :
  d = ALL_PACKET \/ d = SUPPORTED -> _valid_posting_value d v = true -> v = [].
Proof. intros [-> | ->] H; by apply bool_decide_eq_true in H. Qed.

Section digest_total.
Context (limits : PostingBuildLimits) (mems : list (list posting_key)) (st : BuildState).
Hypothesis inv : build_inv limits mems st.
Hypothesis flushed : st.(b_batch) = ∅.
Hypothesis bound : 0 < zlen mems <= MAX_POSTING_ORDINAL.
Hypothesis all_packet : Forall (fun m => (ALL_PACKET, []) ∈ m) mems.

Lemma flushed_parts key :
  exists parts, chunks_of key 0 parts (key_chunks key st.(b_chunks)) /\
    concat parts = ordinals_for key mems.
Proof.
  destruct (bi_keys _ _ _ inv key) as (parts & Hparts & _ & Hconcat). exists parts.
  rewrite flushed, lookup_empty, app_nil_r in Hconcat. done.
Qed.

Lemma digest_key_ok key s :
  _valid_posting_value key.1 key.2 = true ->
  (key = (ALL_PACKET, []) -> s.(ds_all_packets) = 0) ->
  exists s', digest_key (zlen mems) (directory_of st.(b_chunks)) key s = Ok s' /\
    counted key.1 (zlen (ordinals_for key mems)) s s'.
Proof.
  intros Hvalid Hzero. destruct key as [d v]. cbn [fst snd] in *. unfold digest_key.
  rewrite Hvalid. cbn [negb raise_if mbind res_bind].
  rewrite (proj1 (directory_of_lookup _ _)).
  destruct (flushed_parts (d, v)) as (parts & Hparts & Hconcat).
  rewrite sort_by_sorted by (by eapply chunks_of_sorted). rewrite <- Hconcat.
  match goal with |- context [digest_chunks _ _ _ _ (_, ?s0)] =>
    destruct (digest_chunks_ok d v (zlen mems) 0 parts (key_chunks (d, v) (b_chunks st)) (-1) s0)
      as (l & s' & Heq & Hcnt) end; try done.
  - rewrite Hconcat. apply ordinals_for_sorted.
  - rewrite Hconcat. eapply Forall_impl; [apply ordinals_for_range|]. simpl. lia.
  - intros -> k o. assert (v = []) as -> by (by eapply valid_unit_dimension; [left|]).
    rewrite Hconcat. intros ->%ordinals_from_all; [|done]. simpl. by rewrite Hzero.
  - rewrite Heq. cbn [mbind res_bind]. eexists. split; [done|]. done.
Qed.

(** The ordinals of a set of keys. *)
Definition keys_total (keys : list posting_key) : Z :=
  foldr Z.add 0 ((fun key => zlen (ordinals_for key mems)) <$> keys).

Lemma digest_keys_ok keys s :
  NoDup keys -> Forall (fun key => _valid_posting_value key.1 key.2 = true) keys ->
  ((ALL_PACKET, []) ∈ keys -> s.(ds_all_packets) = 0) ->
  exists s', digest_keys (zlen mems) (directory_of st.(b_chunks)) keys s = Ok s' /\
    s'.(ds_memberships) = s.(ds_memberships) + keys_total keys /\
    s'.(ds_supported) = s.(ds_supported) + count_if (bool_decide ((SUPPORTED, []) ∈ keys))
                          (zlen (ordinals_for (SUPPORTED, []) mems)) /\
    s'.(ds_all_packets) = s.(ds_all_packets) + count_if (bool_decide ((ALL_PACKET, []) ∈ keys))
                            (zlen (ordinals_for (ALL_PACKET, []) mems)).
Proof.
  revert s. induction keys as [|key keys IH]; intros s Hnd Hvalid Hzero.
  { exists s. rewrite !bool_decide_false by apply not_elem_of_nil. unfold keys_total; simpl.
    split_and!; done || lia. }
  apply NoDup_cons in Hnd as [Hkey Hnd]. apply Forall_cons in Hvalid as [Hv Hvalid].
  destruct (digest_key_ok key s) as (s1 & Heq & Hm & Hs & Ha); [done| |].
  { intros ->. apply Hzero. set_solver. }
  destruct (IH s1) as (s2 & Heq2 & Hm2 & Hs2 & Ha2); [done|done| |].
  { intros Hin. rewrite Ha, Hzero by set_solver. unfold count_if.
    destruct key as [d v]. cbn [fst snd] in *. destruct (decide (d = ALL_PACKET)) as [->|Hd];
      [|by rewrite bool_decide_false]. exfalso.
    assert (v = []) as -> by (by eapply valid_unit_dimension; [left|]). done. }
  exists s2. cbn [digest_keys]. rewrite Heq. cbn [mbind res_bind]. split; [done|].
  rewrite Hm2, Hs2, Ha2, Hm, Hs, Ha. unfold keys_total. rewrite fmap_cons. cbn [foldr].
  assert (forall d, d = ALL_PACKET \/ d = SUPPORTED ->
    count_if (bool_decide (key.1 = d)) (zlen (ordinals_for key mems)) +
    count_if (bool_decide ((d, []) ∈ keys)) (zlen (ordinals_for (d, []) mems)) =
    count_if (bool_decide ((d, []) ∈ key :: keys)) (zlen (ordinals_for (d, []) mems))) as Hcount.
  { intros d Hd. destruct key as [d' v]; simpl in *. unfold count_if.
    destruct (decide (d' = d)) as [->|Hne].
    - assert (v = []) as -> by (by eapply valid_unit_dimension).
      rewrite (bool_decide_true (d = d)), (bool_decide_true (_ ∈ _ :: _)),
        bool_decide_false by set_solver. lia.
    - rewrite (bool_decide_false (d' = d)) by (by intros ->).
      rewrite (bool_decide_ext ((d, []) ∈ (d', v) :: keys) ((d, []) ∈ keys)); [lia|].
      rewrite elem_of_cons. naive_solver. }
  split_and!; [lia| |]; rewrite <- Hcount by auto; lia.
Qed.
End digest_total.

(** ** Validation of a built generation *)

(** Counting memberships by key or by packet gives the same number. *)
Lemma keys_total_memberships mems keys :
  NoDup keys -> Forall (fun m => NoDup m /\ Forall (fun k => k ∈ keys) m) mems ->
  keys_total mems keys = total_memberships mems.
Proof.
  intros Hnd. induction mems as [|m mems IH] using rev_ind; intros Hm.
  { unfold keys_total. apply (sumZ_zero (fun key => zlen (ordinals_for key []))).
    by apply Forall_true. }
  apply Forall_app in Hm as [Hmems [Hm Hin]%Forall_singleton].
  rewrite total_memberships_app, <- IH by done. unfold keys_total.
  change (sumZ (fun key => zlen (ordinals_for key (mems ++ [m]))) keys =
    sumZ (fun key => zlen (ordinals_for key mems)) keys + total_memberships [m]).
  rewrite (sumZ_add _ (fun key => zlen (ordinals_for key mems))
    (fun key => if bool_decide (key ∈ m) then 1 else 0)); last first.
  { intros key. rewrite ordinals_for_snoc, zlen_app. by case_bool_decide. }
  f_equal. unfold total_memberships. simpl. rewrite Z.add_0_r. clear Hmems IH.
  induction Hm as [|k m Hk Hm IH].
  { apply sumZ_zero, Forall_true. intros key. by rewrite bool_decide_false by apply not_elem_of_nil. }
  apply Forall_cons in Hin as [Hkin Hin]. rewrite zlen_cons, <- IH by done.
  rewrite (sumZ_add _ (fun key => if bool_decide (key = k) then 1 else 0)
    (fun key => if bool_decide (key ∈ m) then 1 else 0)); [by rewrite sumZ_indicator|].
  intros key. destruct (decide (key = k)) as [->|Hne].
  - rewrite (bool_decide_true (k = k)), (bool_decide_true (_ ∈ _ :: _)), bool_decide_false by set_solver.
    done.
  - rewrite (bool_decide_false (key = k)) by done.
    rewrite (bool_decide_ext (key ∈ k :: m) (key ∈ m)); [done|]. rewrite elem_of_cons. naive_solver.
Qed.

(** Summing over chunks or over the chunks of each key gives the same. *)
Lemma sum_by_key (f : PostingChunk -> Z) cs keys :
  NoDup keys -> Forall (fun c => pc_key c ∈ keys) cs ->
  sumZ f cs = sumZ (fun key => sumZ f (key_chunks key cs)) keys.
Proof.
  intros Hnd. unfold key_chunks. induction 1 as [|c cs Hc Hcs IH].
  { symmetry. apply sumZ_zero. by apply Forall_true. }
  rewrite sumZ_cons, IH.
  rewrite (sumZ_add (fun key => sumZ f (filter (fun c0 => pc_key c0 = key) (c :: cs)))
    (fun key => if bool_decide (key = pc_key c) then f c else 0)
    (fun key => sumZ f (filter (fun c0 => pc_key c0 = key) cs))); [by rewrite sumZ_indicator|].
  intros key. rewrite filter_cons. destruct (decide (pc_key c = key)) as [->|Hne].
  - by rewrite bool_decide_true, sumZ_cons.
  - by rewrite bool_decide_false by congruence.
Qed.

Lemma chunks_of_count key i parts cs :
  chunks_of key i parts cs -> sumZ pc_count cs = zlen (concat parts).
Proof.
  revert i cs. induction parts as [|p parts IH]; intros i [|c cs]; simpl; try done.
  intros [(_ & _ & Hc) Hcs]. rewrite sumZ_cons, zlen_app, (IH (i + 1)) by done.
  by rewrite Hc.
Qed.

Lemma chunks_of_elem key i parts cs c :
  chunks_of key i parts cs -> c ∈ cs -> exists j p, 0 <= i -> 0 <= j /\ p ∈ parts /\ chunk_of key j p c.
Proof.
  revert i cs. induction parts as [|p parts IH]; intros i [|d cs]; simpl; try done.
  - intros _ ?%not_elem_of_nil. done.
  - intros [Hd Hcs] [->|Hc]%elem_of_cons.
    + exists i, p. intros. split_and!; [done|by left|done].
    + destruct (IH _ _ Hcs Hc) as (j & q & H). exists j, q. intros Hi.
      destruct H as (? & ? & ?); [lia|]. split_and!; [done|by right|done].
Qed.

Lemma declared_totals_ok (g : PostingGeneration) (cs : list PostingChunk) (memberships encoded : Z) (keys : gset posting_key) :
  Forall (fun c => chunk_declaration_ok g.(pg_packet_count) c = true) cs ->
  memberships + sumZ pc_count cs <= g.(pg_membership_count) ->
  encoded + chunks_bytes cs <= g.(pg_encoded_byte_count) ->
  Z.of_nat (size (list_to_set (pc_key <$> cs) ∪ keys)) <= g.(pg_distinct_key_count) ->
  declared_totals g cs memberships encoded keys =
  Some (memberships + sumZ pc_count cs, encoded + chunks_bytes cs,
        list_to_set (pc_key <$> cs) ∪ keys).
Proof.
  intros Hok. revert memberships encoded keys.
  induction Hok as [|c cs Hc Hcs IH]; intros memberships encoded keys Hm Hb Hk;
    cbn [declared_totals].
  { cbn. by rewrite !Z.add_0_r, union_empty_l_L. }
  rewrite Hc. cbn [negb].
  assert (0 <= sumZ pc_count cs) as Hnn.
  { apply sumZ_nonneg. eapply Forall_impl; [exact Hcs|]. simpl. unfold chunk_declaration_ok.
    intros x Hx. reflect_bools. lia. }
  assert (0 <= chunks_bytes cs) as Hnb.
  { apply (sumZ_nonneg (fun x => zlen (pc_encoded_ordinals x))), Forall_true. intros. apply zlen_nonneg. }
  change (chunks_bytes (c :: cs)) with (zlen (pc_encoded_ordinals c) + chunks_bytes cs) in *.
  change (sumZ pc_count (c :: cs)) with (pc_count c + sumZ pc_count cs) in *.
  assert (list_to_set (pc_key <$> c :: cs) ∪ keys =
    list_to_set (pc_key <$> cs) ∪ ({[pc_key c]} ∪ keys)) as Hset.
  { rewrite fmap_cons, list_to_set_cons. set_solver. }
  rewrite Hset in *.
  assert (size ({[pc_key c]} ∪ keys) <= size (list_to_set (pc_key <$> cs) ∪ ({[pc_key c]} ∪ keys)))%nat
    by (apply subseteq_size; set_solver).
  rewrite !(proj2 (Z.ltb_ge _ _)) by lia. cbn [orb].
  rewrite IH by (try done; lia). do 2 f_equal. f_equal; lia.
Qed.

Section validation.
Context (sha256_hex : bytes -> string).
Hypothesis sha256_hex_ok : forall b, is_sha256_hex (sha256_hex b) = true.
Context (limits : PostingBuildLimits) (mems : list (list posting_key)) (st : BuildState).
Context (binding : bytes).
Hypothesis inv : build_inv limits mems st.
Hypothesis flushed : st.(b_batch) = ∅.
Hypothesis some_packet : 0 < zlen mems.
Hypothesis mems_ok : Forall (fun m => NoDup m /\ (ALL_PACKET, []) ∈ m /\ keys_valid m) mems.
Hypothesis limits_le :
  limits.(pbl_max_packets) <= default_build_limits.(pbl_max_packets) /\
  limits.(pbl_max_memberships) <= default_build_limits.(pbl_max_memberships) /\
  limits.(pbl_max_distinct_keys) <= default_build_limits.(pbl_max_distinct_keys) /\
  limits.(pbl_max_encoded_bytes) <= default_build_limits.(pbl_max_encoded_bytes) /\
  limits.(pbl_max_chunks) <= default_build_limits.(pbl_max_chunks).
Hypothesis binding_le : zlen binding <= default_build_limits.(pbl_max_encoded_bytes).

Lemma packet_bound : 0 < zlen mems <= MAX_POSTING_ORDINAL.
Proof.
  pose proof (bi_count _ _ _ inv). pose proof (bi_max_packets _ _ _ inv).
  unfold default_build_limits, MAX_POSTING_ORDINAL in *; simpl in *. lia.
Qed.

(** The keys of the chunks are the keys of the packets. *)
Lemma chunk_keys key : key ∈ pc_key <$> st.(b_chunks) <-> exists m, m ∈ mems /\ key ∈ m.
Proof.
  destruct (flushed_parts limits mems st inv flushed key) as (parts & Hparts & Hconcat). split.
  - intros (c & -> & Hc)%list_elem_of_fmap.
    assert (c ∈ key_chunks (pc_key c) (b_chunks st)) as Hin by (by apply list_elem_of_filter).
    destruct (chunks_of_elem _ _ _ _ _ Hparts Hin) as (j & p & H).
    destruct H as (_ & Hp & (Hne & _)); [done|].
    destruct p as [|o p]; [done|].
    assert (o ∈ ordinals_for (pc_key c) mems) as Ho.
    { rewrite <- Hconcat. apply list_elem_of_In, in_concat. exists (o :: p). split; [by apply list_elem_of_In|by left]. }
    apply elem_of_ordinals_for in Ho as (_ & m & Hm & ?). exists m.
    split; [by eapply list_elem_of_lookup_2|done].
  - intros (m & Hm & Hk). apply list_elem_of_lookup_1 in Hm as [n Hn].
    assert (Z.of_nat n ∈ ordinals_for key mems) as Ho.
    { apply elem_of_ordinals_for. split; [lia|]. exists m. by rewrite Nat2Z.id. }
    destruct (key_chunks key (b_chunks st)) as [|c cs] eqn:Ecs.
    { destruct parts; [|done]. rewrite <- Hconcat in Ho. by apply not_elem_of_nil in Ho. }
    assert (c ∈ key_chunks key (b_chunks st)) as Hin by (rewrite Ecs; by left).
    apply list_elem_of_filter in Hin as [<- Hin]. by apply list_elem_of_fmap_2.
Qed.

Lemma chunk_key_valid key : key ∈ pc_key <$> st.(b_chunks) -> _valid_posting_value key.1 key.2 = true.
Proof.
  intros (m & Hm & Hk)%chunk_keys. rewrite Forall_forall in mems_ok.
  destruct (mems_ok m Hm) as (_ & _ & Hv). unfold keys_valid in Hv. rewrite Forall_forall in Hv.
  by apply Hv.
Qed.

Lemma chunk_parts c :
  c ∈ st.(b_chunks) -> exists j p, 0 <= j /\ chunk_of (pc_key c) j p c /\
    StronglySorted Z.lt p /\ Forall (fun o => 0 <= o < zlen mems) p.
Proof.
  intros Hc. destruct (flushed_parts limits mems st inv flushed (pc_key c)) as (parts & Hparts & Hconcat).
  assert (c ∈ key_chunks (pc_key c) (b_chunks st)) as Hin by (by apply list_elem_of_filter).
  destruct (chunks_of_elem _ _ _ _ _ Hparts Hin) as (j & p & H).
  destruct H as (Hj & Hp & Hof); [done|]. exists j, p. split_and!; [done|done| |].
  - apply list_elem_of_split in Hp as (l1 & l2 & ->).
    pose proof (ordinals_for_sorted (pc_key c) mems) as Hs. rewrite <- Hconcat, concat_app in Hs.
    apply StronglySorted_app in Hs as (_ & _ & Hs). simpl in Hs.
    by apply StronglySorted_app in Hs as (_ & Hs & _).
  - pose proof (ordinals_for_range (pc_key c) mems) as Hr. rewrite <- Hconcat in Hr.
    rewrite Forall_forall in *. intros o Ho. apply Hr.
    apply list_elem_of_In, in_concat. exists p. split; by apply list_elem_of_In.
Qed.

Lemma sorted_head_last (p : list Z) x y :
  StronglySorted Z.lt p -> head p = Some x -> last p = Some y -> x <= y.
Proof.
  intros Hs Hx Hy. destruct p as [|z p]; [done|]. injection Hx as ->.
  apply StronglySorted_inv in Hs as [_ Hall]. rewrite last_cons in Hy.
  destruct (last p) as [w|] eqn:E; simplify_eq; [|done].
  apply last_Some_elem_of in E. rewrite Forall_forall in Hall. specialize (Hall y E). lia.
Qed.

Lemma chunk_declared c : c ∈ st.(b_chunks) -> chunk_declaration_ok (zlen mems) c = true.
Proof.
  intros Hc. destruct (chunk_parts c Hc) as (j & p & Hj & (Hne & Henc & Heq) & Hsort & Hrange).
  assert (_valid_posting_value (pc_dimension c) (pc_value c) = true) as Hv.
  { apply (chunk_key_valid (pc_key c)). by apply list_elem_of_fmap_2. }
  destruct p as [|o p]; [done|].
  destruct (last (o :: p)) as [l|] eqn:El; [|by apply last_None in El].
  assert (o <= l) by (by eapply sorted_head_last).
  assert (0 <= o < zlen mems) by (rewrite Forall_forall in Hrange; apply Hrange; by left).
  assert (0 <= l < zlen mems).
  { rewrite Forall_forall in Hrange; apply Hrange. by apply last_Some_elem_of. }
  assert (pc_encoded_ordinals c <> []) as Hnn.
  { intros Hnil. rewrite Hnil in Henc. unfold encode_ordinals in Henc. cbn [encode_from] in Henc.
    inv_bind. match goal with H : _varint _ = Ok ?h, H' : ?h ++ _ = [] |- _ =>
      apply varint_inv in H as [_ ->]; apply app_eq_nil in H' as [H' _];
      by apply varint_loop_nonempty in H' end. }
  unfold chunk_declaration_ok. rewrite Hv, bool_decide_false by done. rewrite Heq. simpl.
  pose proof (zlen_nonneg p). rewrite zlen_cons.
  rewrite (proj2 (Z.leb_le 0 j)), (proj2 (Z.leb_le 1 _)), (proj2 (Z.leb_le 0 o)),
    (proj2 (Z.leb_le o l)), (proj2 (Z.ltb_lt l _)) by lia. done.
Qed.

(** The sorted keys of the digest document. *)
Definition document_keys : list posting_key :=
  sort_by key_leb (elements (dom (directory_of st.(b_chunks)))).

Lemma document_keys_spec :
  NoDup document_keys /\ (forall key, key ∈ document_keys <-> key ∈ pc_key <$> st.(b_chunks)).
Proof.
  assert (document_keys ≡ₚ elements (dom (directory_of (b_chunks st)))) as Hperm
    by apply sort_by_perm.
  split; [rewrite Hperm; apply NoDup_elements|]. intros key.
  rewrite Hperm, elem_of_elements. apply directory_of_lookup.
Qed.

Lemma document_keys_size : zlen document_keys = Z.of_nat (size st.(b_distinct)).
Proof.
  destruct document_keys_spec as [Hnd Hin].
  assert (document_keys ≡ₚ elements (b_distinct st)) as Hperm.
  { apply NoDup_Permutation; [done|apply NoDup_elements|]. intros key.
    by rewrite Hin, elem_of_elements, chunk_keys, (bi_distinct _ _ _ inv). }
  unfold zlen. by rewrite Hperm.
Qed.

Lemma document_keys_total : keys_total mems document_keys = st.(b_memberships).
Proof.
  destruct document_keys_spec as [Hnd Hin]. rewrite (bi_memberships _ _ _ inv).
  apply keys_total_memberships; [done|]. rewrite Forall_forall in mems_ok |- *. intros m Hm.
  split; [by apply mems_ok|]. apply Forall_forall. intros k Hk. apply Hin, chunk_keys. by exists m.
Qed.

Lemma chunk_counts : sumZ pc_count st.(b_chunks) = st.(b_memberships).
Proof.
  destruct document_keys_spec as [Hnd Hin]. rewrite <- document_keys_total.
  rewrite (sum_by_key pc_count _ document_keys); [|done|].
  - apply sumZ_ext, Forall_true. intros key.
    destruct (flushed_parts limits mems st inv flushed key) as (parts & Hparts & Hconcat).
    rewrite <- Hconcat. by eapply chunks_of_count.
  - apply Forall_forall. intros c Hc. apply Hin. by apply list_elem_of_fmap_2.
Qed.

Lemma chunks_le_memberships : zlen st.(b_chunks) <= st.(b_memberships).
Proof.
  rewrite <- chunk_counts. assert (Forall (fun c => 1 <= pc_count c) (b_chunks st)) as H.
  { apply Forall_forall. intros c Hc. apply chunk_declared in Hc. unfold chunk_declaration_ok in Hc.
    reflect_bools. lia. }
  induction H as [|c cs Hc _ IH]; [done|]. rewrite zlen_cons, sumZ_cons. lia.
Qed.

Lemma supported_le : 0 <= st.(b_supported) <= zlen mems.
Proof.
  rewrite (bi_supported _ _ _ inv). split; [apply zlen_nonneg|]. clear.
  unfold ordinals_for. generalize 0 as i. induction mems as [|m ms IH]; intros i; simpl; [done|].
  rewrite zlen_app, zlen_cons. specialize (IH (i + 1)). case_bool_decide; rewrite ?zlen_cons, zlen_nil; lia.
Qed.

Lemma digest_document_ok digest :
  exists document, _stream_generation_digest_document (generation_of st binding digest) =
    Ok (document, mk_stats st.(b_memberships) st.(b_encoded_bytes)
          (Z.of_nat (size st.(b_distinct))) st.(b_supported) (zlen mems)).
Proof.
  destruct document_keys_spec as [Hnd Hin].
  assert (Forall (fun m => (ALL_PACKET, []) ∈ m) mems) as Hall.
  { eapply Forall_impl; [exact mems_ok|]. simpl. naive_solver. }
  unfold _stream_generation_digest_document. cbn [pg_chunks pg_packet_count generation_of].
  rewrite (bi_count _ _ _ inv). fold document_keys.
  match goal with |- context [digest_keys _ _ _ ?s0] =>
    destruct (digest_keys_ok limits mems st inv flushed packet_bound Hall document_keys s0)
      as (s' & Heq & Hm & Hs & Ha) end; [done| |done|].
  { apply Forall_forall. intros key Hk. by apply chunk_key_valid, Hin. }
  rewrite Heq. cbn [mbind res_bind]. eexists. do 3 f_equal.
  - rewrite Hm. simpl. apply document_keys_total.
  - symmetry. apply (bi_bytes _ _ _ inv).
  - apply document_keys_size.
  - rewrite Hs, (bi_supported _ _ _ inv). cbn [ds_supported]. rewrite Z.add_0_l. unfold count_if.
    destruct (decide ((SUPPORTED, []) ∈ document_keys)) as [Hk|Hk]; [by rewrite bool_decide_true|].
    rewrite bool_decide_false by done.
    destruct (ordinals_for (SUPPORTED, []) mems) as [|o os] eqn:E; [done|].
    assert (o ∈ ordinals_for (SUPPORTED, []) mems) as (_ & m & Hlook & Hkm)%elem_of_ordinals_for
      by (rewrite E; by left).
    destruct Hk. apply Hin, chunk_keys. exists m. split; [by eapply list_elem_of_lookup_2|done].
  - rewrite Ha. cbn [ds_all_packets]. rewrite Z.add_0_l. unfold count_if.
    rewrite zlen_ordinals_all by done. rewrite bool_decide_true; [done|]. apply Hin, chunk_keys.
    destruct (mems !! 0%nat) as [m|] eqn:E;
      [|apply lookup_ge_None in E; unfold zlen in some_packet; lia].
    exists m. split; [by eapply list_elem_of_lookup_2|].
    exact (Forall_lookup_1 _ _ _ _ Hall E).
Qed.

Lemma validation_ok document :
  (forall digest, exists stats, _stream_generation_digest_document (generation_of st binding digest) =
    Ok (document, stats)) ->
  validate_posting_generation sha256_hex (generation_of st binding (sha256_hex document))
    default_build_limits = true.
Proof.
  intros Hdoc. unfold validate_posting_generation.
  destruct (digest_document_ok (sha256_hex document)) as [document' Hstream].
  destruct (Hdoc (sha256_hex document)) as [stats Hstream']. rewrite Hstream in Hstream'.
  injection Hstream' as <- <-. rewrite Hstream.
  pose proof packet_bound as [Hpos _]. pose proof supported_le as Hsup.
  pose proof chunks_le_memberships as Hcm. pose proof chunk_counts as Hcc.
  destruct limits_le as (L1 & L2 & L3 & L4 & L5). pose proof (zlen_nonneg (b_chunks st)).
  destruct inv as [Ic Im Id Is Ib Iby Ik Imp Imm Imd Imb Imc].
  assert (0 <= b_encoded_bytes st) as Hby.
  { rewrite Iby. apply (sumZ_nonneg (fun x => zlen (pc_encoded_ordinals x))), Forall_true.
    intros. apply zlen_nonneg. }
  assert (list_to_set (pc_key <$> b_chunks st) ∪ ∅ = b_distinct st) as Hkeys.
  { apply set_eq. intros key. rewrite elem_of_union, elem_of_list_to_set, chunk_keys, Id. set_solver. }
  apply andb_true_intro. split.
  - unfold generation_header_ok. cbn [pg_packet_count pg_supported_count pg_membership_count
      pg_distinct_key_count pg_encoded_byte_count pg_schema_version pg_parser_contract_version
      pg_filter_contract_version pg_chunks pg_binding_document pg_complete_dimensions pg_digest
      generation_of forallb].
    rewrite sha256_hex_ok, bool_decide_true by done.
    pose proof (zlen_nonneg binding). unfold MAX_POSTING_ORDINAL, default_build_limits in *; simpl in *.
    rewrite !andb_true_iff. split_and!; first [done | apply Z.leb_le; lia].
  - rewrite declared_totals_ok; cbn [pg_packet_count pg_supported_count pg_membership_count
      pg_distinct_key_count pg_encoded_byte_count pg_chunks generation_of].
    + rewrite Hkeys, !Z.add_0_l, Hcc, <- Iby, Ic, !Z.eqb_refl.
      cbn [st_memberships st_encoded_bytes st_distinct_keys st_supported st_all_packets pg_digest
        generation_of]. by rewrite bool_decide_true.
    + apply Forall_forall. rewrite Ic. intros c Hc. by apply chunk_declared.
    + lia.
    + lia.
    + rewrite Hkeys. lia.
Qed.
End validation.

(** ** The build on one capture *)

(** What the index and the decoder of one capture give. *)
Definition same_capture (content : bytes) (source_id : string) (source_order : Z)
    (networks : list ip_network) (interfaces : list StructuralInterfaceEntry)
    (entries : list StructuralPacketEntry) (packets : list ExportPacket) : Prop :=
  (forall k i, interfaces !! k = Some i -> interface_ok k i) /\
  Forall (packet_interface interfaces) entries /\
  Forall2 (decoded_as content source_id source_order networks interfaces) entries packets.

Definition limits_within (l d : PostingBuildLimits) : Prop :=
  l.(pbl_max_packets) <= d.(pbl_max_packets) /\
  l.(pbl_max_memberships) <= d.(pbl_max_memberships) /\
  l.(pbl_max_distinct_keys) <= d.(pbl_max_distinct_keys) /\
  l.(pbl_max_encoded_bytes) <= d.(pbl_max_encoded_bytes) /\
  l.(pbl_max_chunks) <= d.(pbl_max_chunks).

Lemma memberships_facts packets mems :
  Forall2 packet_memberships packets mems -> mems_valid mems ->
  Forall (fun m => NoDup m /\ (ALL_PACKET, []) ∈ m /\ keys_valid m) mems.
Proof.
  intros Hm. unfold mems_valid. rewrite !Forall_forall. intros Hv m Hin.
  apply list_elem_of_lookup_1 in Hin as [k Hk].
  destruct (Forall2_lookup_r _ _ _ _ _ Hm Hk) as (q & _ & item & _ & ->).
  split_and!; [apply memberships_NoDup|apply memberships_all|].
  apply Hv. by eapply list_elem_of_lookup_2.
Qed.

(** The build returns a valid generation or stops at a limit. *)
Lemma build_total (sha256_hex : bytes -> string) (content : bytes)
    (source_id : string) (source_order : Z) (networks : list ip_network)
    (interfaces : list StructuralInterfaceEntry) (entries : list StructuralPacketEntry)
    (packets : list ExportPacket) (limits : PostingBuildLimits) (binding : bytes) :
  (forall b, is_sha256_hex (sha256_hex b) = true) ->
  build_limits_ok limits -> limits_within limits default_build_limits ->
  zlen binding <= default_build_limits.(pbl_max_encoded_bytes) ->
  same_capture content source_id source_order networks interfaces entries packets ->
  entries <> [] ->
  match build_packet_postings sha256_hex (packets, Ok tt) entries interfaces limits binding with
  | Ok g => validate_posting_generation sha256_hex g default_build_limits = true
  | Err e => exists message, e = PostingResourceLimitError message
  end.
Proof.
  intros Hsha Hlim Hwithin Hbind (Hok & Hif & Hdec) Hne.
  enough (or_limit (fun g => validate_posting_generation sha256_hex g default_build_limits = true)
    (build_packet_postings sha256_hex (packets, Ok tt) entries interfaces limits binding)) as H.
  { destruct (build_packet_postings _ _ _ _ _ _) as [g|[]]; simpl in H; try done. by eexists. }
  unfold build_packet_postings. cbn [fst snd].
  rewrite (proj2 (interface_map_spec interfaces ltac:(intros; by eapply Hok))), Z.eqb_refl.
  cbn [negb raise_if mbind res_bind].
  assert (limits.(pbl_max_packets) <= MAX_POSTING_ORDINAL) as Hmax.
  { destruct Hwithin as (H & _). unfold default_build_limits, MAX_POSTING_ORDINAL in *. simpl in H. lia. }
  eapply or_limit_bind.
  { apply (build_packets_progress content source_id source_order networks interfaces limits Hok Hmax
      entries [] entries packets []); try done; [by apply build_inv_initial|by apply Forall_nil_2]. }
  intros st (mems & Hmems & Hvalid & Hinv). cbn [app] in *.
  assert (zlen mems = zlen entries) as Hlen.
  { unfold zlen. by rewrite <- (Forall2_length _ _ _ Hmems), <- (Forall2_length _ _ _ Hdec). }
  assert (0 < zlen mems) as Hpos.
  { rewrite Hlen. destruct entries; [done|]. rewrite zlen_cons. pose proof (zlen_nonneg entries). lia. }
  pose proof (bi_count _ _ _ Hinv) as Hc. pose proof (bi_max_packets _ _ _ Hinv) as Hmp.
  eapply or_limit_bind; [apply (flush_progress limits mems); [done|lia]|].
  intros st' (Hinv' & Hb & Hc').
  rewrite Hc', Hc, Hlen, Z.eqb_refl, (proj2 (Z.ltb_ge _ 1)) by lia.
  cbn [negb orb raise_if mbind res_bind].
  pose proof (memberships_facts packets mems Hmems Hvalid) as Hfacts.
  assert (forall d, exists stats document, _stream_generation_digest_document (generation_of st' binding d)
    = Ok (document, stats)) as Hdoc.
  { intros d. destruct (digest_document_ok limits mems st' binding Hinv' Hb Hpos Hfacts Hwithin d)
      as [document Hd]. by eexists _, document. }
  destruct (Hdoc ""%string) as (stats & document & Hd).
  unfold _generation_digest. rewrite Hd. cbn [mbind res_bind].
  rewrite (validation_ok sha256_hex Hsha limits mems st' binding Hinv' Hb Hpos Hfacts Hwithin Hbind); simpl.
  - by apply (validation_ok sha256_hex Hsha limits mems st' binding Hinv' Hb Hpos Hfacts Hwithin Hbind);
      intros d; exists stats.
  - intros d. by exists stats.
Qed.

(** The scan and the decoder of one capture describe the same packets. *)
Lemma scan_export_same_capture (sha256_hex : bytes -> string) (R1 R2 : Type)
    (reads1 : CaptureReader R1) (lawful1 : LawfulReader R1)
    (reads2 : CaptureReader R2) (lawful2 : LawfulReader R2) (fuel : nat) (r1 : R1) (r2 : R2)
    (lim : ScanLimits) (batches : list (list StructuralPacketEntry)) (out : StructuralScanResult)
    (source_id : string) (source_order : Z) (values : list string) (packets : list ExportPacket) :
  limits_ok lim -> zlen (reader_content r1) <= _MAX_I64 ->
  zlen (reader_content r1) < Z.of_nat fuel -> reader_content r1 = reader_content r2 ->
  scan_structural_packet_index sha256_hex fuel r1 lim = (batches, Ok out) ->
  export_packets fuel r2 source_id source_order values = (packets, Ok tt) ->
  exists networks,
    same_capture (reader_content r1) source_id source_order networks out.(ssr_interfaces)
      (concat batches ++ out.(ssr_packets)) packets /\
    concat batches ++ out.(ssr_packets) <> [] /\ _networks values = Ok networks.
Proof.
  intros Hlim Hmax Hfuel Heq Hscan Hexport.
  destruct (_networks values) as [networks|e] eqn:Hnet;
    [|by unfold export_packets, open_export_capture in Hexport; rewrite Hnet in Hexport].
  exists networks.
  rewrite (scan_refines_content sha256_hex fuel r1) in Hscan by done.
  pose proof (scan_of_content_ok sha256_hex (reader_content r1) fuel lim Hlim Hfuel) as Hok.
  rewrite Hscan in Hok. destruct Hok as (_ & _ & _ & _ & Hwf & Hcount & Hpos).
  rewrite (export_packets_run fuel r2 _ _ _ networks), <- Heq in Hexport by done.
  pose proof Hlim as (Hp & Hi & Hb).
  pose proof (agree_capture (reader_content r1) source_id source_order networks lim Hb Hp Hi fuel)
    as H. unfold rwp in H. rewrite mem_at_0 in H. unfold scan_of_content in Hscan.
  destruct (run (scan_capture fuel lim) _) as [[os1 [[fmt [[ifs ps] n]]|e1]] m1]; [|done].
  destruct (run (export_capture _ _ _ fuel) _) as [[os2 [u|e2]] m2]; [|done].
  destruct H as (off & _ & _ & _ & H). simpl in *. simplify_eq. split_and!; [| |done].
  - split_and!; [apply (wf_interfaces _ _ _ _ _ Hwf)|apply (wf_interface _ _ _ _ _ Hwf)|done].
  - intros Hnil. rewrite Hnil in *. rewrite zlen_nil in *. lia.
Qed.

(** ** Properties *)

(** C9: the index and the postings of a capture fit together: when the scan of
    a capture and the export decoder both succeed on it, over any lawful
    readers, [build_packet_postings] on the decoded packets and the index, with
    limits within the defaults, returns a generation that passes
    [validate_posting_generation], or stops at one of its limits; it never
    reports a structural mismatch, an invalid value, a codec error or a failed
    validation. *)
Theorem build_packet_postings_total (sha256_hex : bytes -> string) (R1 R2 : Type)
    (reads1 : CaptureReader R1) (lawful1 : LawfulReader R1)
    (reads2 : CaptureReader R2) (lawful2 : LawfulReader R2) (fuel : nat) (r1 : R1) (r2 : R2)
    (lim : ScanLimits) (batches : list (list StructuralPacketEntry)) (out : StructuralScanResult)
    (source_id : string) (source_order : Z) (values : list string) (packets : list ExportPacket)
    (limits : PostingBuildLimits) (binding : bytes) :
  (forall b, is_sha256_hex (sha256_hex b) = true) ->
  limits_ok lim -> zlen (reader_content r1) <= _MAX_I64 ->
  zlen (reader_content r1) < Z.of_nat fuel -> reader_content r1 = reader_content r2 ->
  scan_structural_packet_index sha256_hex fuel r1 lim = (batches, Ok out) ->
  export_packets fuel r2 source_id source_order values = (packets, Ok tt) ->
  build_limits_ok limits -> limits_within limits default_build_limits ->
  zlen binding <= default_build_limits.(pbl_max_encoded_bytes) ->
  match build_packet_postings sha256_hex (packets, Ok tt) (concat batches ++ out.(ssr_packets))
          out.(ssr_interfaces) limits binding with
  | Ok g => validate_posting_generation sha256_hex g default_build_limits = true
  | Err e => exists message, e = PostingResourceLimitError message
  end.
Proof.
  intros Hsha Hlim Hmax Hfuel Heq Hscan Hexport Hbl Hwithin Hbind.
  destruct (scan_export_same_capture sha256_hex R1 R2 _ _ _ _ fuel r1 r2 lim batches out source_id
    source_order values packets) as (networks & Hsame & Hne & _); try done.
  by eapply build_total.
Qed.

Lemma build_packet_postings_total_witness :
  exists batches out packets g,
    scan_structural_packet_index sample_hash 400 {| trickle_data := sample_pcapng |}
      (sample_limits 1 true) = (batches, Ok out) /\
    export_packets 400 {| bio_data := sample_pcapng |} "s" 0 ["10.0.0.0/8"%string] =
      (packets, Ok tt) /\
    build_packet_postings sample_hash (packets, Ok tt) (concat batches ++ out.(ssr_packets))
      out.(ssr_interfaces) default_build_limits [] = Ok g /\
    validate_posting_generation sample_hash g default_build_limits = true.
Proof.
  destruct (scan_structural_packet_index sample_hash 400 {| trickle_data := sample_pcapng |}
      (sample_limits 1 true)) as [batches [out|e]] eqn:E1; [|vm_compute in E1; discriminate].
  destruct (export_packets 400 {| bio_data := sample_pcapng |} "s" 0 ["10.0.0.0/8"%string])
    as [packets [[]|e]] eqn:E2; [|vm_compute in E2; discriminate].
  destruct (build_packet_postings sample_hash (packets, Ok tt) (concat batches ++ out.(ssr_packets))
      out.(ssr_interfaces) default_build_limits []) as [g|e] eqn:E3.
  2:{ vm_compute in E1, E2. injection E1 as <- <-. injection E2 as <-. vm_compute in E3. discriminate. }
  exists batches, out, packets, g. split_and!; [done|done|done|].
  pose proof (build_packet_postings_total sample_hash TrickleReader BytesIO trickle_reader
    trickle_lawful bytesio_reader bytesio_lawful 400 {| trickle_data := sample_pcapng |}
    {| bio_data := sample_pcapng |} (sample_limits 1 true) batches out "s" 0 ["10.0.0.0/8"%string]
    packets default_build_limits []) as H. rewrite E3 in H.
  apply H.
  - intros b. vm_compute. reflexivity.
  - repeat split; vm_compute; congruence.
  - vm_compute. congruence.
  - vm_compute. reflexivity.
  - vm_compute. reflexivity.
  - exact E1.
  - exact E2.
  - repeat split; vm_compute; reflexivity.
  - repeat split; vm_compute; congruence.
  - vm_compute. congruence.
Defined.
