(* ===== verification/FlowFilter.v ===== *)
(** * FlowFilter

    The packet predicates of the controller: flow_review.py's filter groups
    ([_normalize_filter], [_matches_filter], [matches_compiled_packet_groups])
    and pcap.py's [CompiledPacketPredicate] and [compile_packet_predicate].

    Request values are JSON scalars and text is ASCII.  An aware [datetime] is
    its number of microseconds since the epoch. *)

From Stdlib Require Import Ascii String.
From S2P Require Import Prelude Bytes IpAddress PacketProjection ExportDecoder PostingModel.
#[local] Open Scope Z_scope.

(** ** Request values *)

Inductive py_scalar : Type :=
  | PNone
  | PBool (b : bool)
  | PInt (z : Z)
  | PStr (s : string).

#[global] Instance py_scalar_eq_dec : EqDecision py_scalar.
Proof. solve_decision. Defined.

(** [str(v)] and [bool(v)]. *)
Definition py_str (v : py_scalar) : string :=
  match v with
  | PNone => "None" | PBool true => "True" | PBool false => "False"
  | PInt z => pretty z | PStr s => s
  end.
Definition py_truthy (v : py_scalar) : bool :=
  match v with
  | PNone => false | PBool b => b | PInt z => negb (z =? 0)
  | PStr s => negb (bool_decide (s = ""%string))
  end.

(** [str(v)] of an optional attribute. *)
Definition py_str_opt (v : option string) : string := default "None"%string v.

(** [s.strip()] *)
Definition is_space (c : ascii) : bool :=
  let n := N_of_ascii c in
  ((9 <=? n) && (n <=? 13) || (28 <=? n) && (n <=? 32))%N.
Fixpoint drop_spaces (l : list ascii) : list ascii :=
  match l with c :: l' => if is_space c then drop_spaces l' else l | [] => [] end.
Definition strip_chars (l : list ascii) : list ascii :=
  rev (drop_spaces (rev (drop_spaces l))).
Definition str_strip (s : string) : string :=
  string_of_list_ascii (strip_chars (list_ascii_of_string s)).

(** [s or None] *)
Definition or_none (s : string) : option string :=
  if bool_decide (s = ""%string) then None else Some s.

(** [int(v)]; text is a signed decimal with surrounding space. *)
Definition int_of_signed (s : string) : option Z :=
  match strip_chars (list_ascii_of_string s) with
  | c :: cs =>
      if bool_decide (c = "-"%char) then Z.opp <$> int_digits 0 false cs
      else if bool_decide (c = "+"%char) then int_digits 0 false cs
      else int_digits 0 false (c :: cs)
  | [] => None
  end.
Definition py_int (v : py_scalar) : res Z :=
  match v with
  | PNone => Err (TypeError "int() argument must be a string or a real number, not 'NoneType'")
  | PBool b => Ok (if b then 1 else 0)
  | PInt z => Ok z
  | PStr s => match int_of_signed s with
              | Some z => Ok z
              | None => Err (ValueError ("invalid literal for int() with base 10: '" +:+ s +:+ "'"))
              end
  end.

Definition ip_network_of (s : string) : res ip_network :=
  match parse_ip_network s with
  | Some net => Ok net
  | None => Err (ValueError ("'" +:+ s +:+ "' does not appear to be an IPv4 or IPv6 network"))
  end.

(** ** Filter groups: flow_review.py *)

Abbreviation request_group := (gmap string py_scalar) (only parsing).

(** The dictionary [_normalize_filter] returns, field by field. *)
Record NormalizedFilter : Type := {
  nf_endpoint_network : option ip_network;
  nf_direction : option string;
  nf_protocol : option string;
  nf_port : option Z;
  nf_source_port : option Z;
  nf_destination_port : option Z;
  nf_has_payload : option bool;
}.

Definition allowed_conditions : gset string :=
  {["candidate_ip"%string; "direction"%string; "protocol"%string; "port"%string;
    "source_port"%string; "destination_port"%string; "has_payload"%string]}.

(** [str(flow_filter.get(key, "")).strip() or None] *)
Definition text_condition (f : request_group) (key : string) : option string :=
  or_none (str_strip (py_str (default (PStr "") (f !! key)))).

(** [flow_filter.get(key)] of a port, with its check. *)
Definition port_condition (f : request_group) (key : string) : res (option Z) :=
  match f !! key with
  | None | Some PNone => Ok None
  | Some (PInt v) =>
      if (0 <=? v) && (v <=? 65535) then Ok (Some v)
      else Err (ValueError "flow port must be between 0 and 65535")
  | Some _ => Err (ValueError "flow port must be between 0 and 65535")
  end.

Definition payload_condition (f : request_group) : res (option bool) :=
  match f !! "has_payload"%string with
  | None | Some PNone => Ok None
  | Some (PBool b) => Ok (Some b)
  | Some _ => Err (ValueError "has_payload must be boolean")
  end.

Definition is_flow_direction (s : string) : bool :=
  bool_decide (s ∈ ["INBOUND"; "OUTBOUND"; "BIDIRECTIONAL"; "UNKNOWN"]%string).

(** [all(value is None for value in normalized.values())] *)
Definition no_condition (nf : NormalizedFilter) : bool :=
  bool_decide (nf.(nf_endpoint_network) = None) && bool_decide (nf.(nf_direction) = None)
  && bool_decide (nf.(nf_protocol) = None) && bool_decide (nf.(nf_port) = None)
  && bool_decide (nf.(nf_source_port) = None) && bool_decide (nf.(nf_destination_port) = None)
  && bool_decide (nf.(nf_has_payload) = None).

Definition _normalize_filter (f : request_group) : res NormalizedFilter :=
  _ ← raise_if (bool_decide (f = ∅) || negb (bool_decide (dom f ⊆ allowed_conditions)))
        (ValueError "flow filter must contain supported conditions");
  let candidate_ip := text_condition f "candidate_ip" in
  let direction := text_condition f "direction" in
  let protocol := text_condition f "protocol" in
  _ ← raise_if (match direction with
                | Some d => negb (is_flow_direction (str_upper d)) | None => false end)
        (ValueError "unsupported flow direction");
  _ ← raise_if (match protocol with
                | Some p => 32 <? Z.of_nat (String.length p) | None => false end)
        (ValueError "flow protocol is too long");
  port ← port_condition f "port";
  source_port ← port_condition f "source_port";
  destination_port ← port_condition f "destination_port";
  has_payload ← payload_condition f;
  endpoint_network ← match candidate_ip with
                     | Some c => net ← ip_network_of c; Ok (Some net)
                     | None => Ok None
                     end;
  let normalized := {|
    nf_endpoint_network := endpoint_network;
    nf_direction := direction;
    nf_protocol := protocol;
    nf_port := port;
    nf_source_port := source_port;
    nf_destination_port := destination_port;
    nf_has_payload := has_payload;
  |} in
  _ ← raise_if (no_condition normalized)
        (ValueError "flow filter must contain an active condition");
  Ok normalized.

(** The fields of a flow or packet view that [_matches_filter] reads; the outer
    option of [direction] and [protocol] is the presence of the key. *)
Record FlowView : Type := {
  fv_source_ip : string;
  fv_destination_ip : string;
  fv_source_port : option Z;
  fv_destination_port : option Z;
  fv_service_port : option Z;
  fv_protocol : option (option string);
  fv_direction : option (option string);
  fv_has_payload : bool;
}.

(** [str(flow.get(key, ""))] *)
Definition view_text (v : option (option string)) : string :=
  match v with None => "" | Some s => py_str_opt s end.

(** [condition is not None and flow.get(key) != condition] *)
Definition port_differs (condition value : option Z) : bool :=
  match condition with Some _ => negb (bool_decide (value = condition)) | None => false end.

(** [condition and str(...).upper() != condition.upper()] *)
Definition text_differs (condition : option string) (value : string) : bool :=
  match condition with
  | Some c => negb (bool_decide (c = ""%string))
              && negb (bool_decide (str_upper value = str_upper c))
  | None => false
  end.

Definition endpoint_matches (flow : FlowView) (net : ip_network) : res bool :=
  any_res (fun text => a ← ip_address_of text; Ok (in_network a net))
    [flow.(fv_source_ip); flow.(fv_destination_ip)].

Definition _matches_filter (flow : FlowView) (nf : NormalizedFilter) : res bool :=
  endpoint ← match nf.(nf_endpoint_network) with
             | Some net => endpoint_matches flow net
             | None => Ok true
             end;
  if negb endpoint then Ok false
  else if text_differs nf.(nf_direction) (view_text flow.(fv_direction)) then Ok false
  else if text_differs nf.(nf_protocol) (view_text flow.(fv_protocol)) then Ok false
  else if port_differs nf.(nf_port) flow.(fv_service_port) then Ok false
  else if port_differs nf.(nf_source_port) flow.(fv_source_port) then Ok false
  else if port_differs nf.(nf_destination_port) flow.(fv_destination_port) then Ok false
  else Ok (match nf.(nf_has_payload) with
           | None => true
           | Some b => Bool.eqb flow.(fv_has_payload) b
           end).

Definition _is_internal (value : string) (networks : list string) : res bool :=
  address ← ip_address_of value;
  any_res (fun network => net ← ip_network_of network; Ok (in_network address net)) networks.

(** ** Packets as the predicates read them *)

Inductive py_timestamp : Type :=
  | DatetimeValue (microseconds : Z)
  | TimestampText (s : string).

(** The attributes or keys of a packet; the outer option of [has_payload] is
    the presence of the attribute. *)
Record PacketFields : Type := {
  pf_timestamp : py_timestamp;
  pf_source_ip : option string;
  pf_destination_ip : option string;
  pf_source_port : option Z;
  pf_destination_port : option Z;
  pf_protocol : option string;
  pf_direction : option string;
  pf_has_payload : option (option bool);
  pf_payload_hash : option string;
}.

(** The attributes of an [ExportPacket]. *)
Definition export_fields (packet : ExportPacket) : PacketFields :=
  let p := packet.(ep_projection) in {|
    pf_timestamp := DatetimeValue packet.(ep_timestamp);
    pf_source_ip := p.(pp_source_ip);
    pf_destination_ip := p.(pp_destination_ip);
    pf_source_port := p.(pp_source_port);
    pf_destination_port := p.(pp_destination_port);
    pf_protocol := p.(pp_protocol);
    pf_direction := direction_str <$> p.(pp_direction);
    pf_has_payload := Some p.(pp_has_payload);
    pf_payload_hash := None;
  |}.

(** [bool(value("payload_hash"))] *)
Definition hash_truthy (h : option string) : bool :=
  match h with Some s => negb (bool_decide (s = ""%string)) | None => false end.

(** The service port of a packet: the port of the side that is not internal. *)
Definition packet_service_port (source_ip destination_ip direction : string)
    (source_port destination_port : option Z) (internal_networks : list string)
    : res (option Z) :=
  if bool_decide (direction = "OUTBOUND"%string) then Ok destination_port
  else if bool_decide (direction = "INBOUND"%string) then Ok source_port
  else
    source_internal ← _is_internal source_ip internal_networks;
    destination_internal ← _is_internal destination_ip internal_networks;
    if Bool.eqb source_internal destination_internal then Ok None
    else Ok (if source_internal then destination_port else source_port).

(** [str(record.get("direction") or "UNKNOWN").upper()] *)
Definition record_direction (direction : option string) : string :=
  str_upper (default "UNKNOWN"%string (d ← direction; or_none d)).

(** [matches_compiled_packet_groups]; [has_payload] is the record's value. *)
Definition matches_compiled_packet_groups (packet : PacketFields) (has_payload : option bool)
    (internal_networks : list string) (include_filters exclude_filters : list NormalizedFilter)
    : res bool :=
  let source_ip := py_str_opt packet.(pf_source_ip) in
  let destination_ip := py_str_opt packet.(pf_destination_ip) in
  let direction := record_direction packet.(pf_direction) in
  service_port ← packet_service_port source_ip destination_ip direction
                   packet.(pf_source_port) packet.(pf_destination_port) internal_networks;
  let view := {|
    fv_source_ip := source_ip;
    fv_destination_ip := destination_ip;
    fv_source_port := packet.(pf_source_port);
    fv_destination_port := packet.(pf_destination_port);
    fv_service_port := service_port;
    fv_protocol := Some packet.(pf_protocol);
    fv_direction := Some (Some direction);
    fv_has_payload := default false has_payload;
  |} in
  include_match ← (if bool_decide (length include_filters = 0%nat) then Ok true
                   else any_res (_matches_filter view) include_filters);
  exclude_match ← any_res (_matches_filter view) exclude_filters;
  Ok (include_match && negb exclude_match).

(** ** [CompiledPacketPredicate] *)

Record CompiledPacketPredicate : Type := {
  cp_candidate_ip : option string;
  cp_internal_host_ip : option string;
  cp_start : option Z;
  cp_end : option Z;
  cp_port : option Z;
  cp_protocol : option string;
  cp_direction : option string;
  cp_sensor : option string;
  cp_internal_networks : list string;
  cp_include_filters : list NormalizedFilter;
  cp_exclude_filters : list NormalizedFilter;
}.

(** [condition and value != condition] *)
Definition differs (condition : option string) (value : option string) : bool :=
  match condition with
  | Some c => negb (bool_decide (c = ""%string)) && negb (bool_decide (value = Some c))
  | None => false
  end.

(** [condition not in {None, a, b}] *)
Definition not_among `{EqDecision A} (condition a b : option A) : bool :=
  negb (bool_decide (condition ∈ [None; a; b])).

Definition outside_window (start stop : option Z) (timestamp : Z) : bool :=
  match start with Some s => timestamp <? s | None => false end
  || match stop with Some e => e <? timestamp | None => false end.

Section predicate.
(** [datetime.fromisoformat], as an instant. *)
Context (fromisoformat : string -> res Z).

Definition packet_instant (t : py_timestamp) : res Z :=
  match t with DatetimeValue us => Ok us | TimestampText s => fromisoformat s end.

Definition predicate_matches (self : CompiledPacketPredicate) (packet : PacketFields)
    (sensor_id : string) : res bool :=
  timestamp ← packet_instant packet.(pf_timestamp);
  if not_among self.(cp_candidate_ip) packet.(pf_source_ip) packet.(pf_destination_ip)
  then Ok false
  else if not_among self.(cp_internal_host_ip) packet.(pf_source_ip) packet.(pf_destination_ip)
  then Ok false
  else if outside_window self.(cp_start) self.(cp_end) timestamp then Ok false
  else if not_among self.(cp_port) packet.(pf_source_port) packet.(pf_destination_port)
  then Ok false
  else if differs self.(cp_protocol) (Some (str_upper (py_str_opt packet.(pf_protocol))))
  then Ok false
  else if differs self.(cp_direction) packet.(pf_direction) then Ok false
  else if differs self.(cp_sensor) (Some sensor_id) then Ok false
  else
    matches_compiled_packet_groups packet
      (default (Some (hash_truthy packet.(pf_payload_hash))) packet.(pf_has_payload))
      self.(cp_internal_networks) self.(cp_include_filters) self.(cp_exclude_filters).

(** The request mapping: its scalar entries and its two lists of groups. *)
Record PacketFilters : Type := {
  flt_fields : gmap string py_scalar;
  flt_include_filters : list request_group;
  flt_exclude_filters : list request_group;
}.

Fixpoint normalize_groups (groups : list request_group) : res (list NormalizedFilter) :=
  match groups with
  | [] => Ok []
  | g :: groups' => nf ← _normalize_filter g; rest ← normalize_groups groups'; Ok (nf :: rest)
  end.

Definition compile_packet_filter_groups (include_filters exclude_filters : list request_group)
    : res (list NormalizedFilter * list NormalizedFilter) :=
  includes ← normalize_groups include_filters;
  excludes ← normalize_groups exclude_filters;
  Ok (includes, excludes).

(** [str(copied[key]) if copied.get(key) is not None else None] *)
Definition present_text (f : gmap string py_scalar) (key : string) : option string :=
  match default PNone (f !! key) with PNone => None | v => Some (py_str v) end.
(** [str(copied[key]) if copied.get(key) else None] *)
Definition truthy_text (f : gmap string py_scalar) (key : string) : option string :=
  let v := default PNone (f !! key) in if py_truthy v then Some (py_str v) else None.

Definition truthy_instant (f : gmap string py_scalar) (key : string) : res (option Z) :=
  match truthy_text f key with
  | Some s => t ← fromisoformat s; Ok (Some t)
  | None => Ok None
  end.

Definition compile_packet_predicate (filters : PacketFilters) (internal_networks : list string)
    : res CompiledPacketPredicate :=
  let f := filters.(flt_fields) in
  '(includes, excludes) ←
     compile_packet_filter_groups filters.(flt_include_filters) filters.(flt_exclude_filters);
  start ← truthy_instant f "start_time";
  stop ← truthy_instant f "end_time";
  port ← match default PNone (f !! "port"%string) with
         | PNone => Ok None
         | v => p ← py_int v; Ok (Some p)
         end;
  Ok {|
    cp_candidate_ip := present_text f "candidate_ip";
    cp_internal_host_ip := present_text f "internal_host_ip";
    cp_start := start;
    cp_end := stop;
    cp_port := port;
    cp_protocol := str_upper <$> truthy_text f "protocol";
    cp_direction := truthy_text f "direction";
    cp_sensor := truthy_text f "sensor_id";
    cp_internal_networks := internal_networks;
    cp_include_filters := includes;
    cp_exclude_filters := excludes;
  |}.
End predicate.
