(* ===== verification/PostingSelect.v ===== *)
(** * PostingSelect

    pcap_postings.py: [_query_generation_directory], [_QueryBudget] and
    [select_posting_candidates].  A query runs in a monad that threads the
    budget and the cache of decoded postings; an exception ends the query, so
    the state it leaves behind is not observable.

    A Python set is iterated in an order of its own.  The loops over sets of
    ordinals and over the directory charge the same total in every order and
    are written over [elements]; the loop over the dictionary terms of a network
    charges by what was united before, so its order is a parameter. *)

From S2P Require Import Prelude Bytes IpAddress PacketProjection PostingCodec PostingModel.
From S2P Require Import PostingBuild FlowFilter.

(** ** The directory of a generation *)

Definition directory_header_ok (g : PostingGeneration) (limits : PostingQueryLimits) : bool :=
  let b := default_build_limits in
  forallb (fun item => 0 <=? item)
    [g.(pg_packet_count); g.(pg_supported_count); g.(pg_membership_count);
     g.(pg_distinct_key_count); g.(pg_encoded_byte_count)]
  && (1 <=? g.(pg_packet_count))
  && (g.(pg_packet_count) <=? b.(pbl_max_packets))
  && (g.(pg_supported_count) <=? g.(pg_packet_count))
  && (g.(pg_membership_count) <=? b.(pbl_max_memberships))
  && (g.(pg_distinct_key_count) <=? b.(pbl_max_distinct_keys))
  && (g.(pg_encoded_byte_count) <=? b.(pbl_max_encoded_bytes))
  && (g.(pg_schema_version) =? PCAP_POSTING_INDEX_SCHEMA_VERSION)
  && (g.(pg_parser_contract_version) =? PCAP_POSTING_INDEX_PARSER_CONTRACT_VERSION)
  && (g.(pg_filter_contract_version) =? PCAP_FILTER_CONTRACT_VERSION)
  && bool_decide (g.(pg_complete_dimensions) = _ALL_DIMENSIONS)
  && is_sha256_hex g.(pg_digest)
  && (zlen g.(pg_chunks) <=? limits.(pql_max_directory_chunks))
  && (g.(pg_distinct_key_count) <=? limits.(pql_max_dictionary_terms))
  && (zlen g.(pg_chunks) <=? g.(pg_membership_count)).

Definition directory_chunk_ok (packet_count : Z) (c : PostingChunk) : bool :=
  _valid_posting_value c.(pc_dimension) c.(pc_value)
  && (0 <=? c.(pc_chunk_ordinal))
  && (1 <=? c.(pc_count))
  && (0 <=? c.(pc_first_packet_index))
  && (c.(pc_first_packet_index) <=? c.(pc_last_packet_index))
  && (c.(pc_last_packet_index) <? packet_count)
  && negb (bool_decide (c.(pc_encoded_ordinals) = [])).

(** The loop that fills [pending]. *)
Fixpoint collect_pending (g : PostingGeneration) (chunks : list PostingChunk)
    (memberships encoded_bytes : Z) (pending : gmap posting_key (list PostingChunk))
    : res (Z * Z * gmap posting_key (list PostingChunk)) :=
  match chunks with
  | [] => Ok (memberships, encoded_bytes, pending)
  | c :: chunks' =>
      _ ← raise_if (negb (directory_chunk_ok g.(pg_packet_count) c)) QueryLimitExceeded;
      let memberships := memberships + c.(pc_count) in
      let encoded_bytes := encoded_bytes + zlen c.(pc_encoded_ordinals) in
      _ ← raise_if ((g.(pg_membership_count) <? memberships)
                    || (g.(pg_encoded_byte_count) <? encoded_bytes)) QueryLimitExceeded;
      collect_pending g chunks' memberships encoded_bytes (directory_add c pending)
  end.

(** Chunk ordinals 0, 1, 2, ... and packet ranges that do not meet; [previous]
    is the last packet index of the chunk before. *)
Fixpoint chunks_in_order (index : Z) (previous : option Z) (chunks : list PostingChunk) : bool :=
  match chunks with
  | [] => true
  | c :: chunks' =>
      (c.(pc_chunk_ordinal) =? index)
      && match previous with Some last => last <? c.(pc_first_packet_index) | None => true end
      && chunks_in_order (index + 1) (Some c.(pc_last_packet_index)) chunks'
  end.

Definition _query_generation_directory (g : PostingGeneration) (limits : PostingQueryLimits)
    : res (gmap posting_key (list PostingChunk)) :=
  _ ← raise_if (negb (directory_header_ok g limits)) QueryLimitExceeded;
  totals ← collect_pending g g.(pg_chunks) 0 0 ∅;
  let '(memberships, encoded_bytes, pending) := totals in
  _ ← raise_if (negb (memberships =? g.(pg_membership_count))
                || negb (encoded_bytes =? g.(pg_encoded_byte_count))
                || negb (Z.of_nat (size pending) =? g.(pg_distinct_key_count)))
        QueryLimitExceeded;
  let directory : gmap posting_key (list PostingChunk) :=
    sort_by chunk_ordinal_leb <$> pending in
  _ ← raise_if (negb (forallb (fun entry => chunks_in_order 0 None entry.2)
                        (map_to_list directory))) QueryLimitExceeded;
  Ok directory.

(** ** The query monad *)

(** [_QueryBudget] and [cache]. *)
Record QueryState : Type := mk_query {
  q_operations : Z;
  q_decoded_memberships : Z;
  q_cache : gmap posting_key (gset Z);
}.

Definition query (A : Type) : Type := QueryState -> res (A * QueryState).
#[global] Instance query_ret : MRet query := fun A a s => Ok (a, s).
#[global] Instance query_bind : MBind query := fun A B f m s =>
  match m s with Ok (a, s') => f a s' | Err e => Err e end.

Definition q_lift {A} (r : res A) : query A := fun s =>
  match r with Ok a => Ok (a, s) | Err e => Err e end.
Definition q_raise_if (cond : bool) (e : exn) : query unit := q_lift (raise_if cond e).

Section query.
(** The limits of the budget, the generation, its directory, and the order in
    which a set of dictionary terms is iterated. *)
Context (limits : PostingQueryLimits) (generation : PostingGeneration).
Context (directory : gmap posting_key (list PostingChunk)).
Context (terms_order : gset bytes -> list bytes).

(** [budget.operation(count)] *)
Definition operation (count : Z) : query unit := fun s =>
  if (count <? 0) || (limits.(pql_max_operations) - count <? s.(q_operations))
  then Err QueryLimitExceeded
  else Ok (tt, mk_query (s.(q_operations) + count) s.(q_decoded_memberships) s.(q_cache)).

(** [budget.decoded()] *)
Definition decoded : query unit := fun s =>
  if limits.(pql_max_decoded_memberships) <=? s.(q_decoded_memberships)
  then Err QueryLimitExceeded
  else operation 1 (mk_query s.(q_operations) (s.(q_decoded_memberships) + 1) s.(q_cache)).

(** The variables of the decoding loop of [get]. *)
Record GetState : Type := mk_get {
  gs_result : gset Z;
  gs_previous : Z;
  gs_first : option Z;
  gs_last : option Z;
  gs_count : Z;
}.

Fixpoint read_ordinals (ordinals : list Z) (g : GetState) : query GetState :=
  match ordinals with
  | [] => mret g
  | ordinal :: ordinals' =>
      _ ← decoded;
      _ ← q_raise_if (ordinal <=? g.(gs_previous))
            (PostingCodecError "decoded chunks are not strictly increasing");
      _ ← operation 1;
      read_ordinals ordinals'
        (mk_get ({[ordinal]} ∪ g.(gs_result)) ordinal
           (match g.(gs_first) with None => Some ordinal | first => first end)
           (Some ordinal) (g.(gs_count) + 1))
  end.

Fixpoint read_chunks (expected_chunk : Z) (chunks : list PostingChunk) (result : gset Z)
    (previous : Z) : query (gset Z) :=
  match chunks with
  | [] => mret result
  | chunk :: chunks' =>
      let '(ordinals, r) :=
        _iter_decoded_ordinals chunk.(pc_encoded_ordinals)
          (Some (generation.(pg_packet_count) - 1)) in
      g ← read_ordinals ordinals (mk_get result previous None None 0);
      _ ← q_lift r;
      _ ← q_raise_if (negb (chunk.(pc_chunk_ordinal) =? expected_chunk)
                      || negb (g.(gs_count) =? chunk.(pc_count))
                      || negb (bool_decide (g.(gs_first) = Some chunk.(pc_first_packet_index)))
                      || negb (bool_decide (g.(gs_last) = Some chunk.(pc_last_packet_index))))
            (PostingCodecError "posting chunk metadata does not match ordinals");
      read_chunks (expected_chunk + 1) chunks' g.(gs_result) g.(gs_previous)
  end.

Definition cache_set (key : posting_key) (value : gset Z) : query unit := fun s =>
  Ok (tt, mk_query s.(q_operations) s.(q_decoded_memberships) (<[key := value]> s.(q_cache))).

Definition get (dimension : PostingDimension) (value : bytes) : query (gset Z) := fun s =>
  let key := (dimension, value) in
  match s.(q_cache) !! key with
  | Some existing => Ok (existing, s)
  | None =>
      (_ ← q_raise_if (negb (bool_decide (dimension ∈ generation.(pg_complete_dimensions))))
            QueryLimitExceeded;
       result ← read_chunks 0 (default [] (directory !! key)) ∅ (-1);
       _ ← cache_set key result;
       mret result) s
  end.

(** *** Set operations, charged per member *)

Fixpoint union_members (members : list Z) (result : gset Z) : query (gset Z) :=
  match members with
  | [] => mret result
  | ordinal :: members' =>
      _ ← operation 1;
      _ ← operation 1;
      union_members members' ({[ordinal]} ∪ result)
  end.

Fixpoint union_loop (values : list (gset Z)) (result : gset Z) : query (gset Z) :=
  match values with
  | [] => mret result
  | value :: values' => result ← union_members (elements value) result; union_loop values' result
  end.

Definition union_values (values : list (gset Z)) : query (gset Z) := union_loop values ∅.

(** The members of [members] that satisfy [keep]. *)
Fixpoint filter_members (keep : Z -> bool) (members : list Z) (result : gset Z)
    : query (gset Z) :=
  match members with
  | [] => mret result
  | ordinal :: members' =>
      _ ← operation 1;
      if keep ordinal then
        _ ← operation 1;
        filter_members keep members' ({[ordinal]} ∪ result)
      else filter_members keep members' result
  end.

Definition intersect_values (left right : gset Z) : query (gset Z) :=
  filter_members (fun ordinal => bool_decide (ordinal ∈ right)) (elements left) ∅.

Definition subtract_values (left right : gset Z) : query (gset Z) :=
  filter_members (fun ordinal => negb (bool_decide (ordinal ∈ right))) (elements left) ∅.

(** *** Address terms *)

Definition is_address_dimension (d : PostingDimension) : bool :=
  bool_decide (d = SRC_ADDRESS) || bool_decide (d = DST_ADDRESS).

Fixpoint address_terms (keys : list posting_key) (terms : gset bytes) : query (gset bytes) :=
  match keys with
  | [] => mret terms
  | (dimension, value) :: keys' =>
      if negb (is_address_dimension dimension) then address_terms keys' terms
      else
        _ ← operation 1;
        if bool_decide (value ∈ terms) then address_terms keys' terms
        else _ ← operation 1; address_terms keys' ({[value]} ∪ terms)
  end.

Definition address_term_ok (value : bytes) : bool :=
  ((zlen value =? 5) || (zlen value =? 17))
  && ((byte_at value 0 =? 4) || (byte_at value 0 =? 6)).

Fixpoint network_terms (network : ip_network) (terms : list bytes) (result : gset Z)
    : query (gset Z) :=
  match terms with
  | [] => mret result
  | value :: terms' =>
      _ ← q_raise_if (negb (address_term_ok value))
            (ValueError "address dictionary term is not canonical");
      let address := ip_of_packed (zdrop 1 value) in
      if (ip_version address =? net_version network) && in_network address network then
        source ← get SRC_ADDRESS value;
        destination ← get DST_ADDRESS value;
        result ← union_values [result; source; destination];
        network_terms network terms' result
      else network_terms network terms' result
  end.

Definition endpoints (network : ip_network) : query (gset Z) :=
  if network.(net_prefixlen) =? max_prefixlen (net_version network) then
    key ← q_lift (canonical_address (ip_str network.(net_address)));
    source ← get SRC_ADDRESS key;
    destination ← get DST_ADDRESS key;
    union_values [source; destination]
  else
    terms ← address_terms (map_to_list directory).*1 ∅;
    network_terms network (terms_order terms) ∅.

(** The two port postings of a port. *)
Definition either_port (value : Z) : query (gset Z) :=
  key ← q_lift (canonical_port value);
  source ← get SRC_PORT key;
  destination ← get DST_PORT key;
  union_values [source; destination].

(** *** Filter groups *)

(** The entries of a normalized group that are not [None], in its order. *)
Inductive condition : Type :=
  | CEndpoint (network : ip_network)
  | CDirection (direction : string)
  | CProtocol (protocol : string)
  | CPort (port : Z)
  | CSourcePort (port : Z)
  | CDestinationPort (port : Z)
  | CHasPayload (has_payload : bool).

Definition opt_item {A} (c : A -> condition) (o : option A) : list condition :=
  match o with Some a => [c a] | None => [] end.

Definition group_items (nf : NormalizedFilter) : list condition :=
  opt_item CEndpoint nf.(nf_endpoint_network)
  ++ opt_item CDirection nf.(nf_direction)
  ++ opt_item CProtocol nf.(nf_protocol)
  ++ opt_item CPort nf.(nf_port)
  ++ opt_item CSourcePort nf.(nf_source_port)
  ++ opt_item CDestinationPort nf.(nf_destination_port)
  ++ opt_item CHasPayload nf.(nf_has_payload).

(** The posting of a condition and whether it is exact. *)
Definition condition_posting (for_exclude : bool) (c : condition)
    : query (option (gset Z) * bool) :=
  match c with
  | CEndpoint network => p ← endpoints network; mret (Some p, true)
  | CProtocol protocol =>
      key ← q_lift (canonical_protocol protocol);
      p ← get PROTOCOL key; mret (Some p, true)
  | CSourcePort port =>
      key ← q_lift (canonical_port port); p ← get SRC_PORT key; mret (Some p, true)
  | CDestinationPort port =>
      key ← q_lift (canonical_port port); p ← get DST_PORT key; mret (Some p, true)
  | CHasPayload b => p ← get HAS_PAYLOAD (canonical_payload b); mret (Some p, true)
  | CPort port =>
      if for_exclude then mret (None, false)
      else p ← either_port port; mret (Some p, false)
  | CDirection _ => mret (None, false)
  end.

Fixpoint group_loop (for_exclude : bool) (items : list condition) (result : option (gset Z))
    (exact : bool) : query (option (gset Z) * bool) :=
  match items with
  | [] => mret (result, exact)
  | c :: items' =>
      '(posting, exact_item) ← condition_posting for_exclude c;
      let exact := exact && exact_item in
      match posting, result with
      | None, _ => group_loop for_exclude items' result exact
      | Some p, None => group_loop for_exclude items' (Some p) exact
      | Some p, Some r =>
          r ← intersect_values r p;
          group_loop for_exclude items' (Some r) exact
      end
  end.

Definition group_candidates (universe : gset Z) (for_exclude : bool) (group : NormalizedFilter)
    : query (gset Z * bool) :=
  let items := group_items group in
  '(result, exact) ← group_loop for_exclude items None true;
  mret (default universe result, exact && negb (bool_decide (length items = 0%nat))).

(** *** The query *)

Fixpoint included_groups (universe : gset Z) (groups : list NormalizedFilter)
    (included : gset Z) : query (gset Z) :=
  match groups with
  | [] => mret included
  | group :: groups' =>
      '(candidates, _) ← group_candidates universe false group;
      included ← union_values [included; candidates];
      included_groups universe groups' included
  end.

Fixpoint excluded_groups (universe : gset Z) (groups : list NormalizedFilter) (result : gset Z)
    : query (gset Z) :=
  match groups with
  | [] => mret result
  | group :: groups' =>
      '(excluded, exact) ← group_candidates universe true group;
      if (exact : bool) then
        result ← subtract_values result excluded;
        excluded_groups universe groups' result
      else excluded_groups universe groups' result
  end.

(** [endpoints(str(value))] for an address field of the predicate. *)
Definition narrow_endpoint (value : option string) (result : gset Z) : query (gset Z) :=
  match value with
  | None => mret result
  | Some text =>
      network ← q_lift (ip_network_of text);
      posting ← endpoints network;
      intersect_values result posting
  end.

Definition narrow_port (port : option Z) (result : gset Z) : query (gset Z) :=
  match port with
  | None => mret result
  | Some value => posting ← either_port value; intersect_values result posting
  end.

Definition narrow_protocol (protocol : option string) (result : gset Z) : query (gset Z) :=
  match protocol with
  | None => mret result
  | Some text =>
      if bool_decide (text = ""%string) then mret result
      else
        key ← q_lift (canonical_protocol text);
        posting ← get PROTOCOL key;
        intersect_values result posting
  end.

(** The [try] block after the directory is built. *)
Definition run_selection (predicate : CompiledPacketPredicate) : query (list Z) :=
  universe ← get SUPPORTED [];
  result ← narrow_endpoint predicate.(cp_candidate_ip) universe;
  result ← narrow_endpoint predicate.(cp_internal_host_ip) result;
  result ← narrow_port predicate.(cp_port) result;
  result ← narrow_protocol predicate.(cp_protocol) result;
  result ← (if bool_decide (length predicate.(cp_include_filters) = 0%nat) then mret result
            else
              included ← included_groups universe predicate.(cp_include_filters) ∅;
              intersect_values result included);
  result ← excluded_groups universe predicate.(cp_exclude_filters) result;
  _ ← q_raise_if (limits.(pql_max_result_ordinals) <? Z.of_nat (size result))
        QueryLimitExceeded;
  _ ← operation (Z.of_nat (size result));
  mret (sort_by Z.leb (elements result)).
End query.

(** The exceptions the [except] clause turns into [None]. *)
Definition is_query_failure (e : exn) : bool :=
  match e with
  | PostingCodecError _ | QueryLimitExceeded | ValueError _ | KeyError _ | TypeError _ => true
  | _ => false
  end.

Definition select_within (terms_order : gset bytes -> list bytes)
    (generation : PostingGeneration) (predicate : CompiledPacketPredicate)
    (limits : PostingQueryLimits) : res (option (list Z)) :=
  if existsb (fun item => item <? 0)
       [generation.(pg_packet_count); generation.(pg_supported_count)] then Ok None
  else if (limits.(pql_max_result_ordinals) <? generation.(pg_packet_count))
          || (limits.(pql_max_operations) <? generation.(pg_packet_count))
          || (limits.(pql_max_result_ordinals) <? generation.(pg_supported_count))
          || (limits.(pql_max_decoded_memberships) <? generation.(pg_supported_count))
  then Ok None
  else
    match (directory ← _query_generation_directory generation limits;
           run_selection limits generation directory terms_order predicate (mk_query 0 0 ∅)) with
    | Ok (ordinals, _) => Ok (Some ordinals)
    | Err e => if is_query_failure e then Ok None else Err e
    end.

Definition select_posting_candidates (terms_order : gset bytes -> list bytes)
    (generation : PostingGeneration) (predicate : CompiledPacketPredicate)
    (sensor_id : option string) (max_query_work : option Z) (limits : option PostingQueryLimits)
    : res (option (list Z)) :=
  let sensor_mismatch :=
    match predicate.(cp_sensor), sensor_id with
    | Some requested, Some sensor => negb (bool_decide (requested = sensor))
    | _, _ => false
    end in
  if sensor_mismatch then Ok (Some [])
  else
    match limits, max_query_work with
    | Some _, Some _ => Err (ValueError "provide either limits or max_query_work, not both")
    | None, Some work =>
        if work <=? 0 then Ok None
        else
          let d := default_query_limits in
          limits ← PostingQueryLimits_post_init
                     (mk_query_limits work d.(pql_max_result_ordinals)
                        d.(pql_max_decoded_memberships) d.(pql_max_directory_chunks)
                        d.(pql_max_dictionary_terms));
          select_within terms_order generation predicate limits
    | limits, None => select_within terms_order generation predicate (default default_query_limits limits)
    end.
