(* ===== verification/PostingSound.v ===== *)
(** * PostingSound

    Correctness of [select_posting_candidates]: what a query returns is a safe
    superset of the packets its predicate matches. *)

From S2P Require Import Prelude Bytes Samples Reader ReaderLogic IpAddress IpText.
From S2P Require Import PacketProjection StructuralIndex StructuralProofs ExportDecoder.
From S2P Require Import ExportAgreement PostingCodec PostingModel PostingBuild PostingProofs.
From S2P Require Import PostingComplete FlowFilter PostingSelect.

(** ** The directory *)

Lemma collect_pending_Ok g cs m e pending m' e' pending' :
  collect_pending g cs m e pending = Ok (m', e', pending') ->
  pending' = fold_left (fun d c => directory_add c d) cs pending.
Proof.
  revert m e pending. induction cs as [|c cs IH]; intros m e pending; cbn [collect_pending].
  - naive_solver.
  - intros (? & _ & H)%bind_Ok. apply bind_Ok in H as (? & _ & H). by apply IH in H.
Qed.

(** The chunks of a key, sorted; the keys are those of the chunks. *)
Lemma query_directory_Ok g limits directory :
  _query_generation_directory g limits = Ok directory ->
  (forall key, default [] (directory !! key) = sort_by chunk_ordinal_leb (key_chunks key g.(pg_chunks)))
  /\ (forall key, key ∈ dom directory <-> key ∈ pc_key <$> g.(pg_chunks)).
Proof.
  unfold _query_generation_directory. intros (? & _ & H)%bind_Ok.
  apply bind_Ok in H as ([[m e] pending] & Hp & H). apply collect_pending_Ok in Hp.
  apply bind_Ok in H as (? & _ & H). apply bind_Ok in H as (? & _ & H).
  injection H as <-. fold (directory_of g.(pg_chunks)) in Hp. subst pending.
  split; intros key; destruct (directory_of_lookup (pg_chunks g) key) as [Hl Hd].
  - rewrite lookup_fmap, <- Hl. by destruct (directory_of _ !! key).
  - by rewrite dom_fmap_L.
Qed.

(** ** A logic for queries *)

Section query_logic.
Context (limits : PostingQueryLimits) (g : PostingGeneration).
Context (directory : gmap posting_key (list PostingChunk)).
Context (terms_order : gset bytes -> list bytes) (mems : list (list posting_key)).
Context (Hdir : forall key, default [] (directory !! key) =
  sort_by chunk_ordinal_leb (key_chunks key g.(pg_chunks))).
Context (Hdom : forall key, key ∈ dom directory <-> key ∈ pc_key <$> g.(pg_chunks)).
Context (Hrep : represents g mems).

(** The packets that have a key. *)
Definition posting (key : posting_key) : gset Z := list_to_set (ordinals_for key mems).

(** The cache holds postings and the counters are within the limits. *)
Record query_inv (s : QueryState) : Prop := {
  qi_cache : forall key v, s.(q_cache) !! key = Some v -> v = posting key;
  qi_operations : 0 <= s.(q_operations) <= limits.(pql_max_operations);
  qi_decoded : 0 <= s.(q_decoded_memberships) <= limits.(pql_max_decoded_memberships);
}.

(** The query returns a value that satisfies [P] and keeps the invariant, or it
    raises one of the exceptions the caller turns into a sequential scan. *)
Definition sound {A} (m : query A) (P : A -> Prop) : Prop :=
  forall s, query_inv s ->
  match m s with
  | Ok (a, s') => query_inv s' /\ P a
  | Err e => is_query_failure e = true
  end.

Lemma sound_ret {A} (a : A) (P : A -> Prop) : P a -> sound (mret a) P.
Proof. by intros Ha s Hs. Qed.

Lemma sound_bind {A B} (m : query A) (f : A -> query B) P Q :
  sound m P -> (forall a, P a -> sound (f a) Q) -> sound (m ≫= f) Q.
Proof.
  intros Hm Hf s Hs. unfold mbind, query_bind. specialize (Hm s Hs).
  destruct (m s) as [[a s1]|e]; [|done]. destruct Hm as [Hs1 Ha]. by apply Hf.
Qed.

Lemma sound_mono {A} (m : query A) (P Q : A -> Prop) :
  sound m P -> (forall a, P a -> Q a) -> sound m Q.
Proof.
  intros Hm HPQ s Hs. specialize (Hm s Hs). destruct (m s) as [[a s1]|e]; [|done].
  destruct Hm. auto.
Qed.

Definition fails_softly {A} (r : res A) : Prop := forall e, r = Err e -> is_query_failure e = true.

Lemma sound_lift {A} (r : res A) : fails_softly r -> sound (q_lift r) (fun a => r = Ok a).
Proof. intros He s Hs. unfold q_lift. destruct r; [done|]. by apply He. Qed.

Lemma sound_raise_if cond e :
  is_query_failure e = true -> sound (q_raise_if cond e) (fun _ => cond = false).
Proof. intros He s Hs. by destruct cond. Qed.

Lemma sound_operation n : sound (operation limits n) (fun _ => True).
Proof.
  intros s [Hc Ho Hd]. unfold operation. destruct (_ || _) eqn:E; [done|]. reflect_bools.
  split; [split; simpl; [done|lia|done]|done].
Qed.

Lemma sound_decoded : sound (decoded limits) (fun _ => True).
Proof.
  intros s [Hc Ho Hd]. unfold decoded. destruct (_ <=? _) eqn:E; [done|]. reflect_bools.
  apply sound_operation. split; simpl; [done|done|lia].
Qed.

Lemma canonical_address_soft s : fails_softly (canonical_address s).
Proof. intros e. unfold canonical_address. case_match; [done|]. by intros [= <-]. Qed.

Lemma canonical_port_soft v : fails_softly (canonical_port v).
Proof. intros e. unfold canonical_port. case_match; [|done]. by intros [= <-]. Qed.

Lemma canonical_protocol_soft s : fails_softly (canonical_protocol s).
Proof. intros e. unfold canonical_protocol. repeat case_match; intros; simplify_eq; done. Qed.

Lemma ip_network_soft s : fails_softly (ip_network_of s).
Proof. intros e. unfold ip_network_of. case_match; [done|]. by intros [= <-]. Qed.

(** *** Reading a posting *)

Lemma sound_read_ordinals os st :
  sound (read_ordinals limits os st) (fun st' => st'.(gs_result) = list_to_set os ∪ st.(gs_result)).
Proof.
  revert st. induction os as [|o os IH]; intros st; cbn [read_ordinals].
  { apply sound_ret. set_solver. }
  eapply sound_bind; [apply sound_decoded|]. intros _ _.
  eapply sound_bind; [by apply sound_raise_if|]. intros _ _.
  eapply sound_bind; [apply sound_operation|]. intros _ _.
  eapply sound_mono; [apply IH|]. simpl. set_solver.
Qed.

Lemma sound_read_chunks i cs result previous :
  sound (read_chunks limits g i cs result previous) (fun r =>
    exists os, decode_chunks g.(pg_packet_count) cs = Ok os /\ r = list_to_set os ∪ result).
Proof.
  revert i result previous. induction cs as [|c cs IH]; intros i result previous; cbn [read_chunks].
  { apply sound_ret. exists []. set_solver. }
  cbn [decode_chunks]. unfold decode_ordinals.
  destruct (_iter_decoded_ordinals _ _) as [os r] eqn:Eit.
  eapply sound_bind; [apply sound_read_ordinals|]. intros st Hst. simpl in Hst.
  eapply sound_bind; [apply (sound_lift r)|].
  { intros e ->. destruct (iter_decoded_ordinals_error c.(pc_encoded_ordinals)
      (Some (pg_packet_count g - 1)) e) as [msg ->]; [by rewrite Eit|done]. }
  intros u Hr. rewrite Hr.
  eapply sound_bind; [by apply sound_raise_if|]. intros _ _.
  eapply sound_mono; [apply IH|]. intros r' (os' & Hos' & ->). exists (os ++ os').
  simpl. rewrite Hos'. split; [done|]. rewrite Hst. set_solver.
Qed.

Lemma sound_get d v : sound (get limits g directory d v) (fun r => r = posting (d, v)).
Proof.
  intros s Hs. unfold get. destruct (q_cache s !! _) as [r|] eqn:E.
  { split; [done|]. by apply Hs. }
  revert s Hs E. intros s Hs _.
  match goal with |- match ?m s with _ => _ end =>
    assert (sound m (fun r => r = posting (d, v))) as Hm; [|by apply Hm] end.
  eapply sound_bind; [by apply sound_raise_if|]. intros _ _.
  eapply sound_bind; [apply sound_read_chunks|]. intros r (os & Hos & ->).
  rewrite Hdir in Hos. pose proof (Hrep (d, v)) as Hv. unfold posting_values in Hv. simpl in Hv.
  fold (key_chunks (d, v) (pg_chunks g)) in Hv. rewrite Hv in Hos. injection Hos as <-.
  rewrite !union_empty_r_L. fold (posting (d, v)).
  eapply (sound_bind _ _ (fun _ => True)); [|intros _ _; by apply sound_ret].
  intros s1 [Hc Ho Hd]. split; [|done]. split; [|done|done]. intros key w. simpl.
  destruct (decide (key = (d, v))) as [->|Hne].
  - rewrite lookup_insert_eq. by intros [= <-].
  - rewrite lookup_insert_ne by done. apply Hc.
Qed.

(** *** Set operations *)

Lemma sound_union_members l acc :
  sound (union_members limits l acc) (fun r => r = list_to_set l ∪ acc).
Proof.
  revert acc. induction l as [|x l IH]; intros acc; cbn [union_members].
  { apply sound_ret. set_solver. }
  eapply sound_bind; [apply sound_operation|]. intros _ _.
  eapply sound_bind; [apply sound_operation|]. intros _ _.
  eapply sound_mono; [apply IH|]. simpl. set_solver.
Qed.

Lemma sound_union_values vs : sound (union_values limits vs) (fun r => r = ⋃ vs).
Proof.
  unfold union_values. assert (forall acc, sound (union_loop limits vs acc)
    (fun r => r = acc ∪ ⋃ vs)) as H.
  { induction vs as [|v vs IH]; intros acc; cbn [union_loop].
    - apply sound_ret. set_solver.
    - eapply sound_bind; [apply sound_union_members|]. intros r ->.
      eapply sound_mono; [apply IH|]. intros r ->. rewrite list_to_set_elements_L. set_solver. }
  eapply sound_mono; [apply H|]. set_solver.
Qed.

Lemma sound_filter_members keep l acc :
  sound (filter_members limits keep l acc)
    (fun r => forall x, x ∈ r <-> (x ∈ l /\ keep x = true) \/ x ∈ acc).
Proof.
  revert acc. induction l as [|y l IH]; intros acc; cbn [filter_members].
  { apply sound_ret. set_solver. }
  eapply sound_bind; [apply sound_operation|]. intros _ _.
  destruct (keep y) eqn:E.
  - eapply sound_bind; [apply sound_operation|]. intros _ _.
    eapply sound_mono; [apply IH|]. simpl. intros r Hr x. rewrite Hr. set_solver.
  - eapply sound_mono; [apply IH|]. simpl. intros r Hr x. rewrite Hr, elem_of_cons.
    naive_solver congruence.
Qed.

Lemma sound_intersect_values l r : sound (intersect_values limits l r) (fun x => x = l ∩ r).
Proof.
  eapply sound_mono; [apply sound_filter_members|]. simpl. intros x Hx. apply set_eq. intros i.
  rewrite Hx, elem_of_elements, bool_decide_eq_true. set_solver.
Qed.

Lemma sound_subtract_values l r : sound (subtract_values limits l r) (fun x => x = l ∖ r).
Proof.
  eapply sound_mono; [apply sound_filter_members|]. simpl. intros x Hx. apply set_eq. intros i.
  rewrite Hx, elem_of_elements, negb_true_iff, bool_decide_eq_false. set_solver.
Qed.

(** *** Addresses and ports *)

Lemma sound_address_terms keys terms :
  sound (address_terms limits keys terms) (fun r => forall v, v ∈ r <->
    v ∈ terms \/ exists d, (d, v) ∈ keys /\ is_address_dimension d = true).
Proof.
  revert terms. induction keys as [|[d v] keys IH]; intros terms; cbn [address_terms].
  { apply sound_ret. intros v. split; [by left|]. intros [|(? & []%not_elem_of_nil & _)]; done. }
  destruct (is_address_dimension d) eqn:Ed; cbn [negb].
  - eapply sound_bind; [apply sound_operation|]. intros _ _. case_bool_decide as Hv.
    + eapply sound_mono; [apply IH|]. simpl. intros r Hr w. rewrite Hr. set_solver.
    + eapply sound_bind; [apply sound_operation|]. intros _ _.
      eapply sound_mono; [apply IH|]. simpl. intros r Hr w. rewrite Hr. set_solver.
  - eapply sound_mono; [apply IH|]. simpl. intros r Hr w. rewrite Hr.
    setoid_rewrite elem_of_cons. naive_solver congruence.
Qed.

(** The packets with an address of the network among the terms. *)
Definition address_hit (net : ip_network) (i : Z) (v : bytes) : Prop :=
  let a := ip_of_packed (zdrop 1 v) in
  in_network a net = true /\ (i ∈ posting (SRC_ADDRESS, v) \/ i ∈ posting (DST_ADDRESS, v)).

Lemma sound_network_terms net terms acc :
  sound (network_terms limits g directory net terms acc) (fun r => forall i,
    i ∈ r <-> i ∈ acc \/ exists v, v ∈ terms /\ address_hit net i v).
Proof.
  revert acc. induction terms as [|v terms IH]; intros acc; cbn [network_terms].
  { apply sound_ret. intros i. split; [by left|]. intros [|(? & []%not_elem_of_nil & _)]; done. }
  eapply sound_bind; [by apply sound_raise_if|]. intros _ _.
  assert ((ip_version (ip_of_packed (zdrop 1 v)) =? net_version net)
    && in_network (ip_of_packed (zdrop 1 v)) net = in_network (ip_of_packed (zdrop 1 v)) net) as ->.
  { unfold in_network. by destruct (_ =? _). }
  destruct (in_network (ip_of_packed (zdrop 1 v)) net) eqn:Ein.
  - eapply sound_bind; [apply sound_get|]. intros r1 ->.
    eapply sound_bind; [apply sound_get|]. intros r2 ->.
    eapply sound_bind; [apply sound_union_values|]. intros r3 ->.
    eapply sound_mono; [apply IH|]. simpl. intros r Hr i. rewrite Hr.
    setoid_rewrite elem_of_cons. unfold address_hit. set_solver.
  - eapply sound_mono; [apply IH|]. simpl. intros r Hr i. rewrite Hr.
    setoid_rewrite elem_of_cons. unfold address_hit. naive_solver congruence.
Qed.

(** A key that some packet has is in the directory. *)
Lemma posting_in_directory i key : i ∈ posting key -> key ∈ (map_to_list directory).*1.
Proof.
  unfold posting. rewrite elem_of_list_to_set. intros Hi.
  assert (key ∈ dom directory) as Hk.
  { apply Hdom. pose proof (Hrep key) as Hv. unfold posting_values in Hv.
    destruct (key_chunks key (pg_chunks g)) as [|c l] eqn:E.
    - unfold key_chunks in E. destruct key as [d v]. simpl in Hv. rewrite E in Hv. simpl in Hv.
      injection Hv as Hv. rewrite <- Hv in Hi. by apply not_elem_of_nil in Hi.
    - assert (c ∈ key_chunks key (pg_chunks g)) as Hc by (rewrite E; left).
      unfold key_chunks in Hc. apply list_elem_of_filter in Hc as [Hck Hc].
      rewrite <- Hck. by apply list_elem_of_fmap_2. }
  apply elem_of_dom in Hk as [cs Hcs]. apply list_elem_of_fmap. exists (key, cs).
  split; [done|]. by apply elem_of_map_to_list.
Qed.

Context (Horder : forall terms : gset bytes, terms_order terms ≡ₚ elements terms).

(** *** Queries whose value does not matter *)

Lemma sound_any {A} (m : query A) P : sound m P -> sound m (fun _ => True).
Proof. intros Hm. by eapply sound_mono. Qed.

Lemma sound_and {A} (m : query A) P Q : sound m P -> sound m Q -> sound m (fun a => P a /\ Q a).
Proof.
  intros HP HQ s Hs. specialize (HP s Hs). specialize (HQ s Hs).
  destruct (m s) as [[a s1]|e]; naive_solver.
Qed.

Lemma sound_endpoints_any net : sound (endpoints limits g directory terms_order net) (fun _ => True).
Proof.
  unfold endpoints. destruct (_ =? _).
  - eapply sound_bind; [apply sound_lift, canonical_address_soft|]. intros key _.
    eapply sound_bind; [apply sound_get|]. intros r1 _.
    eapply sound_bind; [apply sound_get|]. intros r2 _.
    eapply sound_any, sound_union_values.
  - eapply sound_bind; [apply sound_address_terms|]. intros terms _.
    eapply sound_any, sound_network_terms.
Qed.

Lemma sound_either_port_any v : sound (either_port limits g directory v) (fun _ => True).
Proof.
  unfold either_port. eapply sound_bind; [apply sound_lift, canonical_port_soft|]. intros key _.
  eapply sound_bind; [apply sound_get|]. intros r1 _.
  eapply sound_bind; [apply sound_get|]. intros r2 _.
  eapply sound_any, sound_union_values.
Qed.

Lemma sound_condition_any for_exclude c :
  sound (condition_posting limits g directory terms_order for_exclude c) (fun _ => True).
Proof.
  destruct c as [net|d|s|port|port|port|x]; cbn [condition_posting].
  4: destruct for_exclude; [by apply sound_ret|].
  all: first [by apply sound_ret
    | eapply sound_bind; [first [apply sound_endpoints_any | apply sound_either_port_any
        | apply sound_get | apply sound_lift; first [apply canonical_port_soft
          | apply canonical_protocol_soft]]|]].
  all: intros ? _; first [by apply sound_ret
    | eapply sound_bind; [apply sound_get|intros ? _; by apply sound_ret]].
Qed.

Lemma sound_group_any universe for_exclude nf :
  sound (group_candidates limits g directory terms_order universe for_exclude nf) (fun _ => True).
Proof.
  unfold group_candidates. eapply (sound_bind _ _ (fun _ => True));
    [|intros [? ?] _; by apply sound_ret].
  generalize (@None (gset Z)) as result, true as exact.
  induction (group_items nf) as [|c items IH]; intros result exact; cbn [group_loop].
  { by apply sound_ret. }
  eapply sound_bind; [apply sound_condition_any|]. intros [[r|] ex] _; [|apply IH].
  destruct result as [r0|]; [|apply IH].
  eapply sound_bind; [apply sound_intersect_values|]. intros ? _. apply IH.
Qed.

(** *** The result lies in the universe *)

Lemma sound_narrow_endpoint_sub value result :
  sound (narrow_endpoint limits g directory terms_order value result) (fun r => r ⊆ result).
Proof.
  destruct value as [t|]; cbn [narrow_endpoint]; [|by apply sound_ret].
  eapply sound_bind; [apply sound_lift, ip_network_soft|]. intros net _.
  eapply sound_bind; [apply sound_endpoints_any|]. intros posting _.
  eapply sound_mono; [apply sound_intersect_values|]. set_solver.
Qed.

Lemma sound_narrow_port_sub port result :
  sound (narrow_port limits g directory port result) (fun r => r ⊆ result).
Proof.
  destruct port as [v|]; cbn [narrow_port]; [|by apply sound_ret].
  eapply sound_bind; [apply sound_either_port_any|]. intros posting _.
  eapply sound_mono; [apply sound_intersect_values|]. set_solver.
Qed.

Lemma sound_narrow_protocol_sub protocol result :
  sound (narrow_protocol limits g directory protocol result) (fun r => r ⊆ result).
Proof.
  destruct protocol as [t|]; cbn [narrow_protocol]; [|by apply sound_ret].
  case_bool_decide; [by apply sound_ret|].
  eapply sound_bind; [apply sound_lift, canonical_protocol_soft|]. intros key _.
  eapply sound_bind; [apply sound_get|]. intros posting _.
  eapply sound_mono; [apply sound_intersect_values|]. set_solver.
Qed.

Lemma sound_included_any universe groups acc :
  sound (included_groups limits g directory terms_order universe groups acc) (fun _ => True).
Proof.
  revert acc. induction groups as [|nf groups IH]; intros acc; cbn [included_groups].
  { by apply sound_ret. }
  eapply sound_bind; [apply sound_group_any|]. intros [c ex] _.
  eapply sound_bind; [apply sound_union_values|]. intros ? _. apply IH.
Qed.

Lemma sound_excluded_sub universe groups result :
  sound (excluded_groups limits g directory terms_order universe groups result)
    (fun r => r ⊆ result).
Proof.
  revert result. induction groups as [|nf groups IH]; intros result; cbn [excluded_groups].
  { by apply sound_ret. }
  eapply sound_bind; [apply sound_group_any|]. intros [c []] _; [|apply IH].
  eapply sound_bind; [apply sound_subtract_values|]. intros ? ->.
  eapply sound_mono; [apply IH|]. set_solver.
Qed.

(** What a query returns is sorted, within the result limit, and supported. *)
Definition selection_ok (os : list Z) : Prop :=
  StronglySorted Z.lt os /\ zlen os <= limits.(pql_max_result_ordinals) /\
  forall n, n ∈ os -> n ∈ posting (SUPPORTED, []).

(** The [tuple(sorted(result))] at the end. *)
Lemma sound_finish (result : gset Z) (P : list Z -> Prop) :
  result ⊆ posting (SUPPORTED, []) ->
  (forall os, selection_ok os -> (forall n, n ∈ os <-> n ∈ result) -> P os) ->
  sound (_ ← q_raise_if (limits.(pql_max_result_ordinals) <? Z.of_nat (size result))
              QueryLimitExceeded;
         _ ← operation limits (Z.of_nat (size result));
         mret (sort_by Z.leb (elements result))) P.
Proof.
  intros Hsub HP. eapply sound_bind; [by apply sound_raise_if|]. intros [] Hsize.
  cbv beta in Hsize. apply Z.ltb_ge in Hsize. eapply sound_bind; [apply sound_operation|]. intros _ _.
  assert (forall n, n ∈ sort_by Z.leb (elements result) <-> n ∈ result) as Hin.
  { intros n. by rewrite (sort_by_perm Z.leb), elem_of_elements. }
  apply sound_ret, HP; [|done]. split_and!.
  - apply sort_Z_lt, NoDup_elements.
  - unfold zlen. by rewrite (sort_by_perm Z.leb).
  - intros n. rewrite Hin. apply Hsub.
Qed.

(** The include groups, when there are any. *)
Definition narrow_includes (universe : gset Z) (groups : list NormalizedFilter) (result : gset Z)
    : query (gset Z) :=
  if bool_decide (length groups = 0%nat) then mret result
  else
    included ← included_groups limits g directory terms_order universe groups ∅;
    intersect_values limits result included.

Lemma sound_narrow_includes_sub universe groups result :
  sound (narrow_includes universe groups result) (fun r => r ⊆ result).
Proof.
  unfold narrow_includes. case_bool_decide; [by apply sound_ret|].
  eapply sound_bind; [apply sound_included_any|]. intros included _.
  eapply sound_mono; [apply sound_intersect_values|]. set_solver.
Qed.

Lemma sound_run_selection predicate :
  sound (run_selection limits g directory terms_order predicate) selection_ok.
Proof.
  unfold run_selection. eapply sound_bind; [apply sound_get|]. intros universe ->.
  eapply sound_bind; [apply sound_narrow_endpoint_sub|]. intros r1 H1.
  eapply sound_bind; [apply sound_narrow_endpoint_sub|]. intros r2 H2.
  eapply sound_bind; [apply sound_narrow_port_sub|]. intros r3 H3.
  eapply sound_bind; [apply sound_narrow_protocol_sub|]. intros r4 H4.
  eapply sound_bind; [apply sound_narrow_includes_sub|]. intros r5 H5.
  eapply sound_bind; [apply sound_excluded_sub|]. intros r6 H6.
  apply sound_finish; [set_solver|done].
Qed.

(** *** One packet *)

(** The dictionary value of an address. *)
Definition addr_key (a : ip_address) : bytes := z2b (ip_version a) :: ip_packed a.

Lemma addr_key_ip a : ip_ok a -> ip_of_packed (zdrop 1 (addr_key a)) = a.
Proof. apply ip_of_packed_packed. Qed.

Lemma addr_key_inj a b : ip_ok a -> ip_ok b -> addr_key a = addr_key b -> a = b.
Proof.
  intros Ha Hb H. apply (f_equal (fun l => ip_of_packed (zdrop 1 l))) in H.
  by rewrite !addr_key_ip in H.
Qed.

(** What a supported packet with index [i] is posted under. *)
Record posted (i : Z) (p : Projection) (a b : ip_address) (n : Z) : Prop := {
  po_supported : i ∈ posting (SUPPORTED, []);
  po_source : forall v, i ∈ posting (SRC_ADDRESS, v) <-> v = addr_key a;
  po_destination : forall v, i ∈ posting (DST_ADDRESS, v) <-> v = addr_key b;
  po_source_port : forall v, i ∈ posting (SRC_PORT, v) <->
    exists port, p.(pp_source_port) = Some port /\ v = to_be 2 port;
  po_destination_port : forall v, i ∈ posting (DST_PORT, v) <->
    exists port, p.(pp_destination_port) = Some port /\ v = to_be 2 port;
  po_protocol : forall v, i ∈ posting (PROTOCOL, v) <-> v = encode_ascii (protocol_name n);
  po_payload : forall v, i ∈ posting (HAS_PAYLOAD, v) <->
    v = canonical_payload (default false p.(pp_has_payload));
}.

Section packet.
Context (networks : list ip_network) (i : Z) (p : Projection) (a b : ip_address) (n : Z).
Context (Hp : supported_projection networks p a b n) (Hposted : posted i p a b n).

Lemma sound_endpoints net :
  ip_ok net.(net_address) ->
  sound (endpoints limits g directory terms_order net)
    (fun r => i ∈ r <-> in_network a net || in_network b net = true).
Proof.
  intros Hnet. pose proof (sp_source_ok _ _ _ _ _ Hp) as Ha.
  pose proof (sp_destination_ok _ _ _ _ _ Hp) as Hb.
  unfold endpoints. case_match eqn:Epre.
  - apply Z.eqb_eq in Epre. rewrite canonical_address_ip by done.
    assert (net = host_network net.(net_address)) as Hhost.
    { destruct net as [x pre]. simpl in *. unfold host_network. by rewrite Epre. }
    eapply sound_bind; [by apply sound_lift|]. intros ? [= <-]. fold (addr_key net.(net_address)).
    eapply sound_bind; [apply sound_get|]. intros r1 ->.
    eapply sound_bind; [apply sound_get|]. intros r2 ->.
    eapply sound_mono; [apply sound_union_values|]. intros r ->. simpl.
    rewrite !elem_of_union, (po_source _ _ _ _ _ Hposted), (po_destination _ _ _ _ _ Hposted),
      orb_true_iff, Hhost, !in_host_network by done. simpl. split.
    + intros [H|[H|[]%not_elem_of_empty]]; apply addr_key_inj in H; auto.
    + intros [<-|<-]; auto.
  - eapply sound_bind; [apply sound_address_terms|]. intros terms Hterms. simpl in Hterms.
    eapply sound_mono; [apply sound_network_terms|]. intros r Hr. cbv beta in Hr |- *.
    rewrite Hr. unfold address_hit. rewrite orb_true_iff. split.
    + intros [[]%not_elem_of_empty|(v & _ & Hin & [H|H])];
        [apply (po_source _ _ _ _ _ Hposted) in H|apply (po_destination _ _ _ _ _ Hposted) in H];
        subst v; rewrite addr_key_ip in Hin by done; auto.
    + assert (forall d x, is_address_dimension d = true -> i ∈ posting (d, x) ->
        x ∈ terms_order terms) as Hin.
      { intros d x Hd Hx. rewrite Horder, elem_of_elements, Hterms. right. exists d.
        split; [by eapply posting_in_directory|done]. }
      intros H. right.
      assert (i ∈ posting (SRC_ADDRESS, addr_key a)) by (by apply (po_source _ _ _ _ _ Hposted)).
      assert (i ∈ posting (DST_ADDRESS, addr_key b)) by (by apply (po_destination _ _ _ _ _ Hposted)).
      destruct H as [H|H].
      * exists (addr_key a). rewrite addr_key_ip by done. split; [by apply (Hin SRC_ADDRESS)|auto].
      * exists (addr_key b). rewrite addr_key_ip by done. split; [by apply (Hin DST_ADDRESS)|auto].
Qed.

Lemma to_be_2_inj x y : 0 <= x < 65536 -> 0 <= y < 65536 -> to_be 2 x = to_be 2 y -> x = y.
Proof.
  intros Hx Hy H. apply (f_equal from_be) in H.
  by rewrite !(from_bytes_to_bytes BE 2) in H.
Qed.

Lemma canonical_port_inv v key : canonical_port v = Ok key -> 0 <= v < 65536 /\ key = to_be 2 v.
Proof. unfold canonical_port. case_match eqn:E; [done|]. intros [= <-]. reflect_bools. split; [lia|done]. Qed.

Lemma packet_ports_range port :
  p.(pp_source_port) = Some port \/ p.(pp_destination_port) = Some port -> 0 <= port < 65536.
Proof. destruct (sp_ports _ _ _ _ _ Hp) as [[-> ->]|(s & d & -> & -> & ? & ? & _)]; naive_solver. Qed.

Lemma port_posting v key :
  canonical_port v = Ok key ->
  (i ∈ posting (SRC_PORT, key) <-> p.(pp_source_port) = Some v) /\
  (i ∈ posting (DST_PORT, key) <-> p.(pp_destination_port) = Some v).
Proof.
  intros [Hv ->]%canonical_port_inv.
  rewrite (po_source_port _ _ _ _ _ Hposted), (po_destination_port _ _ _ _ _ Hposted).
  split; (split; [|by intros ->; eexists]); intros (port & Hport & H%to_be_2_inj);
    try congruence; try done; apply packet_ports_range; auto.
Qed.

Lemma sound_either_port v :
  sound (either_port limits g directory v)
    (fun r => i ∈ r <-> p.(pp_source_port) = Some v \/ p.(pp_destination_port) = Some v).
Proof.
  unfold either_port. eapply sound_bind; [apply sound_lift, canonical_port_soft|].
  intros key [Hs Hd]%port_posting.
  eapply sound_bind; [apply sound_get|]. intros r1 ->.
  eapply sound_bind; [apply sound_get|]. intros r2 ->.
  eapply sound_mono; [apply sound_union_values|]. intros r ->. simpl.
  rewrite !elem_of_union, Hs, Hd. set_solver.
Qed.

Lemma canonical_protocol_inv s key :
  canonical_protocol s = Ok key -> key = encode_ascii (str_upper s) /\ s <> ""%string.
Proof.
  unfold canonical_protocol. intros H. split; [|by intros ->].
  repeat case_match; simplify_eq; done.
Qed.

Lemma encode_ascii_inj s t : encode_ascii s = encode_ascii t -> s = t.
Proof.
  intros H. apply (f_equal String.string_of_list_byte) in H. unfold encode_ascii in H.
  by rewrite !String.string_of_list_byte_of_string in H.
Qed.

Lemma protocol_posting s key :
  canonical_protocol s = Ok key ->
  i ∈ posting (PROTOCOL, key) <-> str_upper s = protocol_name n.
Proof.
  intros [-> _]%canonical_protocol_inv. rewrite (po_protocol _ _ _ _ _ Hposted).
  split; [apply encode_ascii_inj|by intros ->].
Qed.

Lemma payload_posting v :
  i ∈ posting (HAS_PAYLOAD, canonical_payload v) <-> default false p.(pp_has_payload) = v.
Proof.
  rewrite (po_payload _ _ _ _ _ Hposted). destruct v, (default false _); naive_solver.
Qed.

(** *** Filter groups on one packet *)

(** The view that the predicate builds of the packet. *)
Record view_ok (v : FlowView) : Prop := {
  vo_source : v.(fv_source_ip) = ip_str a;
  vo_destination : v.(fv_destination_ip) = ip_str b;
  vo_source_port : v.(fv_source_port) = p.(pp_source_port);
  vo_destination_port : v.(fv_destination_port) = p.(pp_destination_port);
  vo_service_port : v.(fv_service_port) = None \/ v.(fv_service_port) = p.(pp_source_port) \/
    v.(fv_service_port) = p.(pp_destination_port);
  vo_protocol : v.(fv_protocol) = Some p.(pp_protocol);
  vo_payload : v.(fv_has_payload) = default false p.(pp_has_payload);
}.

Definition condition_holds (v : FlowView) (c : condition) : bool :=
  match c with
  | CEndpoint net => in_network a net || in_network b net
  | CDirection d => negb (text_differs (Some d) (view_text v.(fv_direction)))
  | CProtocol s => negb (text_differs (Some s) (view_text v.(fv_protocol)))
  | CPort port => negb (port_differs (Some port) v.(fv_service_port))
  | CSourcePort port => negb (port_differs (Some port) v.(fv_source_port))
  | CDestinationPort port => negb (port_differs (Some port) v.(fv_destination_port))
  | CHasPayload x => Bool.eqb v.(fv_has_payload) x
  end.

Lemma endpoint_matches_packet v net :
  view_ok v -> endpoint_matches v net = Ok (in_network a net || in_network b net).
Proof.
  intros Hv. unfold endpoint_matches, ip_address_of. simpl.
  rewrite (vo_source _ Hv), (vo_destination _ Hv), !parse_ip_str by apply Hp. simpl.
  by destruct (in_network a net), (in_network b net).
Qed.

(** A group is the conjunction of its conditions. *)
Lemma matches_filter_items v nf :
  view_ok v -> _matches_filter v nf = Ok (forallb (condition_holds v) (group_items nf)).
Proof.
  intros Hv. unfold _matches_filter, group_items. destruct nf as [net dir proto port sp dp pl].
  cbn [nf_endpoint_network nf_direction nf_protocol nf_port nf_source_port nf_destination_port
    nf_has_payload].
  rewrite !forallb_app.
  assert ((match net with Some net => endpoint_matches v net | None => Ok true end) =
    Ok (forallb (condition_holds v) (opt_item CEndpoint net))) as ->.
  { destruct net as [net|]; [|done]. rewrite endpoint_matches_packet by done. simpl.
    by rewrite andb_true_r. }
  cbn [mbind res_bind]. destruct (forallb _ (opt_item CEndpoint net)); [|done].
  cbn [negb andb].
  destruct dir as [dir|], proto as [proto|], port as [port|], sp as [sp|], dp as [dp|], pl as [pl|];
    cbn [opt_item forallb condition_holds text_differs port_differs];
    repeat (match goal with |- context [if ?c then _ else _] => destruct c end;
      cbn [negb andb]; try done); by rewrite ?andb_true_r.
Qed.

Definition condition_ok (c : condition) : Prop :=
  match c with CEndpoint net => ip_ok net.(net_address) | _ => True end.

(** [i] is in the posting, or there is none. *)
Definition holds (o : option (gset Z)) : Prop :=
  match o with Some r => i ∈ r | None => True end.

Lemma upper_protocol_name : str_upper (protocol_name n) = protocol_name n.
Proof.
  pose proof (sp_number _ _ _ _ _ Hp) as Hn.
  assert (forallb (fun n => bool_decide (str_upper (protocol_name n) = protocol_name n))
    (Z.of_nat <$> seq 0 256) = true) as H by (vm_compute; reflexivity).
  rewrite forallb_forall in H. specialize (H n). apply bool_decide_eq_true in H; [done|].
  apply list_elem_of_In, list_elem_of_fmap. exists (Z.to_nat n).
  split; [lia|]. apply elem_of_seq. lia.
Qed.

Lemma protocol_condition v s :
  view_ok v -> s <> ""%string ->
  condition_holds v (CProtocol s) = true <-> str_upper s = protocol_name n.
Proof.
  intros Hv Hs. simpl. rewrite (vo_protocol _ Hv), (sp_protocol _ _ _ _ _ Hp). simpl.
  rewrite upper_protocol_name, bool_decide_false by done. simpl.
  rewrite negb_involutive, bool_decide_eq_true. naive_solver.
Qed.

Lemma port_condition_iff port value :
  negb (port_differs (Some port) value) = true <-> value = Some port.
Proof. simpl. by rewrite negb_involutive, bool_decide_eq_true. Qed.

Lemma sound_condition v for_exclude c :
  view_ok v -> condition_ok c ->
  sound (condition_posting limits g directory terms_order for_exclude c) (fun x =>
    (condition_holds v c = true -> holds x.1) /\
    (x.2 = true -> holds x.1 -> condition_holds v c = true)).
Proof.
  intros Hv Hc. destruct c as [net|d|s|port|port|port|x]; cbn [condition_posting].
  - eapply sound_bind; [by apply sound_endpoints|]. intros r Hr. apply sound_ret. simpl.
    cbv beta in Hr. rewrite Hr. tauto.
  - by apply sound_ret.
  - eapply sound_bind; [apply sound_lift, canonical_protocol_soft|].
    intros key Hkey. eapply sound_bind; [apply sound_get|]. intros r ->. apply sound_ret.
    destruct (canonical_protocol_inv _ _ Hkey) as [_ Hs]. cbn [holds fst snd].
    rewrite (protocol_posting s key Hkey), (protocol_condition v s Hv Hs). tauto.
  - destruct for_exclude; [by apply sound_ret|].
    eapply sound_bind; [apply sound_either_port|]. intros r Hr. apply sound_ret.
    cbn [holds fst snd condition_holds]. rewrite port_condition_iff. cbv beta in Hr. rewrite Hr.
    split; [|done]. intros H. destruct (vo_service_port _ Hv) as [E|[E|E]]; rewrite E in H; auto. done.
  - eapply sound_bind; [apply sound_lift, canonical_port_soft|].
    intros key [Hs _]%port_posting. eapply sound_bind; [apply sound_get|]. intros r ->.
    apply sound_ret. cbn [holds fst snd condition_holds].
    rewrite port_condition_iff, (vo_source_port _ Hv), Hs. tauto.
  - eapply sound_bind; [apply sound_lift, canonical_port_soft|].
    intros key [_ Hd]%port_posting. eapply sound_bind; [apply sound_get|]. intros r ->.
    apply sound_ret. cbn [holds fst snd condition_holds].
    rewrite port_condition_iff, (vo_destination_port _ Hv), Hd. tauto.
  - eapply sound_bind; [apply sound_get|]. intros r ->. apply sound_ret.
    cbn [holds fst snd condition_holds]. rewrite payload_posting, (vo_payload _ Hv), eqb_true_iff.
    tauto.
Qed.

Lemma sound_group_loop v for_exclude items result exact :
  view_ok v -> Forall condition_ok items ->
  sound (group_loop limits g directory terms_order for_exclude items result exact) (fun x =>
    (holds result -> forallb (condition_holds v) items = true -> holds x.1) /\
    (x.2 = true -> exact = true /\
      (holds x.1 -> holds result /\ forallb (condition_holds v) items = true))).
Proof.
  intros Hv Hitems. revert result exact. induction Hitems as [|c items Hc _ IH];
    intros result exact; cbn [group_loop].
  { by apply sound_ret. }
  eapply sound_bind; [by apply sound_condition|]. intros [post ex] Hx. cbn [fst snd] in Hx.
  destruct Hx as [Hx1 Hx2]. destruct post as [r|], result as [r0|]; cbn [holds] in *.
  1: eapply sound_bind; [apply sound_intersect_values|]; intros ? ->.
  all: eapply sound_mono; [apply IH|]; intros [res' ex']; cbn [fst snd holds forallb];
    rewrite ?elem_of_intersection; destruct (condition_holds v c); cbn [andb];
    intros [H1 H2]; (split; [intros; first [done|tauto]|]); intros H; destruct (H2 H) as [[He Hi]%andb_prop H3];
    (split; [done|]); intros H4; destruct (H3 H4) as [H5 H6]; tauto.
Qed.

Lemma sound_group_candidates v universe for_exclude nf :
  view_ok v -> Forall condition_ok (group_items nf) -> i ∈ universe ->
  sound (group_candidates limits g directory terms_order universe for_exclude nf) (fun x =>
    (_matches_filter v nf = Ok true -> i ∈ x.1) /\
    (x.2 = true -> i ∈ x.1 -> _matches_filter v nf = Ok true)).
Proof.
  intros Hv Hnf Hu. unfold group_candidates. rewrite matches_filter_items by done.
  eapply sound_bind; [by apply (sound_group_loop v)|]. intros [result exact] [H1 H2].
  apply sound_ret. cbn [fst snd holds] in *. split.
  - intros [= Hall]. destruct result as [r|]; simpl in *; [|done]. by apply H1.
  - intros [Hex _]%andb_prop Hi. f_equal. apply H2; [done|]. by destruct result.
Qed.

(** *** The predicate on one packet *)

Lemma narrow_endpoint_keeps value result :
  not_among value (Some (ip_str a)) (Some (ip_str b)) = false -> i ∈ result ->
  sound (narrow_endpoint limits g directory terms_order value result) (fun r => i ∈ r).
Proof.
  unfold not_among. rewrite negb_false_iff, bool_decide_eq_true. intros Hv Hi.
  destruct value as [t|]; cbn [narrow_endpoint]; [|by apply sound_ret].
  assert (exists x, ip_ok x /\ t = ip_str x /\ (x = a \/ x = b)) as (x & Hx & -> & Hab).
  { rewrite !elem_of_cons in Hv. destruct Hv as [|[[= ->]|[[= ->]|[]%elem_of_nil]]]; [done|exists a|exists b];
      (split; [apply Hp|auto]). }
  unfold ip_network_of. rewrite parse_network_ip_str by done.
  eapply sound_bind; [by apply sound_lift|]. intros net [= <-].
  eapply sound_bind; [by apply sound_endpoints|]. intros r Hr. cbv beta in Hr.
  eapply sound_mono; [apply sound_intersect_values|]. intros ? ->. apply elem_of_intersection.
  split; [done|]. apply Hr, orb_true_iff. rewrite !in_host_network by apply Hp. naive_solver.
Qed.

Lemma narrow_port_keeps port result :
  not_among port p.(pp_source_port) p.(pp_destination_port) = false -> i ∈ result ->
  sound (narrow_port limits g directory port result) (fun r => i ∈ r).
Proof.
  unfold not_among. rewrite negb_false_iff, bool_decide_eq_true. intros Hv Hi.
  destruct port as [v|]; cbn [narrow_port]; [|by apply sound_ret].
  eapply sound_bind; [apply sound_either_port|]. intros r Hr. cbv beta in Hr.
  eapply sound_mono; [apply sound_intersect_values|]. intros ? ->. apply elem_of_intersection.
  split; [done|]. apply Hr. rewrite !elem_of_cons in Hv.
  destruct Hv as [|[?|[?|[]%elem_of_nil]]]; [done|auto|auto].
Qed.

Lemma str_upper_idem s : str_upper (str_upper s) = str_upper s.
Proof.
  unfold str_upper, str_map. rewrite String.list_ascii_of_string_of_list_ascii.
  f_equal. rewrite <- list_fmap_compose. apply list_fmap_ext. intros _ c _.
  unfold compose. by destruct c as [[] [] [] [] [] [] [] []].
Qed.

Lemma narrow_protocol_keeps protocol result :
  differs protocol (Some (str_upper (protocol_name n))) = false -> i ∈ result ->
  sound (narrow_protocol limits g directory protocol result) (fun r => i ∈ r).
Proof.
  intros Hd Hi. destruct protocol as [t|]; cbn [narrow_protocol]; [|by apply sound_ret].
  case_bool_decide as Ht; [by apply sound_ret|].
  eapply sound_bind; [apply sound_lift, canonical_protocol_soft|]. intros key Hkey.
  eapply sound_bind; [apply sound_get|]. intros ? ->.
  eapply sound_mono; [apply sound_intersect_values|]. intros ? ->. apply elem_of_intersection.
  split; [done|]. apply (protocol_posting t key Hkey). simpl in Hd.
  rewrite bool_decide_false in Hd by done. simpl in Hd.
  apply negb_false_iff, bool_decide_eq_true in Hd. injection Hd as <-.
  by rewrite str_upper_idem, upper_protocol_name.
Qed.

Lemma included_groups_keeps v universe groups acc :
  view_ok v -> i ∈ universe -> Forall (fun nf => Forall condition_ok (group_items nf)) groups ->
  (i ∈ acc \/ exists nf, nf ∈ groups /\ _matches_filter v nf = Ok true) ->
  sound (included_groups limits g directory terms_order universe groups acc) (fun r => i ∈ r).
Proof.
  intros Hv Hu Hok. revert acc. induction Hok as [|nf groups Hnf _ IH]; intros acc Hm;
    cbn [included_groups].
  { apply sound_ret. destruct Hm as [|(? & []%not_elem_of_nil & _)]; done. }
  eapply sound_bind; [by apply (sound_group_candidates v)|]. intros [c ex] [Hc _]. cbn [fst] in Hc.
  eapply sound_bind; [apply sound_union_values|]. intros ? ->. apply IH.
  destruct Hm as [|(nf' & [->|?]%elem_of_cons & ?)]; [set_solver|set_solver|].
  right. eauto.
Qed.

Lemma excluded_groups_keeps v universe groups result :
  view_ok v -> i ∈ universe -> Forall (fun nf => Forall condition_ok (group_items nf)) groups ->
  (forall nf, nf ∈ groups -> _matches_filter v nf = Ok false) -> i ∈ result ->
  sound (excluded_groups limits g directory terms_order universe groups result) (fun r => i ∈ r).
Proof.
  intros Hv Hu Hok. revert result. induction Hok as [|nf groups Hnf _ IH]; intros result Hm Hi;
    cbn [excluded_groups].
  { by apply sound_ret. }
  eapply sound_bind; [by apply (sound_group_candidates v)|]. intros [c ex] [_ Hc]. cbn [fst snd] in Hc.
  assert (forall nf, nf ∈ groups -> _matches_filter v nf = Ok false) as Hm'
    by (intros; apply Hm; by right).
  destruct ex; [|by apply IH].
  eapply sound_bind; [apply sound_subtract_values|]. intros ? ->. apply IH; [done|].
  apply elem_of_difference. split; [done|]. intros Hin%Hc; [|done].
  rewrite (Hm nf) in Hin by left. done.
Qed.

Lemma narrow_includes_keeps v universe groups result :
  view_ok v -> i ∈ universe -> Forall (fun nf => Forall condition_ok (group_items nf)) groups ->
  (groups = [] \/ exists nf, nf ∈ groups /\ _matches_filter v nf = Ok true) -> i ∈ result ->
  sound (narrow_includes universe groups result) (fun r => i ∈ r).
Proof.
  intros Hv Hu Hok Hm Hi. unfold narrow_includes. case_bool_decide as Hl; [by apply sound_ret|].
  destruct Hm as [->|Hm]; [done|].
  eapply sound_bind; [apply (included_groups_keeps v); auto|]. intros included Hin.
  eapply sound_mono; [apply sound_intersect_values|]. set_solver.
Qed.

(** What the predicate says of the packet, on its view. *)
Record predicate_holds (predicate : CompiledPacketPredicate) (v : FlowView) : Prop := {
  ph_candidate : not_among predicate.(cp_candidate_ip) (Some (ip_str a)) (Some (ip_str b)) = false;
  ph_host : not_among predicate.(cp_internal_host_ip) (Some (ip_str a)) (Some (ip_str b)) = false;
  ph_port : not_among predicate.(cp_port) p.(pp_source_port) p.(pp_destination_port) = false;
  ph_protocol : differs predicate.(cp_protocol) (Some (str_upper (protocol_name n))) = false;
  ph_view : view_ok v;
  ph_include : predicate.(cp_include_filters) = [] \/
    exists nf, nf ∈ predicate.(cp_include_filters) /\ _matches_filter v nf = Ok true;
  ph_exclude : forall nf, nf ∈ predicate.(cp_exclude_filters) -> _matches_filter v nf = Ok false;
}.

Lemma run_selection_keeps predicate v :
  predicate_holds predicate v ->
  Forall (fun nf => Forall condition_ok (group_items nf)) predicate.(cp_include_filters) ->
  Forall (fun nf => Forall condition_ok (group_items nf)) predicate.(cp_exclude_filters) ->
  sound (run_selection limits g directory terms_order predicate) (fun os => i ∈ os).
Proof.
  intros Hph Hin Hex. unfold run_selection. pose proof (po_supported _ _ _ _ _ Hposted) as Hu.
  eapply sound_bind; [apply sound_get|]. intros universe ->.
  eapply sound_bind; [eapply sound_and; [apply sound_narrow_endpoint_sub|
    apply narrow_endpoint_keeps; [apply Hph|done]]|]. intros r1 [S1 H1].
  eapply sound_bind; [eapply sound_and; [apply sound_narrow_endpoint_sub|
    apply narrow_endpoint_keeps; [apply Hph|done]]|]. intros r2 [S2 H2].
  eapply sound_bind; [eapply sound_and; [apply sound_narrow_port_sub|
    apply narrow_port_keeps; [apply Hph|done]]|]. intros r3 [S3 H3].
  eapply sound_bind; [eapply sound_and; [apply sound_narrow_protocol_sub|
    apply narrow_protocol_keeps; [apply Hph|done]]|]. intros r4 [S4 H4].
  eapply sound_bind; [eapply sound_and; [apply sound_narrow_includes_sub|
    apply (narrow_includes_keeps v); try done; apply Hph]|]. intros r5 [S5 H5].
  eapply sound_bind; [eapply sound_and; [apply sound_excluded_sub|
    apply (excluded_groups_keeps v); try done; apply Hph]|]. intros r6 [S6 H6].
  apply sound_finish; [set_solver|]. intros os _ Hos. by apply Hos.
Qed.
End packet.
End query_logic.

(** ** From packets to postings *)

Lemma elem_posting mems key k m :
  mems !! k = Some m -> Z.of_nat k ∈ posting mems key <-> key ∈ m.
Proof.
  intros Hm. unfold posting. rewrite elem_of_list_to_set, elem_of_ordinals_for, Nat2Z.id, Hm.
  split; [by intros (_ & ? & [= <-] & ?)|]. intros Hin. split; [lia|eauto].
Qed.

Lemma elem_membership d d' v o : (d, v) ∈ membership d' o <-> d = d' /\ o = Some v.
Proof. destruct o; simpl; rewrite ?list_elem_of_singleton, ?elem_of_nil; naive_solver. Qed.

(** A decoded packet is posted under its own fields. *)
Lemma packet_posted networks mems k packet m a b n :
  supported_projection networks packet.(ep_projection) a b n ->
  packet.(ep_projection).(pp_supported) = true ->
  packet_memberships packet m -> mems !! k = Some m ->
  posted mems (Z.of_nat k) packet.(ep_projection) a b n.
Proof.
  intros Hp Hsup (item & Hitem & ->) Hk.
  destruct (canonical_protocol_name n (sp_number _ _ _ _ _ Hp)) as (Hne & Hcp & _).
  unfold _projection in Hitem.
  rewrite Hsup, (sp_source _ _ _ _ _ Hp), (sp_destination _ _ _ _ _ Hp),
    (sp_protocol _ _ _ _ _ Hp) in Hitem. cbn [canonical_text] in Hitem.
  rewrite !bool_decide_false in Hitem by (done || apply ip_str_nonempty, Hp).
  rewrite !canonical_address_ip, Hcp in Hitem by apply Hp. cbn [mbind res_bind] in Hitem.
  apply bind_Ok in Hitem as (sp & Hsp & Hitem). apply bind_Ok in Hitem as (dp & Hdp & Hitem).
  apply bind_Ok in Hitem as (pl & Hpl & Hitem). injection Hitem as <-.
  destruct (sp_payload _ _ _ _ _ Hp) as [payload Hpay].
  assert (pl = Some (canonical_payload payload)) as -> by (rewrite Hpay in Hpl; by injection Hpl).
  assert (forall o c, canonical_opt canonical_port true o = Ok c -> forall v,
    c = Some v <-> exists port, o = Some port /\ v = to_be 2 port) as Hport.
  { intros [port|] c Hc v; [|injection Hc as <-; naive_solver].
    simpl in Hc. apply bind_Ok in Hc as (key & [_ ->]%canonical_port_inv & [= <-]). naive_solver. }
  split; try intros v; rewrite (elem_posting _ _ _ _ Hk); unfold _projection_memberships;
    cbn [pr_supported pr_source_address pr_destination_address pr_source_port pr_destination_port
      pr_protocol pr_has_payload negb]; rewrite ?elem_of_cons, ?elem_of_app, ?elem_membership.
  - auto.
  - unfold addr_key. naive_solver.
  - unfold addr_key. naive_solver.
  - rewrite <- (Hport _ _ Hsp). naive_solver.
  - rewrite <- (Hport _ _ Hdp). naive_solver.
  - naive_solver.
  - rewrite Hpay. naive_solver.
Qed.
