(* ===== verification/PostingQuery.v ===== *)
(** * PostingQuery

    The contract of [select_posting_candidates], end to end: on the postings of
    a capture, a query with a compiled predicate returns a safe superset of the
    packets the predicate matches, or asks for a sequential scan. *)

From S2P Require Import Prelude Bytes Samples Reader ReaderLogic IpAddress IpText.
From S2P Require Import PacketProjection StructuralIndex StructuralProofs ExportDecoder.
From S2P Require Import ExportAgreement PostingCodec PostingModel PostingBuild PostingProofs.
From S2P Require Import PostingComplete FlowFilter PostingSelect PostingSound.

(** ** Compiled predicates *)

Lemma normalize_filter_ok f nf : _normalize_filter f = Ok nf -> Forall condition_ok (group_items nf).
Proof.
  unfold _normalize_filter. intros H. repeat apply bind_Ok in H as (? & ? & H).
  injection H as <-. unfold group_items; simpl. rewrite !Forall_app.
  split_and!; try (match goal with |- Forall _ (opt_item _ ?o) => destruct o; by repeat constructor end).
  destruct (text_condition f "candidate_ip") as [c|]; simplify_eq; [|by constructor].
  inv_bind. subst. constructor; [|done]. simpl.
  match goal with H : ip_network_of _ = _ |- _ => unfold ip_network_of in H end.
  destruct (parse_ip_network c) eqn:E; simplify_eq. by apply parse_ip_network_ok in E.
Qed.

Lemma normalize_groups_ok groups nfs :
  normalize_groups groups = Ok nfs -> Forall (fun nf => Forall condition_ok (group_items nf)) nfs.
Proof.
  revert nfs. induction groups as [|f groups IH]; intros nfs; simpl.
  { intros [= <-]. by constructor. }
  intros (nf & Hnf & H)%bind_Ok. apply bind_Ok in H as (rest & Hrest & [= <-]).
  constructor; [by eapply normalize_filter_ok|by apply IH].
Qed.

Lemma pretty_N_go_nonempty x s : s <> ""%string -> pretty_N_go x s <> ""%string.
Proof.
  revert s. induction (N.lt_wf_0 x) as [x _ IH]; intros s Hs.
  assert (x = 0 \/ 0 < x)%N as [->|?] by lia; [by rewrite pretty_N_go_0|].
  rewrite pretty_N_go_step by done. apply IH; [by apply N.div_lt|done].
Qed.

Lemma pretty_Z_nonempty (z : Z) : pretty z <> ""%string.
Proof.
  destruct z as [|z|z]; [done| |done]. change (pretty (Z.pos z)) with (pretty_N (N.pos z)).
  unfold pretty_N. rewrite decide_False by done. rewrite pretty_N_go_step by lia. by apply pretty_N_go_nonempty.
Qed.

(** What compilation guarantees: networks are networks, and an empty sensor is
    no condition. *)
Lemma compile_predicate_ok fromisoformat filters networks predicate :
  compile_packet_predicate fromisoformat filters networks = Ok predicate ->
  Forall (fun nf => Forall condition_ok (group_items nf)) predicate.(cp_include_filters) /\
  Forall (fun nf => Forall condition_ok (group_items nf)) predicate.(cp_exclude_filters) /\
  predicate.(cp_sensor) <> Some ""%string.
Proof.
  unfold compile_packet_predicate, compile_packet_filter_groups. intros ([i e] & H1 & H)%bind_Ok.
  apply bind_Ok in H1 as (i' & Hi & H1). apply bind_Ok in H1 as (e' & He & [= <- <-]).
  apply bind_Ok in H as (start & _ & H). apply bind_Ok in H as (stop & _ & H).
  apply bind_Ok in H as (port & _ & [= <-]). simpl. split_and!; [by eapply normalize_groups_ok..|].
  unfold truthy_text. destruct (default PNone _) as [|[]|z|s]; simpl; try done.
  - case_match; [|done]. intros [= Hz]. by apply pretty_Z_nonempty in Hz.
  - case_bool_decide; [done|]. simpl. congruence.
Qed.

(** ** Matching a supported packet *)

Lemma service_port_cases s d dir sp dp nets port :
  packet_service_port s d dir sp dp nets = Ok port -> port = None \/ port = sp \/ port = dp.
Proof.
  unfold packet_service_port. do 2 (case_bool_decide; [naive_solver|]).
  intros (x & _ & Hxy)%bind_Ok. apply bind_Ok in Hxy as (y & _ & Hxy).
  repeat case_match; naive_solver.
Qed.

Lemma matches_holds fromisoformat predicate packet sensor networks a b n :
  supported_projection networks packet.(ep_projection) a b n ->
  predicate_matches fromisoformat predicate (export_fields packet) sensor = Ok true ->
  differs predicate.(cp_sensor) (Some sensor) = false /\
  exists v, predicate_holds packet.(ep_projection) a b n predicate v.
Proof.
  intros Hp. unfold predicate_matches. cbn [export_fields pf_timestamp packet_instant mbind res_bind
    pf_source_ip pf_destination_ip pf_source_port pf_destination_port pf_protocol pf_direction
    pf_has_payload pf_payload_hash default].
  rewrite (sp_source _ _ _ _ _ Hp), (sp_destination _ _ _ _ _ Hp), (sp_protocol _ _ _ _ _ Hp).
  cbn [py_str_opt default].
  repeat (match goal with |- context [if ?c then Ok false else _] => destruct c eqn:? end; [done|]).
  unfold matches_compiled_packet_groups. cbn [pf_source_ip pf_destination_ip pf_source_port
    pf_destination_port pf_protocol pf_direction]. 
  intros (port & Hport & H)%bind_Ok. apply service_port_cases in Hport.
  apply bind_Ok in H as (inc & Hinc & H). apply bind_Ok in H as (exc & Hexc & H).
  injection H as [-> ->%negb_true_iff]%andb_prop. split; [done|].
  match type of Hexc with any_res (_matches_filter ?v) _ = _ => exists v end. split; try done.
  - split; simpl; rewrite ?(sp_source _ _ _ _ _ Hp), ?(sp_destination _ _ _ _ _ Hp); try done.
  - case_bool_decide as Hl; [left; by apply nil_length_inv|right]. by apply any_res_true.
  - by apply any_res_false.
Qed.

(** ** The outcome of a query *)

Lemma collect_pending_error g cs m b pending e :
  collect_pending g cs m b pending = Err e -> e = QueryLimitExceeded.
Proof.
  revert m b pending. induction cs as [|c cs IH]; intros m b pending; cbn [collect_pending]; [done|].
  rewrite !bind_Err, raise_if_Err. intros [[_ ->]|(? & _ & H)]; [done|].
  rewrite bind_Err, raise_if_Err in H. destruct H as [[_ ->]|(? & _ & H)]; [done|by eapply IH].
Qed.

Lemma directory_error g limits e :
  _query_generation_directory g limits = Err e -> e = QueryLimitExceeded.
Proof.
  unfold _query_generation_directory. rewrite bind_Err, raise_if_Err.
  intros [[_ ->]|(? & _ & H)]; [done|]. rewrite bind_Err in H.
  destruct H as [?%collect_pending_error|([[? ?] ?] & _ & H)]; [done|].
  rewrite bind_Err, raise_if_Err in H. destruct H as [[_ ->]|(? & _ & H)]; [done|].
  rewrite bind_Err, raise_if_Err in H. by destruct H as [[_ ->]|(? & _ & H)].
Qed.

Lemma select_within_cases terms_order g predicate limits mems :
  (forall terms, terms_order terms ≡ₚ elements terms) -> represents g mems ->
  match select_within terms_order g predicate limits with
  | Ok None => True
  | Ok (Some os) => exists directory s,
      run_selection limits g directory terms_order predicate (mk_query 0 0 ∅) = Ok (os, s) /\
      query_inv limits mems (mk_query 0 0 ∅) /\ query_inv limits mems s /\
      selection_ok limits mems os /\
      _query_generation_directory g limits = Ok directory
  | Err _ => False
  end.
Proof.
  intros Horder Hrep. unfold select_within. destruct (existsb _ _) eqn:Hneg; [done|].
  destruct (_ || _) eqn:Hlim; [done|].
  destruct (_query_generation_directory g limits) as [directory|e] eqn:Hdir; cbn [mbind res_bind].
  2:{ by apply directory_error in Hdir as ->. }
  destruct (query_directory_Ok g limits directory Hdir) as [Hl Hd].
  pose proof (sound_run_selection limits g directory terms_order mems Hl Hd Hrep Horder predicate
    (mk_query 0 0 ∅)) as Hrun.
  assert (query_inv limits mems (mk_query 0 0 ∅)) as Hinv0.
  { simpl in Hneg. rewrite !orb_false_r in Hneg. reflect_bools. split; simpl; [done|lia|lia]. }
  destruct (run_selection _ _ _ _ _ _) as [[os s]|e] eqn:Erun.
  - destruct (Hrun Hinv0) as [Hinv Hos]. by exists directory, s.
  - by rewrite (Hrun Hinv0).
Qed.

(** The limits a call runs under, unless it returns before. *)
Definition effective_limits (max_query_work : option Z) (limits : option PostingQueryLimits)
    : PostingQueryLimits :=
  match max_query_work with
  | Some work => mk_query_limits work 100000 100000 100000 100000
  | None => default default_query_limits limits
  end.

Lemma select_cases terms_order g predicate sensor work limits :
  let r := select_posting_candidates terms_order g predicate (Some sensor) work limits in
  (r = Ok (Some []) /\ exists requested, predicate.(cp_sensor) = Some requested /\ requested <> sensor) \/
  r = Ok None \/ (r = Err (ValueError "provide either limits or max_query_work, not both") /\
    is_Some work /\ is_Some limits) \/
  r = select_within terms_order g predicate (effective_limits work limits).
Proof.
  cbv zeta. unfold select_posting_candidates.
  destruct (cp_sensor predicate) as [requested|] eqn:Hs.
  - destruct (decide (requested = sensor)) as [->|Hne].
    + rewrite bool_decide_true by done. cbn [negb].
      destruct limits as [l|], work as [w|]; simpl; try naive_solver.
      destruct (Z.leb_spec w 0); [naive_solver|]. unfold PostingQueryLimits_post_init.
      case_match eqn:E; [|naive_solver]. exfalso. revert E. unfold min_limit; simpl. lia.
    + rewrite bool_decide_false by done. left. split; [done|]. by exists requested.
  - destruct limits as [l|], work as [w|]; simpl; try naive_solver.
    destruct (Z.leb_spec w 0); [naive_solver|]. unfold PostingQueryLimits_post_init.
    case_match eqn:E; [|naive_solver]. exfalso. revert E. unfold min_limit; simpl. lia.
Qed.

(** A supported packet of a decoded capture has a well-formed projection. *)
Lemma captured_projection content source_id source_order networks ifs entries packets k packet :
  same_capture content source_id source_order networks ifs entries packets ->
  packets !! k = Some packet -> packet.(ep_projection).(pp_supported) = true ->
  exists a b n, supported_projection networks packet.(ep_projection) a b n.
Proof.
  intros (_ & _ & Hdec) Hk Hsup.
  destruct (Forall2_lookup_r _ _ _ _ _ Hdec Hk) as (entry & _ & i & _ & _ & _ & _ & _ & Hproj & _).
  destruct (project_wf (packet_bytes content entry) (sie_link_type i) networks) as (q & Hq & Hwf).
  rewrite Hproj in Hq. injection Hq as <-. destruct Hwf as [E|(_ & ?)]; [|done].
  by rewrite E in Hsup.
Qed.

Lemma supported_ordinal packets mems o :
  Forall2 packet_memberships packets mems -> o ∈ posting mems (SUPPORTED, []) ->
  exists k packet, o = Z.of_nat k /\ packets !! k = Some packet /\
    packet.(ep_projection).(pp_supported) = true.
Proof.
  intros Hmems. unfold posting. rewrite elem_of_list_to_set, elem_of_ordinals_for.
  intros (Ho & m & Hm & Hin).
  destruct (Forall2_lookup_r _ _ _ _ _ Hmems Hm) as (packet & Hk & item & Hitem & ->).
  exists (Z.to_nat o), packet. split_and!; [lia|done|].
  assert (item.(pr_supported) = packet.(ep_projection).(pp_supported)) as <-.
  { unfold _projection in Hitem. repeat apply bind_Ok in Hitem as (? & _ & Hitem).
    by injection Hitem as <-. }
  unfold _projection_memberships in Hin. destruct (pr_supported item); [done|]. simpl in Hin.
  apply list_elem_of_singleton in Hin. done.
Qed.

(** A query that returns keeps the ordinal of a packet on which the predicate
    holds. *)
Lemma select_keeps terms_order g predicate limits mems directory networks k packet m a b n v os s :
  (forall terms, terms_order terms ≡ₚ elements terms) -> represents g mems ->
  _query_generation_directory g limits = Ok directory ->
  Forall (fun nf => Forall condition_ok (group_items nf)) predicate.(cp_include_filters) ->
  Forall (fun nf => Forall condition_ok (group_items nf)) predicate.(cp_exclude_filters) ->
  supported_projection networks packet.(ep_projection) a b n ->
  packet.(ep_projection).(pp_supported) = true ->
  packet_memberships packet m -> mems !! k = Some m ->
  predicate_holds packet.(ep_projection) a b n predicate v ->
  run_selection limits g directory terms_order predicate (mk_query 0 0 ∅) = Ok (os, s) ->
  query_inv limits mems (mk_query 0 0 ∅) ->
  Z.of_nat k ∈ os.
Proof.
  intros Horder Hrep Hdir Hinc Hexc Hp Hsup Hpm Hmk Hv Hrun Hinv.
  destruct (query_directory_Ok g limits directory Hdir) as [Hl Hd].
  pose proof (run_selection_keeps limits g directory terms_order mems Hl Hd Hrep Horder networks
    (Z.of_nat k) _ a b n Hp (packet_posted networks mems k packet m a b n Hp Hsup Hpm Hmk)
    predicate v Hv Hinc Hexc (mk_query 0 0 ∅) Hinv) as Hkeep.
  rewrite Hrun in Hkeep. by destruct Hkeep.
Qed.

(** The query on the postings of one capture loses no match. *)
Lemma select_superset (sha256_hex : bytes -> string) (fromisoformat : string -> res Z)
    (terms_order : gset bytes -> list bytes) content source_id source_order networks interfaces entries packets
    limits binding g filters internal_networks predicate sensor work query_limits ordinals :
  (forall terms, terms_order terms ≡ₚ elements terms) ->
  same_capture content source_id source_order networks interfaces entries packets -> build_limits_ok limits ->
  build_packet_postings sha256_hex (packets, Ok tt) entries interfaces limits binding = Ok g ->
  compile_packet_predicate fromisoformat filters internal_networks = Ok predicate ->
  select_posting_candidates terms_order g predicate (Some sensor) work query_limits = Ok (Some ordinals) ->
  StronglySorted Z.lt ordinals /\
  (forall o, o ∈ ordinals -> exists k packet, o = Z.of_nat k /\ packets !! k = Some packet /\
     packet.(ep_projection).(pp_supported) = true) /\
  (forall k packet, packets !! k = Some packet ->
     packet.(ep_projection).(pp_supported) = true ->
     predicate_matches fromisoformat predicate (export_fields packet) sensor = Ok true ->
     Z.of_nat k ∈ ordinals).
Proof.
  intros Horder Hsame Hbl Hbuild Hcompile Hselect.
  destruct (build_values _ _ _ _ _ _ _ Hbl Hbuild) as (Hcount & mems & Hmems & Hrep).
  destruct (compile_predicate_ok _ _ _ _ Hcompile) as (Hinc & Hexc & Hsensor).
  cbn [fst] in *.
  destruct (select_cases terms_order g predicate sensor work query_limits)
    as [[H (requested & Hreq & Hne)]|[H|[[H _]|H]]]; rewrite Hselect in H; try done.
  - injection H as ->. split_and!; [constructor|by intros ? ?%not_elem_of_nil|].
    intros k packet Hk Hsup Hm.
    destruct (captured_projection _ _ _ _ _ _ _ _ _ Hsame Hk Hsup) as (a & b & n & Hp).
    destruct (matches_holds _ _ _ _ _ _ _ _ Hp Hm) as [Hd _]. exfalso. revert Hd.
    rewrite Hreq. simpl. rewrite !bool_decide_false by congruence. done.
  - pose proof (select_within_cases terms_order g predicate (effective_limits work query_limits)
      mems Horder Hrep) as Hc. rewrite <- H in Hc.
    destruct Hc as (directory & s & Hrun & Hinv & _ & (Hsort & _ & Hin) & Hdir).
    split_and!; [done| |].
    + intros o Ho%Hin. by apply (supported_ordinal packets mems).
    + intros k packet Hk Hsup Hm.
      destruct (captured_projection _ _ _ _ _ _ _ _ _ Hsame Hk Hsup) as (a & b & n & Hp).
      destruct (matches_holds _ _ _ _ _ _ _ _ Hp Hm) as [_ [v Hv]].
      destruct (Forall2_lookup_l _ _ _ _ _ Hmems Hk) as (m & Hmk & Hpm).
      by eapply select_keeps.
Qed.

(** ** Properties *)

(** C10: [select_posting_candidates] keeps the contract its caller relies on
    ("bounded safe superset"): on the postings built from a capture's own index
    and packets, when a query with a compiled predicate returns ordinals, they
    are strictly increasing and each names a supported packet, and every
    supported packet the predicate matches is among them.  A query never loses a
    match, whatever the order in which Python iterates the set of address
    terms. *)
Theorem select_posting_candidates_superset (sha256_hex : bytes -> string)
    (fromisoformat : string -> res Z) (terms_order : gset bytes -> list bytes) (R1 R2 : Type)
    (reads1 : CaptureReader R1) (lawful1 : LawfulReader R1)
    (reads2 : CaptureReader R2) (lawful2 : LawfulReader R2) (fuel : nat) (r1 : R1) (r2 : R2)
    (lim : ScanLimits) (batches : list (list StructuralPacketEntry)) (out : StructuralScanResult)
    (source_id : string) (source_order : Z) (values : list string) (packets : list ExportPacket)
    (limits : PostingBuildLimits) (binding : bytes) (g : PostingGeneration)
    (filters : PacketFilters) (internal_networks : list string)
    (predicate : CompiledPacketPredicate) (sensor : string) (work : option Z)
    (query_limits : option PostingQueryLimits) (ordinals : list Z) :
  (forall terms, terms_order terms ≡ₚ elements terms) ->
  limits_ok lim -> zlen (reader_content r1) <= _MAX_I64 ->
  zlen (reader_content r1) < Z.of_nat fuel -> reader_content r1 = reader_content r2 ->
  scan_structural_packet_index sha256_hex fuel r1 lim = (batches, Ok out) ->
  export_packets fuel r2 source_id source_order values = (packets, Ok tt) ->
  build_limits_ok limits ->
  build_packet_postings sha256_hex (packets, Ok tt) (concat batches ++ out.(ssr_packets))
    out.(ssr_interfaces) limits binding = Ok g ->
  compile_packet_predicate fromisoformat filters internal_networks = Ok predicate ->
  select_posting_candidates terms_order g predicate (Some sensor) work query_limits =
    Ok (Some ordinals) ->
  StronglySorted Z.lt ordinals /\
  (forall o, o ∈ ordinals -> exists k packet, o = Z.of_nat k /\ packets !! k = Some packet /\
     packet.(ep_projection).(pp_supported) = true) /\
  (forall k packet, packets !! k = Some packet ->
     packet.(ep_projection).(pp_supported) = true ->
     predicate_matches fromisoformat predicate (export_fields packet) sensor = Ok true ->
     Z.of_nat k ∈ ordinals).
Proof.
  intros Horder Hlim Hmax Hfuel Heq Hscan Hexport Hbl Hbuild Hcompile Hselect.
  destruct (scan_export_same_capture sha256_hex R1 R2 _ _ _ _ fuel r1 r2 lim batches out source_id
    source_order values packets) as (networks & Hsame & _); try done.
  by eapply select_superset.
Qed.

(** A request for UDP packets that have the network 10.0.0.0/8 at one end, none
    of them with port 443 as source. *)
Definition sample_filters : PacketFilters := {|
  flt_fields := {["protocol"%string := PStr "udp"]};
  flt_include_filters := [{["candidate_ip"%string := PStr "10.0.0.0/8"]}];
  flt_exclude_filters := [{["source_port"%string := PInt 443]}];
|}.

Definition sample_fromisoformat (s : string) : res Z := Err (ValueError s).

(** The postings of the sample capture and the compiled request. *)
Definition sample_generation : res PostingGeneration :=
  build_packet_postings sample_hash (sample_decoded sample_pcap)
    (sample_structural sample_pcap).1 (sample_structural sample_pcap).2 default_build_limits [].
Definition sample_predicate : res CompiledPacketPredicate :=
  compile_packet_predicate sample_fromisoformat sample_filters ["10.0.0.0/8"%string].

Lemma select_posting_candidates_superset_witness :
  exists packets g predicate ordinals,
    export_packets 400 {| bio_data := sample_pcap |} "s" 0 ["10.0.0.0/8"%string] =
      (packets, Ok tt) /\
    sample_generation = Ok g /\ sample_predicate = Ok predicate /\
    select_posting_candidates elements g predicate (Some "sensor"%string) None None =
      Ok (Some ordinals) /\
    (forall k packet, packets !! k = Some packet ->
       packet.(ep_projection).(pp_supported) = true ->
       predicate_matches sample_fromisoformat predicate (export_fields packet) "sensor" = Ok true ->
       Z.of_nat k ∈ ordinals).
Proof.
  destruct (scan_structural_packet_index sample_hash 400 {| bio_data := sample_pcap |}
      (sample_limits 5 false)) as [batches [out|e]] eqn:E1; [|vm_compute in E1; discriminate].
  destruct (sample_decoded sample_pcap) as [packets [[]|e]] eqn:E2; [|vm_compute in E2; discriminate].
  destruct sample_generation as [g|e] eqn:E3; [|vm_compute in E3; discriminate].
  destruct sample_predicate as [predicate|e] eqn:E4; [|vm_compute in E4; discriminate].
  destruct (select_posting_candidates elements g predicate (Some "sensor"%string) None None)
    as [[ordinals|]|e] eqn:E5.
  2,3: vm_compute in E3, E4; injection E3 as <-; injection E4 as <-; vm_compute in E5; discriminate.
  exists packets, g, predicate, ordinals. split_and!; [exact E2|done|done|exact E5|].
  eapply (select_posting_candidates_superset sample_hash sample_fromisoformat elements BytesIO BytesIO
    bytesio_reader bytesio_lawful bytesio_reader bytesio_lawful 400 {| bio_data := sample_pcap |}
    {| bio_data := sample_pcap |} (sample_limits 5 false) batches out "s" 0 ["10.0.0.0/8"%string]
    packets default_build_limits [] g sample_filters ["10.0.0.0/8"%string] predicate "sensor" None None
    ordinals).
  - done.
  - repeat split; vm_compute; congruence.
  - vm_compute. congruence.
  - vm_compute. reflexivity.
  - done.
  - exact E1.
  - exact E2.
  - repeat split; vm_compute; reflexivity.
  - rewrite <- E3. unfold sample_generation. rewrite E2. unfold sample_structural. rewrite E1.
    vm_compute in E1. injection E1 as <- <-. done.
  - exact E4.
  - exact E5.
Defined.

(** C11: a query on built postings stays within its budget and its errors: it
    returns [None], or ordinals, and it raises only when called with both [limits]
    and [max_query_work].  Ordinals, even none at all, are either the answer to a
    predicate for another sensor, which is empty and costs nothing, or the result
    of a run over the postings; then there are no more than [max_result_ordinals]
    of them, and the operations and decoded memberships the run counted are within
    the limits. *)
Theorem select_posting_candidates_bounded (sha256_hex : bytes -> string)
    (terms_order : gset bytes -> list bytes) (decoded : list ExportPacket * res unit)
    (structural : list StructuralPacketEntry) (interfaces : list StructuralInterfaceEntry)
    (limits : PostingBuildLimits) (binding : bytes) (g : PostingGeneration)
    (predicate : CompiledPacketPredicate) (sensor : string) (work : option Z)
    (query_limits : option PostingQueryLimits) :
  (forall terms, terms_order terms ≡ₚ elements terms) -> build_limits_ok limits ->
  build_packet_postings sha256_hex decoded structural interfaces limits binding = Ok g ->
  match select_posting_candidates terms_order g predicate (Some sensor) work query_limits with
  | Ok None => True
  | Ok (Some ordinals) =>
      (ordinals = [] /\ exists requested, predicate.(cp_sensor) = Some requested /\ requested <> sensor) \/
      let l := effective_limits work query_limits in
      zlen ordinals <= l.(pql_max_result_ordinals) /\
      exists directory s,
        _query_generation_directory g l = Ok directory /\
        run_selection l g directory terms_order predicate (mk_query 0 0 ∅) = Ok (ordinals, s) /\
        0 <= s.(q_operations) <= l.(pql_max_operations) /\
        0 <= s.(q_decoded_memberships) <= l.(pql_max_decoded_memberships)
  | Err e => e = ValueError "provide either limits or max_query_work, not both" /\
      is_Some work /\ is_Some query_limits
  end.
Proof.
  intros Horder Hbl Hbuild.
  destruct (build_values _ _ _ _ _ _ _ Hbl Hbuild) as (_ & mems & _ & Hrep).
  destruct (select_cases terms_order g predicate sensor work query_limits)
    as [[Hr Hsensor]|[Hr|[[Hr ?]|Hr]]]; rewrite Hr; [by left|done|done|].
  pose proof (select_within_cases terms_order g predicate (effective_limits work query_limits)
    mems Horder Hrep) as H.
  destruct (select_within _ _ _ _) as [[os|]|e]; [|done|done].
  destruct H as (directory & s & Hrun & _ & [_ Ho Hd] & (_ & Hlen & _) & Hdir). right.
  split; [done|]. by exists directory, s.
Qed.

Lemma select_posting_candidates_bounded_witness :
  exists g, sample_generation = Ok g /\
    forall predicate, sample_predicate = Ok predicate ->
    match select_posting_candidates elements g predicate (Some "x"%string) (Some 5) None with
    | Ok _ => True
    | Err _ => False
    end.
Proof.
  destruct sample_generation as [g|e] eqn:E3; [|vm_compute in E3; discriminate].
  exists g. split; [done|]. intros predicate _.
  pose proof (select_posting_candidates_bounded sample_hash elements (sample_decoded sample_pcap)
    (sample_structural sample_pcap).1 (sample_structural sample_pcap).2 default_build_limits [] g
    predicate "x" (Some 5) None ltac:(done) ltac:(repeat split; vm_compute; reflexivity) E3) as H.
  destruct (select_posting_candidates _ _ _ _ _ _) as [o|e]; [done|].
  destruct H as (_ & _ & [? H]). discriminate H.
Defined.
