(* ===== verification/CapturePrefix.v ===== *)
(** * CapturePrefix

    pcap.py: [bounded_pcap_prefix], the longest prefix of whole records of an
    in-memory capture within a byte and a packet limit, and [_pcapng_endian]. *)

From S2P Require Import Prelude Bytes CaptureFormat.
#[local] Open Scope Z_scope.

Record PcapBytePrefix : Type := mk_prefix {
  pbp_content : bytes;
  pbp_scanned_bytes : Z;
  pbp_packet_count : Z;
  pbp_byte_limited : bool;
  pbp_packet_limited : bool;
}.

#[global] Instance PcapBytePrefix_eq_dec : EqDecision PcapBytePrefix.
Proof. solve_decision. Defined.

(** The [truncated] property. *)
Definition prefix_truncated (p : PcapBytePrefix) : bool :=
  p.(pbp_byte_limited) || p.(pbp_packet_limited).

Definition _pcapng_endian (content : bytes) (offset : Z) : res endian :=
  if zlen content - offset <? 12 then Err (parse_error "PCAPNG section header is truncated")
  else match section_endian (slice (offset + 8) (offset + 12) content) with
       | Some e => Ok e
       | None => Err (parse_error "PCAPNG section has an invalid byte-order magic")
       end.

(** [block_type in {2, 6}] *)
Definition is_packet_block (block_type : Z) : bool := (block_type =? 2) || (block_type =? 6).

Section prefix.
Context (content : bytes) (max_bytes : Z) (max_packets : option Z).

(** [source_exceeds_limit] *)
Definition source_exceeds_limit : bool := max_bytes <? zlen content.

(** [max_packets is not None and packet_count >= max_packets] *)
Definition packets_exhausted (packet_count : Z) : bool :=
  match max_packets with Some m => m <=? packet_count | None => false end.

(** The result after either loop: everything before [offset]. *)
Definition prefix_until (offset packet_count : Z) (byte_limited packet_limited : bool)
    : PcapBytePrefix :=
  let scanned_bytes := Z.min offset (zlen content) in
  mk_prefix (ztake scanned_bytes content) scanned_bytes packet_count byte_limited packet_limited.

Fixpoint classic_prefix_loop (fuel : nat) (e : endian) (offset packet_count : Z)
    : res PcapBytePrefix :=
  match fuel with
  | O => Err OutOfFuel
  | S fuel' =>
      if offset <? zlen content then
        if source_exceeds_limit && (max_bytes - offset <? 16) then
          Ok (prefix_until offset packet_count true false)
        else if packets_exhausted packet_count then
          Ok (prefix_until offset packet_count false true)
        else
          _ ← raise_if (zlen content - offset <? 16)
                (parse_error "classic PCAP packet header is truncated");
          let captured_length := u32 e content (offset + 8) in
          let packet_end := offset + 16 + captured_length in
          if source_exceeds_limit && (max_bytes <? packet_end) then
            Ok (prefix_until offset packet_count true false)
          else
            _ ← raise_if ((MAX_CAPTURED_PACKET_BYTES <? captured_length)
                          || (zlen content <? packet_end))
                  (parse_error "classic PCAP packet data is truncated or oversized");
            classic_prefix_loop fuel' e packet_end (packet_count + 1)
      else Ok (prefix_until offset packet_count false false)
  end.

Fixpoint ng_prefix_loop (fuel : nat) (e : endian) (offset packet_count : Z)
    : res PcapBytePrefix :=
  match fuel with
  | O => Err OutOfFuel
  | S fuel' =>
      if offset <? zlen content then
        if source_exceeds_limit && (max_bytes - offset <? 12) then
          Ok (prefix_until offset packet_count true false)
        else
          _ ← raise_if (zlen content - offset <? 12)
                (parse_error "PCAPNG block header is truncated");
          let is_section := bool_decide (slice offset (offset + 4) content = PCAPNG_SECTION) in
          e ← (if is_section then _pcapng_endian content offset else Ok e);
          let block_type := u32 e content offset in
          let block_length := u32 e content (offset + 4) in
          let is_packet := is_packet_block block_type in
          if is_packet && packets_exhausted packet_count then
            Ok (prefix_until offset packet_count false true)
          else
            _ ← raise_if ((block_length <? 12) || negb (block_length mod 4 =? 0))
                  (parse_error "PCAPNG block length is invalid");
            let block_end := offset + block_length in
            if source_exceeds_limit && (max_bytes <? block_end) then
              Ok (prefix_until offset packet_count true false)
            else
              _ ← raise_if (zlen content <? block_end)
                    (parse_error "PCAPNG block length is invalid");
              _ ← raise_if (negb (u32 e content (block_end - 4) =? block_length))
                    (parse_error "PCAPNG block length trailer does not match");
              ng_prefix_loop fuel' e block_end
                (if is_packet then packet_count + 1 else packet_count)
      else Ok (prefix_until offset packet_count false false)
  end.

(** Every iteration consumes at least twelve bytes of the capture. *)
Definition bounded_pcap_prefix : res PcapBytePrefix :=
  _ ← raise_if (max_bytes <? 1) (ValueError "max_bytes must be positive");
  _ ← raise_if (match max_packets with Some m => m <? 1 | None => false end)
        (ValueError "max_packets must be positive");
  let fuel := S (length content) in
  match CLASSIC_MAGIC (ztake 4 content) with
  | Some (e, _) =>
      _ ← raise_if (zlen content <? 24) (parse_error "classic PCAP global header is truncated");
      if max_bytes <? 24 then Ok (mk_prefix [] 0 0 true false)
      else classic_prefix_loop fuel e 24 0
  | None =>
      if bool_decide (ztake 4 content = PCAPNG_SECTION) then ng_prefix_loop fuel LE 0 0
      else Err (parse_error "file is not a classic PCAP or PCAPNG capture")
  end.

(** ** One iteration of a loop that returns *)

Lemma classic_prefix_inv fuel e offset n p :
  classic_prefix_loop (S fuel) e offset n = Ok p ->
  if offset <? zlen content then
    if source_exceeds_limit && (max_bytes - offset <? 16) then p = prefix_until offset n true false
    else if packets_exhausted n then p = prefix_until offset n false true
    else
      let packet_end := offset + 16 + u32 e content (offset + 8) in
      16 <= zlen content - offset /\
      if source_exceeds_limit && (max_bytes <? packet_end) then p = prefix_until offset n true false
      else packet_end <= zlen content /\ classic_prefix_loop fuel e packet_end (n + 1) = Ok p
  else p = prefix_until offset n false false.
Proof.
  simpl. intros H. destruct (offset <? zlen content); [|naive_solver].
  destruct (source_exceeds_limit && _); [naive_solver|].
  destruct (packets_exhausted n); [naive_solver|].
  apply bind_Ok in H as (u & H16%raise_if_Ok & H). split; [lia|].
  destruct (source_exceeds_limit && _); [naive_solver|]. inv_bind. reflect_bools.
  split; [lia|done].
Qed.

Lemma ng_prefix_inv fuel e offset n p :
  ng_prefix_loop (S fuel) e offset n = Ok p ->
  if offset <? zlen content then
    if source_exceeds_limit && (max_bytes - offset <? 12) then p = prefix_until offset n true false
    else
      12 <= zlen content - offset /\
      exists e',
        (if bool_decide (slice offset (offset + 4) content = PCAPNG_SECTION)
         then section_endian (slice (offset + 8) (offset + 12) content) = Some e' else e' = e) /\
        let is_packet := is_packet_block (u32 e' content offset) in
        let block_length := u32 e' content (offset + 4) in
        if is_packet && packets_exhausted n then p = prefix_until offset n false true
        else
          (block_length <? 12) || negb (block_length mod 4 =? 0) = false /\
          if source_exceeds_limit && (max_bytes <? offset + block_length)
          then p = prefix_until offset n true false
          else offset + block_length <= zlen content /\
            ng_prefix_loop fuel e' (offset + block_length) (n + Z.b2z is_packet) = Ok p
  else p = prefix_until offset n false false.
Proof.
  simpl. intros H. destruct (offset <? zlen content); [|naive_solver].
  destruct (source_exceeds_limit && _); [naive_solver|].
  apply bind_Ok in H as (u & H12%raise_if_Ok & H). split; [lia|].
  apply bind_Ok in H as (e' & He & H). exists e'. split.
  { clear H. case_bool_decide; [|by injection He]. unfold _pcapng_endian in He. rewrite H12 in He.
    destruct (section_endian _); by simplify_eq. }
  cbv zeta. destruct (is_packet_block _ && _); [naive_solver|].
  apply bind_Ok in H as (u' & Hl%raise_if_Ok & H). split; [done|].
  destruct (source_exceeds_limit && _); [naive_solver|]. inv_bind. split; [reflect_bools; lia|].
  unfold Z.b2z. destruct (is_packet_block _); [done|]. by rewrite Z.add_0_r.
Qed.
End prefix.
