(* ===== verification/BoundedCapture.v ===== *)
(** * BoundedCapture

    pcap_stream.py: [BoundedVerifiedCapture], the one-pass reader that admits
    whole records of a stored capture up to a byte and a packet limit, hashes
    everything it reads, and commits its counts only after the drained source
    matches its descriptor.  The stage timings ([stage_seconds]) are not
    modelled. *)

From Stdlib Require Import String Ascii.
From S2P Require Import Prelude Bytes CaptureFormat IpAddress PostingModel FlowFilter StructuralIndex CapturePrefix.
#[local] Open Scope Z_scope.

(** ** Capture sources *)

(** [read] returns bytes or raises, [close] may raise; an exception is its
    text. *)
Class CaptureSource (S : Type) : Type := {
  source_read : Z -> S -> (string + bytes) * S;
  source_close : S -> option string * S;
  source_version_id : S -> string;
}.

(** What an open stream promises for a positive size: the next bytes, at most
    [size] of them, and nothing only at the end. *)
Class LawfulSource (S : Type) `{!CaptureSource S} : Type := {
  source_content : S -> bytes;
  source_read_next n s p s' :
    0 < n -> source_read n s = (inr p, s') ->
    source_content s = p ++ source_content s' /\ zlen p <= n;
  source_read_eof n s s' :
    0 < n -> source_read n s = (inr [], s') -> source_content s = [];
}.

(** ** State *)

(** The arguments of the constructor that never change. *)
Record CaptureBounds : Type := mk_bounds {
  cb_expected_size : Z;
  cb_expected_sha256 : string;
  cb_max_bytes : Z;
  cb_max_packets : Z;
}.

Record SourceScanResult : Type := {
  srr_admitted_bytes : Z;
  srr_admitted_packets : Z;
  srr_byte_limited : bool;
  srr_packet_limited : bool;
  srr_actual_size : Z;
  srr_actual_sha256 : string;
  srr_verified_version_id : string;
}.

(** What the framing automaton changes. *)
Record FrameState : Type := mk_frame {
  fs_admitted_bytes : Z;
  fs_admitted_packets : Z;
  fs_byte_limited : bool;
  fs_packet_limited : bool;
  fs_pending : bytes;
  fs_unit_remaining : Z;
  fs_unit_is_packet : bool;
  fs_format : option capture_format;
  fs_endian : endian;
  fs_stopped : bool;
  fs_lookahead : bytes;
}.

(** The object: the source, what was fed to [hashlib.sha256], and the framing. *)
Record BoundedState (S : Type) : Type := mk_bstate {
  bs_source : S;
  bs_hash : bytes;
  bs_actual_size : Z;
  bs_frame : FrameState;
  bs_closed : bool;
  bs_read_failure : option exn;
  bs_verified : option SourceScanResult;
}.
Arguments mk_bstate {S} _ _ _ _ _ _ _.
Arguments bs_source {S} _.
Arguments bs_hash {S} _.
Arguments bs_actual_size {S} _.
Arguments bs_frame {S} _.
Arguments bs_closed {S} _.
Arguments bs_read_failure {S} _.
Arguments bs_verified {S} _.

(** ** The monad of the object's methods: an exception keeps the state *)

Definition method (S A : Type) : Type := BoundedState S -> res A * BoundedState S.
#[global] Instance method_ret {S} : MRet (method S) := fun A a st => (Ok a, st).
#[global] Instance method_bind {S} : MBind (method S) := fun A B f m st =>
  match m st with
  | (Ok a, st') => f a st'
  | (Err e, st') => (Err e, st')
  end.

Definition raise {S A} (e : exn) : method S A := fun st => (Err e, st).
Definition get_frame {S} : method S FrameState := fun st => (Ok st.(bs_frame), st).
Definition set_frame {S} (f : FrameState) : method S unit := fun st =>
  (Ok tt, mk_bstate st.(bs_source) st.(bs_hash) st.(bs_actual_size) f st.(bs_closed)
            st.(bs_read_failure) st.(bs_verified)).

(** Updates of single framing fields. *)
Definition with_stopped (f : FrameState) : FrameState :=
  mk_frame f.(fs_admitted_bytes) f.(fs_admitted_packets) f.(fs_byte_limited) f.(fs_packet_limited)
    f.(fs_pending) f.(fs_unit_remaining) f.(fs_unit_is_packet) f.(fs_format) f.(fs_endian) true
    f.(fs_lookahead).
Definition with_byte_limited (b : bool) (f : FrameState) : FrameState :=
  mk_frame f.(fs_admitted_bytes) f.(fs_admitted_packets) b f.(fs_packet_limited)
    f.(fs_pending) f.(fs_unit_remaining) f.(fs_unit_is_packet) f.(fs_format) f.(fs_endian)
    f.(fs_stopped) f.(fs_lookahead).
Definition with_packet_limited (f : FrameState) : FrameState :=
  mk_frame f.(fs_admitted_bytes) f.(fs_admitted_packets) f.(fs_byte_limited) true
    f.(fs_pending) f.(fs_unit_remaining) f.(fs_unit_is_packet) f.(fs_format) f.(fs_endian)
    f.(fs_stopped) f.(fs_lookahead).
Definition with_pending (p : bytes) (f : FrameState) : FrameState :=
  mk_frame f.(fs_admitted_bytes) f.(fs_admitted_packets) f.(fs_byte_limited) f.(fs_packet_limited)
    p f.(fs_unit_remaining) f.(fs_unit_is_packet) f.(fs_format) f.(fs_endian)
    f.(fs_stopped) f.(fs_lookahead).
Definition with_unit (remaining : Z) (is_packet : bool) (f : FrameState) : FrameState :=
  mk_frame f.(fs_admitted_bytes) f.(fs_admitted_packets) f.(fs_byte_limited) f.(fs_packet_limited)
    f.(fs_pending) remaining is_packet f.(fs_format) f.(fs_endian)
    f.(fs_stopped) f.(fs_lookahead).
Definition with_format (fmt : capture_format) (e : endian) (f : FrameState) : FrameState :=
  mk_frame f.(fs_admitted_bytes) f.(fs_admitted_packets) f.(fs_byte_limited) f.(fs_packet_limited)
    f.(fs_pending) f.(fs_unit_remaining) f.(fs_unit_is_packet) (Some fmt) e
    f.(fs_stopped) f.(fs_lookahead).
Definition with_lookahead (l : bytes) (f : FrameState) : FrameState :=
  mk_frame f.(fs_admitted_bytes) f.(fs_admitted_packets) f.(fs_byte_limited) f.(fs_packet_limited)
    f.(fs_pending) f.(fs_unit_remaining) f.(fs_unit_is_packet) f.(fs_format) f.(fs_endian)
    f.(fs_stopped) l.
Definition with_admitted (bytes packets : Z) (f : FrameState) : FrameState :=
  mk_frame bytes packets f.(fs_byte_limited) f.(fs_packet_limited)
    f.(fs_pending) f.(fs_unit_remaining) f.(fs_unit_is_packet) f.(fs_format) f.(fs_endian)
    f.(fs_stopped) f.(fs_lookahead).

Definition new_frame : FrameState := mk_frame 0 0 false false [] 0 false None LE false [].

(** ASCII white space, which is what [bytes.fromhex] skips. *)
Definition ascii_space (c : ascii) : bool :=
  let n := N_of_ascii c in ((9 <=? n) && (n <=? 13) || (n =? 32))%N.

(** [bytes.fromhex(text)] succeeds: two hexadecimal digits a byte, space between
    bytes. *)
Fixpoint fromhex_ok (l : list ascii) : bool :=
  match l with
  | [] => true
  | c :: l' =>
      if ascii_space c then fromhex_ok l'
      else match hex_value c, l' with
           | Some _, d :: l'' =>
               match hex_value d with Some _ => fromhex_ok l'' | None => false end
           | _, _ => false
           end
  end.

(** [str.lower] on ASCII text. *)
Definition ascii_lower (c : ascii) : ascii :=
  let n := Z.of_N (N_of_ascii c) in
  if (65 <=? n) && (n <=? 90) then ascii_of_N (Z.to_N (n + 32)) else c.
Definition str_lower (s : string) : string := str_map ascii_lower s.

Definition _DRAIN_CHUNK : Z := 64 * 1024.

Section bounded.
Context (sha256_hex : bytes -> string) {S : Type} `{!CaptureSource S}.
Context (bounds : CaptureBounds).

(** *** Physical reads *)

Definition read_failed (text : string) : exn :=
  CaptureIntegrityError ("capture source read failed: " +:+ text).

Definition _physical_read (size : Z) : method S bytes := fun st =>
  match source_read size st.(bs_source) with
  | (inl text, s') =>
      let failure := read_failed text in
      (Err failure,
       mk_bstate s' st.(bs_hash) st.(bs_actual_size) st.(bs_frame) st.(bs_closed)
         (Some failure) st.(bs_verified))
  | (inr chunk, s') =>
      (Ok chunk,
       mk_bstate s' (st.(bs_hash) ++ chunk) (st.(bs_actual_size) + zlen chunk) st.(bs_frame)
         st.(bs_closed) st.(bs_read_failure) st.(bs_verified))
  end.

Fixpoint read_up_to_loop (fuel : nat) (size : Z) (result : bytes) : method S bytes :=
  match fuel with
  | O => raise OutOfFuel
  | Datatypes.S fuel' =>
      if zlen result <? size then
        chunk ← _physical_read (size - zlen result);
        if bool_decide (chunk = []) then mret result
        else read_up_to_loop fuel' size (result ++ chunk)
      else mret result
  end.

(** Every chunk but the last adds a byte. *)
Definition _read_up_to (size : Z) : method S bytes :=
  read_up_to_loop (Z.to_nat size + 2) size [].

Definition _take_physical (size : Z) : method S bytes :=
  f ← get_frame;
  let take := Z.min size (zlen f.(fs_lookahead)) in
  let result := ztake take f.(fs_lookahead) in
  _ ← set_frame (with_lookahead (zdrop take f.(fs_lookahead)) f);
  let size := size - take in
  if size =? 0 then mret result
  else more ← _read_up_to size; mret (result ++ more).

(** *** Framing *)

(** [self._expected_size > self._max_bytes] *)
Definition oversized : bool := bounds.(cb_max_bytes) <? bounds.(cb_expected_size).

(** What [_prepare_initial] makes of the first bytes [prefix]. *)
Definition initial_unit (prefix : bytes) (f : FrameState) : FrameState :=
  let f := with_pending (f.(fs_pending) ++ prefix) f in
  let magic := ztake 4 prefix in
  if zlen prefix <? 4 then with_stopped f
  else
    match CLASSIC_MAGIC magic with
    | Some (e, _) =>
        let f := with_format PCAP e f in
        if zlen prefix <? 24 then with_stopped f else f
    | None =>
        if negb (bool_decide (magic = PCAPNG_SECTION)) then with_stopped f
        else
          let f := with_format PCAPNG f.(fs_endian) f in
          if zlen prefix <? 12 then with_stopped f
          else
            let e := if bool_decide (slice 8 12 prefix = [x4d; x3c; x2b; x1a]) then LE else BE in
            let f := with_format PCAPNG e f in
            let block_length := u32 e prefix 4 in
            if (block_length <? 12) || negb (block_length mod 4 =? 0) then with_stopped f
            else if (bounds.(cb_max_bytes) <? block_length) && oversized then
              with_stopped (with_byte_limited true (with_pending [] f))
            else if block_length <? zlen prefix then
              with_lookahead (zdrop block_length prefix)
                (with_pending (ztake block_length f.(fs_pending)) f)
            else
              with_unit (block_length - zlen prefix) f.(fs_unit_is_packet) (with_lookahead [] f)
    end.

Definition _prepare_initial : method S unit :=
  f ← get_frame;
  if bounds.(cb_max_bytes) <? 24 then
    set_frame (with_stopped (with_byte_limited (0 <? bounds.(cb_expected_size)) f))
  else
    prefix ← _read_up_to (if 24 <=? bounds.(cb_expected_size) then 24
                          else bounds.(cb_expected_size));
    f ← get_frame;
    set_frame (initial_unit prefix f).

(** What [_prepare_classic_record] makes of the record header [header]. *)
Definition classic_unit (remaining : Z) (header : bytes) (f : FrameState) : FrameState :=
  if zlen header =? 0 then with_stopped f
  else if zlen header <? 16 then with_stopped (with_pending (f.(fs_pending) ++ header) f)
  else
    let captured := u32 f.(fs_endian) header 8 in
    if (remaining <? 16 + captured) && oversized then with_stopped (with_byte_limited true f)
    else with_unit captured true (with_pending (f.(fs_pending) ++ header) f).

Definition _prepare_classic_record : method S unit :=
  f ← get_frame;
  let remaining := bounds.(cb_max_bytes) - f.(fs_admitted_bytes) in
  if bounds.(cb_expected_size) <=? f.(fs_admitted_bytes) then set_frame (with_stopped f)
  else if oversized && (remaining <? 16) then
    set_frame (with_stopped (with_byte_limited true f))
  else if bounds.(cb_max_packets) <=? f.(fs_admitted_packets) then
    set_frame (with_stopped (with_packet_limited f))
  else
    header ← _read_up_to 16;
    f ← get_frame;
    set_frame (classic_unit remaining header f).

(** What [_prepare_ng_block] makes of the block header [prefix]. *)
Definition ng_unit (remaining : Z) (is_section : bool) (prefix : bytes) (f : FrameState)
    : FrameState :=
  let e := if is_section then
             match section_endian (slice 8 12 prefix) with
             | Some e => e | None => f.(fs_endian) end
           else f.(fs_endian) in
  let f := with_format PCAPNG e f in
  let block_type := u32 e prefix 0 in
  let block_length := u32 e prefix 4 in
  if (block_length <? 12) || negb (block_length mod 4 =? 0) then
    with_stopped (with_pending (f.(fs_pending) ++ prefix) f)
  else if (remaining <? block_length) && oversized then with_stopped (with_byte_limited true f)
  else with_unit (block_length - 12) (is_packet_block block_type)
         (with_pending (f.(fs_pending) ++ prefix) f).

Definition _prepare_ng_block : method S unit :=
  f ← get_frame;
  let remaining := bounds.(cb_max_bytes) - f.(fs_admitted_bytes) in
  if bounds.(cb_expected_size) <=? f.(fs_admitted_bytes) then set_frame (with_stopped f)
  else if oversized && (remaining <? 12) then
    set_frame (with_stopped (with_byte_limited true f))
  else
    first ← _take_physical 4;
    f ← get_frame;
    if zlen first =? 0 then set_frame (with_stopped f)
    else if zlen first <? 4 then
      set_frame (with_stopped (with_pending (f.(fs_pending) ++ first) f))
    else
      let is_section := bool_decide (first = PCAPNG_SECTION) in
      if negb is_section && is_packet_block (u32 f.(fs_endian) first 0)
         && (bounds.(cb_max_packets) <=? f.(fs_admitted_packets)) then
        set_frame (with_stopped (with_packet_limited f))
      else
        rest ← _take_physical 8;
        f ← get_frame;
        let prefix := first ++ rest in
        if zlen rest <? 8 then
          set_frame (with_stopped (with_pending (f.(fs_pending) ++ prefix) f))
        else set_frame (ng_unit remaining is_section prefix f).

Definition _prepare : method S unit :=
  f ← get_frame;
  if f.(fs_stopped) || negb (zlen f.(fs_pending) =? 0) || negb (f.(fs_unit_remaining) =? 0)
  then mret tt
  else
    match f.(fs_format) with
    | None => _prepare_initial
    | Some PCAP => _prepare_classic_record
    | Some PCAPNG => _prepare_ng_block
    end.

Definition _complete_unit (f : FrameState) : FrameState :=
  with_unit f.(fs_unit_remaining) false
    (if f.(fs_unit_is_packet)
     then with_admitted f.(fs_admitted_bytes) (f.(fs_admitted_packets) + 1) f else f).

(** The bytes of [_pending] that are taken. *)
Definition take_pending (want : Z) (f : FrameState) : bytes * FrameState :=
  let take := Z.min want (zlen f.(fs_pending)) in
  let f' := with_admitted (f.(fs_admitted_bytes) + take) f.(fs_admitted_packets)
              (with_pending (zdrop take f.(fs_pending)) f) in
  (ztake take f.(fs_pending),
   if (zlen f'.(fs_pending) =? 0) && (f'.(fs_unit_remaining) =? 0) then _complete_unit f' else f').

(** After [chunk] was read of the [take] bytes asked of the unit. *)
Definition advance_unit (take : Z) (chunk : bytes) (f : FrameState) : FrameState :=
  let f := with_unit (f.(fs_unit_remaining) - zlen chunk) f.(fs_unit_is_packet)
             (with_admitted (f.(fs_admitted_bytes) + zlen chunk) f.(fs_admitted_packets) f) in
  if zlen chunk <? take then with_stopped (with_unit 0 false f)
  else if f.(fs_unit_remaining) =? 0 then _complete_unit f else f.

Fixpoint read_admitted_loop (fuel : nat) (target : Z) (result : bytes) : method S bytes :=
  match fuel with
  | O => raise OutOfFuel
  | Datatypes.S fuel' =>
      if zlen result <? target then
        _ ← _prepare;
        f ← get_frame;
        if negb (zlen f.(fs_pending) =? 0) then
          let '(part, f') := take_pending (target - zlen result) f in
          _ ← set_frame f';
          read_admitted_loop fuel' target (result ++ part)
        else if negb (f.(fs_unit_remaining) =? 0) then
          let take := Z.min (Z.min (target - zlen result) f.(fs_unit_remaining)) _DRAIN_CHUNK in
          chunk ← _take_physical take;
          f ← get_frame;
          _ ← set_frame (advance_unit take chunk f);
          read_admitted_loop fuel' target (result ++ chunk)
        else mret result
      else mret result
  end.

(** Every iteration but the last two adds a byte. *)
Definition _read_admitted (size : option Z) : method S bytes := fun st =>
  if st.(bs_closed) then (Err (ValueError "I/O operation on closed capture source"), st)
  else
    let target := match size with
                  | None => _DRAIN_CHUNK
                  | Some n => if n <? 0 then _DRAIN_CHUNK else n
                  end in
    if target =? 0 then (Ok [], st) else read_admitted_loop (Z.to_nat target + 3) target [] st.

(** *** Verification *)

Definition close : method S unit := fun st =>
  if st.(bs_closed) then (Ok tt, st)
  else
    let '(failure, s') := source_close st.(bs_source) in
    let st' := mk_bstate s' st.(bs_hash) st.(bs_actual_size) st.(bs_frame) true
                 st.(bs_read_failure) st.(bs_verified) in
    match failure with
    | Some text => (Err (RuntimeError text), st')
    | None => (Ok tt, st')
    end.

Fixpoint drain_loop (fuel : nat) : method S unit :=
  match fuel with
  | O => raise OutOfFuel
  | Datatypes.S fuel' =>
      chunk ← _physical_read _DRAIN_CHUNK;
      if bool_decide (chunk = []) then mret tt else drain_loop fuel'
  end.

(** [failure] wrapped in a [CaptureIntegrityError] unless it is one. *)
Definition integrity_failure (failure : exn) : exn :=
  match failure with
  | CaptureIntegrityError m => CaptureIntegrityError m
  | RuntimeError text => read_failed text
  | e => e
  end.

Definition drain_and_verify (fuel : nat) : method S SourceScanResult := fun st =>
  match st.(bs_verified) with
  | Some result => (Ok result, st)
  | None =>
      let '(failure, st) :=
        match st.(bs_read_failure) with
        | Some e => (Some e, st)
        | None => match drain_loop fuel st with
                  | (Ok _, st') => (None, st')
                  | (Err e, st') => (Some e, st')
                  end
        end in
      let '(failure, st) :=
        match close st with
        | (Ok _, st') => (failure, st')
        | (Err e, st') => (match failure with None => Some e | Some _ => failure end, st')
        end in
      let digest := sha256_hex st.(bs_hash) in
      match failure with
      | Some e => (Err (integrity_failure e), st)
      | None =>
          if negb (st.(bs_actual_size) =? bounds.(cb_expected_size)) then
            (Err (CaptureIntegrityError "retained PCAP size mismatch"), st)
          else if negb (bool_decide (digest = bounds.(cb_expected_sha256))) then
            (Err (CaptureIntegrityError "retained PCAP digest mismatch"), st)
          else
            let f := st.(bs_frame) in
            let result := {|
              srr_admitted_bytes := f.(fs_admitted_bytes);
              srr_admitted_packets := f.(fs_admitted_packets);
              srr_byte_limited := f.(fs_byte_limited);
              srr_packet_limited := f.(fs_packet_limited);
              srr_actual_size := st.(bs_actual_size);
              srr_actual_sha256 := digest;
              srr_verified_version_id := source_version_id st.(bs_source);
            |} in
            (Ok result,
             mk_bstate st.(bs_source) st.(bs_hash) st.(bs_actual_size) st.(bs_frame) st.(bs_closed)
               st.(bs_read_failure) (Some result))
      end
  end.

Definition new_bounded (source : S) : BoundedState S :=
  mk_bstate source [] 0 new_frame false None None.
End bounded.

(** The constructor: its checks, and the digest in lower case. *)
Definition BoundedVerifiedCapture_init (expected_size : Z) (expected_sha256 : string)
    (max_admitted_bytes max_admitted_packets : Z) : res CaptureBounds :=
  _ ← raise_if (expected_size <? 0) (ValueError "expected_size must be non-negative");
  _ ← raise_if (negb (Nat.eqb (String.length expected_sha256) 64)
                || negb (fromhex_ok (list_ascii_of_string expected_sha256)))
        (ValueError "expected_sha256 must be a SHA-256 hex digest");
  _ ← raise_if ((max_admitted_bytes <? 1) || (max_admitted_packets <? 1))
        (ValueError "capture admission limits must be positive");
  Ok (mk_bounds expected_size (str_lower expected_sha256) max_admitted_bytes max_admitted_packets).

(** [open_bounded_verified_capture]: the source is closed when the constructor
    raises, and a failure to close is dropped. *)
Definition open_bounded_verified_capture {S} `{!CaptureSource S} (source : S)
    (expected_size : Z) (expected_sha256 : string) (max_admitted_bytes max_admitted_packets : Z)
    : res (CaptureBounds * BoundedState S) * option S :=
  match BoundedVerifiedCapture_init expected_size expected_sha256 max_admitted_bytes
          max_admitted_packets with
  | Ok bounds => (Ok (bounds, new_bounded source), None)
  | Err e => (Err e, Some (source_close source).2)
  end.
