(* ===== verification/PacketCount.v ===== *)
(** * PacketCount

    How many whole packets the first bytes of a capture hold: a direct count over
    a byte string, independent of the reader of [BoundedCapture], whose packet
    counter is held against it. *)

From S2P Require Import Prelude Bytes CaptureFormat StructuralIndex CapturePrefix.
#[local] Open Scope Z_scope.

(** ** The count *)

(** The bytes a record or block starts with. *)
Definition header_size (fmt : capture_format) : Z := match fmt with PCAP => 16 | PCAPNG => 12 end.

(** The record or block that starts [d]: its length, whether it is a packet, and
    the byte order after it. [None]: no header, or no valid length. *)
Definition next_unit (fmt : capture_format) (e : endian) (d : bytes) : option (Z * bool * endian) :=
  if zlen d <? header_size fmt then None
  else
    match fmt with
    | PCAP => Some (16 + u32 e d 8, true, e)
    | PCAPNG =>
        let e := if bool_decide (ztake 4 d = PCAPNG_SECTION)
                 then match section_endian (slice 8 12 d) with Some e => e | None => e end else e in
        let block_length := u32 e d 4 in
        if (block_length <? 12) || negb (block_length mod 4 =? 0) then None
        else Some (block_length, is_packet_block (u32 e d 0), e)
    end.

Fixpoint count_units (fmt : capture_format) (fuel : nat) (e : endian) (d : bytes) : Z :=
  match fuel with
  | O => 0
  | S fuel' =>
      match next_unit fmt e d with
      | Some (n, is_packet, e') =>
          if zlen d <? n then 0 else Z.b2z is_packet + count_units fmt fuel' e' (zdrop n d)
      | None => 0
      end
  end.

(** The whole packets of [d], up to the first record or block that is cut off or
    has no valid length; every step takes at least twelve bytes. *)
Definition count_packets (fmt : capture_format) (e : endian) (d : bytes) : Z :=
  count_units fmt (S (length d)) e d.

(** The whole packets of a capture. A section without a valid byte-order magic
    keeps the byte order, at the start big-endian. *)
Definition whole_packets (content : bytes) : Z :=
  match CLASSIC_MAGIC (ztake 4 content) with
  | Some (e, _) => if zlen content <? 24 then 0 else count_packets PCAP e (zdrop 24 content)
  | None =>
      if bool_decide (ztake 4 content = PCAPNG_SECTION) then count_packets PCAPNG BE content else 0
  end.

(** ** Headers *)

Lemma ztake_prefix {A} n (q d : list A) : q `prefix_of` d -> n <= zlen q -> ztake n q = ztake n d.
Proof. intros [k ->] Hn. unfold ztake. rewrite take_app_le; [done|]. unfold zlen in *. lia. Qed.

Lemma slice_prefix {A} a b (q d : list A) : q `prefix_of` d -> 0 <= a -> b <= zlen q -> slice a b q = slice a b d.
Proof.
  intros [k ->] Ha Hb. unfold slice, ztake, zdrop. destruct (Z.le_gt_cases a b) as [Hab|Hab].
  - rewrite skipn_app, take_app_le; [done|]. rewrite length_drop. unfold zlen in *. lia.
  - replace (Z.to_nat (b - a)) with 0%nat by lia. done.
Qed.

Lemma u32_prefix e (q d : bytes) i : q `prefix_of` d -> 0 <= i -> i + 4 <= zlen q -> u32 e q i = u32 e d i.
Proof.
  intros Hq Hi Hl. change (u32 e d i) with (u32 e d (0 + i)). rewrite <- (u32_slice e 0 (zlen q) d i) by lia. f_equal.
  rewrite <- (slice_prefix 0 (zlen q) q d) by (done || lia). unfold slice. rewrite zdrop_0, ztake_all by lia. done.
Qed.

Lemma next_unit_prefix fmt e q d :
  q `prefix_of` d -> header_size fmt <= zlen q -> next_unit fmt e q = next_unit fmt e d.
Proof.
  intros Hq Hl. assert (zlen q <= zlen d) by (destruct Hq as [k ->]; rewrite zlen_app; pose proof (zlen_nonneg k); lia).
  unfold next_unit. rewrite (proj2 (Z.ltb_ge (zlen q) _)), (proj2 (Z.ltb_ge (zlen d) _)) by lia. destruct fmt; cbn [header_size] in Hl.
  - by rewrite (u32_prefix e q d 8) by (done || lia).
  - rewrite (ztake_prefix 4 q d), (slice_prefix 8 12 q d) by (done || lia).
    cbv zeta. set (e' := if bool_decide _ then _ else _).
    by rewrite (u32_prefix e' q d 4), (u32_prefix e' q d 0) by (done || lia).
Qed.

Lemma next_unit_short fmt e d : zlen d < header_size fmt -> next_unit fmt e d = None.
Proof. intros H. unfold next_unit. by rewrite (proj2 (Z.ltb_lt _ _)). Qed.

Lemma next_unit_size fmt e d n b e' : next_unit fmt e d = Some (n, b, e') -> 12 <= n.
Proof.
  unfold next_unit. destruct (_ <? _); [done|]. destruct fmt.
  - intros [= <- _ _]. pose proof (u32_bound e d 8). lia.
  - cbv zeta. destruct (_ || _) eqn:E; [done|]. intros [= <- _ _]. reflect_bools. lia.
Qed.

(** ** Steps of the count *)

Lemma count_units_fuel fmt fuel fuel' e d :
  (length d < fuel)%nat -> (length d < fuel')%nat -> count_units fmt fuel e d = count_units fmt fuel' e d.
Proof.
  revert fuel' e d. induction fuel as [|fuel IH]; intros [|fuel'] e d Hf Hf'; try lia. cbn [count_units].
  destruct (next_unit fmt e d) as [[[n b] e']|] eqn:Hn; [|done]. apply next_unit_size in Hn.
  destruct (Z.ltb_spec (zlen d) n); [done|]. f_equal.
  assert (length (zdrop n d) < length d)%nat by (unfold zdrop, zlen in *; rewrite length_drop; lia).
  apply IH; lia.
Qed.

Lemma count_packets_step fmt e d :
  count_packets fmt e d =
  match next_unit fmt e d with
  | Some (n, b, e') => if zlen d <? n then 0 else Z.b2z b + count_packets fmt e' (zdrop n d)
  | None => 0
  end.
Proof.
  unfold count_packets at 1. cbn [count_units]. destruct (next_unit fmt e d) as [[[n b] e']|] eqn:Hn; [|done].
  apply next_unit_size in Hn. destruct (Z.ltb_spec (zlen d) n); [done|]. f_equal.
  apply count_units_fuel; unfold zdrop, zlen in *; rewrite ?length_drop; lia.
Qed.

(** Nothing is counted of a unit that is not whole. *)
Lemma count_packets_cut fmt e h x y n b e' :
  zlen h = header_size fmt -> next_unit fmt e h = Some (n, b, e') ->
  y `prefix_of` h ++ x -> zlen y < n -> count_packets fmt e y = 0.
Proof.
  intros Hh Hn Hy Hlt. rewrite count_packets_step. destruct (Z.lt_ge_cases (zlen y) (header_size fmt)) as [Hs|Hs];
    [by rewrite next_unit_short|].
  rewrite (next_unit_prefix fmt e y (h ++ x)), <- (next_unit_prefix fmt e h (h ++ x)), Hn
    by (done || lia || by exists x). by rewrite (proj2 (Z.ltb_lt _ _)).
Qed.

(** A whole unit counts once. *)
Lemma count_packets_whole fmt e h x v n b e' :
  zlen h = header_size fmt -> next_unit fmt e h = Some (n, b, e') -> zlen (h ++ x) = n ->
  count_packets fmt e (h ++ x ++ v) = Z.b2z b + count_packets fmt e' v.
Proof.
  intros Hh Hn Hl. rewrite count_packets_step, <- (next_unit_prefix fmt e h), Hn by (by exists (x ++ v) || lia).
  rewrite app_assoc, zlen_app, zdrop_app_exact by done. pose proof (zlen_nonneg v).
  by rewrite (proj2 (Z.ltb_ge _ _)) by lia.
Qed.

Lemma count_packets_short fmt e d : zlen d < header_size fmt -> count_packets fmt e d = 0.
Proof. intros H. by rewrite count_packets_step, next_unit_short. Qed.

(** Nothing is counted of a block without a valid length. *)
Lemma count_packets_invalid fmt e h y :
  zlen h = header_size fmt -> next_unit fmt e h = None -> y `prefix_of` h -> count_packets fmt e y = 0.
Proof.
  intros Hh Hn Hy. rewrite count_packets_step. destruct (Z.lt_ge_cases (zlen y) (header_size fmt)) as [Hs|Hs];
    [by rewrite next_unit_short|]. by rewrite (next_unit_prefix fmt e y h), Hn by done.
Qed.

(** ** The first bytes of a capture *)

Lemma CLASSIC_MAGIC_length m r : CLASSIC_MAGIC m = Some r -> zlen m = 4.
Proof. unfold CLASSIC_MAGIC. repeat case_bool_decide; subst; done. Qed.

Lemma whole_packets_short d : zlen d < 12 -> whole_packets d = 0.
Proof.
  intros Hl. unfold whole_packets. destruct (CLASSIC_MAGIC _) as [[e r]|].
  - by rewrite (proj2 (Z.ltb_lt _ _)) by lia.
  - case_bool_decide; [|done]. by apply count_packets_short.
Qed.

(** What the first four bytes of [prefix] announce holds of its parts too. *)
Lemma whole_packets_magic y prefix :
  y `prefix_of` prefix -> whole_packets y =
  if zlen y <? 4 then 0
  else match CLASSIC_MAGIC (ztake 4 prefix) with
       | Some (e, _) => if zlen y <? 24 then 0 else count_packets PCAP e (zdrop 24 y)
       | None => if bool_decide (ztake 4 prefix = PCAPNG_SECTION) then count_packets PCAPNG BE y else 0
       end.
Proof.
  intros Hy. destruct (Z.ltb_spec (zlen y) 4); [apply whole_packets_short; lia|].
  unfold whole_packets. by rewrite (ztake_prefix 4 y prefix) by (done || lia).
Qed.

Lemma first_endian bom :
  match section_endian bom with Some e => e | None => BE end =
  if bool_decide (bom = [x4d; x3c; x2b; x1a]) then LE else BE.
Proof. unfold section_endian. by repeat case_bool_decide. Qed.

(** ** The count of a reader *)

(** A reader has handed out [adm] and counted [n] packets; [pending] and
    [remaining] more bytes are left of the unit it is in, a packet or not. *)
Record counts_unit (adm pending : bytes) (remaining n : Z) (is_packet : bool) (fmt : capture_format) (e : endian)
    : Prop := {
  cu_part x y : zlen x = remaining -> y `prefix_of` pending ++ x -> zlen y < zlen pending + remaining ->
    whole_packets (adm ++ y) = n;
  cu_whole x v : zlen x = remaining ->
    whole_packets (adm ++ pending ++ x ++ v) = n + Z.b2z is_packet + count_packets fmt e v;
}.

(** A reader that has stopped hands out what is left of [pending]. *)
Definition counts_rest (adm pending : bytes) (n : Z) : Prop :=
  forall q, q `prefix_of` pending -> whole_packets (adm ++ q) = n.

(** A part of the unit is handed out. *)
Lemma counts_unit_take adm pending part pending' read remaining n b fmt e :
  pending ++ read = part ++ pending' -> zlen read <= remaining ->
  counts_unit adm pending remaining n b fmt e -> counts_unit (adm ++ part) pending' (remaining - zlen read) n b fmt e.
Proof.
  intros Heq Hr [Hp Hw].
  assert (forall x, zlen x = remaining - zlen read -> zlen (read ++ x) = remaining) as Hx
    by (intros x Hx; rewrite zlen_app; lia).
  assert (forall x, pending ++ read ++ x = part ++ pending' ++ x) as Hs
    by (intros x; by rewrite !app_assoc, Heq).
  constructor.
  - intros x y Hl Hy Hlt. rewrite <- app_assoc. apply (Hp (read ++ x)); [by apply Hx| |].
    + rewrite Hs. by apply prefix_app.
    + pose proof (f_equal zlen Heq) as Hz. rewrite !zlen_app in Hz. rewrite zlen_app. lia.
  - intros x v Hl. rewrite <- (Hw (read ++ x) v) by (by apply Hx). f_equal.
    rewrite <- !app_assoc. f_equal. symmetry. apply Hs.
Qed.

Lemma counts_rest_take adm part pending n :
  counts_rest adm (part ++ pending) n -> counts_rest (adm ++ part) pending n.
Proof. intros H q Hq. rewrite <- app_assoc. apply H. by apply prefix_app. Qed.

(** The unit is complete. *)
Lemma counts_unit_done adm n b fmt e :
  counts_unit adm [] 0 n b fmt e -> counts_unit adm [] 0 (n + Z.b2z b) false fmt e.
Proof.
  intros [_ Hw]. constructor; [intros x y _ _ Hlt; pose proof (zlen_nonneg y); change (zlen y < 0) in Hlt; lia|].
  intros x v Hx. rewrite (Hw x v Hx). simpl. lia.
Qed.

Lemma counts_unit_idle adm n fmt e :
  counts_unit adm [] 0 n false fmt e -> forall v, whole_packets (adm ++ v) = n + count_packets fmt e v.
Proof. intros [_ Hw] v. pose proof (Hw [] v eq_refl) as H. simpl in H. rewrite H. lia. Qed.

(** The end of the source cuts the unit. *)
Lemma counts_unit_cut adm chunk remaining n b fmt e :
  counts_unit adm [] remaining n b fmt e -> zlen chunk < remaining -> counts_rest (adm ++ chunk) [] n.
Proof.
  intros [Hp _] Hlt q ->%prefix_nil_inv. rewrite app_nil_r. pose proof (zlen_nonneg chunk).
  apply (Hp (chunk ++ replicate (Z.to_nat (remaining - zlen chunk)) x00)); [| |change (zlen chunk < 0 + remaining); lia].
  - rewrite zlen_app. unfold zlen in *. rewrite length_replicate. lia.
  - by exists (replicate (Z.to_nat (remaining - zlen chunk)) x00).
Qed.

(** What was handed out is counted, wherever the reader is. *)
Lemma counts_unit_now adm pending remaining n b fmt e :
  0 <= remaining -> (pending = [] -> remaining = 0 -> b = false) ->
  counts_unit adm pending remaining n b fmt e -> whole_packets adm = n.
Proof.
  intros Hr Hb Hu. destruct (decide (zlen pending + remaining = 0)) as [H0|H0]; pose proof (zlen_nonneg pending).
  - assert (pending = []) as -> by (apply zlen_0_nil; lia). assert (remaining = 0) as -> by (change (0 + remaining = 0) in H0; lia).
    rewrite Hb in Hu by done. pose proof (counts_unit_idle _ _ _ _ Hu []) as Hw. rewrite app_nil_r in Hw.
    rewrite Hw, count_packets_short; [lia|]. by destruct fmt.
  - destruct Hu as [Hp _]. rewrite <- (app_nil_r adm).
    apply (Hp (replicate (Z.to_nat remaining) x00)); [unfold zlen; rewrite length_replicate; lia|apply prefix_nil|].
    rewrite zlen_nil. lia.
Qed.

(** Between two units the next one starts. *)
Lemma counts_unit_start adm n fmt e h m b e' :
  counts_unit adm [] 0 n false fmt e -> zlen h = header_size fmt -> next_unit fmt e h = Some (m, b, e') ->
  header_size fmt <= m -> counts_unit adm h (m - header_size fmt) n b fmt e'.
Proof.
  intros Hu Hh Hn Hm. pose proof (counts_unit_idle _ _ _ _ Hu) as Hw. constructor.
  - intros x y Hx Hy Hlt. rewrite Hw, (count_packets_cut fmt e h x y m b e') by (done || lia). lia.
  - intros x v Hx. rewrite Hw, (count_packets_whole fmt e h x v m b e'); [lia|done|done|]. rewrite zlen_app. lia.
Qed.

Lemma counts_rest_idle adm n fmt e pending :
  counts_unit adm [] 0 n false fmt e -> (forall q, q `prefix_of` pending -> count_packets fmt e q = 0) ->
  counts_rest adm pending n.
Proof. intros Hu Hq q Hpre. rewrite (counts_unit_idle _ _ _ _ Hu), (Hq q Hpre). lia. Qed.

(** A header that is cut off, or none. *)
Lemma counts_rest_short adm n fmt e pending :
  counts_unit adm [] 0 n false fmt e -> zlen pending < header_size fmt -> counts_rest adm pending n.
Proof.
  intros Hu Hl. eapply counts_rest_idle; [exact Hu|]. intros q [k ->]. apply count_packets_short.
  rewrite zlen_app in Hl. pose proof (zlen_nonneg k). lia.
Qed.

(** The file header of a classic capture. *)
Lemma first_classic_counts prefix e r :
  CLASSIC_MAGIC (ztake 4 prefix) = Some (e, r) -> zlen prefix = 24 -> counts_unit [] prefix 0 0 false PCAP e.
Proof.
  intros Hm Hl. constructor.
  - intros x y ->%zlen_0_nil Hy Hlt. rewrite app_nil_r in Hy. simpl. rewrite (whole_packets_magic y prefix Hy), Hm.
    rewrite (proj2 (Z.ltb_lt (zlen y) 24)) by lia. by destruct (_ <? 4).
  - intros x v ->%zlen_0_nil. simpl. unfold whole_packets.
    rewrite <- (ztake_prefix 4 prefix) by (by exists v || lia). rewrite Hm, zlen_app, zdrop_app_exact by done.
    pose proof (zlen_nonneg v). by rewrite (proj2 (Z.ltb_ge _ _)) by lia.
Qed.

(** The first block of a PCAPNG capture, with its byte order. *)
Lemma first_block_unit prefix (e := if bool_decide (slice 8 12 prefix = [x4d; x3c; x2b; x1a]) then LE else BE) :
  ztake 4 prefix = PCAPNG_SECTION -> 12 <= zlen prefix ->
  next_unit PCAPNG BE (ztake 12 prefix) =
  if (u32 e prefix 4 <? 12) || negb (u32 e prefix 4 mod 4 =? 0) then None else Some (u32 e prefix 4, false, e).
Proof.
  intros Hs Hl. assert (ztake 12 prefix `prefix_of` prefix) as Hp by (exists (zdrop 12 prefix); by rewrite ztake_zdrop).
  rewrite (next_unit_prefix PCAPNG BE _ prefix Hp) by (rewrite zlen_ztake; cbn [header_size]; lia).
  unfold next_unit. rewrite (proj2 (Z.ltb_ge _ _)) by done. cbv zeta. rewrite Hs, bool_decide_true, first_endian by done.
  fold e. destruct (_ || _); [done|]. do 3 f_equal.
  rewrite <- (u32_prefix e (ztake 4 prefix) prefix 0); [|exists (zdrop 4 prefix); by rewrite ztake_zdrop|done|rewrite zlen_ztake; lia].
  rewrite Hs. by destruct e.
Qed.

Lemma first_block_invalid prefix y (e := if bool_decide (slice 8 12 prefix = [x4d; x3c; x2b; x1a]) then LE else BE) :
  CLASSIC_MAGIC (ztake 4 prefix) = None -> ztake 4 prefix = PCAPNG_SECTION -> 12 <= zlen prefix ->
  (u32 e prefix 4 <? 12) || negb (u32 e prefix 4 mod 4 =? 0) = true -> y `prefix_of` prefix -> whole_packets y = 0.
Proof.
  intros Hm Hs Hl Hv Hy. rewrite (whole_packets_magic y prefix Hy), Hm, bool_decide_true by done.
  destruct (_ <? 4); [done|]. pose proof (first_block_unit prefix Hs Hl) as Hn. fold e in Hn. rewrite Hv in Hn.
  rewrite count_packets_step. destruct (Z.lt_ge_cases (zlen y) 12) as [Hy12|Hy12]; [by rewrite next_unit_short|].
  rewrite (next_unit_prefix PCAPNG BE y prefix Hy Hy12), <- (next_unit_prefix PCAPNG BE (ztake 12 prefix)), Hn; [done| |].
  - exists (zdrop 12 prefix). by rewrite ztake_zdrop.
  - rewrite zlen_ztake; cbn [header_size]; lia.
Qed.

Lemma first_block_counts prefix pending
    (e := if bool_decide (slice 8 12 prefix = [x4d; x3c; x2b; x1a]) then LE else BE) :
  CLASSIC_MAGIC (ztake 4 prefix) = None -> ztake 4 prefix = PCAPNG_SECTION -> 12 <= zlen prefix ->
  u32 e prefix 4 mod 4 = 0 -> 12 <= u32 e prefix 4 -> 12 <= zlen pending -> pending `prefix_of` prefix ->
  zlen pending <= u32 e prefix 4 ->
  counts_unit [] pending (u32 e prefix 4 - zlen pending) 0 false PCAPNG e.
Proof.
  intros Hm Hs Hl Hv H12 Hp Hpre Hle. pose proof (first_block_unit prefix Hs Hl) as Hn. fold e in Hn.
  rewrite (proj2 (Z.ltb_ge _ _)), Hv in Hn by done. cbn [orb negb Z.eqb] in Hn.
  assert (zlen (ztake 12 prefix) = header_size PCAPNG) as Hh by (rewrite zlen_ztake by lia; cbn [header_size]; lia).
  assert (pending = ztake 12 prefix ++ zdrop 12 pending) as Heq
    by (rewrite <- (ztake_prefix 12 pending prefix) by done; by rewrite ztake_zdrop).
  assert (forall y, y `prefix_of` pending \/ pending `prefix_of` y -> 4 <= zlen y -> whole_packets y = count_packets PCAPNG BE y) as Hwhole.
  { intros y Hy H4. unfold whole_packets. assert (ztake 4 y = ztake 4 prefix) as ->.
    { rewrite <- (ztake_prefix 4 pending prefix Hpre) by lia. destruct Hy as [Hy|Hy].
      - by apply ztake_prefix.
      - symmetry. apply ztake_prefix; [done|lia]. }
    by rewrite Hm, bool_decide_true. }
  constructor.
  - intros x y Hx Hy Hlt. simpl. destruct (Z.lt_ge_cases (zlen y) 12); [by apply whole_packets_short|].
    rewrite Hwhole; [|eapply prefix_weak_total; [exact Hy|by exists x]|lia]. rewrite Heq, <- app_assoc in Hy.
    eapply count_packets_cut; [exact Hh|exact Hn|exact Hy|lia].
  - intros x v Hx. simpl. rewrite Hwhole; [|right; by exists (x ++ v)|rewrite zlen_app; pose proof (zlen_nonneg (x ++ v)); lia].
    rewrite Heq, <- app_assoc, (app_assoc (zdrop 12 pending)).
    rewrite (count_packets_whole PCAPNG BE (ztake 12 prefix) (zdrop 12 pending ++ x) v _ _ _ Hh Hn); [done|].
    rewrite app_assoc, <- Heq, zlen_app. lia.
Qed.
