(* ===== verification/BoundedProofs.v ===== *)
(** * BoundedProofs

    The bounded verified capture of [BoundedCapture] admits a prefix of the
    source that respects both limits, commits only what the drained source
    confirms, never fails on its own, and reads exactly the bytes
    [bounded_pcap_prefix] selects from the same capture in memory. *)

From S2P Require Import Prelude Bytes CaptureFormat StructuralIndex CapturePrefix PacketCount BoundedCapture.
#[local] Open Scope Z_scope.

(** What the reader makes of the prefix [bounded_pcap_prefix] takes: a budget below
    the 24 bytes it asks for first is too small for it, whatever the capture. *)
Definition reader_prefix (max_bytes : Z) (p : PcapBytePrefix) : PcapBytePrefix :=
  if max_bytes <? 24 then mk_prefix [] 0 0 true false else p.

(** ** A logic for the methods *)

Section logic.
Context {S : Type} `{!CaptureSource S} `{!LawfulSource S}.

(** A source that never raises. *)
Definition reliable : Prop :=
  forall n (s : S), 0 < n -> exists p s', source_read n s = (inr p, s').

Context (c : bytes).

(** What has been read and what is left are the capture [c]. *)
Definition phys (st : BoundedState S) : Prop :=
  st.(bs_hash) ++ source_content st.(bs_source) = c /\
  st.(bs_actual_size) = zlen st.(bs_hash) /\
  st.(bs_read_failure) = None /\ st.(bs_closed) = false /\ st.(bs_verified) = None.

(** The only way to fail: the source raised, and the failure is remembered. *)
Definition failed (e : exn) (st : BoundedState S) : Prop :=
  ~ reliable /\ st.(bs_read_failure) = Some e /\ st.(bs_verified) = None /\
  exists text, e = read_failed text.

Definition mspec {A} (m : method S A) (st : BoundedState S) (Q : A -> BoundedState S -> Prop)
    : Prop :=
  match m st with
  | (Ok a, st') => phys st' /\ Q a st'
  | (Err e, st') => failed e st'
  end.

Lemma mspec_bind {A B} (m : method S A) (f : A -> method S B) st Q Q' :
  mspec m st Q ->
  (forall a st', phys st' -> Q a st' -> mspec (f a) st' Q') ->
  mspec (m ≫= f) st Q'.
Proof.
  unfold mspec, mbind, method_bind. destruct (m st) as [[a|e] st']; [|done].
  intros [Hp HQ] Hf. by apply Hf.
Qed.

(** The same, remembering the run of the first method. *)
Lemma mspec_bind_run {A B} (m : method S A) (f : A -> method S B) st Q Q' :
  mspec m st Q ->
  (forall a st', m st = (Ok a, st') -> phys st' -> Q a st' -> mspec (f a) st' Q') ->
  mspec (m ≫= f) st Q'.
Proof.
  unfold mspec, mbind, method_bind. destruct (m st) as [[a|e] st']; [|done].
  intros [Hp HQ] Hf. by apply Hf.
Qed.

Lemma mspec_mono {A} (m : method S A) st (Q Q' : A -> BoundedState S -> Prop) :
  mspec m st Q -> (forall a st', phys st' -> Q a st' -> Q' a st') -> mspec m st Q'.
Proof. unfold mspec. destruct (m st) as [[a|e] st']; naive_solver. Qed.

Lemma mspec_ret {A} (a : A) st (Q : A -> BoundedState S -> Prop) :
  phys st -> Q a st -> mspec (mret a) st Q.
Proof. done. Qed.

(** The state with another framing. *)
Definition framed (st : BoundedState S) (f : FrameState) : BoundedState S :=
  mk_bstate st.(bs_source) st.(bs_hash) st.(bs_actual_size) f st.(bs_closed)
    st.(bs_read_failure) st.(bs_verified).

Lemma mspec_set_frame f st (Q : unit -> BoundedState S -> Prop) :
  phys st -> Q tt (framed st f) -> mspec (set_frame f) st Q.
Proof. done. Qed.

Lemma mspec_set_frame_bind {B} f (k : unit -> method S B) st Q :
  mspec (k tt) (framed st f) Q -> mspec (set_frame f ≫= k) st Q.
Proof. done. Qed.

Lemma mspec_get_frame {B} (k : FrameState -> method S B) st Q :
  mspec (k st.(bs_frame)) st Q -> mspec (get_frame ≫= k) st Q.
Proof. done. Qed.

(** [r] was read next, and is shorter than [n] only at the end of [c]. *)
Definition read_next (n : Z) (st : BoundedState S) (r : bytes) (st' : BoundedState S) : Prop :=
  st'.(bs_frame) = st.(bs_frame) /\ st'.(bs_hash) = st.(bs_hash) ++ r /\
  zlen r <= n /\ (zlen r < n -> st'.(bs_hash) = c).

Lemma physical_read_spec n st :
  0 < n -> phys st ->
  mspec (_physical_read n) st (fun p st' =>
    st'.(bs_frame) = st.(bs_frame) /\ st'.(bs_hash) = st.(bs_hash) ++ p /\ zlen p <= n /\
    (p = [] -> st'.(bs_hash) = c)).
Proof.
  intros Hn (Hc & Hs & Hf & Hcl & Hv). unfold mspec, _physical_read.
  destruct (source_read n st.(bs_source)) as [[text|p] s'] eqn:E.
  - split_and!; simpl; [|done|done|by eexists].
    intros Hr. destruct (Hr n st.(bs_source) Hn) as (p & s1 & E1). congruence.
  - destruct (source_read_next n _ p s' Hn E) as [Hp Hle]. unfold phys; simpl.
    split_and!; try done.
    + by rewrite <- app_assoc, <- Hp.
    + rewrite zlen_app. lia.
    + intros ->. rewrite app_nil_r, <- Hc, (source_read_eof n _ s') by done.
      by rewrite app_nil_r.
Qed.

Lemma read_up_to_loop_spec fuel n r st base :
  phys st -> zlen r <= n -> (Z.to_nat (n - zlen r) + 1 < fuel)%nat ->
  st.(bs_hash) = base ++ r ->
  mspec (read_up_to_loop fuel n r) st (fun q st' =>
    st'.(bs_frame) = st.(bs_frame) /\ st'.(bs_hash) = base ++ q /\ zlen q <= n /\
    (zlen q < n -> st'.(bs_hash) = c)).
Proof.
  revert r st. induction fuel as [|fuel IH]; intros r st Hp Hr Hfuel Hh; [lia|]. simpl.
  destruct (Z.ltb_spec (zlen r) n) as [Hlt|].
  - eapply mspec_bind; [by apply physical_read_spec; [lia|]|]. simpl.
    intros p st' Hp' (Hf & Hh' & Hle & Hnil). destruct (decide (p = [])) as [->|Hne].
    + rewrite bool_decide_true by done. apply mspec_ret; [done|].
      rewrite Hf, Hh', Hh, app_nil_r. split_and!; try done.
      intros _. rewrite <- Hh, <- (Hnil eq_refl), Hh'. by rewrite app_nil_r.
    + rewrite bool_decide_false by done.
      assert (0 < zlen p) by (destruct p; [done|]; rewrite zlen_cons; pose proof (zlen_nonneg p); lia).
      eapply mspec_mono; [apply (IH (r ++ p) st')|].
      * done.
      * rewrite zlen_app. lia.
      * rewrite zlen_app. lia.
      * by rewrite Hh', Hh, app_assoc.
      * intros q st2 _ (Hf2 & ? & ? & ?). by rewrite Hf2, Hf.
  - apply mspec_ret; [done|]. split_and!; [done|done|lia|lia].
Qed.

Lemma read_up_to_spec n st :
  0 <= n -> phys st -> mspec (_read_up_to n) st (read_next n st).
Proof.
  intros Hn Hp. eapply mspec_mono.
  - apply (read_up_to_loop_spec _ n [] st st.(bs_hash)); [done|rewrite zlen_nil; lia| |].
    + rewrite zlen_nil. lia.
    + by rewrite app_nil_r.
  - done.
Qed.

(** [_take_physical] serves the lookahead first; [base] is what precedes it. *)
Definition took (n : Z) (base : bytes) (st : BoundedState S) (r : bytes) (st' : BoundedState S)
    : Prop :=
  exists l, st'.(bs_frame) = with_lookahead l st.(bs_frame) /\
    st'.(bs_hash) = base ++ r ++ l /\ zlen r <= n /\
    (zlen r < n -> base ++ r = c /\ l = []) /\
    (st.(bs_frame).(fs_lookahead) = [] -> l = []).

Lemma take_physical_spec n base st :
  0 <= n -> phys st -> st.(bs_hash) = base ++ st.(bs_frame).(fs_lookahead) ->
  mspec (_take_physical n) st (took n base st).
Proof.
  intros Hn Hp Hh. unfold _take_physical. apply mspec_get_frame.
  set (l := fs_lookahead (bs_frame st)) in *. pose proof (zlen_nonneg l) as Hl.
  set (take := Z.min n (zlen l)).
  apply mspec_set_frame_bind. set (st1 := framed st _).
  assert (phys st1) as Hp1 by done.
  pose proof (ztake_zdrop take l) as Htd.
  assert (zlen (ztake take l) = take) as Hlen by (rewrite zlen_ztake; lia).
  destruct (Z.eqb_spec (n - take) 0) as [E|E].
  - apply mspec_ret; [done|]. exists (zdrop take l). split_and!; [done| |lia|lia|].
    + simpl. by rewrite Htd.
    + intros Hnil. unfold l. by rewrite Hnil, zdrop_all by (rewrite zlen_nil; lia).
  - assert (take = zlen l) as Ht by lia.
    eapply mspec_bind; [apply read_up_to_spec; [lia|done]|]. cbv beta.
    intros r st' Hp' (Hf & Hh' & Hle & Hend). apply mspec_ret; [done|].
    rewrite (ztake_all take l), (zdrop_all take l) in * by lia.
    exists []. rewrite app_nil_r. split_and!.
    + rewrite Hf. unfold st1; simpl. by rewrite zdrop_all by lia.
    + rewrite Hh'. simpl. by rewrite Hh, app_assoc.
    + rewrite zlen_app. lia.
    + rewrite zlen_app. intros. split; [|done]. rewrite app_assoc, <- Hh, <- Hend by lia.
      by rewrite Hh'.
    + done.
Qed.
End logic.

(** Splits the conditional a method continues with. *)
Ltac mspec_if E :=
  match goal with |- mspec _ (if ?b then _ else _) _ _ => destruct b eqn:E end.

(** A part of a list is the slice at its place. *)
Lemma slice_middle {A} (c a r k : list A) :
  c = a ++ r ++ k -> slice (zlen a) (zlen a + zlen r) c = r.
Proof.
  intros ->. unfold slice. rewrite zdrop_app_exact by done. by rewrite ztake_app_exact by lia.
Qed.

Lemma u32_middle e (c a r k : bytes) i :
  c = a ++ r ++ k -> 0 <= i -> i + 4 <= zlen r -> u32 e c (zlen a + i) = u32 e r i.
Proof.
  intros Hc Hi Hr. rewrite <- (slice_middle c a r k Hc). pose proof (zlen_nonneg a).
  by rewrite u32_slice by lia.
Qed.

(** ** Invariants of the framing automaton *)

Section framing.
Context {S : Type} `{!CaptureSource S} `{!LawfulSource S}.
Context (c : bytes) (bounds : CaptureBounds).

(** The arguments the constructor accepts. *)
Definition bounds_ok : Prop :=
  0 <= bounds.(cb_expected_size) /\ 1 <= bounds.(cb_max_bytes) /\ 1 <= bounds.(cb_max_packets).

(** The packet counter is the count of what was handed out, and stays it. *)
Definition counted (adm : bytes) (f : FrameState) : Prop :=
  if f.(fs_stopped)
  then f.(fs_unit_is_packet) = false /\ counts_rest adm f.(fs_pending) f.(fs_admitted_packets)
  else match f.(fs_format) with
       | None => f.(fs_admitted_packets) = 0
       | Some fmt => counts_unit adm f.(fs_pending) f.(fs_unit_remaining) f.(fs_admitted_packets)
                       f.(fs_unit_is_packet) fmt f.(fs_endian)
       end.

(** After [adm] was handed out, with [hash] read from the source. *)
Record frame_safe (adm hash : bytes) (f : FrameState) : Prop := {
  sf_admitted : f.(fs_admitted_bytes) = zlen adm;
  sf_hash : exists mid, hash = adm ++ f.(fs_pending) ++ mid /\
              (f.(fs_stopped) = false -> mid = f.(fs_lookahead));
  sf_remaining : 0 <= f.(fs_unit_remaining);
  sf_stopped : f.(fs_stopped) = true -> f.(fs_unit_remaining) = 0;
  sf_bytes : oversized bounds = true ->
    zlen adm + zlen f.(fs_pending) + f.(fs_unit_remaining) <= bounds.(cb_max_bytes);
  sf_packets : f.(fs_admitted_packets) + Z.b2z f.(fs_unit_is_packet) <= bounds.(cb_max_packets);
  sf_idle : f.(fs_pending) = [] -> f.(fs_unit_remaining) = 0 -> f.(fs_unit_is_packet) = false;
  sf_lookahead : f.(fs_format) <> Some PCAPNG -> f.(fs_lookahead) = [];
  sf_fresh : f.(fs_format) = None -> f.(fs_stopped) = false ->
    adm = [] /\ f.(fs_pending) = [] /\ f.(fs_unit_remaining) = 0;
  sf_count : counted adm f;
}.

Definition safe (adm : bytes) (st : BoundedState S) : Prop :=
  frame_safe adm st.(bs_hash) st.(bs_frame).

(** Where the unit being admitted ends, and how many packets are admitted then. *)
Definition unit_end (f : FrameState) : Z :=
  f.(fs_admitted_bytes) + zlen f.(fs_pending) + f.(fs_unit_remaining).
Definition unit_packets (f : FrameState) : Z :=
  f.(fs_admitted_packets) + Z.b2z f.(fs_unit_is_packet).

Definition prefix_loop (fmt : capture_format) : nat -> endian -> Z -> Z -> res PcapBytePrefix :=
  match fmt with
  | PCAP => classic_prefix_loop c bounds.(cb_max_bytes) (Some bounds.(cb_max_packets))
  | PCAPNG => ng_prefix_loop c bounds.(cb_max_bytes) (Some bounds.(cb_max_packets))
  end.

(** The automaton has stopped with the result [p] of [bounded_pcap_prefix]. *)
Definition stopped_at (p : PcapBytePrefix) (f : FrameState) : Prop :=
  f.(fs_pending) = [] /\ f.(fs_admitted_bytes) = p.(pbp_scanned_bytes) /\
  f.(fs_admitted_packets) = p.(pbp_packet_count) /\
  f.(fs_byte_limited) = p.(pbp_byte_limited) /\ f.(fs_packet_limited) = p.(pbp_packet_limited).

(** The automaton is on its way to [p]: from the end of the current unit,
    [bounded_pcap_prefix] arrives at [p]. *)
Definition tracks (p : PcapBytePrefix) (f : FrameState) : Prop :=
  if f.(fs_stopped) then stopped_at p f
  else
    f.(fs_byte_limited) = false /\ f.(fs_packet_limited) = false /\
    match f.(fs_format) with
    | None => unit_packets f = 0 /\ exists p0,
        bounded_pcap_prefix c bounds.(cb_max_bytes) (Some bounds.(cb_max_packets)) = Ok p0 /\
        p = reader_prefix bounds.(cb_max_bytes) p0
    | Some fmt =>
        unit_end f <= zlen c /\
        exists fuel, prefix_loop fmt fuel f.(fs_endian) (unit_end f) (unit_packets f) = Ok p
    end.

(** When the descriptor gives the size of the source, the limits of both agree. *)
Definition described : Prop := bounds.(cb_expected_size) = zlen c.

(** What every step of the automaton keeps. *)
Definition kept (adm : bytes) (st0 st : BoundedState S) : Prop :=
  safe adm st /\
  (described -> forall p, tracks p st0.(bs_frame) -> tracks p st.(bs_frame)).

(** Between two units. *)
Definition idle (f : FrameState) : Prop :=
  f.(fs_stopped) = false /\ f.(fs_pending) = [] /\ f.(fs_unit_remaining) = 0.

(** What preparing the next unit achieves: a unit, or the end. *)
Definition prepared (adm : bytes) (st0 st : BoundedState S) : Prop :=
  kept adm st0 st /\ ~ idle st.(bs_frame).

Lemma idle_packet adm hash f : frame_safe adm hash f -> idle f -> f.(fs_unit_is_packet) = false.
Proof. intros H (? & ? & ?). by apply (sf_idle _ _ _ H). Qed.

(** Between two units the rest of the capture decides the rest of the count. *)
Lemma idle_count adm hash f fmt :
  frame_safe adm hash f -> idle f -> f.(fs_format) = Some fmt ->
  counts_unit adm [] 0 f.(fs_admitted_packets) false fmt f.(fs_endian).
Proof.
  intros H Hi Hf. pose proof (idle_packet _ _ _ H Hi) as Hpk. pose proof (sf_count _ _ _ H) as Hc.
  destruct Hi as (Hs & Hp & Hr). unfold counted in Hc. by rewrite Hs, Hf, Hp, Hr, Hpk in Hc.
Qed.

(** The counter is right at every moment, also within a unit. *)
Lemma safe_count adm hash f : frame_safe adm hash f -> whole_packets adm = f.(fs_admitted_packets).
Proof.
  intros H. pose proof (sf_count _ _ _ H) as Hc. unfold counted in Hc. destruct (fs_stopped f) eqn:Hs.
  - destruct Hc as [_ Hc]. rewrite <- (app_nil_r adm). apply Hc. apply prefix_nil.
  - destruct (fs_format f) as [fmt|] eqn:Hf.
    + eapply counts_unit_now; [exact (sf_remaining _ _ _ H)|exact (sf_idle _ _ _ H)|exact Hc].
    + destruct (sf_fresh _ _ _ H Hf Hs) as [-> _]. done.
Qed.

Lemma idle_hash adm hash f :
  frame_safe adm hash f -> idle f -> hash = adm ++ f.(fs_lookahead).
Proof.
  intros H (Hs & Hp & ?). destruct (sf_hash _ _ _ H) as (mid & -> & Hm).
  by rewrite Hp, (Hm Hs).
Qed.

Lemma safe_within adm hash f :
  frame_safe adm hash f -> oversized bounds = true -> zlen adm + zlen (@nil byte) <= bounds.(cb_max_bytes).
Proof.
  intros H Ho. pose proof (sf_bytes _ _ _ H Ho). pose proof (sf_remaining _ _ _ H).
  pose proof (zlen_nonneg f.(fs_pending)). rewrite zlen_nil. lia.
Qed.

(** Between two units [bounded_pcap_prefix] takes the next step from here. *)
Lemma idle_tracks p adm hash f fmt :
  frame_safe adm hash f -> idle f -> f.(fs_format) = Some fmt -> tracks p f ->
  f.(fs_byte_limited) = false /\ f.(fs_packet_limited) = false /\ zlen adm <= zlen c /\
  exists fuel, prefix_loop fmt (Datatypes.S fuel) f.(fs_endian) (zlen adm)
                 f.(fs_admitted_packets) = Ok p.
Proof.
  intros Hs Hi Hf Ht. pose proof (idle_packet _ _ _ Hs Hi) as Hpk. destruct Hi as (Hst & Hpe & Hre).
  unfold tracks in Ht. rewrite Hst, Hf in Ht. destruct Ht as (Hbl & Hpl & Hle & fuel & Hl).
  unfold unit_end, unit_packets in *. rewrite Hpe, Hre, Hpk, (sf_admitted _ _ _ Hs) in *.
  rewrite zlen_nil in *. simpl in *. rewrite !Z.add_0_r in *. split_and!; [done..|].
  destruct fuel as [|fuel]; [by destruct fmt|]. by exists fuel.
Qed.

(** What a stop between two units leaves of the framing. *)
Definition halts (f f' : FrameState) : Prop :=
  f'.(fs_stopped) = true /\ f'.(fs_unit_remaining) = 0 /\ f'.(fs_unit_is_packet) = false /\
  f'.(fs_admitted_bytes) = f.(fs_admitted_bytes) /\
  f'.(fs_admitted_packets) = f.(fs_admitted_packets).

Lemma stop_prepared adm st st' f' :
  safe adm st -> phys c st' -> halts st.(bs_frame) f' ->
  (exists mid, st'.(bs_hash) = adm ++ f'.(fs_pending) ++ mid) ->
  (oversized bounds = true -> zlen adm + zlen f'.(fs_pending) <= bounds.(cb_max_bytes)) ->
  (f'.(fs_format) <> Some PCAPNG -> f'.(fs_lookahead) = []) ->
  counts_rest adm f'.(fs_pending) st.(bs_frame).(fs_admitted_packets) ->
  (described -> forall p, tracks p st.(bs_frame) -> stopped_at p f') ->
  prepared adm st (framed st' f').
Proof.
  intros Hs Hp (Hst & Hre & Hpk & Ha & Hpa) [mid Hm] Ho Hl Hcn Ht. destruct Hs.
  split; [split|by intros (Hi & _); simpl in Hi; congruence].
  - constructor; simpl; rewrite ?Hst, ?Hre, ?Hpk, ?Ha, ?Hpa; try done.
    + by exists mid.
    + intros Hov. specialize (Ho Hov). lia.
    + unfold Z.b2z in *. case_match; simpl in *; lia.
    + unfold counted. simpl. by rewrite Hst, Hpa.
  - intros Hd p Hp'. unfold tracks. simpl. rewrite Hst. by apply Ht.
Qed.

(** A unit whose first bytes are [pending] starts. *)
Lemma start_prepared adm st st' f' fmt :
  safe adm st -> f'.(fs_stopped) = false -> f'.(fs_format) = Some fmt ->
  f'.(fs_pending) <> [] ->
  f'.(fs_admitted_bytes) = zlen adm -> 0 <= f'.(fs_unit_remaining) ->
  st'.(bs_hash) = adm ++ f'.(fs_pending) ++ f'.(fs_lookahead) ->
  (oversized bounds = true -> unit_end f' <= bounds.(cb_max_bytes)) ->
  unit_packets f' <= bounds.(cb_max_packets) ->
  (fmt <> PCAPNG -> f'.(fs_lookahead) = []) ->
  counts_unit adm f'.(fs_pending) f'.(fs_unit_remaining) f'.(fs_admitted_packets) f'.(fs_unit_is_packet) fmt
    f'.(fs_endian) ->
  (described -> forall p, tracks p st.(bs_frame) ->
     f'.(fs_byte_limited) = false /\ f'.(fs_packet_limited) = false /\ unit_end f' <= zlen c /\
     exists fuel, prefix_loop fmt fuel f'.(fs_endian) (unit_end f') (unit_packets f') = Ok p) ->
  prepared adm st (framed st' f').
Proof.
  intros Hs Hst Hfmt Hne Ha Hr Hh Ho Hpk Hl Hcn Ht. unfold unit_end, unit_packets in *.
  split; [split|by intros (_ & ? & _)].
  - constructor; simpl; rewrite ?Hst, ?Hfmt; try done.
    + by exists (fs_lookahead f').
    + intros Hov. specialize (Ho Hov). lia.
    + intros Hn. apply Hl. congruence.
    + unfold counted. simpl. by rewrite Hst, Hfmt.
  - intros Hd p Hp. unfold tracks. simpl. rewrite Hst, Hfmt. by apply Ht.
Qed.

Lemma described_limit : described -> source_exceeds_limit c bounds.(cb_max_bytes) = oversized bounds.
Proof. intros Hd. unfold source_exceeds_limit, oversized. by rewrite Hd. Qed.

Lemma until_stopped p f offset packets bl pl :
  p = prefix_until c offset packets bl pl -> offset <= zlen c ->
  f.(fs_pending) = [] -> f.(fs_admitted_bytes) = offset -> f.(fs_admitted_packets) = packets ->
  f.(fs_byte_limited) = bl -> f.(fs_packet_limited) = pl -> stopped_at p f.
Proof. intros -> **. unfold stopped_at; simpl. split_and!; done || lia. Qed.

(** The next step of [bounded_pcap_prefix] over a classic capture whose record
    header is [header]. *)
Definition classic_step (adm header : bytes) (f : FrameState) (p : PcapBytePrefix) : Prop :=
  f.(fs_byte_limited) = false /\ f.(fs_packet_limited) = false /\ zlen adm <= zlen c /\
  zlen header = 16 /\
  let packet_end := zlen adm + 16 + u32 f.(fs_endian) header 8 in
  if oversized bounds && (bounds.(cb_max_bytes) <? packet_end)
  then p = prefix_until c (zlen adm) f.(fs_admitted_packets) true false
  else packet_end <= zlen c /\ exists fuel,
    prefix_loop PCAP fuel f.(fs_endian) packet_end (f.(fs_admitted_packets) + 1) = Ok p.

Lemma classic_tracks adm hash f header k p :
  frame_safe adm hash f -> idle f -> f.(fs_format) = Some PCAP -> described ->
  zlen adm < bounds.(cb_expected_size) ->
  oversized bounds && (bounds.(cb_max_bytes) - zlen adm <? 16) = false ->
  f.(fs_admitted_packets) < bounds.(cb_max_packets) ->
  c = adm ++ header ++ k -> zlen header <= 16 -> (zlen header < 16 -> k = []) ->
  tracks p f -> classic_step adm header f p.
Proof.
  intros Hs Hi Hf Hd He Ho Hpk Hc Hlen Hshort Ht.
  destruct (idle_tracks _ _ _ _ _ Hs Hi Hf Ht)
    as (Hbl & Hpl & Hle & fuel & Hl%classic_prefix_inv).
  rewrite (described_limit Hd), Ho in Hl. rewrite Hd in He.
  rewrite (proj2 (Z.ltb_lt _ _)) in Hl by lia. unfold packets_exhausted in Hl.
  rewrite (proj2 (Z.leb_gt _ _)) in Hl by lia. destruct Hl as [H16 Hl].
  assert (zlen header = 16) as Hh16.
  { destruct (decide (zlen header < 16)) as [Hlt|]; [|lia].
    rewrite Hc, (Hshort Hlt), app_nil_r, zlen_app in H16. lia. }
  rewrite (u32_middle _ c adm header _ 8 Hc) in Hl by lia. split_and!; try done. cbv zeta in *.
  destruct (oversized bounds && (_ <? _ + _)); [done|]. destruct Hl. split; [done|]. by exists fuel.
Qed.

(** The record header [header] was read between two units. *)
Lemma classic_unit_prepared adm st header st' :
  safe adm st -> idle st.(bs_frame) -> st.(bs_frame).(fs_format) = Some PCAP ->
  st.(bs_frame).(fs_lookahead) = [] ->
  st.(bs_frame).(fs_admitted_packets) < bounds.(cb_max_packets) ->
  (oversized bounds = true -> zlen adm + 16 <= bounds.(cb_max_bytes)) ->
  phys c st' -> st'.(bs_hash) = adm ++ header -> zlen header <= 16 ->
  (described -> forall p, tracks p st.(bs_frame) -> classic_step adm header st.(bs_frame) p) ->
  prepared adm st (framed st' (classic_unit bounds (bounds.(cb_max_bytes) - zlen adm) header
                             st.(bs_frame))).
Proof.
  intros Hsafe Hidle Hfmt Hla Hpkt Hroom Hp' Hh' Hlen Hstep.
  pose proof (idle_packet _ _ _ Hsafe Hidle) as Hpk.
  pose proof (sf_admitted _ _ _ Hsafe) as Hadm. pose proof (safe_within _ _ _ Hsafe) as Hin.
  pose proof (idle_count _ _ _ _ Hsafe Hidle Hfmt) as Hcu.
  pose proof Hidle as (Hst & Hpe & Hre). pose proof (zlen_nonneg header) as Hnn.
  unfold classic_unit. cbv zeta.
  destruct (_ =? 0) eqn:F1; [|destruct (zlen header <? 16) eqn:F2;
    [|destruct ((_ <? 16 + _) && _) eqn:F3]]; reflect_bools.
  - apply stop_prepared; simpl; rewrite ?Hpe; try done.
    + by exists header.
    + by apply (counts_rest_short _ _ _ _ _ Hcu).
    + intros Hd p (_ & _ & _ & H16 & _)%(Hstep Hd). lia.
  - apply stop_prepared; simpl; rewrite ?Hpe; try done.
    + exists []. by rewrite app_nil_r.
    + simpl. intros Ho%Hroom. lia.
    + by apply (counts_rest_short _ _ _ _ _ Hcu).
    + intros Hd p (_ & _ & _ & H16 & _)%(Hstep Hd). lia.
  - apply stop_prepared; simpl; rewrite ?Hpe; try done.
    + by exists header.
    + by apply (counts_rest_short _ _ _ _ _ Hcu).
    + intros Hd p (? & ? & ? & _ & Hl)%(Hstep Hd). cbv zeta in Hl.
      rewrite H0, (proj2 (Z.ltb_lt _ _)) in Hl by lia. by apply (until_stopped _ _ _ _ _ _ Hl).
  - pose proof (u32_bound (fs_endian (bs_frame st)) header 8) as Hub.
    apply (start_prepared _ _ _ _ PCAP); unfold unit_end, unit_packets; simpl;
      rewrite ?Hpe, ?Hla, ?app_nil_r; try done; simpl; try lia.
    + by intros ->.
    + intros Ho. rewrite Ho in F3. lia.
    + assert (zlen header = 16) as H16 by lia.
      pose proof (counts_unit_start _ _ PCAP (fs_endian (bs_frame st)) header (16 + u32 (fs_endian (bs_frame st)) header 8) true
        (fs_endian (bs_frame st)) Hcu H16) as Hcs. unfold next_unit in Hcs. rewrite H16 in Hcs.
      specialize (Hcs eq_refl ltac:(cbn [header_size]; lia)). cbn [header_size] in Hcs.
      by replace (16 + u32 (fs_endian (bs_frame st)) header 8 - 16) with (u32 (fs_endian (bs_frame st)) header 8) in Hcs by lia.
    + intros Hd p (? & ? & ? & H16 & Hl)%(Hstep Hd). cbv zeta in Hl. rewrite H16, Hadm.
      destruct (oversized bounds && (cb_max_bytes bounds <? _)) eqn:F4; [|by destruct Hl].
      apply andb_prop in F4 as [Fo Fl]. rewrite Fo in F3. lia.
Qed.

Lemma prepare_classic_spec adm st :
  bounds_ok -> phys c st -> safe adm st -> idle st.(bs_frame) ->
  st.(bs_frame).(fs_format) = Some PCAP ->
  mspec c (_prepare_classic_record bounds) st (fun _ => prepared adm st).
Proof.
  intros Hb Hp Hsafe Hidle Hfmt. pose proof (idle_packet _ _ _ Hsafe Hidle) as Hpk.
  pose proof (idle_hash _ _ _ Hsafe Hidle) as Hh.
  pose proof (sf_lookahead _ _ _ Hsafe) as Hla. rewrite Hfmt in Hla.
  specialize (Hla ltac:(done)). rewrite Hla, app_nil_r in Hh.
  pose proof (fun p => idle_tracks p _ _ _ _ Hsafe Hidle Hfmt) as Htr.
  pose proof (sf_admitted _ _ _ Hsafe) as Hadm. pose proof (safe_within _ _ _ Hsafe) as Hin.
  pose proof (idle_count _ _ _ _ Hsafe Hidle Hfmt) as Hcu. pose proof Hidle as (Hst & Hpe & Hre).
  unfold _prepare_classic_record. apply mspec_get_frame. cbv zeta. rewrite Hadm.
  mspec_if E1; [|mspec_if E2; [|mspec_if E3]].
  1-3: apply mspec_set_frame; [done|]; apply stop_prepared; simpl; rewrite ?Hpe; try done;
    [by exists []; rewrite !app_nil_r|by apply (counts_rest_short _ _ _ _ _ Hcu)|
     intros Hd p (Hbl & Hpl & Hle & fuel & Ht%classic_prefix_inv)%Htr];
    rewrite (described_limit Hd), ?E2 in Ht; rewrite Hd in *; unfold packets_exhausted in Ht.
  - rewrite (proj2 (Z.ltb_ge _ _)) in Ht by lia. by apply (until_stopped _ _ _ _ _ _ Ht).
  - rewrite (proj2 (Z.ltb_lt _ _)) in Ht by lia. by apply (until_stopped _ _ _ _ _ _ Ht).
  - rewrite (proj2 (Z.ltb_lt _ _)), ?E3 in Ht by lia. by apply (until_stopped _ _ _ _ _ _ Ht).
  - eapply mspec_bind; [apply read_up_to_spec; [lia|done]|]. cbv beta.
    intros header st' Hp' (Hf & Hh' & Hlen & Hshort). apply mspec_get_frame. rewrite Hf.
    rewrite Hh in Hh'. apply mspec_set_frame; [done|].
    assert (c = adm ++ header ++ source_content (bs_source st')) as Hc'
      by (by rewrite app_assoc, <- Hh', (proj1 Hp')).
    apply classic_unit_prepared; try done; [lia| |].
    + intros Ho. rewrite Ho in E2. simpl in E2. lia.
    + intros Hd p. apply (classic_tracks _ _ _ _ _ _ Hsafe Hidle Hfmt Hd ltac:(lia) E2 ltac:(lia) Hc' Hlen).
      intros Hlt. specialize (Hshort Hlt). rewrite <- (proj1 Hp') in Hshort.
      rewrite <- (app_nil_r (bs_hash st')) in Hshort at 1. by apply app_inv_head in Hshort.
Qed.

(** *** PCAPNG blocks *)

(** The next step of [bounded_pcap_prefix] over a PCAPNG capture. *)
Definition ng_step (adm : bytes) (f : FrameState) (p : PcapBytePrefix) : Prop :=
  f.(fs_byte_limited) = false /\ f.(fs_packet_limited) = false /\ zlen adm + 12 <= zlen c /\
  exists e,
    (if bool_decide (slice (zlen adm) (zlen adm + 4) c = PCAPNG_SECTION)
     then section_endian (slice (zlen adm + 8) (zlen adm + 12) c) = Some e
     else e = f.(fs_endian)) /\
    let is_packet := is_packet_block (u32 e c (zlen adm)) in
    let block_length := u32 e c (zlen adm + 4) in
    if is_packet && (bounds.(cb_max_packets) <=? f.(fs_admitted_packets))
    then p = prefix_until c (zlen adm) f.(fs_admitted_packets) false true
    else
      (block_length <? 12) || negb (block_length mod 4 =? 0) = false /\
      if oversized bounds && (bounds.(cb_max_bytes) <? zlen adm + block_length)
      then p = prefix_until c (zlen adm) f.(fs_admitted_packets) true false
      else zlen adm + block_length <= zlen c /\ exists fuel,
        prefix_loop PCAPNG fuel e (zlen adm + block_length)
          (f.(fs_admitted_packets) + Z.b2z is_packet) = Ok p.

Lemma ng_tracks adm hash f p :
  frame_safe adm hash f -> idle f -> f.(fs_format) = Some PCAPNG -> described ->
  zlen adm < bounds.(cb_expected_size) ->
  oversized bounds && (bounds.(cb_max_bytes) - zlen adm <? 12) = false ->
  tracks p f -> ng_step adm f p.
Proof.
  intros Hs Hi Hf Hd He Ho Ht.
  destruct (idle_tracks _ _ _ _ _ Hs Hi Hf Ht) as (Hbl & Hpl & Hle & fuel & Hl%ng_prefix_inv).
  rewrite (described_limit Hd), Ho in Hl. rewrite Hd in He.
  rewrite (proj2 (Z.ltb_lt _ _)) in Hl by lia. destruct Hl as (H12 & e & He' & Hl).
  split_and!; [done|done|lia|]. exists e. split; [done|]. cbv zeta in *. unfold packets_exhausted in Hl.
  destruct (is_packet_block _ && _); [done|]. destruct Hl as [Hv Hl]. split; [done|].
  destruct (oversized bounds && (_ <? _ + _)); [done|]. destruct Hl. split; [done|]. by exists fuel.
Qed.

Lemma section_not_packet e (first : bytes) :
  first = PCAPNG_SECTION -> is_packet_block (u32 e first 0) = false.
Proof. intros ->. by destruct e. Qed.

(** The packet limit is checked with the byte order of the section that ends. *)
Lemma ng_not_exhausted (prefix : bytes) e0 e b :
  let is_section := bool_decide (ztake 4 prefix = PCAPNG_SECTION) in
  negb is_section && is_packet_block (u32 e0 (ztake 4 prefix) 0) && b = false ->
  (is_section = false -> e = e0) -> is_packet_block (u32 e prefix 0) && b = false.
Proof.
  intros is_section H He.
  assert (u32 e prefix 0 = u32 e (ztake 4 prefix) 0) as ->
    by (change (ztake 4) with (@slice byte 0 4); by rewrite u32_slice by lia).
  destruct is_section eqn:Es; [|by rewrite He].
  by rewrite section_not_packet by (by apply bool_decide_eq_true in Es).
Qed.

(** The byte order and block type the code reads from a block header agree with
    those [bounded_pcap_prefix] reads at the same place. *)
Lemma ng_header_step adm f prefix k p :
  c = adm ++ prefix ++ k -> zlen prefix = 12 -> ng_step adm f p ->
  let is_section := bool_decide (ztake 4 prefix = PCAPNG_SECTION) in
  negb is_section && is_packet_block (u32 f.(fs_endian) (ztake 4 prefix) 0)
    && (bounds.(cb_max_packets) <=? f.(fs_admitted_packets)) = false ->
  let e := if is_section then
             match section_endian (slice 8 12 prefix) with
             | Some e => e | None => f.(fs_endian) end
           else f.(fs_endian) in
  let block_length := u32 e prefix 4 in
  f.(fs_byte_limited) = false /\ f.(fs_packet_limited) = false /\ zlen adm + 12 <= zlen c /\
  (block_length <? 12) || negb (block_length mod 4 =? 0) = false /\
  if oversized bounds && (bounds.(cb_max_bytes) <? zlen adm + block_length)
  then p = prefix_until c (zlen adm) f.(fs_admitted_packets) true false
  else zlen adm + block_length <= zlen c /\ exists fuel,
    prefix_loop PCAPNG fuel e (zlen adm + block_length)
      (f.(fs_admitted_packets) + Z.b2z (is_packet_block (u32 e prefix 0))) = Ok p.
Proof.
  intros Hc Hlen (Hbl & Hpl & H12 & e' & He & Hl) is_section Hnp.
  pose proof (slice_middle _ _ _ _ Hc) as Hsl. rewrite Hlen in Hsl. pose proof (zlen_nonneg adm).
  assert (slice (zlen adm) (zlen adm + 4) c = ztake 4 prefix) as Hty.
  { rewrite <- Hsl. change (ztake 4) with (@slice byte 0 4). rewrite slice_slice by lia.
    f_equal; lia. }
  assert (slice (zlen adm + 8) (zlen adm + 12) c = slice 8 12 prefix) as Hbom
    by (by rewrite <- Hsl, slice_slice by lia).
  rewrite Hty, Hbom in He. fold is_section in He.
  assert ((if is_section then match section_endian (slice 8 12 prefix) with
             | Some e => e | None => f.(fs_endian) end else f.(fs_endian)) = e') as ->
    by (destruct is_section; [by rewrite He|done]).
  cbv zeta in *. rewrite (u32_middle e' c adm prefix k 4 Hc) in Hl by lia.
  pose proof (u32_middle e' c adm prefix k 0 Hc) as Hu. rewrite Z.add_0_r in Hu.
  rewrite Hu in Hl by lia.
  rewrite (ng_not_exhausted _ _ e' _ Hnp) in Hl by (fold is_section; by intros ->).
  destruct Hl as [Hv Hl]. by split_and!.
Qed.

(** All twelve bytes [prefix] of the block header were read between two units. *)
Lemma ng_unit_prepared adm st st' l prefix :
  safe adm st -> idle st.(bs_frame) -> st.(bs_frame).(fs_format) = Some PCAPNG ->
  phys c st' -> st'.(bs_hash) = adm ++ prefix ++ l -> zlen prefix = 12 ->
  (described -> forall p, tracks p st.(bs_frame) -> ng_step adm st.(bs_frame) p) ->
  (oversized bounds = true -> zlen adm + 12 <= bounds.(cb_max_bytes)) ->
  let f := with_lookahead l st.(bs_frame) in
  let is_section := bool_decide (ztake 4 prefix = PCAPNG_SECTION) in
  negb is_section && is_packet_block (u32 f.(fs_endian) (ztake 4 prefix) 0)
    && (bounds.(cb_max_packets) <=? f.(fs_admitted_packets)) = false ->
  prepared adm st (framed st' (ng_unit bounds (bounds.(cb_max_bytes) - zlen adm) is_section prefix f)).
Proof.
  intros Hsafe Hidle Hfmt Hp' Hh' Hlen Hstep Hroom f is_section Hpl.
  pose proof (idle_packet _ _ _ Hsafe Hidle) as Hpk.
  pose proof (sf_admitted _ _ _ Hsafe) as Hadm. pose proof (safe_within _ _ _ Hsafe) as Hin.
  pose proof (sf_packets _ _ _ Hsafe) as Hpm. rewrite Hpk in Hpm.
  pose proof (idle_count _ _ _ _ Hsafe Hidle Hfmt) as Hcu. pose proof Hidle as (Hst & Hpe & Hre).
  assert (c = adm ++ prefix ++ l ++ source_content (bs_source st')) as Hc'
    by (rewrite <- (proj1 Hp'), Hh'; by rewrite <- !app_assoc).
  pose proof (fun Hd p Ht => ng_header_step _ _ _ _ _ Hc' Hlen (Hstep Hd p Ht) Hpl) as Hnext.
  change (fs_endian f) with (fs_endian (bs_frame st)) in *.
  unfold ng_unit. change (fs_endian f) with (fs_endian (bs_frame st)).
  set (e := if bool_decide _ then _ else _) in Hnext.
  set (e0 := if is_section then _ else _). change e0 with e. cbv zeta in *.
  destruct (_ || _) eqn:F1; [|destruct ((_ <? _) && _) eqn:F2]; reflect_bools.
  - apply stop_prepared; simpl; rewrite ?Hpe; try done.
    + by exists l.
    + simpl. intros Ho. rewrite Hlen. by apply Hroom.
    + eapply counts_rest_idle; [exact Hcu|]. intros q Hq. eapply count_packets_invalid; [exact Hlen| |exact Hq].
      unfold next_unit. rewrite Hlen. cbv zeta. change (12 <? header_size PCAPNG) with false. cbn iota. fold e. by rewrite F1.
    + intros Hd p (_ & _ & _ & Hv & _)%(Hnext Hd). congruence.
  - apply stop_prepared; simpl; rewrite ?Hpe; try done.
    + by exists (prefix ++ l).
    + by apply (counts_rest_short _ _ _ _ _ Hcu).
    + intros Hd p (? & ? & ? & _ & Hl)%(Hnext Hd). rewrite H0, (proj2 (Z.ltb_lt _ _)) in Hl by lia.
      assert (zlen adm <= zlen c) by lia. by apply (until_stopped _ _ _ _ _ _ Hl).
  - apply (start_prepared _ _ _ _ PCAPNG); unfold unit_end, unit_packets; simpl;
      rewrite ?Hpe, ?Hlen; try done; simpl; try lia.
    + intros ->. done.
    + intros Ho. rewrite Ho in F2. lia.
    + pose proof (ng_not_exhausted prefix _ e _ Hpl ltac:(intros Hs; unfold e; by rewrite Hs)) as Hex.
      unfold f in Hex. simpl in Hex, Hpm. unfold Z.b2z in *. destruct (is_packet_block (u32 e prefix 0)); simpl in Hex; lia.
    + eapply (counts_unit_start _ _ PCAPNG); [exact Hcu|exact Hlen| |cbn [header_size]; lia].
      unfold next_unit. rewrite Hlen. cbv zeta. change (12 <? header_size PCAPNG) with false. cbn iota. fold e.
      rewrite (proj2 (Z.ltb_ge (u32 e prefix 4) 12)) by lia. simpl. by rewrite H0.
    + intros Hd p (? & ? & ? & _ & Hl)%(Hnext Hd). rewrite Hadm.
      destruct (oversized bounds && (cb_max_bytes bounds <? _)) eqn:F4.
      { apply andb_prop in F4 as [Fo Fl]. rewrite Fo in F2. lia. }
      replace (zlen adm + zlen prefix + (u32 e prefix 4 - 12)) with (zlen adm + u32 e prefix 4) by lia.
      by destruct Hl as [? ?].
Qed.

Lemma prepare_ng_spec adm st :
  phys c st -> safe adm st -> idle st.(bs_frame) ->
  st.(bs_frame).(fs_format) = Some PCAPNG ->
  mspec c (_prepare_ng_block bounds) st (fun _ => prepared adm st).
Proof.
  intros Hp Hsafe Hidle Hfmt. pose proof (idle_packet _ _ _ Hsafe Hidle) as Hpk.
  pose proof (idle_hash _ _ _ Hsafe Hidle) as Hh.
  pose proof (fun p => idle_tracks p _ _ _ _ Hsafe Hidle Hfmt) as Htr.
  pose proof (sf_admitted _ _ _ Hsafe) as Hadm. pose proof (safe_within _ _ _ Hsafe) as Hin.
  pose proof (idle_count _ _ _ _ Hsafe Hidle Hfmt) as Hcu. pose proof Hidle as (Hst & Hpe & Hre).
  unfold _prepare_ng_block. apply mspec_get_frame. cbv zeta. rewrite Hadm.
  mspec_if E1; [|mspec_if E2].
  1-2: apply mspec_set_frame; [done|]; apply stop_prepared; simpl; rewrite ?Hpe; try done;
    [by exists (fs_lookahead (bs_frame st))|by apply (counts_rest_short _ _ _ _ _ Hcu)|
     intros Hd p (Hbl & Hpl & Hle & fuel & Ht%ng_prefix_inv)%Htr];
    rewrite (described_limit Hd), ?E2 in Ht; rewrite Hd in *.
  - rewrite (proj2 (Z.ltb_ge _ _)) in Ht by lia. by apply (until_stopped _ _ _ _ _ _ Ht).
  - rewrite (proj2 (Z.ltb_lt _ _)) in Ht by lia. by apply (until_stopped _ _ _ _ _ _ Ht).
  - assert (oversized bounds = true -> zlen adm + 12 <= bounds.(cb_max_bytes)) as Hroom
      by (intros Ho; rewrite Ho in E2; simpl in E2; lia).
    pose proof (fun Hd p Ht => ng_tracks _ _ _ p Hsafe Hidle Hfmt Hd ltac:(lia) E2 Ht) as Hstep.
    eapply mspec_bind; [apply (take_physical_spec c 4 adm); [lia|done|done]|]. cbv beta.
    intros first st1 Hp1 (l1 & Hf1 & Hh1 & Hlen1 & Hshort1 & _). apply mspec_get_frame. rewrite Hf1.
    pose proof (zlen_nonneg first) as Hn1.
    assert (zlen first < 4 -> zlen c <= zlen adm + zlen first) as Hend1.
    { intros Hlt. destruct (Hshort1 Hlt) as [<- _]. rewrite zlen_app. lia. }
    mspec_if F1; [|mspec_if F2]; reflect_bools.
    + apply mspec_set_frame; [done|]; apply stop_prepared; simpl; rewrite ?Hpe, ?Hfmt; try done.
      * by exists (first ++ l1).
      * by apply (counts_rest_short _ _ _ _ _ Hcu).
      * intros Hd p (_ & _ & H12 & _)%(Hstep Hd). lia.
    + apply mspec_set_frame; [done|]; apply stop_prepared; simpl; rewrite ?Hpe, ?Hfmt; try done.
      * by exists l1.
      * simpl. intros Ho%Hroom. lia.
      * apply (counts_rest_short _ _ _ _ _ Hcu). cbn [header_size app]. lia.
      * intros Hd p (_ & _ & H12 & _)%(Hstep Hd). lia.
    + cbv zeta. mspec_if F3.
      * apply mspec_set_frame; [done|]; apply stop_prepared; simpl; rewrite ?Hpe, ?Hfmt; try done.
        -- by exists (first ++ l1).
        -- by apply (counts_rest_short _ _ _ _ _ Hcu).
        -- intros Hd p (? & ? & ? & e' & He' & Hl)%(Hstep Hd). cbv zeta in Hl.
           assert (c = adm ++ first ++ l1 ++ source_content (bs_source st1)) as Hc1
             by (rewrite <- (proj1 Hp1), Hh1; by rewrite <- !app_assoc).
           pose proof (slice_middle _ _ _ _ Hc1) as Hsl. rewrite (Z.le_antisymm _ _ Hlen1 F2) in Hsl.
           pose proof (u32_middle e' _ _ _ _ 0 Hc1 ltac:(lia) ltac:(lia)) as Hu.
           rewrite Z.add_0_r in Hu. rewrite Hsl in He'. rewrite Hu in Hl.
           apply andb_prop in F3 as [[F3 F4]%andb_prop F5]. simpl in F4, F5.
           apply negb_true_iff in F3. rewrite F3 in He'. rewrite He', F4, F5 in Hl.
           assert (zlen adm <= zlen c) by lia. by apply (until_stopped _ _ _ _ _ _ Hl).
      * eapply mspec_bind; [apply (take_physical_spec c 8 (adm ++ first)); [lia|done|]|].
        { rewrite Hh1, Hf1. simpl. by rewrite app_assoc. }
        cbv beta. intros rest st2 Hp2 (l2 & Hf2 & Hh2 & Hlen2 & Hshort2 & _).
        apply mspec_get_frame. rewrite Hf2, Hf1. rewrite <- app_assoc in Hh2, Hshort2.
        mspec_if F4; reflect_bools.
        -- apply mspec_set_frame; [done|]; apply stop_prepared; simpl; rewrite ?Hpe, ?Hfmt; try done.
           ++ exists l2. simpl. by rewrite <- app_assoc.
           ++ simpl. rewrite zlen_app. intros Ho%Hroom. lia.
           ++ apply (counts_rest_short _ _ _ _ _ Hcu). cbn [header_size app]. rewrite zlen_app. lia.
           ++ intros Hd p (_ & _ & H12 & _)%(Hstep Hd).
              destruct (Hshort2 F4) as [Hc2 _]. rewrite <- Hc2, !zlen_app in H12. lia.
        -- assert (ztake 4 (first ++ rest) = first) as Hz by (apply ztake_app_exact; lia).
           pose proof (ng_unit_prepared adm st st2 l2 (first ++ rest)) as Hk. cbv zeta in Hk.
           rewrite Hz in Hk. apply mspec_set_frame; [done|]. apply Hk; auto.
           ++ by rewrite <- app_assoc.
           ++ rewrite zlen_app. lia.
Qed.

(** *** The first unit *)

(** What [bounded_pcap_prefix] decides from the first bytes [prefix]. *)
Definition initial_next (prefix : bytes) (p : PcapBytePrefix) : Prop :=
  match CLASSIC_MAGIC (ztake 4 prefix) with
  | Some (e, _) => zlen prefix = 24 /\ exists fuel, prefix_loop PCAP fuel e 24 0 = Ok p
  | None =>
      ztake 4 prefix = PCAPNG_SECTION /\ 12 <= zlen prefix /\ exists e,
      section_endian (slice 8 12 prefix) = Some e /\
      let block_length := u32 e prefix 4 in
      (block_length <? 12) || negb (block_length mod 4 =? 0) = false /\
      if oversized bounds && (bounds.(cb_max_bytes) <? block_length)
      then p = prefix_until c 0 0 true false
      else block_length <= zlen c /\ exists fuel, prefix_loop PCAPNG fuel e block_length 0 = Ok p
  end.

Lemma initial_step prefix k p :
  described -> 24 <= bounds.(cb_max_bytes) -> c = prefix ++ k -> zlen prefix <= 24 -> (zlen prefix < 24 -> k = []) ->
  bounded_pcap_prefix c bounds.(cb_max_bytes) (Some bounds.(cb_max_packets)) = Ok p ->
  initial_next prefix p.
Proof.
  intros Hd Hmax Hc Hlen Hk Hp. pose proof (zlen_nonneg prefix).
  assert (ztake 4 c = ztake 4 prefix) as Hm.
  { destruct (decide (zlen prefix < 24)) as [Hlt|]; [by rewrite Hc, (Hk Hlt), app_nil_r|].
    rewrite Hc. unfold ztake. rewrite take_app_le; [done|]. unfold zlen in *. lia. }
  assert (zlen prefix < 24 -> zlen c = zlen prefix) as Hall
    by (intros Hlt; by rewrite Hc, (Hk Hlt), app_nil_r).
  unfold initial_next. unfold bounded_pcap_prefix in Hp. rewrite Hm in Hp.
  apply bind_Ok in Hp as (? & _ & Hp). apply bind_Ok in Hp as (? & _ & Hp). cbv zeta in Hp.
  destruct (CLASSIC_MAGIC _) as [[e r]|].
  - apply bind_Ok in Hp as (? & H24%raise_if_Ok & Hp). reflect_bools.
    rewrite (proj2 (Z.ltb_ge _ _)) in Hp by lia. split; [|by eexists].
    destruct (decide (zlen prefix < 24)) as [Hlt%Hall|]; lia.
  - case_bool_decide as Hsec; [|done]. split; [done|].
    pose proof (f_equal zlen Hsec) as Hl4. rewrite zlen_ztake in Hl4 by lia.
    change (zlen PCAPNG_SECTION) with 4 in Hl4.
    apply ng_prefix_inv in Hp. rewrite (described_limit Hd) in Hp.
    assert (0 < zlen c) by (rewrite Hc, zlen_app; pose proof (zlen_nonneg k); lia).
    rewrite (proj2 (Z.ltb_lt 0 _)), (proj2 (Z.ltb_ge (_ - 0) 12)), andb_false_r in Hp by lia.
    destruct Hp as (H12 & e & He & Hp).
    assert (12 <= zlen prefix) as Hp12 by (destruct (decide (zlen prefix < 24)) as [Hlt%Hall|]; lia).
    split; [done|]. exists e. change (slice 0 (0 + 4) c) with (ztake 4 c) in He.
    rewrite Hm, bool_decide_true in He by done.
    pose proof (slice_middle c [] prefix k Hc) as Hsl. rewrite zlen_nil in Hsl. simpl in Hsl.
    assert (slice (0 + 8) (0 + 12) c = slice 8 12 prefix) as Hbom
      by (by rewrite <- Hsl, slice_slice by lia).
    pose proof (u32_middle e c [] prefix k 4 Hc ltac:(lia) ltac:(lia)) as Hu4.
    pose proof (u32_middle e c [] prefix k 0 Hc ltac:(lia) ltac:(lia)) as Hu0.
    rewrite zlen_nil in Hu4, Hu0. cbv zeta in Hp. rewrite !Z.add_0_l in *.
    rewrite Hbom in He. split; [done|]. rewrite Hu4, Hu0 in Hp. cbv zeta.
    assert (is_packet_block (u32 e prefix 0) = false) as Hnp.
    { pose proof (ng_not_exhausted prefix e e true) as Hn. rewrite Hsec, bool_decide_true in Hn by done.
      rewrite <- (andb_true_r (is_packet_block _)). by apply Hn. }
    rewrite Hnp in Hp. simpl in Hp. destruct Hp as [Hv Hp]. split; [done|].
    destruct (oversized bounds && _); [done|]. destruct Hp. split; [done|]. by eexists.
Qed.

Lemma bounded_prefix_nonempty p :
  bounded_pcap_prefix c bounds.(cb_max_bytes) (Some bounds.(cb_max_packets)) = Ok p -> 0 < zlen c.
Proof.
  intros Hp. destruct c as [|b c']; [|rewrite zlen_cons; pose proof (zlen_nonneg c'); lia].
  unfold bounded_pcap_prefix in Hp. apply bind_Ok in Hp as (? & _ & Hp). by apply bind_Ok in Hp as (? & _ & Hp).
Qed.

(** The first bytes [prefix] were read. *)
Lemma initial_unit_prepared st st' prefix k :
  safe [] st -> idle st.(bs_frame) -> st.(bs_frame).(fs_format) = None ->
  st.(bs_frame).(fs_lookahead) = [] -> 24 <= bounds.(cb_max_bytes) ->
  phys c st' -> st'.(bs_hash) = prefix -> c = prefix ++ k -> zlen prefix <= 24 ->
  (described -> forall p, tracks p st.(bs_frame) ->
     fs_byte_limited (bs_frame st) = false /\ fs_packet_limited (bs_frame st) = false /\
     fs_admitted_packets (bs_frame st) = 0 /\ initial_next prefix p) ->
  prepared [] st (framed st' (initial_unit bounds prefix st.(bs_frame))).
Proof.
  intros Hsafe Hidle Hfmt Hla Hmax Hp' Hh' Hc Hlen Hstep.
  pose proof (idle_packet _ _ _ Hsafe Hidle) as Hpk.
  pose proof (sf_admitted _ _ _ Hsafe) as Hadm. rewrite zlen_nil in Hadm.
  pose proof (sf_packets _ _ _ Hsafe) as Hpm. rewrite Hpk in Hpm.
  pose proof Hidle as (Hst & Hpe & Hre). unfold initial_unit. cbv zeta.
  assert (fs_admitted_packets (bs_frame st) = 0) as Hcn.
  { pose proof (sf_count _ _ _ Hsafe) as H. unfold counted in H. by rewrite Hst, Hfmt in H. }
  assert (forall y, y `prefix_of` prefix -> zlen y <= zlen prefix) as Hpz
    by (intros y [k' ->]; rewrite zlen_app; pose proof (zlen_nonneg k'); lia).
  assert (forall f', halts st.(bs_frame) f' -> fs_pending f' = prefix -> fs_lookahead f' = [] ->
    (forall y, y `prefix_of` prefix -> whole_packets y = 0) ->
    (described -> forall p, tracks p st.(bs_frame) -> initial_next prefix p -> False) ->
    prepared [] st (framed st' f')) as Hstop.
  { intros f' Hf Hpf Hlf Hy Hno. apply stop_prepared; rewrite ?Hpf, ?Hlf; try done; [| |by rewrite Hcn|].
    - exists []. by rewrite app_nil_r.
    - intros _. rewrite zlen_nil. lia.
    - intros Hd p Ht. destruct (Hno Hd p Ht). by apply Hstep. }
  destruct (_ <? 4) eqn:F1.
  { apply Hstop; simpl; rewrite ?Hpe; try done.
    { intros y Hy%Hpz. apply whole_packets_short. lia. }
    intros Hd p _ Hn. unfold initial_next in Hn.
    destruct (CLASSIC_MAGIC _) as [[??]|]; [|destruct Hn as (_ & Hn & _)]; lia. }
  unfold initial_next in *. destruct (CLASSIC_MAGIC _) as [[e r]|] eqn:Hm.
  - destruct (_ <? 24) eqn:F2.
    + apply Hstop; simpl; rewrite ?Hpe; try done.
      { intros y Hy. rewrite (whole_packets_magic y prefix Hy), Hm. apply Hpz in Hy.
        rewrite (proj2 (Z.ltb_lt (zlen y) 24)) by lia. destruct (zlen y <? 4); done. }
      intros Hd p _ [? _]. lia.
    + apply (start_prepared _ _ _ _ PCAP); unfold unit_end, unit_packets; simpl;
        rewrite ?Hpe, ?Hla, ?Hpk, ?Hre, ?app_nil_r; try done; simpl; try lia.
      * by intros ->.
      * rewrite Hcn. by eapply first_classic_counts; [exact Hm|lia].
      * intros Hd p (? & ? & Hp0 & H24 & Hl)%(Hstep Hd). rewrite Hadm, Hp0, H24. split_and!; try done.
        rewrite Hc, zlen_app. pose proof (zlen_nonneg k). lia.
  - destruct (negb _) eqn:F2.
    { apply Hstop; simpl; rewrite ?Hpe; try done.
      { intros y Hy. rewrite (whole_packets_magic y prefix Hy), Hm.
        apply negb_true_iff in F2. rewrite F2. destruct (zlen y <? 4); done. }
      intros Hd p _ [Hs _].
      apply negb_true_iff, bool_decide_eq_false in F2. done. }
    destruct (_ <? 12) eqn:F3.
    { apply Hstop; simpl; rewrite ?Hpe; try done.
      { intros y Hy%Hpz. apply whole_packets_short. lia. }
      intros Hd p _ (_ & ? & _). lia. }
    assert (ztake 4 prefix = PCAPNG_SECTION) as Hsec by (by apply negb_false_iff, bool_decide_eq_true in F2).
    set (e := if bool_decide _ then LE else BE).
    assert (forall e', section_endian (slice 8 12 prefix) = Some e' -> e' = e) as He.
    { unfold section_endian, e. intros e'. repeat destruct (bool_decide _); congruence. }
    destruct (_ || _) eqn:F4.
    { apply Hstop; simpl; rewrite ?Hpe; try done.
      { intros y Hy. by eapply first_block_invalid; [exact Hm|exact Hsec|lia|exact F4|exact Hy]. }
      intros Hd p _ (_ & _ & e' & ->%He & Hv & _). congruence. }
    assert (described -> forall p, tracks p (bs_frame st) ->
     fs_byte_limited (bs_frame st) = false /\ fs_packet_limited (bs_frame st) = false /\
     fs_admitted_packets (bs_frame st) = 0 /\
     if oversized bounds && (bounds.(cb_max_bytes) <? u32 e prefix 4)
      then p = prefix_until c 0 0 true false
      else u32 e prefix 4 <= zlen c /\
        exists fuel, prefix_loop PCAPNG fuel e (u32 e prefix 4) 0 = Ok p) as Hnext.
    { intros Hd p (? & ? & ? & _ & _ & e' & He' & _ & Hl)%(Hstep Hd). by rewrite (He e' He') in Hl. }
    clear Hstep Hstop. reflect_bools.
    destruct ((_ <? u32 e prefix 4) && _) eqn:F5; [|destruct (_ <? zlen prefix) eqn:F6]; reflect_bools.
    + apply stop_prepared; simpl; try done; [by exists prefix|intros _; change (0 <= cb_max_bytes bounds); lia| |].
      { intros q ->%prefix_nil_inv. by rewrite Hcn. }
      intros Hd p (? & ? & ? & Hl)%(Hnext Hd). rewrite H2, (proj2 (Z.ltb_lt _ _)) in Hl by lia.
      pose proof (zlen_nonneg c). by apply (until_stopped _ _ _ _ _ _ Hl).
    + rewrite (andb_comm (oversized _)), F5 in Hnext.
      pose proof (ztake_zdrop (u32 e prefix 4) prefix) as Htd.
      assert (zlen (ztake (u32 e prefix 4) prefix) = u32 e prefix 4) as Hzl by (rewrite zlen_ztake; lia).
      apply (start_prepared _ _ _ _ PCAPNG); unfold unit_end, unit_packets; simpl;
        rewrite ?Hpe, ?Hla, ?Hpk, ?Hre; try done; simpl; rewrite ?Htd; try done; try lia.
      * intros Hz%(f_equal zlen). rewrite Hzl, zlen_nil in Hz. lia.
      * pose proof (first_block_counts prefix (ztake (u32 e prefix 4) prefix) Hm Hsec ltac:(lia)) as Hcu. fold e in Hcu.
        rewrite Hzl, Z.sub_diag in Hcu. rewrite Hcn. apply Hcu; [done|lia|lia| |lia]. by exists (zdrop (u32 e prefix 4) prefix).
      * intros Hd p (? & ? & Hp0 & Hl)%(Hnext Hd). rewrite Hadm, Hp0, Hzl, Z.add_0_r. by destruct Hl.
    + rewrite (andb_comm (oversized _)), F5 in Hnext.
      apply (start_prepared _ _ _ _ PCAPNG); unfold unit_end, unit_packets; simpl;
        rewrite ?Hpe, ?Hla, ?Hpk, ?Hre, ?app_nil_r; try done; simpl; try lia.
      * by intros ->.
      * intros Ho. rewrite Ho, andb_true_r in F5. lia.
      * pose proof (first_block_counts prefix prefix Hm Hsec ltac:(lia)) as Hcu. fold e in Hcu.
        rewrite Hcn. apply Hcu; [done|lia|lia|reflexivity|lia].
      * intros Hd p (? & ? & Hp0 & Hl)%(Hnext Hd). rewrite Hadm, Hp0.
        replace (0 + zlen prefix + (u32 e prefix 4 - zlen prefix)) with (u32 e prefix 4) by lia.
        by destruct Hl.
Qed.

Lemma prepare_initial_spec adm st :
  bounds_ok -> phys c st -> safe adm st -> idle st.(bs_frame) ->
  st.(bs_frame).(fs_format) = None ->
  mspec c (_prepare_initial bounds) st (fun _ => prepared adm st).
Proof.
  intros Hb Hp Hsafe Hidle Hfmt. pose proof (idle_packet _ _ _ Hsafe Hidle) as Hpk.
  pose proof Hidle as (Hst & Hpe & Hre).
  destruct (sf_fresh _ _ _ Hsafe Hfmt Hst) as [-> _]. pose proof (idle_hash _ _ _ Hsafe Hidle) as Hh.
  pose proof (sf_lookahead _ _ _ Hsafe) as Hla. rewrite Hfmt in Hla.
  specialize (Hla ltac:(done)). rewrite Hla in Hh. simpl in Hh.
  unfold _prepare_initial. apply mspec_get_frame. mspec_if E1.
  - apply mspec_set_frame; [done|]. apply stop_prepared; simpl; rewrite ?Hpe; try done.
    + by exists [].
    + by apply (safe_within _ _ _ Hsafe).
    + intros q ->%prefix_nil_inv. pose proof (sf_count _ _ _ Hsafe) as Hcn. unfold counted in Hcn.
      rewrite Hst, Hfmt in Hcn. by rewrite Hcn.
    + intros Hd p Ht. unfold tracks in Ht. rewrite Hst, Hfmt in Ht. destruct Ht as (? & ? & Hp0 & p0 & Hbp & ->).
      unfold unit_packets in Hp0. rewrite Hpk in Hp0. apply bounded_prefix_nonempty in Hbp. unfold reader_prefix.
      rewrite E1. unfold stopped_at. simpl in *.
      rewrite (sf_admitted _ _ _ Hsafe), Hpe. split_and!; try done; [lia|]. apply Z.ltb_lt. unfold described in Hd. lia.
  - set (n := if _ <=? _ then 24 else _). assert (0 <= n <= 24) by (unfold n, bounds_ok in *; case_match; lia).
    eapply mspec_bind; [apply read_up_to_spec; [lia|done]|]. cbv beta.
    intros prefix st' Hp' (Hf & Hh' & Hlen & Hshort). apply mspec_get_frame. rewrite Hf.
    rewrite Hh in Hh'. simpl in Hh'. apply mspec_set_frame; [done|].
    pose proof (proj1 Hp') as Hc. symmetry in Hc. rewrite Hh' in Hc.
    eapply initial_unit_prepared; [done..|lia|done|done|exact Hc|lia|].
    intros Hd p Ht. unfold tracks in Ht. rewrite Hst, Hfmt in Ht.
    destruct Ht as (? & ? & Hp0 & p0 & Hbp & ->). unfold unit_packets in Hp0. rewrite Hpk in Hp0.
    unfold reader_prefix. rewrite E1. split_and!; [done|done|simpl in Hp0; lia|].
    apply (initial_step _ _ _ Hd ltac:(lia) Hc); [lia| |done].
    intros Hlt. unfold described in Hd. apply zlen_0_nil.
    pose proof (f_equal zlen Hc) as Hz. rewrite zlen_app in Hz. rewrite Hh' in Hshort.
    destruct (decide (zlen prefix < n)) as [Hn|Hn]; [rewrite (Hshort Hn) in *; lia|].
    unfold n in *. destruct (24 <=? cb_expected_size bounds); lia.
Qed.

Lemma prepare_spec adm st :
  bounds_ok -> phys c st -> safe adm st ->
  mspec c (_prepare bounds) st (fun _ => prepared adm st).
Proof.
  intros Hb Hp Hsafe. unfold _prepare. apply mspec_get_frame. mspec_if E.
  - apply mspec_ret; [done|]. split; [by split|]. intros (Hs & Hpe & Hr).
    by rewrite Hs, Hpe, Hr in E.
  - reflect_bools. assert (idle st.(bs_frame)) as Hidle by (repeat split; auto using zlen_0_nil).
    destruct st.(bs_frame).(fs_format) as [[]|] eqn:Hf.
    + by apply prepare_classic_spec.
    + by apply prepare_ng_spec.
    + by apply prepare_initial_spec.
Qed.

(** *** Handing out a unit *)

(** What handing out a part of the current unit changes of the framing. *)
Definition advances (f f' : FrameState) : Prop :=
  f'.(fs_stopped) = f.(fs_stopped) /\ f'.(fs_format) = f.(fs_format) /\
  f'.(fs_endian) = f.(fs_endian) /\ f'.(fs_byte_limited) = f.(fs_byte_limited) /\
  f'.(fs_packet_limited) = f.(fs_packet_limited) /\
  unit_end f' = unit_end f /\ unit_packets f' = unit_packets f.

Lemma advance_kept adm part st st' f' mid :
  safe adm st -> advances st.(bs_frame) f' ->
  fs_pending st.(bs_frame) <> [] \/ fs_stopped st.(bs_frame) = false /\ fs_unit_remaining st.(bs_frame) <> 0 ->
  f'.(fs_admitted_bytes) = zlen (adm ++ part) -> 0 <= f'.(fs_unit_remaining) ->
  f'.(fs_unit_remaining) <= fs_unit_remaining st.(bs_frame) ->
  st'.(bs_hash) = (adm ++ part) ++ f'.(fs_pending) ++ mid ->
  (f'.(fs_stopped) = false -> mid = f'.(fs_lookahead)) ->
  (f'.(fs_pending) = [] -> f'.(fs_unit_remaining) = 0 -> f'.(fs_unit_is_packet) = false) ->
  (f'.(fs_format) <> Some PCAPNG -> f'.(fs_lookahead) = []) -> counted (adm ++ part) f' ->
  kept (adm ++ part) st (framed st' f').
Proof.
  intros Hs (Hst & Hfm & He & Hbl & Hpl & Hue & Hup) Hbusy Ha Hr Hrle Hh Hm Hi Hl Hcn. destruct Hs.
  split.
  - constructor; simpl; try done.
    + by exists mid.
    + intros Hf. rewrite Hst in Hf. specialize (sf_stopped0 Hf). lia.
    + intros Ho. specialize (sf_bytes0 Ho). unfold unit_end in Hue. lia.
    + unfold unit_packets in Hup. lia.
    + intros Hn Hf. rewrite Hfm in Hn. rewrite Hst in Hf.
      destruct (sf_fresh0 Hn Hf) as (_ & ? & ?). naive_solver.
  - intros Hd p. unfold tracks. simpl. rewrite Hst, Hfm, He, Hue, Hup, Hbl, Hpl.
    destruct (fs_stopped _); [|done]. intros [? _]. naive_solver.
Qed.

(** The unit is complete or not; either way its end and its packets stay. *)
Lemma complete_unit_same f :
  f.(fs_unit_remaining) = 0 -> f.(fs_pending) = [] ->
  advances f (_complete_unit f) /\ fs_unit_is_packet (_complete_unit f) = false.
Proof.
  intros Hr Hp. unfold advances, _complete_unit, unit_end, unit_packets.
  destruct (fs_unit_is_packet f) eqn:E; simpl; rewrite ?E; simpl; split_and!; try done; lia.
Qed.

Lemma settle_spec f (b : bool) :
  (b = true <-> f.(fs_pending) = [] /\ f.(fs_unit_remaining) = 0) ->
  let g := if b then _complete_unit f else f in
  advances f g /\ g.(fs_unit_remaining) = f.(fs_unit_remaining) /\
  g.(fs_pending) = f.(fs_pending) /\ g.(fs_admitted_bytes) = f.(fs_admitted_bytes) /\
  g.(fs_lookahead) = f.(fs_lookahead) /\
  (g.(fs_pending) = [] -> g.(fs_unit_remaining) = 0 -> g.(fs_unit_is_packet) = false).
Proof.
  intros Hb g. unfold g. destruct b.
  - destruct Hb as [Hb _]. destruct (Hb eq_refl) as [Hp Hr].
    destruct (complete_unit_same f Hr Hp) as [??]. split_and!; try done.
    all: unfold _complete_unit; by destruct (fs_unit_is_packet f).
  - split_and!; try done. intros Hp Hr. destruct Hb as [_ Hb]. by specialize (Hb (conj Hp Hr)).
Qed.

Lemma advances_trans f g h : advances f g -> advances g h -> advances f h.
Proof. unfold advances. intuition congruence. Qed.

(** The format is known once there is something to hand out. *)
Lemma busy_format adm hash f :
  frame_safe adm hash f -> f.(fs_stopped) = false -> f.(fs_pending) <> [] \/ f.(fs_unit_remaining) <> 0 ->
  exists fmt, f.(fs_format) = Some fmt.
Proof.
  intros H Hs Hb. destruct (fs_format f) as [fmt|] eqn:Hf; [by exists fmt|].
  destruct (sf_fresh _ _ _ H Hf Hs) as (_ & ? & ?). naive_solver.
Qed.

Lemma settle_counted adm f (b : bool) :
  (b = true -> f.(fs_pending) = [] /\ f.(fs_unit_remaining) = 0) ->
  (f.(fs_stopped) = false -> exists fmt, f.(fs_format) = Some fmt) -> counted adm f ->
  counted adm (if b then _complete_unit f else f).
Proof.
  intros Hb Hf Hc. destruct b; [|done]. destruct (Hb eq_refl) as [Hp Hr]. unfold counted, _complete_unit in *.
  destruct (fs_stopped f) eqn:Hs.
  - destruct Hc as [Hu Hc]. rewrite Hu. simpl. by rewrite Hs.
  - destruct (Hf eq_refl) as [fmt Hfmt]. rewrite Hfmt, Hp, Hr in Hc. apply counts_unit_done in Hc.
    destruct (fs_unit_is_packet f) eqn:Hu; simpl; rewrite ?Hs, ?Hfmt, ?Hp, ?Hr; cbn [Z.b2z] in Hc; [done|].
    by rewrite Z.add_0_r in Hc.
Qed.

Lemma take_pending_kept adm st want :
  safe adm st -> 0 < want -> fs_pending st.(bs_frame) <> [] ->
  let '(part, f') := take_pending want st.(bs_frame) in
  0 < zlen part <= want /\ kept (adm ++ part) st (framed st f').
Proof.
  intros Hs Hw Hne. unfold take_pending. pose proof Hs as [].
  destruct sf_hash0 as (mid & Hh & Hmid). set (f := bs_frame st) in *.
  set (take := Z.min want (zlen (fs_pending f))).
  assert (0 < zlen (fs_pending f)) as Hpos.
  { pose proof (zlen_nonneg (fs_pending f)). pose proof (zlen_0_nil (fs_pending f)).
    destruct (decide (zlen (fs_pending f) = 0)); [naive_solver|lia]. }
  assert (zlen (ztake take (fs_pending f)) = take) as Ht by (rewrite zlen_ztake; lia).
  assert (zlen (zdrop take (fs_pending f)) = zlen (fs_pending f) - take) as Hdr
    by (rewrite zlen_zdrop; lia).
  split; [lia|]. cbv zeta. set (f1 := with_admitted _ _ _).
  assert (advances f f1) as Hadv
    by (unfold advances, unit_end, unit_packets; simpl; split_and!; try done; lia).
  destruct (settle_spec f1 ((zlen (fs_pending f1) =? 0) && (fs_unit_remaining f1 =? 0)))
    as (Hadv2 & Hr2 & Hp2 & Ha2 & Hl2 & Hi2).
  { rewrite andb_true_iff, !Z.eqb_eq. by rewrite zlen_nil_iff. }
  pose proof (advances_trans _ _ _ Hadv Hadv2) as Hadv3. pose proof Hadv3 as (Hst & Hfm & _).
  apply (advance_kept _ _ st st _ mid); try done.
  - by left.
  - rewrite Ha2, zlen_app, Ht, <- sf_admitted0. done.
  - by rewrite Hr2.
  - by rewrite Hr2.
  - rewrite Hh, Hp2. simpl. by rewrite <- app_assoc, (app_assoc (ztake _ _)), ztake_zdrop.
  - by rewrite Hst, Hl2.
  - by rewrite Hfm, Hl2.
  - apply settle_counted.
    + rewrite andb_true_iff, !Z.eqb_eq. by rewrite zlen_nil_iff.
    + intros Hs1. apply (busy_format _ _ _ Hs); [done|by left].
    + unfold counted in *. fold f in sf_count0. unfold f1. simpl. destruct (fs_stopped f) eqn:Es.
      * split; [apply sf_count0|]. apply counts_rest_take. rewrite ztake_zdrop. apply sf_count0.
      * destruct (busy_format _ _ _ Hs Es ltac:(by left)) as [fmt Hfmt]. fold f in Hfmt. rewrite Hfmt in *.
        replace (fs_unit_remaining f) with (fs_unit_remaining f - zlen (@nil byte)) by (rewrite zlen_nil; lia).
        apply (counts_unit_take adm (fs_pending f)); [by rewrite app_nil_r, ztake_zdrop|rewrite zlen_nil; lia|done].
Qed.

Lemma advance_unit_kept adm st st' take chunk :
  safe adm st -> phys c st' -> fs_pending st.(bs_frame) = [] ->
  0 < take <= fs_unit_remaining st.(bs_frame) -> took c take adm st chunk st' ->
  kept (adm ++ chunk) st (framed st' (advance_unit take chunk st'.(bs_frame))).
Proof.
  intros Hs Hp Hpe Ht (l & -> & Hh & Hlen & Hshort & Hl). pose proof Hs as [].
  set (f := bs_frame st) in *. unfold advance_unit. cbv zeta.
  assert (fs_stopped f = false) as Hst by (destruct (fs_stopped f); [specialize (sf_stopped0 eq_refl); lia|done]).
  destruct (busy_format _ _ _ Hs Hst ltac:(right; fold f; lia)) as [fmt0 Hfmt]. fold f in Hfmt.
  destruct (zlen chunk <? take) eqn:E.
  - destruct (Hshort ltac:(lia)) as [Hc ->]. split.
    + constructor; simpl; try done; rewrite ?Hpe.
      * rewrite zlen_app. lia.
      * exists []. by rewrite Hh, !app_nil_r.
      * intros Ho. specialize (sf_bytes0 Ho). rewrite Hpe, zlen_nil in sf_bytes0.
        rewrite zlen_app, zlen_nil. lia.
      * unfold Z.b2z in *. case_match; lia.
      * unfold counted in *. fold f in sf_count0. rewrite Hst, Hfmt, Hpe in sf_count0. simpl. split; [done|]. rewrite Hpe.
        eapply counts_unit_cut; [exact sf_count0|lia].
    + intros Hd p. unfold tracks. fold f. rewrite Hst. simpl.
      destruct (fs_format f) as [fmt|] eqn:Hf;
        [|destruct (sf_fresh0 eq_refl Hst) as (_ & _ & ?); lia].
      intros (_ & _ & Hend & _). unfold unit_end in Hend. rewrite Hpe, zlen_nil, sf_admitted0 in Hend.
      rewrite <- Hc, zlen_app in Hend. lia.
  - set (f1 := with_unit _ _ _).
    assert (advances f f1) as Hadv.
    { unfold advances, unit_end, unit_packets; simpl; rewrite Hpe; split_and!; try done; lia. }
    destruct (settle_spec f1 (fs_unit_remaining f1 =? 0)) as (Hadv2 & Hr2 & Hp2 & Ha2 & Hl2 & Hi2).
    { rewrite Z.eqb_eq. simpl. naive_solver. }
    pose proof (advances_trans _ _ _ Hadv Hadv2) as Hadv3. pose proof Hadv3 as (Hst3 & Hfm & _).
    apply (advance_kept _ _ st st' _ l); try done.
    + right. split; [done|]. fold f. lia.
    + rewrite Ha2, zlen_app, <- sf_admitted0. done.
    + rewrite Hr2. simpl. lia.
    + rewrite Hr2. simpl. fold f. lia.
    + rewrite Hp2. simpl. by rewrite Hpe, Hh, <- app_assoc.
    + rewrite Hfm, Hl2. simpl. intros Hn. apply Hl. auto.
    + apply settle_counted; [rewrite Z.eqb_eq; naive_solver|by exists fmt0|].
      unfold counted in *. fold f in sf_count0. unfold f1. simpl. rewrite Hst, Hfmt, Hpe in *.
      apply (counts_unit_take adm []); [by rewrite app_nil_r|lia|done].
Qed.

(** ** The reader *)

(** Nothing is left to hand out. *)
Definition finished (f : FrameState) : Prop :=
  f.(fs_stopped) = true /\ f.(fs_pending) = [] /\ f.(fs_unit_remaining) = 0.

Lemma read_loop_finished fuel target r st :
  finished st.(bs_frame) ->
  read_admitted_loop bounds (Datatypes.S fuel) target r st = (Ok r, st).
Proof.
  intros (Hs & Hp & Hr). simpl. unfold _prepare.
  destruct (zlen r <? target); [|done].
  unfold mbind, method_bind, get_frame. rewrite Hs. simpl. by rewrite Hp, Hr.
Qed.

Lemma advance_unit_short take chunk f :
  fs_pending f = [] -> zlen chunk < take -> finished (advance_unit take chunk f).
Proof. intros Hp Hlt. unfold advance_unit. by rewrite (proj2 (Z.ltb_lt _ _)). Qed.

(** What a read of [target] bytes after [base] returns. *)
Definition reads (base : bytes) (target : Z) (st : BoundedState S) (q : bytes)
    (st' : BoundedState S) : Prop :=
  kept (base ++ q) st st' /\ zlen q <= target /\ (zlen q < target -> finished st'.(bs_frame)).

Lemma kept_trans a b st1 st2 st3 : kept a st1 st2 -> kept b st2 st3 -> kept b st1 st3.
Proof. intros [_ H1] [Hs H2]. split; [done|]. intros Hd p Hp. by apply H2, H1. Qed.

Lemma read_admitted_loop_spec fuel target r st base :
  bounds_ok -> phys c st -> safe (base ++ r) st -> zlen r <= target ->
  (Z.to_nat (target - zlen r) + 1 < fuel)%nat ->
  mspec c (read_admitted_loop bounds fuel target r) st (reads base target st).
Proof.
  intros Hb. revert r st. induction fuel as [|fuel IH]; intros r st Hp Hs Hr Hf; [lia|].
  cbn [read_admitted_loop]. destruct (zlen r <? target) eqn:E; [|by apply mspec_ret; [|split_and!; [split|..]; try done; lia]].
  eapply mspec_bind; [by apply prepare_spec|]. cbv beta. intros _ st1 Hp1 [Hk1 Hni].
  apply mspec_get_frame. destruct (negb (zlen (fs_pending (bs_frame st1)) =? 0)) eqn:E1.
  - pose proof (take_pending_kept (base ++ r) st1 (target - zlen r) (proj1 Hk1) ltac:(lia)) as Ht.
    destruct (take_pending _ _) as [part f']. destruct Ht as [Hlen Hk2].
    { intros Hn. by rewrite Hn in E1. }
    apply mspec_set_frame_bind. eapply mspec_mono; [apply IH|].
    + done.
    + rewrite app_assoc. apply Hk2.
    + rewrite zlen_app. lia.
    + rewrite zlen_app. lia.
    + intros q st' _ (Hk & ? & ?). split; [|done]. 
      eapply kept_trans; [exact Hk1|]. by eapply kept_trans.
  - reflect_bools. apply zlen_0_nil in E1.
    destruct (negb (fs_unit_remaining (bs_frame st1) =? 0)) eqn:E2; reflect_bools.
    + pose proof (sf_remaining _ _ _ (proj1 Hk1)) as Hrem. cbv zeta.
      set (take := Z.min (Z.min _ _) _).
      assert (0 < take <= fs_unit_remaining (bs_frame st1) /\ take <= target - zlen r) as [Htake Ht2]
        by (unfold take, _DRAIN_CHUNK; lia).
      assert (fs_stopped (bs_frame st1) = false) as Hst1.
      { destruct (fs_stopped _) eqn:Es; [|done]. pose proof (sf_stopped _ _ _ (proj1 Hk1) Es). lia. }
      eapply mspec_bind; [apply (take_physical_spec c take (base ++ r)); [lia|done|]|].
      { destruct (sf_hash _ _ _ (proj1 Hk1)) as (mid & -> & Hm). by rewrite E1, (Hm Hst1). }
      cbv beta. intros chunk st2 Hp2 Htook. apply mspec_get_frame, mspec_set_frame_bind.
      pose proof (advance_unit_kept _ _ _ _ _ (proj1 Hk1) Hp2 E1 Htake Htook) as Hk2.
      destruct Htook as (l & Hf2 & _ & Hlen & _).
      assert (kept (base ++ r ++ chunk) st (framed st2 (advance_unit take chunk (bs_frame st2)))) as Hk3
        by (rewrite app_assoc; by eapply kept_trans).
      pose proof (zlen_nonneg chunk) as Hcn.
      destruct (decide (zlen chunk < take)) as [Hlt|Hge].
      * assert (finished (advance_unit take chunk (bs_frame st2))) as Hfin
          by (apply advance_unit_short; [by rewrite Hf2|done]).
        unfold mspec. destruct fuel as [|fuel]; [lia|]. rewrite read_loop_finished by done.
        split; [done|]. split_and!; [done|rewrite zlen_app; lia|done].
      * eapply mspec_mono; [apply IH|].
        -- done.
        -- apply Hk3.
        -- rewrite zlen_app. lia.
        -- rewrite zlen_app. lia.
        -- intros q st' _ (Hk & ? & ?). split; [|done]. by eapply kept_trans.
    + apply mspec_ret; [done|]. split_and!; [done|done|]. intros _. split_and!; [|done|done].
      destruct (fs_stopped _) eqn:Es; [done|]. by destruct Hni.
Qed.

Lemma read_admitted_spec n st base :
  bounds_ok -> 0 < n -> phys c st -> safe base st ->
  mspec c (_read_admitted bounds (Some n)) st (reads base n st).
Proof.
  intros Hb Hn Hp Hs. unfold mspec, _read_admitted. pose proof Hp as (_ & _ & _ & -> & _).
  rewrite (proj2 (Z.ltb_ge _ _)), (proj2 (Z.eqb_neq _ _)) by lia.
  apply (read_admitted_loop_spec _ n [] st base Hb Hp); rewrite ?app_nil_r, ?zlen_nil; done || lia.
Qed.

Lemma read_admitted_finished n st :
  0 < n -> st.(bs_closed) = false -> finished st.(bs_frame) ->
  _read_admitted bounds (Some n) st = (Ok [], st).
Proof.
  intros Hn Hc Hf. unfold _read_admitted. rewrite Hc.
  rewrite (proj2 (Z.ltb_ge _ _)), (proj2 (Z.eqb_neq _ _)) by lia.
  rewrite Nat.add_comm. by apply read_loop_finished.
Qed.
End framing.

(** ** [bounded_pcap_prefix] returns a prefix that only grows *)

Section growth.
Context (c : bytes) (bounds : CaptureBounds).

Definition is_prefix_of_capture (p : PcapBytePrefix) : Prop :=
  p.(pbp_content) = ztake p.(pbp_scanned_bytes) c /\ 0 <= p.(pbp_scanned_bytes) <= zlen c.

Lemma prefix_until_ok offset n bl pl :
  0 <= offset -> is_prefix_of_capture (prefix_until c offset n bl pl).
Proof. intros. pose proof (zlen_nonneg c). split; simpl; [done|lia]. Qed.

Lemma prefix_loop_grows fmt fuel e offset n p :
  0 <= offset <= zlen c -> prefix_loop c bounds fmt fuel e offset n = Ok p ->
  is_prefix_of_capture p /\ offset <= p.(pbp_scanned_bytes).
Proof.
  revert e offset n. induction fuel as [|fuel IH]; intros e offset n Ho Hl; [by destruct fmt|].
  assert (forall n bl pl, p = prefix_until c offset n bl pl ->
    is_prefix_of_capture p /\ offset <= pbp_scanned_bytes p) as Hu.
  { intros n' bl pl ->. split; [apply prefix_until_ok; lia|]. simpl. lia. }
  destruct fmt.
  - apply classic_prefix_inv in Hl. pose proof (u32_bound e c (offset + 8)) as Hub.
    destruct (_ <? zlen c); [|by eapply Hu]. destruct (_ && _); [by eapply Hu|].
    destruct (packets_exhausted _ _); [by eapply Hu|]. cbv zeta in Hl. destruct Hl as [_ Hl].
    destruct (_ && _); [by eapply Hu|]. destruct Hl as [Hle Hl].
    apply IH in Hl as [??]; [split; [done|lia]|lia].
  - apply ng_prefix_inv in Hl.
    destruct (_ <? zlen c); [|by eapply Hu]. destruct (_ && _); [by eapply Hu|].
    destruct Hl as (_ & e' & _ & Hl). cbv zeta in Hl. pose proof (u32_bound e' c (offset + 4)) as Hub.
    destruct (_ && packets_exhausted _ _); [by eapply Hu|]. destruct Hl as [_ Hl].
    destruct (_ && _); [by eapply Hu|]. destruct Hl as [Hle Hl].
    apply IH in Hl as [??]; [split; [done|lia]|lia].
Qed.

Lemma bounded_prefix_grows p :
  bounded_pcap_prefix c bounds.(cb_max_bytes) (Some bounds.(cb_max_packets)) = Ok p ->
  is_prefix_of_capture p.
Proof.
  intros H. unfold bounded_pcap_prefix in H. pose proof (zlen_nonneg c) as Hnn.
  apply bind_Ok in H as (_ & _ & H). apply bind_Ok in H as (_ & _ & H). cbv zeta in H.
  destruct (CLASSIC_MAGIC _) as [[e r]|].
  - apply bind_Ok in H as (_ & H24%raise_if_Ok & H). reflect_bools.
    destruct (_ <? 24); [by injection H as <-; split; [|simpl; lia]|].
    by apply (prefix_loop_grows PCAP) in H as [? _]; [|lia].
  - case_bool_decide; [|done]. by apply (prefix_loop_grows PCAPNG) in H as [? _]; [|lia].
Qed.

Lemma reader_prefix_grows p max_bytes :
  is_prefix_of_capture p -> is_prefix_of_capture (reader_prefix max_bytes p).
Proof.
  intros Hp. unfold reader_prefix. destruct (_ <? 24); [|done]. pose proof (zlen_nonneg c). split; simpl; [done|lia].
Qed.
End growth.

(** On the way to [p], what was handed out is a prefix of [p], and all of it at
    the end. *)
Lemma tracks_content {T} `{!CaptureSource T} `{!LawfulSource T} c bounds p adm (st : BoundedState T) :
  phys c st -> safe bounds adm st -> tracks c bounds p st.(bs_frame) ->
  is_prefix_of_capture c p ->
  exists rest, p.(pbp_content) = adm ++ rest /\ (finished st.(bs_frame) -> rest = []).
Proof.
  intros Hp Hs Ht [Hpc Hsc]. set (f := bs_frame st) in *.
  assert (exists k, c = adm ++ k) as [k Hk].
  { destruct (sf_hash _ _ _ _ Hs) as (mid & Hm & _). rewrite <- (proj1 Hp), Hm.
    eexists. by rewrite <- !app_assoc. }
  assert (zlen adm <= pbp_scanned_bytes p /\ (fs_stopped f = true -> zlen adm = pbp_scanned_bytes p))
    as [Hle Heq].
  { pose proof (sf_admitted _ _ _ _ Hs) as Ha. fold f in Ha. unfold tracks in Ht.
    pose proof (sf_remaining _ _ _ _ Hs) as Hrem. fold f in Hrem.
    destruct (fs_stopped f) eqn:Es; [destruct Ht as (_ & Hadm & _); split; lia|].
    destruct Ht as (_ & _ & Ht). split; [|done]. destruct (fs_format f) as [fmt|] eqn:Ef.
    - destruct Ht as (Hend & fuel & Hl). pose proof (zlen_nonneg adm). pose proof (zlen_nonneg (fs_pending f)).
      unfold unit_end in *. apply prefix_loop_grows in Hl as [_ Hg]; lia.
    - destruct (sf_fresh _ _ _ _ Hs Ef Es) as (-> & _). rewrite zlen_nil. lia. }
  exists (ztake (pbp_scanned_bytes p - zlen adm) k). pose proof (zlen_nonneg adm). split.
  - rewrite Hpc, Hk. unfold ztake. rewrite take_app_ge by (unfold zlen in *; lia).
    f_equal. f_equal. unfold zlen. lia.
  - intros (Hst & _). rewrite (Heq Hst), Z.sub_diag. done.
Qed.
