(* ===== verification/AdmissionReader.v ===== *)
(** * AdmissionReader

    The guarantees of [BoundedVerifiedCapture] seen from outside: what a client
    that reads and then verifies may rely on, and that the admission reader is
    a lawful [CaptureReader] over the bytes [bounded_pcap_prefix] selects, so
    that the scanners of pcap_index.py and pcap_export.py may be run on it. *)

From Stdlib Require Import String.
From S2P Require Import Prelude Bytes Samples Reader CaptureFormat StructuralIndex StructuralProofs.
From S2P Require Import PacketProjection ExportDecoder ExportAgreement CapturePrefix PacketCount BoundedCapture BoundedProofs.
#[local] Open Scope Z_scope.

(** ** A client of the capture *)

(** The reads of a client, in order; the first exception ends them. *)
Fixpoint read_all {S} `{!CaptureSource S} (bounds : CaptureBounds) (sizes : list Z)
    : method S (list bytes) :=
  match sizes with
  | [] => mret []
  | n :: sizes' =>
      q ← _read_admitted bounds (Some n);
      qs ← read_all bounds sizes';
      mret (q :: qs)
  end.

Section client.
Context {S : Type} `{!CaptureSource S} `{!LawfulSource S}.
Context (sha256_hex : bytes -> string) (c : bytes) (bounds : CaptureBounds).

Definition positive_sizes (sizes : list Z) : Prop := Forall (fun n => 0 < n) sizes.

Lemma new_bounded_ok (s : S) :
  bounds_ok bounds -> source_content s = c ->
  phys c (new_bounded s) /\ safe bounds [] (new_bounded s).
Proof.
  intros (? & ? & ?) <-. split; [done|]. constructor; simpl; try done; try lia.
  - by exists [].
  - intros _. change (0 <= cb_max_bytes bounds). lia.
Qed.

Lemma read_all_finished sizes (st : BoundedState S) :
  positive_sizes sizes -> st.(bs_closed) = false -> finished st.(bs_frame) ->
  exists qs, read_all bounds sizes st = (Ok qs, st) /\ concat qs = [].
Proof.
  intros Hpos Hc Hf. induction Hpos as [|n sizes Hn _ (qs & IH & Hqs)]; [by exists []|].
  exists ([] :: qs). split; [|done]. cbn [read_all]. unfold mbind, method_bind.
  rewrite read_admitted_finished by done. by rewrite IH.
Qed.

Lemma read_all_spec sizes st base :
  bounds_ok bounds -> positive_sizes sizes -> phys c st -> safe bounds base st ->
  mspec c (read_all bounds sizes) st (fun qs st' =>
    reads c bounds base (foldr Z.add 0 sizes) st (concat qs) st').
Proof.
  intros Hb Hpos. revert st base. induction Hpos as [|n sizes Hn Hpos IH]; intros st base Hp Hs.
  - apply mspec_ret; [done|].
    split_and!; simpl; [|done|by intros []%Z.lt_irrefl]. rewrite app_nil_r. by split.
  - cbn [read_all]. eapply mspec_bind; [by apply read_admitted_spec|]. cbv beta.
    intros q st1 Hp1 (Hk1 & Hq1 & Hf1).
    eapply mspec_bind_run; [apply (IH st1 (base ++ q)); [done|apply Hk1]|]. cbv beta.
    intros qs st2 Hrun Hp2 (Hk2 & Hq2 & Hf2). apply mspec_ret; [done|]. simpl. split_and!.
    + rewrite app_assoc. by eapply kept_trans.
    + rewrite zlen_app. lia.
    + rewrite zlen_app. intros Hlt. destruct (decide (zlen q < n)) as [Hq|Hq]; [|apply Hf2; lia].
      destruct (read_all_finished sizes st1 Hpos) as (qs' & Hrun' & _); [apply Hp1|by apply Hf1|].
      rewrite Hrun' in Hrun. injection Hrun as _ <-. by apply Hf1.
Qed.

(** ** Draining *)

Lemma drain_loop_spec fuel st :
  phys c st -> (Z.to_nat (zlen c - zlen st.(bs_hash)) < fuel)%nat ->
  mspec c (drain_loop fuel) st (fun _ st' => st'.(bs_hash) = c /\ st'.(bs_frame) = st.(bs_frame)).
Proof.
  revert st. induction fuel as [|fuel IH]; intros st Hp Hf; [lia|]. cbn [drain_loop].
  eapply mspec_bind; [by apply physical_read_spec|]. cbv beta.
  intros chunk st1 Hp1 (Hfr & Hh & Hlen & Heof). case_bool_decide as Hn.
  - apply mspec_ret; [done|]. auto.
  - eapply mspec_mono; [apply IH; [done|]|].
    + assert (0 < zlen chunk) by (destruct chunk; [done|]; rewrite zlen_cons; pose proof (zlen_nonneg chunk); lia).
      assert (zlen (bs_hash st1) <= zlen c)
        by (rewrite <- (proj1 Hp1), zlen_app; pose proof (zlen_nonneg (source_content (bs_source st1))); lia).
      rewrite Hh, zlen_app in *. lia.
    + intros _ st' _ [? ?]. split; congruence.
Qed.

(** On a classic capture the reader and [bounded_pcap_prefix] agree for every budget. *)
Lemma reader_prefix_classic content max_bytes max_packets p :
  bounded_pcap_prefix content max_bytes max_packets = Ok p -> is_Some (CLASSIC_MAGIC (ztake 4 content)) ->
  reader_prefix max_bytes p = p.
Proof.
  intros Hp [[e r] Hm]. unfold reader_prefix, bounded_pcap_prefix in *. rewrite Hm in Hp. inv_bind.
  destruct (max_bytes <? 24); [|done]. congruence.
Qed.

(** A source whose [close] never raises. *)
Definition closes : Prop := forall s : S, (source_close s).1 = None.

Definition is_integrity_error (e : exn) : Prop := exists text, e = CaptureIntegrityError text.

(** The source is what its descriptor says. *)
Definition authentic : Prop :=
  zlen c = bounds.(cb_expected_size) /\ sha256_hex c = bounds.(cb_expected_sha256).

(** The committed counts are those of the framing. *)
Definition commits (f : FrameState) (r : SourceScanResult) : Prop :=
  r.(srr_admitted_bytes) = f.(fs_admitted_bytes) /\
  r.(srr_admitted_packets) = f.(fs_admitted_packets) /\
  r.(srr_byte_limited) = f.(fs_byte_limited) /\ r.(srr_packet_limited) = f.(fs_packet_limited) /\
  r.(srr_actual_size) = zlen c /\ r.(srr_actual_sha256) = sha256_hex c.

Lemma close_spec (st : BoundedState S) :
  match close st with
  | (Ok _, st') => st'.(bs_hash) = st.(bs_hash) /\ st'.(bs_actual_size) = st.(bs_actual_size) /\
                   st'.(bs_frame) = st.(bs_frame)
  | (Err e, _) => (exists text, e = RuntimeError text) /\ ~ closes
  end.
Proof.
  unfold close. destruct (bs_closed st); [done|].
  destruct (source_close (bs_source st)) as [[text|] s'] eqn:E; [|done].
  split; [by eexists|]. intros Hc. specialize (Hc (bs_source st)). by rewrite E in Hc.
Qed.

Lemma verify_spec fuel st :
  phys c st -> (length c < fuel)%nat ->
  match drain_and_verify sha256_hex bounds fuel st with
  | (Ok r, _) => authentic /\ commits st.(bs_frame) r
  | (Err e, _) => is_integrity_error e /\ (reliable (S := S) -> closes -> ~ authentic)
  end.
Proof.
  intros Hp Hf. pose proof Hp as (_ & _ & Hrf & _ & Hv). unfold drain_and_verify. rewrite Hv, Hrf.
  pose proof (drain_loop_spec fuel st Hp) as Hd. unfold mspec in Hd.
  assert (Z.to_nat (zlen c - zlen (bs_hash st)) < fuel)%nat as Hfuel
    by (pose proof (zlen_nonneg (bs_hash st)); unfold zlen in *; lia).
  specialize (Hd Hfuel). destruct (drain_loop fuel st) as [[u|e] st1].
  - destruct Hd as ((_ & Hsz & _) & Hh & Hfr). pose proof (close_spec st1) as Hc.
    destruct (close st1) as [[u'|e'] st2].
    + destruct Hc as (Hh2 & Hs2 & Hf2). rewrite Hh2, Hs2, Hf2, Hsz, Hh, Hfr.
      unfold authentic. destruct (Z.eqb_spec (zlen c) (cb_expected_size bounds)); simpl.
      * case_bool_decide; simpl; [|split; [by eexists|tauto]].
        split; [done|]. by repeat split.
      * split; [by eexists|tauto].
    + destruct Hc as [[text ->] Hnc]. split; [by eexists|]. intros _ H. by destruct Hnc.
  - destruct Hd as (Hnr & _ & _ & text & ->).
    destruct (close st1) as [[u'|e'] st2]; (split; [by eexists|done]).
Qed.

(** A failed read cannot be committed. *)
Lemma verify_failed fuel e (st : BoundedState S) :
  failed e st -> exists st', drain_and_verify sha256_hex bounds fuel st = (Err e, st').
Proof.
  intros (_ & Hrf & Hv & text & ->). unfold drain_and_verify. rewrite Hv, Hrf.
  destruct (close st) as [[u|e] st']; by eexists.
Qed.
End client.

Lemma init_bounds_ok expected_size expected_sha256 max_bytes max_packets bounds :
  BoundedVerifiedCapture_init expected_size expected_sha256 max_bytes max_packets = Ok bounds ->
  bounds_ok bounds /\
  bounds = mk_bounds expected_size (str_lower expected_sha256) max_bytes max_packets.
Proof.
  unfold BoundedVerifiedCapture_init. intros H. inv_bind. subst bounds. split; [|done].
  reflect_bools. unfold bounds_ok; simpl. lia.
Qed.

Lemma open_new {S} `{!CaptureSource S} (s : S) size sha max_bytes max_packets bounds st u :
  open_bounded_verified_capture s size sha max_bytes max_packets = (Ok (bounds, st), u) ->
  st = new_bounded s /\
  BoundedVerifiedCapture_init size sha max_bytes max_packets = Ok bounds.
Proof.
  unfold open_bounded_verified_capture.
  destruct (BoundedVerifiedCapture_init _ _ _ _); intros [=]; by subst.
Qed.

(** A stored object that answers with at most [bs_chunk_size] bytes a call. *)
Record BlobSource : Type := mk_blob { blob_data : bytes; blob_chunk : nat }.

#[global] Instance blob_source : CaptureSource BlobSource := {
  source_read n s :=
    let k := Z.min n (Z.of_nat s.(blob_chunk) + 1) in
    (inr (ztake k s.(blob_data)), mk_blob (zdrop k s.(blob_data)) s.(blob_chunk));
  source_close s := (None, s);
  source_version_id _ := "v1"%string;
}.

#[global, program] Instance blob_lawful : LawfulSource BlobSource :=
  {| source_content := blob_data |}.
Next Obligation.
  intros n [d k] p s' Hn; simpl. intros [= <- <-]; simpl.
  rewrite ztake_zdrop, zlen_ztake by lia. split; [done|lia].
Qed.
Next Obligation.
  intros n [d k] s' Hn; simpl. intros [= H _]. destruct d as [|b d]; [done|].
  unfold ztake in H. destruct (Z.to_nat _) eqn:E in H; [lia|done].
Qed.

Lemma blob_reliable : reliable (S := BlobSource).
Proof. intros n s _. by eexists _, _. Qed.

Lemma blob_closes : closes (S := BlobSource).
Proof. done. Qed.

(** ** Guarantees of the capture *)

(** C12: whatever a lawful source does and however a client reads it, the bytes
    handed out are a prefix of the source, and they are committed only when
    the drained source has the described size and digest; the byte count that is
    committed is the number of bytes handed out, the packet count is the number
    of whole packets [whole_packets] finds in those very bytes, and both respect
    their limits. A read that failed can never be committed, and every refusal is
    a [CaptureIntegrityError]. Provided the fuel of the drain exceeds the length
    of the source and every read asks for at least one byte. *)
Theorem bounded_capture_commits (sha256_hex : bytes -> string) (S : Type)
    (ops : CaptureSource S) (lawful : LawfulSource S) (s : S)
    (size : Z) (sha256 : string) (max_bytes max_packets : Z)
    (bounds : CaptureBounds) (st0 : BoundedState S) (sizes : list Z) (fuel : nat) :
  open_bounded_verified_capture s size sha256 max_bytes max_packets = (Ok (bounds, st0), None) ->
  positive_sizes sizes -> (length (source_content s) < fuel)%nat ->
  match read_all bounds sizes st0 with
  | (Ok out, st) =>
      (exists rest, source_content s = concat out ++ rest) /\
      match drain_and_verify sha256_hex bounds fuel st with
      | (Ok r, _) =>
          zlen (source_content s) = size /\ sha256_hex (source_content s) = str_lower sha256 /\
          r.(srr_admitted_bytes) = zlen (concat out) /\ r.(srr_admitted_bytes) <= max_bytes /\
          r.(srr_admitted_packets) = whole_packets (concat out) /\ r.(srr_admitted_packets) <= max_packets /\
          r.(srr_actual_size) = size /\ r.(srr_actual_sha256) = str_lower sha256
      | (Err e, _) => is_integrity_error e
      end
  | (Err e, st) =>
      is_integrity_error e /\ exists st', drain_and_verify sha256_hex bounds fuel st = (Err e, st')
  end.
Proof.
  intros [-> Hinit]%open_new Hpos Hf. apply init_bounds_ok in Hinit as [Hb ->].
  set (bounds := mk_bounds _ _ _ _) in *. set (c := source_content s) in *.
  destruct (new_bounded_ok c bounds s Hb eq_refl) as [Hp Hs].
  pose proof (read_all_spec c bounds sizes _ [] Hb Hpos Hp Hs) as Hr. unfold mspec in Hr.
  destruct (read_all bounds sizes (new_bounded s)) as [[out|e] st].
  - destruct Hr as (Hp1 & (Hsafe & _) & _). simpl in Hsafe.
    assert (exists rest, c = concat out ++ rest) as [rest Hrest].
    { destruct (sf_hash _ _ _ _ Hsafe) as (mid & Hm & _). rewrite <- (proj1 Hp1), Hm.
      eexists. by rewrite <- !app_assoc. }
    split; [by exists rest|]. pose proof (verify_spec sha256_hex c bounds fuel st Hp1 Hf) as Hv.
    destruct (drain_and_verify _ _ _ _) as [[r|e] st']; [|by destruct Hv].
    destruct Hv as [[Hsz Hsh] (Hab & Hap & _ & _ & Has & Hash)].
    rewrite Hab, Hap, Has, Hash, (sf_admitted _ _ _ _ Hsafe). simpl in Hsz, Hsh.
    split_and!; try done.
    + destruct (oversized bounds) eqn:Ho.
      * pose proof (safe_within _ _ _ _ Hsafe Ho) as H. rewrite zlen_nil in H. simpl in H. lia.
      * unfold oversized in Ho. simpl in Ho. rewrite Hrest, zlen_app in Hsz.
        pose proof (zlen_nonneg rest). lia.
    + symmetry. exact (safe_count _ _ _ _ Hsafe).
    + pose proof (sf_packets _ _ _ _ Hsafe) as H. simpl in H. unfold Z.b2z in H. case_match; lia.
  - destruct (verify_failed sha256_hex bounds fuel e st Hr) as [st' Hst'].
    split; [|by eexists]. destruct Hr as (_ & _ & _ & text & ->). by eexists.
Qed.

(** A digest of the right shape for the samples. *)
Definition sample_digest : string :=
  "00000000000000000000000000000000000000000000000000000000000000ab"%string.

(** Two reads of the PCAPNG sample under a limit that cuts its last packet. *)
Definition sample_bounds : CaptureBounds := mk_bounds 192 sample_digest 150 5.

Lemma bounded_capture_commits_witness :
  exists out r st st',
    read_all sample_bounds [100; 100] (new_bounded (mk_blob sample_pcapng 6)) = (Ok out, st) /\
    drain_and_verify (fun _ => sample_digest) sample_bounds 300 st = (Ok r, st') /\
    r.(srr_admitted_bytes) = 120 /\ r.(srr_byte_limited) = true /\
    (exists rest, sample_pcapng = concat out ++ rest) /\ r.(srr_admitted_bytes) <= 150 /\
    r.(srr_admitted_packets) = 1 /\ r.(srr_admitted_packets) = whole_packets (concat out).
Proof.
  pose proof (bounded_capture_commits (fun _ => sample_digest) BlobSource _ _
    (mk_blob sample_pcapng 6) 192 sample_digest 150 5 sample_bounds
    (new_bounded (mk_blob sample_pcapng 6)) [100; 100] 300) as H.
  assert (positive_sizes [100; 100]) as Hpos by (repeat constructor).
  specialize (H ltac:(vm_compute; reflexivity) Hpos ltac:(apply Nat.ltb_lt; vm_compute; reflexivity)).
  destruct (read_all sample_bounds [100; 100] (new_bounded (mk_blob sample_pcapng 6)))
    as [[out|e] st] eqn:E; [|vm_compute in E; discriminate E].
  destruct H as [Hrest H].
  destruct (drain_and_verify (fun _ => sample_digest) sample_bounds 300 st) as [[r|e] st'] eqn:E2.
  - exists out, r, st, st'. destruct H as (_ & _ & _ & Hle & Hpk & _).
    split; [reflexivity|]. split; [exact E2|]. split; [|split; [|split; [exact Hrest|split; [exact Hle|split; [|exact Hpk]]]]];
      vm_compute in E; injection E as <- <-; vm_compute in E2; injection E2 as <- _; reflexivity.
  - vm_compute in E. injection E as <- <-. vm_compute in E2. discriminate E2.
Defined.

(** C13: over a source that never raises, reading never fails, and the verdict
    is exact: the capture is committed if and only if the source has the
    described size and digest, and otherwise refused with a
    [CaptureIntegrityError]. *)
Theorem bounded_capture_verdict (sha256_hex : bytes -> string) (S : Type)
    (ops : CaptureSource S) (lawful : LawfulSource S) (s : S)
    (size : Z) (sha256 : string) (max_bytes max_packets : Z)
    (bounds : CaptureBounds) (st0 : BoundedState S) (sizes : list Z) (fuel : nat) :
  open_bounded_verified_capture s size sha256 max_bytes max_packets = (Ok (bounds, st0), None) ->
  reliable (S := S) -> closes (S := S) ->
  positive_sizes sizes -> (length (source_content s) < fuel)%nat ->
  exists out st, read_all bounds sizes st0 = (Ok out, st) /\
    if decide (zlen (source_content s) = size /\ sha256_hex (source_content s) = str_lower sha256)
    then exists r st', drain_and_verify sha256_hex bounds fuel st = (Ok r, st')
    else exists text st',
      drain_and_verify sha256_hex bounds fuel st = (Err (CaptureIntegrityError text), st').
Proof.
  intros [-> Hinit]%open_new Hrel Hcl Hpos Hf. apply init_bounds_ok in Hinit as [Hb ->].
  set (bounds := mk_bounds _ _ _ _) in *. set (c := source_content s) in *.
  destruct (new_bounded_ok c bounds s Hb eq_refl) as [Hp Hs].
  pose proof (read_all_spec c bounds sizes _ [] Hb Hpos Hp Hs) as Hr. unfold mspec in Hr.
  destruct (read_all bounds sizes (new_bounded s)) as [[out|e] st]; [|by destruct Hr].
  exists out, st. split; [done|]. destruct Hr as [Hp1 _].
  pose proof (verify_spec sha256_hex c bounds fuel st Hp1 Hf) as Hv.
  destruct (drain_and_verify _ _ _ _) as [[r|e] st'].
  - destruct Hv as [Ha _]. rewrite decide_True by exact Ha. by eexists _, _.
  - destruct Hv as [[text ->] Hna]. rewrite decide_False by (by apply Hna). by eexists _, _.
Qed.

Lemma bounded_capture_verdict_witness :
  exists out st text st',
    read_all sample_bounds [4096] (new_bounded (mk_blob sample_pcap 0)) = (Ok out, st) /\
    drain_and_verify (fun _ => sample_digest) sample_bounds 300 st =
      (Err (CaptureIntegrityError text), st').
Proof.
  destruct (bounded_capture_verdict (fun _ => sample_digest) BlobSource _ _
    (mk_blob sample_pcap 0) 192 sample_digest 150 5 sample_bounds
    (new_bounded (mk_blob sample_pcap 0)) [4096] 300 ltac:(vm_compute; reflexivity)
    blob_reliable blob_closes ltac:(by repeat constructor)
    ltac:(apply Nat.ltb_lt; vm_compute; reflexivity)) as (out & st & Hr & H).
  exists out, st. destruct (decide _) as [[Hsz _]|_]; [vm_compute in Hsz; discriminate Hsz|].
  destruct H as (text & st' & H). exists text, st'. split; [exact Hr|exact H].
Defined.

(** C14: read to its end, the one-pass reader admits exactly what
    [bounded_pcap_prefix] computes from the whole capture in memory. For a source
    whose reads and close never fail, with the size and the digest of its
    descriptor, of which that function returns a prefix, any reads that ask for
    more than the prefix return it, and the committed byte and packet counts and
    limit flags are those of the prefix: for every budget if the capture is
    classic, and for a PCAPNG capture from a budget of 24 bytes on. Below 24
    bytes the reader always admits nothing and reports the byte limit, where
    [bounded_pcap_prefix] may still take short first blocks of a PCAPNG
    capture. *)
Theorem bounded_capture_matches_prefix (sha256_hex : bytes -> string) (S : Type)
    (ops : CaptureSource S) (lawful : LawfulSource S) (s : S)
    (sha256 : string) (max_bytes max_packets : Z)
    (bounds : CaptureBounds) (st0 : BoundedState S) (sizes : list Z) (fuel : nat)
    (p : PcapBytePrefix) :
  open_bounded_verified_capture s (zlen (source_content s)) sha256 max_bytes max_packets =
    (Ok (bounds, st0), None) ->
  bounded_pcap_prefix (source_content s) max_bytes (Some max_packets) = Ok p ->
  reliable (S := S) -> closes (S := S) ->
  sha256_hex (source_content s) = str_lower sha256 ->
  positive_sizes sizes -> p.(pbp_scanned_bytes) < foldr Z.add 0 sizes ->
  (length (source_content s) < fuel)%nat ->
  let q := if max_bytes <? 24 then mk_prefix [] 0 0 true false else p in
  (is_Some (CLASSIC_MAGIC (ztake 4 (source_content s))) -> q = p) /\
  exists out st r st',
    read_all bounds sizes st0 = (Ok out, st) /\
    drain_and_verify sha256_hex bounds fuel st = (Ok r, st') /\
    concat out = q.(pbp_content) /\
    r.(srr_admitted_bytes) = q.(pbp_scanned_bytes) /\
    r.(srr_admitted_packets) = q.(pbp_packet_count) /\
    r.(srr_byte_limited) = q.(pbp_byte_limited) /\
    r.(srr_packet_limited) = q.(pbp_packet_limited).
Proof.
  intros [-> Hinit]%open_new Hpre Hrel Hcl Hsha Hpos Hsum Hf.
  apply init_bounds_ok in Hinit as [Hb ->]. change (if max_bytes <? 24 then _ else p) with (reader_prefix max_bytes p).
  intros q. split; [intros Hm; by eapply reader_prefix_classic|].
  set (bounds := mk_bounds _ _ _ _) in *. set (c := source_content s) in *.
  destruct (new_bounded_ok c bounds s Hb eq_refl) as [Hp Hs].
  assert (described c bounds) as Hd by done.
  assert (tracks c bounds q (bs_frame (new_bounded s))) as Ht by exact (conj eq_refl (conj eq_refl (conj eq_refl (ex_intro _ p (conj Hpre eq_refl))))).
  pose proof (bounded_prefix_grows c bounds p Hpre) as Hpc0.
  pose proof (reader_prefix_grows c p max_bytes Hpc0) as Hpc. fold q in Hpc.
  assert (pbp_scanned_bytes q < foldr Z.add 0 sizes) as Hsumq
    by (unfold q, reader_prefix; destruct (_ <? 24); [destruct Hpc0; simpl; lia|done]).
  pose proof (read_all_spec c bounds sizes _ [] Hb Hpos Hp Hs) as Hr. unfold mspec in Hr.
  destruct (read_all bounds sizes (new_bounded s)) as [[out|e] st]; [|by destruct Hr].
  destruct Hr as (Hp1 & (Hsafe & Htr) & Hle & Hfin). simpl in Hsafe. specialize (Htr Hd q Ht).
  destruct (tracks_content c bounds q _ st Hp1 Hsafe Htr Hpc) as (rest & Hrest & Hend).
  assert (zlen (concat out) + zlen rest = pbp_scanned_bytes q) as Hlen.
  { rewrite <- zlen_app, <- Hrest, (proj1 Hpc), zlen_ztake; destruct Hpc; lia. }
  pose proof (zlen_nonneg rest). assert (finished (bs_frame st)) as Hf' by (apply Hfin; lia).
  rewrite (Hend Hf'), app_nil_r in Hrest. unfold tracks in Htr. destruct Hf' as (Hst & _).
  rewrite Hst in Htr. destruct Htr as (_ & Ha & Hpk & Hbl & Hpl).
  pose proof (verify_spec sha256_hex c bounds fuel st Hp1 Hf) as Hv.
  destruct (drain_and_verify _ _ _ _) as [[r|e] st'] eqn:E.
  - exists out, st, r, st'. destruct Hv as (_ & -> & -> & -> & -> & _). by split_and!.
  - destruct Hv as [_ []]; done.
Qed.

Lemma bounded_capture_matches_prefix_witness :
  exists out st r st',
    read_all sample_bounds [100; 100] (new_bounded (mk_blob sample_pcapng 6)) = (Ok out, st) /\
    drain_and_verify (fun _ => sample_digest) sample_bounds 300 st = (Ok r, st') /\
    concat out = ztake 120 sample_pcapng /\ r.(srr_admitted_bytes) = 120 /\
    r.(srr_admitted_packets) = 1 /\ r.(srr_byte_limited) = true /\ r.(srr_packet_limited) = false.
Proof.
  apply (bounded_capture_matches_prefix (fun _ => sample_digest) BlobSource _ _
    (mk_blob sample_pcapng 6) sample_digest 150 5 sample_bounds
    (new_bounded (mk_blob sample_pcapng 6)) [100; 100] 300
    (mk_prefix (ztake 120 sample_pcapng) 120 1 true false));
    [vm_compute; reflexivity|vm_compute; reflexivity|exact blob_reliable|exact blob_closes
    |reflexivity|by repeat constructor|simpl; lia|apply Nat.ltb_lt; vm_compute; reflexivity].
Defined.

(** ** The admission reader as a [CaptureReader] *)

Section reader.
Context {S : Type} `{!CaptureSource S} `{!LawfulSource S}.
Context (c : bytes) (bounds : CaptureBounds) (p : PcapBytePrefix).

(** [_AdmissionReader] of a capture on its way to [p], with what it has handed
    out so far. *)
Record AdmissionReader : Type := mk_reader {
  ar_state : BoundedState S;
  ar_out : bytes;
  ar_phys : phys c ar_state;
  ar_safe : safe bounds ar_out ar_state;
  ar_tracks : tracks c bounds p ar_state.(bs_frame);
}.

Context (Hb : bounds_ok bounds) (Hd : described c bounds) (Hp : is_prefix_of_capture c p).

(** The bytes still to come. *)
Definition admission_rest (r : AdmissionReader) : bytes := zdrop (zlen r.(ar_out)) p.(pbp_content).

Lemma admission_step n (r : AdmissionReader) q st' :
  0 < n -> _read_admitted bounds (Some n) r.(ar_state) = (Ok q, st') ->
  phys c st' /\ safe bounds (r.(ar_out) ++ q) st' /\ tracks c bounds p st'.(bs_frame) /\
  zlen q <= n /\ (zlen q < n -> finished st'.(bs_frame)).
Proof.
  intros Hn Hr.
  pose proof (read_admitted_spec c bounds n _ _ Hb Hn r.(ar_phys) r.(ar_safe)) as H.
  unfold mspec in H. rewrite Hr in H. destruct H as (H1 & (H2 & H3) & H4 & H5).
  split_and!; try done. apply H3; [done|]. apply r.
Qed.

Definition admission_result (n : Z) (r : AdmissionReader) (Hn : 0 < n)
    (x : res bytes * BoundedState S)
    : _read_admitted bounds (Some n) r.(ar_state) = x -> bytes * AdmissionReader :=
  match x with
  | (Ok q, st') => fun E =>
      let H := admission_step n r q st' Hn E in
      (q, mk_reader st' (r.(ar_out) ++ q) (proj1 H) (proj1 (proj2 H)) (proj1 (proj2 (proj2 H))))
  | (Err _, _) => fun _ => ([], r)
  end.

(** [read(n)]; the scanners only ask for a positive size. *)
#[local] Instance admission_read : CaptureReader AdmissionReader := fun n r =>
  match decide (0 < n) with
  | left Hn => admission_result n r Hn _ eq_refl
  | right _ => ([], r)
  end.

Context (Hrel : reliable (S := S)).

Lemma admission_read_next n r q r' :
  0 < n -> reader_read n r = (q, r') ->
  admission_rest r = q ++ admission_rest r' /\ zlen q <= n /\
  (zlen q < n -> finished r'.(ar_state).(bs_frame)).
Proof.
  intros Hn. unfold reader_read, admission_read. destruct (decide (0 < n)) as [Hn'|]; [|done].
  assert (forall x (E : _read_admitted bounds (Some n) r.(ar_state) = x),
    admission_result n r Hn' x E = (q, r') ->
    admission_rest r = q ++ admission_rest r' /\ zlen q <= n /\
    (zlen q < n -> finished r'.(ar_state).(bs_frame))) as H; [|by apply H].
  intros x E. destruct x as [[q0|e] st']; simpl.
  - intros [= <- <-]. destruct (admission_step n r q0 st' Hn' E) as (H1 & H2 & H3 & H4 & H5).
    split_and!; [|done|done]. unfold admission_rest. simpl.
    destruct (tracks_content c bounds p _ st' H1 H2 H3 Hp) as (rest & Hrest & _).
    rewrite Hrest. rewrite (zdrop_app_exact (zlen (ar_out r ++ q0))) by done.
    by rewrite <- app_assoc, zdrop_app_exact.
  - intros _. pose proof (read_admitted_spec c bounds n _ _ Hb Hn r.(ar_phys) r.(ar_safe)) as H.
    unfold mspec in H. rewrite E in H. by destruct H.
Qed.

#[program] Definition admission_lawful : LawfulReader AdmissionReader :=
  {| reader_content := admission_rest |}.
Next Obligation. intros n r q r' Hn H. by apply admission_read_next in H as (? & ? & _). Qed.
Next Obligation.
  intros n r r' Hn H. apply admission_read_next in H as (-> & _ & Hf); [|done]. simpl.
  destruct (tracks_content c bounds p _ _ (ar_phys r') (ar_safe r') (ar_tracks r') Hp)
    as (rest & Hrest & Hend).
  unfold admission_rest. rewrite Hrest, Hend by (apply Hf; rewrite zlen_nil; lia).
  rewrite app_nil_r. by apply zdrop_all.
Qed.
End reader.

(** The reader of a capture that was just opened. *)
Definition admission_reader {S} `{!CaptureSource S} `{!LawfulSource S} (s : S)
    (bounds : CaptureBounds) (p : PcapBytePrefix) (Hb : bounds_ok bounds)
    (Hpre : bounded_pcap_prefix (source_content s) bounds.(cb_max_bytes)
              (Some bounds.(cb_max_packets)) = Ok p)
    : AdmissionReader (source_content s) bounds (reader_prefix bounds.(cb_max_bytes) p) :=
  let H := new_bounded_ok (source_content s) bounds s Hb eq_refl in
  mk_reader _ _ _ (new_bounded s) [] (proj1 H) (proj2 H)
    (conj eq_refl (conj eq_refl (conj eq_refl (ex_intro _ p (conj Hpre eq_refl))))).

(** C15: scanning a stored capture through the bounded verified reader is
    scanning its bounded prefix. Over a source that never fails, of the size its
    descriptor gives, of which [bounded_pcap_prefix] returns a prefix, the
    structural index (batches, result or error) and the packets of the export
    decoder equal those of an in-memory file with the bytes of that prefix: for
    every budget if the capture is classic, and for a PCAPNG capture from a
    budget of 24 bytes on; below 24 bytes they are those of an empty file. *)
Theorem scan_through_admission (sha256_hex : bytes -> string) (S : Type)
    (ops : CaptureSource S) (lawful : LawfulSource S) (s : S)
    (bounds : CaptureBounds) (p : PcapBytePrefix) (fuel : nat) (lim : ScanLimits)
    (Hb : bounds_ok bounds) (Hd : bounds.(cb_expected_size) = zlen (source_content s))
    (Hpre : bounded_pcap_prefix (source_content s) bounds.(cb_max_bytes)
              (Some bounds.(cb_max_packets)) = Ok p) :
  reliable (S := S) -> limits_ok lim -> zlen (source_content s) <= _MAX_I64 ->
  let content := if bounds.(cb_max_bytes) <? 24 then [] else p.(pbp_content) in
  (is_Some (CLASSIC_MAGIC (ztake 4 (source_content s))) -> content = p.(pbp_content)) /\
  @scan_structural_packet_index sha256_hex _ (admission_read _ _ _ Hb Hd) fuel
    (admission_reader s bounds p Hb Hpre) lim =
  scan_structural_packet_index sha256_hex fuel {| bio_data := content |} lim /\
  forall source_id source_order values networks, _networks values = Ok networks ->
    @export_packets _ (admission_read _ _ _ Hb Hd) fuel (admission_reader s bounds p Hb Hpre)
      source_id source_order values =
    export_packets fuel {| bio_data := content |} source_id source_order values.
Proof.
  intros Hrel Hlim Hmax content. set (q := reader_prefix bounds.(cb_max_bytes) p).
  assert (content = q.(pbp_content)) as -> by (unfold content, q, reader_prefix; by destruct (_ <? 24)).
  split; [intros Hm; unfold q; by erewrite reader_prefix_classic|].
  pose proof (reader_prefix_grows _ _ bounds.(cb_max_bytes) (bounded_prefix_grows _ bounds p Hpre)) as Hp. fold q in Hp.
  assert (zlen q.(pbp_content) <= _MAX_I64) as Hlen
    by (destruct Hp as [-> ?]; rewrite zlen_ztake by lia; lia).
  pose proof (@scan_refines_content sha256_hex _ _ (admission_lawful _ _ _ Hb Hd Hp Hrel) fuel
    (admission_reader s bounds p Hb Hpre) lim Hlim Hlen) as ->.
  pose proof (scan_refines_content sha256_hex fuel {| bio_data := q.(pbp_content) |} lim Hlim Hlen)
    as ->. split; [done|]. intros source_id source_order values networks Hn.
  rewrite (@export_packets_run _ _ (admission_lawful _ _ _ Hb Hd Hp Hrel) fuel _ _ _ _ networks Hn).
  by rewrite (export_packets_run fuel {| bio_data := q.(pbp_content) |} _ _ _ networks Hn).
Qed.

Lemma scan_through_admission_witness :
  exists (p : PcapBytePrefix) (Hb : bounds_ok sample_bounds)
    (Hd : described (source_content (mk_blob sample_pcapng 2)) sample_bounds)
    (Hpre : bounded_pcap_prefix sample_pcapng 150 (Some 5) = Ok p),
  p.(pbp_content) = ztake 120 sample_pcapng /\
  @scan_structural_packet_index (fun _ => "d"%string) _ (admission_read _ _ _ Hb Hd) 500
    (admission_reader (mk_blob sample_pcapng 2) sample_bounds p Hb Hpre) (sample_limits 2 false) =
  scan_structural_packet_index (fun _ => "d"%string) 500 {| bio_data := p.(pbp_content) |}
    (sample_limits 2 false).
Proof.
  assert (bounds_ok sample_bounds) as Hb by (unfold bounds_ok; simpl; lia).
  assert (described (source_content (mk_blob sample_pcapng 2)) sample_bounds) as Hd by reflexivity.
  assert (bounded_pcap_prefix sample_pcapng 150 (Some 5) =
    Ok (mk_prefix (ztake 120 sample_pcapng) 120 1 true false)) as Hpre by (vm_compute; reflexivity).
  exists _, Hb, Hd, Hpre. split; [reflexivity|].
  apply (scan_through_admission (fun _ => "d"%string) BlobSource _ _ (mk_blob sample_pcapng 2)
    sample_bounds _ 500 (sample_limits 2 false) Hb Hd Hpre blob_reliable);
    [repeat split; vm_compute; reflexivity|vm_compute; discriminate].
Defined.
