(* ===== verification/CaptureParser.v ===== *)
(** * CaptureParser

    pcap.py: the in-memory parser of uploaded captures.  Two generators walk
    the records of a classic or a PCAPNG capture, every packet is decoded into a
    flow record, and [parse_pcap] collects them.

    [_networks], [_timestamp], [_network_packet], [_ethertype_payload] and
    [_raw_ip] are the same text in pcap.py and pcap_export.py and are taken
    from [ExportDecoder] and [PacketProjection].  A flow record is a [Record]
    with an optional field for a key that may be absent.  Functions of other
    modules and of the C library are parameters: SHA-256, [pow(10.0, -n)], the
    payload features and the DDoS sample of a packet. *)

From Stdlib Require Import Ascii String.
From S2P Require Import Prelude Bytes CaptureFormat PyFloat IpAddress PacketProjection ExportDecoder.
From S2P Require Import StructuralIndex PostingModel FlowFilter CapturePrefix BoundedCapture.
#[local] Open Scope Z_scope.

(** ** Captured packets *)

Record _CapturedPacket : Type := mk_captured {
  cap_timestamp : Z;   (* microseconds since the epoch *)
  cap_link_type : Z;
  cap_data : bytes;
  cap_original_length : Z;
  cap_packet_index : Z;
  cap_interface_id : Z;
}.

Record _PcapNgInterface : Type := mk_ng_interface {
  ngi_interface_id : Z;
  ngi_link_type : Z;
  ngi_snaplen : Z;
  ngi_timestamp_resolution : py_float;
  ngi_timestamp_offset : Z;
}.

Definition _MAX_SLL2_INTERFACES : Z := 65536.

(** A generator, run to its end: what it yields and how it ends. *)
Definition generated (A : Type) : Type := (list A * res unit)%type.
Definition gen_raise {A} (e : exn) : generated A := ([], Err e).
Definition gen_end {A} : generated A := ([], Ok tt).
Definition gen_cons {A} (a : A) (g : generated A) : generated A := (a :: g.1, g.2).
(** [x = r], where [r] may raise. *)
Definition gen_let {A B} (r : res B) (k : B -> generated A) : generated A :=
  match r with Ok b => k b | Err e => gen_raise e end.
(** [if cond: raise e] *)
Definition gen_guard {A} (cond : bool) (e : exn) (k : generated A) : generated A :=
  if cond then gen_raise e else k.

Definition packet_limit_exceeded (max_packets : Z) : exn :=
  PcapParseError ("capture exceeds the " +:+ pretty max_packets +:+ " packet limit")
    "PCAP_PACKET_LIMIT_EXCEEDED".

(** ** Classic captures *)

Section classic.
Context (content : bytes) (max_packets : Z).

Fixpoint iter_classic_records (fuel : nat) (e : endian) (resolution snaplen link_type : Z)
    (offset count : Z) : generated _CapturedPacket :=
  match fuel with
  | O => gen_raise OutOfFuel
  | S fuel' =>
      if offset <? zlen content then
        gen_guard (zlen content - offset <? 16)
          (parse_error "classic PCAP packet header is truncated") (
        let seconds := u32 e content offset in
        let fraction := u32 e content (offset + 4) in
        let captured_length := u32 e content (offset + 8) in
        let original_length := u32 e content (offset + 12) in
        let offset := offset + 16 in
        gen_guard ((MAX_CAPTURED_PACKET_BYTES <? captured_length)
                   || (zlen content - offset <? captured_length))
          (parse_error "classic PCAP packet data is truncated or oversized") (
        gen_guard ((original_length <? captured_length) || (snaplen <? captured_length))
          (parse_error "classic PCAP packet length exceeds original length or snap length") (
        let count := count + 1 in
        gen_guard (max_packets <? count) (packet_limit_exceeded max_packets) (
        gen_let (_timestamp (float_add (float_of_Z seconds) (int_truediv fraction resolution)))
          (fun timestamp =>
             gen_cons
               (mk_captured timestamp (Z.land link_type 0xFFFF)
                  (slice offset (offset + captured_length) content) original_length (count - 1) 0)
               (iter_classic_records fuel' e resolution snaplen link_type
                  (offset + captured_length) count))))))
      else gen_end
  end.

(** Every record is at least sixteen bytes long. *)
Definition _iter_classic_pcap : generated _CapturedPacket :=
  gen_guard (zlen content <? 24) (parse_error "classic PCAP global header is truncated") (
  match CLASSIC_MAGIC (ztake 4 content) with
  | None => gen_raise (KeyError "magic")
  | Some (e, resolution) =>
      let major := u16 e content 4 in
      let minor := u16 e content 6 in
      let snaplen := u32 e content 16 in
      let link_type := u32 e content 20 in
      gen_guard (negb (major =? 2) || negb (minor =? 4)) (unsupported_version major minor) (
      gen_guard ((snaplen <? 1) || (MAX_CAPTURED_PACKET_BYTES <? snaplen))
        (parse_error "classic PCAP snap length is invalid") (
      iter_classic_records (S (length content)) e resolution snaplen link_type 24 0))
  end).
End classic.

(** ** PCAPNG captures *)

Section pcapng.
(** [pow(10.0, -n)] of the C library. *)
Context (pow10_neg : Z -> py_float).
Context (content : bytes).

(** [2.0 ** -n] is exact. *)
Definition pow2_neg (n : Z) : py_float := int_truediv 1 (2 ^ n).

(** [0.000001] *)
Definition default_resolution : py_float := int_truediv 1 1000000.

Fixpoint interface_options_loop (fuel : nat) (e : endian) (stop offset : Z)
    (resolution : py_float) (timestamp_offset : Z) : res (py_float * Z) :=
  match fuel with
  | O => Err OutOfFuel
  | S fuel' =>
      if offset + 4 <=? stop then
        let code := u16 e content offset in
        let length := u16 e content (offset + 2) in
        let offset := offset + 4 in
        if code =? 0 then Ok (resolution, timestamp_offset)
        else
          let padded := pad4 length in
          _ ← raise_if (stop <? offset + padded)
                (parse_error "PCAPNG interface option is truncated");
          let value := slice offset (offset + length) content in
          let resolution :=
            if (code =? 9) && (length =? 1) then
              let exponent := byte_at value 0 in
              if Z.land exponent 128 =? 0 then pow10_neg exponent
              else pow2_neg (Z.land exponent 127)
            else resolution in
          let timestamp_offset :=
            if negb ((code =? 9) && (length =? 1)) && ((code =? 14) && (length =? 8))
            then i64 e value 0 else timestamp_offset in
          interface_options_loop fuel' e stop (offset + padded) resolution timestamp_offset
      else Ok (resolution, timestamp_offset)
  end.

(** Every option is at least four bytes long. *)
Definition _pcapng_interface_options (start stop : Z) (e : endian) : res (py_float * Z) :=
  interface_options_loop (S (length content)) e stop start default_resolution 0.

(** What [_iter_pcapng] carries from block to block. *)
Record NgIter : Type := mk_ng_iter {
  ngit_endian : endian;
  ngit_interfaces : list _PcapNgInterface;
  ngit_count : Z;
  ngit_next_interface_id : Z;
  ngit_saw_section : bool;
}.

Definition parse_interface_block (st : NgIter) (offset block_length : Z) : res NgIter :=
  let e := st.(ngit_endian) in
  _ ← raise_if (block_length <? 20) (parse_error "PCAPNG interface block is truncated");
  let link_type := u16 e content (offset + 8) in
  let snaplen := u32 e content (offset + 12) in
  _ ← raise_if ((snaplen <? 1) || (MAX_CAPTURED_PACKET_BYTES <? snaplen))
        (parse_error "PCAPNG interface snap length is invalid");
  '(resolution, timestamp_offset) ←
     _pcapng_interface_options (offset + 16) (offset + block_length - 4) e;
  Ok (mk_ng_iter e
        (st.(ngit_interfaces) ++
         [mk_ng_interface st.(ngit_next_interface_id) link_type snaplen resolution timestamp_offset])
        st.(ngit_count) (st.(ngit_next_interface_id) + 1) st.(ngit_saw_section)).

(** An obsolete packet block (2) has a 16-bit interface id and a drop count. *)
Definition parse_packet_block (max_packets : Z) (st : NgIter) (offset block_type block_length : Z)
    : res (_CapturedPacket * NgIter) :=
  let e := st.(ngit_endian) in
  _ ← raise_if (block_length <? 28 + 4) (parse_error "PCAPNG packet block is truncated");
  let interface_id := if block_type =? 6 then u32 e content (offset + 8)
                      else u16 e content (offset + 8) in
  let high := u32 e content (offset + 12) in
  let low := u32 e content (offset + 16) in
  let captured_length := u32 e content (offset + 20) in
  let original_length := u32 e content (offset + 24) in
  let packet_offset := offset + 28 in
  match st.(ngit_interfaces) !! Z.to_nat interface_id with
  | None => Err (parse_error "PCAPNG packet references an unknown interface")
  | Some interface =>
      _ ← raise_if ((MAX_CAPTURED_PACKET_BYTES <? captured_length)
                    || (offset + block_length - 4 <? packet_offset + pad4 captured_length))
            (parse_error "PCAPNG packet data is truncated or oversized");
      let count := st.(ngit_count) + 1 in
      _ ← raise_if (max_packets <? count) (packet_limit_exceeded max_packets);
      _ ← raise_if ((original_length <? captured_length)
                    || (interface.(ngi_snaplen) <? captured_length))
            (parse_error "PCAPNG packet length exceeds original length or interface snap length");
      let raw_timestamp := Z.lor (Z.shiftl high 32) low in
      timestamp ← _timestamp
        (float_add (float_mul (float_of_Z raw_timestamp) interface.(ngi_timestamp_resolution))
           (float_of_Z interface.(ngi_timestamp_offset)));
      Ok (mk_captured timestamp interface.(ngi_link_type)
            (slice packet_offset (packet_offset + captured_length) content) original_length
            (count - 1) interface.(ngi_interface_id),
          mk_ng_iter e st.(ngit_interfaces) count st.(ngit_next_interface_id)
            st.(ngit_saw_section))
  end.

(** The header of the block at [offset]: byte order, whether a section starts,
    type and length. *)
Definition parse_block_header (e : endian) (offset : Z) : res (endian * bool * Z * Z) :=
  _ ← raise_if (zlen content - offset <? 12) (parse_error "PCAPNG block header is truncated");
  let is_section := bool_decide (slice offset (offset + 4) content = PCAPNG_SECTION) in
  e ← (if is_section then _pcapng_endian content offset else Ok e);
  let block_type := u32 e content offset in
  let block_length := u32 e content (offset + 4) in
  _ ← raise_if ((block_length <? 12) || negb (block_length mod 4 =? 0)
                || (zlen content - offset <? block_length))
        (parse_error "PCAPNG block length is invalid");
  _ ← raise_if (negb (u32 e content (offset + block_length - 4) =? block_length))
        (parse_error "PCAPNG block length trailer does not match");
  Ok (e, is_section, block_type, block_length).

Fixpoint iter_pcapng_blocks (max_packets : Z) (fuel : nat) (st : NgIter) (offset : Z)
    : generated _CapturedPacket :=
  match fuel with
  | O => gen_raise OutOfFuel
  | S fuel' =>
      if offset <? zlen content then
        gen_let (parse_block_header st.(ngit_endian) offset)
          (fun '(e, is_section, block_type, block_length) =>
        let next := offset + block_length in
        let st := mk_ng_iter e st.(ngit_interfaces) st.(ngit_count) st.(ngit_next_interface_id)
                    st.(ngit_saw_section) in
        if is_section then
          iter_pcapng_blocks max_packets fuel'
            (mk_ng_iter e [] st.(ngit_count) st.(ngit_next_interface_id) true) next
        else if negb st.(ngit_saw_section) then
          gen_raise (parse_error "PCAPNG data appears before a section header")
        else if block_type =? 1 then
          gen_let (parse_interface_block st offset block_length)
            (fun st => iter_pcapng_blocks max_packets fuel' st next)
        else if is_packet_block block_type then
          gen_let (parse_packet_block max_packets st offset block_type block_length)
            (fun '(packet, st) => gen_cons packet (iter_pcapng_blocks max_packets fuel' st next))
        else if block_type =? 3 then
          gen_raise (PcapParseError
            "PCAPNG simple packet blocks have no timestamp and are not supported"
            "UNSUPPORTED_PCAPNG_BLOCK")
        else iter_pcapng_blocks max_packets fuel' st next)
      else gen_end
  end.

(** Every block is at least twelve bytes long. *)
Definition _iter_pcapng (max_packets : Z) : generated _CapturedPacket :=
  iter_pcapng_blocks max_packets (S (length content)) (mk_ng_iter LE [] 0 0 false) 0.
End pcapng.

(** ** Transport *)

(** The [tcp_flags] dictionary, six flag bits. *)
Record TcpFlags : Type := mk_tcp_flags {
  tf_fin : Z; tf_syn : Z; tf_rst : Z; tf_psh : Z; tf_ack : Z; tf_urg : Z;
}.

Definition tcp_flags_of (flags_byte : Z) : TcpFlags :=
  mk_tcp_flags (Z.shiftr (Z.land flags_byte 0x01) 0) (Z.shiftr (Z.land flags_byte 0x02) 1)
    (Z.shiftr (Z.land flags_byte 0x04) 2) (Z.shiftr (Z.land flags_byte 0x08) 3)
    (Z.shiftr (Z.land flags_byte 0x10) 4) (Z.shiftr (Z.land flags_byte 0x20) 5).

(** Protocol, ports, payload, TCP flags (an empty dictionary is [None]) and TCP
    sequence. *)
Definition _transport (protocol_number : Z) (transport : bytes) (first_fragment : bool)
    : string * option Z * option Z * bytes * option TcpFlags * option Z :=
  let protocol := protocol_name protocol_number in
  if negb first_fragment then (protocol, None, None, [], None, None)
  else if (protocol_number =? 6) && (20 <=? zlen transport) then
    let tcp_sequence := u32 BE transport 4 in
    let header_length := Z.shiftr (byte_at transport 12) 4 * 4 in
    let payload := if (20 <=? header_length) && (header_length <=? zlen transport)
                   then zdrop header_length transport else [] in
    (protocol, Some (u16 BE transport 0), Some (u16 BE transport 2), payload,
     Some (tcp_flags_of (byte_at transport 13)), Some tcp_sequence)
  else if (protocol_number =? 17) && (8 <=? zlen transport) then
    let udp_length := u16 BE transport 4 in
    let stop := if 8 <=? udp_length then Z.min (zlen transport) udp_length else zlen transport in
    (protocol, Some (u16 BE transport 0), Some (u16 BE transport 2), slice 8 stop transport,
     None, None)
  else
    let header_length :=
      if ((protocol_number =? 1) || (protocol_number =? 58)) && (8 <=? zlen transport)
      then 8 else 0 in
    (protocol, None, None, zdrop header_length transport, None, None).

(** ** Packet evidence *)

Record QuotedFlow : Type := mk_quoted {
  qf_source_ip : string;
  qf_destination_ip : string;
  qf_source_port : Z;
  qf_destination_port : Z;
  qf_protocol : string;
}.

Definition quoted_ports (packet : bytes) (offset protocol : Z) (source destination : bytes)
    : option QuotedFlow :=
  if negb ((protocol =? 6) || (protocol =? 17)) || (zlen packet <? offset + 4) then None
  else Some (mk_quoted (ip_str (ip_of_packed source)) (ip_str (ip_of_packed destination))
               (u16 BE packet offset) (u16 BE packet (offset + 2))
               (if protocol =? 6 then "TCP" else "UDP")).

Definition _quoted_flow (packet : bytes) : option QuotedFlow :=
  if (20 <=? zlen packet) && (Z.shiftr (byte_at packet 0) 4 =? 4) then
    let offset := Z.land (byte_at packet 0) 15 * 4 in
    if (offset <? 20) || negb (Z.land (from_be (slice 6 8 packet)) 0x1FFF =? 0) then None
    else quoted_ports packet offset (byte_at packet 9) (slice 12 16 packet) (slice 16 20 packet)
  else if (40 <=? zlen packet) && (Z.shiftr (byte_at packet 0) 4 =? 6) then
    quoted_ports packet 40 (byte_at packet 6) (slice 8 24 packet) (slice 24 40 packet)
  else None.

(** The IPv4 identification counts. *)
Record IpIdCounts : Type := mk_ip_id { ipid_observed : Z; ipid_zero : Z; ipid_distinct : Z }.

(** ICMP type and code, whether it is an error, and the flow it quotes. *)
Record IcmpEvidence : Type := mk_icmp {
  ic_type : Z;
  ic_code : Z;
  ic_error : bool;
  ic_quoted_flow : option (option QuotedFlow);   (* present only for an error *)
}.

Record PacketEvidence : Type := mk_evidence {
  pe_ip_ttl : Z;
  pe_complete : bool;
  pe_hop_limit_min : Z;
  pe_hop_limit_max : Z;
  pe_hop_limit_mode : Z;
  pe_hop_limit_distinct_count : Z;
  pe_tcp_acknowledgment : option Z;
  pe_tcp_window : option Z;
  pe_transport_payload_length : option Z;
  pe_icmp : option IcmpEvidence;
  pe_ip_id : option IpIdCounts;
}.

Definition evidence_of (ttl : Z) (complete : bool) (ack window payload_length : option Z)
    (icmp : option IcmpEvidence) : PacketEvidence :=
  mk_evidence ttl complete ttl ttl ttl 1 ack window payload_length icmp None.

Definition is_icmp_error (protocol kind : Z) : bool :=
  if protocol =? 1 then bool_decide (kind ∈ [3; 4; 5; 11; 12]) else bool_decide (kind ∈ [1; 2; 3; 4]).

Definition _packet_evidence (protocol : Z) (transport : bytes) (complete : bool) (ttl : Z)
    : PacketEvidence :=
  if protocol =? 6 then
    let header := if 20 <=? zlen transport then Z.shiftr (byte_at transport 12) 4 * 4 else 0 in
    let valid := (20 <=? header) && (header <=? zlen transport) in
    if valid then
      evidence_of ttl (complete && valid) (Some (from_be (slice 8 12 transport)))
        (Some (from_be (slice 14 16 transport))) (Some (zlen transport - header)) None
    else evidence_of ttl (complete && valid) None None None None
  else if protocol =? 17 then
    let length := if 8 <=? zlen transport then from_be (slice 4 6 transport) else 0 in
    evidence_of ttl (complete && ((8 <=? length) && (length <=? zlen transport))) None None
      (Some (Z.max 0 (length - 8))) None
  else if (protocol =? 1) || (protocol =? 58) then
    evidence_of ttl (complete && (8 <=? zlen transport)) None None None
      (if 8 <=? zlen transport then
         let error := is_icmp_error protocol (byte_at transport 0) in
         Some (mk_icmp (byte_at transport 0) (byte_at transport 1) error
                 (if error then Some (_quoted_flow (zdrop 8 transport)) else None))
       else None)
  else evidence_of ttl complete None None None None.

Definition with_ip_id (counts : IpIdCounts) (e : PacketEvidence) : PacketEvidence :=
  mk_evidence e.(pe_ip_ttl) e.(pe_complete) e.(pe_hop_limit_min) e.(pe_hop_limit_max)
    e.(pe_hop_limit_mode) e.(pe_hop_limit_distinct_count) e.(pe_tcp_acknowledgment)
    e.(pe_tcp_window) e.(pe_transport_payload_length) e.(pe_icmp) (Some counts).

(** ** Network layer *)

(** The dictionary [_decode_ipv4] and [_decode_ipv6] return. *)
Record DecodedIp : Type := mk_decoded {
  dec_ip_length : Z;
  dec_source_ip : ip_address;
  dec_destination_ip : ip_address;
  dec_source_port : option Z;
  dec_destination_port : option Z;
  dec_protocol : string;
  dec_payload : bytes;
  dec_tcp_flags : option TcpFlags;
  dec_tcp_sequence : option Z;
  dec_packet_evidence : PacketEvidence;
}.

Definition _decode_ipv4 (packet : bytes) : option DecodedIp :=
  if (zlen packet <? 20) || negb (Z.shiftr (byte_at packet 0) 4 =? 4) then None
  else
    let header_length := Z.land (byte_at packet 0) 15 * 4 in
    let total_length := from_be (slice 2 4 packet) in
    if (header_length <? 20) || (total_length <? header_length) || (zlen packet <? header_length)
    then None
    else
      let stop := Z.min (zlen packet) total_length in
      let protocol_number := byte_at packet 9 in
      let fragment_offset := Z.land (from_be (slice 6 8 packet)) 0x1FFF in
      let transport := slice header_length stop packet in
      let '(protocol, source_port, destination_port, payload, tcp_flags, tcp_sequence) :=
        _transport protocol_number transport (fragment_offset =? 0) in
      let complete := (total_length <=? zlen packet)
                      && (Z.land (from_be (slice 6 8 packet)) 0x3FFF =? 0) in
      Some (mk_decoded total_length (ip_of_packed (slice 12 16 packet))
              (ip_of_packed (slice 16 20 packet)) source_port destination_port protocol payload
              tcp_flags tcp_sequence
              (with_ip_id (mk_ip_id 1 (if bool_decide (slice 4 6 packet = [x00; x00]) then 1 else 0) 1)
                 (_packet_evidence protocol_number transport complete (byte_at packet 8)))).

(** The loop over extension headers, which also notes a fragment header. *)
Fixpoint ipv6_extension_headers (n : nat) (packet : bytes) (stop next_header offset : Z)
    (first_fragment fragmented : bool) : option (Z * Z * bool * bool) :=
  match n with
  | O => Some (next_header, offset, first_fragment, fragmented)
  | S n' =>
      let step length first_fragment fragmented :=
        if (length <? 8) || (stop <? offset + length) then None
        else ipv6_extension_headers n' packet stop (byte_at packet offset) (offset + length)
               first_fragment fragmented in
      if (next_header =? 0) || (next_header =? 43) || (next_header =? 60) then
        if stop <? offset + 2 then None
        else step ((byte_at packet (offset + 1) + 1) * 8) first_fragment fragmented
      else if next_header =? 44 then
        if stop <? offset + 8 then None
        else step 8 (Z.shiftr (from_be (slice (offset + 2) (offset + 4) packet)) 3 =? 0) true
      else if next_header =? 51 then
        if stop <? offset + 2 then None
        else step ((byte_at packet (offset + 1) + 2) * 4) first_fragment fragmented
      else Some (next_header, offset, first_fragment, fragmented)
  end.

Definition _decode_ipv6 (packet : bytes) : option DecodedIp :=
  if (zlen packet <? 40) || negb (Z.shiftr (byte_at packet 0) 4 =? 6) then None
  else
    let payload_length := from_be (slice 4 6 packet) in
    let stop := if payload_length =? 0 then zlen packet
                else Z.min (zlen packet) (40 + payload_length) in
    '(next_header, offset, first_fragment, fragmented) ←
       ipv6_extension_headers 8 packet stop (byte_at packet 6) 40 true false;
    let '(protocol, source_port, destination_port, payload, tcp_flags, tcp_sequence) :=
      _transport next_header (slice offset stop packet) first_fragment in
    let complete := negb (payload_length =? 0) && (40 + payload_length <=? zlen packet)
                    && negb fragmented in
    Some (mk_decoded (40 + payload_length) (ip_of_packed (slice 8 24 packet))
            (ip_of_packed (slice 24 40 packet)) source_port destination_port protocol payload
            tcp_flags tcp_sequence
            (_packet_evidence next_header (slice offset stop packet) complete (byte_at packet 7))).

(** [_direction] on the text of two addresses: it parses them back. *)

(** ** Application names *)

(** [raw.decode("ascii")] of bytes that were checked to be ASCII. *)
Definition ascii_text (raw : bytes) : string := string_of_list_byte raw.

Definition _safe_application_text (raw : bytes) (max_length : Z) : option string :=
  let raw := ztake max_length raw in
  if bool_decide (raw = []) then None
  else if existsb (fun b => (b2z b <? 0x20) || (b2z b =? 0x7F) || (0x7E <? b2z b)) raw then None
  else or_none (str_lower (str_strip (ascii_text raw))).

(** [sum(len(item) + 1 for item in labels)] *)
Definition labels_length (labels : list string) : Z :=
  foldr (fun s n => Z.of_nat (String.length s) + 1 + n) 0 labels.

Fixpoint dns_labels (fuel : nat) (payload : bytes) (offset : Z) (labels : list string)
    : option (list string) :=
  match fuel with
  | O => None
  | S fuel' =>
      if offset <? zlen payload then
        let length := byte_at payload offset in
        let offset := offset + 1 in
        if length =? 0 then Some labels
        else if negb (Z.land length 0xC0 =? 0) || (63 <? length)
                || (zlen payload <? offset + length) then None
        else
          let raw_label := slice offset (offset + length) payload in
          if existsb (fun b => (b2z b <? 0x21) || (0x7E <? b2z b)) raw_label then None
          else
            let labels := labels ++ [str_lower (ascii_text raw_label)] in
            if 253 <? labels_length labels then None
            else dns_labels fuel' payload (offset + length) labels
      else Some labels
  end.

(** [".".join(labels)] *)
Definition join_labels (labels : list string) : string := String.concat "." labels.

(** Every label takes at least two bytes of the payload. *)
Definition _dns_query_name (payload : bytes) : option string :=
  if (zlen payload <? 13) || (from_be (slice 4 6 payload) <? 1) then None
  else
    labels ← dns_labels (S (length payload)) payload 12 [];
    or_none (join_labels labels).

(** [payload.split(b"\r\n")] *)
Fixpoint split_crlf (l : bytes) (line : bytes) : list bytes :=
  match l with
  | [] => [rev line]
  | b :: l' =>
      match b, l' with
      | x0d, x0a :: l'' => rev line :: split_crlf l'' []
      | _, _ => split_crlf l' (b :: line)
      end
  end.

Definition byte_lower (b : byte) : byte :=
  if (65 <=? b2z b) && (b2z b <=? 90) then z2b (b2z b + 32) else b.

(** What follows the first colon of a line, and what precedes it. *)
Fixpoint before_colon (l : bytes) : bytes :=
  match l with
  | [] => []
  | b :: l' => if bool_decide (b = x3a) then [] else b :: before_colon l'
  end.
Fixpoint after_colon (l : bytes) : bytes :=
  match l with
  | [] => []
  | b :: l' => if bool_decide (b = x3a) then l' else after_colon l'
  end.

(** [bytes.strip()] *)
Definition byte_space (b : byte) : bool :=
  ((9 <=? b2z b) && (b2z b <=? 13)) || (b2z b =? 32).
Fixpoint strip_left (l : bytes) : bytes :=
  match l with b :: l' => if byte_space b then strip_left l' else l | [] => [] end.
Definition bytes_strip (l : bytes) : bytes := rev (strip_left (rev (strip_left l))).

(** [b"host:"] *)
Definition HOST_PREFIX : bytes := [x68; x6f; x73; x74; x3a].

Fixpoint host_header (lines : list bytes) : option (option string) :=
  match lines with
  | [] => None
  | line :: lines' =>
      if bool_decide (ztake 5 (byte_lower <$> line) = HOST_PREFIX)
      then Some (_safe_application_text (before_colon (bytes_strip (after_colon line))) 253)
      else host_header lines'
  end.

Definition is_http_port (p : option Z) : bool :=
  match p with Some p => bool_decide (p ∈ [80; 8000; 8080; 8888]) | None => false end.

Definition _application_domain (protocol : string) (source_port destination_port : option Z)
    (payload : bytes) : option string :=
  if bool_decide (ztake 4 payload = [x73; x6e; x69; x2d]) then _safe_application_text payload 253
  else
    let dns :=
      if bool_decide (source_port = Some 53) || bool_decide (destination_port = Some 53) then
        _dns_query_name (if bool_decide (protocol = "TCP"%string) && (2 <=? zlen payload)
                         then zdrop 2 payload else payload)
      else None in
    match dns with
    | Some domain => Some domain
    | None =>
        if bool_decide (protocol = "TCP"%string)
           && (is_http_port source_port || is_http_port destination_port)
        then default None (host_header (split_crlf (ztake 8192 payload) []))
        else None
    end.

(** ** Flow records *)

(** The counters every TCP packet carries. *)
Record TcpCounts : Type := mk_tcp_counts {
  tc_syn_count : Z;
  tc_ack_count : Z;
  tc_rst_count : Z;
  tc_syn_only_count : Z;
  tc_syn_ack_count : Z;
  tc_ack_only_count : Z;
  tc_syn_only_observations : list (Z * Z);   (* offset in microseconds, sequence *)
}.

(** [int(bool(...))] *)
Definition int_of_bool (b : bool) : Z := if b then 1 else 0.

Definition tcp_counts (flags : option TcpFlags) (tcp_sequence : option Z) : TcpCounts :=
  let get f := match flags with Some flags => f flags | None => 0 end in
  let syn := get tf_syn in
  let ack := get tf_ack in
  let rst := get tf_rst in
  let on v := negb (v =? 0) in
  let syn_only := on syn && negb (on ack) && negb (on rst) in
  mk_tcp_counts syn ack rst (int_of_bool syn_only)
    (int_of_bool (on syn && on ack && negb (on rst)))
    (int_of_bool (on ack && negb (on syn) && negb (on rst)))
    (match tcp_sequence with Some sequence => if syn_only then [(0, sequence)] else [] | None => [] end).

(** The flag byte the DDoS sample is computed from; ECE and CWR are never set. *)
Definition flags_value (flags : option TcpFlags) : Z :=
  match flags with
  | None => 0
  | Some f =>
      let bit index v := Z.shiftl 1 index * int_of_bool (negb (v =? 0)) in
      bit 0 f.(tf_fin) + bit 1 f.(tf_syn) + bit 2 f.(tf_rst) + bit 3 f.(tf_psh)
      + bit 4 f.(tf_ack) + bit 5 f.(tf_urg)
  end.

(** The retained packet: its bytes, or their hexadecimal text. *)
Record RawPacket : Type := mk_raw {
  raw_content : bytes + bytes;
  raw_link_type : Z;
  raw_captured_length : Z;
  raw_original_length : Z;
  raw_index : Z;
  raw_interface_id : Z;
}.

(** The keys added with [retain_network_evidence]. *)
Record NetworkEvidence (Sample : Type) : Type := mk_network_evidence {
  ne_packet : PacketEvidence;
  ne_tcp_sequence : option Z;
  ne_capture_interface_id : option Z;
  ne_complete : bool;
  ne_omitted_samples : Z;
  ne_samples : list Sample;
}.
Arguments mk_network_evidence {Sample} _ _ _ _ _ _.
Arguments ne_packet {Sample} _.
Arguments ne_tcp_sequence {Sample} _.
Arguments ne_capture_interface_id {Sample} _.
Arguments ne_complete {Sample} _.
Arguments ne_omitted_samples {Sample} _.
Arguments ne_samples {Sample} _.

(** A decoded packet; [packet_count] is one, [packet_sizes] holds
    [total_bytes] and [last_payload_hash] is [payload_hash]. *)
Record FlowRecord (Features Sample : Type) : Type := mk_flow {
  fr_sensor_id : string;
  fr_timestamp : Z;
  fr_source_ip : string;
  fr_destination_ip : string;
  fr_source_port : option Z;
  fr_destination_port : option Z;
  fr_protocol : string;
  fr_direction : Direction;
  fr_total_bytes : Z;
  fr_payload_hash : option string;
  fr_domain : option string;
  fr_evidence : option (NetworkEvidence Sample);
  fr_features : option Features;
  fr_tcp_flags : option TcpFlags;
  fr_tcp_counts : option TcpCounts;
  fr_payload_sample_hex : option bytes;
  fr_raw : option RawPacket;
}.
Arguments mk_flow {Features Sample} _ _ _ _ _ _ _ _ _ _ _ _ _ _ _ _ _.
Arguments fr_sensor_id {Features Sample} _.
Arguments fr_timestamp {Features Sample} _.
Arguments fr_source_ip {Features Sample} _.
Arguments fr_destination_ip {Features Sample} _.
Arguments fr_source_port {Features Sample} _.
Arguments fr_destination_port {Features Sample} _.
Arguments fr_protocol {Features Sample} _.
Arguments fr_direction {Features Sample} _.
Arguments fr_total_bytes {Features Sample} _.
Arguments fr_payload_hash {Features Sample} _.
Arguments fr_domain {Features Sample} _.
Arguments fr_evidence {Features Sample} _.
Arguments fr_features {Features Sample} _.
Arguments fr_tcp_flags {Features Sample} _.
Arguments fr_tcp_counts {Features Sample} _.
Arguments fr_payload_sample_hex {Features Sample} _.
Arguments fr_raw {Features Sample} _.

(** The options of [parse_pcap]. *)
Record ParseOptions : Type := {
  po_retain_packet_bytes : bool;
  po_retain_packet_bytes_as_bytes : bool;
  po_retain_payload_sample_bytes : Z;
  po_allow_no_supported_packets : bool;
  po_truncate_at_max_packets : bool;
  po_retain_network_evidence : bool;
}.

(** ** Capture-local interface identities *)

Abbreviation interface_table := (gmap (Z * Z) Z) (only parsing).

(** [_capture_interface_id]; the dictionary is updated in place. *)
Definition _capture_interface_id (packet : _CapturedPacket) (interfaces : interface_table)
    (container_interface_bound : Z) : option Z * interface_table :=
  if negb (packet.(cap_link_type) =? 276) then (Some packet.(cap_interface_id), interfaces)
  else if zlen packet.(cap_data) <? 20 then (None, interfaces)
  else
    let ifindex := from_be (slice 4 8 packet.(cap_data)) in
    if ifindex =? 0 then (None, interfaces)
    else
      let key := (packet.(cap_interface_id), ifindex) in
      match interfaces !! key with
      | Some identity => (Some identity, interfaces)
      | None =>
          let identity := (2 ^ 32 - 1) - Z.of_nat (size interfaces) in
          if (_MAX_SLL2_INTERFACES <=? Z.of_nat (size interfaces))
             || (identity <? container_interface_bound)
          then (None, interfaces)
          else (Some identity, <[key := identity]> interfaces)
      end.

(** ** Parsing *)

Section parse.
Context (sha256_hex : bytes -> string) (pow10_neg : Z -> py_float).
Context {Features Sample : Type}.
Context (extract_payload_features : bytes -> option Features).
Context (packet_sample : Z -> string -> Z -> Z -> bytes -> option Z -> option Z -> option Sample).

Abbreviation record := (FlowRecord Features Sample).

(** The evidence keys of a decoded packet. *)
Definition network_evidence (captured : _CapturedPacket) (d : DecodedIp)
    : NetworkEvidence Sample :=
  let complete := d.(dec_packet_evidence).(pe_complete)
                  && (zlen captured.(cap_data) =? captured.(cap_original_length)) in
  let sample :=
    if complete then
      packet_sample captured.(cap_timestamp) d.(dec_protocol) d.(dec_ip_length)
        (flags_value d.(dec_tcp_flags)) d.(dec_payload) d.(dec_source_port)
        d.(dec_destination_port)
    else None in
  mk_network_evidence d.(dec_packet_evidence) d.(dec_tcp_sequence)
    (Some captured.(cap_interface_id)) complete
    (match sample with Some _ => 0 | None => int_of_bool complete end)
    (match sample with Some s => [s] | None => [] end).

Definition raw_packet (options : ParseOptions) (captured : _CapturedPacket) : RawPacket :=
  mk_raw (if options.(po_retain_packet_bytes_as_bytes) then inl captured.(cap_data)
          else inr (hex captured.(cap_data)))
    captured.(cap_link_type) (zlen captured.(cap_data)) captured.(cap_original_length)
    captured.(cap_packet_index) captured.(cap_interface_id).

Definition _decode_packet (captured : _CapturedPacket) (sensor_id : string)
    (networks : list ip_network) (options : ParseOptions) : res (option record) :=
  match _network_packet captured.(cap_data) captured.(cap_link_type) with
  | None => Ok None
  | Some (version, packet) =>
      match (if version =? 4 then _decode_ipv4 packet else _decode_ipv6 packet) with
      | None => Ok None
      | Some d =>
          let source_ip := ip_str d.(dec_source_ip) in
          let destination_ip := ip_str d.(dec_destination_ip) in
          let payload := d.(dec_payload) in
          let has_payload := negb (bool_decide (payload = [])) in
          direction ← _direction source_ip destination_ip networks;
          Ok (Some {|
            fr_sensor_id := sensor_id;
            fr_timestamp := captured.(cap_timestamp);
            fr_source_ip := source_ip;
            fr_destination_ip := destination_ip;
            fr_source_port := d.(dec_source_port);
            fr_destination_port := d.(dec_destination_port);
            fr_protocol := d.(dec_protocol);
            fr_direction := direction;
            fr_total_bytes := zlen captured.(cap_data);
            fr_payload_hash := if has_payload then Some (sha256_hex payload) else None;
            fr_domain := _application_domain d.(dec_protocol) d.(dec_source_port)
                           d.(dec_destination_port) payload;
            fr_evidence := if options.(po_retain_network_evidence)
                           then Some (network_evidence captured d) else None;
            fr_features := extract_payload_features payload;
            fr_tcp_flags := d.(dec_tcp_flags);
            fr_tcp_counts := if bool_decide (d.(dec_protocol) = "TCP"%string)
                             then Some (tcp_counts d.(dec_tcp_flags) d.(dec_tcp_sequence))
                             else None;
            fr_payload_sample_hex :=
              if negb (options.(po_retain_payload_sample_bytes) =? 0) && has_payload
              then Some (hex (ztake options.(po_retain_payload_sample_bytes) payload)) else None;
            fr_raw := if options.(po_retain_packet_bytes)
                      then Some (raw_packet options captured) else None;
          |})
      end
  end.

(** [decoded["capture_interface_id"] = ...], and incomplete without one. *)
Definition set_capture_interface (interface_id : option Z) (e : NetworkEvidence Sample)
    : NetworkEvidence Sample :=
  mk_network_evidence e.(ne_packet) e.(ne_tcp_sequence) interface_id
    (match interface_id with Some _ => e.(ne_complete) | None => false end)
    e.(ne_omitted_samples) e.(ne_samples).

Definition with_evidence (ev : option (NetworkEvidence Sample)) (r : record) : record :=
  mk_flow r.(fr_sensor_id) r.(fr_timestamp) r.(fr_source_ip) r.(fr_destination_ip)
    r.(fr_source_port) r.(fr_destination_port) r.(fr_protocol) r.(fr_direction)
    r.(fr_total_bytes) r.(fr_payload_hash) r.(fr_domain) ev r.(fr_features) r.(fr_tcp_flags)
    r.(fr_tcp_counts) r.(fr_payload_sample_hex) r.(fr_raw).

(** What the loop of [parse_pcap] accumulates. *)
Record ParseState : Type := mk_parse {
  ps_records : list record;
  ps_captured : Z;
  ps_timestamps : list Z;
  ps_link_types : gset Z;
  ps_interfaces : interface_table;
  ps_truncated : bool;
}.

Definition parse_start : ParseState := mk_parse [] 0 [] ∅ ∅ false.

(** The identity of the packet's interface, allocated for supported packets
    when evidence is retained. *)
Definition attach_interface (options : ParseOptions) (bound : Z) (packet : _CapturedPacket)
    (r : record) (interfaces : interface_table) : record * interface_table :=
  match r.(fr_evidence) with
  | Some e =>
      if options.(po_retain_network_evidence) then
        let '(interface_id, interfaces') := _capture_interface_id packet interfaces bound in
        (with_evidence (Some (set_capture_interface interface_id e)) r, interfaces')
      else (r, interfaces)
  | None => (r, interfaces)
  end.

Definition parse_packet (sensor_id : string) (networks : list ip_network)
    (options : ParseOptions) (bound : Z) (packet : _CapturedPacket) (st : ParseState)
    : res ParseState :=
  decoded ← _decode_packet packet sensor_id networks options;
  let '(records, interfaces) :=
    match decoded with
    | Some r =>
        let '(r, interfaces) := attach_interface options bound packet r st.(ps_interfaces) in
        (st.(ps_records) ++ [r], interfaces)
    | None => (st.(ps_records), st.(ps_interfaces))
    end in
  Ok (mk_parse records (st.(ps_captured) + 1) (st.(ps_timestamps) ++ [packet.(cap_timestamp)])
        ({[packet.(cap_link_type)]} ∪ st.(ps_link_types)) interfaces st.(ps_truncated)).

(** The loop over the generator: a break leaves its later packets and its error
    unread. *)
Fixpoint parse_packets (sensor_id : string) (networks : list ip_network)
    (options : ParseOptions) (max_packets bound : Z) (packets : list _CapturedPacket)
    (ended : res unit) (st : ParseState) : res ParseState :=
  match packets with
  | [] => _ ← ended; Ok st
  | packet :: packets' =>
      if options.(po_truncate_at_max_packets) && (max_packets <=? st.(ps_captured)) then
        Ok (mk_parse st.(ps_records) st.(ps_captured) st.(ps_timestamps) st.(ps_link_types)
              st.(ps_interfaces) true)
      else
        st ← parse_packet sensor_id networks options bound packet st;
        parse_packets sensor_id networks options max_packets bound packets' ended st
  end.

Record PcapParseResult : Type := mk_parse_result {
  ppr_records : list record;
  ppr_capture_format : capture_format;
  ppr_captured_packet_count : Z;
  ppr_parsed_packet_count : Z;
  ppr_skipped_packet_count : Z;
  ppr_link_types : list Z;
  ppr_start_time : Z;
  ppr_end_time : Z;
  ppr_truncated : bool;
}.

(** [min(l)] and [max(l)] of a non-empty list. *)
Definition list_min (l : list Z) : Z := match l with x :: l' => foldr Z.min x l' | [] => 0 end.
Definition list_max (l : list Z) : Z := match l with x :: l' => foldr Z.max x l' | [] => 0 end.

(** The format and the generator [content] is read with. *)
Definition capture_packets (content : bytes) (max_packets : Z)
    : res (capture_format * generated _CapturedPacket) :=
  match CLASSIC_MAGIC (ztake 4 content) with
  | Some _ => Ok (PCAP, _iter_classic_pcap content max_packets)
  | None =>
      if bool_decide (ztake 4 content = PCAPNG_SECTION)
      then Ok (PCAPNG, _iter_pcapng pow10_neg content max_packets)
      else Err (parse_error "file is not a classic PCAP or PCAPNG capture")
  end.

Definition parse_pcap (content : bytes) (sensor_id : string) (internal_networks : list string)
    (max_packets : Z) (options : ParseOptions) : res PcapParseResult :=
  _ ← raise_if (max_packets <? 1) (ValueError "max_packets must be positive");
  _ ← raise_if (negb ((0 <=? options.(po_retain_payload_sample_bytes))
                      && (options.(po_retain_payload_sample_bytes) <=? 256)))
        (ValueError "retain_payload_sample_bytes must be between 0 and 256");
  networks ← _networks internal_networks;
  let iterator_max_packets :=
    if options.(po_truncate_at_max_packets) then max_packets + 1 else max_packets in
  '(format, (packets, ended)) ← capture_packets content iterator_max_packets;
  let bound := match format with PCAPNG => zlen content / 20 | PCAP => 1 end in
  st ← parse_packets sensor_id networks options max_packets bound packets ended parse_start;
  _ ← raise_if (st.(ps_captured) =? 0)
        (PcapParseError "capture does not contain timestamped packets" "EMPTY_PCAP");
  _ ← raise_if (bool_decide (st.(ps_records) = []) && negb options.(po_allow_no_supported_packets))
        (PcapParseError "capture contains no supported IPv4 or IPv6 packets"
           "NO_SUPPORTED_IP_PACKETS");
  Ok (mk_parse_result st.(ps_records) format st.(ps_captured) (zlen st.(ps_records))
        (st.(ps_captured) - zlen st.(ps_records)) (sort_by Z.leb (elements st.(ps_link_types)))
        (list_min st.(ps_timestamps)) (list_max st.(ps_timestamps)) st.(ps_truncated)).

(** The options of [find_pcap_record]. *)
Definition find_options (retain_payload_sample_bytes : Z) : ParseOptions := {|
  po_retain_packet_bytes := false;
  po_retain_packet_bytes_as_bytes := false;
  po_retain_payload_sample_bytes := retain_payload_sample_bytes;
  po_allow_no_supported_packets := false;
  po_truncate_at_max_packets := false;
  po_retain_network_evidence := false;
|}.

Fixpoint find_record (predicate : record -> bool) (sensor_id : string)
    (networks : list ip_network) (options : ParseOptions) (packets : list _CapturedPacket)
    (ended : res unit) (count : Z) : res (option record) :=
  match packets with
  | [] =>
      _ ← ended;
      _ ← raise_if (count =? 0)
            (PcapParseError "capture does not contain timestamped packets" "EMPTY_PCAP");
      Ok None
  | packet :: packets' =>
      decoded ← _decode_packet packet sensor_id networks options;
      match decoded with
      | Some r => if predicate r then Ok (Some r)
                  else find_record predicate sensor_id networks options packets' ended (count + 1)
      | None => find_record predicate sensor_id networks options packets' ended (count + 1)
      end
  end.

Definition find_pcap_record (content : bytes) (sensor_id : string)
    (internal_networks : list string) (predicate : record -> bool) (max_packets : Z)
    (retain_payload_sample_bytes : Z) : res (option record) :=
  _ ← raise_if (max_packets <? 1) (ValueError "max_packets must be positive");
  _ ← raise_if (negb ((0 <=? retain_payload_sample_bytes) && (retain_payload_sample_bytes <=? 256)))
        (ValueError "retain_payload_sample_bytes must be between 0 and 256");
  networks ← _networks internal_networks;
  '(_, (packets, ended)) ← capture_packets content max_packets;
  find_record predicate sensor_id networks (find_options retain_payload_sample_bytes) packets
    ended 0.
End parse.
