(* ===== verification/ParserProofs.v ===== *)
(** * ParserProofs

    The in-memory parser of [CaptureParser]: its records agree with the export
    projection of the same bytes, its accounting is right, a bounded prefix of a
    capture parses to the first packets of the capture, the interface
    identities it allocates never collide, and the early-exit search finds what
    a full parse would have found. *)

From Stdlib Require Import String.
From S2P Require Import Prelude Bytes Samples CaptureFormat PyFloat IpAddress IpText PacketProjection.
From S2P Require Import ExportDecoder StructuralIndex PostingModel FlowFilter CapturePrefix.
From S2P Require Import BoundedCapture BoundedProofs CaptureParser.
#[local] Open Scope Z_scope.

(** ** The parser and the export projection decode alike *)

(** The fields both decoders compute. *)
Definition decoded_fields (d : DecodedIp) : decoded :=
  (ip_str d.(dec_source_ip), ip_str d.(dec_destination_ip), d.(dec_source_port),
   d.(dec_destination_port), d.(dec_protocol), d.(dec_payload)).

Lemma transport_agrees n transport first :
  let '(protocol, sp, dp, payload, _, _) := CaptureParser._transport n transport first in
  PacketProjection._transport n transport first = (protocol, sp, dp, payload).
Proof.
  unfold CaptureParser._transport, PacketProjection._transport.
  destruct (negb first); [done|]. destruct (_ && (20 <=? _)); [done|].
  by destruct (_ && (8 <=? _)).
Qed.

Lemma headers_agree n packet stop nh offset ff fr :
  ipv6_headers n packet stop nh offset ff =
  (fun '(nh, offset, ff, _) => (nh, offset, ff)) <$>
    ipv6_extension_headers n packet stop nh offset ff fr.
Proof.
  revert nh offset ff fr. induction n as [|n IH]; intros nh offset ff fr; [done|].
  cbn [ipv6_headers ipv6_extension_headers]. repeat case_match; done || apply IH.
Qed.

Lemma decode_ipv4_agrees packet :
  PacketProjection._decode_ipv4 packet = decoded_fields <$> CaptureParser._decode_ipv4 packet.
Proof.
  unfold PacketProjection._decode_ipv4, CaptureParser._decode_ipv4. destruct (_ || _); [done|].
  destruct (_ || _); [done|]. cbv zeta.
  pose proof (transport_agrees (byte_at packet 9)
    (slice (Z.land (byte_at packet 0) 15 * 4) (Z.min (zlen packet) (from_be (slice 2 4 packet))) packet)
    (Z.land (from_be (slice 6 8 packet)) 0x1FFF =? 0)) as H.
  destruct (CaptureParser._transport _ _ _) as [[[[[pr sp] dp] pl] fl] sq]. by rewrite H.
Qed.

Lemma decode_ipv6_agrees packet :
  PacketProjection._decode_ipv6 packet = decoded_fields <$> CaptureParser._decode_ipv6 packet.
Proof.
  unfold PacketProjection._decode_ipv6, CaptureParser._decode_ipv6. destruct (_ || _); [done|].
  cbv zeta. rewrite (headers_agree _ _ _ _ _ _ false).
  destruct (ipv6_extension_headers _ _ _ _ _ _ _) as [[[[nh off] ff] fr]|]; [|done]. simpl.
  match goal with |- context [CaptureParser._transport ?a ?b ?c] =>
    pose proof (transport_agrees a b c) as H;
    destruct (CaptureParser._transport a b c) as [[[[[pr sp] dp] pl] fl] sq] end.
  by rewrite H.
Qed.

(** The projected fields of a flow record. *)
Definition record_projection {F S} (r : FlowRecord F S) : Projection := {|
  pp_source_ip := Some r.(fr_source_ip);
  pp_destination_ip := Some r.(fr_destination_ip);
  pp_source_port := r.(fr_source_port);
  pp_destination_port := r.(fr_destination_port);
  pp_protocol := Some r.(fr_protocol);
  pp_direction := Some r.(fr_direction);
  pp_has_payload := Some (bool_decide (is_Some r.(fr_payload_hash)));
  pp_supported := true;
|}.

Section decode.
Context (sha256_hex : bytes -> string) {Features Sample : Type}.
Context (extract : bytes -> option Features).
Context (sample : Z -> string -> Z -> Z -> bytes -> option Z -> option Z -> option Sample).

Lemma decode_packet_agrees captured sensor_id networks options :
  exists o, _decode_packet sha256_hex extract sample captured sensor_id networks options = Ok o /\
    _project captured.(cap_data) captured.(cap_link_type) networks =
      Ok (match o with Some r => record_projection r | None => unsupported end) /\
    match o with
    | Some r => r.(fr_sensor_id) = sensor_id /\ r.(fr_timestamp) = captured.(cap_timestamp) /\
        r.(fr_total_bytes) = zlen captured.(cap_data) /\
        r.(fr_raw) = (if options.(po_retain_packet_bytes) then Some (raw_packet options captured)
                      else None) /\
        (is_Some r.(fr_evidence) <-> options.(po_retain_network_evidence) = true)
    | None => True
    end.
Proof.
  destruct (project_wf captured.(cap_data) captured.(cap_link_type) networks) as (p & Hp & _).
  rewrite Hp. unfold _decode_packet, _project in *.
  destruct (_network_packet _ _) as [[version raw]|]; [|exists None; by simplify_eq/=].
  assert ((if version =? 4 then PacketProjection._decode_ipv4 raw
           else PacketProjection._decode_ipv6 raw) =
    decoded_fields <$> (if version =? 4 then CaptureParser._decode_ipv4 raw
                        else CaptureParser._decode_ipv6 raw)) as Hdec
    by (destruct (version =? 4); [apply decode_ipv4_agrees|apply decode_ipv6_agrees]).
  rewrite Hdec in Hp.
  destruct (if version =? 4 then CaptureParser._decode_ipv4 raw else CaptureParser._decode_ipv6 raw)
    as [d|]; simpl in *; [|exists None; by simplify_eq/=].
  destruct (_direction _ _ _) as [dir|e]; [|done]. simpl in *. injection Hp as <-.
  eexists (Some _). split; [done|]. split_and!; simpl; try done.
  - f_equal. unfold record_projection. simpl. f_equal. f_equal.
    destruct (decide (d.(dec_payload) = [])) as [->|Hne]; [done|].
    by rewrite (bool_decide_false (dec_payload d = [])).
  - destruct (po_retain_network_evidence options); [|by split; [intros [? [=]]|]].
    split; [done|]. intros _. by eexists.
Qed.
End decode.

(** Plain stand-ins for the parameters. *)
Definition sample_features (payload : bytes) : option Z :=
  if bool_decide (payload = []) then None else Some (zlen payload).
Definition no_sample (_ : Z) (_ : string) (_ _ : Z) (_ : bytes) (_ _ : option Z) : option Z := None.

(** C17: the parser and the exporter see the same packets: on every packet
    [_decode_packet] succeeds, it yields no record exactly when the export
    projection calls the packet unsupported, and otherwise the addresses,
    ports, protocol, direction and the presence of a payload in its record are
    those of [_project] on the same bytes, link type and networks. *)
Theorem decode_packet_projects (sha256_hex : bytes -> string) (Features Sample : Type)
    (extract : bytes -> option Features)
    (sample : Z -> string -> Z -> Z -> bytes -> option Z -> option Z -> option Sample)
    (captured : _CapturedPacket) (sensor_id : string) (networks : list ip_network)
    (options : ParseOptions) :
  exists o, _decode_packet sha256_hex extract sample captured sensor_id networks options = Ok o /\
    _project captured.(cap_data) captured.(cap_link_type) networks =
      Ok (match o with Some r => record_projection r | None => unsupported end).
Proof.
  destruct (decode_packet_agrees sha256_hex extract sample captured sensor_id networks options)
    as (o & ? & ? & _). by exists o.
Qed.

(** ** A bounded prefix parses to the first packets *)

Lemma slice_ztake {A} a b n (l : list A) : 0 <= a -> b <= n -> slice a b (ztake n l) = slice a b l.
Proof.
  intros Ha Hb. unfold slice, ztake, zdrop. rewrite skipn_firstn_comm, take_take.
  f_equal. lia.
Qed.

Lemma u16_ztake e n l i : 0 <= i -> i + 2 <= n -> u16 e (ztake n l) i = u16 e l i.
Proof. intros. unfold u16. by rewrite slice_ztake by lia. Qed.

Lemma u32_ztake e n l i : 0 <= i -> i + 4 <= n -> u32 e (ztake n l) i = u32 e l i.
Proof. intros. unfold u32. by rewrite slice_ztake by lia. Qed.

Lemma gen_guard_Ok {A} cond e (k g : generated A) :
  gen_guard cond e k = g -> g.2 = Ok tt -> cond = false /\ k = g.
Proof. unfold gen_guard, gen_raise. destruct cond; [by intros <-|done]. Qed.

Lemma gen_let_Ok {A B} (r : res B) (k : B -> generated A) g :
  gen_let r k = g -> g.2 = Ok tt -> exists b, r = Ok b /\ k b = g.
Proof. unfold gen_let, gen_raise. destruct r; [by eauto|by intros <-]. Qed.

(** Counts only grow. *)
Lemma prefix_loop_counts c bounds fmt fuel e offset n p :
  prefix_loop c bounds fmt fuel e offset n = Ok p -> n <= p.(pbp_packet_count).
Proof.
  revert e offset n. induction fuel as [|fuel IH]; intros e offset n Hl; [by destruct fmt|].
  assert (forall bl pl, p = prefix_until c offset n bl pl -> n <= pbp_packet_count p) as Hu
    by (intros bl pl ->; simpl; lia).
  destruct fmt.
  - apply classic_prefix_inv in Hl. destruct (_ <? zlen c); [|by eapply Hu].
    destruct (_ && _); [by eapply Hu|]. destruct (packets_exhausted _ _); [by eapply Hu|].
    cbv zeta in Hl. destruct Hl as [_ Hl]. destruct (_ && _); [by eapply Hu|].
    destruct Hl as [_ Hl]. apply IH in Hl. lia.
  - apply ng_prefix_inv in Hl. destruct (_ <? zlen c); [|by eapply Hu].
    destruct (_ && _); [by eapply Hu|]. destruct Hl as (_ & e' & _ & Hl). cbv zeta in Hl.
    destruct (_ && packets_exhausted _ _); [by eapply Hu|]. destruct Hl as [_ Hl].
    destruct (_ && _); [by eapply Hu|]. destruct Hl as [_ Hl]. apply IH in Hl.
    unfold Z.b2z in Hl. destruct (is_packet_block _); lia.
Qed.

Section prefix_parse.
Context (c : bytes) (bounds : CaptureBounds) (p : PcapBytePrefix) (max_packets : Z).

(** The packets of the capture from [offset] on, cut to the prefix. *)
Definition cut (n : Z) (g : generated _CapturedPacket) : generated _CapturedPacket :=
  (take (Z.to_nat (p.(pbp_packet_count) - n)) g.1, Ok tt).

Lemma cut_end n offset bl pl g :
  p = prefix_until c offset n bl pl -> cut n g = ([], Ok tt).
Proof.
  intros E. unfold cut. assert (pbp_packet_count p = n) as -> by (by rewrite E).
  by rewrite Z.sub_diag.
Qed.

Lemma cut_cons n packet g :
  n < p.(pbp_packet_count) -> cut n (gen_cons packet g) = gen_cons packet (cut (n + 1) g).
Proof.
  intros H. unfold cut, gen_cons. simpl.
  replace (Z.to_nat (pbp_packet_count p - n)) with (S (Z.to_nat (pbp_packet_count p - (n + 1)))) by lia.
  done.
Qed.

Lemma classic_prefix_parse pfuel fuel1 fuel2 e resolution snaplen link_type offset n count g :
  0 <= offset <= zlen c ->
  prefix_loop c bounds PCAP pfuel e offset n = Ok p ->
  iter_classic_records c max_packets fuel1 e resolution snaplen link_type offset count = g ->
  g.2 = Ok tt -> (Z.to_nat (zlen p.(pbp_content) - offset) < fuel2)%nat ->
  iter_classic_records p.(pbp_content) max_packets fuel2 e resolution snaplen link_type offset count
    = cut n g.
Proof.
  revert fuel1 fuel2 offset n count g.
  induction pfuel as [|pfuel IH]; intros fuel1 fuel2 offset n count g Ho Hl Hg Hok Hf; [done|].
  destruct (prefix_loop_grows _ _ _ _ _ _ _ _ Ho Hl) as [[Hpc Hsc] Hgrow].
  assert (zlen p.(pbp_content) = p.(pbp_scanned_bytes)) as Hlen by (rewrite Hpc, zlen_ztake; lia).
  destruct fuel2 as [|fuel2]; [lia|]. cbn [iter_classic_records]. rewrite Hlen in *.
  assert (forall bl pl, p = prefix_until c offset n bl pl ->
    (offset <? pbp_scanned_bytes p) = false /\ cut n g = gen_end) as Hu.
  { intros bl pl E. split; [|by eapply cut_end]. rewrite E. simpl. lia. }
  apply classic_prefix_inv in Hl. destruct (Z.ltb_spec offset (zlen c)) as [Hlt|Hge];
    [|by destruct (Hu _ _ Hl) as [-> ->]].
  destruct (_ && _); [by destruct (Hu _ _ Hl) as [-> ->]|].
  destruct (packets_exhausted _ _); [by destruct (Hu _ _ Hl) as [-> ->]|].
  cbv zeta in Hl. destruct Hl as [H16 Hl].
  destruct (_ && _); [by destruct (Hu _ _ Hl) as [-> ->]|]. destruct Hl as [Hle Hl].
  pose proof (u32_bound e c (offset + 8)) as Hub.
  destruct (prefix_loop_grows c bounds PCAP pfuel e _ _ p ltac:(split; [|exact Hle]; lia) Hl) as [_ Hg2].
  pose proof (prefix_loop_counts c bounds PCAP pfuel e _ _ p Hl) as Hcnt.
  rewrite (proj2 (Z.ltb_lt offset (pbp_scanned_bytes p))) by lia.
  destruct fuel1 as [|fuel1]; [by subst g|]. cbn [iter_classic_records] in Hg.
  rewrite (proj2 (Z.ltb_lt offset (zlen c))) in Hg by lia.
  apply gen_guard_Ok in Hg as [G1 Hg]; [|done]. cbv zeta in *.
  apply gen_guard_Ok in Hg as [G2 Hg]; [|done]. apply gen_guard_Ok in Hg as [G3 Hg]; [|done].
  apply gen_guard_Ok in Hg as [G4 Hg]; [|done].
  rewrite Hpc, !u32_ztake by lia. rewrite <- Hpc, G3, G4.
  apply gen_let_Ok in Hg as (ts & Hts & Hg); [|done]. rewrite Hts. cbn [gen_let]. reflect_bools.
  unfold gen_guard. rewrite (proj2 (Z.ltb_ge _ 16)), (proj2 (Z.ltb_ge MAX_CAPTURED_PACKET_BYTES _)),
    (proj2 (Z.ltb_ge (_ - _) _)) by lia. simpl.
  subst g. rewrite cut_cons by lia. f_equal.
  - f_equal. rewrite Hpc, slice_ztake by lia. done.
  - eapply IH; [|exact Hl|reflexivity|exact Hok|]; lia.
Qed.

(** *** PCAPNG blocks *)

Context (pow10_neg : Z -> py_float).

Lemma options_loop_ztake n fuel1 fuel2 e stop offset r o :
  0 <= offset -> stop <= n ->
  (Z.to_nat (stop - offset) < fuel1)%nat -> (Z.to_nat (stop - offset) < fuel2)%nat ->
  interface_options_loop pow10_neg (ztake n c) fuel2 e stop offset r o =
  interface_options_loop pow10_neg c fuel1 e stop offset r o.
Proof.
  revert fuel2 offset r o.
  induction fuel1 as [|fuel1 IH]; intros fuel2 offset r o Ho Hs H1 H2; [lia|].
  destruct fuel2 as [|fuel2]; [lia|]. cbn [interface_options_loop].
  destruct (Z.leb_spec (offset + 4) stop) as [Hle|]; [|done]. rewrite !u16_ztake by lia.
  destruct (_ =? 0); [done|]. pose proof (u16_bound e c (offset + 2)) as Hb.
  pose proof (pad4_bounds (u16 e c (offset + 2)) ltac:(lia)) as [Hp _]. cbv zeta.
  destruct (Z.ltb_spec stop (offset + 4 + pad4 (u16 e c (offset + 2)))); [done|]. simpl.
  rewrite !slice_ztake by lia. apply IH; lia.
Qed.

Lemma interface_options_ztake n start stop e :
  0 <= start -> 0 <= stop <= n -> n <= zlen c ->
  _pcapng_interface_options pow10_neg (ztake n c) start stop e =
  _pcapng_interface_options pow10_neg c start stop e.
Proof.
  intros ? ? Hn. unfold _pcapng_interface_options.
  apply options_loop_ztake; [done|lia|unfold zlen in *; lia|].
  unfold ztake. rewrite length_take. unfold zlen in *. lia.
Qed.

Lemma interface_block_ztake n st offset len :
  0 <= offset -> offset + len <= n -> n <= zlen c ->
  parse_interface_block pow10_neg (ztake n c) st offset len =
  parse_interface_block pow10_neg c st offset len.
Proof.
  intros Ho Hn Hc. unfold parse_interface_block. cbv zeta.
  destruct (Z.ltb_spec len 20); [done|]. rewrite u16_ztake, u32_ztake by lia.
  by rewrite interface_options_ztake by lia.
Qed.

Lemma packet_block_ztake n st offset ty len :
  0 <= offset -> offset + len <= n -> n <= zlen c ->
  parse_packet_block (ztake n c) max_packets st offset ty len =
  parse_packet_block c max_packets st offset ty len.
Proof.
  intros Ho Hn Hc. unfold parse_packet_block. cbv zeta.
  destruct (Z.ltb_spec len (28 + 4)); [done|]. cbn [raise_if mbind res_bind].
  rewrite !u32_ztake, u16_ztake by lia. destruct (_ !! _) as [i|]; [|done].
  destruct ((MAX_CAPTURED_PACKET_BYTES <? u32 (ngit_endian st) c (offset + 20)) || _) eqn:E; [done|].
  reflect_bools. pose proof (u32_bound (ngit_endian st) c (offset + 20)) as Hb.
  pose proof (pad4_bounds (u32 (ngit_endian st) c (offset + 20)) ltac:(lia)) as [Hp _].
  by rewrite slice_ztake by lia.
Qed.

Lemma block_header_ztake n e offset e' sec ty len :
  0 <= offset -> parse_block_header c e offset = Ok (e', sec, ty, len) ->
  offset + len <= n -> n <= zlen c ->
  parse_block_header (ztake n c) e offset = Ok (e', sec, ty, len).
Proof.
  intros Ho H Hn Hc. unfold parse_block_header in *. cbv zeta in *.
  assert (zlen (ztake n c) = Z.min n (zlen c)) as Hz.
  { destruct (Z.leb_spec 0 n); [by rewrite zlen_ztake by lia|].
    exfalso. inv_bind. reflect_bools. simplify_eq. lia. }
  apply bind_Ok in H as (u & H12%raise_if_Ok & H). apply bind_Ok in H as (e1 & He1 & H).
  apply bind_Ok in H as (u' & Hl%raise_if_Ok & H). apply bind_Ok in H as (u'' & Ht%raise_if_Ok & H).
  injection H as -> <- <- <-. apply orb_false_iff in Hl as [Hl1 Hl2]. apply Z.ltb_ge in H12, Hl2.
  pose proof Hl1 as Hl12. apply orb_false_iff in Hl12 as [Hl12 _]. apply Z.ltb_ge in Hl12.
  rewrite Hz, slice_ztake, (proj2 (Z.ltb_ge _ 12)) by lia. simpl.
  assert ((if bool_decide (slice offset (offset + 4) c = PCAPNG_SECTION)
           then _pcapng_endian (ztake n c) offset else Ok e) = Ok e') as ->.
  { revert He1. case_bool_decide; [|done]. unfold _pcapng_endian.
    by rewrite Hz, !(proj2 (Z.ltb_ge _ 12)), slice_ztake by lia. }
  simpl. rewrite !u32_ztake by lia.
  rewrite Hl1, (proj2 (Z.ltb_ge (_ - _) _)) by lia. simpl. by rewrite Ht.
Qed.

(** The header the parser reads is the one [bounded_pcap_prefix] reads. *)
Lemma block_header_same e offset e' e'' sec ty len :
  parse_block_header c e offset = Ok (e', sec, ty, len) ->
  (if bool_decide (slice offset (offset + 4) c = PCAPNG_SECTION)
   then section_endian (slice (offset + 8) (offset + 12) c) = Some e'' else e'' = e) ->
  e'' = e' /\ sec = bool_decide (slice offset (offset + 4) c = PCAPNG_SECTION) /\
  ty = u32 e' c offset /\ len = u32 e' c (offset + 4) /\ 12 <= len.
Proof.
  unfold parse_block_header. cbv zeta. intros H He. inv_bind. simplify_eq. reflect_bools.
  split_and!; try done. case_bool_decide; [|by simplify_eq]. unfold _pcapng_endian in *.
  repeat case_match; by simplify_eq.
Qed.

Lemma section_type e offset :
  bool_decide (slice offset (offset + 4) c = PCAPNG_SECTION) = true ->
  is_packet_block (u32 e c offset) = false.
Proof.
  intros H%bool_decide_eq_true. rewrite <- (section_not_packet e _ H). f_equal.
  unfold u32. by rewrite H.
Qed.

Lemma ng_prefix_parse pfuel fuel1 fuel2 st offset n g :
  0 <= offset <= zlen c ->
  prefix_loop c bounds PCAPNG pfuel st.(ngit_endian) offset n = Ok p ->
  iter_pcapng_blocks pow10_neg c max_packets fuel1 st offset = g ->
  g.2 = Ok tt -> (Z.to_nat (zlen p.(pbp_content) - offset) < fuel2)%nat ->
  iter_pcapng_blocks pow10_neg p.(pbp_content) max_packets fuel2 st offset = cut n g.
Proof.
  revert fuel1 fuel2 st offset n g.
  induction pfuel as [|pfuel IH]; intros fuel1 fuel2 st offset n g Ho Hl Hg Hok Hf; [done|].
  destruct (prefix_loop_grows _ _ _ _ _ _ _ _ Ho Hl) as [[Hpc Hsc] Hgrow].
  assert (zlen p.(pbp_content) = p.(pbp_scanned_bytes)) as Hlen by (rewrite Hpc, zlen_ztake; lia).
  destruct fuel2 as [|fuel2]; [lia|]. cbn [iter_pcapng_blocks]. rewrite Hlen in *.
  assert (forall bl pl, p = prefix_until c offset n bl pl ->
    (offset <? pbp_scanned_bytes p) = false /\ cut n g = gen_end) as Hu.
  { intros bl pl E. split; [|by eapply cut_end]. rewrite E. simpl. lia. }
  apply ng_prefix_inv in Hl. destruct (Z.ltb_spec offset (zlen c)) as [Hlt|Hge];
    [|by destruct (Hu _ _ Hl) as [-> ->]].
  destruct (_ && _); [by destruct (Hu _ _ Hl) as [-> ->]|].
  destruct Hl as (H12 & e & He & Hl). cbv zeta in Hl.
  destruct (_ && packets_exhausted _ _); [by destruct (Hu _ _ Hl) as [-> ->]|].
  destruct Hl as [Hv Hl].
  destruct (_ && _); [by destruct (Hu _ _ Hl) as [-> ->]|]. destruct Hl as [Hle Hl].
  pose proof (u32_bound e c (offset + 4)) as Hub.
  destruct (prefix_loop_grows c bounds PCAPNG pfuel e _ _ p ltac:(split; [|exact Hle]; lia) Hl) as [_ Hg2].
  pose proof (prefix_loop_counts c bounds PCAPNG pfuel e _ _ p Hl) as Hcnt.
  destruct fuel1 as [|fuel1]; [by subst g|]. cbn [iter_pcapng_blocks] in Hg.
  rewrite (proj2 (Z.ltb_lt offset (zlen c))) in Hg by lia.
  apply gen_let_Ok in Hg as ([[[e' sec] ty] len] & Hh & Hg); [|done]. cbv zeta in *.
  destruct (block_header_same _ _ _ _ _ _ _ Hh He) as (-> & Hsec & Hty & Hlen' & Hl12).
  rewrite <- Hty, <- Hlen' in *.
  rewrite (proj2 (Z.ltb_lt offset (pbp_scanned_bytes p))) by lia.
  assert (parse_block_header p.(pbp_content) st.(ngit_endian) offset = Ok (e', sec, ty, len)) as ->
    by (rewrite Hpc; apply block_header_ztake; done || lia).
  cbn [gen_let ngit_endian ngit_interfaces ngit_count ngit_next_interface_id ngit_saw_section] in *.
  destruct sec eqn:Es.
  { rewrite Hty, section_type in Hl by (by rewrite <- Hsec). simpl in Hl. rewrite Z.add_0_r in Hl.
    eapply IH; [|exact Hl|exact Hg|exact Hok|]; lia. }
  destruct (negb (ngit_saw_section st)); [by subst g|].
  destruct (ty =? 1) eqn:E1.
  { apply Z.eqb_eq in E1. rewrite E1 in Hl. simpl in Hl. rewrite Z.add_0_r in Hl.
    apply gen_let_Ok in Hg as (st' & Hb & Hg); [|done].
    assert (ngit_endian st' = e') as Hend
      by (unfold parse_interface_block in Hb; cbv zeta in Hb; inv_bind;
          repeat case_match; inv_bind; by simplify_eq).
    rewrite Hpc, interface_block_ztake, <- Hpc, Hb by lia. cbn [gen_let].
    eapply IH; [|rewrite Hend; exact Hl|exact Hg|exact Hok|]; lia. }
  destruct (is_packet_block ty) eqn:E2.
  { apply gen_let_Ok in Hg as ([packet st'] & Hb & Hg); [|done].
    assert (ngit_endian st' = e') as Hend
      by (unfold parse_packet_block in Hb; cbv zeta in Hb; inv_bind;
          repeat case_match; inv_bind; by simplify_eq).
    rewrite Hpc, packet_block_ztake, <- Hpc, Hb by lia. cbn [gen_let]. subst g. simpl in Hl, Hcnt.
    rewrite cut_cons by lia. f_equal.
    eapply IH; [|rewrite Hend; exact Hl|reflexivity|exact Hok|]; lia. }
  destruct (ty =? 3); [by subst g|]. simpl in Hl. rewrite Z.add_0_r in Hl.
  eapply IH; [|exact Hl|exact Hg|exact Hok|]; simpl; lia.
Qed.
End prefix_parse.

Lemma ztake_ztake {A} m n (l : list A) : m <= n -> ztake m (ztake n l) = ztake m l.
Proof. intros. unfold ztake. rewrite take_take. f_equal. lia. Qed.

(** A PCAPNG prefix that is not empty holds at least one block. *)
Lemma ng_prefix_first_block c bounds fuel p :
  prefix_loop c bounds PCAPNG fuel LE 0 0 = Ok p -> 0 < p.(pbp_scanned_bytes) ->
  12 <= p.(pbp_scanned_bytes).
Proof.
  intros Hl Hpos. pose proof (zlen_nonneg c) as Hnn. destruct fuel as [|fuel]; [done|].
  apply ng_prefix_inv in Hl.
  assert (forall n bl pl, p <> prefix_until c 0 n bl pl) as Hne
    by (intros n bl pl ->; simpl in Hpos; lia).
  destruct (_ <? _); [|by apply Hne in Hl]. destruct (_ && _); [by apply Hne in Hl|].
  destruct Hl as (H12 & e & _ & Hl). cbv zeta in Hl.
  destruct (_ && packets_exhausted _ _); [by apply Hne in Hl|]. destruct Hl as [Hv Hl].
  destruct (_ && _); [by apply Hne in Hl|]. destruct Hl as [Hle Hl]. reflect_bools.
  destruct (prefix_loop_grows c bounds PCAPNG fuel e _ _ p ltac:(split; [|exact Hle]; lia) Hl) as [_ Hg].
  lia.
Qed.

(** C18: cutting a capture is cutting its packets: when a capture parses and
    [bounded_pcap_prefix] keeps a non-empty prefix of it, the prefix is a
    capture of the same format that parses without error to exactly the first
    [packet_count] packets, with the same times, bytes, indices and
    interfaces. *)
Theorem prefix_parses_first_packets (pow10_neg : Z -> py_float) (c : bytes)
    (max_bytes max_packets limit : Z) (p : PcapBytePrefix) (format : capture_format)
    (packets : list _CapturedPacket) :
  bounded_pcap_prefix c max_bytes (Some max_packets) = Ok p ->
  0 < p.(pbp_scanned_bytes) ->
  capture_packets pow10_neg c limit = Ok (format, (packets, Ok tt)) ->
  capture_packets pow10_neg p.(pbp_content) limit =
    Ok (format, (take (Z.to_nat p.(pbp_packet_count)) packets, Ok tt)).
Proof.
  intros Hp Hpos Hc. pose proof (zlen_nonneg c) as Hnn.
  set (bounds := mk_bounds 0 "" max_bytes max_packets).
  destruct (bounded_prefix_grows c bounds p Hp) as [Hpc Hsc].
  unfold bounded_pcap_prefix in Hp.
  apply bind_Ok in Hp as (_ & _ & Hp). apply bind_Ok in Hp as (_ & _ & Hp). cbv zeta in Hp.
  assert (zlen p.(pbp_content) = p.(pbp_scanned_bytes)) as Hlen by (rewrite Hpc, zlen_ztake; lia).
  replace (Z.to_nat (pbp_packet_count p)) with (Z.to_nat (pbp_packet_count p - 0)) by (f_equal; lia).
  change (take _ packets, Ok tt) with (cut p 0 (packets, Ok tt)).
  assert (forall k, k <= p.(pbp_scanned_bytes) -> ztake k p.(pbp_content) = ztake k c) as Hz
    by (intros k Hk; rewrite Hpc; apply ztake_ztake; lia).
  unfold capture_packets in *. destruct (CLASSIC_MAGIC (ztake 4 c)) as [[e r]|] eqn:Hm.
  - apply bind_Ok in Hp as (_ & H24%raise_if_Ok & Hp).
    destruct (max_bytes <? 24); [by injection Hp as <-|].
    assert (0 <= 24 <= zlen c) as Hb by lia.
    destruct (prefix_loop_grows c bounds PCAP _ _ _ _ p Hb Hp) as [_ Hg].
    rewrite Hz, Hm by lia. injection Hc as <- Hc. do 2 f_equal.
    unfold _iter_classic_pcap in *. rewrite Hz, Hm in * by lia. cbv zeta in *.
    apply gen_guard_Ok in Hc as [G1 Hc]; [|done]. apply gen_guard_Ok in Hc as [G2 Hc]; [|done].
    apply gen_guard_Ok in Hc as [G3 Hc]; [|done].
    rewrite Hpc, !u16_ztake, !u32_ztake, <- Hpc, G2, G3 by lia. unfold gen_guard.
    rewrite (proj2 (Z.ltb_ge _ 24)) by lia.
    eapply (classic_prefix_parse c bounds); [|exact Hp|exact Hc|done|]; [lia|]. unfold zlen. lia.
  - case_bool_decide as Hsec; [|done].
    pose proof (ng_prefix_first_block c bounds _ p Hp Hpos) as H12.
    rewrite Hz, Hm, bool_decide_true by (done || lia). injection Hc as <- Hc. do 2 f_equal.
    unfold _iter_pcapng in *.
    eapply (ng_prefix_parse c bounds); [|exact Hp|exact Hc|done|]; [lia|]. unfold zlen. lia.
Qed.

(** The rounded negative powers of ten, for the samples. *)
Definition sample_pow10_neg (e : Z) : py_float := int_truediv 1 (10 ^ e).

(** The parser of the samples, without its external helpers. *)
Definition sample_parse (c : bytes) (limit : Z) (options : ParseOptions)
    : res (PcapParseResult (Features := unit) (Sample := unit)) :=
  parse_pcap (fun _ => ""%string) sample_pow10_neg (fun _ => None)
    (fun _ _ _ _ _ _ _ => None) c "s1" ["10.0.0.0/8"%string] limit options.

Lemma prefix_parses_first_packets_witness :
  exists p packets,
    bounded_pcap_prefix sample_pcapng 150 (Some 5) = Ok p /\ p.(pbp_packet_count) = 1 /\
    capture_packets sample_pow10_neg p.(pbp_content) 10 =
      Ok (PCAPNG, (take 1 packets, Ok tt)).
Proof.
  destruct (bounded_pcap_prefix sample_pcapng 150 (Some 5)) as [p|e] eqn:Hp;
    [|vm_compute in Hp; discriminate Hp].
  destruct (capture_packets sample_pow10_neg sample_pcapng 10) as [[f [packets u]]|e] eqn:Hc;
    [|vm_compute in Hc; discriminate Hc].
  exists p, packets.
  assert (match capture_packets sample_pow10_neg sample_pcapng 10 with
          | Ok (PCAPNG, (_, Ok _)) => True | _ => False end) as Hf by (vm_compute; exact I).
  assert (match bounded_pcap_prefix sample_pcapng 150 (Some 5) with
          | Ok p => (pbp_packet_count p =? 1) && (0 <? pbp_scanned_bytes p) | _ => false end = true)
    as Hn by (vm_compute; reflexivity).
  rewrite Hp in Hn. rewrite Hc in Hf. apply andb_prop in Hn as [Hn%Z.eqb_eq Hpos%Z.ltb_lt].
  destruct f; [destruct Hf|]. destruct u as [[]|]; [|destruct Hf].
  split; [reflexivity|]. split; [exact Hn|].
  pose proof (prefix_parses_first_packets _ _ _ _ _ _ _ _ Hp Hpos Hc) as H.
  rewrite Hn in H. exact H.
Defined.

(** ** Searching and parsing *)

(** The options a search parses with; records without a supported packet are
    no error for it. *)
Definition search_options (retain_payload_sample_bytes : Z) : ParseOptions := {|
  po_retain_packet_bytes := false;
  po_retain_packet_bytes_as_bytes := false;
  po_retain_payload_sample_bytes := retain_payload_sample_bytes;
  po_allow_no_supported_packets := true;
  po_truncate_at_max_packets := false;
  po_retain_network_evidence := false;
|}.

Section search.
Context (sha256_hex : bytes -> string) {Features Sample : Type}.
Context (extract_payload_features : bytes -> option Features).
Context (packet_sample : Z -> string -> Z -> Z -> bytes -> option Z -> option Z -> option Sample).
Context (predicate : FlowRecord Features Sample -> bool).
Context (sensor_id : string) (networks : list ip_network) (k max_packets bound : Z).

Abbreviation decode := (_decode_packet sha256_hex extract_payload_features packet_sample).
Abbreviation loop := (parse_packets sha256_hex extract_payload_features packet_sample
  sensor_id networks (search_options k) max_packets bound).
Abbreviation search := (find_record sha256_hex extract_payload_features packet_sample
  predicate sensor_id networks (find_options k)).

Lemma decode_search_options packet :
  decode packet sensor_id networks (find_options k) = decode packet sensor_id networks (search_options k).
Proof. reflexivity. Qed.

(** Without evidence a record is kept as it was decoded. *)
Lemma attach_interface_none packet r interfaces :
  attach_interface (search_options k) bound packet r interfaces = (r, interfaces) :> (FlowRecord Features Sample * _).
Proof. unfold attach_interface. by destruct (fr_evidence r). Qed.

(** What the rest of the capture adds, and what a search over it returns. *)
Definition search_agrees (st : ParseState (Features := Features) (Sample := Sample))
    (parsed : res ParseState) (found : res (option (FlowRecord Features Sample))) : Prop :=
  match parsed with
  | Ok st' => exists more, st'.(ps_records) = st.(ps_records) ++ more /\
      st.(ps_captured) <= st'.(ps_captured) /\
      found = (_ ← raise_if (st'.(ps_captured) =? 0)
                 (PcapParseError "capture does not contain timestamped packets" "EMPTY_PCAP");
               Ok (List.find predicate more))
  | Err e => found = Err e \/ exists r, found = Ok (Some r) /\ predicate r = true
  end.

Lemma search_loop packets ended st :
  0 <= st.(ps_captured) ->
  search_agrees st (loop packets ended st) (search packets ended st.(ps_captured)).
Proof.
  revert st. induction packets as [|packet packets IH]; intros st Hc; simpl.
  { destruct ended as [[]|e]; simpl; [|by left]. exists []. by rewrite app_nil_r. }
  rewrite decode_search_options. unfold parse_packet.
  destruct (decode packet sensor_id networks (search_options k)) as [[r|]|e] eqn:Hd; simpl;
    [|..|by left]; [rewrite attach_interface_none; simpl|].
  all: match goal with |- search_agrees _ (loop _ _ ?st') _ => specialize (IH st' ltac:(simpl; lia)) end;
    simpl in IH; unfold search_agrees in *; destruct (loop packets ended _) as [st'|e]; simpl in *.
  - destruct IH as (more & Hr & Hle & Hs). exists (r :: more). rewrite <- app_assoc in Hr.
    split; [exact Hr|]. split; [lia|]. simpl. destruct (predicate r); [|exact Hs].
    rewrite (proj2 (Z.eqb_neq _ 0)) by lia. done.
  - destruct (predicate r) eqn:Hp; [right; by exists r|exact IH].
  - destruct IH as (more & Hr & Hle & Hs). exists more. split; [exact Hr|]. split; [lia|exact Hs].
  - exact IH.
Qed.
End search.

(** C19: the early-exit search finds what a full parse finds:
    [find_pcap_record] returns the first record of [parse_pcap] that satisfies
    the predicate, or nothing when there is none; where the parse raises, the
    search raises the same error unless a matching record precedes it. *)
Theorem find_is_first_match (sha256_hex : bytes -> string) (pow10_neg : Z -> py_float)
    {Features Sample : Type} (extract_payload_features : bytes -> option Features)
    (packet_sample : Z -> string -> Z -> Z -> bytes -> option Z -> option Z -> option Sample)
    (predicate : FlowRecord Features Sample -> bool) (content : bytes) (sensor_id : string)
    (internal_networks : list string) (max_packets k : Z) :
  let found := find_pcap_record sha256_hex pow10_neg extract_payload_features packet_sample
                 content sensor_id internal_networks predicate max_packets k in
  match parse_pcap sha256_hex pow10_neg extract_payload_features packet_sample
          content sensor_id internal_networks max_packets (search_options k) with
  | Ok result => found = Ok (List.find predicate result.(ppr_records))
  | Err e => found = Err e \/ exists r, found = Ok (Some r) /\ predicate r = true
  end.
Proof.
  cbv zeta. unfold parse_pcap, find_pcap_record.
  destruct (max_packets <? 1); [by left|]. simpl.
  destruct (negb _); [by left|]. simpl.
  destruct (_networks internal_networks) as [networks|e]; simpl; [|by left].
  destruct (capture_packets pow10_neg content max_packets) as [[format [packets ended]]|e]; simpl;
    [|by left].
  set (bound := match format with PCAP => _ | PCAPNG => _ end).
  pose proof (search_loop sha256_hex extract_payload_features packet_sample predicate sensor_id
    networks k max_packets bound packets ended parse_start ltac:(simpl; lia)) as H.
  unfold search_agrees in H. destruct (parse_packets _ _ _ _ _ _ _ _ _ _ _) as [st|e]; simpl in *;
    [|exact H].
  destruct H as (more & Hr & _ & ->). simpl in Hr.
  destruct (ps_captured st =? 0); simpl; [by left|]. rewrite andb_false_r. simpl. by rewrite Hr.
Qed.
