(* ===== verification/ParserInvariants.v ===== *)
(** * ParserInvariants

    Invariants of the in-memory parser: its generators end, the packets they
    yield are numbered, bounded and reference interfaces of the capture; the
    interface identities of a parse tell interfaces apart; its counts and times
    account for every packet. *)

From Stdlib Require Import String.
From S2P Require Import Prelude Bytes Samples CaptureFormat PyFloat IpAddress PacketProjection ExportDecoder.
From S2P Require Import StructuralIndex CapturePrefix CaptureParser ParserProofs.
#[local] Open Scope Z_scope.

(** ** What the generators yield *)

(** The number of interface identities a capture can hold. *)
Definition container_bound (format : capture_format) (content : bytes) : Z :=
  match format with PCAPNG => zlen content / 20 | PCAP => 1 end.

Record wf_packet (max_packets bound index : Z) (p : _CapturedPacket) : Prop := {
  wf_index : p.(cap_packet_index) = index;
  wf_limit : index < max_packets;
  wf_interface : 0 <= p.(cap_interface_id) < bound;
  wf_captured : zlen p.(cap_data) <= p.(cap_original_length);
  wf_size : zlen p.(cap_data) <= MAX_CAPTURED_PACKET_BYTES;
}.

(** A generator that ends and yields well-formed packets numbered from [n]. *)
Definition wf_generated (max_packets bound n : Z) (g : generated _CapturedPacket) : Prop :=
  g.2 <> Err OutOfFuel /\
  forall (i : nat) p, g.1 !! i = Some p -> wf_packet max_packets bound (n + Z.of_nat i) p.

Section wf.
Context (max_packets bound : Z).

Lemma wf_raise n e : e <> OutOfFuel -> wf_generated max_packets bound n (gen_raise e).
Proof. intros He. split; [by intros [= ->]|]. by intros [|i] p. Qed.

Lemma wf_end n : wf_generated max_packets bound n gen_end.
Proof. split; [done|]. by intros [|i] p. Qed.

Lemma wf_guard n cond e k :
  e <> OutOfFuel -> (cond = false -> wf_generated max_packets bound n k) ->
  wf_generated max_packets bound n (gen_guard cond e k).
Proof. intros He Hk. destruct cond; [by apply wf_raise|by apply Hk]. Qed.

Lemma wf_cons n p g :
  wf_packet max_packets bound n p -> wf_generated max_packets bound (n + 1) g ->
  wf_generated max_packets bound n (gen_cons p g).
Proof.
  intros Hp [Hend Hg]. split; [exact Hend|]. intros [|i] q Hq; simpl in Hq.
  - injection Hq as <-. by rewrite Z.add_0_r.
  - apply Hg in Hq. by replace (n + Z.of_nat (S i)) with (n + 1 + Z.of_nat i) by lia.
Qed.
End wf.

(** A computation that does not run out of fuel, and what it returns. *)
Definition ends {A} (r : res A) (Q : A -> Prop) : Prop :=
  match r with Ok a => Q a | Err e => e <> OutOfFuel end.

Lemma ends_guard {A} cond e (k : unit -> res A) Q :
  e <> OutOfFuel -> (cond = false -> ends (k tt) Q) -> ends (raise_if cond e ≫= k) Q.
Proof. intros He Hk. destruct cond; [exact He|by apply Hk]. Qed.

Lemma ends_bind {A B} (r : res A) (k : A -> res B) P Q :
  ends r P -> (forall a, P a -> ends (k a) Q) -> ends (r ≫= k) Q.
Proof. intros Hr Hk. destruct r; [by apply Hk|exact Hr]. Qed.

Lemma wf_let max_packets bound {B} n (r : res B) Q k :
  ends r Q -> (forall b, Q b -> wf_generated max_packets bound n (k b)) ->
  wf_generated max_packets bound n (gen_let r k).
Proof. intros Hr Hk. destruct r; [by apply Hk|by apply wf_raise]. Qed.

Lemma timestamp_ends f : ends (_timestamp f) (fun _ => True).
Proof. unfold _timestamp. by destruct (datetime_fromtimestamp f). Qed.

Lemma classic_records_wf content max_packets fuel e resolution snaplen link_type offset count :
  0 <= offset -> (Z.to_nat (zlen content - offset) < fuel)%nat ->
  wf_generated max_packets 1 count
    (iter_classic_records content max_packets fuel e resolution snaplen link_type offset count).
Proof.
  revert offset count. induction fuel as [|fuel IH]; intros offset count Ho Hf; [lia|].
  cbn [iter_classic_records]. destruct (Z.ltb_spec offset (zlen content)); [|apply wf_end].
  cbv zeta. pose proof (u32_bound e content (offset + 8)).
  repeat (apply wf_guard; [done|]; intros ?). eapply wf_let; [apply timestamp_ends|].
  intros ts _. reflect_bools. apply wf_cons; [|apply IH; lia].
  constructor; simpl; rewrite ?zlen_slice by lia; lia.
Qed.

Lemma options_loop_ends pow10_neg content fuel e stop offset r o :
  (Z.to_nat (stop - offset) < fuel)%nat ->
  ends (interface_options_loop pow10_neg content fuel e stop offset r o) (fun _ => True).
Proof.
  revert offset r o. induction fuel as [|fuel IH]; intros offset r o Hf; [lia|].
  cbn [interface_options_loop]. destruct (Z.leb_spec (offset + 4) stop); [|done]. cbv zeta.
  destruct (_ =? 0); [done|]. apply ends_guard; [done|]. intros _.
  pose proof (u16_bound e content (offset + 2)) as Hu.
  pose proof (pad4_bounds (u16 e content (offset + 2)) ltac:(lia)). apply IH. lia.
Qed.

Section pcapng_wf.
Context (pow10_neg : Z -> py_float) (content : bytes) (max_packets : Z).

(** Interface identities are allocated in order, one per interface block. *)
Definition ng_interfaces_ok (st : NgIter) (offset : Z) : Prop :=
  0 <= st.(ngit_next_interface_id) /\ 20 * st.(ngit_next_interface_id) <= offset /\
  Forall (fun i => 0 <= i.(ngi_interface_id) < st.(ngit_next_interface_id)) st.(ngit_interfaces).

Lemma interface_block_ends st offset len :
  offset + len <= zlen content -> ng_interfaces_ok st offset -> 0 <= offset ->
  ends (parse_interface_block pow10_neg content st offset len)
    (fun st' => ng_interfaces_ok st' (offset + len) /\ st'.(ngit_count) = st.(ngit_count)).
Proof.
  intros Hle (Hn & Ho & Hi) Hoff. unfold parse_interface_block. cbv zeta.
  apply ends_guard; [done|]. intros Hlen%Z.ltb_ge. apply ends_guard; [done|]. intros _.
  eapply ends_bind; [apply options_loop_ends; unfold zlen in *; lia|]. intros [r o] _.
  split; [|done]. unfold ng_interfaces_ok. simpl. split; [lia|]. split; [lia|].
  apply Forall_app. split; [|apply Forall_singleton; simpl; lia].
  eapply Forall_impl; [exact Hi|]. intros i Hlt. simpl in *. lia.
Qed.

Lemma packet_block_ends st offset ty len bound :
  ng_interfaces_ok st offset -> 0 <= offset -> offset + len <= zlen content ->
  st.(ngit_next_interface_id) <= bound ->
  ends (parse_packet_block content max_packets st offset ty len) (fun '(p, st') =>
    wf_packet max_packets bound st.(ngit_count) p /\
    ng_interfaces_ok st' (offset + len) /\ st'.(ngit_count) = st.(ngit_count) + 1).
Proof.
  intros (Hn & Ho & Hi) Hoff Hle Hb. unfold parse_packet_block. cbv zeta.
  apply ends_guard; [done|]. intros Hlen%Z.ltb_ge.
  destruct (ngit_interfaces st !! _) as [interface|] eqn:Hl; [|done].
  pose proof (Forall_lookup_1 _ _ _ _ Hi Hl) as Hid. simpl in Hid.
  pose proof (u32_bound (ngit_endian st) content (offset + 20)) as Hu.
  pose proof (pad4_bounds (u32 (ngit_endian st) content (offset + 20)) ltac:(lia)) as Hpad.
  do 3 (apply ends_guard; [done|]; intros ?).
  eapply ends_bind; [apply timestamp_ends|]. intros ts _. reflect_bools. simpl.
  split; [|split; [|done]].
  - constructor; simpl; rewrite ?zlen_slice by lia; lia.
  - split; [done|]. split; [simpl; lia|exact Hi].
Qed.

Lemma block_header_ends e offset :
  ends (parse_block_header content e offset)
    (fun '(_, _, _, len) => 12 <= len /\ offset + len <= zlen content).
Proof.
  unfold parse_block_header. cbv zeta. apply ends_guard; [done|]. intros H12.
  eapply (ends_bind _ _ (fun _ => True)).
  { case_bool_decide; [|done]. unfold _pcapng_endian. rewrite H12. by destruct (section_endian _). }
  intros e' _. do 2 (apply ends_guard; [done|]; intros ?). simpl. reflect_bools. lia.
Qed.

Lemma pcapng_blocks_wf fuel st offset :
  ng_interfaces_ok st offset -> 0 <= offset <= zlen content ->
  (Z.to_nat (zlen content - offset) < fuel)%nat ->
  wf_generated max_packets (zlen content / 20) st.(ngit_count)
    (iter_pcapng_blocks pow10_neg content max_packets fuel st offset).
Proof.
  revert st offset. induction fuel as [|fuel IH]; intros st offset Hst Ho Hf; [lia|].
  cbn [iter_pcapng_blocks]. destruct (Z.ltb_spec offset (zlen content)); [|apply wf_end].
  eapply wf_let; [apply block_header_ends|]. intros [[[e sec] ty] len] [Hlen Hle]. cbv zeta.
  set (st1 := mk_ng_iter e st.(ngit_interfaces) _ _ _). assert (ng_interfaces_ok st1 offset) as H1 by exact Hst.
  assert (st1.(ngit_count) = st.(ngit_count)) as Hc by done. rewrite <- Hc.
  assert (ng_interfaces_ok st1 (offset + len)) as H2 by (destruct H1 as (? & ? & ?); repeat split; done || lia).
  assert (st1.(ngit_next_interface_id) <= zlen content / 20) as Hb.
  { destruct H1 as (_ & ? & _). apply Z.div_le_lower_bound; lia. }
  destruct sec.
  { apply (IH (mk_ng_iter e [] _ _ true)); [|lia..]. destruct H2 as (? & ? & _). repeat split; done. }
  destruct (negb _); [by apply wf_raise|]. destruct (ty =? 1).
  { eapply wf_let; [apply interface_block_ends; done || lia|].
    intros st' [Hok <-]. apply IH; [done|lia..]. }
  destruct (is_packet_block ty).
  { eapply wf_let; [by apply (packet_block_ends st1 offset ty len (zlen content / 20)); lia || done|].
    intros [p st'] (Hp & Hok & Hn').
    apply wf_cons; [exact Hp|]. rewrite <- Hn'. apply IH; [done|lia..]. }
  destruct (ty =? 3); [by apply wf_raise|]. apply IH; [done|lia..].
Qed.
End pcapng_wf.

Lemma capture_packets_wf (pow10_neg : Z -> py_float) (content : bytes) (max_packets : Z) :
  match capture_packets pow10_neg content max_packets with
  | Ok (format, g) => wf_generated max_packets (container_bound format content) 0 g
  | Err e => e <> OutOfFuel
  end.
Proof.
  unfold capture_packets. destruct (CLASSIC_MAGIC _) as [[e r]|] eqn:Hm; simpl.
  - unfold _iter_classic_pcap. rewrite Hm. cbv zeta.
    repeat (apply wf_guard; [done|]; intros ?). apply classic_records_wf; [lia|]. unfold zlen. lia.
  - case_bool_decide; [|done]. unfold _iter_pcapng. pose proof (zlen_nonneg content).
    apply (pcapng_blocks_wf pow10_neg content max_packets _ (mk_ng_iter LE [] 0 0 false) 0);
      [|lia|unfold zlen; lia]. repeat split; done.
Qed.

Lemma wf_generated_length max_packets bound g :
  0 <= max_packets -> wf_generated max_packets bound 0 g -> zlen g.1 <= max_packets.
Proof.
  intros Hm [_ Hg]. destruct g.1 as [|p l _] eqn:E using rev_ind; [done|].
  assert ((l ++ [p]) !! length l = Some p) as Hl by apply list_lookup_middle, eq_refl.
  destruct (Hg _ _ Hl) as [_ Hlt _ _ _]. rewrite zlen_app. unfold zlen in *. simpl. lia.
Qed.

(** C20: the packet generators of the parser always end, and every packet they
    yield, whatever the bytes, carries its position as index, lies below the
    packet limit, has between zero and [original_length] captured bytes and at
    most the packet size limit, and references one of the interface identities
    below the container bound [parse_pcap] reserves. *)
Theorem generated_packets_wf (pow10_neg : Z -> py_float) (content : bytes) (max_packets : Z) :
  match capture_packets pow10_neg content max_packets with
  | Ok (format, g) => wf_generated max_packets (container_bound format content) 0 g
  | Err e => e <> OutOfFuel
  end.
Proof. apply capture_packets_wf. Qed.

(** ** What a parse accumulates *)

(** Two times bound a list of times tightly. *)
Definition spans (start stop : Z) (times : list Z) : Prop :=
  start ∈ times /\ stop ∈ times /\ forall t, t ∈ times -> start <= t <= stop.

Lemma list_min_spec x l : list_min (x :: l) ∈ x :: l /\ forall t, t ∈ x :: l -> list_min (x :: l) <= t.
Proof.
  simpl. induction l as [|y l [IHi IHm]]; simpl; [set_solver by lia|]. split.
  - destruct (Z.min_spec y (foldr Z.min x l)) as [[_ ->]|[_ ->]]; set_solver.
  - intros t Ht. assert (t = y \/ t ∈ x :: l) as [->|Ht'] by set_solver; [lia|].
    specialize (IHm t Ht'). lia.
Qed.

Lemma list_max_spec x l : list_max (x :: l) ∈ x :: l /\ forall t, t ∈ x :: l -> t <= list_max (x :: l).
Proof.
  simpl. induction l as [|y l [IHi IHm]]; simpl; [set_solver by lia|]. split.
  - destruct (Z.max_spec y (foldr Z.max x l)) as [[_ ->]|[_ ->]]; set_solver.
  - intros t Ht. assert (t = y \/ t ∈ x :: l) as [->|Ht'] by set_solver; [lia|].
    specialize (IHm t Ht'). lia.
Qed.

Lemma list_min_max_spans times : times <> [] -> spans (list_min times) (list_max times) times.
Proof.
  destruct times as [|x l]; [done|]. intros _.
  destruct (list_min_spec x l), (list_max_spec x l). split; [done|]. split; [done|]. auto.
Qed.

Lemma omap_length_le {A B} (f : A -> option B) l : (length (omap f l) <= length l)%nat.
Proof.
  unfold omap. induction l as [|x l IH]; simpl; [done|]. destruct (f x); simpl in *; lia.
Qed.

Section accumulate.
Context (sha256_hex : bytes -> string) {Features Sample : Type}.
Context (extract_payload_features : bytes -> option Features).
Context (packet_sample : Z -> string -> Z -> Z -> bytes -> option Z -> option Z -> option Sample).
Context (sensor_id : string) (networks : list ip_network) (options : ParseOptions).
Context (max_packets bound : Z).

Abbreviation record := (FlowRecord Features Sample).
Abbreviation state := (ParseState (Features := Features) (Sample := Sample)).
Abbreviation decode packet := (_decode_packet sha256_hex extract_payload_features packet_sample
  packet sensor_id networks options).

(** A record up to its network evidence. *)
Definition erase (r : record) : record := with_evidence None r.

(** The record of a supported packet, up to its network evidence. *)
Definition decoded_record (packet : _CapturedPacket) : option record :=
  match decode packet with Ok (Some r) => Some (erase r) | _ => None end.

(** The state after the packets of [seen]. *)
Record accumulated (seen : list _CapturedPacket) (st : state) : Prop := {
  acc_captured : st.(ps_captured) = zlen seen;
  acc_times : st.(ps_timestamps) = cap_timestamp <$> seen;
  acc_links : forall t, t ∈ st.(ps_link_types) <-> t ∈ cap_link_type <$> seen;
  acc_records : erase <$> st.(ps_records) = omap decoded_record seen;
  acc_truncated : st.(ps_truncated) = false;
}.

Lemma accumulated_start : accumulated [] parse_start.
Proof. split; simpl; set_solver. Qed.

Lemma erase_attach packet r interfaces :
  erase (attach_interface options bound packet r interfaces).1 = erase r.
Proof.
  unfold attach_interface. destruct (fr_evidence r); [|done].
  destruct (po_retain_network_evidence _); [|done]. by destruct (_capture_interface_id _ _ _).
Qed.

Lemma parse_packet_accumulates seen packet st st' :
  accumulated seen st ->
  parse_packet sha256_hex extract_payload_features packet_sample sensor_id networks options bound
    packet st = Ok st' ->
  accumulated (seen ++ [packet]) st'.
Proof.
  intros [Hc Ht Hl Hr Hf] H. unfold parse_packet in H. apply bind_Ok in H as (d & Hd & H).
  assert (st' = mk_parse st'.(ps_records) (st.(ps_captured) + 1)
    (st.(ps_timestamps) ++ [packet.(cap_timestamp)]) ({[packet.(cap_link_type)]} ∪ st.(ps_link_types))
    st'.(ps_interfaces) st.(ps_truncated)) as ->.
  { destruct d as [r|]; [destruct (attach_interface _ _ _ _ _) as [r' t']|]; by injection H as <-. }
  split; simpl; [rewrite zlen_app, Hc; done| |set_solver| |done].
  - by rewrite Ht, fmap_app.
  - rewrite omap_app. simpl. unfold decoded_record at 2. rewrite Hd. destruct d as [r|].
    + pose proof (erase_attach packet r (ps_interfaces st)) as He.
      destruct (attach_interface _ _ _ _ _) as [r' t']. injection H as <-. simpl in *.
      by rewrite fmap_app, Hr, <- He.
    + injection H as <-. simpl. by rewrite Hr, app_nil_r.
Qed.

(** Where the loop stops: at the end of the packets, or at the limit with a
    packet left. *)
Lemma parse_packets_accumulates packets ended seen st st' :
  accumulated seen st ->
  parse_packets sha256_hex extract_payload_features packet_sample sensor_id networks options
    max_packets bound packets ended st = Ok st' ->
  exists more rest, packets = more ++ rest /\
    accumulated (seen ++ more) (mk_parse st'.(ps_records) st'.(ps_captured) st'.(ps_timestamps)
      st'.(ps_link_types) st'.(ps_interfaces) false) /\
    if st'.(ps_truncated)
    then options.(po_truncate_at_max_packets) = true /\ rest <> [] /\
         (zlen seen <= max_packets -> zlen (seen ++ more) = max_packets)
    else rest = [] /\ ended = Ok tt /\
         (options.(po_truncate_at_max_packets) = true -> zlen seen <= max_packets ->
          zlen (seen ++ more) <= max_packets).
Proof.
  revert seen st. induction packets as [|packet packets IH]; intros seen st Hst H; simpl in H.
  - destruct ended as [[]|]; [|done]. injection H as <-. exists [], []. split; [done|].
    rewrite app_nil_r, (acc_truncated _ _ Hst). split; [|done]. destruct Hst. by split.
  - destruct (_ && _) eqn:G.
    + injection H as <-. apply andb_prop in G as [Gt Gl%Z.leb_le].
      rewrite (acc_captured _ _ Hst) in Gl.
      exists [], (packet :: packets). rewrite app_nil_r. simpl. split; [done|].
      split; [destruct Hst; by split|]. split; [done|]. split; [done|]. lia.
    + apply bind_Ok in H as (st1 & H1 & H). pose proof (parse_packet_accumulates _ _ _ _ Hst H1) as Hst1.
      destruct (IH _ _ Hst1 H) as (more & rest & -> & Hacc & Hend).
      exists (packet :: more), rest. split; [done|]. rewrite <- app_assoc in Hacc, Hend. simpl in *.
      split; [exact Hacc|]. rewrite (acc_captured _ _ Hst) in G. rewrite !zlen_app in *.
      assert (zlen [packet] = 1) as H1' by done.
      destruct (ps_truncated st').
      * destruct Hend as (Ht & Hr & He). rewrite Ht in G. simpl in G.
        split; [done|]. split; [done|]. intros Hlt. apply He. lia.
      * destruct Hend as (Hr & He & Hle). split; [done|]. split; [done|]. intros Ht Hs.
        rewrite Ht in G. simpl in G. apply Hle; [done|lia].
Qed.
End accumulate.

(** What a successful parse reports about the packets it read. *)
Record parse_report {Features Sample : Type} (decoded : _CapturedPacket -> option (FlowRecord Features Sample))
    (max_packets : Z) (packets : list _CapturedPacket) (ended : res unit)
    (result : PcapParseResult (Features := Features) (Sample := Sample)) : Prop := {
  rep_read : list _CapturedPacket := take (Z.to_nat result.(ppr_captured_packet_count)) packets;
  rep_captured : result.(ppr_captured_packet_count) = zlen rep_read;
  rep_limit : 1 <= result.(ppr_captured_packet_count) <= max_packets;
  rep_records : erase <$> result.(ppr_records) = omap decoded rep_read;
  rep_parsed : result.(ppr_parsed_packet_count) = zlen result.(ppr_records);
  rep_total : result.(ppr_parsed_packet_count) + result.(ppr_skipped_packet_count)
              = result.(ppr_captured_packet_count);
  rep_skipped : 0 <= result.(ppr_skipped_packet_count);
  rep_times : spans result.(ppr_start_time) result.(ppr_end_time) (cap_timestamp <$> rep_read);
  rep_links : forall t, t ∈ result.(ppr_link_types) <-> t ∈ cap_link_type <$> rep_read;
  rep_links_sorted : StronglySorted Z.lt result.(ppr_link_types);
  rep_end : if result.(ppr_truncated)
            then result.(ppr_captured_packet_count) = max_packets /\ max_packets < zlen packets
            else rep_read = packets /\ ended = Ok tt;
}.

(** C21: a parse accounts for every packet: its records are those of the
    supported packets among the first [captured_packet_count] packets of the
    capture, in order; the parsed and skipped counts add up to that number,
    which never exceeds [max_packets]; the time window is tight; the link types
    are those seen, sorted; and the result is flagged truncated exactly when
    the limit cut the capture short, and otherwise every packet was read
    without error. *)
Theorem parse_accounts (sha256_hex : bytes -> string) (pow10_neg : Z -> py_float)
    {Features Sample : Type} (extract_payload_features : bytes -> option Features)
    (packet_sample : Z -> string -> Z -> Z -> bytes -> option Z -> option Z -> option Sample)
    (content : bytes) (sensor_id : string) (internal_networks : list string) (max_packets : Z)
    (options : ParseOptions) result :
  parse_pcap sha256_hex pow10_neg extract_payload_features packet_sample
    content sensor_id internal_networks max_packets options = Ok result ->
  exists networks packets ended,
    _networks internal_networks = Ok networks /\
    capture_packets pow10_neg content
      (if options.(po_truncate_at_max_packets) then max_packets + 1 else max_packets)
      = Ok (result.(ppr_capture_format), (packets, ended)) /\
    parse_report (decoded_record sha256_hex extract_payload_features packet_sample sensor_id
                    networks options) max_packets packets ended result.
Proof.
  intros H. unfold parse_pcap in H.
  apply bind_Ok in H as (_ & Hmax%raise_if_Ok & H). apply bind_Ok in H as (_ & _ & H).
  apply bind_Ok in H as (networks & Hnet & H). cbv zeta in H.
  apply bind_Ok in H as ([format [packets ended]] & Hcap & H).
  apply bind_Ok in H as (st & Hloop & H). apply bind_Ok in H as (_ & Hne%raise_if_Ok & H).
  apply bind_Ok in H as (_ & _ & H). injection H as <-.
  exists networks, packets, ended. split; [done|]. split; [exact Hcap|].
  pose proof (capture_packets_wf pow10_neg content
    (if po_truncate_at_max_packets options then max_packets + 1 else max_packets)) as Hwf.
  rewrite Hcap in Hwf. reflect_bools. apply wf_generated_length in Hwf; [|destruct (po_truncate_at_max_packets _); lia].
  apply (parse_packets_accumulates _ _ _ _ _ _ _ _ _ _ []) in Hloop; [|apply accumulated_start].
  destruct Hloop as (more & rest & -> & [Hc Ht Hl Hr _] & Hend). simpl in *.
  assert (take (Z.to_nat (ps_captured st)) (more ++ rest) = more) as Hread
    by (rewrite Hc; unfold zlen; rewrite Nat2Z.id; apply take_app_length).
  assert (zlen (ps_records st) <= zlen more) as Hle.
  { apply (f_equal length) in Hr. rewrite length_fmap in Hr. unfold zlen. rewrite Hr.
    apply inj_le, omap_length_le. }
  assert (more <> []) as Hmore by (intros ->; rewrite zlen_nil in Hc; lia).
  pose proof (zlen_nonneg rest). pose proof (zlen_nonneg more). rewrite zlen_app in Hwf.
  constructor; simpl; rewrite ?Hread; try done; try lia.
  - rewrite zlen_nil in Hend. destruct (ps_truncated st).
    + destruct Hend as (_ & _ & He). lia.
    + destruct Hend as (_ & _ & He). destruct (po_truncate_at_max_packets options); [|lia].
      specialize (He eq_refl). lia.
  - rewrite Ht. apply list_min_max_spans. intros E. by apply fmap_nil_inv in E.
  - intros t. rewrite (sort_by_perm Z.leb), elem_of_elements. apply Hl.
  - apply sort_Z_lt, NoDup_elements.
  - rewrite zlen_nil in Hend. destruct (ps_truncated st).
    + destruct Hend as (_ & Hrest & He). rewrite zlen_app. destruct rest; [done|].
      rewrite zlen_cons in *. pose proof (zlen_nonneg rest). lia.
    + destruct Hend as (-> & -> & _). by rewrite app_nil_r.
Qed.

(** Evidence is kept and the capture is cut at the limit. *)
Definition sample_options : ParseOptions := {|
  po_retain_packet_bytes := true;
  po_retain_packet_bytes_as_bytes := true;
  po_retain_payload_sample_bytes := 16;
  po_allow_no_supported_packets := true;
  po_truncate_at_max_packets := true;
  po_retain_network_evidence := true;
|}.

Lemma parse_accounts_witness :
  exists result (packets : list _CapturedPacket),
    sample_parse sample_pcapng 1 sample_options = Ok result /\
    result.(ppr_captured_packet_count) = 1 /\ result.(ppr_truncated) = true /\ 1 < zlen packets.
Proof.
  destruct (sample_parse sample_pcapng 1 sample_options) as [result|e] eqn:H;
    [|vm_compute in H; discriminate H].
  assert (match sample_parse sample_pcapng 1 sample_options with
          | Ok r => r.(ppr_truncated) | Err _ => false end = true) as Ht by (vm_compute; reflexivity).
  rewrite H in Ht.
  destruct (parse_accounts _ _ _ _ _ _ _ _ _ _ H) as (networks & packets & ended & _ & _ & Hrep).
  destruct Hrep as [read _ Hlimit _ _ _ _ _ _ _ Hend]. rewrite Ht in Hend. destruct Hend as [Hc Hp].
  exists result, packets. split; [reflexivity|]. split; [exact Hc|]. split; [exact Ht|exact Hp].
Defined.

(** ** Interface identities *)

(** Where a packet was captured: the interface of the container and, for Linux
    cooked captures v2, the interface index of the cooked header. *)
Definition capture_origin (p : _CapturedPacket) : Z * option Z :=
  (p.(cap_interface_id),
   if p.(cap_link_type) =? 276 then Some (from_be (slice 4 8 p.(cap_data))) else None).

(** The identity a table gives a packet. *)
Definition identity_in (t : interface_table) (p : _CapturedPacket) : option Z :=
  match (capture_origin p).2 with
  | None => Some p.(cap_interface_id)
  | Some ifindex => t !! (p.(cap_interface_id), ifindex)
  end.

Definition record_interface {Features Sample} (r : FlowRecord Features Sample) : option Z :=
  fr_evidence r ≫= ne_capture_interface_id.

(** Identities are handed out from the top, none is shared, and none is one
    of the container's. *)
Record table_ok (bound : Z) (t : interface_table) : Prop := {
  tab_range : forall k i, t !! k = Some i -> bound <= i /\ 2 ^ 32 - 1 - Z.of_nat (size t) < i;
  tab_inj : forall k k' i, t !! k = Some i -> t !! k' = Some i -> k = k';
}.

Lemma table_ok_empty bound : table_ok bound ∅.
Proof. split; intros *; rewrite lookup_empty; done. Qed.

(** A packet gets no identity only if it is Linux cooked v2 and its header is cut
    off, it names no interface, or the identities are used up. *)
Definition unidentified (bound : Z) (t : interface_table) (p : _CapturedPacket) : Prop :=
  p.(cap_link_type) = 276 /\
  (zlen p.(cap_data) < 20 \/ from_be (slice 4 8 p.(cap_data)) = 0 \/
   Z.min _MAX_SLL2_INTERFACES (2 ^ 32 - bound) <= Z.of_nat (size t)).

Lemma capture_interface_id_ok bound p t :
  table_ok bound t ->
  let '(i, t') := _capture_interface_id p t bound in
  table_ok bound t' /\ t ⊆ t' /\
  match i with Some a => identity_in t' p = Some a | None => unidentified bound t' p end /\
  (forall k a, t' !! k = Some a -> t !! k = Some a \/ i = Some a).
Proof.
  intros Hok. unfold _capture_interface_id, identity_in, capture_origin, unidentified. simpl.
  destruct (Z.eqb_spec (cap_link_type p) 276) as [E|E]; simpl; [|by split_and!; auto].
  destruct (Z.ltb_spec (zlen (cap_data p)) 20); [by split_and!; auto|].
  destruct (Z.eqb_spec (from_be (slice 4 8 (cap_data p))) 0); [by split_and!; auto|].
  destruct (t !! _) as [a|] eqn:Ht; [rewrite Ht; by split_and!; auto|].
  destruct (_ || _) eqn:G; [split_and!; auto; right; right; lia|]. reflect_bools. destruct Hok as [Hr Hi].
  assert (forall k i, t !! k = Some i -> i <> 2 ^ 32 - 1 - Z.of_nat (size t)) as Hfresh
    by (intros k i Hk ->; destruct (Hr _ _ Hk); lia).
  split; [split|split_and!; [by apply insert_subseteq|by rewrite lookup_insert_eq|]].
  - intros k i Hk. rewrite map_size_insert_None by done.
    apply lookup_insert_Some in Hk as [[_ <-]|[_ Hk]]; [lia|]. destruct (Hr _ _ Hk). lia.
  - intros k k' i Hk Hk'.
    apply lookup_insert_Some in Hk as [[<- <-]|[_ Hk]], Hk' as [[<- E']|[_ Hk']]; try done.
    + by apply Hfresh in Hk'.
    + subst i. by apply Hfresh in Hk.
    + by eapply Hi.
  - intros k a Hk. apply lookup_insert_Some in Hk as [[_ <-]|[_ Hk]]; auto.
Qed.

Lemma identity_in_mono t t' p a : t ⊆ t' -> identity_in t p = Some a -> identity_in t' p = Some a.
Proof. unfold identity_in. destruct (capture_origin p).2; [|done]. intros. by eapply lookup_weaken. Qed.

(** Below the bound a table tells the origins apart. *)
Lemma identity_in_faithful bound t p q a b :
  table_ok bound t -> p.(cap_interface_id) < bound -> q.(cap_interface_id) < bound ->
  identity_in t p = Some a -> identity_in t q = Some b ->
  a = b <-> capture_origin p = capture_origin q.
Proof.
  intros [Hr Hi] Hp Hq Ha Hb. unfold identity_in in *.
  destruct (capture_origin p) as [i x] eqn:Ep, (capture_origin q) as [j y] eqn:Eq.
  assert (i = cap_interface_id p /\ j = cap_interface_id q) as [-> ->] by (by injection Ep; injection Eq).
  simpl in *. clear Ep Eq. destruct x as [x|], y as [y|]; simplify_eq.
  - split; [intros ->; specialize (Hi _ _ _ Ha Hb); congruence|].
    intros E. injection E as E1 E2. congruence.
  - split; [intros ->; destruct (Hr _ _ Ha); lia|done].
  - split; [intros <-; destruct (Hr _ _ Hb); lia|done].
  - split; congruence.
Qed.

Section identities.
Context (sha256_hex : bytes -> string) {Features Sample : Type}.
Context (extract_payload_features : bytes -> option Features).
Context (packet_sample : Z -> string -> Z -> Z -> bytes -> option Z -> option Z -> option Sample).
Context (sensor_id : string) (networks : list ip_network) (options : ParseOptions).
Context (max_packets bound : Z) (evidence : options.(po_retain_network_evidence) = true).

Definition supported (p : _CapturedPacket) : bool :=
  match _decode_packet sha256_hex extract_payload_features packet_sample p sensor_id networks
          options with Ok (Some _) => true | _ => false end.

(** The decoded record with its interface filled in. *)
Definition stamped (i : option Z) (r : FlowRecord Features Sample) : FlowRecord Features Sample :=
  match fr_evidence r with
  | Some e => with_evidence (Some (set_capture_interface i e)) r
  | None => r
  end.

(** [r] is the record of the packet [p]. *)
Definition record_of (p : _CapturedPacket) (r : FlowRecord Features Sample) : Prop :=
  exists r0, _decode_packet sha256_hex extract_payload_features packet_sample p sensor_id networks options = Ok (Some r0) /\
    r = stamped (record_interface r) r0.

(** A record kept for a packet carries the packet's identity. *)
Definition identified (t : interface_table) (p : _CapturedPacket) (r : FlowRecord Features Sample)
    : Prop :=
  record_of p r /\
  match record_interface r with Some a => identity_in t p = Some a | None => unidentified bound t p end.

Record identities_ok (seen : list _CapturedPacket) (st : ParseState) : Prop := {
  ids_table : table_ok bound st.(ps_interfaces);
  ids_records : Forall2 (identified st.(ps_interfaces)) (filter (fun p => supported p = true) seen) st.(ps_records);
  ids_captured : st.(ps_captured) = zlen seen;
  ids_used : forall k a, st.(ps_interfaces) !! k = Some a -> Some a ∈ record_interface <$> st.(ps_records);
}.

Lemma identities_start : identities_ok [] parse_start.
Proof. split; [apply table_ok_empty|apply Forall2_nil_2|done|intros k a; simpl; by rewrite lookup_empty]. Qed.

Lemma identified_mono t t' p r : t ⊆ t' -> identified t p r -> identified t' p r.
Proof.
  intros Ht [Hr Hi]. split; [done|]. destruct (record_interface r) as [a|]; [by eapply identity_in_mono|].
  destruct Hi as [Hl Hu]. split; [done|]. pose proof (map_subseteq_size _ _ Ht). destruct Hu as [?|[?|?]]; [auto..|].
  right. right. lia.
Qed.

Lemma attach_interface_identifies packet r t :
  table_ok bound t ->
  _decode_packet sha256_hex extract_payload_features packet_sample packet sensor_id networks options = Ok (Some r) ->
  let '(r', t') := attach_interface options bound packet r t in
  table_ok bound t' /\ t ⊆ t' /\ identified t' packet r' /\
  (forall k a, t' !! k = Some a -> t !! k = Some a \/ record_interface r' = Some a).
Proof.
  intros Ht Hd.
  assert (exists e, fr_evidence r = Some e) as [e He].
  { unfold _decode_packet in Hd. destruct (_network_packet _ _) as [[version body]|]; [|done].
    destruct (if version =? 4 then _ else _) as [d|]; [|done]. apply bind_Ok in Hd as (dir & _ & [= <-]).
    cbn [fr_evidence]. rewrite evidence. by eexists. }
  unfold attach_interface, identified, record_of, stamped, record_interface. rewrite He, evidence.
  pose proof (capture_interface_id_ok bound packet t Ht) as H.
  destruct (_capture_interface_id packet t bound) as [i t']. destruct H as (H1 & H2 & H3 & H4).
  split_and!; [done|done| |done|done]. exists r. split; [done|]. by rewrite He.
Qed.

Lemma parse_packet_identities seen packet st st' :
  identities_ok seen st ->
  parse_packet sha256_hex extract_payload_features packet_sample sensor_id networks options bound
    packet st = Ok st' ->
  identities_ok (seen ++ [packet]) st'.
Proof.
  intros [Ht Hr Hc Hu] H. unfold parse_packet in H. apply bind_Ok in H as (d & Hd & H).
  assert (forall x, zlen (seen ++ [packet]) = x + 1 <-> zlen seen = x) as Hz by (intros x; rewrite zlen_app; change (zlen [packet]) with 1; lia).
  destruct d as [r|].
  - pose proof (attach_interface_identifies packet r _ Ht Hd) as Ha.
    destruct (attach_interface _ _ _ _ _) as [r' t']. injection H as <-.
    destruct Ha as (Ht' & Hsub & Hid & Hused). split; [done| |simpl; symmetry; by apply Hz|].
    + simpl. rewrite filter_app, filter_cons, filter_nil.
      replace (supported packet) with true by (unfold supported; by rewrite Hd). simpl. apply Forall2_app; [|by constructor].
      eapply Forall2_impl; [exact Hr|]. intros p q. by apply identified_mono.
    + simpl. intros k a Hk. rewrite fmap_app, elem_of_app. destruct (Hused k a Hk) as [Hk'|Ha]; [left; by eapply Hu|right].
      simpl. rewrite Ha. by apply list_elem_of_here.
  - injection H as <-. split; [done| |simpl; symmetry; by apply Hz|done].
    simpl. rewrite filter_app, filter_cons, filter_nil.
    replace (supported packet) with false by (unfold supported; by rewrite Hd). simpl. by rewrite app_nil_r.
Qed.

Lemma parse_packets_identities packets ended seen st st' :
  identities_ok seen st ->
  parse_packets sha256_hex extract_payload_features packet_sample sensor_id networks options
    max_packets bound packets ended st = Ok st' ->
  exists more rest, packets = more ++ rest /\ identities_ok (seen ++ more) st'.
Proof.
  revert seen st. induction packets as [|packet packets IH]; intros seen st Hst H; simpl in H.
  - destruct ended as [[]|]; [|done]. injection H as <-. exists [], []. split; [done|]. by rewrite app_nil_r.
  - destruct (_ && _); [injection H as <-; exists [], (packet :: packets); rewrite app_nil_r|].
    { split; [done|]. destruct Hst. by split. }
    apply bind_Ok in H as (st1 & H1 & H). apply (parse_packet_identities seen) in H1; [|done].
    destruct (IH _ _ H1 H) as (more & rest & -> & Hids). exists (packet :: more), rest.
    by rewrite <- app_assoc in Hids.
Qed.

(** As many different identities as the table holds are carried by records. *)
Lemma identities_used seen st :
  identities_ok seen st ->
  exists ids, NoDup ids /\ (forall a, a ∈ ids -> Some a ∈ record_interface <$> st.(ps_records)) /\
    zlen ids = Z.of_nat (size st.(ps_interfaces)).
Proof.
  intros [[_ Hi] _ _ Hu]. exists (map_to_list (ps_interfaces st)).*2. split_and!.
  - apply NoDup_fmap_2_strong; [|apply NoDup_map_to_list]. intros [k a] [k' a'] Hk%elem_of_map_to_list Hk'%elem_of_map_to_list.
    simpl. intros <-. f_equal. by eapply Hi.
  - intros a ([k a'] & -> & Hk%elem_of_map_to_list)%list_elem_of_fmap. by eapply Hu.
  - unfold zlen. by rewrite length_fmap, length_map_to_list.
Qed.
End identities.

(** C22: interface identities tell interfaces apart. When a parse retains network
    evidence, its records are, one by one and in order, the decoded records of
    the supported packets among the first [captured_packet_count] packets of the
    capture, with only the interface filled in; two records carry the same
    [capture_interface_id] exactly when their packets come from the same
    interface, that is the same interface of the container and, for Linux cooked
    captures v2, the same interface index, so an identity made up for a cooked
    interface never equals one of the container's own. A record of another link
    type always carries the interface of the container. A record is left without
    an identity only if its packet is Linux cooked v2 and has less than the 20
    bytes of the cooked header, or interface index 0, or so many different
    identities are in use that 65536 or the room above the container's bound is
    used up. *)
Theorem interface_identities_faithful (sha256_hex : bytes -> string) (pow10_neg : Z -> py_float)
    {Features Sample : Type} (extract_payload_features : bytes -> option Features)
    (packet_sample : Z -> string -> Z -> Z -> bytes -> option Z -> option Z -> option Sample)
    (content : bytes) (sensor_id : string) (internal_networks : list string) (max_packets : Z)
    (options : ParseOptions) result :
  options.(po_retain_network_evidence) = true ->
  parse_pcap sha256_hex pow10_neg extract_payload_features packet_sample
    content sensor_id internal_networks max_packets options = Ok result ->
  exists networks packets ended,
    _networks internal_networks = Ok networks /\
    capture_packets pow10_neg content
      (if options.(po_truncate_at_max_packets) then max_packets + 1 else max_packets)
      = Ok (result.(ppr_capture_format), (packets, ended)) /\
    let kept := filter (fun p => supported sha256_hex extract_payload_features packet_sample sensor_id networks options p = true)
                  (ztake result.(ppr_captured_packet_count) packets) in
    Forall2 (record_of sha256_hex extract_payload_features packet_sample sensor_id networks options)
      kept result.(ppr_records) /\
    (forall (i j : nat) p q r s a b,
      kept !! i = Some p -> result.(ppr_records) !! i = Some r -> record_interface r = Some a ->
      kept !! j = Some q -> result.(ppr_records) !! j = Some s -> record_interface s = Some b ->
      a = b <-> capture_origin p = capture_origin q) /\
    (forall (i : nat) p r,
      kept !! i = Some p -> result.(ppr_records) !! i = Some r ->
      match record_interface r with
      | Some a => p.(cap_link_type) <> 276 -> a = p.(cap_interface_id)
      | None => p.(cap_link_type) = 276 /\
          (zlen p.(cap_data) < 20 \/ from_be (slice 4 8 p.(cap_data)) = 0 \/
           exists ids, NoDup ids /\ (forall a, a ∈ ids -> Some a ∈ record_interface <$> result.(ppr_records)) /\
             Z.min 65536 (2 ^ 32 - container_bound result.(ppr_capture_format) content) <= zlen ids)
      end).
Proof.
  intros Hev H. unfold parse_pcap in H.
  apply bind_Ok in H as (_ & _ & H). apply bind_Ok in H as (_ & _ & H).
  apply bind_Ok in H as (networks & Hnet & H). cbv zeta in H.
  apply bind_Ok in H as ([format [packets ended]] & Hcap & H).
  apply bind_Ok in H as (st & Hloop & H). apply bind_Ok in H as (_ & _ & H).
  apply bind_Ok in H as (_ & _ & H). injection H as <-. simpl.
  change (match format with PCAP => 1 | PCAPNG => zlen content / 20 end)
    with (container_bound format content) in Hloop.
  apply (parse_packets_identities _ _ _ _ _ _ _ _ Hev _ _ []) in Hloop; [|apply identities_start].
  destruct Hloop as (more & rest & -> & Hok). pose proof (identities_used _ _ _ _ _ _ _ _ _ Hok) as (ids & Hnd & Hin & Hlen).
  destruct Hok as [Ht Hr Hc _]. simpl in Hr, Hc.
  pose proof (capture_packets_wf pow10_neg content
    (if po_truncate_at_max_packets options then max_packets + 1 else max_packets)) as Hwf.
  rewrite Hcap in Hwf. destruct Hwf as [_ Hwf]. simpl in Hwf.
  eexists _, _, _. split; [exact Hnet|]. split; [exact Hcap|]. rewrite Hc, ztake_app_exact by done. split_and!.
  - eapply Forall2_impl; [exact Hr|]. by intros p r [? _].
  - intros i j p q r s a b Hp Hri Ha Hq Hsj Hb.
    assert (forall k x, filter (fun p => supported sha256_hex extract_payload_features packet_sample
        sensor_id networks options p = true) more !! k = Some x -> x.(cap_interface_id) < container_bound format content) as Hlt.
    { intros k x Hx%list_elem_of_lookup_2. apply list_elem_of_filter in Hx as [_ Hx].
      apply list_elem_of_lookup_1 in Hx as [n Hx].
      apply (lookup_app_l_Some _ rest) in Hx. destruct (Hwf _ _ Hx) as [_ _ [_ ?] _ _]. done. }
    eapply identity_in_faithful; [exact Ht|by eapply Hlt..| |].
    + destruct (Forall2_lookup_lr _ _ _ _ _ _ Hr Hp Hri) as [_ Hi]. by rewrite Ha in Hi.
    + destruct (Forall2_lookup_lr _ _ _ _ _ _ Hr Hq Hsj) as [_ Hi]. by rewrite Hb in Hi.
  - intros i p r Hp Hri. destruct (Forall2_lookup_lr _ _ _ _ _ _ Hr Hp Hri) as [_ Hi].
    destruct (record_interface r) as [a|].
    + intros Hl. unfold identity_in, capture_origin in Hi. simpl in Hi.
      rewrite (proj2 (Z.eqb_neq _ _) Hl) in Hi. congruence.
    + destruct Hi as [Hl Hu]. split; [done|]. destruct Hu as [?|[?|Hx]]; [auto..|]. right. right. exists ids.
      split_and!; [done|done|]. rewrite Hlen. exact Hx.
Qed.

(** A classic capture of two Linux cooked v2 packets, of interfaces 2 and 3. *)
Definition cooked_packet (ifindex : byte) : bytes :=
  [x00; xf1; x53; x65; x90; xd0; x03; x00; x30; x00; x00; x00; x30; x00; x00; x00;
   x08; x00; x00; x00; x00; x00; x00; ifindex; x00; x01; x00; x06;
   x00; x00; x00; x00; x00; x00; x00; x00;
   x45; x00; x00; x1c; x00; x01; x00; x00; x40; x11; x00; x00; x0a; x00; x00; x05;
   x08; x08; x08; x08; x14; xe9; x00; x35; x00; x08; x00; x00].

Definition sample_cooked : bytes :=
  [xd4; xc3; xb2; xa1; x02; x00; x04; x00; x00; x00; x00; x00; x00; x00; x00; x00;
   xff; xff; x00; x00; x14; x01; x00; x00] ++ cooked_packet x02 ++ cooked_packet x03.

Lemma interface_identities_faithful_witness :
  exists result r s (p q : _CapturedPacket),
    sample_parse sample_cooked 10 sample_options = Ok result /\
    result.(ppr_records) = [r; s] /\ record_interface r = Some (2 ^ 32 - 1) /\
    record_interface s = Some (2 ^ 32 - 2) /\ capture_origin p <> capture_origin q.
Proof.
  destruct (sample_parse sample_cooked 10 sample_options) as [result|e] eqn:H;
    [|vm_compute in H; discriminate H].
  assert (match sample_parse sample_cooked 10 sample_options with
          | Ok r => record_interface <$> r.(ppr_records) | Err _ => [] end
          = [Some (2 ^ 32 - 1); Some (2 ^ 32 - 2)]) as Hi by (vm_compute; reflexivity).
  rewrite H in Hi. unfold sample_parse in H.
  destruct (interface_identities_faithful _ _ _ _ _ _ _ _ sample_options _ eq_refl H)
    as (networks & packets & ended & _ & _ & Hof & Hids & _). pose proof (Forall2_length _ _ _ Hof) as Hlen. clear Hof.
  destruct (ppr_records result) as [|r [|s [|]]] eqn:Hr; try discriminate Hi. injection Hi as Hr1 Hs1.
  destruct (filter _ _) as [|p [|q [|]]]; try discriminate Hlen.
  exists result, r, s, p, q. split; [reflexivity|]. split; [exact Hr|]. split; [exact Hr1|].
  split; [exact Hs1|]. intros E.
  apply (Hids 0%nat 1%nat p q r s _ _ eq_refl eq_refl Hr1 eq_refl eq_refl Hs1) in E. discriminate E.
Defined.
