(* ===== verification/JobMachine.v ===== *)
(** * JobMachine

    The life cycle of an analysis job (jobs.py): the states, the transition
    table, and [StateMachine.transition] with the history it appends to.  The
    reachable jobs are the histories of the machine; their invariant is proved by
    induction on the steps. *)

From Stdlib Require Import String.
From S2P Require Import Prelude.
#[local] Open Scope Z_scope.

Inductive JobState : Type :=
  | CREATED | WAITING_FOR_SENSOR | CAPTURING | UPLOADING | INGESTING | ANALYZING
  | COMPLETED | PARTIALLY_COMPLETED | FAILED | CANCELLED.

#[export] Instance JobState_eq_dec : EqDecision JobState.
Proof. solve_decision. Defined.

Definition TERMINAL : list JobState := [COMPLETED; PARTIALLY_COMPLETED; FAILED; CANCELLED].

(** [StateMachine.transitions] *)
Definition transitions (s : JobState) : list JobState :=
  match s with
  | CREATED => [WAITING_FOR_SENSOR; FAILED; CANCELLED]
  | WAITING_FOR_SENSOR => [CAPTURING; FAILED; CANCELLED]
  | CAPTURING => [UPLOADING; FAILED; CANCELLED]
  | UPLOADING => [INGESTING; FAILED; CANCELLED]
  | INGESTING => [ANALYZING; FAILED; CANCELLED]
  | ANALYZING => [COMPLETED; PARTIALLY_COMPLETED; FAILED; CANCELLED]
  | COMPLETED | PARTIALLY_COMPLETED | FAILED | CANCELLED => []
  end.

(** An entry of [job["transitions"]]. *)
Record Transition : Type := mk_transition {
  tr_from_status : option JobState;
  tr_to_status : JobState;
  tr_occurred_at : Z;
  tr_reason : string;
}.

(** The keys of the job dictionary that the machine reads and writes. *)
Record Job : Type := mk_job {
  job_status : JobState;
  job_transitions : list Transition;
  job_updated_at : Z;
  job_completed_at : option Z;
}.

(** What [build_job] sets them to. *)
Definition build_job (now : Z) : Job :=
  mk_job CREATED [mk_transition None CREATED now "analysis requested"] now None.

Definition job_state_name (s : JobState) : string :=
  match s with
  | CREATED => "CREATED" | WAITING_FOR_SENSOR => "WAITING_FOR_SENSOR" | CAPTURING => "CAPTURING"
  | UPLOADING => "UPLOADING" | INGESTING => "INGESTING" | ANALYZING => "ANALYZING"
  | COMPLETED => "COMPLETED" | PARTIALLY_COMPLETED => "PARTIALLY_COMPLETED"
  | FAILED => "FAILED" | CANCELLED => "CANCELLED"
  end.

Definition validate (current target : JobState) : res unit :=
  raise_if (negb (bool_decide (target ∈ transitions current)))
    (ValueError ("invalid job transition: " +:+ job_state_name current +:+ " -> "
                 +:+ job_state_name target)).

(** [occurred] is the clock [transition] reads. *)
Definition transition (occurred : Z) (job : Job) (target : JobState) (reason : string) : res Job :=
  let current := job.(job_status) in
  _ ← validate current target;
  Ok (mk_job target
        (job.(job_transitions) ++ [mk_transition (Some current) target occurred reason])
        occurred
        (if bool_decide (target ∈ TERMINAL) then Some occurred else job.(job_completed_at))).

(** ** Reachable jobs *)

(** A job as requests, workers and operators drive it. *)
Inductive reachable : Job -> Prop :=
  | reach_build now : reachable (build_job now)
  | reach_step occurred job target reason job' :
      reachable job -> transition occurred job target reason = Ok job' -> reachable job'.

(** The states a history went through, in order. *)
Definition visited (history : list Transition) : list JobState := tr_to_status <$> history.

(** How many transitions a state still allows. *)
Definition rank (s : JobState) : Z :=
  match s with
  | CREATED => 6 | WAITING_FOR_SENSOR => 5 | CAPTURING => 4 | UPLOADING => 3 | INGESTING => 2
  | ANALYZING => 1 | COMPLETED | PARTIALLY_COMPLETED | FAILED | CANCELLED => 0
  end.

(** Each entry starts where the one before it ended, along the table. *)
Definition chained (history : list Transition) : Prop :=
  forall (i : nat) a b, history !! i = Some a -> history !! S i = Some b ->
    tr_from_status b = Some (tr_to_status a) /\ tr_to_status b ∈ transitions (tr_to_status a).

Record job_ok (job : Job) : Prop := {
  jo_first : exists now, head job.(job_transitions) = Some (mk_transition None CREATED now "analysis requested");
  jo_last : exists e, last job.(job_transitions) = Some e /\ tr_to_status e = job.(job_status)
              /\ tr_occurred_at e = job.(job_updated_at)
              /\ job.(job_completed_at) =
                 if bool_decide (job.(job_status) ∈ TERMINAL) then Some (tr_occurred_at e) else None;
  jo_chain : chained job.(job_transitions);
  jo_rank : zlen job.(job_transitions) + rank job.(job_status) <= 7;
  jo_visited : NoDup (visited job.(job_transitions));
  jo_above : forall s, s ∈ visited job.(job_transitions) -> s = job.(job_status) \/
               rank job.(job_status) < rank s;
}.

Lemma transition_rank s t : t ∈ transitions s -> rank t < rank s.
Proof. destruct s; simpl; set_solver by done. Qed.

Lemma terminal_no_transitions s : s ∈ TERMINAL <-> transitions s = [].
Proof. destruct s; unfold TERMINAL; set_solver. Qed.

Lemma transition_inv occurred job target reason job' :
  transition occurred job target reason = Ok job' ->
  target ∈ transitions job.(job_status) /\
  job' = mk_job target
    (job.(job_transitions) ++ [mk_transition (Some job.(job_status)) target occurred reason]) occurred
    (if bool_decide (target ∈ TERMINAL) then Some occurred else job.(job_completed_at)).
Proof.
  unfold transition, validate. intros H. apply bind_Ok in H as (_ & Hv%raise_if_Ok & [= <-]).
  split; [|done]. by case_bool_decide.
Qed.

Lemma chained_snoc history e b :
  chained history -> last history = Some e -> tr_from_status b = Some (tr_to_status e) ->
  tr_to_status b ∈ transitions (tr_to_status e) -> chained (history ++ [b]).
Proof.
  intros Hc Hl Hf Ht i x y Hx Hy. rewrite last_lookup in Hl.
  destruct (decide (S i < length history)%nat).
  - rewrite lookup_app_l in Hx, Hy by lia. by eapply Hc.
  - apply lookup_app_Some in Hy as [Hy|[Hle Hy]]; [apply lookup_lt_Some in Hy; lia|].
    apply list_lookup_singleton_Some in Hy as [Hi <-].
    replace (pred (length history)) with i in Hl by lia.
    rewrite lookup_app_l in Hx by lia. rewrite Hx in Hl. by injection Hl as ->.
Qed.

Lemma transition_ok occurred job target reason job' :
  job_ok job -> transition occurred job target reason = Ok job' -> job_ok job'.
Proof.
  intros [[now Hfirst] (e & Hlast & Hst & Hupd & Hcomp) Hchain Hrank Hnd Habove] H.
  apply transition_inv in H as [Hin ->].
  pose proof (transition_rank _ _ Hin) as Hlt.
  assert (target ∉ visited (job_transitions job)) as Hnew.
  { intros [->|Hr]%Habove; lia. }
  assert (bool_decide (job_status job ∈ TERMINAL) = false) as Hnt.
  { apply bool_decide_eq_false. intros Ht%terminal_no_transitions. rewrite Ht in Hin. set_solver. }
  split; simpl.
  - exists now. by destruct (job_transitions job).
  - eexists. rewrite last_snoc. split; [reflexivity|]. split; [done|]. split; [done|].
    simpl. rewrite Hcomp, Hnt. done.
  - eapply chained_snoc; [done|done|simpl; congruence|simpl; congruence].
  - rewrite zlen_app. change (zlen [_]) with 1. lia.
  - unfold visited in *. rewrite fmap_app. apply NoDup_app. simpl. split; [done|].
    split; [set_solver|apply NoDup_singleton].
  - intros s Hs. unfold visited in *. rewrite fmap_app in Hs. simpl in Hs.
    apply elem_of_app in Hs as [[->|Hr]%Habove|Hs]; [by right|right; lia|left; set_solver].
Qed.

(** C26: every reachable job has a sound history: it begins with the request,
    each entry continues the one before it along the transition table, no state is
    entered twice and there are at most seven entries; the job's status, update
    time and completion time are those of the last entry, and it is completed
    exactly in a terminal state, from which no transition is accepted. *)
Theorem reachable_job_history (job : Job) :
  reachable job ->
  job_ok job /\
  (job.(job_status) ∈ TERMINAL <->
   forall occurred target reason, transition occurred job target reason
     = Err (ValueError ("invalid job transition: " +:+ job_state_name job.(job_status) +:+ " -> "
                        +:+ job_state_name target))).
Proof.
  intros Hr. split.
  - induction Hr as [now|occurred job target reason job' _ IH H]; [|by eapply transition_ok].
    split; simpl.
    + by eexists.
    + by eexists.
    + intros i a b Ha Hb. by apply lookup_lt_Some in Hb; simpl in Hb; lia.
    + done.
    + apply NoDup_singleton.
    + set_solver.
  - rewrite terminal_no_transitions. unfold transition, validate. split.
    + intros Ht occurred target reason. rewrite Ht. by rewrite (bool_decide_false (target ∈ [])) by apply not_elem_of_nil.
    + intros H. destruct (transitions (job_status job)) as [|t l] eqn:Ht; [done|].
      specialize (H 0 t ""%string). by rewrite (bool_decide_true (t ∈ t :: l)) in H by set_solver.
Qed.

Lemma reachable_job_history_witness :
  exists job, reachable job /\ job.(job_status) = FAILED /\ job_ok job.
Proof.
  destruct (transition 2 (build_job 1) FAILED "no sensor") as [job|e] eqn:H; [|discriminate H].
  assert (reachable job) as Hr by (eapply reach_step; [apply (reach_build 1)|exact H]).
  exists job. split; [exact Hr|]. split; [by injection H as <-|].
  exact (proj1 (reachable_job_history job Hr)).
Defined.
