(* ===== verification/CaptureLimits.v ===== *)
(** * CaptureLimits

    The analysis-wide capture limits (capture_limits.py): the share of a limit
    each sensor gets, and the final cap over aggregated flow records, which
    cuts the last record it keeps. *)

From Stdlib Require Import String SpecFloat.
From S2P Require Import Prelude Bytes PyFloat PostingModel.
#[local] Open Scope Z_scope.
#[local] Set Warnings "-register-all".

(** ** Python values *)

Inductive py_value : Type :=
  | PNone
  | PBool (b : bool)
  | PInt (z : Z)
  | PFloat (f : py_float)
  | PStr (s : string)
  | PList (l : list py_value)
  | PDict (d : list (string * py_value)).

(** A record is a dictionary with string keys. *)
Abbreviation flow_record := (gmap string py_value) (only parsing).

Definition _TCP_COUNTER_FIELDS : list string :=
  ["tcp_flags.fin"; "tcp_flags.syn"; "tcp_flags.rst"; "tcp_flags.psh";
   "tcp_flags.ack"; "tcp_flags.urg"; "tcp_flags.ece"; "tcp_flags.cwr"]%string.

Definition _TCP_SESSION_COUNTER_FIELDS : list string :=
  ["tcp_syn_count"; "tcp_ack_count"; "tcp_rst_count"; "tcp_syn_only_count";
   "tcp_syn_ack_count"; "tcp_ack_only_count"]%string.

(** [isinstance(value, int) and not isinstance(value, bool)] *)
Definition _positive_int (value : py_value) : option Z :=
  match value with PInt z => if z <=? 0 then None else Some z | _ => None end.

(** ** Sensor shares *)

(** [sorted(set(sensor_ids))] *)
Definition sorted_sensors (sensor_ids : list string) : list string :=
  sort_by str_leb (elements (list_to_set sensor_ids : gset string)).

(** [l.index(x)] *)
Definition index_of (x : string) (l : list string) : nat :=
  match list_find (x =.) l with Some (i, _) => i | None => 0%nat end.

Definition allocate_sensor_limit (configured_limit : py_value) (sensor_ids : list string)
    (sensor_id : string) : option Z :=
  match _positive_int configured_limit with
  | None => None
  | Some limit =>
      let sensors := sorted_sensors sensor_ids in
      if bool_decide (sensors = []) || negb (bool_decide (sensor_id ∈ sensors)) then Some 0
      else
        let quotient := limit / zlen sensors in
        let remainder := limit mod zlen sensors in
        let index := Z.of_nat (index_of sensor_id sensors) in
        Some (quotient + (if index <? remainder then 1 else 0))
  end.

(** ** The cap over flow records *)

Definition _record_packets (record : flow_record) : Z :=
  match default (PInt 1) (record !! "packet_count"%string) with
  | PInt z => if z <=? 0 then 1 else z
  | _ => 1
  end.

Definition _record_bytes (record : flow_record) : Z :=
  match default (PInt 0) (record !! "total_bytes"%string) with
  | PInt z => if z <? 0 then 0 else z
  | _ => 0
  end.

(** [bool(value)] *)
Definition truthy (value : py_value) : bool :=
  match value with
  | PNone => false
  | PBool b => b
  | PInt z => negb (z =? 0)
  | PFloat f => match f with S754_zero _ => false | _ => true end
  | PStr s => negb (bool_decide (s = ""%string))
  | PList l => match l with [] => false | _ => true end
  | PDict d => match d with [] => false | _ => true end
  end.

(** [item[k] = v] for each pair, in order. *)
Definition set_fields (fields : list (string * py_value)) (item : flow_record) : flow_record :=
  fold_left (fun item '(k, v) => <[k := v]> item) fields item.

Definition cleared_fields : list (string * py_value) :=
  [("packet_sizes", PList []); ("hop_limit_min", PNone); ("hop_limit_max", PNone);
   ("hop_limit_mode", PNone); ("hop_limit_distinct_count", PInt 0);
   ("ip_id_observed_count", PInt 0); ("ip_id_zero_count", PInt 0);
   ("ip_id_distinct_count", PInt 0); ("ip_id_monotonic_transitions", PInt 0);
   ("ip_id_transition_count", PInt 0); ("ip_id_values_truncated", PBool true);
   ("ip_ttl", PNone); ("transport_payload_packet_count", PNone);
   ("packet_evidence_complete", PBool false)]%string.

Definition clear_tcp_flags (item : flow_record) : flow_record :=
  match item !! "tcp_flags"%string with
  | Some (PDict d) =>
      <["tcp_flags"%string :=
          PDict (filter (fun kv => ("tcp_flags." +:+ kv.1)%string ∉ _TCP_COUNTER_FIELDS) d)]> item
  | _ => item
  end.

Definition clear_tcp_session (item : flow_record) : flow_record :=
  if truthy (default PNone (item !! "tcp_flags_observed"%string)) then
    set_fields
      (((fun f => (f, PInt 0)) <$> _TCP_SESSION_COUNTER_FIELDS) ++
       [("tcp_syn_only_observations", PList []);
        ("tcp_syn_only_observations_truncated", PBool true); ("bidirectional", PBool false)]%string)
      item
  else item.

(** The record the boundary falls into, with [remaining] of its packets. *)
Definition partial_record (record : flow_record) (packet_count remaining : Z) : flow_record :=
  let item := <["packet_count"%string := PInt remaining]> record in
  let total := _record_bytes item * remaining / packet_count in
  let item := set_fields [("total_bytes"%string, PInt total);
                          ("average_packet_size"%string, PFloat (int_truediv total remaining))] item in
  clear_tcp_session (clear_tcp_flags (set_fields cleared_fields item)).

Record LimitSummary : Type := mk_summary {
  ls_configured_max_packets : Z;
  ls_observed_packets : Z;
  ls_retained_packets : Z;
  ls_discarded_packets : Z;
}.

(** The loop; a full record leaves [remaining] to the next one. *)
Fixpoint limit_loop (records : list flow_record) (remaining : Z) : list flow_record * Z :=
  match records with
  | [] => ([], 0)
  | record :: records' =>
      let packet_count := _record_packets record in
      if remaining <=? 0 then ([], 0)
      else if packet_count <=? remaining then
        let '(retained, packets) := limit_loop records' (remaining - packet_count) in
        (record :: retained, packet_count + packets)
      else
        let '(retained, packets) := limit_loop records' 0 in
        (partial_record record packet_count remaining :: retained, remaining + packets)
  end.

Definition limit_flow_records (records : list flow_record) (configured_max_packets : py_value)
    : list flow_record * LimitSummary :=
  let observed := sumZ _record_packets records in
  match _positive_int configured_max_packets with
  | None => (records, mk_summary 0 observed observed 0)
  | Some limit =>
      if observed <=? limit then (records, mk_summary limit observed observed 0)
      else
        let '(retained, packets) := limit_loop records limit in
        (retained, mk_summary limit observed packets (observed - packets))
  end.

(** ** Properties *)

Lemma sorted_sensors_perm ids : sorted_sensors ids ≡ₚ elements (list_to_set ids : gset string).
Proof. apply sort_by_perm. Qed.

Lemma sorted_sensors_NoDup ids : NoDup (sorted_sensors ids).
Proof. rewrite sorted_sensors_perm. apply NoDup_elements. Qed.

Lemma index_of_lookup l (i : nat) x : NoDup l -> l !! i = Some x -> index_of x l = i.
Proof.
  intros Hnd Hi. unfold index_of.
  destruct (list_find (x =.) l) as [[j y]|] eqn:Hf.
  - apply list_find_Some in Hf as (Hj & <- & _). by eapply NoDup_lookup.
  - apply list_find_None in Hf. rewrite Forall_lookup in Hf. by destruct (Hf _ _ Hi).
Qed.

#[export] Instance sumZ_Permutation {A} (f : A -> Z) : Proper (Permutation ==> eq) (sumZ f).
Proof.
  intros l k Hp. induction Hp as [|x l k _ IH|x y l|l k m _ IH1 _ IH2]; rewrite ?sumZ_cons; lia.
Qed.

(** The positions below [t] get one more. *)
Lemma sumZ_shares (q t : Z) n k :
  sumZ (fun i => q + (if Z.of_nat i <? t then 1 else 0)) (seq k n)
  = q * Z.of_nat n + Z.max 0 (Z.min (Z.of_nat n) (t - Z.of_nat k)).
Proof.
  revert k. induction n as [|n IH]; intros k; [unfold sumZ; simpl; lia|].
  cbn [seq]. rewrite sumZ_cons, IH. destruct (Z.ltb_spec (Z.of_nat k) t); lia.
Qed.

Lemma sumZ_lookup {A} (f : A -> Z) (g : nat -> Z) l k :
  (forall (i : nat) x, l !! i = Some x -> f x = g (k + i)%nat) -> sumZ f l = sumZ g (seq k (length l)).
Proof.
  revert k. induction l as [|x l IH]; intros k H; [done|].
  cbn [length seq]. rewrite !sumZ_cons, (H 0%nat x eq_refl), Nat.add_0_r. f_equal.
  apply IH. intros i y Hy. rewrite (H (S i) y Hy). f_equal. lia.
Qed.

Definition share (limit : Z) (sensor_ids : list string) (sensor_id : string) : Z :=
  default 0 (allocate_sensor_limit (PInt limit) sensor_ids sensor_id).

(** C27: the sensors of an analysis share its limit exactly: over the distinct
    sensor ids the shares add up to the limit, every share is the quotient or one
    more, and an id that is not one of them gets nothing. *)
Theorem sensor_shares_exact (limit : Z) (sensor_ids : list string) :
  0 < limit -> sensor_ids <> [] ->
  let sensors := elements (list_to_set sensor_ids : gset string) in
  sumZ (share limit sensor_ids) sensors = limit /\
  (forall s, s ∈ sensor_ids -> limit / zlen sensors <= share limit sensor_ids s <= limit / zlen sensors + 1) /\
  (forall s, s ∉ sensor_ids -> share limit sensor_ids s = 0).
Proof.
  intros Hl Hne sensors.
  assert (sorted_sensors sensor_ids ≡ₚ sensors) as Hp by apply sorted_sensors_perm.
  assert (zlen (sorted_sensors sensor_ids) = zlen sensors) as Hlen by (unfold zlen; by rewrite Hp).
  assert (forall s, s ∈ sorted_sensors sensor_ids <-> s ∈ sensor_ids) as Hin
    by (intros s; rewrite Hp; unfold sensors; set_solver).
  assert (sorted_sensors sensor_ids <> []) as Hs.
  { destruct sensor_ids as [|s l]; [done|]. intros E. specialize (Hin s). rewrite E in Hin. set_solver. }
  assert (0 < zlen sensors) as Hpos.
  { rewrite <- Hlen. destruct (sorted_sensors sensor_ids); [done|]. rewrite zlen_cons.
    pose proof (zlen_nonneg l). lia. }
  assert (forall s, s ∈ sensor_ids -> share limit sensor_ids s = limit / zlen sensors +
    (if Z.of_nat (index_of s (sorted_sensors sensor_ids)) <? limit mod zlen sensors then 1 else 0)) as Hshare.
  { intros s Hs'. unfold share, allocate_sensor_limit, _positive_int.
    rewrite (proj2 (Z.leb_gt limit 0)) by lia.
    rewrite bool_decide_false, bool_decide_true by (done || by apply Hin). simpl. by rewrite Hlen. }
  split; [|split].
  - transitivity (sumZ (share limit sensor_ids) (sorted_sensors sensor_ids)).
    { by rewrite Hp. }
    rewrite (sumZ_lookup _ (fun i => limit / zlen sensors +
      (if Z.of_nat i <? limit mod zlen sensors then 1 else 0)) _ 0).
    2: { intros i x Hx. rewrite Hshare by (apply Hin; by eapply list_elem_of_lookup_2).
         by rewrite (index_of_lookup _ i) by (done || apply sorted_sensors_NoDup). }
    rewrite sumZ_shares. fold (zlen (sorted_sensors sensor_ids)). rewrite Hlen.
    pose proof (Z.div_mod limit (zlen sensors)). pose proof (Z.mod_pos_bound limit (zlen sensors)). lia.
  - intros s Hs'. rewrite Hshare by done. destruct (_ <? _); lia.
  - intros s Hs'. unfold share, allocate_sensor_limit. destruct (_positive_int _); [|done].
    rewrite (bool_decide_false (s ∈ _)) by (by rewrite Hin). by rewrite orb_true_r.
Qed.

Lemma sensor_shares_exact_witness :
  0 < 10 /\ sumZ (share 10 ["b"; "a"; "b"; "c"]%string)
              (elements (list_to_set ["b"; "a"; "b"; "c"]%string : gset string)) = 10.
Proof. split; [lia|]. apply (sensor_shares_exact 10 ["b"; "a"; "b"; "c"]%string); [lia|done]. Defined.

Lemma lookup_set_fields k fields item : k ∉ fields.*1 -> set_fields fields item !! k = item !! k.
Proof.
  unfold set_fields. revert item. induction fields as [|[k' v] fields IH]; intros item Hk; [done|].
  simpl. rewrite IH by set_solver. apply lookup_insert_ne. set_solver.
Qed.

(** What the cuts leave alone. *)
Lemma lookup_cleared k item :
  k ∈ ["packet_count"; "total_bytes"]%string ->
  clear_tcp_session (clear_tcp_flags (set_fields cleared_fields item)) !! k = item !! k.
Proof.
  intros Hk.
  assert (forall i, clear_tcp_session i !! k = i !! k) as ->.
  { intros i. unfold clear_tcp_session. destruct (truthy _); [|done]. apply lookup_set_fields.
    simpl. set_solver by done. }
  assert (forall i, clear_tcp_flags i !! k = i !! k) as ->.
  { intros i. unfold clear_tcp_flags. destruct (i !! "tcp_flags"%string) as [[]|]; try done.
    apply lookup_insert_ne. set_solver by done. }
  apply lookup_set_fields. simpl. set_solver by done.
Qed.

Lemma partial_packets r p n : 0 < n -> _record_packets (partial_record r p n) = n.
Proof.
  intros Hn. unfold _record_packets, partial_record. cbv zeta.
  rewrite lookup_cleared by set_solver. rewrite lookup_set_fields by (simpl; set_solver by done).
  rewrite lookup_insert_eq. simpl. by rewrite (proj2 (Z.leb_gt n 0)).
Qed.

Lemma record_bytes_nonneg r : 0 <= _record_bytes r.
Proof. unfold _record_bytes. destruct (default _ _); try lia. destruct (Z.ltb_spec z 0); lia. Qed.

Lemma record_packets_pos r : 0 < _record_packets r.
Proof. unfold _record_packets. destruct (default _ _); try lia. destruct (Z.leb_spec z 0); lia. Qed.

Lemma partial_bytes r p n :
  0 < n <= p -> _record_bytes (partial_record r p n) = _record_bytes r * n / p.
Proof.
  intros Hn. unfold partial_record. cbv zeta. set (item := <["packet_count"%string := PInt n]> r).
  assert (_record_bytes item = _record_bytes r) as ->.
  { unfold _record_bytes, item. by rewrite lookup_insert_ne. }
  set (total := _record_bytes r * n / p). unfold _record_bytes.
  rewrite lookup_cleared by set_solver. unfold set_fields. simpl.
  rewrite lookup_insert_ne by done. rewrite lookup_insert_eq. simpl.
  rewrite (proj2 (Z.ltb_ge total 0)); [done|].
  pose proof (record_bytes_nonneg r). apply Z.div_pos; nia.
Qed.

(** What the loop keeps: whole records, then at most one cut. *)
Definition capped (limit : Z) (records retained : list flow_record) : Prop :=
  exists full rest, records = full ++ rest /\
    (retained = full \/
     exists r rest' n, rest = r :: rest' /\ 0 < n < _record_packets r /\
       n = limit - sumZ _record_packets full /\
       retained = full ++ [partial_record r (_record_packets r) n]).

Lemma limit_loop_spec records remaining retained packets :
  0 <= remaining -> limit_loop records remaining = (retained, packets) ->
  packets = Z.min remaining (sumZ _record_packets records) /\
  sumZ _record_packets retained = packets /\
  sumZ _record_bytes retained <= sumZ _record_bytes records /\
  capped remaining records retained.
Proof.
  revert remaining retained packets.
  induction records as [|r records IH]; intros remaining retained packets Hr H; simpl in H.
  { injection H as <- <-. unfold sumZ; simpl. repeat split; [lia..|]. exists [], []. auto. }
  pose proof (record_packets_pos r) as Hp. pose proof (record_bytes_nonneg r) as Hb.
  assert (0 <= sumZ _record_packets records) as Hps.
  { apply sumZ_nonneg, Forall_true. intros x. pose proof (record_packets_pos x). lia. }
  assert (0 <= sumZ _record_bytes records) as Hbs
    by (apply sumZ_nonneg, Forall_true; intros x; apply record_bytes_nonneg).
  rewrite !sumZ_cons. destruct (Z.leb_spec remaining 0).
  { injection H as <- <-. change (sumZ _ []) with 0. split; [lia|]. split; [done|].
    split; [lia|]. exists [], (r :: records). auto. }
  destruct (Z.leb_spec (_record_packets r) remaining).
  - destruct (limit_loop records _) as [retained' packets'] eqn:E. injection H as <- <-.
    apply IH in E as (-> & Hs & Hle & full & rest & -> & Hcap); [|lia].
    rewrite !sumZ_cons, Hs. split; [lia|]. split; [done|]. split; [lia|].
    exists (r :: full), rest. split; [done|].
    destruct Hcap as [->|(x & rest' & n & -> & Hn & -> & ->)]; [by left|right].
    exists x, rest', (remaining - _record_packets r - sumZ _record_packets full).
    rewrite sumZ_cons. split; [done|]. split; [done|]. split; [lia|done].
  - destruct (limit_loop records 0) as [retained' packets'] eqn:E. injection H as <- <-.
    assert (retained' = [] /\ packets' = 0) as [-> ->].
    { destruct records; simpl in E; by simplify_eq. }
    rewrite !sumZ_cons. change (sumZ _ []) with 0. rewrite partial_packets by lia.
    rewrite partial_bytes by lia. split; [lia|]. split; [lia|]. split.
    { enough (_record_bytes r * remaining / _record_packets r <= _record_bytes r) by lia.
      apply Z.div_le_upper_bound; nia. }
    exists [], (r :: records). split; [done|]. right. exists r, records, remaining.
    change (sumZ _ []) with 0. repeat split; [lia|done|lia].
Qed.

(** C28: the final cap over flow records is exact: the retained records carry
    the smaller of the limit and what was observed, the summary accounts for
    every packet, no byte is made up, and the kept records are the first ones
    unchanged, save that the last may be cut to the packets that are left, with
    its byte total reduced in proportion. *)
Theorem limit_flow_records_exact (records retained : list flow_record) (configured : py_value)
    (summary : LimitSummary) :
  limit_flow_records records configured = (retained, summary) ->
  let observed := sumZ _record_packets records in
  summary.(ls_observed_packets) = observed /\
  summary.(ls_retained_packets) + summary.(ls_discarded_packets) = observed /\
  sumZ _record_packets retained = summary.(ls_retained_packets) /\
  sumZ _record_bytes retained <= sumZ _record_bytes records /\
  match _positive_int configured with
  | None => retained = records /\ summary.(ls_configured_max_packets) = 0
  | Some limit =>
      summary.(ls_configured_max_packets) = limit /\
      summary.(ls_retained_packets) = Z.min limit observed /\ capped limit records retained
  end.
Proof.
  unfold limit_flow_records. destruct (_positive_int configured) as [limit|] eqn:Hl; cbv zeta.
  - assert (0 < limit) as Hpos.
    { destruct configured; try done. simpl in Hl. destruct (Z.leb_spec z 0); by simplify_eq. }
    destruct (Z.leb_spec (sumZ _record_packets records) limit).
    + intros [= <- <-]. simpl. repeat split; [lia..|]. exists records, [].
      rewrite app_nil_r. auto.
    + destruct (limit_loop records limit) as [kept packets] eqn:E. intros [= <- <-]. simpl.
      apply limit_loop_spec in E as (Hp & Hs & Hb & Hc); [|lia]. repeat split; [lia|done|done|done|done].
  - intros [= <- <-]. simpl. repeat split; lia.
Qed.

Lemma limit_flow_records_exact_witness :
  exists retained summary,
    limit_flow_records
      [ {["packet_count" := PInt 7; "total_bytes" := PInt 700]};
        {["packet_count" := PInt 5; "total_bytes" := PInt 1001]} ]%string (PInt 9)
    = (retained, summary) /\ summary.(ls_retained_packets) = 9 /\
    sumZ _record_packets retained = 9 /\ sumZ _record_bytes retained = 1100.
Proof.
  destruct (limit_flow_records _ (PInt 9)) as [retained summary] eqn:H.
  exists retained, summary. split; [reflexivity|].
  destruct (limit_flow_records_exact _ _ _ _ H) as (_ & _ & Hs & _ & _ & Hr & _).
  assert (summary.(ls_retained_packets) = 9) as H9 by (rewrite Hr; vm_compute; reflexivity).
  split; [exact H9|]. split; [rewrite Hs; exact H9|]. injection H as <- _. vm_compute. reflexivity.
Defined.
