(* ===== verification/CaptureSink.v ===== *)
(** * CaptureSink

    capture_sink.py: temporary files whose operations may fail, the hard-capped
    sink that only takes whole units, and the finished artifact with its
    one-shot, verified iteration.

    A temporary file is a [tempfile.SpooledTemporaryFile]: its bytes, the
    position, and what the storage still has in store for it, one outcome per
    operation.  Whether it has rolled over to disk ([rolled]) is not modelled. *)

From Stdlib Require Import String.
From S2P Require Import Prelude Bytes CaptureParser StructuralIndex.
#[local] Open Scope Z_scope.

(** ** Temporary files *)

(** How an operation goes: as asked, an [OSError], or (a write only) with
    fewer bytes written. *)
Inductive disk_outcome : Type := DiskFine | DiskError | DiskShort (n : Z).

Record Spool : Type := mk_spool {
  sp_data : bytes;
  sp_position : Z;
  sp_closed : bool;
  sp_outcomes : list disk_outcome;
}.

(** The outcome of the next operation; nothing more goes wrong at the end. *)
Definition next_outcome (s : Spool) : disk_outcome * Spool :=
  match s.(sp_outcomes) with
  | [] => (DiskFine, s)
  | o :: os => (o, mk_spool s.(sp_data) s.(sp_position) s.(sp_closed) os)
  end.

Definition _STORAGE_MESSAGE : string := "capture temporary storage operation failed".
Definition _storage_error : exn := CaptureStorageError _STORAGE_MESSAGE.

(** [tempfile.SpooledTemporaryFile(...)] on a storage. *)
Definition spool_open (outcomes : list disk_outcome) : res Spool :=
  match outcomes with
  | DiskError :: _ => Err _storage_error
  | _ :: os => Ok (mk_spool [] 0 false os)
  | [] => Ok (mk_spool [] 0 false [])
  end.

(** [f.write(b)] at the position: the number of bytes written. *)
Definition spool_write (b : bytes) (s : Spool) : option Z * Spool :=
  let '(o, s) := next_outcome s in
  let put b := mk_spool (ztake s.(sp_position) s.(sp_data) ++ b
                         ++ zdrop (s.(sp_position) + zlen b) s.(sp_data))
                 (s.(sp_position) + zlen b) s.(sp_closed) s.(sp_outcomes) in
  match o with
  | DiskFine => (Some (zlen b), put b)
  | DiskError => (None, s)
  | DiskShort n => (Some (zlen (ztake n b)), put (ztake n b))
  end.

(** [f.flush(); f.seek(0)] *)
Definition spool_rewind (s : Spool) : option unit * Spool :=
  let '(o, s) := next_outcome s in
  match o with
  | DiskError => (None, s)
  | _ => (Some tt, mk_spool s.(sp_data) 0 s.(sp_closed) s.(sp_outcomes))
  end.

(** [f.read(n)] for [0 <= n]: short only at the end of the file. *)
Definition spool_read (n : Z) (s : Spool) : option bytes * Spool :=
  let '(o, s) := next_outcome s in
  match o with
  | DiskError => (None, s)
  | _ =>
      let b := slice s.(sp_position) (s.(sp_position) + n) s.(sp_data) in
      (Some b, mk_spool s.(sp_data) (s.(sp_position) + zlen b) s.(sp_closed) s.(sp_outcomes))
  end.

Definition spool_close (s : Spool) : option unit * Spool :=
  let '(o, s) := next_outcome s in
  let s := mk_spool s.(sp_data) s.(sp_position) true s.(sp_outcomes) in
  match o with DiskError => (None, s) | _ => (Some tt, s) end.

(** ** The sink *)

Record CaptureSink : Type := mk_sink {
  snk_max_output_bytes : Z;
  snk_size : Z;
  snk_hash : bytes;      (* what was fed to [hashlib.sha256] *)
  snk_closed : bool;
  snk_spool : Spool;
}.

Definition new_sink (max_output_bytes spool_max_memory_bytes : Z) (storage : list disk_outcome)
    : res CaptureSink :=
  _ ← raise_if (max_output_bytes <? 0) (ValueError "max_output_bytes must be non-negative");
  _ ← raise_if (spool_max_memory_bytes <=? 0) (ValueError "spool_max_memory_bytes must be positive");
  spool ← spool_open storage;
  Ok (mk_sink max_output_bytes 0 [] false spool).

Definition sink_closed_error : exn := ValueError "I/O operation on closed capture sink".

Definition with_spool (s : Spool) (snk : CaptureSink) : CaptureSink :=
  mk_sink snk.(snk_max_output_bytes) snk.(snk_size) snk.(snk_hash) snk.(snk_closed) s.

(** [write_unit]: [False] and nothing written when the unit does not fit. *)
Definition write_unit (parts : list bytes) (snk : CaptureSink) : res bool * CaptureSink :=
  if snk.(snk_closed) then (Err sink_closed_error, snk)
  else
    let unit := concat parts in
    if snk.(snk_max_output_bytes) <? snk.(snk_size) + zlen unit then (Ok false, snk)
    else
      match spool_write unit snk.(snk_spool) with
      | (None, spool) => (Err _storage_error, with_spool spool snk)
      | (Some written, spool) =>
          if negb (written =? zlen unit) then (Err _storage_error, with_spool spool snk)
          else (Ok true, mk_sink snk.(snk_max_output_bytes) (snk.(snk_size) + written)
                           (snk.(snk_hash) ++ unit) snk.(snk_closed) spool)
      end.

Definition sink_rewind (snk : CaptureSink) : res unit * CaptureSink :=
  if snk.(snk_closed) then (Err sink_closed_error, snk)
  else match spool_rewind snk.(snk_spool) with
       | (None, spool) => (Err _storage_error, with_spool spool snk)
       | (Some _, spool) => (Ok tt, with_spool spool snk)
       end.

(** [CaptureSink.read_bytes] *)
Definition sink_read_bytes (snk : CaptureSink) : res bytes * CaptureSink :=
  match sink_rewind snk with
  | (Err e, snk) => (Err e, snk)
  | (Ok _, snk) =>
      match spool_read (zlen snk.(snk_spool).(sp_data)) snk.(snk_spool) with
      | (None, spool) => (Err _storage_error, with_spool spool snk)
      | (Some content, spool) =>
          (if negb (zlen content =? snk.(snk_size)) then Err _storage_error else Ok content,
           with_spool spool snk)
      end
  end.

(** [detach]: the rewound file is handed over, the sink is closed. *)
Definition detach (snk : CaptureSink) : res Spool * CaptureSink :=
  match sink_rewind snk with
  | (Err e, snk) => (Err e, snk)
  | (Ok _, snk) =>
      (Ok snk.(snk_spool),
       mk_sink snk.(snk_max_output_bytes) snk.(snk_size) snk.(snk_hash) true snk.(snk_spool))
  end.

Definition sink_close (snk : CaptureSink) : res unit * CaptureSink :=
  if snk.(snk_closed) then (Ok tt, snk)
  else
    let closed spool := mk_sink snk.(snk_max_output_bytes) snk.(snk_size) snk.(snk_hash) true spool in
    match spool_close snk.(snk_spool) with
    | (None, spool) => (Err _storage_error, closed spool)
    | (Some _, spool) => (Ok tt, closed spool)
    end.

(** ** The artifact *)

Section artifact.
Context (sha256_hex : bytes -> string).

Record CaptureArtifact : Type := mk_artifact {
  art_spool : Spool;
  art_capture_format : capture_format;
  art_size_bytes : Z;
  art_sha256 : string;
  art_matched_packet_count : Z;
  art_exported_packet_count : Z;
  art_closed : bool;
  art_consumed : bool;
}.

Definition new_artifact (spool : Spool) (format : capture_format) (size : Z) (sha256 : string)
    (matched exported : Z) : CaptureArtifact :=
  mk_artifact spool format size sha256 matched exported false false.

Definition art_omitted_packet_count (a : CaptureArtifact) : Z :=
  a.(art_matched_packet_count) - a.(art_exported_packet_count).
Definition art_truncated (a : CaptureArtifact) : bool := 0 <? art_omitted_packet_count a.
Definition art_truncation_reasons (a : CaptureArtifact) : list string :=
  if art_truncated a then ["OUTPUT_BYTE_LIMIT"%string] else [].

(** The loop of [iter_chunks]: chunks until an empty read, then the check
    against the size and digest of the artifact. *)
Fixpoint chunk_loop (fuel : nat) (chunk_size size : Z) (sha256 : string) (spool : Spool)
    (emitted : bytes) : generated bytes * Spool :=
  match fuel with
  | O => (gen_raise OutOfFuel, spool)
  | S fuel' =>
      match spool_read chunk_size spool with
      | (None, spool) => (gen_raise _storage_error, spool)
      | (Some [], spool) =>
          (if negb (zlen emitted =? size) || negb (bool_decide (sha256_hex emitted = sha256))
           then gen_raise _storage_error else gen_end, spool)
      | (Some chunk, spool) =>
          let '(g, spool) := chunk_loop fuel' chunk_size size sha256 spool (emitted ++ chunk) in
          (gen_cons chunk g, spool)
      end
  end.

(** [iter_chunks] run to its end.  [_iterating] is set only while it runs. *)
Definition iter_chunks (chunk_size : Z) (a : CaptureArtifact) : generated bytes * CaptureArtifact :=
  if a.(art_closed) then (gen_raise (ValueError "I/O operation on closed capture artifact"), a)
  else if chunk_size <=? 0 then (gen_raise (ValueError "chunk_size must be positive"), a)
  else if a.(art_consumed) then
    (gen_raise (RuntimeError "capture artifact has already been consumed"), a)
  else
    let after spool := mk_artifact spool a.(art_capture_format) a.(art_size_bytes) a.(art_sha256)
      a.(art_matched_packet_count) a.(art_exported_packet_count) a.(art_closed) true in
    match spool_rewind a.(art_spool) with
    | (None, spool) => (gen_raise _storage_error, after spool)
    | (Some _, spool) =>
        let '(g, spool) := chunk_loop (S (length spool.(sp_data))) chunk_size a.(art_size_bytes)
                             a.(art_sha256) spool [] in
        (g, after spool)
    end.

(** [CaptureArtifact.read_bytes] *)
Definition artifact_read_bytes (a : CaptureArtifact) : res bytes * CaptureArtifact :=
  let '((chunks, ended), a) := iter_chunks (64 * 1024) a in
  (_ ← ended;
   let content := concat chunks in
   _ ← raise_if (negb (zlen content =? a.(art_size_bytes))
                 || negb (bool_decide (sha256_hex content = a.(art_sha256)))) _storage_error;
   Ok content, a).

Definition artifact_close (a : CaptureArtifact) : res unit * CaptureArtifact :=
  if a.(art_closed) then (Ok tt, a)
  else
    let closed spool := mk_artifact spool a.(art_capture_format) a.(art_size_bytes) a.(art_sha256)
      a.(art_matched_packet_count) a.(art_exported_packet_count) true a.(art_consumed) in
    match spool_close a.(art_spool) with
    | (None, spool) => (Err _storage_error, closed spool)
    | (Some _, spool) => (Ok tt, closed spool)
    end.
End artifact.
