(* ===== verification/SinkProofs.v ===== *)
(** * SinkProofs

    The finished artifact streams what the sink recorded, once, and never ends
    well on bytes that do not match the recorded size and digest. *)

From Stdlib Require Import String.
From S2P Require Import Prelude Bytes CaptureParser StructuralIndex CaptureSink.
#[local] Open Scope Z_scope.

(** Some operation of the storage fails. *)
Definition failing (s : Spool) : Prop := DiskError ∈ s.(sp_outcomes).

Lemma spool_read_cases n s :
  match spool_read n s with
  | (None, s') => failing s
  | (Some b, s') =>
      b = slice s.(sp_position) (s.(sp_position) + n) s.(sp_data) /\ s'.(sp_data) = s.(sp_data) /\
      s'.(sp_position) = s.(sp_position) + zlen b /\ (failing s' -> failing s)
  end.
Proof.
  unfold spool_read, next_outcome, failing. destruct (sp_outcomes s) as [|[] os] eqn:E; simpl; rewrite ?E; set_solver.
Qed.

Lemma spool_rewind_cases s :
  match spool_rewind s with
  | (None, s') => failing s
  | (Some _, s') => s'.(sp_data) = s.(sp_data) /\ s'.(sp_position) = 0 /\ (failing s' -> failing s)
  end.
Proof.
  unfold spool_rewind, next_outcome, failing. destruct (sp_outcomes s) as [|[] os] eqn:E; simpl; rewrite ?E; set_solver.
Qed.

Section artifact.
Context (sha256_hex : bytes -> string) (chunk_size size : Z) (sha256 : string) (Hchunk : 0 < chunk_size).

(** What an iteration over [data] yields when [emitted] went before. *)
Definition streamed (data emitted : bytes) (fails : Prop) (g : generated bytes) : Prop :=
  Forall (fun c => 0 < zlen c <= chunk_size) g.1 /\ emitted ++ concat g.1 `prefix_of` data /\
  (g.2 = Ok tt /\ emitted ++ concat g.1 = data /\ zlen data = size /\ sha256_hex data = sha256 \/
   g.2 = Err _storage_error /\ (fails \/ ~ (zlen data = size /\ sha256_hex data = sha256))).

Lemma chunk_loop_streams fuel spool emitted rest :
  spool.(sp_data) = emitted ++ rest -> spool.(sp_position) = zlen emitted -> (length rest < fuel)%nat ->
  streamed spool.(sp_data) emitted (failing spool)
    (chunk_loop sha256_hex fuel chunk_size size sha256 spool emitted).1.
Proof.
  revert spool emitted rest. induction fuel as [|fuel IH]; intros spool emitted rest Hd Hp Hf; [lia|].
  cbn [chunk_loop]. pose proof (spool_read_cases chunk_size spool) as Hr.
  destruct (spool_read chunk_size spool) as [[chunk|] spool'] eqn:Hread.
  2: { split; [constructor|]. split; [rewrite Hd; simpl; rewrite app_nil_r; by eexists|]. right. auto. }
  destruct Hr as (Hc & Hd' & Hp' & Hfail).
  assert (chunk = ztake chunk_size rest) as Hck.
  { rewrite Hc, Hd, Hp. unfold slice. rewrite zdrop_app_exact by done. f_equal. lia. }
  destruct chunk as [|b chunk].
  - assert (rest = []) as ->.
    { destruct rest as [|x rest]; [done|]. exfalso. symmetry in Hck. apply (f_equal zlen) in Hck.
      rewrite zlen_nil in Hck. unfold ztake, zlen in Hck. rewrite length_take in Hck. simpl in Hck. lia. }
    rewrite app_nil_r in Hd. rewrite Hd. unfold streamed. simpl.
    destruct (Z.eqb_spec (zlen emitted) size) as [Hz|Hz]; [case_bool_decide as Hs|]; simpl;
      rewrite app_nil_r; (split; [constructor|]); (split; [done|]); [by left|right|right];
      (split; [done|]); right; tauto.
  - destruct (chunk_loop sha256_hex fuel chunk_size size sha256 spool' (emitted ++ b :: chunk)) as [g s''] eqn:Hl.
    assert (rest = (b :: chunk) ++ zdrop chunk_size rest) as Hrest by (rewrite Hck; symmetry; apply take_drop).
    destruct (IH spool' (emitted ++ b :: chunk) (zdrop chunk_size rest)) as (H1 & H2 & H3).
    { by rewrite Hd', Hd, <- app_assoc, <- Hrest. }
    { rewrite Hp', Hp, zlen_app. done. }
    { rewrite Hrest in Hf. rewrite length_app in Hf. simpl in Hf. lia. }
    rewrite Hl, Hd' in *. simpl in H1, H2, H3 |- *. rewrite <- app_assoc in *. split; [|split; [exact H2|]].
    + constructor; [|exact H1]. rewrite Hck. rewrite Hck in Hrest. split; [rewrite <- Hck, zlen_cons; pose proof (zlen_nonneg chunk); lia|].
      unfold ztake, zlen. rewrite length_take. lia.
    + simpl. destruct H3 as [H3|[He H3]]; [by left|right]. split; [done|]. destruct H3; auto.
Qed.
End artifact.

(** C25: an artifact streams its file once and verified: the chunks are
    non-empty, of at most the chunk size, and a prefix of the file; the iteration
    ends normally only after the whole file, when its size and digest are the
    recorded ones, and raises a storage error only if a storage operation fails
    or the file does not match; a second iteration is refused. *)
Theorem artifact_streams (sha256_hex : bytes -> string) (chunk_size : Z) (a : CaptureArtifact)
    (Hopen : a.(art_closed) = false) (Hfresh : a.(art_consumed) = false) (Hchunk : 0 < chunk_size) :
  let '(g, a') := iter_chunks sha256_hex chunk_size a in
  streamed sha256_hex chunk_size a.(art_size_bytes) a.(art_sha256) a.(art_spool).(sp_data) []
    (failing a.(art_spool)) g /\
  forall n, 0 < n -> iter_chunks sha256_hex n a' =
    (gen_raise (RuntimeError "capture artifact has already been consumed"), a').
Proof.
  unfold iter_chunks. rewrite Hopen, Hfresh, (proj2 (Z.leb_gt _ _)) by done.
  pose proof (spool_rewind_cases (art_spool a)) as Hr.
  destruct (spool_rewind (art_spool a)) as [[u|] s].
  - destruct Hr as (Hd & Hp & Hf).
    pose proof (chunk_loop_streams sha256_hex chunk_size (art_size_bytes a) (art_sha256 a) Hchunk
      (S (length (sp_data s))) s [] (sp_data s) eq_refl Hp ltac:(lia)) as Hs.
    destruct (chunk_loop _ _ _ _ _ _ _) as [g s']. simpl in Hs. split.
    + rewrite <- Hd. destruct Hs as (H1 & H2 & H3). split; [done|]. split; [done|]. tauto.
    + intros n Hn. simpl. by rewrite (proj2 (Z.leb_gt _ _)).
  - split.
    + split; [constructor|]. split; [apply prefix_nil|]. right. auto.
    + intros n Hn. simpl. by rewrite (proj2 (Z.leb_gt _ _)).
Qed.

(** Five bytes in chunks of two. *)
Definition sample_artifact : CaptureArtifact :=
  new_artifact (mk_spool [x61; x62; x63; x64; x65] 0 false []) PCAP 5 "digest" 1 1.

Lemma artifact_streams_witness :
  let '(g, _) := iter_chunks (fun _ => "digest"%string) 2 sample_artifact in
  g = ([[x61; x62]; [x63; x64]; [x65]], Ok tt) /\
  streamed (fun _ => "digest"%string) 2 5 "digest" [x61; x62; x63; x64; x65] [] (failing sample_artifact.(art_spool)) g.
Proof.
  pose proof (artifact_streams (fun _ => "digest"%string) 2 sample_artifact eq_refl eq_refl ltac:(lia)) as H.
  destruct (iter_chunks _ _ _) as [g a'] eqn:Hi. split; [|exact (proj1 H)].
  vm_compute in Hi. injection Hi as <- _. reflexivity.
Defined.
