(* ===== verification/CaptureWriter.v ===== *)
(** * CaptureWriter

    The export writer of pcap.py (controller): [_validate_export_record], the
    framed neutral spool the records are kept in while the output is planned, and
    [build_capture_to_sink], which replays them into a classic or a PCAPNG
    capture within a byte limit.

    Metadata of a frame goes through [json] and [isoformat]; that codec is an
    interface here, [MetadataCodec], with its round trip as law.  Aware datetimes
    are UTC datetimes in microseconds since the epoch. *)

From Stdlib Require Import String SpecFloat.
From S2P Require Import Prelude Bytes CaptureFormat PyFloat StructuralIndex CaptureParser CaptureSink.
#[local] Open Scope Z_scope.

(** ** Records *)

Record ExportPacketRecord : Type := mk_export {
  xr_timestamp : Datetime;
  xr_source_id : string;
  xr_source_order : Z;
  xr_packet_index : Z;
  xr_section_index : Z;
  xr_interface_id : Z;
  xr_interface_ordinal : Z;
  xr_link_type : Z;
  xr_packet_bytes : bytes;
  xr_captured_length : Z;
  xr_original_length : Z;
}.

(** The fields [_frame] writes as JSON. *)
Record Metadata : Type := mk_metadata {
  md_timestamp : Datetime;
  md_source_id : string;
  md_source_order : Z;
  md_packet_index : Z;
  md_section_index : Z;
  md_interface_id : Z;
  md_interface_ordinal : Z;
  md_link_type : Z;
  md_captured_length : Z;
  md_original_length : Z;
}.

Definition metadata_of (r : ExportPacketRecord) : Metadata :=
  mk_metadata r.(xr_timestamp) r.(xr_source_id) r.(xr_source_order) r.(xr_packet_index)
    r.(xr_section_index) r.(xr_interface_id) r.(xr_interface_ordinal) r.(xr_link_type)
    r.(xr_captured_length) r.(xr_original_length).

Definition record_of (m : Metadata) (packet : bytes) : ExportPacketRecord :=
  mk_export m.(md_timestamp) m.(md_source_id) m.(md_source_order) m.(md_packet_index)
    m.(md_section_index) m.(md_interface_id) m.(md_interface_ordinal) m.(md_link_type) packet
    m.(md_captured_length) m.(md_original_length).

(** [json.dumps({...}).encode()] of the metadata, and [json.loads] with the
    lookups and [fromisoformat], [None] where they raise. *)
Class MetadataCodec : Type := {
  metadata_dumps : Metadata -> bytes;
  metadata_loads : bytes -> option Metadata;
}.

Class LawfulCodec `{!MetadataCodec} : Prop := {
  dumps_nonempty m : metadata_dumps m <> [];
  loads_dumps m : metadata_loads (metadata_dumps m) = Some m;
}.

(** ** Times *)

(** [timestamp.timestamp()]: total microseconds over a million, rounded. *)
Definition datetime_timestamp (t : Datetime) : py_float :=
  if t.(dt_us) <? 0 then SFopp (int_truediv (- t.(dt_us)) 1000000)
  else int_truediv t.(dt_us) 1000000.

Definition _timestamp_parts (t : Datetime) : Z * Z :=
  (float_floor (datetime_timestamp t), t.(dt_us) mod 1000000).

(** ** Packing *)

(** [struct.pack] of an unsigned integer of [n] bytes. *)
Definition pack_u (n : nat) (v : Z) : res bytes :=
  if (0 <=? v) && (v <? 256 ^ Z.of_nat n) then Ok (to_bytes LE n v)
  else Err (StructError "format requires a number in range").

(** [struct.pack("<q", v)] *)
Definition pack_i64 (v : Z) : res bytes :=
  if (- 2 ^ 63 <=? v) && (v <? 2 ^ 63) then Ok (to_bytes LE 8 (v mod 2 ^ 64))
  else Err (StructError "int too large to convert").

(** The widths of the formats [H] and [I]. *)
Definition U16 : nat := 2.
Definition U32 : nat := 4.

Fixpoint pack_all (fields : list (nat * Z)) : res bytes :=
  match fields with
  | [] => Ok []
  | (n, v) :: fields' => b ← pack_u n v; bs ← pack_all fields'; Ok (b ++ bs)
  end.

Definition _block (kind : Z) (body : bytes) : res bytes :=
  let body := body ++ repeat x00 (Z.to_nat ((- zlen body) mod 4)) in
  let length := 12 + zlen body in
  head ← pack_all [(U32, kind); (U32, length)];
  tail ← pack_u 4 length;
  Ok (head ++ body ++ tail).

(** ** Validation *)

Definition _MAX_FRAME_BYTES : Z := MAX_CAPTURED_PACKET_BYTES + 64 * 1024.
Definition _SPOOL_MAGIC : bytes := [x43; x32; x43; x41; x50; x53; x50; x01].

(** What validation has learnt of the sources and interfaces so far. *)
Record Known : Type := mk_known {
  kn_previous_key : option (Z * Z);
  kn_source_ids : gmap Z string;
  kn_interface_links : gmap (Z * Z) Z;
  kn_local_ordinals : gmap (Z * Z * Z) Z;
}.

(** [key <= previous] on pairs. *)
Definition pair_leb (a b : Z * Z) : bool :=
  (a.1 <? b.1) || ((a.1 =? b.1) && (a.2 <=? b.2)).

(** [d.setdefault(k, v)]: the value and the dictionary. *)
Definition setdefault `{Countable K} {V} (k : K) (v : V) (m : gmap K V) : V * gmap K V :=
  match m !! k with Some v' => (v', m) | None => (v, <[k := v]> m) end.

Definition identifiers (r : ExportPacketRecord) : list Z :=
  [r.(xr_source_order); r.(xr_packet_index); r.(xr_section_index); r.(xr_interface_id);
   r.(xr_interface_ordinal); r.(xr_link_type); r.(xr_captured_length); r.(xr_original_length)].

Definition interface_key (r : ExportPacketRecord) : Z * Z :=
  (r.(xr_source_order), r.(xr_interface_ordinal)).

(** Each [setdefault] takes effect before its contradiction is raised. *)
Definition _validate_export_record (r : ExportPacketRecord) (k : Known) : res Known :=
  _ ← raise_if (negb r.(xr_timestamp).(dt_aware))
        (CaptureRecordError "packet timestamp must be timezone-aware");
  _ ← raise_if (bool_decide (r.(xr_source_id) = ""%string))
        (CaptureRecordError "source_id must be non-empty");
  _ ← raise_if (existsb (fun v => v <? 0) (identifiers r))
        (CaptureRecordError "packet identifiers and lengths must be non-negative");
  _ ← raise_if (negb (r.(xr_captured_length) =? zlen r.(xr_packet_bytes)))
        (CaptureRecordError "captured_length must equal packet byte length");
  _ ← raise_if (r.(xr_original_length) <? r.(xr_captured_length))
        (CaptureRecordError "original_length must not be smaller than captured_length");
  _ ← raise_if (MAX_CAPTURED_PACKET_BYTES <? r.(xr_captured_length))
        (CaptureRecordError "packet exceeds the maximum captured packet size");
  _ ← raise_if (0xFFFF <? r.(xr_link_type))
        (CaptureRecordError "packet link type exceeds the supported range");
  _ ← raise_if (0xFFFFFFFF <? r.(xr_original_length))
        (CaptureRecordError "packet original length exceeds the supported range");
  let key := (r.(xr_source_order), r.(xr_packet_index)) in
  _ ← raise_if (match k.(kn_previous_key) with Some p => pair_leb key p | None => false end)
        (CaptureRecordError "packet records must be in strictly canonical order");
  let '(known_source, source_ids) := setdefault r.(xr_source_order) r.(xr_source_id) k.(kn_source_ids) in
  _ ← raise_if (negb (bool_decide (known_source = r.(xr_source_id))))
        (CaptureRecordError "source_order cannot change source_id");
  let '(known_link, interface_links) :=
    setdefault (interface_key r) r.(xr_link_type) k.(kn_interface_links) in
  _ ← raise_if (negb (known_link =? r.(xr_link_type)))
        (CaptureRecordError "logical interface link type is contradictory");
  let '(known_ordinal, local_ordinals) :=
    setdefault (r.(xr_source_order), r.(xr_section_index), r.(xr_interface_id))
      r.(xr_interface_ordinal) k.(kn_local_ordinals) in
  _ ← raise_if (negb (known_ordinal =? r.(xr_interface_ordinal)))
        (CaptureRecordError "section-local interface metadata is contradictory");
  Ok (mk_known (Some key) source_ids interface_links local_ordinals).

(** ** The store: the neutral spool and the output sink *)

Record Store : Type := mk_store { st_neutral : option Spool; st_output : option CaptureSink }.

(** Code that uses the store; an exception leaves it as it is. *)
Definition io (A : Type) : Type := Store -> res A * Store.
#[global] Instance io_ret : MRet io := fun A a st => (Ok a, st).
#[global] Instance io_bind : MBind io := fun A B f m st =>
  match m st with
  | (Ok a, st') => f a st'
  | (Err e, st') => (Err e, st')
  end.

Definition io_raise {A} (e : exn) : io A := fun st => (Err e, st).
(** A computation that does not touch the store. *)
Definition io_lift {A} (r : res A) : io A := fun st => (r, st).
(** [if cond: raise e] *)
Definition io_guard (cond : bool) (e : exn) : io unit := io_lift (raise_if cond e).

(** An operation of the neutral spool; an [OSError] becomes a storage error.
    The variable is [None] before the file is opened. *)
Definition on_neutral {A} (op : Spool -> option A * Spool) : io A := fun st =>
  match st.(st_neutral) with
  | None => (Err (AttributeError "neutral"), st)
  | Some spool =>
      match op spool with
      | (None, spool) => (Err _storage_error, mk_store (Some spool) st.(st_output))
      | (Some a, spool) => (Ok a, mk_store (Some spool) st.(st_output))
      end
  end.

(** A method of the output sink. *)
Definition on_output {A} (op : CaptureSink -> res A * CaptureSink) : io A := fun st =>
  match st.(st_output) with
  | None => (Err (AttributeError "output"), st)
  | Some snk => let '(r, snk) := op snk in (r, mk_store st.(st_neutral) (Some snk))
  end.

(** Assignments to the two variables. *)
Definition set_neutral (spool : Spool) : io unit := fun st =>
  (Ok tt, mk_store (Some spool) st.(st_output)).
Definition set_output (snk : CaptureSink) : io unit := fun st =>
  (Ok tt, mk_store st.(st_neutral) (Some snk)).
(** Computes from the sink and sets the variable to [None]. *)
Definition release_output {A} (k : CaptureSink -> A) : io A := fun st =>
  match st.(st_output) with
  | None => (Err (AttributeError "output"), st)
  | Some snk => (Ok (k snk), mk_store st.(st_neutral) None)
  end.

Definition _write_spool (content : bytes) : io unit :=
  written ← on_neutral (spool_write content);
  io_guard (negb (written =? zlen content)) _storage_error.

Definition _read_exact (size : Z) : io bytes :=
  value ← on_neutral (spool_read size);
  _ ← io_guard (negb (zlen value =? size)) _storage_error;
  mret value.

Section writer.
Context `{!MetadataCodec} (sha256_hex : bytes -> string).

(** ** Frames *)

Definition malformed_frame : exn := CaptureRecordError "malformed neutral capture frame".

Definition _frame (r : ExportPacketRecord) : res bytes :=
  let metadata := metadata_dumps (metadata_of r) in
  head ← pack_u 4 (zlen metadata);
  let payload := head ++ metadata ++ r.(xr_packet_bytes) in
  _ ← raise_if (_MAX_FRAME_BYTES <? zlen payload)
        (CaptureRecordError "packet exceeds the maximum neutral frame size");
  length ← pack_u 4 (zlen payload);
  Ok (length ++ payload).

Definition decode_frame (payload : bytes) : res ExportPacketRecord :=
  let metadata_length := u32 LE payload 0 in
  let metadata_end := 4 + metadata_length in
  _ ← raise_if ((metadata_length =? 0) || (zlen payload <? metadata_end)) malformed_frame;
  match metadata_loads (slice 4 metadata_end payload) with
  | Some m => Ok (record_of m (zdrop metadata_end payload))
  | None => Err malformed_frame
  end.

Definition _read_frame : io (option ExportPacketRecord) :=
  prefix ← on_neutral (spool_read 4);
  if bool_decide (prefix = []) then mret None
  else
    _ ← io_guard (negb (zlen prefix =? 4)) _storage_error;
    let frame_length := u32 LE prefix 0 in
    _ ← io_guard ((frame_length <? 4) || (_MAX_FRAME_BYTES <? frame_length)) malformed_frame;
    payload ← _read_exact frame_length;
    record ← io_lift (decode_frame payload);
    mret (Some record).

(** ** Planning *)

Record Plan : Type := mk_plan {
  pl_known : Known;
  pl_snaplens : gmap (Z * Z) Z;
  pl_min_timestamps : gmap (Z * Z) py_float;
  pl_matched : Z;
  pl_classic_timestamps : bool;
}.

Definition empty_plan : Plan := mk_plan (mk_known None ∅ ∅ ∅) ∅ ∅ 0 true.

Definition plan_record (r : ExportPacketRecord) (known : Known) (p : Plan) : Plan :=
  let key := interface_key r in
  let unix_timestamp := datetime_timestamp r.(xr_timestamp) in
  let seconds := (_timestamp_parts r.(xr_timestamp)).1 in
  mk_plan known
    (<[key := Z.max (default 0 (p.(pl_snaplens) !! key)) r.(xr_captured_length)]> p.(pl_snaplens))
    (<[key := float_min (default unix_timestamp (p.(pl_min_timestamps) !! key)) unix_timestamp]>
       p.(pl_min_timestamps))
    (p.(pl_matched) + 1)
    (p.(pl_classic_timestamps) && ((0 <=? seconds) && (seconds <=? 0xFFFFFFFF))).

(** The first loop: validate, plan and spool each record. *)
Fixpoint plan_records (records : list ExportPacketRecord) (ended : res unit) (p : Plan) : io Plan :=
  match records with
  | [] => _ ← io_lift ended; mret p
  | r :: records' =>
      known ← io_lift (_validate_export_record r p.(pl_known));
      frame ← io_lift (_frame r);
      _ ← _write_spool frame;
      plan_records records' ended (plan_record r known p)
  end.

Definition plan_format (p : Plan) : capture_format :=
  if (Z.of_nat (size p.(pl_known).(kn_interface_links)) <=? 1) && p.(pl_classic_timestamps)
  then PCAP else PCAPNG.

(** ** Units of the output *)

(** [max(d.values(), default=65535)] *)
Definition classic_snaplen (p : Plan) : Z :=
  match snd <$> map_to_list p.(pl_snaplens) with [] => 65535 | l => list_max l end.

(** [next(iter(interface_links.values()), 1)] of at most one entry. *)
Definition classic_link_type (p : Plan) : Z :=
  default 1 (head (snd <$> map_to_list p.(pl_known).(kn_interface_links))).

Definition classic_header (p : Plan) : res bytes :=
  pack_all [(U32, 0xA1B2C3D4); (U16, 2); (U16, 4); (U32, 0); (U32, 0); (U32, classic_snaplen p);
            (U32, classic_link_type p)].

Definition classic_packet_unit (r : ExportPacketRecord) : res bytes :=
  let '(seconds, microseconds) := _timestamp_parts r.(xr_timestamp) in
  head ← pack_all [(U32, seconds); (U32, microseconds); (U32, r.(xr_captured_length));
                   (U32, r.(xr_original_length))];
  Ok (head ++ r.(xr_packet_bytes)).

Definition section_unit : res bytes :=
  head ← pack_all [(U32, 0x1A2B3C4D); (U16, 1); (U16, 0)];
  length ← pack_i64 (-1);
  _block 0x0A0D0D0A (head ++ length).

(** [min(0, math.floor(value))]; every key was planned. *)
Definition timestamp_offset (p : Plan) (key : Z * Z) : Z :=
  match p.(pl_min_timestamps) !! key with Some f => Z.min 0 (float_floor f) | None => 0 end.

Definition interface_unit (p : Plan) (r : ExportPacketRecord) : res bytes :=
  let key := interface_key r in
  let offset := timestamp_offset p key in
  options ← (if negb (offset =? 0) then
               head ← pack_all [(U16, 14); (U16, 8)];
               value ← pack_i64 offset;
               tail ← pack_all [(U16, 0); (U16, 0)];
               Ok (head ++ value ++ tail)
             else Ok []);
  body ← pack_all [(U16, r.(xr_link_type)); (U16, 0); (U32, default 0 (p.(pl_snaplens) !! key))];
  _block 1 (body ++ options).

(** [round((timestamp - offset) * 1_000_000)] *)
Definition packet_ticks (p : Plan) (r : ExportPacketRecord) : Z :=
  float_round_half_even
    (float_mul (float_sub (datetime_timestamp r.(xr_timestamp))
                  (float_of_Z (timestamp_offset p (interface_key r))))
       (float_of_Z 1000000)).

Definition ng_packet_unit (p : Plan) (output_id : Z) (r : ExportPacketRecord) : res bytes :=
  let ticks := packet_ticks p r in
  _ ← raise_if (negb ((0 <=? ticks) && (ticks <=? 0xFFFFFFFFFFFFFFFF)))
        (CaptureRecordError "packet timestamp exceeds the PCAPNG range");
  head ← pack_all [(U32, output_id); (U32, Z.shiftr ticks 32); (U32, Z.land ticks 0xFFFFFFFF);
                   (U32, r.(xr_captured_length)); (U32, r.(xr_original_length))];
  _block 6 (head ++ r.(xr_packet_bytes)).

(** ** Replay *)

(** Stops at the end of the spool or at the first unit that does not fit. *)
Fixpoint replay_classic (fuel : nat) (exported : Z) : io Z :=
  match fuel with
  | O => io_raise OutOfFuel
  | S fuel' =>
      record ← _read_frame;
      match record with
      | None => mret exported
      | Some r =>
          unit ← io_lift (classic_packet_unit r);
          wrote ← on_output (write_unit [unit]);
          if (wrote : bool) then replay_classic fuel' (exported + 1) else mret exported
      end
  end.

Fixpoint replay_ng (p : Plan) (fuel : nat) (output_ids : gmap (Z * Z) Z) (exported : Z) : io Z :=
  match fuel with
  | O => io_raise OutOfFuel
  | S fuel' =>
      record ← _read_frame;
      match record with
      | None => mret exported
      | Some r =>
          let key := interface_key r in
          let next_id := Z.of_nat (size output_ids) in
          let output_id := default next_id (output_ids !! key) in
          let known := bool_decide (is_Some (output_ids !! key)) in
          interface_block ← io_lift (if known then Ok [] else interface_unit p r);
          packet_block ← io_lift (ng_packet_unit p output_id r);
          wrote ← on_output (write_unit [interface_block; packet_block]);
          if (wrote : bool) then
            replay_ng p fuel' (if known then output_ids else <[key := output_id]> output_ids)
              (exported + 1)
          else mret exported
      end
  end.

Definition limit_too_small (what : string) : exn :=
  CaptureLimitTooSmall ("output byte limit is too small for the " +:+ what).

(** Writes the header, which must fit, then replays. *)
Definition write_capture (p : Plan) (max_output_bytes : Z) (fuel : nat) : io Z :=
  match plan_format p with
  | PCAP =>
      _ ← io_guard (max_output_bytes <? 24) (limit_too_small "PCAP header");
      header ← io_lift (classic_header p);
      wrote ← on_output (write_unit [header]);
      _ ← io_guard (negb wrote) (limit_too_small "PCAP header");
      replay_classic fuel 0
  | PCAPNG =>
      _ ← io_guard (max_output_bytes <? 28) (limit_too_small "PCAPNG section header");
      section ← io_lift section_unit;
      wrote ← on_output (write_unit [section]);
      _ ← io_guard (negb wrote) (limit_too_small "PCAPNG section header");
      replay_ng p fuel ∅ 0
  end.

(** [neutral_to_close = neutral; neutral = None; neutral_to_close.close()] *)
Definition close_neutral : io unit := fun st =>
  match st.(st_neutral) with
  | None => (Err (AttributeError "neutral"), st)
  | Some spool =>
      (match (spool_close spool).1 with None => Err _storage_error | Some _ => Ok tt end,
       mk_store None st.(st_output))
  end.

(** [CaptureArtifact(output.detach(), ...); output = None] *)
Definition take_artifact (format : capture_format) (matched exported : Z) : io CaptureArtifact :=
  spool ← on_output detach;
  release_output (fun snk =>
    new_artifact spool format snk.(snk_size) (sha256_hex snk.(snk_hash)) matched exported).

(** The body of the [try]. *)
Definition build_body (records : list ExportPacketRecord) (ended : res unit)
    (max_output_bytes spool_max_memory_bytes : Z) (output_storage neutral_storage : list disk_outcome)
    : io CaptureArtifact :=
  output ← io_lift (new_sink max_output_bytes spool_max_memory_bytes output_storage);
  _ ← set_output output;
  neutral ← io_lift (spool_open neutral_storage);
  _ ← set_neutral neutral;
  _ ← _write_spool _SPOOL_MAGIC;
  p ← plan_records records ended empty_plan;
  _ ← on_neutral spool_rewind;
  magic ← _read_exact (zlen _SPOOL_MAGIC);
  _ ← io_guard (negb (bool_decide (magic = _SPOOL_MAGIC))) _storage_error;
  exported ← write_capture p max_output_bytes (S (length records));
  _ ← close_neutral;
  take_artifact (plan_format p) p.(pl_matched) exported.

(** The [except]: what is still owned is closed, errors of that ignored.  The
    store that is left tells what remains open. *)
Definition cleanup (st : Store) : Store :=
  mk_store ((fun s => (spool_close s).2) <$> st.(st_neutral))
    ((fun s => (sink_close s).2) <$> st.(st_output)).

(** Records come from a generator, which may raise. *)
Definition build_capture_to_sink (records : generated ExportPacketRecord)
    (max_output_bytes spool_max_memory_bytes : Z) (output_storage neutral_storage : list disk_outcome)
    : res CaptureArtifact * Store :=
  if spool_max_memory_bytes <=? 0
  then (Err (ValueError "spool_max_memory_bytes must be positive"), mk_store None None)
  else
    match build_body records.1 records.2 max_output_bytes spool_max_memory_bytes output_storage
            neutral_storage (mk_store None None) with
    | (Ok artifact, st) => (Ok artifact, st)
    | (Err e, st) => (Err e, cleanup st)
    end.
End writer.
