(* ===== verification/WriterProofs.v ===== *)
(** * WriterProofs

    [build_capture_to_sink] against a reference that uses no storage: the units
    of the output are computed from the records, and as many as fit are taken.
    Storage may fail at any operation; it never changes what is written. *)

From Stdlib Require Import String SpecFloat.
From S2P Require Import Prelude Bytes CaptureFormat PyFloat StructuralIndex CaptureParser CaptureSink.
From S2P Require Import CaptureWriter.
#[local] Open Scope Z_scope.

(** ** The reference *)

Section reference.
Context `{!MetadataCodec}.

(** The records are validated, framed and planned in order. *)
Fixpoint plan_all (records : list ExportPacketRecord) (ended : res unit) (p : Plan) : res Plan :=
  match records with
  | [] => _ ← ended; Ok p
  | r :: records' =>
      known ← _validate_export_record r p.(pl_known);
      _ ← _frame r;
      plan_all records' ended (plan_record r known p)
  end.

(** Takes units while they fit. *)
Fixpoint greedy (max_bytes size : Z) (units : list (res bytes)) : res (list bytes) :=
  match units with
  | [] => Ok []
  | unit :: units' =>
      u ← unit;
      if max_bytes <? size + zlen u then Ok []
      else us ← greedy max_bytes (size + zlen u) units'; Ok (u :: us)
  end.

(** The unit of each record of a PCAPNG capture: the first of an interface
    brings the interface block. *)
Fixpoint ng_units (p : Plan) (ids : gmap (Z * Z) Z) (records : list ExportPacketRecord)
    : list (res bytes) :=
  match records with
  | [] => []
  | r :: records' =>
      let key := interface_key r in
      let id := default (Z.of_nat (size ids)) (ids !! key) in
      let known := bool_decide (is_Some (ids !! key)) in
      (interface ← (if known then Ok [] else interface_unit p r);
       packet ← ng_packet_unit p id r;
       Ok (interface ++ packet))
      :: ng_units p (if known then ids else <[key := id]> ids) records'
  end.

Definition header_unit (p : Plan) : res bytes :=
  match plan_format p with PCAP => classic_header p | PCAPNG => section_unit end.

Definition packet_units (p : Plan) (records : list ExportPacketRecord) : list (res bytes) :=
  match plan_format p with
  | PCAP => classic_packet_unit <$> records
  | PCAPNG => ng_units p ∅ records
  end.

Definition header_size (format : capture_format) : Z := match format with PCAP => 24 | PCAPNG => 28 end.

Definition header_name (format : capture_format) : string :=
  match format with PCAP => "PCAP header" | PCAPNG => "PCAPNG section header" end.

(** The plan, the header and the packet units of the capture. *)
Definition reference_capture (records : list ExportPacketRecord) (ended : res unit)
    (max_output_bytes : Z) : res (Plan * bytes * list bytes) :=
  p ← plan_all records ended empty_plan;
  _ ← raise_if (max_output_bytes <? header_size (plan_format p))
        (limit_too_small (header_name (plan_format p)));
  header ← header_unit p;
  _ ← raise_if (max_output_bytes <? zlen header) (limit_too_small (header_name (plan_format p)));
  units ← greedy max_output_bytes (zlen header) (packet_units p records);
  Ok (p, header, units).
End reference.

(** ** Reasoning about the store *)

Section store.
Context `{!MetadataCodec} (faulty : Prop) (max_bytes : Z).

(** A spool with known contents; its storage fails only if [faulty]. *)
Definition spool_at (data : bytes) (position : Z) (s : Spool) : Prop :=
  s.(sp_data) = data /\ s.(sp_position) = position /\ (faulty \/ s.(sp_outcomes) = []).

Definition output_is (content : bytes) (snk : CaptureSink) : Prop :=
  snk.(snk_max_output_bytes) = max_bytes /\ snk.(snk_size) = zlen content /\
  snk.(snk_hash) = content /\ snk.(snk_closed) = false /\
  spool_at content (zlen content) snk.(snk_spool).

Definition store_at (data : bytes) (position : Z) (content : bytes) (st : Store) : Prop :=
  exists s snk, st = mk_store (Some s) (Some snk) /\ spool_at data position s /\ output_is content snk.

(** No sink is left that [close] would not close. *)
Definition sink_open (st : Store) : Prop :=
  forall snk, st.(st_output) = Some snk -> snk.(snk_closed) = false.

Definition io_spec {A} (m : io A) (st : Store) (Q : A -> Store -> Prop) (E : exn -> Prop) : Prop :=
  match m st with
  | (Ok a, st') => Q a st'
  | (Err e, st') => (faulty /\ e = _storage_error \/ E e) /\ sink_open st'
  end.

Lemma io_spec_bind {A B} (m : io A) (f : A -> io B) st P Q E :
  io_spec m st P E -> (forall a st', P a st' -> io_spec (f a) st' Q E) -> io_spec (m ≫= f) st Q E.
Proof.
  unfold io_spec, mbind, io_bind. intros Hm Hf.
  destruct (m st) as [[a|e] st']; [exact (Hf a st' Hm)|exact Hm].
Qed.

Lemma io_spec_ret {A} (a : A) st Q E : Q a st -> io_spec (mret a) st Q E.
Proof. done. Qed.

Lemma io_spec_mono {A} (m : io A) st (P Q : A -> Store -> Prop) (E E' : exn -> Prop) :
  io_spec m st P E -> (forall a st', P a st' -> Q a st') -> (forall e, E e -> E' e) ->
  io_spec m st Q E'.
Proof.
  unfold io_spec. intros Hm HQ HE. destruct (m st) as [[a|e] st']; [auto|].
  destruct Hm as [[?|?] ?]; auto.
Qed.

Lemma store_at_open data position content st : store_at data position content st -> sink_open st.
Proof. intros (s & snk & -> & _ & (_ & _ & _ & Hc & _)) k [= <-]. exact Hc. Qed.

Lemma io_spec_lift {A} (r : res A) st (Q : A -> Store -> Prop) E :
  sink_open st -> (forall a, r = Ok a -> Q a st) -> (forall e, r = Err e -> E e) ->
  io_spec (io_lift r) st Q E.
Proof. unfold io_spec, io_lift. intros Ho HQ HE. destruct r; auto. Qed.

Lemma next_outcome_at data position s o s' :
  spool_at data position s -> next_outcome s = (o, s') ->
  spool_at data position s' /\ s'.(sp_closed) = s.(sp_closed) /\ (faulty \/ o = DiskFine).
Proof.
  unfold next_outcome. intros (Hd & Hp & Ho) Hn. destruct (sp_outcomes s) as [|x l] eqn:E; injection Hn as <- <-.
  - split; [|auto]. split; [done|]. split; [done|]. by rewrite E.
  - destruct Ho as [Hf|]; [|done]. split; [|auto]. split; [done|]. split; [done|]. by left.
Qed.

(** An operation of the neutral spool that follows its specification. *)
Lemma io_spec_neutral {A} (op : Spool -> option A * Spool) data position content st
    (Q : A -> Store -> Prop) E :
  store_at data position content st ->
  (forall s, spool_at data position s -> forall snk, output_is content snk ->
     match op s with
     | (None, s') => faulty
     | (Some a, s') => Q a (mk_store (Some s') (Some snk))
     end) ->
  io_spec (on_neutral op) st Q E.
Proof.
  intros (s & snk & -> & Hs & Ho) Hop. specialize (Hop s Hs snk Ho). unfold io_spec, on_neutral. simpl.
  destruct (op s) as [[a|] s']; [exact Hop|]. split; [by left|]. intros k [= <-]. apply Ho.
Qed.

(** A write at the end appends, falls short, or fails. *)
Lemma spool_write_spec data b s :
  spool_at data (zlen data) s ->
  match spool_write b s with
  | (None, s') => faulty
  | (Some written, s') =>
      if written =? zlen b then spool_at (data ++ b) (zlen (data ++ b)) s' else faulty
  end.
Proof.
  intros Hs. unfold spool_write. destruct (next_outcome s) as [o s'] eqn:Ho.
  apply (next_outcome_at data (zlen data)) in Ho as ((Hd & Hp & Hf) & _ & Hfine); [|done].
  destruct o as [| |n]; [rewrite Z.eqb_refl| |]; [|by destruct Hfine|].
  - unfold spool_at. simpl. rewrite Hd, Hp, ztake_all, zdrop_all, app_nil_r, zlen_app
      by (pose proof (zlen_nonneg b); lia). done.
  - destruct Hfine as [Hfaulty|]; [|done]. destruct (Z.eqb_spec (zlen (ztake n b)) (zlen b)) as [E|]; [|done].
    assert (ztake n b = b) as ->.
    { unfold ztake, zlen in *. rewrite length_take in E. apply take_ge. lia. }
    unfold spool_at. simpl. rewrite Hd, Hp, ztake_all, zdrop_all, app_nil_r, zlen_app
      by (pose proof (zlen_nonneg b); lia). auto.
Qed.

Context (data content : bytes) (position : Z).

Lemma write_spool_spec b st E :
  store_at data (zlen data) content st ->
  io_spec (_write_spool b) st (fun _ => store_at (data ++ b) (zlen (data ++ b)) content) E.
Proof.
  intros (s & snk & -> & Hs & Ho). apply (spool_write_spec data b) in Hs.
  unfold io_spec, _write_spool, on_neutral, mbind, io_bind. simpl.
  assert (forall s', sink_open (mk_store (Some s') (Some snk))) as Hopen by (intros s' k [= <-]; apply Ho).
  destruct (spool_write b s) as [[written|] s']; [|by split; [left|]].
  unfold io_guard, io_lift. destruct (written =? zlen b); simpl; [|by split; [left|]].
  by exists s', snk.
Qed.

Lemma spool_read_spec n st E :
  store_at data position content st ->
  io_spec (on_neutral (spool_read n)) st (fun b st' => b = slice position (position + n) data /\
    store_at data (position + zlen b) content st') E.
Proof.
  intros Hst. eapply io_spec_neutral; [exact Hst|]. intros s Hs snk Ho. unfold spool_read.
  destruct (next_outcome s) as [o s'] eqn:Hn.
  apply (next_outcome_at data position) in Hn as ((Hd & Hp & Hf) & _ & Hfine); [|done].
  assert (match o with DiskError => faulty | _ => True end) as Hfail by (by destruct o, Hfine).
  rewrite Hd, Hp. destruct o; [|exact Hfail|]; (split; [done|]); eexists _, _;
    (split; [reflexivity|]); by split.
Qed.

Lemma spool_rewind_spec st E :
  store_at data position content st ->
  io_spec (on_neutral spool_rewind) st (fun _ => store_at data 0 content) E.
Proof.
  intros Hst. eapply io_spec_neutral; [exact Hst|]. intros s Hs snk Ho. unfold spool_rewind.
  destruct (next_outcome s) as [o s'] eqn:Hn.
  apply (next_outcome_at data position) in Hn as ((Hd & Hp & Hf) & _ & Hfine); [|done].
  assert (match o with DiskError => faulty | _ => True end) as Hfail by (by destruct o, Hfine).
  destruct o; [|exact Hfail|]; eexists _, _; (split; [reflexivity|]); by split.
Qed.

Lemma read_exact_spec n st E :
  0 <= n -> 0 <= position -> position + n <= zlen data ->
  store_at data position content st ->
  io_spec (_read_exact n) st (fun b st' => b = slice position (position + n) data /\
    store_at data (position + n) content st') E.
Proof.
  intros Hn Hp Hle Hst. unfold _read_exact.
  eapply io_spec_bind; [by apply spool_read_spec|]. intros b st' [-> Hst']. simpl in Hst'.
  rewrite zlen_slice in Hst' by lia. replace (position + (position + n - position)) with (position + n) in Hst' by lia.
  eapply io_spec_bind.
  { apply (io_spec_lift _ _ (fun _ st'' => st'' = st')); [by eapply store_at_open|done|].
    intros e He%raise_if_Err. rewrite zlen_slice in He by lia. lia. }
  intros _ st'' ->. apply io_spec_ret. done.
Qed.

(** A unit is written whole when it fits and not at all when it does not. *)
Lemma write_unit_spec parts st E :
  store_at data position content st ->
  io_spec (on_output (write_unit parts)) st (fun wrote st' =>
    if max_bytes <? zlen content + zlen (concat parts)
    then wrote = false /\ store_at data position content st'
    else wrote = true /\ store_at data position (content ++ concat parts) st') E.
Proof.
  intros (s & snk & -> & Hs & Ho). pose proof Ho as (Hm & Hsz & Hh & Hc & Hsp).
  unfold io_spec, on_output, write_unit. simpl. rewrite Hc, Hm, Hsz.
  destruct (max_bytes <? _) eqn:Hfit; [split; [done|]; by exists s, snk|].
  apply (spool_write_spec content (concat parts)) in Hsp.
  destruct (spool_write _ _) as [[written|] s'].
  - destruct (Z.eqb_spec written (zlen (concat parts))) as [->|]; simpl.
    + split; [done|]. eexists _, _. split; [reflexivity|]. split; [done|].
      unfold output_is. simpl. rewrite zlen_app in *. by rewrite Hh.
    + split; [by left|]. intros k [= <-]. exact Hc.
  - split; [by left|]. intros k [= <-]. exact Hc.
Qed.
End store.

(** ** Frames *)

Lemma pack_u_Ok n v b :
  pack_u n v = Ok b -> zlen b = Z.of_nat n /\ 0 <= v < 256 ^ Z.of_nat n /\ b = to_bytes LE n v.
Proof.
  unfold pack_u. destruct (_ && _) eqn:E; [|done]. intros [= <-].
  apply andb_prop in E as [E1%Z.leb_le E2%Z.ltb_lt]. split; [exact (zlen_to_bytes LE n v)|done].
Qed.

(** Reading a packed integer back. *)
Lemma u32_pack v b rest : pack_u 4 v = Ok b -> u32 LE (b ++ rest) 0 = v.
Proof.
  intros (Hl & Hv & ->)%pack_u_Ok. unfold u32, slice. rewrite zdrop_0.
  rewrite ztake_app_exact by (rewrite zlen_to_bytes; lia). by apply from_bytes_to_bytes.
Qed.

Section frames.
Context `{!MetadataCodec} `{!LawfulCodec}.

Fixpoint frames_of (records : list ExportPacketRecord) : res bytes :=
  match records with
  | [] => Ok []
  | r :: records' => f ← _frame r; fs ← frames_of records'; Ok (f ++ fs)
  end.

Lemma frame_inv r f :
  _frame r = Ok f ->
  exists length payload, f = length ++ payload /\ pack_u 4 (zlen payload) = Ok length /\
    4 <= zlen payload <= _MAX_FRAME_BYTES /\ decode_frame payload = Ok r.
Proof.
  unfold _frame. cbv zeta. intros Hf. apply bind_Ok in Hf as (head & Hh & Hf).
  apply bind_Ok in Hf as (_ & Hmax%raise_if_Ok & Hf). apply bind_Ok in Hf as (len & Hl & [= <-]).
  pose proof (pack_u_Ok _ _ _ Hh) as (Hhl & _ & _).
  set (metadata := metadata_dumps (metadata_of r)) in *.
  pose proof (zlen_nonneg metadata) as Hm. pose proof (zlen_nonneg (xr_packet_bytes r)) as Hb.
  exists len, (head ++ metadata ++ r.(xr_packet_bytes)). split; [done|]. split; [done|].
  rewrite !zlen_app in *. split; [lia|]. unfold decode_frame. cbv zeta.
  rewrite (u32_pack _ _ _ Hh).
  assert (zlen metadata <> 0) as Hne.
  { intros E%zlen_0_nil. by apply (dumps_nonempty (metadata_of r)). }
  rewrite (proj2 (Z.eqb_neq _ 0)), (proj2 (Z.ltb_ge _ _)) by (rewrite ?zlen_app; lia). simpl.
  assert (slice 4 (4 + zlen metadata) (head ++ metadata ++ xr_packet_bytes r) = metadata) as ->.
  { unfold slice. rewrite zdrop_app_exact by lia. apply ztake_app_exact. lia. }
  unfold metadata. rewrite loads_dumps. fold metadata. do 2 f_equal.
  rewrite app_assoc, zdrop_app_exact by (rewrite zlen_app; lia). by destruct r.
Qed.

Context (faulty : Prop) (max_bytes : Z).

Lemma read_frame_spec pre f rest r content st E :
  _frame r = Ok f -> store_at faulty max_bytes (pre ++ f ++ rest) (zlen pre) content st ->
  io_spec faulty _read_frame st (fun o st' => o = Some r /\
    store_at faulty max_bytes ((pre ++ f) ++ rest) (zlen (pre ++ f)) content st') E.
Proof.
  intros (len & payload & -> & Hlen & Hp & Hd)%frame_inv Hst.
  pose proof (pack_u_Ok _ _ _ Hlen) as (Hl4 & _ & _). change (Z.of_nat 4) with 4 in Hl4.
  pose proof (zlen_nonneg pre) as Hpre.
  pose proof (zlen_nonneg rest) as Hrest. unfold _read_frame.
  eapply io_spec_bind; [by apply spool_read_spec|]. intros b st' [-> Hst']. simpl in Hst'.
  assert (slice (zlen pre) (zlen pre + 4) (pre ++ (len ++ payload) ++ rest) = len) as Hs.
  { unfold slice. rewrite zdrop_app_exact, <- app_assoc by lia. apply ztake_app_exact. lia. }
  rewrite Hs in Hst' |- *. rewrite Hl4 in Hst'. rewrite bool_decide_false by (intros ->; rewrite zlen_nil in Hl4; lia).
  assert (u32 LE len 0 = zlen payload) as -> by (rewrite <- (app_nil_r len); by apply u32_pack).
  rewrite Hl4, (proj2 (Z.ltb_ge _ 4)), (proj2 (Z.ltb_ge _ _)) by lia. simpl.
  eapply io_spec_bind.
  { apply (io_spec_lift _ _ _ (fun _ st'' => st'' = st')); [by eapply store_at_open|done|done]. }
  intros _ ? ->. eapply io_spec_bind.
  { apply (io_spec_lift _ _ _ (fun _ st'' => st'' = st')); [by eapply store_at_open|done|done]. }
  intros _ ? ->. eapply io_spec_bind.
  { eapply read_exact_spec; [lia| | |exact Hst']; [lia|]. rewrite !zlen_app. lia. }
  intros b st'' [-> Hst'']. simpl in Hst''.
  assert (slice (zlen pre + 4) (zlen pre + 4 + zlen payload) (pre ++ (len ++ payload) ++ rest) = payload) as ->.
  { unfold slice. rewrite <- app_assoc, app_assoc, zdrop_app_exact by (rewrite zlen_app; lia).
    apply ztake_app_exact. lia. }
  eapply io_spec_bind.
  { apply (io_spec_lift _ _ _ (fun a s => a = r /\ s = st'')); [by eapply store_at_open|..]; rewrite Hd; [|done].
    by intros a [= <-]. }
  intros a ? [-> ->]. apply io_spec_ret. split; [done|].
  rewrite <- app_assoc. rewrite !zlen_app, Hl4. by rewrite Z.add_assoc.
Qed.

Lemma read_end_spec data content st E :
  store_at faulty max_bytes data (zlen data) content st ->
  io_spec faulty _read_frame st (fun o st' => o = None /\
    store_at faulty max_bytes data (zlen data) content st') E.
Proof.
  intros Hst. unfold _read_frame. eapply io_spec_bind; [by apply spool_read_spec|].
  intros b st' [-> Hst']. simpl in Hst'. unfold slice in *. rewrite zdrop_all in * by lia.
  unfold ztake in *. rewrite take_nil in *. rewrite bool_decide_true by done. apply io_spec_ret.
  rewrite zlen_nil, Z.add_0_r in Hst'. done.
Qed.

Abbreviation at_ := (store_at faulty max_bytes).
Abbreviation spec := (io_spec faulty).

(** A pure step inside a computation on the store. *)
Lemma lift_spec {A B} (r : res A) (k : A -> io B) data position content st Q (E : exn -> Prop) :
  at_ data position content st -> (forall e, r = Err e -> E e) ->
  (forall a, r = Ok a -> spec (k a) st Q E) -> spec (io_lift r ≫= k) st Q E.
Proof.
  intros Hst HE Hk. unfold io_spec, mbind, io_bind, io_lift. destruct r as [a|e].
  - by apply Hk.
  - split; [right; by apply HE|by eapply store_at_open].
Qed.

Lemma plan_records_spec records ended p data content st :
  at_ data (zlen data) content st ->
  spec (plan_records records ended p) st (fun p' st' => plan_all records ended p = Ok p' /\
      exists fs, frames_of records = Ok fs /\ at_ (data ++ fs) (zlen (data ++ fs)) content st')
    (fun e => plan_all records ended p = Err e).
Proof.
  revert p data st. induction records as [|r records IH]; intros p data st Hst; simpl.
  - eapply lift_spec; [done|by intros e ->|]. intros [] ->. apply io_spec_ret.
    split; [done|]. exists []. by rewrite app_nil_r.
  - eapply lift_spec; [done|by intros e ->|]. intros known ->. simpl.
    eapply lift_spec; [done|by intros e ->|]. intros f ->. simpl.
    eapply io_spec_bind; [by apply write_spool_spec|]. intros [] st' Hst'. simpl in Hst'.
    eapply io_spec_mono; [by apply IH| |done]. intros p' st'' (-> & fs & -> & Hst'').
    split; [done|]. exists (f ++ fs). by rewrite app_assoc.
Qed.

(** What a replay from [pre] on leaves: the units that fit were appended. *)
Definition replayed (data content : bytes) (exported : Z) (units : list (res bytes)) (n : Z) (st : Store) : Prop :=
  exists us position, greedy max_bytes (zlen content) units = Ok us /\ n = exported + zlen us /\
    at_ data position (content ++ concat us) st.

Lemma replayed_end data content exported st position :
  at_ data position content st -> replayed data content exported [] exported st.
Proof. intros Hst. exists [], position. simpl. rewrite zlen_nil, app_nil_r. repeat split; [lia|done]. Qed.

Lemma replayed_stop data content exported u units st position :
  max_bytes < zlen content + zlen u -> at_ data position content st ->
  replayed data content exported (Ok u :: units) exported st.
Proof.
  intros Hfit Hst. exists [], position. simpl. rewrite (proj2 (Z.ltb_lt _ _)) by lia.
  rewrite zlen_nil, app_nil_r. repeat split; [lia|done].
Qed.

Lemma replayed_cons data content exported u units n st :
  zlen content + zlen u <= max_bytes -> replayed data (content ++ u) (exported + 1) units n st ->
  replayed data content exported (Ok u :: units) n st.
Proof.
  intros Hfit (us & position & Hg & -> & Hs). exists (u :: us), position. simpl.
  rewrite (proj2 (Z.ltb_ge _ _)) by lia. rewrite <- zlen_app, Hg, zlen_cons, app_assoc. simpl.
  repeat split; [lia|done].
Qed.

Lemma greedy_cons_Err content u units e :
  zlen content + zlen u <= max_bytes ->
  greedy max_bytes (zlen (content ++ u)) units = Err e ->
  greedy max_bytes (zlen content) (Ok u :: units) = Err e.
Proof.
  intros Hfit Hg. simpl. rewrite (proj2 (Z.ltb_ge _ _)) by lia. by rewrite <- zlen_app, Hg.
Qed.

(** After one more unit was tried. *)
Lemma replay_step {B} (parts : list bytes) (k : bool -> io B) data position content st Q E :
  at_ data position content st ->
  (forall st', max_bytes < zlen content + zlen (concat parts) -> at_ data position content st' ->
     spec (k false) st' Q E) ->
  (forall st', zlen content + zlen (concat parts) <= max_bytes ->
     at_ data position (content ++ concat parts) st' -> spec (k true) st' Q E) ->
  spec (on_output (write_unit parts) ≫= k) st Q E.
Proof.
  intros Hst Hf Ht. eapply io_spec_bind; [by apply write_unit_spec|]. intros wrote st'. simpl.
  destruct (Z.ltb_spec max_bytes (zlen content + zlen (concat parts))); intros [-> Hst']; auto.
Qed.

Lemma replay_classic_spec records fuel exported pre fs content st :
  (length records < fuel)%nat -> frames_of records = Ok fs ->
  at_ (pre ++ fs) (zlen pre) content st ->
  spec (replay_classic fuel exported) st
    (replayed (pre ++ fs) content exported (classic_packet_unit <$> records))
    (fun e => greedy max_bytes (zlen content) (classic_packet_unit <$> records) = Err e).
Proof.
  revert fuel exported pre fs content st.
  induction records as [|r records IH]; intros [|fuel] exported pre fs content st Hf Hfs Hst;
    [simpl in Hf; lia| |simpl in Hf; lia|]; cbn [replay_classic frames_of] in *.
  - injection Hfs as <-. rewrite app_nil_r in *.
    eapply io_spec_bind; [by apply read_end_spec|]. intros o st' [-> Hst']. simpl.
    apply io_spec_ret. by eapply replayed_end.
  - apply bind_Ok in Hfs as (f & Hfr & Hfs). apply bind_Ok in Hfs as (fs' & Hfs & [= <-]).
    rewrite fmap_cons. eapply io_spec_bind; [by eapply read_frame_spec|]. intros o st' [-> Hst']. simpl.
    eapply lift_spec; [exact Hst'|by intros e ->|]. intros u Hu. rewrite Hu, app_assoc.
    eapply replay_step; [exact Hst'|..]; intros st'' Hfit Hst''; simpl in Hfit, Hst'';
      rewrite app_nil_r in *.
    + apply io_spec_ret. by eapply replayed_stop.
    + eapply io_spec_mono; [by eapply IH; [simpl in Hf; lia|done|exact Hst'']|..].
      * intros n s. by apply replayed_cons.
      * intros e. by apply greedy_cons_Err.
Qed.

Lemma replay_ng_spec p records fuel ids exported pre fs content st :
  (length records < fuel)%nat -> frames_of records = Ok fs ->
  at_ (pre ++ fs) (zlen pre) content st ->
  spec (replay_ng p fuel ids exported) st
    (replayed (pre ++ fs) content exported (ng_units p ids records))
    (fun e => greedy max_bytes (zlen content) (ng_units p ids records) = Err e).
Proof.
  revert fuel ids exported pre fs content st.
  induction records as [|r records IH]; intros [|fuel] ids exported pre fs content st Hf Hfs Hst;
    [simpl in Hf; lia| |simpl in Hf; lia|]; cbn [replay_ng ng_units frames_of] in *; cbv zeta.
  - injection Hfs as <-. rewrite app_nil_r in *.
    eapply io_spec_bind; [by apply read_end_spec|]. intros o st' [-> Hst']. simpl.
    apply io_spec_ret. by eapply replayed_end.
  - apply bind_Ok in Hfs as (f & Hfr & Hfs). apply bind_Ok in Hfs as (fs' & Hfs & [= <-]).
    eapply io_spec_bind; [by eapply read_frame_spec|]. intros o st' [-> Hst']. cbv zeta beta iota.
    eapply lift_spec; [exact Hst'|by intros e ->|]. intros ib Hib. rewrite Hib, app_assoc.
    eapply lift_spec; [exact Hst'|by intros e ->|]. intros pb Hpb. rewrite Hpb.
    cbn [mbind res_bind].
    eapply replay_step; [exact Hst'|..]; intros st'' Hfit Hst''; simpl in Hfit, Hst'';
      rewrite app_nil_r in *.
    + apply io_spec_ret. by eapply replayed_stop.
    + eapply io_spec_mono; [by eapply IH; [simpl in Hf; lia|done|exact Hst'']|..].
      * intros n s. by apply replayed_cons.
      * intros e. by apply greedy_cons_Err.
Qed.
End frames.

(** ** The whole writer *)

Lemma greedy_bounds max_bytes size units us :
  size <= max_bytes -> greedy max_bytes size units = Ok us ->
  zlen us <= zlen units /\ size + zlen (concat us) <= max_bytes.
Proof.
  revert size us. induction units as [|[u|] units IH]; intros size us Hs Hg; simpl in Hg; [| |done].
  { injection Hg as <-. unfold zlen. simpl. lia. }
  pose proof (zlen_nonneg units) as Hn. destruct (Z.ltb_spec max_bytes (size + zlen u)).
  { injection Hg as <-. unfold zlen. simpl. lia. }
  apply bind_Ok in Hg as (us' & Hg & [= <-]). apply IH in Hg; [|lia]. simpl.
  rewrite !zlen_cons, zlen_app. lia.
Qed.

Section whole.
Context `{!MetadataCodec} `{!LawfulCodec} (sha256_hex : bytes -> string).

Lemma plan_all_matched records ended p p' :
  plan_all records ended p = Ok p' -> p'.(pl_matched) = p.(pl_matched) + zlen records.
Proof.
  revert p. induction records as [|r records IH]; intros p Hp; simpl in Hp.
  - destruct ended; [|done]. injection Hp as <-. rewrite zlen_nil. lia.
  - apply bind_Ok in Hp as (known & _ & Hp). apply bind_Ok in Hp as (f & _ & Hp).
    apply IH in Hp. rewrite Hp, zlen_cons. simpl. lia.
Qed.

Lemma ng_units_length p ids records : length (ng_units p ids records) = length records.
Proof. revert ids. induction records as [|r records IH]; intros ids; simpl; [done|by rewrite IH]. Qed.

Lemma packet_units_length p records : zlen (packet_units p records) = zlen records.
Proof.
  unfold packet_units, zlen. destruct (plan_format p); [by rewrite length_fmap|by rewrite ng_units_length].
Qed.

(** The arguments are checked before anything is written. *)
Definition reference_build (records : generated ExportPacketRecord)
    (max_output_bytes spool_max_memory_bytes : Z) : res (Plan * bytes * list bytes) :=
  _ ← raise_if (spool_max_memory_bytes <=? 0) (ValueError "spool_max_memory_bytes must be positive");
  _ ← raise_if (max_output_bytes <? 0) (ValueError "max_output_bytes must be non-negative");
  reference_capture records.1 records.2 max_output_bytes.

(** An artifact that holds the reference capture. *)
Record holds_capture (records : list ExportPacketRecord) (max_output_bytes : Z) (p : Plan)
    (header : bytes) (units : list bytes) (a : CaptureArtifact) : Prop := {
  hc_data : a.(art_spool).(sp_data) = header ++ concat units;
  hc_position : a.(art_spool).(sp_position) = 0;
  hc_format : a.(art_capture_format) = plan_format p;
  hc_size : a.(art_size_bytes) = zlen (header ++ concat units);
  hc_limit : a.(art_size_bytes) <= max_output_bytes;
  hc_sha256 : a.(art_sha256) = sha256_hex (header ++ concat units);
  hc_matched : a.(art_matched_packet_count) = zlen records;
  hc_exported : a.(art_exported_packet_count) = zlen units;
  hc_omitted : 0 <= art_omitted_packet_count a;
  hc_fresh : a.(art_closed) = false /\ a.(art_consumed) = false;
}.

(** Everything that is left is closed. *)
Definition all_closed (st : Store) : Prop :=
  (forall s, st.(st_neutral) = Some s -> s.(sp_closed) = true) /\
  (forall snk, st.(st_output) = Some snk -> snk.(snk_closed) = true /\ snk.(snk_spool).(sp_closed) = true).

Lemma cleanup_closes st : sink_open st -> all_closed (cleanup st).
Proof.
  intros Ho. split; unfold cleanup; simpl.
  - intros s Hs. destruct (st_neutral st) as [n|]; [|done]. injection Hs as <-. unfold spool_close.
    destruct (next_outcome n) as [[] ?]; done.
  - intros snk Hs. destruct (st_output st) as [k|] eqn:E; [|done]. injection Hs as <-.
    specialize (Ho k E). unfold sink_close, spool_close. rewrite Ho.
    destruct (next_outcome (snk_spool k)) as [[] ?]; done.
Qed.

Context (faulty : Prop) (max_bytes : Z).
Abbreviation at_ := (store_at faulty max_bytes).
Abbreviation spec := (io_spec faulty).

Lemma write_capture_spec p records ended fuel pre fs st :
  0 <= max_bytes -> (length records < fuel)%nat -> frames_of records = Ok fs ->
  plan_all records ended empty_plan = Ok p ->
  at_ (pre ++ fs) (zlen pre) [] st ->
  spec (write_capture p max_bytes fuel) st
    (fun n st' => exists header us position,
       reference_capture records ended max_bytes = Ok (p, header, us) /\ n = zlen us /\
       zlen header + zlen (concat us) <= max_bytes /\ zlen us <= zlen records /\
       at_ (pre ++ fs) position (header ++ concat us) st')
    (fun e => reference_capture records ended max_bytes = Err e).
Proof.
  intros Hmax Hf Hfs Hp Hst. unfold write_capture, reference_capture. rewrite Hp.
  cbn [mbind res_bind].
  pose proof (packet_units_length p records) as Hlen. unfold header_unit, packet_units in *.
  destruct (plan_format p); [generalize (classic_header p)|generalize section_unit]; intros hu; cbn [mbind res_bind header_size header_name] in *; unfold io_guard.
  all: eapply lift_spec; [exact Hst|by intros e ->|]; intros [] ->; cbn [mbind res_bind].
  all: eapply lift_spec; [exact Hst|by intros e ->|]; intros header ->; cbn [mbind res_bind].
  all: eapply replay_step; [exact Hst|..]; intros st' Hfit Hst'; simpl in Hfit, Hst';
    rewrite app_nil_r in *; rewrite zlen_nil in Hfit.
  all: eapply lift_spec; [exact Hst'|intros e He|].
  all: try (simpl in He; injection He as <-; rewrite (proj2 (Z.ltb_lt _ _)) by lia; done).
  all: try done.
  all: intros [] _; assert (zlen header <= max_bytes) as Hh by lia;
    rewrite (proj2 (Z.ltb_ge _ _)) by lia; simpl.
  - eapply io_spec_mono; [by eapply replay_classic_spec|..].
    + intros n s (us & position & Hg & -> & Hs). exists header, us, position. rewrite Hg.
      pose proof (greedy_bounds _ _ _ _ Hh Hg). split; [done|]. repeat split; [lia..|done].
    + by intros e ->.
  - eapply io_spec_mono; [by eapply replay_ng_spec|..].
    + intros n s (us & position & Hg & -> & Hs). exists header, us, position. rewrite Hg.
      pose proof (greedy_bounds _ _ _ _ Hh Hg). split; [done|]. repeat split; [lia..|done].
    + by intros e ->.
Qed.

Lemma spool_open_spec storage s : (faulty \/ storage = []) -> spool_open storage = Ok s -> spool_at faulty [] 0 s.
Proof.
  intros Hf Hs. unfold spool_open in Hs. destruct storage as [|[] os]; simplify_eq/=.
  - split; [done|]. split; [done|]. by right.
  - destruct Hf; [|done]. split; [done|]. split; [done|]. by left.
  - destruct Hf; [|done]. split; [done|]. split; [done|]. by left.
Qed.

Lemma spool_open_fails storage e : (faulty \/ storage = []) -> spool_open storage = Err e -> faulty /\ e = _storage_error.
Proof. intros Hf Hs. destruct storage as [|[] os]; simplify_eq/=. by destruct Hf. Qed.

(** Opening both files, and the magic number of the neutral one. *)
Lemma open_spec {B} spool_max out neu (k : unit -> io B) Q (E : exn -> Prop) :
  (faulty \/ out = []) -> (faulty \/ neu = []) -> 0 < spool_max ->
  (max_bytes < 0 -> E (ValueError "max_output_bytes must be non-negative")) ->
  (forall st, 0 <= max_bytes -> at_ _SPOOL_MAGIC (zlen _SPOOL_MAGIC) [] st -> spec (k tt) st Q E) ->
  spec (output ← io_lift (new_sink max_bytes spool_max out);
        _ ← set_output output;
        neutral ← io_lift (spool_open neu);
        _ ← set_neutral neutral;
        _ ← _write_spool _SPOOL_MAGIC; k tt) (mk_store None None) Q E.
Proof.
  intros Hout Hneu Hmem HE Hk. unfold io_spec, mbind, io_bind, io_lift, new_sink.
  destruct (Z.ltb_spec max_bytes 0); simpl; [split; [right; by apply HE|done]|].
  rewrite (proj2 (Z.leb_gt spool_max 0)) by lia. simpl.
  destruct (spool_open out) as [s|e] eqn:Hs; simpl.
  2: { apply spool_open_fails in Hs; [|done]. split; [by left|done]. }
  apply spool_open_spec in Hs; [|done].
  destruct (spool_open neu) as [n|e] eqn:Hn; simpl.
  2: { apply spool_open_fails in Hn; [|done]. split; [by left|]. by intros k' [= <-]. }
  apply spool_open_spec in Hn; [|done].
  assert (at_ [] (zlen (@nil byte)) [] (mk_store (Some n) (Some (mk_sink max_bytes 0 [] false s)))) as Hst.
  { eexists _, _. split; [reflexivity|]. split; [done|]. by repeat split; try apply Hs. }
  apply (write_spool_spec _ _ [] [] _SPOOL_MAGIC _ E) in Hst. unfold io_spec in Hst.
  destruct (_write_spool _ _) as [[[]|e] st']; [|exact Hst]. by apply Hk.
Qed.

Lemma take_artifact_spec p data position content st matched exported E :
  at_ data position content st ->
  spec (_ ← close_neutral; take_artifact sha256_hex (plan_format p) matched exported) st
    (fun a st' => st' = mk_store None None /\ exists s, spool_at faulty content 0 s /\
       a = new_artifact s (plan_format p) (zlen content) (sha256_hex content) matched exported) E.
Proof.
  intros (n & snk & -> & Hn & (Hm & Hsz & Hh & Hc & Hs)).
  unfold io_spec, mbind, io_bind, close_neutral, spool_close. simpl.
  destruct (next_outcome n) as [o n'] eqn:Ho. eapply next_outcome_at in Ho as (_ & _ & Hf); [|exact Hn].
  assert (forall o', o' = o -> match o' with DiskError => faulty | _ => True end) as Hfail
    by (intros o' ->; by destruct o, Hf).
  specialize (Hfail o eq_refl). unfold take_artifact, mbind, io_bind, on_output, detach, sink_rewind. simpl.
  rewrite Hc. unfold spool_rewind. destruct (next_outcome (snk_spool snk)) as [o2 s'] eqn:Ho2.
  eapply next_outcome_at in Ho2 as ((Hd & Hp & Hout) & _ & Hf2); [|exact Hs].
  assert (match o2 with DiskError => faulty | _ => True end) as Hfail2 by (by destruct o2, Hf2).
  destruct o; simpl;
    [|split; [by left|by intros k [= <-]]|];
    (destruct o2; simpl; [|split; [by left|by intros k [= <-]]|]; (split; [done|]);
     rewrite Hsz, Hh; eexists; (split; [|reflexivity]); by split).
Qed.
End whole.

(** Storage that never fails. *)
Definition reliable (out neu : list disk_outcome) : Prop := out = [] /\ neu = [].

#[export] Instance reliable_dec out neu : Decision (reliable out neu).
Proof. unfold reliable. solve_decision. Defined.

Section build.
Context `{!MetadataCodec} `{!LawfulCodec} (sha256_hex : bytes -> string).

Lemma build_body_spec faulty records ended max_bytes spool_max out neu :
  (faulty \/ out = []) -> (faulty \/ neu = []) -> 0 < spool_max ->
  io_spec faulty
    (build_body sha256_hex records ended max_bytes spool_max out neu) (mk_store None None)
    (fun a st => st = mk_store None None /\ exists p header units,
       reference_build (records, ended) max_bytes spool_max = Ok (p, header, units) /\
       holds_capture sha256_hex records max_bytes p header units a)
    (fun e => reference_build (records, ended) max_bytes spool_max = Err e).
Proof.
  intros Hout Hneu Hmem. unfold build_body, reference_build.
  rewrite (proj2 (Z.leb_gt spool_max 0)) by lia. cbn [mbind res_bind raise_if].
  apply (open_spec _ _ _ _ _ (fun _ => _)); [done..| |].
  { intros Hneg. by rewrite (proj2 (Z.ltb_lt max_bytes 0)). }
  intros st Hmax Hst. rewrite (proj2 (Z.ltb_ge max_bytes 0)) by lia. cbn [mbind res_bind raise_if fst snd].
  eapply io_spec_bind.
  { eapply io_spec_mono; [by apply plan_records_spec|intros p st' HQ; exact HQ|].
    intros e He. unfold reference_capture. by rewrite He. }
  intros p st1 (Hp & fs & Hfs & Hst1). eapply io_spec_bind; [by eapply spool_rewind_spec|].
  intros [] st2 Hst2. assert (zlen _SPOOL_MAGIC = 8) as H8 by done.
  pose proof (zlen_nonneg fs) as Hfsn. eapply io_spec_bind.
  { eapply (read_exact_spec _ _ _ _ _ (zlen _SPOOL_MAGIC)); [lia| | |exact Hst2]; [lia|]. rewrite zlen_app. lia. }
  intros magic st3 [-> Hst3]. rewrite Z.add_0_l in Hst3.
  assert (slice 0 (0 + zlen _SPOOL_MAGIC) (_SPOOL_MAGIC ++ fs) = _SPOOL_MAGIC) as ->.
  { unfold slice. rewrite zdrop_0. apply ztake_app_exact. lia. }
  rewrite bool_decide_true by done. eapply lift_spec; [exact Hst3|done|]. intros [] _.
  eapply io_spec_bind; [by eapply (write_capture_spec faulty max_bytes p records ended); [| |done|done|exact Hst3]; lia|].
  intros n st4 (header & us & position & Href & -> & Hle & Hn & Hst4).
  eapply io_spec_mono with (E := fun _ => False); [by eapply take_artifact_spec|intros a st5 (-> & s & (Hd & Hpos & _) & ->)|done].
  split; [done|]. exists p, header, us. split; [exact Href|].
  pose proof (plan_all_matched _ _ _ _ Hp) as Hm. simpl in Hm.
  constructor; unfold art_omitted_packet_count; simpl; try done; rewrite ?zlen_app, ?Hm; lia.
Qed.
End build.

(** C23: [build_capture_to_sink] writes the reference capture: whatever the
    storage does, an artifact it returns holds the header and the longest run of
    leading packet units that fits the byte limit, with its size, digest and
    counts, and both temporary files have been released; otherwise it raises the
    error of the reference, or a storage error only if some storage operation
    failed, and every file it still owned was closed. *)
Theorem build_capture_refines `{!MetadataCodec} `{!LawfulCodec} (sha256_hex : bytes -> string)
    (records : generated ExportPacketRecord) (max_output_bytes spool_max_memory_bytes : Z)
    (output_storage neutral_storage : list disk_outcome) :
  let '(result, st) := build_capture_to_sink sha256_hex records max_output_bytes
                         spool_max_memory_bytes output_storage neutral_storage in
  match result with
  | Ok a => st = mk_store None None /\ exists p header units,
      reference_build records max_output_bytes spool_max_memory_bytes = Ok (p, header, units) /\
      holds_capture sha256_hex records.1 max_output_bytes p header units a
  | Err e => all_closed st /\
      (~ reliable output_storage neutral_storage /\ e = _storage_error \/
       reference_build records max_output_bytes spool_max_memory_bytes = Err e)
  end.
Proof.
  unfold build_capture_to_sink. destruct (Z.leb_spec spool_max_memory_bytes 0) as [Hm|Hm].
  { split; [done|]. right. unfold reference_build. by rewrite (proj2 (Z.leb_le _ 0)). }
  set (faulty := ~ reliable output_storage neutral_storage).
  assert ((faulty \/ output_storage = []) /\ (faulty \/ neutral_storage = [])) as [Ho Hn].
  { destruct (decide (reliable output_storage neutral_storage)) as [[-> ->]|Hf]; auto. }
  pose proof (build_body_spec sha256_hex faulty records.1 records.2 max_output_bytes _ _ _ Ho Hn Hm) as Hb.
  unfold io_spec in Hb. destruct records as [records ended]. simpl in Hb |- *.
  destruct (build_body _ _ _ _ _ _ _ _) as [[a|e] st]; [done|].
  destruct Hb as [He Hs]. split; [by apply cleanup_closes|exact He].
Qed.

(** ** A codec, for concrete runs *)

#[export] Instance Metadata_eq_dec : EqDecision Metadata.
Proof. solve_decision. Defined.

Definition metadata_tuple (m : Metadata) :=
  (md_timestamp m).(dt_us) :: Z.b2z (md_timestamp m).(dt_aware) ::
  [md_source_order m; md_packet_index m; md_section_index m; md_interface_id m;
   md_interface_ordinal m; md_link_type m; md_captured_length m; md_original_length m].

Definition metadata_untuple (source_id : string) (l : list Z) : option Metadata :=
  match l with
  | [us; aware; a; b; c; d; e; f; g; h] =>
      Some (mk_metadata (mk_datetime us (aware =? 1)) source_id a b c d e f g h)
  | _ => None
  end.

#[export] Instance binary_codec : MetadataCodec := {|
  metadata_dumps m :=
    let p := encode (md_source_id m, metadata_tuple m) in
    to_bytes LE (S (Pos.size_nat p)) (Zpos p);
  metadata_loads b :=
    match from_bytes LE b with
    | Zpos p => '(source_id, l) ← decode p; metadata_untuple source_id l
    | _ => None
    end;
|}.

Lemma pos_size_bound p : Zpos p < 256 ^ Z.of_nat (S (Pos.size_nat p)).
Proof.
  assert (Zpos p < 2 ^ Z.of_nat (Pos.size_nat p)) as Hp.
  { induction p as [p IH|p IH|]; simpl Pos.size_nat; rewrite ?Nat2Z.inj_succ, ?Z.pow_succ_r by lia; lia. }
  etrans; [exact Hp|]. change 256 with (2 ^ 8). rewrite <- Z.pow_mul_r by lia. apply Z.pow_lt_mono_r; lia.
Qed.

#[export] Instance binary_codec_lawful : LawfulCodec.
Proof.
  split; intros m; cbn [metadata_dumps metadata_loads binary_codec].
  - intros E%(f_equal zlen). rewrite zlen_to_bytes, zlen_nil in E. lia.
  - rewrite from_bytes_to_bytes by (pose proof (pos_size_bound (encode (md_source_id m, metadata_tuple m))); lia).
    rewrite decode_encode. simpl. by destruct m as [[us []] ? ? ? ? ? ? ? ? ?].
Qed.

(** Two packets of one interface. *)
Definition sample_record (index us : Z) (packet : bytes) : ExportPacketRecord :=
  mk_export (mk_datetime us true) "source" 0 index 0 0 0 101 packet (zlen packet) (zlen packet + 2).

Definition sample_records : list ExportPacketRecord :=
  [sample_record 0 1700000000250000 [x45; x00; x01]; sample_record 1 1700000001999999 [x45; x02]].

Lemma build_capture_refines_witness :
  exists a p header units,
    build_capture_to_sink (fun _ => ""%string) (sample_records, Ok tt) 50 1024 [] [] = (Ok a, mk_store None None) /\
    reference_build (sample_records, Ok tt) 50 1024 = Ok (p, header, units) /\
    a.(art_exported_packet_count) = 1 /\ art_truncated a = true /\ a.(art_size_bytes) = 43.
Proof.
  pose proof (build_capture_refines (fun _ => ""%string) (sample_records, Ok tt) 50 1024 [] []) as H.
  destruct (build_capture_to_sink _ _ _ _ _ _) as [[a|e] st] eqn:Hb; [|vm_compute in Hb; discriminate Hb].
  destruct H as (-> & p & header & units & Href & [Hd _ _ Hsz _ _ Hm He _ _]).
  exists a, p, header, units. split; [reflexivity|]. split; [exact Href|].
  assert (match reference_build (sample_records, Ok tt) 50 1024 with
          | Ok (_, h, us) => (zlen us =? 1) && (zlen (h ++ concat us) =? 43) | Err _ => false end = true) as Hc
    by (vm_compute; reflexivity).
  rewrite Href in Hc. apply andb_prop in Hc as [Hu%Z.eqb_eq Hl%Z.eqb_eq].
  unfold art_truncated, art_omitted_packet_count. rewrite He, Hm, Hsz, Hu, Hl.
  split; [reflexivity|]. split; reflexivity.
Defined.
