(* ===== verification/WriterRoundTrip.v ===== *)
(** * WriterRoundTrip

    What the export writer writes, the parser reads back: every exported packet
    with its bytes, lengths, link type, time and interface. *)

From Stdlib Require Import String SpecFloat.
From S2P Require Import Prelude Bytes CaptureFormat PyFloat FloatRounding Timestamps StructuralIndex.
From S2P Require Import ExportDecoder CapturePrefix CaptureParser ParserInvariants CaptureSink CaptureWriter WriterProofs.
#[local] Open Scope Z_scope.

(** ** What planning knows *)

Record valid_record (r : ExportPacketRecord) : Prop := {
  vr_captured : r.(xr_captured_length) = zlen r.(xr_packet_bytes);
  vr_original : r.(xr_captured_length) <= r.(xr_original_length) <= 0xFFFFFFFF;
  vr_size : r.(xr_captured_length) <= MAX_CAPTURED_PACKET_BYTES;
  vr_link : 0 <= r.(xr_link_type) <= 0xFFFF;
}.

(** A plan made from the records of [seen]. *)
Record planned (seen : list ExportPacketRecord) (p : Plan) : Prop := {
  pn_valid : Forall valid_record seen;
  pn_links : forall k l, p.(pl_known).(kn_interface_links) !! k = Some l ->
    exists r, r ∈ seen /\ interface_key r = k /\ r.(xr_link_type) = l;
  pn_link : forall r, r ∈ seen ->
    p.(pl_known).(kn_interface_links) !! interface_key r = Some r.(xr_link_type);
  pn_snaplens : forall k n, p.(pl_snaplens) !! k = Some n ->
    exists r, r ∈ seen /\ interface_key r = k /\ r.(xr_captured_length) = n;
  pn_snaplen : forall r, r ∈ seen -> exists n, p.(pl_snaplens) !! interface_key r = Some n /\
    r.(xr_captured_length) <= n;
  pn_times : forall k f, p.(pl_min_timestamps) !! k = Some f ->
    exists r, r ∈ seen /\ interface_key r = k /\ datetime_timestamp r.(xr_timestamp) = f;
  pn_classic : p.(pl_classic_timestamps) = true -> forall r, r ∈ seen ->
    0 <= (_timestamp_parts r.(xr_timestamp)).1 <= 0xFFFFFFFF;
}.

Lemma validate_inv r k known :
  _validate_export_record r k = Ok known ->
  valid_record r /\
  known.(kn_interface_links) = (setdefault (interface_key r) r.(xr_link_type) k.(kn_interface_links)).2 /\
  (setdefault (interface_key r) r.(xr_link_type) k.(kn_interface_links)).1 = r.(xr_link_type).
Proof.
  unfold _validate_export_record. cbv zeta. intros H.
  apply bind_Ok in H as (_ & _ & H). apply bind_Ok in H as (_ & _ & H).
  apply bind_Ok in H as (_ & Hneg%raise_if_Ok & H). apply bind_Ok in H as (_ & H1%raise_if_Ok & H).
  apply bind_Ok in H as (_ & H2%raise_if_Ok & H). apply bind_Ok in H as (_ & H3%raise_if_Ok & H).
  apply bind_Ok in H as (_ & H4%raise_if_Ok & H). apply bind_Ok in H as (_ & H5%raise_if_Ok & H).
  apply bind_Ok in H as (_ & _ & H).
  destruct (setdefault (xr_source_order r) _ _) as [ks sids]. apply bind_Ok in H as (_ & _ & H).
  destruct (setdefault (interface_key r) _ _) as [kl links]. apply bind_Ok in H as (_ & H6%raise_if_Ok & H).
  destruct (setdefault _ _ (kn_local_ordinals k)) as [ko ords]. apply bind_Ok in H as (_ & _ & [= <-]).
  unfold identifiers in Hneg. simpl in Hneg. rewrite !orb_false_iff in Hneg. reflect_bools.
  split; [|split; [done|simpl; lia]]. constructor; lia.
Qed.

Lemma setdefault_lookup `{Countable K} {V} (k k' : K) (v : V) m :
  (setdefault k v m).2 !! k' = if decide (k' = k) then Some (setdefault k v m).1 else m !! k'.
Proof.
  unfold setdefault. destruct (m !! k) as [v'|] eqn:E; simpl; case_decide as Hk; subst; try done.
  - by rewrite lookup_insert_eq.
  - by rewrite lookup_insert_ne.
Qed.

Lemma float_min_either a b : float_min a b = a \/ float_min a b = b.
Proof. unfold float_min. destruct (SFltb b a); auto. Qed.

Lemma plan_record_planned seen r k p :
  planned seen p -> _validate_export_record r p.(pl_known) = Ok k -> planned (seen ++ [r]) (plan_record r k p).
Proof.
  intros [Hv Hls Hl Hss Hs Ht Hc] (Hr & Hk & Hk1)%validate_inv.
  assert (forall x, x ∈ seen ++ [r] <-> x ∈ seen \/ x = r) as Hin by set_solver.
  constructor; unfold plan_record; simpl.
  - apply Forall_app. by split; [|apply Forall_singleton].
  - intros key l. rewrite Hk, setdefault_lookup, Hk1. case_decide as E.
    + intros [= <-]. exists r. split; [set_solver|done].
    + intros (x & Hx & E1 & E2)%Hls. exists x. split; [set_solver|done].
  - intros x Hx. rewrite Hk, setdefault_lookup, Hk1. apply Hin in Hx as [Hx| ->]; [|by rewrite decide_True].
    case_decide as E; [|by apply Hl]. specialize (Hl x Hx). rewrite E in Hl. unfold setdefault in Hk1.
    rewrite Hl in Hk1. simpl in Hk1. by rewrite Hk1.
  - intros key n. destruct (decide (key = interface_key r)) as [->|E].
    + rewrite lookup_insert_eq. intros [= <-].
      destruct (Z.max_spec (default 0 (pl_snaplens p !! interface_key r)) (xr_captured_length r)) as [[_ ->]|[Hle ->]].
      * exists r. split; [set_solver|done].
      * destruct (pl_snaplens p !! interface_key r) as [n|] eqn:En; simpl in *.
        -- apply Hss in En as (x & Hx & E1 & E2). exists x. split; [set_solver|done].
        -- exists r. split; [set_solver|]. split; [done|]. pose proof (zlen_nonneg (xr_packet_bytes r)).
           destruct Hr as [Hcap _ _ _]. lia.
    + rewrite lookup_insert_ne by done. intros (x & Hx & E1 & E2)%Hss. exists x. split; [set_solver|done].
  - intros x Hx. destruct (decide (interface_key x = interface_key r)) as [E|E].
    + rewrite E, lookup_insert_eq. eexists. split; [done|]. apply Hin in Hx as [Hx| ->]; [|lia].
      destruct (Hs x Hx) as (n & En & Hle). rewrite E in En. rewrite En. simpl. lia.
    + rewrite lookup_insert_ne by done. apply Hin in Hx as [Hx| ->]; [by apply Hs|done].
  - intros key f. destruct (decide (key = interface_key r)) as [->|E].
    + rewrite lookup_insert_eq. intros [= <-].
      destruct (float_min_either (default (datetime_timestamp (xr_timestamp r)) (pl_min_timestamps p !! interface_key r))
        (datetime_timestamp (xr_timestamp r))) as [-> | ->]; [|exists r; split; [set_solver|done]].
      destruct (pl_min_timestamps p !! interface_key r) as [f|] eqn:En; simpl;
        [|exists r; split; [set_solver|done]].
      apply Ht in En as (x & Hx & E1 & E2). exists x. split; [set_solver|done].
    + rewrite lookup_insert_ne by done. intros (x & Hx & E1 & E2)%Ht. exists x. split; [set_solver|done].
  - intros Hcl x Hx. apply andb_prop in Hcl as [Hcl Hb]. apply Hin in Hx as [Hx| ->]; [by apply Hc|]. simpl. lia.
Qed.

Lemma planned_empty : planned [] empty_plan.
Proof. constructor; simpl; try (intros *; rewrite lookup_empty; done); set_solver. Qed.

Lemma plan_all_planned `{!MetadataCodec} records ended seen p p' :
  planned seen p -> plan_all records ended p = Ok p' -> planned (seen ++ records) p'.
Proof.
  revert seen p. induction records as [|r records IH]; intros seen p Hp H'; simpl in H'.
  - destruct ended; [|done]. injection H' as <-. by rewrite app_nil_r.
  - apply bind_Ok in H' as (k & Hk & H'). apply bind_Ok in H' as (f & _ & H').
    apply (IH (seen ++ [r])) in H'; [by rewrite <- app_assoc in H'|]. by eapply plan_record_planned.
Qed.

(** ** Reading packed fields *)

Lemma slice_skip {A} (pre l : list A) a b : zlen pre <= a -> slice a b (pre ++ l) = slice (a - zlen pre) (b - zlen pre) l.
Proof.
  intros Ha. pose proof (zlen_nonneg pre). unfold slice. replace (b - zlen pre - (a - zlen pre)) with (b - a) by lia.
  f_equal. unfold zdrop. rewrite drop_app_ge by (unfold zlen in *; lia). f_equal. unfold zlen. lia.
Qed.

Lemma slice_here {A} (l k : list A) b : b = zlen l -> slice 0 b (l ++ k) = l.
Proof. intros ->. unfold slice. rewrite zdrop_0, Z.sub_0_r. by apply ztake_app_exact. Qed.

Lemma u32_skip e pre l off : zlen pre <= off -> u32 e (pre ++ l) off = u32 e l (off - zlen pre).
Proof. intros Ho. unfold u32. rewrite slice_skip by done. do 2 f_equal. lia. Qed.

Lemma u16_skip e pre l off : zlen pre <= off -> u16 e (pre ++ l) off = u16 e l (off - zlen pre).
Proof. intros Ho. unfold u16. rewrite slice_skip by done. do 2 f_equal. lia. Qed.

Lemma u32_here v l : 0 <= v < 2 ^ 32 -> u32 LE (to_bytes LE U32 v ++ l) 0 = v.
Proof.
  intros Hv. unfold u32. rewrite slice_here by (by rewrite zlen_to_bytes). by apply from_bytes_to_bytes.
Qed.

Lemma u16_here v l : 0 <= v < 2 ^ 16 -> u16 LE (to_bytes LE U16 v ++ l) 0 = v.
Proof.
  intros Hv. unfold u16. rewrite slice_here by (by rewrite zlen_to_bytes). by apply from_bytes_to_bytes.
Qed.

Lemma pack_all_cons n v fields b :
  pack_all ((n, v) :: fields) = Ok b ->
  exists b', b = to_bytes LE n v ++ b' /\ 0 <= v < 256 ^ Z.of_nat n /\ pack_all fields = Ok b'.
Proof.
  simpl. intros H. apply bind_Ok in H as (x & (_ & Hv & ->)%pack_u_Ok & H).
  apply bind_Ok in H as (y & Hy & [= <-]). eauto.
Qed.

(** Takes a packed structure apart. *)
Ltac unpack H :=
  repeat match type of H with
  | pack_all (_ :: _) = Ok _ =>
      let b := fresh "b" in let E := fresh "E" in let Hv := fresh "Hv" in
      apply pack_all_cons in H as (b & E & Hv & H); subst;
      change (Z.of_nat U32) with 4 in Hv; change (Z.of_nat U16) with 2 in Hv
  | pack_all [] = Ok _ => injection H as <-
  end.

(** The width of a field. *)
Lemma zlen_U32 v : zlen (to_bytes LE U32 v) = 4.
Proof. apply zlen_to_bytes. Qed.
Lemma zlen_U16 v : zlen (to_bytes LE U16 v) = 2.
Proof. apply zlen_to_bytes. Qed.

(** Moves a read over the fields before it; [lens] are the lengths of the
    fields. *)
Ltac skip_fields := rewrite <- ?app_assoc;
  repeat first
    [ rewrite u32_skip by (rewrite ?zlen_U32, ?zlen_U16; lia)
    | rewrite u16_skip by (rewrite ?zlen_U32, ?zlen_U16; lia) ];
  rewrite ?zlen_U32, ?zlen_U16.

(** ** Classic captures *)

(** The packets a classic capture of [records] holds, from index [i]. *)
Fixpoint classic_packets (link_type i : Z) (records : list ExportPacketRecord) : list _CapturedPacket :=
  match records with
  | [] => []
  | r :: records' =>
      mk_captured r.(xr_timestamp).(dt_us) link_type r.(xr_packet_bytes) r.(xr_original_length) i 0
      :: classic_packets link_type (i + 1) records'
  end.

(** Times the classic format and its decoders represent exactly. *)
Definition timely (r : ExportPacketRecord) : Prop := 0 <= r.(xr_timestamp).(dt_us) < 2 ^ 31 * 1000000.

Lemma timely_parts r : timely r ->
  _timestamp_parts r.(xr_timestamp) = (r.(xr_timestamp).(dt_us) / 1000000, r.(xr_timestamp).(dt_us) mod 1000000).
Proof.
  unfold timely, _timestamp_parts, datetime_timestamp. intros Ht.
  rewrite (proj2 (Z.ltb_ge _ 0)), floor_timestamp by lia. done.
Qed.

Lemma classic_unit_inv r u :
  timely r -> classic_packet_unit r = Ok u ->
  exists s us, u = to_bytes LE U32 s ++ to_bytes LE U32 us ++ to_bytes LE U32 r.(xr_captured_length)
      ++ to_bytes LE U32 r.(xr_original_length) ++ r.(xr_packet_bytes) /\
    0 <= s < 2 ^ 32 /\ 0 <= us < 1000000 /\ s * 1000000 + us = r.(xr_timestamp).(dt_us) /\
    0 <= r.(xr_captured_length) < 2 ^ 32 /\ 0 <= r.(xr_original_length) < 2 ^ 32.
Proof.
  intros Ht. unfold classic_packet_unit. rewrite timely_parts by done. intros H.
  apply bind_Ok in H as (head & Hh & [= <-]). unpack Hh. unfold timely in Ht.
  eexists _, _. rewrite app_nil_r, <- !app_assoc. split; [reflexivity|].
  Z.to_euclidean_division_equations. lia.
Qed.

Lemma classic_parse content link_type snaplen limit records units pre count fuel :
  Forall2 (fun r u => classic_packet_unit r = Ok u) records units ->
  Forall (fun r => valid_record r /\ timely r /\ r.(xr_captured_length) <= snaplen) records ->
  content = pre ++ concat units -> count + zlen records <= limit -> (length records < fuel)%nat ->
  iter_classic_records content limit fuel LE 1000000 snaplen link_type (zlen pre) count
  = (classic_packets (Z.land link_type 0xFFFF) count records, Ok tt).
Proof.
  intros Hu. revert pre count fuel. induction Hu as [|r u records units Hru _ IH];
    intros pre count [|fuel] Hr Hc Hlim Hf; try (simpl in Hf; lia); cbn [iter_classic_records].
  { subst content. simpl. rewrite app_nil_r, Z.ltb_irrefl. done. }
  apply Forall_cons in Hr as [([Hcap Horig Hsize Hlink] & Ht & Hsnap) Hr].
  destruct (classic_unit_inv r u Ht Hru) as (s & us & Eu & Hs & Hus & Hsum & Hc32 & Ho32).
  simpl in Hc. set (rest := concat units) in *. pose proof (zlen_nonneg rest) as Hrest.
  rewrite zlen_cons in Hlim. pose proof (zlen_nonneg records) as Hrec.
  assert (zlen u = 16 + r.(xr_captured_length)) as Hul
    by (rewrite Eu, !zlen_app, !zlen_U32; lia).
  assert (zlen content = zlen pre + zlen u + zlen rest) as Hcl by (rewrite Hc, !zlen_app; lia).
  rewrite (proj2 (Z.ltb_lt _ _)) by lia. unfold gen_guard. rewrite (proj2 (Z.ltb_ge _ 16)) by lia.
  cbv zeta. assert (forall k, 0 <= k -> u32 LE content (zlen pre + k) = u32 LE (u ++ rest) k) as Hread.
  { intros k Hk. rewrite Hc, u32_skip by lia. f_equal. lia. }
  pose proof (Hread 0 ltac:(lia)) as Hread0. rewrite Z.add_0_r in Hread0. rewrite Hread0, !Hread by lia.
  assert (u32 LE (u ++ rest) 0 = s /\ u32 LE (u ++ rest) 4 = us /\
    u32 LE (u ++ rest) 8 = xr_captured_length r /\ u32 LE (u ++ rest) 12 = xr_original_length r) as (-> & -> & -> & ->).
  { rewrite Eu. repeat split; skip_fields; apply u32_here; lia. }
  rewrite (proj2 (Z.ltb_ge MAX_CAPTURED_PACKET_BYTES _)), (proj2 (Z.ltb_ge (_ - _) _)),
    (proj2 (Z.ltb_ge (xr_original_length r) _)), (proj2 (Z.ltb_ge snaplen _)), (proj2 (Z.ltb_ge limit _)) by lia. simpl.
  unfold _timestamp. rewrite classic_time_round_trip, Hsum by lia. simpl.
  replace (zlen pre + 16 + xr_captured_length r) with (zlen (pre ++ u)) by (rewrite zlen_app; lia).
  rewrite IH; [|done|by rewrite <- app_assoc|lia|simpl in Hf; lia].
  assert (slice (zlen pre + 16) (zlen (pre ++ u)) content = xr_packet_bytes r) as ->.
  { rewrite Hc, slice_skip, zlen_app, Eu, <- !app_assoc by lia.
    rewrite !slice_skip by (rewrite !zlen_U32; lia). rewrite !zlen_U32.
    replace (zlen pre + 16 - zlen pre - 4 - 4 - 4 - 4) with 0 by lia. apply slice_here.
    rewrite !zlen_app, !zlen_U32. lia. }
  unfold gen_cons. cbn [classic_packets fst snd]. by replace (count + 1 - 1) with count by lia.
Qed.

(** ** The link type and snap length of a single interface *)

Lemma classic_plan_spec records p r :
  planned records p -> (size p.(pl_known).(kn_interface_links) <= 1)%nat -> r ∈ records ->
  classic_link_type p = r.(xr_link_type) /\ r.(xr_captured_length) <= classic_snaplen p.
Proof.
  intros Hp Hsz Hr. pose proof (pn_link _ _ Hp r Hr) as Hl. split.
  - unfold classic_link_type. assert (kn_interface_links (pl_known p) = {[interface_key r := xr_link_type r]}) as ->.
    { apply map_eq. intros k. destruct (decide (k = interface_key r)) as [->|Hk]; [by rewrite lookup_singleton_eq|].
      rewrite lookup_singleton_ne by done. destruct (_ !! k) as [l|] eqn:E; [|done]. exfalso.
      rewrite <- (insert_delete_id _ _ _ Hl), map_size_insert_None in Hsz by apply lookup_delete_eq.
      assert (size (delete (interface_key r) (kn_interface_links (pl_known p))) = 0%nat) as H0%map_size_empty_inv by lia.
      assert (delete (interface_key r) (kn_interface_links (pl_known p)) !! k = Some l) as E'
        by (by rewrite lookup_delete_ne). rewrite H0 in E'. by rewrite lookup_empty in E'. }
    by rewrite map_to_list_singleton.
  - destruct (pn_snaplen _ _ Hp r Hr) as (n & Hn & Hle). unfold classic_snaplen.
    apply elem_of_map_to_list in Hn.
    assert (n ∈ snd <$> map_to_list (pl_snaplens p)) as Hin by (apply list_elem_of_fmap; by exists (interface_key r, n)).
    destruct (snd <$> map_to_list (pl_snaplens p)) as [|x l] eqn:E; [by apply not_elem_of_nil in Hin|].
    etrans; [exact Hle|]. by apply list_max_spec.
Qed.

Lemma classic_snaplen_range records p :
  planned records p -> Forall (fun r => r.(xr_packet_bytes) <> []) records ->
  1 <= classic_snaplen p <= MAX_CAPTURED_PACKET_BYTES.
Proof.
  intros Hp Hne. unfold classic_snaplen.
  destruct (snd <$> map_to_list (pl_snaplens p)) as [|x l] eqn:E; [by unfold MAX_CAPTURED_PACKET_BYTES|].
  destruct (list_max_spec x l) as [Hin _]. rewrite <- E in Hin at 2.
  apply list_elem_of_fmap in Hin as ([k n] & -> & Hkn%elem_of_map_to_list).
  apply (pn_snaplens _ _ Hp) in Hkn as (r & Hr & _ & <-).
  destruct (proj1 (Forall_forall _ _) (pn_valid _ _ Hp) r Hr) as [Hcap _ Hsize _].
  pose proof (proj1 (Forall_forall _ _) Hne r Hr) as Hr0. pose proof (zlen_nonneg (xr_packet_bytes r)).
  assert (zlen (xr_packet_bytes r) <> 0) by (by rewrite zlen_nil_iff). simpl. lia.
Qed.

(** The units taken are those of the first records. *)
Lemma greedy_prefix {A} (unit : A -> res bytes) max_bytes size records us :
  greedy max_bytes size (unit <$> records) = Ok us ->
  Forall2 (fun r u => unit r = Ok u) (take (length us) records) us.
Proof.
  revert size us. induction records as [|r records IH]; intros size us Hg; simpl in Hg.
  - injection Hg as <-. constructor.
  - apply bind_Ok in Hg as (u & Hu & Hg). destruct (_ <? _); [injection Hg as <-; constructor|].
    apply bind_Ok in Hg as (us' & Hg & [= <-]). simpl. constructor; [done|by eapply IH].
Qed.

Lemma classic_header_reads p header rest :
  classic_header p = Ok header ->
  zlen header = 24 /\ ztake 4 (header ++ rest) = [xd4; xc3; xb2; xa1] /\
  u16 LE (header ++ rest) 4 = 2 /\ u16 LE (header ++ rest) 6 = 4 /\
  u32 LE (header ++ rest) 16 = classic_snaplen p /\ u32 LE (header ++ rest) 20 = classic_link_type p.
Proof.
  unfold classic_header. intros H. unpack H. rewrite app_nil_r, <- !app_assoc.
  split; [rewrite !zlen_app, !zlen_U32, !zlen_U16; done|].
  split.
  { transitivity (to_bytes LE U32 0xA1B2C3D4); [|by vm_compute]. apply ztake_app_exact. by rewrite zlen_U32. }
  repeat split; skip_fields; first [apply u16_here|apply u32_here]; lia.
Qed.

Section round_trip.
Context `{!MetadataCodec} (pow10_neg : Z -> py_float).

Lemma classic_round_trip records p header us max_bytes limit :
  planned records p -> plan_format p = PCAP -> classic_header p = Ok header ->
  greedy max_bytes (zlen header) (classic_packet_unit <$> records) = Ok us ->
  Forall (fun r => r.(xr_packet_bytes) <> []) records -> Forall timely records ->
  zlen us <= limit ->
  capture_packets pow10_neg (header ++ concat us) limit =
  Ok (PCAP, (classic_packets (classic_link_type p) 0 (take (length us) records), Ok tt)).
Proof.
  intros Hp Hfmt Hh Hg Hne Ht Hlim. apply greedy_prefix in Hg as Hu.
  pose proof (Forall2_length _ _ _ Hu) as Hlen.
  destruct (classic_header_reads p header (concat us) Hh) as (H24 & Hmagic & Hmaj & Hmin & Hsnap & Hlink).
  pose proof (classic_snaplen_range _ _ Hp Hne) as Hsr. pose proof (zlen_nonneg (concat us)) as Hcu.
  unfold capture_packets, _iter_classic_pcap. rewrite Hmagic. cbn [CLASSIC_MAGIC]. 
  replace (CLASSIC_MAGIC [xd4; xc3; xb2; xa1]) with (Some (LE, 1000000)) by done. cbv zeta.
  do 2 f_equal. rewrite Hmaj, Hmin, Hsnap, Hlink. unfold gen_guard.
  rewrite (proj2 (Z.ltb_ge _ 24)), (proj2 (Z.ltb_ge _ 1)), (proj2 (Z.ltb_ge MAX_CAPTURED_PACKET_BYTES _))
    by (rewrite ?zlen_app; lia). cbn [negb orb Z.eqb Pos.eqb].
  unfold plan_format in Hfmt. destruct (_ && _) eqn:Hb in Hfmt; [|done]. apply andb_prop in Hb as [Hsz%Z.leb_le _].
  assert (Forall (fun r => valid_record r /\ timely r /\ xr_captured_length r <= classic_snaplen p)
    (take (length us) records)) as Hall.
  { apply Forall_take, Forall_forall. intros r Hr. rewrite Forall_forall in Ht.
    split; [by apply (proj1 (Forall_forall _ _) (pn_valid _ _ Hp))|]. split; [by apply Ht|].
    apply (classic_plan_spec records p r Hp); [lia|done]. }
  assert (length us <= length (concat us))%nat as Hconcat.
  { clear -Hu. induction Hu as [|r u rs us Hru _ IH]; simpl; [done|].
    assert (0 < length u)%nat; [|rewrite length_app; lia].
    unfold classic_packet_unit in Hru. destruct (_timestamp_parts _). apply bind_Ok in Hru as (h & Hh & [= <-]).
    unpack Hh. rewrite !length_app, length_to_bytes. unfold U32. lia. }
  pose proof (classic_parse (header ++ concat us) (classic_link_type p) (classic_snaplen p) limit
    (take (length us) records) us header 0 (S (length (header ++ concat us))) Hu Hall eq_refl) as Hparse.
  rewrite H24 in Hparse. rewrite Hparse.
  - f_equal. destruct (take (length us) records) as [|r rs] eqn:Etake; [done|]. f_equal.
    assert (r ∈ records) as Hr by (eapply subseteq_take; rewrite Etake; set_solver).
    destruct (classic_plan_spec records p r Hp ltac:(lia) Hr) as [-> _].
    destruct (proj1 (Forall_forall _ _) (pn_valid _ _ Hp) r Hr) as [_ _ _ Hl].
    change 0xFFFF with (Z.ones 16). rewrite Z.land_ones by lia. apply Z.mod_small. lia.
  - unfold zlen. rewrite Hlen. fold (zlen us). lia.
  - rewrite Hlen, length_app. lia.
Qed.
End round_trip.

(** ** PCAPNG captures *)

Lemma block_inv kind body b :
  _block kind body = Ok b ->
  exists pad len, b = to_bytes LE U32 kind ++ to_bytes LE U32 len ++ body ++ pad ++ to_bytes LE U32 len /\
    zlen b = len /\ 0 <= zlen pad < 4 /\ len mod 4 = 0 /\ len = 12 + zlen body + zlen pad /\
    0 <= kind < 2 ^ 32 /\ len < 2 ^ 32.
Proof.
  unfold _block. cbv zeta. intros H. apply bind_Ok in H as (head & Hh & H).
  apply bind_Ok in H as (tail & Ht & [= <-]). set (pad := repeat x00 _) in *.
  assert (zlen pad = (- zlen body) mod 4) as Hpad.
  { unfold pad, zlen. rewrite repeat_length. pose proof (Z.mod_pos_bound (- Z.of_nat (length body)) 4). lia. }
  set (len := 12 + zlen (body ++ pad)) in *.
  unpack Hh. apply pack_u_Ok in Ht as (_ & Hv1 & ->). change 4%nat with U32.
  exists pad, len. rewrite app_nil_r, <- !app_assoc. split; [done|].
  rewrite !zlen_app, !zlen_U32. unfold len in *. rewrite zlen_app in *. clear len.
  split; [lia|]. split; [rewrite Hpad; apply Z.mod_pos_bound; lia|].
  split; [|split; [lia|]; split; [lia|]; change (256 ^ 4) with (2 ^ 32) in *; lia].
  rewrite Hpad. pose proof (Z.div_mod (- zlen body) 4 ltac:(lia)) as Hd.
  apply Z.mod_divide; [lia|]. exists (3 - (- zlen body / 4)). lia.
Qed.

Section blocks.
Context (pre b rest body : bytes) (kind : Z) (Hb : _block kind body = Ok b).
Abbreviation content := (pre ++ b ++ rest).

Lemma block_u32 k : 0 <= k -> u32 LE content (zlen pre + k) = u32 LE (b ++ rest) k.
Proof. intros Hk. rewrite u32_skip by lia. f_equal. lia. Qed.

(** What follows the header of the block. *)
Lemma block_body : exists after, content = (pre ++ to_bytes LE U32 kind ++ to_bytes LE U32 (zlen b)) ++ body ++ after.
Proof.
  destruct (block_inv _ _ _ Hb) as (pad & len & E & Hl & _). rewrite Hl.
  exists (pad ++ to_bytes LE U32 len ++ rest). by rewrite E, <- !app_assoc.
Qed.

Lemma block_prefix_length : zlen (pre ++ to_bytes LE U32 kind ++ to_bytes LE U32 (zlen b)) = zlen pre + 8.
Proof. rewrite !zlen_app, !zlen_U32. lia. Qed.

Lemma body_u32 k : 8 <= k -> exists after, u32 LE content (zlen pre + k) = u32 LE (body ++ after) (k - 8).
Proof.
  intros Hk. destruct block_body as [after ->]. exists after.
  rewrite u32_skip by (rewrite block_prefix_length; lia). rewrite block_prefix_length. f_equal. lia.
Qed.

Lemma body_slice k n : 8 <= k -> exists after,
  slice (zlen pre + k) (zlen pre + k + n) content = slice (k - 8) (k - 8 + n) (body ++ after).
Proof.
  intros Hk. destruct block_body as [after ->]. exists after.
  rewrite slice_skip by (rewrite block_prefix_length; lia). rewrite block_prefix_length. f_equal; lia.
Qed.

Lemma parse_written_header :
  (kind = 0x0A0D0D0A -> ztake 4 body = [x4d; x3c; x2b; x1a]) ->
  parse_block_header content LE (zlen pre) = Ok (LE, bool_decide (kind = 0x0A0D0D0A), kind, zlen b).
Proof.
  intros Hbom. destruct (block_inv _ _ _ Hb) as (pad & len & E & Hlb & Hpad & Hmod & Hlen & Hk & Hl32).
  pose proof (zlen_nonneg body) as Hbody. pose proof (zlen_nonneg rest) as Hrest. pose proof (zlen_nonneg pre) as Hpre.
  unfold parse_block_header. cbv zeta.
  assert (zlen content = zlen pre + zlen b + zlen rest) as Hcl by (rewrite !zlen_app; lia).
  rewrite (proj2 (Z.ltb_ge _ 12)) by lia. cbn [raise_if mbind res_bind].
  assert (slice (zlen pre) (zlen pre + 4) content = to_bytes LE U32 kind) as Hkind.
  { rewrite slice_skip, Z.sub_diag by lia. rewrite E, <- !app_assoc. apply slice_here. rewrite zlen_U32. lia. }
  assert (bool_decide (slice (zlen pre) (zlen pre + 4) content = PCAPNG_SECTION) = bool_decide (kind = 0x0A0D0D0A)) as ->.
  { apply bool_decide_ext. rewrite Hkind. split; [|by intros ->].
    intros Hs%(f_equal (from_bytes LE)). rewrite from_bytes_to_bytes in Hs by done. by rewrite Hs. }
  assert ((if bool_decide (kind = 0x0A0D0D0A) then _pcapng_endian content (zlen pre) else Ok LE) = Ok LE) as ->.
  { case_bool_decide as Hsec; [|done]. unfold _pcapng_endian. rewrite (proj2 (Z.ltb_ge _ 12)) by lia.
    destruct (body_slice 8 4 ltac:(lia)) as [after Hs].
    replace (zlen pre + 8 + 4) with (zlen pre + 12) in Hs by lia. specialize (Hbom Hsec).
    assert (ztake 4 (body ++ after) = ztake 4 body) as Ht.
    { pose proof (f_equal zlen Hbom) as Hz. change (zlen [_; _; _; _]) with 4 in Hz.
      rewrite zlen_ztake in Hz by lia. unfold ztake. rewrite take_app_le; [done|]. unfold zlen in Hz. lia. }
    rewrite Hs. unfold slice. change (8 - 8) with 0. rewrite zdrop_0. change (0 + 4 - 0) with 4.
    by rewrite Ht, Hbom. }
  cbn [mbind res_bind].
  assert (u32 LE content (zlen pre) = kind) as ->.
  { unfold u32. rewrite Hkind. by apply from_bytes_to_bytes. }
  assert (u32 LE content (zlen pre + 4) = zlen b) as ->.
  { rewrite block_u32 by lia. rewrite E at 1. skip_fields. rewrite Hlb. apply u32_here. lia. }
  assert (u32 LE content (zlen pre + zlen b - 4) = zlen b) as ->.
  { replace (zlen pre + zlen b - 4) with (zlen pre + (zlen b - 4)) by lia. rewrite block_u32 by lia.
    rewrite E at 1. rewrite <- !app_assoc.
    rewrite !u32_skip by (rewrite ?zlen_U32; lia). rewrite !zlen_U32, Hlb.
    replace (len - 4 - 4 - 4 - zlen body - zlen pad) with 0 by lia. apply u32_here. lia. }
  rewrite (proj2 (Z.ltb_ge _ 12)), (proj2 (Z.ltb_ge (_ - _) _)), Hlb, Hmod, !Z.eqb_refl by lia. done.
Qed.
End blocks.

Lemma body_u16 pre b rest body kind k :
  _block kind body = Ok b -> 8 <= k ->
  exists after, u16 LE (pre ++ b ++ rest) (zlen pre + k) = u16 LE (body ++ after) (k - 8).
Proof.
  intros Hb Hk. destruct (block_body pre b rest body kind Hb) as [after ->]. exists after.
  rewrite u16_skip by (rewrite block_prefix_length; lia). rewrite block_prefix_length. f_equal. lia.
Qed.

(** The interface a key is written with. *)
Definition written_interface (p : Plan) (r : ExportPacketRecord) (id : Z) : _PcapNgInterface :=
  mk_ng_interface id r.(xr_link_type) (default 0 (p.(pl_snaplens) !! interface_key r)) default_resolution 0.

(** The packets a PCAPNG capture of [records] holds, from index [i], when [ids]
    are the interfaces written before. *)
Fixpoint ng_packets (ids : gmap (Z * Z) Z) (i : Z) (records : list ExportPacketRecord) : list _CapturedPacket :=
  match records with
  | [] => []
  | r :: records' =>
      let key := interface_key r in
      let id := default (Z.of_nat (size ids)) (ids !! key) in
      mk_captured r.(xr_timestamp).(dt_us) r.(xr_link_type) r.(xr_packet_bytes) r.(xr_original_length) i id
      :: ng_packets (if bool_decide (is_Some (ids !! key)) then ids else <[key := id]> ids) (i + 1) records'
  end.

Section ng.
Context (pow10_neg : Z -> py_float) (limit : Z) (p : Plan) (records : list ExportPacketRecord).
Context (Hp : planned records p) (Hne : Forall (fun r => r.(xr_packet_bytes) <> []) records).
Context (Htime : Forall timely records).

Lemma offset_zero r : r ∈ records -> timestamp_offset p (interface_key r) = 0.
Proof.
  intros Hr. unfold timestamp_offset. destruct (pl_min_timestamps p !! _) as [f|] eqn:E; [|done].
  apply (pn_times _ _ Hp) in E as (x & Hx & _ & <-).
  pose proof (proj1 (Forall_forall _ _) Htime x Hx) as Ht. unfold timely in Ht.
  unfold datetime_timestamp. rewrite (proj2 (Z.ltb_ge _ 0)), floor_timestamp by lia.
  apply Z.min_l. apply Z.div_pos; lia.
Qed.

Lemma ng_snaplen_range r : r ∈ records ->
  exists n, p.(pl_snaplens) !! interface_key r = Some n /\ r.(xr_captured_length) <= n /\ 1 <= n <= MAX_CAPTURED_PACKET_BYTES.
Proof.
  intros Hr. destruct (pn_snaplen _ _ Hp r Hr) as (n & Hn & Hle). exists n. split; [done|]. split; [done|].
  apply (pn_snaplens _ _ Hp) in Hn as (x & Hx & _ & <-).
  destruct (proj1 (Forall_forall _ _) (pn_valid _ _ Hp) x Hx) as [Hcap _ Hsize _].
  pose proof (proj1 (Forall_forall _ _) Hne x Hx) as Hx0. pose proof (zlen_nonneg (xr_packet_bytes x)).
  assert (zlen (xr_packet_bytes x) <> 0) by (by rewrite zlen_nil_iff). lia.
Qed.

Lemma parse_written_interface r b pre rest st :
  r ∈ records -> interface_unit p r = Ok b -> st.(ngit_endian) = LE ->
  parse_interface_block pow10_neg (pre ++ b ++ rest) st (zlen pre) (zlen b) =
  Ok (mk_ng_iter LE (st.(ngit_interfaces) ++ [written_interface p r st.(ngit_next_interface_id)])
        st.(ngit_count) (st.(ngit_next_interface_id) + 1) st.(ngit_saw_section)) /\
  parse_block_header (pre ++ b ++ rest) LE (zlen pre) = Ok (LE, false, 1, zlen b).
Proof.
  intros Hr Hu He. unfold interface_unit in Hu. cbv zeta in Hu. rewrite (offset_zero r Hr) in Hu.
  cbn [Z.eqb negb mbind res_bind] in Hu. apply bind_Ok in Hu as (body & Hbody & Hu). unpack Hbody.
  rewrite !app_nil_r in Hu. split; [|exact (parse_written_header pre b rest _ _ Hu ltac:(done))].
  destruct (ng_snaplen_range r Hr) as (n & Hn & _ & Hrange). rewrite Hn in *. simpl default in *.
  destruct (block_inv _ _ _ Hu) as (pad & len & _ & Hlb & Hpad & Hmod & Hlen & _).
  rewrite !zlen_app, !zlen_U16, zlen_U32 in Hlen.
  assert (zlen b = 20) as H20.
  { rewrite Hlb. rewrite Hlen in Hmod. assert (zlen pad = 0 \/ zlen pad = 1 \/ zlen pad = 2 \/ zlen pad = 3) as Hc by lia.
    destruct Hc as [E|[E|[E|E]]]; rewrite E in *; [lia|done..]. }
  unfold parse_interface_block. cbv zeta. rewrite He, H20. cbn [Z.ltb raise_if mbind res_bind].
  destruct (body_u16 pre b rest _ _ 8 Hu ltac:(lia)) as [a1 ->].
  destruct (body_u32 pre b rest _ _ Hu 12 ltac:(lia)) as [a2 ->].
  assert (u16 LE ((to_bytes LE U16 (xr_link_type r) ++ to_bytes LE U16 0 ++ to_bytes LE U32 n) ++ a1) (8 - 8)
    = xr_link_type r) as -> by (skip_fields; apply u16_here; lia).
  assert (u32 LE ((to_bytes LE U16 (xr_link_type r) ++ to_bytes LE U16 0 ++ to_bytes LE U32 n) ++ a2) (12 - 8)
    = n) as -> by (skip_fields; apply u32_here; lia).
  rewrite (proj2 (Z.ltb_ge n 1)), (proj2 (Z.ltb_ge MAX_CAPTURED_PACKET_BYTES n)) by lia. simpl orb. cbn [raise_if].
  unfold _pcapng_interface_options. cbn [interface_options_loop].
  rewrite (proj2 (Z.leb_gt _ _)) by lia. cbn [mbind res_bind]. unfold written_interface. by rewrite Hn.
Qed.

Lemma packet_ticks_us r : r ∈ records -> packet_ticks p r = r.(xr_timestamp).(dt_us).
Proof.
  intros Hr. pose proof (proj1 (Forall_forall _ _) Htime r Hr) as Ht. unfold timely in Ht.
  unfold packet_ticks. rewrite (offset_zero r Hr). unfold datetime_timestamp.
  rewrite (proj2 (Z.ltb_ge _ 0)) by lia. rewrite <- (ticks_of_timestamp (dt_us (xr_timestamp r))) at 2 by lia.
  do 2 f_equal. unfold float_sub. change (float_of_Z 0) with (S754_zero false).
  by destruct (int_truediv _ _) as [[]| | |].
Qed.

Lemma join_ticks t : 0 <= t < 2 ^ 64 -> Z.lor (Z.shiftl (Z.shiftr t 32) 32) (Z.land t 0xFFFFFFFF) = t.
Proof.
  intros Ht. change 0xFFFFFFFF with (Z.ones 32). rewrite <- Z.ldiff_ones_r by lia.
  apply Z.bits_inj. intros i. rewrite Z.lor_spec, Z.ldiff_spec, Z.land_spec. by destruct (Z.testbit t i), (Z.testbit (Z.ones 32) i).
Qed.

Lemma parse_written_packet r id b pre rest st :
  r ∈ records -> ng_packet_unit p id r = Ok b -> st.(ngit_endian) = LE ->
  st.(ngit_interfaces) !! Z.to_nat id = Some (written_interface p r id) -> st.(ngit_count) + 1 <= limit ->
  parse_packet_block (pre ++ b ++ rest) limit st (zlen pre) 6 (zlen b) =
  Ok (mk_captured r.(xr_timestamp).(dt_us) r.(xr_link_type) r.(xr_packet_bytes) r.(xr_original_length)
        st.(ngit_count) id,
      mk_ng_iter LE st.(ngit_interfaces) (st.(ngit_count) + 1) st.(ngit_next_interface_id)
        st.(ngit_saw_section)) /\
  parse_block_header (pre ++ b ++ rest) LE (zlen pre) = Ok (LE, false, 6, zlen b).
Proof.
  intros Hr Hu He Hi Hlim. unfold ng_packet_unit in Hu. cbv zeta in Hu. rewrite (packet_ticks_us r Hr) in Hu.
  pose proof (proj1 (Forall_forall _ _) Htime r Hr) as Ht. unfold timely in Ht.
  set (us := dt_us (xr_timestamp r)) in *.
  apply bind_Ok in Hu as (_ & _ & Hu). apply bind_Ok in Hu as (body & Hbody & Hu). unpack Hbody.
  rewrite app_nil_r in Hu. split; [|exact (parse_written_header pre b rest _ _ Hu ltac:(done))].
  destruct (proj1 (Forall_forall _ _) (pn_valid _ _ Hp) r Hr) as [Hcap Horig Hsize Hlink].
  destruct (ng_snaplen_range r Hr) as (n & Hn & Hcn & _). pose proof (zlen_nonneg (xr_packet_bytes r)) as Hpk.
  destruct (block_inv _ _ _ Hu) as (pad & len & _ & Hlb & Hpad & Hmod & Hlen & _).
  rewrite !zlen_app, !zlen_U32 in Hlen.
  assert (pad4 (xr_captured_length r) = zlen (xr_packet_bytes r) + zlen pad) as Hp4.
  { pose proof (pad4_bounds (xr_captured_length r) ltac:(lia)) as [Hb1 Hb2].
    apply Z.mod_divide in Hmod as [k1 Hk1]; [|lia]. apply Z.mod_divide in Hb2 as [k2 Hk2]; [|lia]. lia. }
  set (head := to_bytes LE U32 id ++ _ ++ _ ++ _ ++ _) in *.
  assert (forall k, 8 <= k -> exists after, u32 LE (pre ++ b ++ rest) (zlen pre + k)
    = u32 LE ((head ++ xr_packet_bytes r) ++ after) (k - 8)) as Hread
    by (intros k Hk; by apply (body_u32 pre b rest _ _ Hu)).
  unfold parse_packet_block. cbv zeta. rewrite He. rewrite (proj2 (Z.ltb_ge _ (28 + 4))) by lia.
  cbn [raise_if mbind res_bind Z.eqb Pos.eqb].
  destruct (Hread 8 ltac:(lia)) as [a1 ->], (Hread 12 ltac:(lia)) as [a2 ->], (Hread 16 ltac:(lia)) as [a3 ->],
    (Hread 20 ltac:(lia)) as [a4 ->], (Hread 24 ltac:(lia)) as [a5 ->]. clear Hread. unfold head in *.
  assert (forall a, u32 LE ((head ++ xr_packet_bytes r) ++ a) (8 - 8) = id /\
    u32 LE ((head ++ xr_packet_bytes r) ++ a) (12 - 8) = Z.shiftr us 32 /\
    u32 LE ((head ++ xr_packet_bytes r) ++ a) (16 - 8) = Z.land us 0xFFFFFFFF /\
    u32 LE ((head ++ xr_packet_bytes r) ++ a) (20 - 8) = xr_captured_length r /\
    u32 LE ((head ++ xr_packet_bytes r) ++ a) (24 - 8) = xr_original_length r) as Hf.
  { intros a. unfold head. repeat split; skip_fields; apply u32_here; lia. }
  fold head. destruct (Hf a1) as (-> & _), (Hf a2) as (_ & -> & _), (Hf a3) as (_ & _ & -> & _),
    (Hf a4) as (_ & _ & _ & -> & _), (Hf a5) as (_ & _ & _ & _ & ->). clear Hf.
  rewrite Hi. unfold written_interface. cbn [ngi_snaplen ngi_link_type ngi_timestamp_resolution ngi_timestamp_offset ngi_interface_id].
  rewrite Hn. simpl default. rewrite join_ticks by lia.
  rewrite (proj2 (Z.ltb_ge MAX_CAPTURED_PACKET_BYTES _)), (proj2 (Z.ltb_ge (_ - 4) _)), (proj2 (Z.ltb_ge limit _)),
    (proj2 (Z.ltb_ge (xr_original_length r) _)), (proj2 (Z.ltb_ge n _)) by lia. cbn [orb raise_if mbind res_bind].
  unfold _timestamp, default_resolution. rewrite ng_time_round_trip by done. cbn [mbind res_bind].
  destruct (body_slice pre b rest _ _ Hu 28 (xr_captured_length r) ltac:(lia)) as [a ->].
  do 3 f_equal; [|lia].
  unfold head. rewrite <- !app_assoc, !slice_skip by (rewrite ?zlen_U32; lia). rewrite !zlen_U32.
  change (28 - 8 - 4 - 4 - 4 - 4 - 4) with 0. apply slice_here. lia.
Qed.

(** Every interface known to the writer is known to the parser, under the id the
    writer gave it. *)
Record ids_match (ids : gmap (Z * Z) Z) (st : NgIter) : Prop := {
  im_endian : st.(ngit_endian) = LE;
  im_section : st.(ngit_saw_section) = true;
  im_next : st.(ngit_next_interface_id) = Z.of_nat (size ids);
  im_length : length st.(ngit_interfaces) = size ids;
  im_lookup : forall r id, r ∈ records -> ids !! interface_key r = Some id ->
    st.(ngit_interfaces) !! Z.to_nat id = Some (written_interface p r id);
}.

Lemma written_interface_key r r' id :
  r ∈ records -> r' ∈ records -> interface_key r = interface_key r' ->
  written_interface p r id = written_interface p r' id.
Proof.
  intros Hr Hr' Hk. pose proof (pn_link _ _ Hp r Hr) as Hl. rewrite Hk, (pn_link _ _ Hp r' Hr') in Hl.
  injection Hl as Hl. unfold written_interface. by rewrite Hk, Hl.
Qed.

(** The parser over the interface block of a new interface. *)
Lemma interface_step r b pre rest st ids fuel :
  r ∈ records -> interface_unit p r = Ok b -> ids !! interface_key r = None -> ids_match ids st ->
  exists st', ids_match (<[interface_key r := Z.of_nat (size ids)]> ids) st' /\
    st'.(ngit_count) = st.(ngit_count) /\
    iter_pcapng_blocks pow10_neg (pre ++ b ++ rest) limit (S fuel) st (zlen pre) =
    iter_pcapng_blocks pow10_neg (pre ++ b ++ rest) limit fuel st' (zlen (pre ++ b)).
Proof.
  intros Hr Hu Hnew [He Hs Hn Hl Hi]. destruct (parse_written_interface r b pre rest st Hr Hu He) as [Hparse Hhead].
  eexists. split; [|split; [|cbn [iter_pcapng_blocks]; rewrite He, Hhead]].
  3: { rewrite (proj2 (Z.ltb_lt _ _)).
    - cbn [gen_let ngit_saw_section]. rewrite Hs. simpl negb. cbn [Z.eqb Pos.eqb].
      replace (mk_ng_iter LE _ _ _ true) with st by (destruct st; simpl in *; congruence).
      rewrite Hparse. cbn [gen_let]. by rewrite zlen_app.
    - unfold parse_block_header in Hhead. apply bind_Ok in Hhead as (_ & Hh%raise_if_Ok & _). lia. }
  2: done.
  constructor; simpl; [done|done| | |].
  - rewrite map_size_insert_None by done. lia.
  - rewrite length_app, map_size_insert_None by done. simpl. lia.
  - intros r' id Hr'. destruct (decide (interface_key r' = interface_key r)) as [Hk|Hk].
    + rewrite Hk, lookup_insert_eq. intros [= <-]. rewrite Nat2Z.id, <- Hl, list_lookup_middle by done.
      rewrite (written_interface_key r' r) by done. by rewrite Hn, Hl.
    + rewrite lookup_insert_ne by done. intros Hid. by apply lookup_app_l_Some, Hi.
Qed.

(** The parser over the packet block of a known interface. *)
Lemma packet_step r id b pre rest st ids fuel :
  r ∈ records -> ng_packet_unit p id r = Ok b -> ids !! interface_key r = Some id -> ids_match ids st ->
  st.(ngit_count) + 1 <= limit ->
  exists st', ids_match ids st' /\ st'.(ngit_count) = st.(ngit_count) + 1 /\
    iter_pcapng_blocks pow10_neg (pre ++ b ++ rest) limit (S fuel) st (zlen pre) =
    gen_cons (mk_captured r.(xr_timestamp).(dt_us) r.(xr_link_type) r.(xr_packet_bytes) r.(xr_original_length)
        st.(ngit_count) id)
      (iter_pcapng_blocks pow10_neg (pre ++ b ++ rest) limit fuel st' (zlen (pre ++ b))).
Proof.
  intros Hr Hu Hid Hm Hlim. pose proof Hm as [He Hs Hn Hl Hi].
  destruct (parse_written_packet r id b pre rest st Hr Hu He (Hi r id Hr Hid) Hlim) as [Hparse Hhead].
  eexists. split; [|split; [|cbn [iter_pcapng_blocks]; rewrite He, Hhead]].
  3: { rewrite (proj2 (Z.ltb_lt _ _)).
    - cbn [gen_let ngit_saw_section]. rewrite Hs. simpl negb. cbn [Z.eqb Pos.eqb is_packet_block orb].
      replace (mk_ng_iter LE _ _ _ true) with st by (destruct st; simpl in *; congruence).
      rewrite Hparse. cbn [gen_let]. by rewrite zlen_app.
    - unfold parse_block_header in Hhead. apply bind_Ok in Hhead as (_ & Hh%raise_if_Ok & _). lia. }
  2: done.
  by constructor.
Qed.

Lemma block_length_pos kind body b : _block kind body = Ok b -> (12 <= length b)%nat.
Proof.
  intros (pad & len & _ & Hl & Hpad & _ & Hlen & _)%block_inv. pose proof (zlen_nonneg body). unfold zlen in *. lia.
Qed.

Lemma packet_unit_length id r b : ng_packet_unit p id r = Ok b -> (12 <= length b)%nat.
Proof.
  unfold ng_packet_unit. cbv zeta. intros H. apply bind_Ok in H as (_ & _ & H).
  apply bind_Ok in H as (? & _ & H). by eapply block_length_pos.
Qed.

Lemma interface_unit_length r b : interface_unit p r = Ok b -> (12 <= length b)%nat.
Proof.
  unfold interface_unit. cbv zeta. intros H. apply bind_Ok in H as (? & _ & H).
  apply bind_Ok in H as (? & _ & H). by eapply block_length_pos.
Qed.

Lemma ng_parse max_bytes rs us ids size pre st fuel :
  rs ⊆ records -> greedy max_bytes size (ng_units p ids rs) = Ok us -> ids_match ids st ->
  st.(ngit_count) + zlen us <= limit -> (length (concat us) < fuel)%nat ->
  iter_pcapng_blocks pow10_neg (pre ++ concat us) limit fuel st (zlen pre)
  = (ng_packets ids st.(ngit_count) (take (length us) rs), Ok tt).
Proof.
  revert us ids size pre st fuel. induction rs as [|r rs IH]; intros us ids size pre st [|fuel] Hrs Hg Hm Hlim Hf;
    [simpl in Hf; lia| |simpl in Hf; lia|]; cbn [ng_units greedy] in Hg.
  { injection Hg as <-. simpl. by rewrite app_nil_r, Z.ltb_irrefl. }
  assert (r ∈ records /\ rs ⊆ records) as [Hr Hrs'] by set_solver.
  apply bind_Ok in Hg as (u & Hu & Hg). destruct (_ <? _).
  { injection Hg as <-. simpl. by rewrite app_nil_r, Z.ltb_irrefl. }
  apply bind_Ok in Hg as (us' & Hg & [= <-]). apply bind_Ok in Hu as (ib & Hib & Hu).
  apply bind_Ok in Hu as (pb & Hpb & [= <-]). rewrite zlen_cons in Hlim. pose proof (zlen_nonneg us') as Hus.
  simpl concat in *. simpl take. cbn [ng_packets]. rewrite !length_app in Hf.
  pose proof (packet_unit_length _ _ _ Hpb) as Hpl. case_bool_decide as Hknown.
  - destruct Hknown as [id Hid]. rewrite Hid in *. simpl default in *. injection Hib as <-.
    change ([] ++ pb) with pb in *. cbn [length] in Hf.
    destruct (packet_step r id pb pre (concat us') st ids fuel Hr Hpb Hid Hm ltac:(lia)) as (st' & Hm' & Hc & ->).
    rewrite app_assoc, (IH us' ids _ (pre ++ pb) st' fuel Hrs' Hg Hm') by lia. by rewrite Hc.
  - apply eq_None_not_Some in Hknown. rewrite Hknown in *. simpl default in *.
    pose proof (interface_unit_length _ _ Hib) as Hil. destruct fuel as [|fuel]; [lia|].
    rewrite <- (app_assoc ib).
    destruct (interface_step r ib pre (pb ++ concat us') st ids (S fuel) Hr Hib Hknown Hm) as (st1 & Hm1 & Hc1 & ->).
    rewrite app_assoc.
    destruct (packet_step r _ pb (pre ++ ib) (concat us') st1 _ fuel Hr Hpb (lookup_insert_eq _ _ _) Hm1 ltac:(lia))
      as (st2 & Hm2 & Hc2 & ->).
    rewrite app_assoc, (IH us' _ _ ((pre ++ ib) ++ pb) st2 fuel Hrs' Hg Hm2) by lia. by rewrite Hc2, Hc1.
Qed.

(** The parser over the section header. *)
Lemma section_step header rest fuel :
  section_unit = Ok header ->
  iter_pcapng_blocks pow10_neg (header ++ rest) limit (S fuel) (mk_ng_iter LE [] 0 0 false) 0 =
  iter_pcapng_blocks pow10_neg (header ++ rest) limit fuel (mk_ng_iter LE [] 0 0 true) (zlen header).
Proof.
  unfold section_unit. intros Hu. apply bind_Ok in Hu as (head & Hh & Hu). apply bind_Ok in Hu as (len & Hl & Hu).
  unpack Hh. pose proof (parse_written_header [] header rest _ _ Hu ltac:(by intros _; vm_compute)) as Hhead.
  change ([] ++ header ++ rest) with (header ++ rest) in Hhead. rewrite zlen_nil in Hhead.
  cbn [iter_pcapng_blocks ngit_endian]. rewrite Hhead, (proj2 (Z.ltb_lt _ _)); [done|].
  unfold parse_block_header in Hhead. apply bind_Ok in Hhead as (_ & Hx%raise_if_Ok & _). lia.
Qed.

Lemma ng_round_trip header us max_bytes :
  section_unit = Ok header -> greedy max_bytes (zlen header) (ng_units p ∅ records) = Ok us -> zlen us <= limit ->
  capture_packets pow10_neg (header ++ concat us) limit =
  Ok (PCAPNG, (ng_packets ∅ 0 (take (length us) records), Ok tt)).
Proof.
  intros Hh Hg Hlim. unfold capture_packets.
  assert (exists tl, header = PCAPNG_SECTION ++ tl) as [tl Htl].
  { revert Hh. vm_compute. intros [= <-]. by eexists. }
  assert (ztake 4 (header ++ concat us) = PCAPNG_SECTION) as ->
    by (rewrite Htl, <- app_assoc; by apply ztake_app_exact).
  replace (CLASSIC_MAGIC PCAPNG_SECTION) with (@None (endian * Z)) by done. rewrite bool_decide_true by done.
  do 2 f_equal. unfold _iter_pcapng. rewrite section_step by done.
  rewrite (ng_parse max_bytes records us ∅ (zlen header) header (mk_ng_iter LE [] 0 0 true)); [done|done|exact Hg| |simpl; lia|].
  - by constructor.
  - rewrite Htl, !length_app. simpl. lia.
Qed.
End ng.

(** ** What a written capture reads back as *)

Definition exported_packets (p : Plan) (records : list ExportPacketRecord) : list _CapturedPacket :=
  match plan_format p with
  | PCAP => classic_packets (classic_link_type p) 0 records
  | PCAPNG => ng_packets ∅ 0 records
  end.

(** What a reader gets of a packet, whatever the format. *)
Definition packet_of (r : ExportPacketRecord) : Z * Z * bytes * Z :=
  (r.(xr_timestamp).(dt_us), r.(xr_link_type), r.(xr_packet_bytes), r.(xr_original_length)).

Definition packet_read (c : _CapturedPacket) : Z * Z * bytes * Z :=
  (c.(cap_timestamp), c.(cap_link_type), c.(cap_data), c.(cap_original_length)).

(** The packets read are those of the records, in order; two of them share an
    interface exactly when their records do. *)
Record reads_back (records : list ExportPacketRecord) (captured : list _CapturedPacket) : Prop := {
  rb_packets : packet_read <$> captured = packet_of <$> records;
  rb_indices : cap_packet_index <$> captured = seqZ 0 (zlen records);
  rb_interfaces : forall i j ri rj ci cj,
    records !! i = Some ri -> records !! j = Some rj -> captured !! i = Some ci -> captured !! j = Some cj ->
    ci.(cap_interface_id) = cj.(cap_interface_id) <-> interface_key ri = interface_key rj;
}.

(** Distinct keys have distinct ids. *)
Definition ids_injective (ids : gmap (Z * Z) Z) : Prop :=
  forall k k' id, ids !! k = Some id -> ids !! k' = Some id -> k = k'.

Lemma reads_back_intro records captured ids :
  ids_injective ids -> packet_read <$> captured = packet_of <$> records ->
  cap_packet_index <$> captured = seqZ 0 (zlen records) ->
  Forall2 (fun r c => ids !! interface_key r = Some c.(cap_interface_id)) records captured ->
  reads_back records captured.
Proof.
  intros Hinj Hp Hi Hf. constructor; [done..|]. intros i j ri rj ci cj Hri Hrj Hci Hcj.
  pose proof (Forall2_lookup_lr _ _ _ _ _ _ Hf Hri Hci) as Ei. pose proof (Forall2_lookup_lr _ _ _ _ _ _ Hf Hrj Hcj) as Ej.
  split; intros E; [eapply Hinj; [exact Ei|by rewrite E]|]. simpl in *. rewrite E in Ei. congruence.
Qed.

Lemma classic_packets_index link_type i records : cap_packet_index <$> classic_packets link_type i records = seqZ i (zlen records).
Proof.
  revert i. induction records as [|r records IH]; intros i; [done|]. rewrite zlen_cons. pose proof (zlen_nonneg records).
  rewrite seqZ_cons by lia. simpl. f_equal. rewrite IH. f_equal; lia.
Qed.

Lemma ng_packets_index ids i records : cap_packet_index <$> ng_packets ids i records = seqZ i (zlen records).
Proof.
  revert ids i. induction records as [|r records IH]; intros ids i; [done|]. rewrite zlen_cons. pose proof (zlen_nonneg records).
  rewrite seqZ_cons by lia. simpl. f_equal. rewrite IH. f_equal; lia.
Qed.

Lemma ng_packets_read ids i records : packet_read <$> ng_packets ids i records = packet_of <$> records.
Proof. revert ids i. induction records as [|r records IH]; intros ids i; [done|]. simpl. f_equal. apply IH. Qed.

Lemma classic_packets_read link_type i records :
  Forall (fun r => r.(xr_link_type) = link_type) records ->
  packet_read <$> classic_packets link_type i records = packet_of <$> records.
Proof.
  intros Hf. revert i. induction Hf as [|r records <- _ IH]; intros i; [done|]. simpl. f_equal. apply IH.
Qed.

Lemma ng_packets_interfaces ids i records :
  ids_injective ids -> (forall k id, ids !! k = Some id -> id < Z.of_nat (size ids)) ->
  exists ids', ids ⊆ ids' /\ ids_injective ids' /\
    Forall2 (fun r c => ids' !! interface_key r = Some c.(cap_interface_id)) records (ng_packets ids i records).
Proof.
  revert ids i. induction records as [|r records IH]; intros ids i Hinj Hlt; simpl; [by exists ids|].
  case_bool_decide as Hk.
  - destruct (IH ids (i + 1) Hinj Hlt) as (ids' & Hsub & Hinj' & Hf). exists ids'. split; [done|]. split; [done|].
    constructor; [|done]. simpl. destruct Hk as [id Hid]. rewrite Hid. by eapply lookup_weaken.
  - apply eq_None_not_Some in Hk. rewrite Hk. simpl default.
    destruct (IH (<[interface_key r := Z.of_nat (size ids)]> ids) (i + 1)) as (ids' & Hsub & Hinj' & Hf).
    + intros k k' id. rewrite !lookup_insert_Some. intros [[<- <-]|[Hn E]] [[<- E']|[Hn' E']]; try done.
      * apply Hlt in E'. lia.
      * apply Hlt in E. lia.
      * by eapply Hinj.
    + intros k id. rewrite lookup_insert_Some, map_size_insert_None by done. intros [[<- <-]|[_ E]]; [lia|].
      apply Hlt in E. lia.
    + exists ids'. split; [etrans; [by apply insert_subseteq|exact Hsub]|]. split; [done|]. constructor; [|done].
      simpl. eapply lookup_weaken; [apply lookup_insert_eq|exact Hsub].
Qed.

(** A plan for a classic capture has one interface. *)
Lemma classic_one_interface records p r r' :
  planned records p -> plan_format p = PCAP -> r ∈ records -> r' ∈ records -> interface_key r = interface_key r'.
Proof.
  intros Hp Hfmt Hr Hr'. unfold plan_format in Hfmt. destruct (_ && _) eqn:Hb in Hfmt; [|done].
  apply andb_prop in Hb as [Hsz%Z.leb_le _]. pose proof (pn_link _ _ Hp r Hr) as Hl.
  pose proof (pn_link _ _ Hp r' Hr') as Hl'. destruct (decide (interface_key r = interface_key r')) as [|Hne]; [done|].
  exfalso. rewrite <- (insert_delete_id _ _ _ Hl), map_size_insert_None in Hsz by apply lookup_delete_eq.
  assert (size (delete (interface_key r) (kn_interface_links (pl_known p))) = 0%nat) as H0%map_size_empty_inv by lia.
  rewrite <- (lookup_delete_ne _ (interface_key r)) in Hl' by done. rewrite H0 in Hl'. by rewrite lookup_empty in Hl'.
Qed.

Lemma exported_reads_back records p n :
  planned records p -> reads_back (take n records) (exported_packets p (take n records)).
Proof.
  intros Hp. unfold exported_packets. destruct (plan_format p) eqn:Hfmt.
  - destruct (take n records) as [|r0 rs] eqn:Etake.
    { apply (reads_back_intro _ _ ∅); [|done..]. intros k k' id Hx. by rewrite lookup_empty in Hx. }
    assert (r0 :: rs ⊆ records) as Hsub by (rewrite <- Etake; apply subseteq_take).
    assert (forall r, r ∈ r0 :: rs -> interface_key r = interface_key r0 /\ xr_link_type r = classic_link_type p) as Hall.
    { intros r Hr. pose proof Hfmt as Hf. unfold plan_format in Hf. destruct (_ && _) eqn:Hb in Hf; [|done].
      apply andb_prop in Hb as [Hsz%Z.leb_le _]. split; [apply (classic_one_interface records p); set_solver|].
      symmetry. apply (classic_plan_spec records p r Hp); [lia|set_solver]. }
    apply (reads_back_intro _ _ {[interface_key r0 := 0]}).
    + intros k k' id [<- _]%lookup_singleton_Some [<- _]%lookup_singleton_Some. done.
    + apply classic_packets_read, Forall_forall. intros r Hr. by apply Hall.
    + apply classic_packets_index.
    + generalize 0 at 2. clear -Hall. revert Hall. generalize (interface_key r0). generalize (r0 :: rs).
      intros l k. induction l as [|r l IH]; intros Hall i; [constructor|]. constructor; [|apply IH; set_solver].
      destruct (Hall r ltac:(set_solver)) as [-> _]. apply lookup_singleton_eq.
  - destruct (ng_packets_interfaces ∅ 0 (take n records)) as (ids & _ & Hinj & Hf).
    { intros k k' id Hx. by rewrite lookup_empty in Hx. }
    { intros k id Hx. by rewrite lookup_empty in Hx. }
    apply (reads_back_intro _ _ ids); [done|apply ng_packets_read|apply ng_packets_index|done].
Qed.

Section capture.
Context `{!MetadataCodec} (pow10_neg : Z -> py_float).

Lemma reference_round_trip records ended max_bytes limit p header units :
  reference_capture records ended max_bytes = Ok (p, header, units) ->
  Forall (fun r => r.(xr_packet_bytes) <> []) records -> Forall timely records -> zlen units <= limit ->
  planned records p /\
  capture_packets pow10_neg (header ++ concat units) limit
  = Ok (plan_format p, (exported_packets p (take (length units) records), Ok tt)).
Proof.
  unfold reference_capture. intros H' Hne Ht Hlim. apply bind_Ok in H' as (p' & Hp & H').
  apply (plan_all_planned _ _ []) in Hp; [|exact planned_empty]. simpl in Hp.
  apply bind_Ok in H' as (_ & _ & H'). apply bind_Ok in H' as (h & Hh & H').
  apply bind_Ok in H' as (_ & _ & H'). apply bind_Ok in H' as (us & Hg & [= <- <- <-]). split; [done|].
  unfold header_unit, packet_units, exported_packets in *. destruct (plan_format p') eqn:Hfmt.
  - by eapply classic_round_trip.
  - by eapply ng_round_trip.
Qed.
End capture.

(** C24: what the writer exports, the parser reads back: when every packet is
    non-empty and dated between 1970 and 2038, and the packet limit of the
    parser is not below the exported count, the packet generators of the parser
    accept the artifact under its format and yield exactly the first
    [exported_packet_count] packets, in order, each with its time to the microsecond, its link type, its
    bytes and its original length, and keeps their interfaces apart. *)
Theorem capture_round_trip `{!MetadataCodec} `{!LawfulCodec} (sha256_hex : bytes -> string)
    (pow10_neg : Z -> py_float) (records : generated ExportPacketRecord)
    (max_output_bytes spool_max_memory_bytes max_packets : Z) (output_storage neutral_storage : list disk_outcome)
    (a : CaptureArtifact) (st : Store)
    (Hbuild : build_capture_to_sink sha256_hex records max_output_bytes spool_max_memory_bytes
                output_storage neutral_storage = (Ok a, st))
    (Hnonempty : Forall (fun r => r.(xr_packet_bytes) <> []) records.1)
    (Htimes : Forall timely records.1) (Hlimit : a.(art_exported_packet_count) <= max_packets) :
  exists captured,
    capture_packets pow10_neg a.(art_spool).(sp_data) max_packets
    = Ok (a.(art_capture_format), (captured, Ok tt)) /\
    reads_back (take (Z.to_nat a.(art_exported_packet_count)) records.1) captured.
Proof.
  unfold build_capture_to_sink in Hbuild. destruct (Z.leb_spec spool_max_memory_bytes 0); [done|].
  pose proof (build_body_spec sha256_hex True records.1 records.2 max_output_bytes spool_max_memory_bytes
    output_storage neutral_storage (or_introl I) (or_introl I) ltac:(done)) as Hb.
  unfold io_spec in Hb. destruct (build_body _ _ _ _ _ _ _ _) as [[a'|e] st']; [|done].
  injection Hbuild as <- <-. destruct Hb as (_ & p & header & units & Href & Hh).
  unfold reference_build in Href. apply bind_Ok in Href as (_ & _ & Href). apply bind_Ok in Href as (_ & _ & Href).
  rewrite (hc_exported _ _ _ _ _ _ _ Hh) in *. 
  destruct (reference_round_trip pow10_neg _ _ _ max_packets _ _ _ Href Hnonempty Htimes Hlimit) as [Hp Hr].
  exists (exported_packets p (take (length units) records.1)).
  rewrite (hc_data _ _ _ _ _ _ _ Hh), (hc_format _ _ _ _ _ _ _ Hh). split; [exact Hr|].
  unfold zlen. rewrite Nat2Z.id. by apply exported_reads_back.
Qed.

(** Two interfaces, so a PCAPNG capture; the third packet does not fit. *)
Definition mixed_records : list ExportPacketRecord :=
  [sample_record 0 1700000000250000 [x45; x00; x01];
   mk_export (mk_datetime 1700000000250001 true) "source" 0 1 0 1 1 1 [x60; x02; x03; x04; x05] 5 1500;
   sample_record 2 1700000001999999 [x45; x02]].

Lemma capture_round_trip_witness :
  match build_capture_to_sink (fun _ => ""%string) (mixed_records, Ok tt) 150 1024 [] [] with
  | (Ok a, _) => a.(art_exported_packet_count) = 2 /\ a.(art_capture_format) = PCAPNG /\
      exists captured,
        capture_packets (fun _ => default_resolution) a.(art_spool).(sp_data) 2
        = Ok (a.(art_capture_format), (captured, Ok tt)) /\
        reads_back (take (Z.to_nat a.(art_exported_packet_count)) mixed_records) captured
  | (Err _, _) => False
  end.
Proof.
  destruct (build_capture_to_sink (fun _ => ""%string) (mixed_records, Ok tt) 150 1024 [] []) as [[a|e] st] eqn:Hb;
    [|vm_compute in Hb; discriminate Hb].
  assert (a.(art_exported_packet_count) = 2 /\ a.(art_capture_format) = PCAPNG) as [He Hf]
    by (vm_compute in Hb; injection Hb as <- _; split; reflexivity).
  split; [exact He|]. split; [exact Hf|].
  apply (capture_round_trip (fun _ => ""%string) (fun _ => default_resolution) (mixed_records, Ok tt) 150 1024 2
    [] [] a st Hb); [| |rewrite He; lia]; repeat constructor; discriminate.
Defined.

(** The condition on empty packets is needed: an interface all of whose packets
    are empty is written with snap length 0, which no reader accepts. *)
Example empty_packet_unreadable :
  match build_capture_to_sink (fun _ => ""%string) ([sample_record 0 1700000000250000 []], Ok tt) 150 1024 [] [] with
  | (Ok a, _) => a.(art_exported_packet_count) = 1 /\
      capture_packets (fun _ => default_resolution) a.(art_spool).(sp_data) 1
      = Ok (PCAP, ([], Err (parse_error "classic PCAP snap length is invalid")))
  | (Err _, _) => False
  end.
Proof. vm_compute. split; reflexivity. Qed.
