(* ===== verification/IndexedPlan.v ===== *)
(** * IndexedPlan

    pcap_indexed_export.py, the pure half of indexed export: from the ordinals a
    posting query selected to structural locators inside the scan budget, and
    from locators to byte ranges that are fetched together. *)

From Stdlib Require Import String.
From S2P Require Import Prelude Bytes Reader CaptureFormat StructuralIndex ExportDecoder PyFloat.
From S2P Require Import OffsetIndex.
#[local] Open Scope Z_scope.

Inductive IndexedFallbackReason : Type :=
  | UNSUPPORTED_SOURCE | UNSUPPORTED_SCAN_SEMANTICS | INDEX_UNAVAILABLE | INDEX_CORRUPT
  | RESOURCE_LIMIT | RANGE_MISSING | RANGE_SHORT | RANGE_UNAVAILABLE | VERSION_DRIFT
  | OWNERSHIP_CHANGED.

Definition reason_value (r : IndexedFallbackReason) : string :=
  match r with
  | UNSUPPORTED_SOURCE => "unsupported_source"
  | UNSUPPORTED_SCAN_SEMANTICS => "unsupported_scan_semantics"
  | INDEX_UNAVAILABLE => "index_unavailable"
  | INDEX_CORRUPT => "index_corrupt"
  | RESOURCE_LIMIT => "resource_limit"
  | RANGE_MISSING => "range_missing"
  | RANGE_SHORT => "range_short"
  | RANGE_UNAVAILABLE => "range_unavailable"
  | VERSION_DRIFT => "version_drift"
  | OWNERSHIP_CHANGED => "ownership_changed"
  end.

(** [IndexedFallback(reason)] and its subclasses, which only differ in the
    reason they default to. *)
Definition fallback (r : IndexedFallbackReason) : exn := IndexedFallback (reason_value r).
Definition IndexedLocatorError : exn := fallback INDEX_CORRUPT.

(** ** Byte ranges *)

Record CaptureByteRange : Type := mk_byte_range { cbr_offset : Z; cbr_length : Z }.

Definition CaptureByteRange_post_init (r : CaptureByteRange) : res unit :=
  _ ← raise_if ((r.(cbr_offset) <? 0) || (_MAX_I64 <? r.(cbr_offset)))
        (ValueError "capture range offset must be a non-negative signed 64-bit integer");
  _ ← raise_if ((r.(cbr_length) <=? 0) || (_MAX_I64 <? r.(cbr_length)))
        (ValueError "capture range length must be a positive signed 64-bit integer");
  raise_if (_MAX_I64 - r.(cbr_length) <? r.(cbr_offset))
    (ValueError "capture range end exceeds signed 64-bit bounds").

Definition validate_for_source (r : CaptureByteRange) (source : CaptureSourceVersion) : res unit :=
  raise_if (source.(csv_source_size_bytes) <? r.(cbr_offset) + r.(cbr_length))
    (ValueError "capture range exceeds source size").

(** ** Locators *)

Record SelectedPacketLocator : Type := mk_selected {
  spl_source_kind : source_kind;
  spl_source_id : string;
  spl_object_key : string;
  spl_source_version_id : string;
  spl_source_size_bytes : Z;
  spl_source_sha256 : string;
  spl_parent_structural_build_id : string;
  spl_source_order : Z;
  spl_packet_index : Z;
  spl_record_offset : Z;
  spl_data_offset : Z;
  spl_captured_length : Z;
  spl_original_length : Z;
  spl_framed_length : Z;
  spl_raw_timestamp_ticks : Z;
  spl_interface : CaptureInterface;
}.

(** The [locator] property. *)
Definition selected_locator (l : SelectedPacketLocator) : PacketLocator := {|
  loc_source_id := l.(spl_source_id);
  loc_source_order := l.(spl_source_order);
  loc_packet_index := l.(spl_packet_index);
  loc_record_offset := l.(spl_record_offset);
  loc_data_offset := l.(spl_data_offset);
  loc_captured_length := l.(spl_captured_length);
  loc_framed_length := l.(spl_framed_length);
|}.

Record LocatedPacketSelection : Type := mk_located {
  lps_locators : list SelectedPacketLocator;
  lps_admitted_packet_count : Z;
  lps_scanned_bytes : Z;
  lps_byte_limited : bool;
  lps_packet_limited : bool;
}.

Definition _validate_snapshot_binding (sha256_hex : bytes -> string) (source : CaptureSourceVersion)
    (snapshot : StructuralIndexSnapshot) (expected_parent_build_id : string) : res unit :=
  raise_if (is_empty expected_parent_build_id
            || negb (bool_decide (snapshot.(sis_build_id) = expected_parent_build_id))
            || negb (binds snapshot.(sis_binding) source)
            || negb (validate_structural_index sha256_hex snapshot)) IndexedLocatorError.

(** The [while] loop of [_classic_prefix] over the packets that are left:
    admitted, scanned, byte-limited, packet-limited. *)
Fixpoint classic_prefix_scan (packets : list StructuralPacketEntry)
    (source_size byte_budget packet_limit admitted scanned : Z) : Z * Z * bool * bool :=
  let source_exceeds_limit := byte_budget <? source_size in
  match packets with
  | [] =>
      let scanned := if source_size <=? byte_budget then source_size else scanned in
      (admitted, scanned, scanned <? source_size, false)
  | packet :: packets' =>
      if source_exceeds_limit && (byte_budget - scanned <? 16) then (admitted, scanned, true, false)
      else if packet_limit <=? admitted then (admitted, scanned, false, true)
      else
        let end_ := packet.(spe_record_offset) + packet.(spe_framed_length) in
        if source_exceeds_limit && (byte_budget <? end_) then (admitted, scanned, true, false)
        else classic_prefix_scan packets' source_size byte_budget packet_limit (admitted + 1) end_
  end.

Definition _classic_prefix (packets : list StructuralPacketEntry)
    (source_size byte_budget packet_limit : Z) : res (Z * Z * bool * bool) :=
  _ ← raise_if ((byte_budget <? 0) || (packet_limit <? 0)) IndexedLocatorError;
  if byte_budget <? 24 then Ok (0, 0, true, false)
  else Ok (classic_prefix_scan packets source_size byte_budget packet_limit 0 24).

(** [any(current <= previous for ...)] is false. *)
Fixpoint strictly_increasing (l : list Z) : bool :=
  match l with
  | x :: (y :: _) as l' => (x <? y) && strictly_increasing l'
  | _ => true
  end.

(** The admitted prefix of the source: admitted, scanned and the two flags. *)
Definition admitted_prefix (source : CaptureSourceVersion) (snapshot : StructuralIndexSnapshot)
    (remaining_byte_budget remaining_packet_limit : Z) : res (Z * Z * bool * bool) :=
  match snapshot.(sis_binding).(sib_capture_format) with
  | PCAPNG =>
      _ ← raise_if (remaining_byte_budget <? source.(csv_source_size_bytes))
            (fallback UNSUPPORTED_SCAN_SEMANTICS);
      let admitted := Z.min (zlen snapshot.(sis_packets)) remaining_packet_limit in
      match snapshot.(sis_packets) !! Z.to_nat admitted with
      | Some packet => Ok (admitted, packet.(spe_record_offset), false, true)
      | None => Ok (admitted, source.(csv_source_size_bytes), false, false)
      end
  | PCAP =>
      _classic_prefix snapshot.(sis_packets) source.(csv_source_size_bytes)
        remaining_byte_budget remaining_packet_limit
  end.

(** [{item.interface_ordinal: item for item in snapshot.interfaces}] *)
Definition ordinal_interfaces (interfaces : list StructuralInterfaceEntry)
    : gmap Z StructuralInterfaceEntry :=
  fold_left (fun m i => <[i.(sie_interface_ordinal) := i]> m) interfaces ∅.

Definition capture_interface_of (i : StructuralInterfaceEntry) : CaptureInterface := {|
  ci_section_index := i.(sie_section_index);
  ci_interface_id := i.(sie_interface_id);
  ci_interface_ordinal := i.(sie_interface_ordinal);
  ci_link_type := i.(sie_link_type);
  ci_snaplen := i.(sie_snaplen);
  ci_timestamp_resolution_numerator := i.(sie_timestamp_resolution_numerator);
  ci_timestamp_resolution_denominator := i.(sie_timestamp_resolution_denominator);
  ci_timestamp_offset_seconds := i.(sie_timestamp_offset_seconds);
|}.

Section locate.
Context (source : CaptureSourceVersion) (snapshot : StructuralIndexSnapshot) (source_order : Z).

(** The body of the loop over the selected ordinals below [admitted]. *)
Definition locate_packet (interfaces : gmap Z StructuralInterfaceEntry) (ordinal : Z)
    : res SelectedPacketLocator :=
  match snapshot.(sis_packets) !! Z.to_nat ordinal with
  | None => Err IndexedLocatorError
  | Some packet =>
      _ ← raise_if (negb (packet.(spe_packet_index) =? ordinal)) IndexedLocatorError;
      match interfaces !! packet.(spe_interface_ordinal) with
      | None => Err IndexedLocatorError
      | Some i =>
          _ ← raise_if (negb (i.(sie_section_index) =? packet.(spe_section_index))
                        || negb (i.(sie_interface_id) =? packet.(spe_interface_id)))
                IndexedLocatorError;
          Ok (mk_selected source.(csv_source_kind) source.(csv_source_id) source.(csv_object_key)
                source.(csv_source_version_id) source.(csv_source_size_bytes)
                source.(csv_source_sha256) snapshot.(sis_build_id) source_order ordinal
                packet.(spe_record_offset) packet.(spe_data_offset) packet.(spe_captured_length)
                packet.(spe_original_length) packet.(spe_framed_length)
                packet.(spe_raw_timestamp_ticks) (capture_interface_of i))
      end
  end.

Fixpoint locate_packets (interfaces : gmap Z StructuralInterfaceEntry) (admitted : Z)
    (ordinals : list Z) : res (list SelectedPacketLocator) :=
  match ordinals with
  | [] => Ok []
  | ordinal :: ordinals' =>
      if admitted <=? ordinal then locate_packets interfaces admitted ordinals'
      else
        located ← locate_packet interfaces ordinal;
        rest ← locate_packets interfaces admitted ordinals';
        Ok (located :: rest)
  end.

Definition locate_selected_packets (sha256_hex : bytes -> string) (expected_parent_build_id : string)
    (selected_ordinals : list Z) (remaining_byte_budget remaining_packet_limit : Z)
    : res LocatedPacketSelection :=
  _ ← _validate_snapshot_binding sha256_hex source snapshot expected_parent_build_id;
  _ ← raise_if ((source_order <? 0) || (remaining_byte_budget <? 0) || (remaining_packet_limit <? 0))
        IndexedLocatorError;
  _ ← raise_if (negb (strictly_increasing selected_ordinals)) IndexedLocatorError;
  _ ← raise_if (match head selected_ordinals, last selected_ordinals with
                | Some first, Some final => (first <? 0) || (zlen snapshot.(sis_packets) <=? final)
                | _, _ => false
                end) IndexedLocatorError;
  '(admitted, scanned, byte_limited, packet_limited) ←
     admitted_prefix source snapshot remaining_byte_budget remaining_packet_limit;
  located ← locate_packets (ordinal_interfaces snapshot.(sis_interfaces)) admitted selected_ordinals;
  Ok (mk_located located admitted scanned byte_limited packet_limited).
End locate.

(** ** Range plans *)

Record PacketRangeSlice : Type := mk_slice {
  prs_packet_index : Z;
  prs_data_offset : Z;
  prs_captured_length : Z;
}.

Record CoalescedRange : Type := mk_range {
  cr_source_kind : source_kind;
  cr_source_id : string;
  cr_object_key : string;
  cr_source_version_id : string;
  cr_parent_structural_build_id : string;
  cr_offset : Z;
  cr_length : Z;
  cr_packet_slices : list PacketRangeSlice;
}.

(** The [byte_range] property. *)
Definition range_bytes (r : CoalescedRange) : res CaptureByteRange :=
  let b := mk_byte_range r.(cr_offset) r.(cr_length) in
  _ ← CaptureByteRange_post_init b; Ok b.

Record RangePlan : Type := mk_range_plan {
  rp_ranges : list CoalescedRange;
  rp_selected_payload_bytes : Z;
  rp_fetched_bytes : Z;
}.

Record RangePlanLimits : Type := mk_range_limits {
  rpl_max_gap_bytes : Z;
  rpl_max_range_bytes : Z;
  rpl_max_ranges : Z;
  rpl_max_total_fetched_bytes : Z;
  rpl_max_amplification_numerator : Z;
  rpl_max_amplification_denominator : Z;
  rpl_max_source_fraction_numerator : Z;
  rpl_max_source_fraction_denominator : Z;
}.

Definition RangePlanLimits_post_init (l : RangePlanLimits) : res unit :=
  raise_if (existsb (fun v => _MAX_I64 <? v)
              [l.(rpl_max_gap_bytes); l.(rpl_max_range_bytes); l.(rpl_max_ranges);
               l.(rpl_max_total_fetched_bytes); l.(rpl_max_amplification_numerator);
               l.(rpl_max_amplification_denominator); l.(rpl_max_source_fraction_numerator);
               l.(rpl_max_source_fraction_denominator)]
            || (l.(rpl_max_gap_bytes) <? 0) || (l.(rpl_max_range_bytes) <=? 0)
            || (l.(rpl_max_ranges) <=? 0) || (l.(rpl_max_total_fetched_bytes) <=? 0)
            || (l.(rpl_max_amplification_numerator) <=? 0)
            || (l.(rpl_max_amplification_denominator) <=? 0)
            || (l.(rpl_max_amplification_numerator) <? l.(rpl_max_amplification_denominator))
            || (l.(rpl_max_source_fraction_numerator) <=? 0)
            || (l.(rpl_max_source_fraction_denominator) <=? 0)
            || (l.(rpl_max_source_fraction_denominator) <? l.(rpl_max_source_fraction_numerator)))
    (ValueError "invalid indexed range planning limits").

Record SourceRangePlanLimits : Type := mk_source_limits {
  srl_max_gap_bytes : Z;
  srl_max_range_bytes : Z;
  srl_max_source_fraction_numerator : Z;
  srl_max_source_fraction_denominator : Z;
}.

Definition SourceRangePlanLimits_post_init (l : SourceRangePlanLimits) : res unit :=
  raise_if (existsb (fun v => _MAX_I64 <? v)
              [l.(srl_max_gap_bytes); l.(srl_max_range_bytes);
               l.(srl_max_source_fraction_numerator); l.(srl_max_source_fraction_denominator)]
            || (l.(srl_max_gap_bytes) <? 0) || (l.(srl_max_range_bytes) <=? 0)
            || (l.(srl_max_source_fraction_numerator) <=? 0)
            || (l.(srl_max_source_fraction_denominator) <=? 0)
            || (l.(srl_max_source_fraction_denominator) <? l.(srl_max_source_fraction_numerator)))
    (ValueError "invalid per-source indexed range planning limits").

Definition _source_range_limits (l : RangePlanLimits) : SourceRangePlanLimits :=
  mk_source_limits l.(rpl_max_gap_bytes) l.(rpl_max_range_bytes)
    l.(rpl_max_source_fraction_numerator) l.(rpl_max_source_fraction_denominator).

Definition _same_identity (left right : SelectedPacketLocator) : bool :=
  bool_decide ((left.(spl_source_kind), left.(spl_source_id), left.(spl_object_key),
                left.(spl_source_version_id), left.(spl_parent_structural_build_id)) =
               (right.(spl_source_kind), right.(spl_source_id), right.(spl_object_key),
                right.(spl_source_version_id), right.(spl_parent_structural_build_id))).

(** [(source_order, data_offset, packet_index)], the sort key. *)
Definition locator_key (l : SelectedPacketLocator) : Z * Z * Z :=
  (l.(spl_source_order), l.(spl_data_offset), l.(spl_packet_index)).

(** Tuples compare lexicographically. *)
Definition triple_leb (a b : Z * Z * Z) : bool :=
  let '(a1, a2, a3) := a in
  let '(b1, b2, b3) := b in
  (a1 <? b1) || ((a1 =? b1) && ((a2 <? b2) || ((a2 =? b2) && (a3 <=? b3)))).

Definition locator_leb (a b : SelectedPacketLocator) : bool :=
  triple_leb (locator_key a) (locator_key b).

(** [(source_kind, source_id, source_version_id)] *)
Definition identity_key (l : SelectedPacketLocator) : string * string * string :=
  (source_kind_value l.(spl_source_kind), l.(spl_source_id), l.(spl_source_version_id)).

Definition locator_identity (l : SelectedPacketLocator) : string * Z * string * string * Z :=
  (l.(spl_object_key), l.(spl_source_size_bytes), l.(spl_source_sha256),
   l.(spl_parent_structural_build_id), l.(spl_source_order)).

Definition range_key (r : CoalescedRange) : string * string * string :=
  (source_kind_value r.(cr_source_kind), r.(cr_source_id), r.(cr_source_version_id)).

(** The loop state: the two dictionaries, [previous] and [ranges], the last
    range first. *)
Record PlanState : Type := mk_plan_state {
  ps_source_identities : gmap (string * string * string) (string * Z * string * string * Z);
  ps_orders : gmap Z (string * string * string);
  ps_previous : option SelectedPacketLocator;
  ps_ranges : list CoalescedRange;
}.

Section plan.
Context (limits : SourceRangePlanLimits).

(** [can_join]: [item] goes on in the current range. *)
Definition can_join (st : PlanState) (item : SelectedPacketLocator) : bool :=
  match st.(ps_ranges), st.(ps_previous) with
  | current :: _, Some previous =>
      _same_identity previous item &&
      (let current_end := current.(cr_offset) + current.(cr_length) in
       let gap := item.(spl_data_offset) - current_end in
       let span := item.(spl_data_offset) + item.(spl_captured_length) - current.(cr_offset) in
       (item.(spl_packet_index) =? previous.(spl_packet_index) + 1) && (0 <=? gap)
       && (gap <=? limits.(srl_max_gap_bytes)) && (span <=? limits.(srl_max_range_bytes))
       && bool_decide (current.(cr_source_id) = item.(spl_source_id))
       && bool_decide (current.(cr_source_version_id) = item.(spl_source_version_id)))
  | _, _ => false
  end.

Definition packet_slice (item : SelectedPacketLocator) : PacketRangeSlice :=
  mk_slice item.(spl_packet_index) item.(spl_data_offset) item.(spl_captured_length).

Definition extend_range (current : CoalescedRange) (item : SelectedPacketLocator) : CoalescedRange :=
  mk_range current.(cr_source_kind) current.(cr_source_id) current.(cr_object_key)
    current.(cr_source_version_id) current.(cr_parent_structural_build_id) current.(cr_offset)
    (item.(spl_data_offset) + item.(spl_captured_length) - current.(cr_offset))
    (current.(cr_packet_slices) ++ [packet_slice item]).

Definition new_range (item : SelectedPacketLocator) : CoalescedRange :=
  mk_range item.(spl_source_kind) item.(spl_source_id) item.(spl_object_key)
    item.(spl_source_version_id) item.(spl_parent_structural_build_id) item.(spl_data_offset)
    item.(spl_captured_length) [packet_slice item].

Definition add_range (st : PlanState) (item : SelectedPacketLocator) : list CoalescedRange :=
  match st.(ps_ranges) with
  | current :: rest =>
      if can_join st item then extend_range current item :: rest else new_range item :: current :: rest
  | [] => [new_range item]
  end.

(** The body of the loop over the ordered locators. *)
Definition plan_item (st : PlanState) (item : SelectedPacketLocator) : res PlanState :=
  let key := identity_key item in
  let identity := locator_identity item in
  let known := default identity (st.(ps_source_identities) !! key) in
  _ ← raise_if (negb (bool_decide (known = identity))) IndexedLocatorError;
  let owner := default key (st.(ps_orders) !! item.(spl_source_order)) in
  _ ← raise_if (negb (bool_decide (owner = key))) IndexedLocatorError;
  _ ← raise_if ((item.(spl_data_offset) <? 0) || (_MAX_I64 <? item.(spl_data_offset))
                || (item.(spl_captured_length) <? 0) || (_MAX_I64 <? item.(spl_captured_length))
                || (item.(spl_source_size_bytes) <? item.(spl_data_offset) + item.(spl_captured_length)))
        IndexedLocatorError;
  let identities := <[key := known]> st.(ps_source_identities) in
  let orders := <[item.(spl_source_order) := owner]> st.(ps_orders) in
  if item.(spl_captured_length) =? 0 then
    Ok (mk_plan_state identities orders (Some item) st.(ps_ranges))
  else
    _ ← raise_if (limits.(srl_max_range_bytes) <? item.(spl_captured_length)) (fallback RESOURCE_LIMIT);
    Ok (mk_plan_state identities orders (Some item) (add_range st item)).

Fixpoint plan_items (st : PlanState) (items : list SelectedPacketLocator) : res PlanState :=
  match items with
  | [] => Ok st
  | item :: items' => st' ← plan_item st item; plan_items st' items'
  end.

Definition fetched_by_source (ranges : list CoalescedRange) : gmap (string * string * string) Z :=
  fold_left (fun m r => <[range_key r := default 0 (m !! range_key r) + r.(cr_length)]> m) ranges ∅.

Definition source_sizes (items : list SelectedPacketLocator) : gmap (string * string * string) Z :=
  fold_left (fun m l => <[identity_key l := l.(spl_source_size_bytes)]> m) items ∅.

(** A source whose ranges are all of it, or more than the allowed share. *)
Definition fetches_too_much (sizes : gmap (string * string * string) Z)
    (entry : (string * string * string) * Z) : bool :=
  let size := default 0 (sizes !! entry.1) in
  (size <=? entry.2) || (size * limits.(srl_max_source_fraction_numerator)
                         <? entry.2 * limits.(srl_max_source_fraction_denominator)).

Definition packet_identity (l : SelectedPacketLocator) : (string * string * string) * Z :=
  (identity_key l, l.(spl_packet_index)).

Definition plan_source_packet_ranges (locators : list SelectedPacketLocator) : res RangePlan :=
  let ordered := sort_by locator_leb locators in
  _ ← raise_if (negb (bool_decide (NoDup (packet_identity <$> ordered)))) IndexedLocatorError;
  st ← plan_items (mk_plan_state ∅ ∅ None []) ordered;
  let ranges := rev st.(ps_ranges) in
  _ ← raise_if (existsb (fetches_too_much (source_sizes ordered)) (map_to_list (fetched_by_source ranges)))
        (fallback RESOURCE_LIMIT);
  Ok (mk_range_plan ranges (sumZ spl_captured_length ordered) (sumZ cr_length ranges)).
End plan.

Definition _validate_request_range_totals (range_count fetched_bytes selected_payload_bytes : Z)
    (limits : RangePlanLimits) : res unit :=
  _ ← raise_if ((limits.(rpl_max_ranges) <? range_count)
                || (limits.(rpl_max_total_fetched_bytes) <? fetched_bytes)) (fallback RESOURCE_LIMIT);
  if selected_payload_bytes =? 0 then
    raise_if (negb (fetched_bytes =? 0)) (fallback RESOURCE_LIMIT)
  else
    raise_if (selected_payload_bytes * limits.(rpl_max_amplification_numerator)
              <? fetched_bytes * limits.(rpl_max_amplification_denominator)) (fallback RESOURCE_LIMIT).

Definition plan_packet_ranges (locators : list SelectedPacketLocator) (limits : RangePlanLimits)
    : res RangePlan :=
  plan ← plan_source_packet_ranges (_source_range_limits limits) locators;
  _ ← _validate_request_range_totals (zlen plan.(rp_ranges)) plan.(rp_fetched_bytes)
        plan.(rp_selected_payload_bytes) limits;
  Ok plan.

(** ** The exactness check *)

(** [observed] and [intervals] of the loop. *)
Record ExactState : Type := mk_exact {
  ex_observed : gmap Z (Z * Z);
  ex_intervals : gmap (string * string * string) (list (Z * Z));
}.

Definition observe_slice (r : CoalescedRange) (st : ExactState) (s : PacketRangeSlice)
    : res ExactState :=
  let slice_end := s.(prs_data_offset) + s.(prs_captured_length) in
  _ ← raise_if (bool_decide (is_Some (st.(ex_observed) !! s.(prs_packet_index)))
                || (s.(prs_captured_length) <=? 0) || (s.(prs_data_offset) <? r.(cr_offset))
                || (r.(cr_offset) + r.(cr_length) <? slice_end)) (fallback INDEX_CORRUPT);
  Ok (mk_exact
        (<[s.(prs_packet_index) := (s.(prs_data_offset), s.(prs_captured_length))]> st.(ex_observed))
        (<[range_key r := default [] (st.(ex_intervals) !! range_key r)
                          ++ [(s.(prs_data_offset), slice_end)]]> st.(ex_intervals))).

Fixpoint observe_slices (r : CoalescedRange) (st : ExactState) (slices : list PacketRangeSlice)
    : res ExactState :=
  match slices with
  | [] => Ok st
  | s :: slices' => st' ← observe_slice r st s; observe_slices r st' slices'
  end.

Fixpoint observe_ranges (st : ExactState) (ranges : list CoalescedRange) : res ExactState :=
  match ranges with
  | [] => Ok st
  | r :: ranges' => st' ← observe_slices r st r.(cr_packet_slices); observe_ranges st' ranges'
  end.

Definition pair_lexb (a b : Z * Z) : bool := (a.1 <? b.1) || ((a.1 =? b.1) && (a.2 <=? b.2)).

(** [any(current_start < previous_end ...)] over neighbours. *)
Fixpoint intervals_overlap (l : list (Z * Z)) : bool :=
  match l with
  | a :: (b :: _) as l' => (b.1 <? a.2) || intervals_overlap l'
  | _ => false
  end.

Definition expected_slices (locators : list SelectedPacketLocator) : gmap Z (Z * Z) :=
  fold_left (fun m l => <[l.(spl_packet_index) := (l.(spl_data_offset), l.(spl_captured_length))]> m)
    (filter (fun l => 0 < l.(spl_captured_length)) locators) ∅.

Definition _validate_exact_range_plan (plan : RangePlan) (locators : list SelectedPacketLocator)
    : res unit :=
  st ← observe_ranges (mk_exact ∅ ∅) plan.(rp_ranges);
  _ ← raise_if (negb (bool_decide (st.(ex_observed) = expected_slices locators))) (fallback INDEX_CORRUPT);
  raise_if (existsb (fun entry => intervals_overlap (sort_by pair_lexb entry.2))
              (map_to_list st.(ex_intervals))) (fallback INDEX_CORRUPT).
