(* ===== verification/PlanProofs.v ===== *)
(** * PlanProofs

    The planner of [IndexedPlan]: locators taken from a valid snapshot are in
    order and apart, and the ranges planned for them cover exactly their bytes. *)

From Stdlib Require Import String.
From S2P Require Import Prelude Bytes Samples Reader CaptureFormat StructuralIndex StructuralProofs.
From S2P Require Import ExportDecoder PyFloat PostingBuild OffsetIndex OffsetProofs IndexedPlan.
#[local] Open Scope Z_scope.

(** ** Locating *)

Lemma strictly_increasing_spec l : strictly_increasing l = true -> StronglySorted Z.lt l.
Proof.
  intros H. apply Sorted_StronglySorted; [intros x y z; lia|].
  induction l as [|x [|y l] IH]; [constructor|constructor; constructor|].
  cbn [strictly_increasing] in H. apply andb_prop in H as [Hxy%Z.ltb_lt H].
  constructor; [by apply IH|by constructor].
Qed.

Lemma ordinal_interfaces_lookup interfaces k i :
  sie_interface_ordinal <$> interfaces = seqZ 0 (zlen interfaces) ->
  interfaces !! k = Some i -> ordinal_interfaces interfaces !! Z.of_nat k = Some i.
Proof.
  intros Ho Hk. unfold ordinal_interfaces. rewrite <- (ordinals_lookup _ _ _ Ho Hk).
  apply fold_insert_lookup; [rewrite Ho; apply NoDup_seqZ|by eapply list_elem_of_lookup_2].
Qed.

Section locating.
Context (source : CaptureSourceVersion) (snapshot : StructuralIndexSnapshot) (source_order : Z).

(** The locator of a packet of the snapshot. *)
Definition located_as (p : StructuralPacketEntry) (l : SelectedPacketLocator) : Prop :=
  exists i, snapshot.(sis_interfaces) !! Z.to_nat p.(spe_interface_ordinal) = Some i /\
    l = mk_selected source.(csv_source_kind) source.(csv_source_id) source.(csv_object_key)
          source.(csv_source_version_id) source.(csv_source_size_bytes) source.(csv_source_sha256)
          snapshot.(sis_build_id) source_order p.(spe_packet_index) p.(spe_record_offset)
          p.(spe_data_offset) p.(spe_captured_length) p.(spe_original_length)
          p.(spe_framed_length) p.(spe_raw_timestamp_ticks) (capture_interface_of i).

Hypothesis valid : snapshot_valid snapshot.

Lemma locate_packet_spec k p :
  snapshot.(sis_packets) !! k = Some p ->
  exists l, locate_packet source snapshot source_order (ordinal_interfaces snapshot.(sis_interfaces)) (Z.of_nat k)
    = Ok l /\ located_as p l.
Proof.
  intros Hk. unfold locate_packet. rewrite Nat2Z.id, Hk, (sv_index _ valid _ _ Hk), Z.eqb_refl. simpl.
  destruct (valid_packet_interface _ _ valid (list_elem_of_lookup_2 _ _ _ Hk)) as (i & Hi & Hkey & _).
  unfold interface_index_key in Hkey. injection Hkey as Hs Hid Ho.
  pose proof (ordinal_interfaces_lookup _ _ _ (sv_ordinals _ valid) Hi) as Hl.
  rewrite (ordinals_lookup _ _ _ (sv_ordinals _ valid) Hi) in Ho. rewrite Ho in Hl. rewrite Hl, Hs, Hid, !Z.eqb_refl.
  simpl. eexists. split; [reflexivity|]. exists i. split; [done|]. by rewrite (sv_index _ valid _ _ Hk).
Qed.

(** The packets that are located: selected and below the admitted count. *)
Definition chosen (admitted : Z) (ordinals : list Z) : list StructuralPacketEntry :=
  omap (fun o => if admitted <=? o then None else snapshot.(sis_packets) !! Z.to_nat o) ordinals.

Lemma locate_packets_spec admitted ordinals :
  Forall (fun o => 0 <= o < zlen snapshot.(sis_packets)) ordinals ->
  exists located, locate_packets source snapshot source_order
      (ordinal_interfaces snapshot.(sis_interfaces)) admitted ordinals = Ok located /\
    Forall2 located_as (chosen admitted ordinals) located.
Proof.
  unfold chosen. induction 1 as [|o ordinals Ho _ (located & IH & Hf)]; cbn [locate_packets omap list_omap].
  - by exists [].
  - destruct (Z.leb_spec admitted o); [by exists located|].
    destruct (lookup_lt_is_Some_2 (sis_packets snapshot) (Z.to_nat o)) as [p Hp]; [unfold zlen in Ho; lia|].
    destruct (locate_packet_spec _ _ Hp) as (l & Hl & Hla). rewrite Z2Nat.id in Hl by lia.
    rewrite Hl, IH, Hp. simpl. exists (l :: located). split; [done|]. by constructor.
Qed.

(** One source identity for all of them. *)
Definition of_source (l : SelectedPacketLocator) : Prop :=
  l.(spl_source_kind) = source.(csv_source_kind) /\ l.(spl_source_id) = source.(csv_source_id) /\
  l.(spl_object_key) = source.(csv_object_key) /\
  l.(spl_source_version_id) = source.(csv_source_version_id) /\
  l.(spl_source_size_bytes) = source.(csv_source_size_bytes) /\
  l.(spl_source_sha256) = source.(csv_source_sha256) /\
  l.(spl_parent_structural_build_id) = snapshot.(sis_build_id) /\ l.(spl_source_order) = source_order /\
  0 <= l.(spl_data_offset) <= _MAX_I64 /\ 0 <= l.(spl_captured_length) <= _MAX_I64 /\
  l.(spl_data_offset) + l.(spl_captured_length) <= source.(csv_source_size_bytes).

Definition locator_before (a b : SelectedPacketLocator) : Prop :=
  a.(spl_data_offset) + a.(spl_captured_length) <= b.(spl_data_offset) /\
  a.(spl_data_offset) < b.(spl_data_offset) /\ a.(spl_packet_index) < b.(spl_packet_index).

Lemma chosen_lookup admitted ordinals p :
  p ∈ chosen admitted ordinals -> p ∈ snapshot.(sis_packets).
Proof.
  unfold chosen. rewrite list_elem_of_omap. intros (o & _ & Ho). destruct (admitted <=? o); [done|].
  by eapply list_elem_of_lookup_2.
Qed.

Lemma sorted_lookup_packets k1 k2 p q :
  (k1 < k2)%nat -> snapshot.(sis_packets) !! k1 = Some p -> snapshot.(sis_packets) !! k2 = Some q -> packet_before p q.
Proof.
  intros Hlt Hp Hq. pose proof (sv_order _ valid) as Hs.
  rewrite <- (take_drop_middle _ _ _ Hp) in Hs. apply StronglySorted_app in Hs as (_ & _ & Hs).
  apply StronglySorted_inv in Hs as [_ Hs]. rewrite Forall_forall in Hs. apply Hs.
  apply list_elem_of_lookup. exists (k2 - S k1)%nat. rewrite lookup_drop. by replace (S k1 + (k2 - S k1))%nat with k2 by lia.
Qed.

Lemma chosen_sorted admitted ordinals :
  StronglySorted Z.lt ordinals -> Forall (fun o => 0 <= o) ordinals ->
  StronglySorted (fun p q => packet_before p q /\ p.(spe_packet_index) < q.(spe_packet_index)) (chosen admitted ordinals).
Proof.
  unfold chosen. induction 1 as [|o ordinals Hs IH Hall]; intros Hpos; cbn [omap list_omap]; [constructor|].
  apply Forall_cons in Hpos as [Ho Hpos]. destruct (admitted <=? o); [by apply IH|].
  destruct (sis_packets snapshot !! Z.to_nat o) as [p|] eqn:Hp; [|by apply IH]. constructor; [by apply IH|].
  apply Forall_forall. intros q (o' & Ho' & Hq)%list_elem_of_omap. destruct (admitted <=? o'); [done|].
  rewrite Forall_forall in Hall. specialize (Hall o' Ho').
  split; [eapply (sorted_lookup_packets (Z.to_nat o) (Z.to_nat o')); [lia|done|done]|].
  rewrite (sv_index _ valid _ _ Hp), (sv_index _ valid _ _ Hq). lia.
Qed.

Hypothesis bound : snapshot.(sis_binding).(sib_source_size_bytes) = source.(csv_source_size_bytes).

Lemma located_of_source p l : p ∈ snapshot.(sis_packets) -> located_as p l -> of_source l.
Proof.
  intros Hp (i & _ & ->). pose proof (proj1 (Forall_forall _ _) (sv_packets _ valid) p Hp) as [_ Hv He Hd _ _].
  apply packet_values_spec in Hv. unfold of_source; simpl. rewrite <- bound. repeat split; lia.
Qed.

Lemma framing_header fmt p : packet_framing_ok fmt p = true -> p.(spe_record_offset) < p.(spe_data_offset).
Proof. unfold packet_framing_ok. cbv zeta. destruct fmt; rewrite !andb_true_iff, ?Z.eqb_eq; lia. Qed.

Lemma located_before p q l l' :
  p ∈ snapshot.(sis_packets) -> q ∈ snapshot.(sis_packets) ->
  packet_before p q /\ p.(spe_packet_index) < q.(spe_packet_index) ->
  located_as p l -> located_as q l' -> locator_before l l'.
Proof.
  intros Hp Hq [Hb Hi] (i & _ & ->) (j & _ & ->).
  pose proof (proj1 (Forall_forall _ _) (sv_packets _ valid) p Hp) as [_ Hv _ Hd _ _].
  pose proof (proj1 (Forall_forall _ _) (sv_packets _ valid) q Hq) as [_ _ _ _ _ Hf].
  apply packet_values_spec in Hv. apply framing_header in Hf. unfold locator_before, packet_before in *. simpl. lia.
Qed.

Lemma located_sorted ps ls :
  ps ⊆ snapshot.(sis_packets) ->
  StronglySorted (fun p q => packet_before p q /\ p.(spe_packet_index) < q.(spe_packet_index)) ps ->
  Forall2 located_as ps ls -> StronglySorted locator_before ls /\ Forall of_source ls.
Proof.
  intros Hsub Hs Hf. revert Hsub Hs. induction Hf as [|p l ps ls Hpl Hf IH]; intros Hsub Hs.
  - split; constructor.
  - apply StronglySorted_inv in Hs as [Hs Hall]. destruct IH as [IH1 IH2]; [set_solver|done|].
    split; constructor; [done| |eapply located_of_source; [|done]; set_solver|done].
    apply Forall_forall. intros l' [k Hk]%list_elem_of_lookup.
    destruct (Forall2_lookup_r _ _ _ _ _ Hf Hk) as (q & Hq%list_elem_of_lookup_2 & Hql).
    rewrite Forall_forall in Hall. eapply (located_before p q); [set_solver|set_solver|by apply Hall|done|done].
Qed.
End locating.

Lemma ordinals_in_range ordinals n :
  StronglySorted Z.lt ordinals ->
  match head ordinals, last ordinals with
  | Some first, Some final => (first <? 0) || (n <=? final)
  | _, _ => false
  end = false -> Forall (fun o => 0 <= o < n) ordinals.
Proof.
  intros Hs Hm. destruct ordinals as [|o ordinals]; [constructor|]. simpl head in Hm.
  destruct (last (o :: ordinals)) as [final|] eqn:Hl; [|by apply last_None in Hl].
  assert (Forall (fun o => o <= final) (o :: ordinals)) as Hf.
  { apply last_Some in Hl as [pre Hpre]. rewrite Hpre in *. apply Forall_forall. intros x [Hx|Hx]%elem_of_app; [|set_solver by lia].
    apply StronglySorted_app in Hs as (Hs & _). specialize (Hs x final Hx). set_solver by lia. }
  apply StronglySorted_inv in Hs as [_ Hall]. apply Forall_forall. intros x Hx.
  rewrite Forall_forall in Hf, Hall. pose proof (Hf x Hx). cbn in Hm.
  apply elem_of_cons in Hx as [->|Hx]; [lia|]. specialize (Hall x Hx). lia.
Qed.

(** What a selection that is located is made of. *)
Record located_selection (source : CaptureSourceVersion) (snapshot : StructuralIndexSnapshot) (source_order : Z)
    (ordinals : list Z) (budget packet_limit : Z) (located : LocatedPacketSelection) : Prop := {
  ls_valid : snapshot_valid snapshot;
  ls_binds : binds snapshot.(sis_binding) source = true;
  ls_ordinals : StronglySorted Z.lt ordinals;
  ls_range : Forall (fun o => 0 <= o < zlen snapshot.(sis_packets)) ordinals;
  ls_prefix : admitted_prefix source snapshot budget packet_limit =
    Ok (located.(lps_admitted_packet_count), located.(lps_scanned_bytes),
        located.(lps_byte_limited), located.(lps_packet_limited));
  ls_locators : Forall2 (located_as source snapshot source_order)
    (chosen snapshot located.(lps_admitted_packet_count) ordinals) located.(lps_locators);
}.

Lemma locate_selected_spec sha256_hex source snapshot source_order build ordinals budget packet_limit located :
  locate_selected_packets source snapshot source_order sha256_hex build ordinals budget packet_limit = Ok located ->
  located_selection source snapshot source_order ordinals budget packet_limit located.
Proof.
  unfold locate_selected_packets, _validate_snapshot_binding. intros H. inv_bind. destruct x3 as [[[a sc] bl] pl].
  rewrite !orb_false_iff, !negb_false_iff in *. destruct_and!.
  assert (snapshot_valid snapshot) as Hv by (by eapply validate_snapshot_valid).
  assert (StronglySorted Z.lt ordinals) as Hs by (by apply strictly_increasing_spec).
  pose proof (ordinals_in_range _ _ Hs H2) as Hr.
  destruct (locate_packets_spec source snapshot source_order Hv a ordinals Hr) as (ls & Hls & Hf).
  rewrite Hls in H4. injection H4 as <-. by constructor.
Qed.

(** The locators are in file order, apart and inside the source. *)
Lemma located_selection_sorted source snapshot source_order ordinals budget packet_limit located :
  located_selection source snapshot source_order ordinals budget packet_limit located ->
  StronglySorted locator_before located.(lps_locators) /\
  Forall (of_source source snapshot source_order) located.(lps_locators).
Proof.
  intros [Hv Hb Hs Hr _ Hf]. eapply located_sorted; [done| | | |exact Hf].
  - unfold binds in Hb. rewrite !andb_true_iff in Hb. lia.
  - intros p. apply chosen_lookup.
  - apply chosen_sorted; [done..|]. eapply Forall_impl; [exact Hr|]. simpl. lia.
Qed.

(** ** Planning *)

Definition range_end (r : CoalescedRange) : Z := r.(cr_offset) + r.(cr_length).
Definition slice_end (s : PacketRangeSlice) : Z := s.(prs_data_offset) + s.(prs_captured_length).
Definition nonempty (l : SelectedPacketLocator) : Prop := 0 < l.(spl_captured_length).
#[export] Instance nonempty_dec l : Decision (nonempty l) := decide (0 < l.(spl_captured_length)).

Section planning.
Context (limits : SourceRangePlanLimits).

(** A range is cut out between its first and its last slice; what it fetches on
    top of its slices are gaps of bounded size. *)
Record range_wf (r : CoalescedRange) : Prop := {
  rw_first : exists s ss, r.(cr_packet_slices) = s :: ss /\ s.(prs_data_offset) = r.(cr_offset);
  rw_last : exists s ss, r.(cr_packet_slices) = ss ++ [s] /\ slice_end s = range_end r;
  rw_slices : Forall (fun s => r.(cr_offset) <= s.(prs_data_offset) /\ 0 < s.(prs_captured_length) /\
                               slice_end s <= range_end r) r.(cr_packet_slices);
  rw_length : 0 < r.(cr_length) <= limits.(srl_max_range_bytes);
  rw_gaps : sumZ prs_captured_length r.(cr_packet_slices) <= r.(cr_length)
    <= sumZ prs_captured_length r.(cr_packet_slices)
       + limits.(srl_max_gap_bytes) * (zlen r.(cr_packet_slices) - 1);
}.

Context (source : CaptureSourceVersion) (snapshot : StructuralIndexSnapshot) (order : Z).
#[local] Abbreviation build := (sis_build_id snapshot).

Definition range_of_source (r : CoalescedRange) : Prop :=
  r.(cr_source_kind) = source.(csv_source_kind) /\ r.(cr_source_id) = source.(csv_source_id) /\
  r.(cr_object_key) = source.(csv_object_key) /\
  r.(cr_source_version_id) = source.(csv_source_version_id) /\
  r.(cr_parent_structural_build_id) = build.

Definition source_key : string * string * string :=
  (source_kind_value source.(csv_source_kind), source.(csv_source_id), source.(csv_source_version_id)).
Definition source_identity : string * Z * string * string * Z :=
  (source.(csv_object_key), source.(csv_source_size_bytes), source.(csv_source_sha256), build, order).

(** The loop after [seen]: every later locator starts at or after [pos]. *)
Record plan_inv (pos : Z) (seen : list SelectedPacketLocator) (st : PlanState) : Prop := {
  pi_identity : forall v, st.(ps_source_identities) !! source_key = Some v -> v = source_identity;
  pi_owner : forall v, st.(ps_orders) !! order = Some v -> v = source_key;
  pi_slices : concat (cr_packet_slices <$> rev st.(ps_ranges)) = packet_slice <$> filter nonempty seen;
  pi_ranges : Forall (fun r => range_wf r /\ range_of_source r /\
    0 <= r.(cr_offset) /\ range_end r <= Z.min pos source.(csv_source_size_bytes)) st.(ps_ranges);
  pi_order : StronglySorted (fun b a => range_end a <= b.(cr_offset)) st.(ps_ranges);
}.

Lemma new_range_wf item :
  nonempty item -> item.(spl_captured_length) <= limits.(srl_max_range_bytes) -> range_wf (new_range item).
Proof.
  unfold nonempty. intros Hn Hm. constructor; unfold slice_end, range_end; simpl.
  - by eexists _, _.
  - by eexists _, [].
  - repeat constructor; simpl; lia.
  - lia.
  - unfold sumZ, zlen; simpl. lia.
Qed.

Lemma extend_range_wf r item :
  nonempty item -> range_wf r -> 0 <= item.(spl_data_offset) - range_end r <= limits.(srl_max_gap_bytes) ->
  item.(spl_data_offset) + item.(spl_captured_length) - r.(cr_offset) <= limits.(srl_max_range_bytes) ->
  range_wf (extend_range r item).
Proof.
  unfold nonempty. intros Hn [(s & ss & Hs & Hf) _ Hall Hlen Hgap] Hg Hm. unfold range_end in *.
  constructor; unfold slice_end, range_end; simpl.
  - rewrite Hs. by eexists _, _.
  - eexists _, _. split; [done|]. simpl. lia.
  - apply Forall_app. split; [|repeat constructor; simpl; lia].
    eapply Forall_impl; [exact Hall|]. unfold slice_end. simpl. lia.
  - lia.
  - rewrite sumZ_app, zlen_app. unfold sumZ at 2 4, zlen at 2. simpl. nia.
Qed.

Lemma pi_weaken pos pos' seen st : pos <= pos' -> plan_inv pos seen st -> plan_inv pos' seen st.
Proof.
  intros Hp [H1 H2 H3 H4 H5]. split; try done. eapply Forall_impl; [exact H4|]. simpl.
  intros r (? & ? & ? & ?). split_and!; try done. lia.
Qed.

(** Appending an item's range, whether it joins the last one or not. *)
Lemma add_range_inv pos seen st item :
  nonempty item -> of_source source snapshot order item -> pos <= item.(spl_data_offset) ->
  item.(spl_captured_length) <= limits.(srl_max_range_bytes) -> plan_inv pos seen st ->
  let ranges := add_range limits st item in
  concat (cr_packet_slices <$> rev ranges) = packet_slice <$> filter nonempty (seen ++ [item]) /\
  Forall (fun r => range_wf r /\ range_of_source r /\ 0 <= r.(cr_offset) /\
    range_end r <= Z.min (item.(spl_data_offset) + item.(spl_captured_length)) source.(csv_source_size_bytes)) ranges /\
  StronglySorted (fun b a => range_end a <= b.(cr_offset)) ranges.
Proof.
  intros Hn Hof Hpos Hm [_ _ Hsl Hr Ho]. cbv zeta.
  assert (range_wf (new_range item)) as Hnew by (by apply new_range_wf).
  unfold of_source in Hof. unfold nonempty in Hn.
  assert (packet_slice <$> filter nonempty (seen ++ [item])
    = (packet_slice <$> filter nonempty seen) ++ [packet_slice item]) as Hfl
    by (rewrite filter_app, fmap_app, filter_cons_True by done; done).
  rewrite Hfl, <- Hsl. clear Hfl.
  assert (forall rs, rs = ps_ranges st ->
    Forall (fun r => range_wf r /\ range_of_source r /\ 0 <= r.(cr_offset) /\
      range_end r <= Z.min (item.(spl_data_offset) + item.(spl_captured_length)) source.(csv_source_size_bytes)) rs)
    as Hold. { intros rs ->. eapply Forall_impl; [exact Hr|]. simpl. intros r (? & ? & ? & ?). split_and!; try done; lia. }
  assert (range_of_source (new_range item)) as Hns by (unfold range_of_source; simpl; tauto).
  unfold add_range. destruct (ps_ranges st) as [|current rest] eqn:Hps; [|destruct (can_join limits st item) eqn:Hj].
  - split_and!; [done| |repeat constructor]. constructor; [|constructor]. unfold range_end; simpl. split_and!; done || lia.
  - unfold can_join in Hj. rewrite Hps in Hj. destruct (ps_previous st) as [previous|]; [|done].
    rewrite !andb_true_iff, !Z.leb_le in Hj. destruct Hj as [_ [[[[[_ Hg1] Hg2] Hsp] _] _]].
    apply Forall_cons in Hr as [(Hw & Hcs & Hc0 & Hce) Hr]. apply StronglySorted_inv in Ho as [Ho Hfa].
    unfold range_end in Hce. split; [|split].
    + cbn [rev]. rewrite !fmap_app, !concat_app. simpl. by rewrite !app_nil_r, app_assoc.
    + specialize (Hold _ eq_refl). apply Forall_cons in Hold as [_ Hold]. constructor; [|done].
      split; [by apply extend_range_wf|]. unfold range_end in *; simpl. split_and!; (apply Hcs || lia).
    + constructor; done.
  - split; [|split].
    + cbn [rev]. rewrite !fmap_app, !concat_app. simpl. by rewrite !app_nil_r.
    + constructor; [|by apply Hold]. unfold range_end; simpl. split_and!; done || lia.
    + constructor; [done|]. eapply Forall_impl; [exact Hr|]. simpl. intros r (_ & _ & _ & ?). unfold range_end in *. lia.
Qed.

(** One item of the source: it is planned, or it alone is larger than a range. *)
Lemma plan_item_step pos seen st item :
  of_source source snapshot order item -> pos <= item.(spl_data_offset) -> plan_inv pos seen st ->
  if decide (item.(spl_captured_length) <= limits.(srl_max_range_bytes))
  then exists st', plan_item limits st item = Ok st' /\
    plan_inv (item.(spl_data_offset) + item.(spl_captured_length)) (seen ++ [item]) st'
  else 0 < item.(spl_captured_length) -> plan_item limits st item = Err (fallback RESOURCE_LIMIT).
Proof.
  intros Hof Hpos Hinv. pose proof Hinv as [Hi Ho Hsl Hr Hord].
  pose proof (add_range_inv pos seen st item) as Hadd.
  pose proof Hof as (Hk & Hid & Hok & Hv & Hsz & Hsh & Hb & Hor & Hd & Hc & He).
  assert (identity_key item = source_key) as Hkey by (unfold identity_key, source_key; congruence).
  assert (locator_identity item = source_identity) as Hident
    by (unfold locator_identity, source_identity; congruence).
  assert (plan_item limits st item = if item.(spl_captured_length) =? 0
    then Ok (mk_plan_state (<[source_key := source_identity]> st.(ps_source_identities))
               (<[order := source_key]> st.(ps_orders)) (Some item) st.(ps_ranges))
    else (_ ← raise_if (limits.(srl_max_range_bytes) <? item.(spl_captured_length)) (fallback RESOURCE_LIMIT);
          Ok (mk_plan_state (<[source_key := source_identity]> st.(ps_source_identities))
               (<[order := source_key]> st.(ps_orders)) (Some item) (add_range limits st item)))) as ->.
  { unfold plan_item. rewrite Hkey, Hident, Hor.
    assert (default source_identity (ps_source_identities st !! source_key) = source_identity) as ->
      by (destruct (ps_source_identities st !! source_key) eqn:E; [by apply Hi|done]).
    assert (default source_key (ps_orders st !! order) = source_key) as ->
      by (destruct (ps_orders st !! order) eqn:E; [by apply Ho|done]).
    rewrite !bool_decide_true by done. cbn [negb raise_if mbind res_bind].
    replace (_ || _) with false by (symmetry; rewrite !orb_false_iff, !Z.ltb_ge; rewrite Hsz; lia). done. }
  destruct (decide _) as [Hm|Hm].
  - destruct (Z.eqb_spec (spl_captured_length item) 0) as [E|E].
    + eexists. split; [done|]. apply (pi_weaken pos); [lia|]. constructor; simpl.
      * rewrite lookup_insert_eq. congruence.
      * rewrite lookup_insert_eq. congruence.
      * rewrite filter_app, filter_cons_False by (unfold nonempty; lia). rewrite filter_nil, app_nil_r. done.
      * done.
      * done.
    + rewrite (proj2 (Z.ltb_ge _ _)) by done. simpl. eexists. split; [done|].
      destruct Hadd as (H1 & H2 & H3); [unfold nonempty; lia|done..|].
      constructor; simpl; [rewrite lookup_insert_eq; congruence..|done|done|done].
  - intros Hp. rewrite (proj2 (Z.eqb_neq _ _)), (proj2 (Z.ltb_lt _ _)) by lia. done.
Qed.

Hypothesis positive_range : 0 < limits.(srl_max_range_bytes).

Lemma plan_items_spec items : forall pos seen st,
  Forall (of_source source snapshot order) items -> StronglySorted locator_before items ->
  Forall (fun l => pos <= l.(spl_data_offset)) items -> plan_inv pos seen st ->
  (exists pos' st', plan_items limits st items = Ok st' /\ plan_inv pos' (seen ++ items) st') \/
  plan_items limits st items = Err (fallback RESOURCE_LIMIT).
Proof.
  induction items as [|item items IH]; intros pos seen st Hof Hs Hpos Hinv; cbn [plan_items].
  - left. exists pos, st. by rewrite app_nil_r.
  - apply Forall_cons in Hof as [Hi Hof]. apply StronglySorted_inv in Hs as [Hs Hb].
    apply Forall_cons in Hpos as [Hp _]. pose proof (plan_item_step _ _ _ _ Hi Hp Hinv) as Hstep.
    destruct (decide _) as [Hm|Hm]; [|right; rewrite Hstep by lia; done].
    destruct Hstep as (st' & -> & Hinv'). simpl. edestruct IH as [(pos' & st'' & Hst & Hi')|Hst]; eauto.
    + eapply Forall_impl; [exact Hb|]. by intros ? [? _].
    + left. exists pos', st''. by rewrite <- app_assoc in Hi'.
Qed.

Lemma plan_inv_start : plan_inv 0 [] (mk_plan_state ∅ ∅ None []).
Proof. constructor; simpl; try constructor; intros v; by rewrite lookup_empty. Qed.

(** Locators of one source in file order need no sorting and have one identity each. *)
Lemma locators_ordered items :
  Forall (of_source source snapshot order) items -> StronglySorted locator_before items ->
  sort_by locator_leb items = items.
Proof.
  intros Hof Hs. apply sort_by_sorted. induction Hs as [|l items Hs IH Hall]; [constructor|].
  apply Forall_cons in Hof as [Hl Hof]. constructor; [by apply IH|].
  apply Forall_forall. intros l' Hl'. rewrite Forall_forall in Hall, Hof.
  destruct (Hall _ Hl') as (_ & Hlt & _). destruct (Hof _ Hl') as (_ & _ & _ & _ & _ & _ & _ & Ho' & _).
  destruct Hl as (_ & _ & _ & _ & _ & _ & _ & Ho & _).
  unfold locator_leb, triple_leb, locator_key. rewrite Ho, Ho', Z.eqb_refl. lia.
Qed.

Lemma sorted_indices_NoDup items :
  StronglySorted locator_before items -> NoDup (spl_packet_index <$> items).
Proof.
  induction 1 as [|l items _ IH Hall]; [constructor|]. constructor; [|done].
  intros (l' & Heq & Hl')%list_elem_of_fmap. rewrite Forall_forall in Hall.
  destruct (Hall _ Hl') as (_ & _ & ?). lia.
Qed.

Lemma sorted_identities_NoDup items :
  StronglySorted locator_before items -> NoDup (packet_identity <$> items).
Proof.
  intros Hs%sorted_indices_NoDup. apply (NoDup_fmap_1 snd). by rewrite <- list_fmap_compose.
Qed.

(** What the ranges add to their slices. *)
Lemma ranges_total ranges :
  Forall range_wf ranges ->
  let slices := concat (cr_packet_slices <$> ranges) in
  sumZ prs_captured_length slices <= sumZ cr_length ranges
    <= sumZ prs_captured_length slices + limits.(srl_max_gap_bytes) * (zlen slices - zlen ranges).
Proof.
  cbv zeta. induction 1 as [|r ranges Hr _ IH]; [unfold sumZ, zlen; simpl; lia|].
  cbn [fmap list_fmap concat]. rewrite !sumZ_cons, !sumZ_app, zlen_app, zlen_cons.
  pose proof (rw_gaps _ Hr). lia.
Qed.

Lemma sum_nonempty items :
  Forall (fun l => 0 <= l.(spl_captured_length)) items ->
  sumZ prs_captured_length (packet_slice <$> filter nonempty items) = sumZ spl_captured_length items.
Proof.
  induction 1 as [|l items Hl _ IH]; [done|]. rewrite filter_cons, sumZ_cons.
  destruct (decide _) as [Hn|Hn]; [rewrite fmap_cons, sumZ_cons, IH; done|].
  unfold nonempty in Hn. rewrite IH. lia.
Qed.

Lemma range_key_source r : range_of_source r -> range_key r = source_key.
Proof. intros (? & ? & _ & ? & _). unfold range_key, source_key. congruence. Qed.

Lemma fetched_from ranges : forall n,
  Forall range_of_source ranges ->
  fold_left (fun m r => <[range_key r := default 0 (m !! range_key r) + r.(cr_length)]> m) ranges
    ({[source_key := n]} : gmap _ Z) = {[source_key := n + sumZ cr_length ranges]}.
Proof.
  induction ranges as [|r ranges IH]; intros n Hr; simpl; [f_equal; unfold sumZ; simpl; lia|].
  apply Forall_cons in Hr as [Hr%range_key_source Hrs].
  rewrite Hr, lookup_singleton_eq, insert_singleton_eq, IH by done.
  rewrite sumZ_cons. f_equal. simpl. lia.
Qed.

Lemma fetched_of_source ranges :
  Forall range_of_source ranges -> ranges <> [] ->
  fetched_by_source ranges = {[source_key := sumZ cr_length ranges]}.
Proof.
  intros Hr Hne. destruct ranges as [|r ranges]; [done|]. apply Forall_cons in Hr as [Hr%range_key_source Hrs].
  unfold fetched_by_source. simpl. rewrite Hr, lookup_empty. simpl. by rewrite insert_empty, fetched_from.
Qed.

Lemma source_sizes_lookup items :
  Forall (of_source source snapshot order) items -> items <> [] ->
  source_sizes items !! source_key = Some source.(csv_source_size_bytes).
Proof.
  intros Hof Hne. unfold source_sizes. generalize (∅ : gmap (string * string * string) Z) as m. revert Hof Hne.
  induction items as [|l items IH]; intros Hof Hne m; [done|].
  apply Forall_cons in Hof as [(Hk & Hi & _ & Hv & Hs & _) Hof]. destruct items as [|l' items]; [|by apply IH].
  simpl. unfold identity_key, source_key. rewrite Hk, Hi, Hv, Hs. apply lookup_insert_eq.
Qed.

(** The exactness check over the slices in order. *)
Definition observe_all (m : gmap Z (Z * Z)) (slices : list PacketRangeSlice) : gmap Z (Z * Z) :=
  fold_left (fun m s => <[s.(prs_packet_index) := (s.(prs_data_offset), s.(prs_captured_length))]> m) slices m.
Definition slice_interval (s : PacketRangeSlice) : Z * Z := (s.(prs_data_offset), slice_end s).

Definition intervals_are (m : gmap (string * string * string) (list (Z * Z))) (l : list (Z * Z)) : Prop :=
  (m = ∅ /\ l = []) \/ m = {[source_key := l]}.

Definition slice_inside (r : CoalescedRange) (s : PacketRangeSlice) : Prop :=
  r.(cr_offset) <= s.(prs_data_offset) /\ 0 < s.(prs_captured_length) /\ slice_end s <= range_end r.

Lemma observe_slice_spec r st seen s :
  range_of_source r -> intervals_are st.(ex_intervals) (slice_interval <$> seen) ->
  st.(ex_observed) !! s.(prs_packet_index) = None -> slice_inside r s ->
  exists st', observe_slice r st s = Ok st' /\ st'.(ex_observed) = observe_all st.(ex_observed) [s] /\
    intervals_are st'.(ex_intervals) (slice_interval <$> (seen ++ [s])).
Proof.
  intros Hr Hi Hnew (H1 & H2 & H3). unfold slice_end, range_end in *. unfold observe_slice.
  rewrite Hnew, bool_decide_false by (by intros [? ?]).
  replace (_ || _) with false by (symmetry; rewrite !orb_false_iff; lia). cbn [raise_if mbind res_bind].
  rewrite (range_key_source _ Hr). eexists. split; [done|]. split; [done|]. right. cbn [ex_intervals]. rewrite fmap_app.
  destruct Hi as [[-> ->]| ->]; [by rewrite lookup_empty, insert_empty|].
  by rewrite lookup_singleton_eq, insert_singleton_eq.
Qed.

(** Slices not yet observed: their indices are new and different. *)
Definition unobserved (m : gmap Z (Z * Z)) (slices : list PacketRangeSlice) : Prop :=
  NoDup (prs_packet_index <$> slices) /\ Forall (fun s => m !! s.(prs_packet_index) = None) slices.

Lemma unobserved_step m s slices :
  unobserved m (s :: slices) -> m !! s.(prs_packet_index) = None /\ unobserved (observe_all m [s]) slices.
Proof.
  intros [[Hn Hnd]%NoDup_cons [Hs Hall]%Forall_cons]. split; [done|]. split; [done|].
  apply Forall_forall. intros s' Hs'. rewrite Forall_forall in Hall. simpl.
  rewrite lookup_insert_ne; [by apply Hall|]. intros Heq. apply Hn. rewrite Heq.
  by apply list_elem_of_fmap_2.
Qed.

Lemma observe_slices_spec r slices : forall st seen rest,
  range_of_source r -> intervals_are st.(ex_intervals) (slice_interval <$> seen) ->
  unobserved st.(ex_observed) (slices ++ rest) -> Forall (slice_inside r) slices ->
  exists st', observe_slices r st slices = Ok st' /\ st'.(ex_observed) = observe_all st.(ex_observed) slices /\
    unobserved st'.(ex_observed) rest /\ intervals_are st'.(ex_intervals) (slice_interval <$> (seen ++ slices)).
Proof.
  induction slices as [|s slices IH]; intros st seen rest Hr Hi Hu Hin; cbn [observe_slices].
  - exists st. by rewrite app_nil_r.
  - apply Forall_cons in Hin as [Hs Hin]. apply unobserved_step in Hu as [Hn Hu].
    destruct (observe_slice_spec _ _ _ _ Hr Hi Hn Hs) as (st' & -> & Ho & Hi'). simpl. rewrite <- Ho in Hu.
    destruct (IH _ _ _ Hr Hi' Hu Hin) as (st'' & -> & Ho' & Hu' & Hi''). exists st''.
    split; [done|]. split; [by rewrite Ho', Ho|]. split; [done|]. by rewrite <- app_assoc in Hi''.
Qed.

Lemma observe_ranges_spec ranges : forall st seen,
  Forall (fun r => range_of_source r /\ Forall (slice_inside r) r.(cr_packet_slices)) ranges ->
  intervals_are st.(ex_intervals) (slice_interval <$> seen) ->
  unobserved st.(ex_observed) (concat (cr_packet_slices <$> ranges)) ->
  exists st', observe_ranges st ranges = Ok st' /\
    st'.(ex_observed) = observe_all st.(ex_observed) (concat (cr_packet_slices <$> ranges)) /\
    intervals_are st'.(ex_intervals) (slice_interval <$> (seen ++ concat (cr_packet_slices <$> ranges))).
Proof.
  induction ranges as [|r ranges IH]; intros st seen Hr Hi Hu; cbn [observe_ranges fmap list_fmap concat].
  - exists st. by rewrite app_nil_r.
  - apply Forall_cons in Hr as [[Hrs Hin] Hr].
    destruct (observe_slices_spec _ _ _ _ _ Hrs Hi Hu Hin) as (st' & -> & Ho & Hu' & Hi'). simpl.
    destruct (IH _ _ Hr Hi' Hu') as (st'' & -> & Ho' & Hi''). exists st''. split; [done|].
    rewrite Ho', Ho. unfold observe_all. rewrite fold_left_app. split; [done|]. by rewrite app_assoc.
Qed.

Lemma intervals_apart items :
  StronglySorted locator_before items -> Forall nonempty items ->
  let l := slice_interval <$> (packet_slice <$> items) in
  sort_by pair_lexb l = l /\ intervals_overlap l = false.
Proof.
  intros Hs Hn. cbv zeta. split.
  - apply sort_by_sorted. rewrite <- list_fmap_compose. eapply StronglySorted_fmap; [|exact Hs].
    intros a b (_ & ? & _). unfold pair_lexb. simpl. lia.
  - induction Hs as [|a items Hs IH Hall]; [done|]. apply Forall_cons in Hn as [_ Hn].
    destruct Hall as [|b items (H & _)]; [done|].
    change (((spl_data_offset b) <? spl_data_offset a + spl_captured_length a) ||
      intervals_overlap (slice_interval <$> (packet_slice <$> b :: items)) = false).
    rewrite (IH Hn). lia.
Qed.

Lemma expected_observed items :
  expected_slices items = observe_all ∅ (packet_slice <$> filter nonempty items).
Proof.
  unfold expected_slices, observe_all. change (filter (fun l => 0 < _) items) with (filter nonempty items).
  generalize (∅ : gmap Z (Z * Z)). induction (filter nonempty items) as [|l ls IH]; intros m; [done|]. apply IH.
Qed.

(** What a plan for [items] of the source promises. *)
Record exact_plan (items : list SelectedPacketLocator) (plan : RangePlan) : Prop := {
  ep_slices : concat (cr_packet_slices <$> plan.(rp_ranges)) = packet_slice <$> filter nonempty items;
  ep_ranges : Forall (fun r => range_wf r /\ range_of_source r) plan.(rp_ranges);
  ep_readable : Forall (fun r => exists b, range_bytes r = Ok b /\ validate_for_source b source = Ok tt)
                  plan.(rp_ranges);
  ep_order : StronglySorted (fun a b => range_end a <= b.(cr_offset)) plan.(rp_ranges);
  ep_selected : plan.(rp_selected_payload_bytes) = sumZ spl_captured_length items;
  ep_fetched : plan.(rp_fetched_bytes) = sumZ cr_length plan.(rp_ranges);
  ep_gaps : plan.(rp_selected_payload_bytes) <= plan.(rp_fetched_bytes)
    <= plan.(rp_selected_payload_bytes)
       + limits.(srl_max_gap_bytes) * (zlen (filter nonempty items) - zlen plan.(rp_ranges));
  ep_share : plan.(rp_ranges) <> [] -> plan.(rp_fetched_bytes) < source.(csv_source_size_bytes) /\
    plan.(rp_fetched_bytes) * limits.(srl_max_source_fraction_denominator)
    <= source.(csv_source_size_bytes) * limits.(srl_max_source_fraction_numerator);
}.

Hypothesis source_size : source.(csv_source_size_bytes) <= _MAX_I64.

Lemma range_readable r :
  range_wf r -> 0 <= r.(cr_offset) -> range_end r <= source.(csv_source_size_bytes) ->
  exists b, range_bytes r = Ok b /\ validate_for_source b source = Ok tt.
Proof.
  intros Hw H0 He. pose proof (rw_length _ Hw). unfold range_end in He.
  exists (mk_byte_range r.(cr_offset) r.(cr_length)).
  unfold range_bytes, CaptureByteRange_post_init, validate_for_source, raise_if. simpl.
  rewrite !(proj2 (Z.ltb_ge _ _)), (proj2 (Z.leb_gt _ _)) by lia. done.
Qed.

Lemma plan_covers items :
  Forall (of_source source snapshot order) items -> StronglySorted locator_before items ->
  (exists plan, plan_source_packet_ranges limits items = Ok plan /\ exact_plan items plan) \/
  plan_source_packet_ranges limits items = Err (fallback RESOURCE_LIMIT).
Proof.
  intros Hof Hs. unfold plan_source_packet_ranges. rewrite (locators_ordered _ Hof Hs). cbv zeta.
  rewrite bool_decide_true by (by apply sorted_identities_NoDup). cbn [negb raise_if mbind res_bind].
  destruct (plan_items_spec items 0 [] (mk_plan_state ∅ ∅ None []) Hof Hs) as [(pos & st & -> & [_ _ Hsl Hr Ho])| ->];
    [eapply Forall_impl; [exact Hof|]; intros l Hl; apply Hl|apply plan_inv_start| |by right].
  simpl in Hsl. cbn [mbind res_bind].
  assert (Forall (fun r => range_wf r /\ range_of_source r /\ 0 <= r.(cr_offset) /\
    range_end r <= source.(csv_source_size_bytes)) (rev (ps_ranges st))) as Hrr.
  { apply Forall_rev. eapply Forall_impl; [exact Hr|]. simpl. intros r (? & ? & ? & ?). split_and!; done || lia. }
  destruct (existsb _ _) eqn:Hx; [by right|]. left. eexists. split; [done|].
  assert (Forall (fun l => 0 <= l.(spl_captured_length)) items) as Hpos
    by (eapply Forall_impl; [exact Hof|]; intros l Hl; apply Hl).
  constructor; simpl; try done.
  - eapply Forall_impl; [exact Hrr|]. simpl. tauto.
  - eapply Forall_impl; [exact Hrr|]. simpl. intros r (? & _ & ? & ?). by apply range_readable.
  - by apply StronglySorted_rev.
  - assert (Forall range_wf (rev (ps_ranges st))) as Hw by (eapply Forall_impl; [exact Hrr|]; simpl; tauto).
    apply ranges_total in Hw. cbv zeta in Hw. rewrite Hsl, sum_nonempty in Hw by done. unfold zlen in *. by rewrite length_fmap in Hw.
  - intros Hne. rewrite fetched_of_source in Hx by (done || (eapply Forall_impl; [exact Hrr|]; simpl; tauto)).
    rewrite map_to_list_singleton in Hx. cbn [existsb] in Hx. unfold fetches_too_much in Hx. simpl in Hx.
    rewrite source_sizes_lookup in Hx; [|done|]; [simpl in Hx; lia|].
    intros ->. simpl in Hsl. destruct (rev (ps_ranges st)) as [|r rs]; [done|].
    apply Forall_cons in Hrr as [[Hw _] _]. destruct (rw_first _ Hw) as (s & ss & Heq & _).
    simpl in Hsl. by rewrite Heq in Hsl.
Qed.

(** The code's own check accepts such a plan. *)
Lemma exact_plan_checks items plan :
  StronglySorted locator_before items -> exact_plan items plan ->
  _validate_exact_range_plan plan items = Ok tt.
Proof.
  intros Hs [Hsl Hr _ _ _ _ _ _]. unfold _validate_exact_range_plan.
  assert (StronglySorted locator_before (filter nonempty items)) as Hsf by (by apply StronglySorted_filter).
  destruct (observe_ranges_spec plan.(rp_ranges) (mk_exact ∅ ∅) []) as (st & -> & Ho & Hi).
  - eapply Forall_impl; [exact Hr|]. simpl. intros r [Hw Hrs]. split; [done|]. apply (rw_slices _ Hw).
  - by left.
  - rewrite Hsl. split; [|apply Forall_true; intros; apply lookup_empty].
    rewrite <- list_fmap_compose. by apply sorted_indices_NoDup.
  - cbn [mbind res_bind]. rewrite Ho, Hsl, expected_observed, bool_decide_true by done. cbn [negb raise_if mbind res_bind].
    rewrite app_nil_l, Hsl in Hi. destruct (intervals_apart (filter nonempty items)) as [Hso Hov]; [done| |].
    { apply Forall_forall. by intros l [Hl _]%list_elem_of_filter. }
    replace (existsb _ _) with false; [done|]. symmetry. destruct Hi as [[-> _]| ->]; [by rewrite map_to_list_empty|].
    rewrite map_to_list_singleton. cbn [existsb snd]. by rewrite Hso, Hov.
Qed.
End planning.

(** C30: planning is exact. For the locators of any selection located in a
    validated snapshot, [plan_source_packet_ranges] either returns a plan or
    gives up with the resource-limit fallback, never with another error. A plan
    it returns cuts, in order and without overlap, exactly the non-empty
    selected packets; every range starts at its first and ends at its last
    packet, is no longer than the limit, is a legal byte range inside the
    source, and fetches at most the allowed gap per joined packet and less than
    the whole source; and [_validate_exact_range_plan] accepts it. *)
Theorem plan_source_ranges_exact (sha256_hex : bytes -> string) limits source snapshot source_order
    build ordinals budget packet_limit located :
  CaptureSourceVersion_post_init source = Ok tt -> SourceRangePlanLimits_post_init limits = Ok tt ->
  locate_selected_packets source snapshot source_order sha256_hex build ordinals budget packet_limit = Ok located ->
  (exists plan, plan_source_packet_ranges limits located.(lps_locators) = Ok plan /\
     exact_plan limits source snapshot located.(lps_locators) plan /\
     _validate_exact_range_plan plan located.(lps_locators) = Ok tt) \/
  plan_source_packet_ranges limits located.(lps_locators) = Err (fallback RESOURCE_LIMIT).
Proof.
  intros Hsrc Hlim Hloc. destruct (located_selection_sorted _ _ _ _ _ _ _ (locate_selected_spec _ _ _ _ _ _ _ _ _ Hloc)) as [Hs Hof].
  assert (csv_source_size_bytes source <= _MAX_I64) as Hsz.
  { unfold CaptureSourceVersion_post_init, raise_if in Hsrc. repeat (case_match; simplify_eq/=). lia. }
  assert (0 < srl_max_range_bytes limits) as Hmr.
  { unfold SourceRangePlanLimits_post_init, raise_if in Hlim. repeat (case_match; simplify_eq/=). lia. }
  destruct (plan_covers limits source snapshot source_order Hmr Hsz _ Hof Hs) as [(plan & Hp & He)|Hp]; [left|by right].
  exists plan. split_and!; [done|done|]. by eapply exact_plan_checks.
Qed.

(** The sample capture, scanned and bound to a source version. *)
Definition sample_source (data : bytes) : CaptureSourceVersion :=
  mk_source_version PCAP_UPLOAD "job" "key" "version" (zlen data) (zero_digest []).

Definition sample_snapshot (fmt : capture_format) (data : bytes) : StructuralIndexSnapshot :=
  let binding := mk_binding PCAP_UPLOAD "job" "version" (zlen data) (zero_digest []) fmt 1 1 in
  match scan_structural_packet_index zero_digest 1000 {| bio_data := data |} (sample_limits 2 true) with
  | (batches, Ok out) =>
      let packets := concat batches ++ out.(ssr_packets) in
      mk_snapshot "build" binding (mk_datetime 0 true)
        (structural_index_digest zero_digest binding out.(ssr_interfaces) packets) out.(ssr_interfaces) packets
  | (_, Err _) => mk_snapshot "build" binding (mk_datetime 0 true) (zero_digest []) [] []
  end.

Lemma plan_source_ranges_exact_witness :
  let limits := mk_source_limits 64 1024 3 4 in
  let source := sample_source sample_pcapng in
  let snapshot := sample_snapshot PCAPNG sample_pcapng in
  exists located plan,
    locate_selected_packets source snapshot 0 zero_digest "build" [0; 1] 4096 10 = Ok located /\
    zlen located.(lps_locators) = 2 /\ zlen plan.(rp_ranges) = 1 /\
    exact_plan limits source snapshot located.(lps_locators) plan.
Proof.
  cbv zeta. destruct (locate_selected_packets (sample_source sample_pcapng) (sample_snapshot PCAPNG sample_pcapng)
    0 zero_digest "build" [0; 1] 4096 10) as [located|e] eqn:Hl; [|vm_compute in Hl; discriminate Hl].
  exists located.
  pose proof (plan_source_ranges_exact zero_digest (mk_source_limits 64 1024 3 4) (sample_source sample_pcapng) _ _ _ _ _ _ _
    eq_refl eq_refl Hl) as H.
  assert (exists plan, plan_source_packet_ranges (mk_source_limits 64 1024 3 4) located.(lps_locators) = Ok plan
    /\ zlen plan.(rp_ranges) = 1 /\ zlen located.(lps_locators) = 2) as (p & Hp & Hr & Hz).
  { vm_compute in Hl. injection Hl as <-. eexists. split; [vm_compute; reflexivity|]. split; reflexivity. }
  destruct H as [(plan & Hplan & He & _)|Hplan]; [|rewrite Hp in Hplan; discriminate Hplan].
  exists plan. assert (plan = p) as -> by congruence. split_and!; done.
Defined.
