(* ===== verification/PostingIndex.v ===== *)
(** * PostingIndex

    pcap_posting_index.py, the records that tie a posting generation to one
    version of one source and to its structural index: the binding and its
    document, snapshots and identities, availability and validation. *)

From Stdlib Require Import String.
From S2P Require Import Prelude Bytes CaptureFormat StructuralIndex PyFloat PostingModel PostingBuild.
From S2P Require Import Samples Reader ExportAgreement PostingCodec OffsetIndex OffsetProofs PlanProofs.
#[local] Open Scope Z_scope.

Record PostingIndexBinding : Type := mk_posting_binding {
  pib_source_kind : source_kind;
  pib_source_id : string;
  pib_source_version_id : string;
  pib_source_size_bytes : Z;
  pib_source_sha256 : string;
  pib_capture_format : capture_format;
  pib_parent_structural_build_id : string;
  pib_parent_structural_index_sha256 : string;
  pib_structural_schema_version : Z;
  pib_structural_parser_contract_version : Z;
  pib_posting_schema_version : Z;
  pib_posting_parser_contract_version : Z;
  pib_filter_contract_version : Z;
}.

#[export] Instance PostingIndexBinding_eq_dec : EqDecision PostingIndexBinding.
Proof. solve_decision. Defined.

Definition PostingIndexBinding_post_init (b : PostingIndexBinding) : res unit :=
  raise_if (is_empty b.(pib_source_id) || is_empty b.(pib_source_version_id)
            || (b.(pib_source_size_bytes) <? 0) || is_empty b.(pib_parent_structural_build_id)
            || negb (is_sha256_hex b.(pib_source_sha256))
            || negb (is_sha256_hex b.(pib_parent_structural_index_sha256)))
    (ValueError "invalid posting index binding").

(** [document]: keys in order, as [sort_keys] writes them. *)
Definition posting_binding_document (b : PostingIndexBinding) : bytes :=
  json_object [
    ("capture_format", json_text (capture_format_value b.(pib_capture_format)));
    ("filter_contract_version", json_int b.(pib_filter_contract_version));
    ("parent_structural_build_id", json_text b.(pib_parent_structural_build_id));
    ("parent_structural_index_sha256", json_text b.(pib_parent_structural_index_sha256));
    ("posting_parser_contract_version", json_int b.(pib_posting_parser_contract_version));
    ("posting_schema_version", json_int b.(pib_posting_schema_version));
    ("source_id", json_text b.(pib_source_id));
    ("source_kind", json_text (source_kind_value b.(pib_source_kind)));
    ("source_sha256", json_text b.(pib_source_sha256));
    ("source_size_bytes", json_int b.(pib_source_size_bytes));
    ("source_version_id", json_text b.(pib_source_version_id));
    ("structural_parser_contract_version", json_int b.(pib_structural_parser_contract_version));
    ("structural_schema_version", json_int b.(pib_structural_schema_version))]%string.

Record PostingIndexSnapshot : Type := mk_posting_snapshot {
  pis_build_id : string;
  pis_binding : PostingIndexBinding;
  pis_created_at : Datetime;
  pis_generation : PostingGeneration;
}.

Inductive PostingIndexAvailability : Type :=
  | POSTING_READY | POSTING_MISSING | POSTING_STALE | POSTING_CORRUPT
  | POSTING_UNSUPPORTED_SCHEMA | POSTING_RESOURCE_LIMIT.

#[export] Instance PostingIndexAvailability_eq_dec : EqDecision PostingIndexAvailability.
Proof. solve_decision. Defined.

Record PostingIndexIdentity : Type := mk_posting_identity {
  pii_build_id : string;
  pii_binding : PostingIndexBinding;
  pii_created_at : Datetime;
  pii_schema_version : Z;
  pii_parser_contract_version : Z;
  pii_filter_contract_version : Z;
  pii_packet_count : Z;
  pii_supported_count : Z;
  pii_membership_count : Z;
  pii_distinct_key_count : Z;
  pii_chunk_count : Z;
  pii_encoded_byte_count : Z;
  pii_complete_dimensions : list string;
  pii_digest : string;
  pii_binding_document : bytes;
}.

#[export] Instance PostingIndexIdentity_eq_dec : EqDecision PostingIndexIdentity.
Proof. solve_decision. Defined.

(** [PostingIndexLookup] and [PostingIndexIdentityLookup]. *)
Record PostingIndexLookup : Type := mk_posting_lookup {
  pil_availability : PostingIndexAvailability;
  pil_snapshot : option PostingIndexSnapshot;
}.
Record PostingIndexIdentityLookup : Type := mk_posting_identity_lookup {
  piil_availability : PostingIndexAvailability;
  piil_identity : option PostingIndexIdentity;
}.

Definition posting_index_identity (s : PostingIndexSnapshot) : PostingIndexIdentity :=
  let g := s.(pis_generation) in
  mk_posting_identity s.(pis_build_id) s.(pis_binding) s.(pis_created_at) g.(pg_schema_version)
    g.(pg_parser_contract_version) g.(pg_filter_contract_version) g.(pg_packet_count)
    g.(pg_supported_count) g.(pg_membership_count) g.(pg_distinct_key_count) (zlen g.(pg_chunks))
    g.(pg_encoded_byte_count)
    (sort_by str_leb (dimension_value <$> elements g.(pg_complete_dimensions)))
    g.(pg_digest) g.(pg_binding_document).

(** [_binding]: the constructor runs [__post_init__]. *)
Definition _binding (source : CaptureSourceVersion) (parent : StructuralIndexIdentity)
    : res PostingIndexBinding :=
  let structural := parent.(sii_binding) in
  let b := mk_posting_binding source.(csv_source_kind) source.(csv_source_id)
    source.(csv_source_version_id) source.(csv_source_size_bytes) source.(csv_source_sha256)
    structural.(sib_capture_format) parent.(sii_build_id) parent.(sii_index_sha256)
    structural.(sib_schema_version) structural.(sib_parser_contract_version)
    PCAP_POSTING_INDEX_SCHEMA_VERSION PCAP_POSTING_INDEX_PARSER_CONTRACT_VERSION
    PCAP_FILTER_CONTRACT_VERSION in
  _ ← PostingIndexBinding_post_init b; Ok b.

(** The fields of the binding that come from the source and its structural index. *)
Definition same_source_binding (b expected : PostingIndexBinding) : bool :=
  bool_decide (b.(pib_source_kind) = expected.(pib_source_kind))
  && bool_decide (b.(pib_source_id) = expected.(pib_source_id))
  && bool_decide (b.(pib_source_version_id) = expected.(pib_source_version_id))
  && (b.(pib_source_size_bytes) =? expected.(pib_source_size_bytes))
  && bool_decide (b.(pib_source_sha256) = expected.(pib_source_sha256))
  && bool_decide (b.(pib_capture_format) = expected.(pib_capture_format))
  && bool_decide (b.(pib_parent_structural_build_id) = expected.(pib_parent_structural_build_id))
  && bool_decide (b.(pib_parent_structural_index_sha256) = expected.(pib_parent_structural_index_sha256))
  && (b.(pib_structural_schema_version) =? expected.(pib_structural_schema_version))
  && (b.(pib_structural_parser_contract_version) =? expected.(pib_structural_parser_contract_version)).

Definition posting_versions_current (i : PostingIndexIdentity) : bool :=
  let b := i.(pii_binding) in
  (b.(pib_posting_schema_version) =? PCAP_POSTING_INDEX_SCHEMA_VERSION)
  && (b.(pib_posting_parser_contract_version) =? PCAP_POSTING_INDEX_PARSER_CONTRACT_VERSION)
  && (b.(pib_filter_contract_version) =? PCAP_FILTER_CONTRACT_VERSION)
  && (i.(pii_schema_version) =? PCAP_POSTING_INDEX_SCHEMA_VERSION)
  && (i.(pii_parser_contract_version) =? PCAP_POSTING_INDEX_PARSER_CONTRACT_VERSION)
  && (i.(pii_filter_contract_version) =? PCAP_FILTER_CONTRACT_VERSION).

(** [tuple(sorted(set(dims))) == dims] and [set(dims) <= valid_dimensions]. *)
Definition dimensions_canonical (dims : list string) : bool :=
  bool_decide (sort_by str_leb (elements (list_to_set dims : gset string)) = dims)
  && forallb (fun d => bool_decide (d ∈ dimension_value <$> all_dimensions)) dims.

Definition posting_metadata_ok (i : PostingIndexIdentity) : bool :=
  negb (is_empty i.(pii_build_id)) && i.(pii_created_at).(dt_aware)
  && forallb (fun v => 0 <=? v)
       [i.(pii_packet_count); i.(pii_supported_count); i.(pii_membership_count);
        i.(pii_distinct_key_count); i.(pii_chunk_count); i.(pii_encoded_byte_count)]
  && (i.(pii_supported_count) <=? i.(pii_packet_count))
  && (i.(pii_supported_count) <=? i.(pii_membership_count))
  && dimensions_canonical i.(pii_complete_dimensions)
  && is_sha256_hex i.(pii_digest)
  && bool_decide (i.(pii_binding_document) = posting_binding_document i.(pii_binding)).

Definition posting_index_identity_availability (identity : PostingIndexIdentity)
    (source : CaptureSourceVersion) (parent : StructuralIndexIdentity) : PostingIndexAvailability :=
  match _binding source parent with
  | Err _ => POSTING_STALE
  | Ok expected =>
      if negb (same_source_binding identity.(pii_binding) expected) then POSTING_STALE
      else if negb (posting_versions_current identity) then POSTING_UNSUPPORTED_SCHEMA
      else if negb (posting_metadata_ok identity) then POSTING_CORRUPT
      else POSTING_READY
  end.

Section validate.
(** [hashlib.sha256(...).hexdigest()]. *)
Context (sha256_hex : bytes -> string).

Definition validate_posting_index (s : PostingIndexSnapshot) (source : CaptureSourceVersion)
    (parent : StructuralIndexSnapshot) : bool :=
  match _binding source (structural_index_identity parent) with
  | Err _ => false
  | Ok expected =>
      negb (is_empty s.(pis_build_id)) && validate_structural_index sha256_hex parent
      && bool_decide (s.(pis_binding) = expected)
      && bool_decide (s.(pis_generation).(pg_binding_document) = posting_binding_document expected)
      && validate_posting_generation sha256_hex s.(pis_generation) default_build_limits
  end.
End validate.

(** ** A validated snapshot and its identity *)

(** Each ordinal the digest stream counts as supported is a membership. *)
Definition stats_ordered (s : DigestState) : Prop := s.(ds_supported) <= s.(ds_memberships).

Lemma digest_ordinals_ordered dimension ordinals : forall x y,
  digest_ordinals dimension ordinals x = Ok y -> stats_ordered x.2 -> stats_ordered y.2.
Proof.
  induction ordinals as [|o ordinals IH]; intros [c s] y H Hs; cbn [digest_ordinals] in H; [by injection H as <-|].
  inv_bind. apply IH in H0; [done|]. unfold digest_ordinal in H. inv_bind. subst.
  unfold stats_ordered in *. simpl in *. case_bool_decide; lia.
Qed.

Lemma digest_chunks_ordered dimension n chunks : forall k x y,
  digest_chunks dimension n k chunks x = Ok y -> stats_ordered x.2 -> stats_ordered y.2.
Proof.
  induction chunks as [|c chunks IH]; intros k [p s] y H Hs; cbn [digest_chunks] in H; [by injection H as <-|].
  inv_bind. apply IH in H0; [done|]. unfold digest_chunk in H.
  destruct (_iter_decoded_ordinals _ _) as [ordinals r]. inv_bind. destruct x0 as [c' s'].
  apply digest_ordinals_ordered in H; [|done]. inv_bind. by subst.
Qed.

Lemma digest_keys_ordered n directory keys : forall s s',
  digest_keys n directory keys s = Ok s' -> stats_ordered s -> stats_ordered s'.
Proof.
  induction keys as [|[d v] keys IH]; intros s s' H Hs; cbn [digest_keys] in H; [by injection H as <-|].
  inv_bind. apply IH in H0; [done|]. unfold digest_key in H. inv_bind. destruct x1 as [p s1].
  apply digest_chunks_ordered in H1; [|done]. inv_bind. by subst.
Qed.

Lemma validated_generation sha256_hex g limits :
  validate_posting_generation sha256_hex g limits = true ->
  generation_header_ok limits g = true /\ g.(pg_supported_count) <= g.(pg_membership_count).
Proof.
  unfold validate_posting_generation. rewrite andb_true_iff. intros [Hh H]. split; [done|].
  destruct (declared_totals _ _ _ _ _) as [[[m b] keys]|]; [|done].
  destruct (_stream_generation_digest_document g) as [[document stats]|] eqn:Hs; [|by rewrite andb_false_r in H].
  rewrite !andb_true_iff, !Z.eqb_eq in H. destruct H as [_ [[[[[Hm _] _] Hsup] _] _]].
  unfold _stream_generation_digest_document in Hs. apply bind_Ok in Hs as (s & Hk & [= _ <-]).
  apply digest_keys_ordered in Hk; [|done]. unfold stats_ordered in Hk. simpl in *. lia.
Qed.

(** The dimension names of a complete generation, as its identity lists them. *)
Lemma complete_dimensions_canonical :
  dimensions_canonical (sort_by str_leb (dimension_value <$> elements _ALL_DIMENSIONS)) = true.
Proof. vm_compute. reflexivity. Qed.

Lemma same_source_binding_refl b : same_source_binding b b = true.
Proof. unfold same_source_binding. rewrite !bool_decide_true, !Z.eqb_refl by done. done. Qed.

Lemma validated_metadata sha256_hex s source parent :
  validate_posting_index sha256_hex s source parent = true -> s.(pis_created_at).(dt_aware) = true ->
  posting_versions_current (posting_index_identity s) = true /\
  posting_metadata_ok (posting_index_identity s) = true /\
  _binding source (structural_index_identity parent) = Ok s.(pis_binding).
Proof.
  unfold validate_posting_index. destruct (_binding _ _) as [expected|] eqn:Hb; [|done].
  rewrite !andb_true_iff, !bool_decide_eq_true. intros [[[[Hid _] Hbd] Hdoc] Hg] Haware. rewrite Hbd.
  apply validated_generation in Hg as [Hh Hsup]. unfold generation_header_ok in Hh.
  rewrite !andb_true_iff in Hh. destruct Hh as [[[[[[[[[[[[[[Hpos Hv1] Hv2] Hv3] _] _] Hsp] _] _] _] _] _] _] Hd] Hsha].
  assert (posting_versions_current (posting_index_identity s) = true) as Hcur.
  { unfold posting_versions_current. simpl. rewrite Hv1, Hv2, Hv3, Hbd. unfold _binding in Hb.
    by apply bind_Ok in Hb as (_ & _ & [= <-]). }
  split_and!; [done| |done]. unfold posting_metadata_ok. simpl. rewrite Hid, Haware, Hsha, Hsp, Hbd.
  apply bool_decide_eq_true in Hd. rewrite Hd, complete_dimensions_canonical, bool_decide_true by done.
  rewrite (proj2 (Z.leb_le _ _) Hsup). cbn [forallb] in Hpos. rewrite !andb_true_iff in Hpos.
  pose proof (zlen_nonneg (pg_chunks (pis_generation s))).
  destruct_and!. by rewrite !andb_true_r, !(proj2 (Z.leb_le _ _)) by lia.
Qed.

(** The parts of a source version and of its structural index an identity is bound to. *)
Definition bound_to (source : CaptureSourceVersion) (parent : StructuralIndexIdentity) :=
  (source.(csv_source_kind), source.(csv_source_id), source.(csv_source_version_id),
   source.(csv_source_size_bytes), source.(csv_source_sha256),
   parent.(sii_binding).(sib_capture_format), parent.(sii_build_id), parent.(sii_index_sha256),
   parent.(sii_binding).(sib_schema_version), parent.(sii_binding).(sib_parser_contract_version)).

Lemma same_source_binding_bound source parent source' parent' b b' :
  _binding source parent = Ok b -> _binding source' parent' = Ok b' ->
  same_source_binding b b' = true <-> bound_to source' parent' = bound_to source parent.
Proof.
  unfold _binding. intros (_ & _ & [= <-])%bind_Ok (_ & _ & [= <-])%bind_Ok.
  unfold same_source_binding, bound_to. simpl. rewrite !andb_true_iff, !bool_decide_eq_true, !Z.eqb_eq.
  split; [intros; destruct_and!; congruence|]. intros [=]. split_and!; congruence.
Qed.

Lemma bound_binding source parent source' parent' :
  bound_to source' parent' = bound_to source parent -> _binding source' parent' = _binding source parent.
Proof. unfold bound_to, _binding. intros [= -> -> -> -> -> -> -> -> -> ->]. done. Qed.

(** C31: the compact identity of a validated posting snapshot is exact. It is
    READY for a source version and a structural index if and only if they are the
    ones the snapshot was validated against, in kind, id, version, size and
    digest of the source and in build, digest, format and versions of the index;
    for any others it is STALE. So the identity checks made around a query or a
    range read cannot take an index for another version of its source. *)
Theorem posting_identity_availability_exact (sha256_hex : bytes -> string) s source parent source' parent' :
  validate_posting_index sha256_hex s source parent = true -> s.(pis_created_at).(dt_aware) = true ->
  posting_index_identity_availability (posting_index_identity s) source' parent' =
  if decide (bound_to source' parent' = bound_to source (structural_index_identity parent))
  then POSTING_READY else POSTING_STALE.
Proof.
  intros Hv Ha. destruct (validated_metadata _ _ _ _ Hv Ha) as (Hc & Hm & Hb).
  unfold posting_index_identity_availability. destruct (decide _) as [Heq|Hne].
  - rewrite (bound_binding _ _ _ _ Heq), Hb, same_source_binding_refl, Hc, Hm. done.
  - destruct (_binding source' parent') as [b'|] eqn:Hb'; [|done].
    destruct (same_source_binding (pii_binding (posting_index_identity s)) b') eqn:E; [|done].
    exfalso. apply Hne. by apply (same_source_binding_bound _ _ _ _ _ _ Hb Hb').
Qed.

(** The postings of a sample capture, bound to its source and structural index. *)
Definition sample_posting (fmt : capture_format) (data : bytes) : res PostingIndexSnapshot :=
  let parent := sample_snapshot fmt data in
  binding ← _binding (sample_source data) (structural_index_identity parent);
  g ← build_packet_postings zero_digest
        (export_packets 1000 {| bio_data := data |} "version" 0 ["10.0.0.0/8"%string])
        parent.(sis_packets) parent.(sis_interfaces) default_build_limits (posting_binding_document binding);
  Ok (mk_posting_snapshot "posting" binding (mk_datetime 0 true) g).

Lemma posting_identity_availability_exact_witness :
  match sample_posting PCAPNG sample_pcapng with
  | Ok s =>
      let identity := posting_index_identity s in
      let parent := structural_index_identity (sample_snapshot PCAPNG sample_pcapng) in
      posting_index_identity_availability identity (sample_source sample_pcapng) parent = POSTING_READY /\
      posting_index_identity_availability identity (sample_source sample_pcap) parent = POSTING_STALE
  | Err _ => False
  end.
Proof.
  destruct (sample_posting PCAPNG sample_pcapng) as [s|e] eqn:Hs; [|vm_compute in Hs; discriminate Hs].
  assert (validate_posting_index zero_digest s (sample_source sample_pcapng) (sample_snapshot PCAPNG sample_pcapng) = true
    /\ s.(pis_created_at).(dt_aware) = true) as [Hv Ha].
  { vm_compute in Hs. injection Hs as <-. split; vm_compute; reflexivity. }
  cbv zeta. split; rewrite (posting_identity_availability_exact zero_digest s _ _ _ _ Hv Ha).
  - by rewrite decide_True.
  - rewrite decide_False; [done|]. vm_compute. discriminate.
Defined.
