(* ===== verification/ExportRepository.v ===== *)
(** * ExportRepository

    The interface between indexed export and the storage behind it: the
    operations of [PostingSelectionRepository] and [IndexedExportRepository]
    that selection and collection call, as effects on a world that may change
    between any two of them, and the callbacks the caller passes in.  The
    source snapshot and its manifest are the JSON documents the repository
    made when the export was admitted. *)

From Stdlib Require Import String.
From S2P Require Import Prelude Bytes CaptureFormat PyFloat PostingModel FlowFilter.
From S2P Require Import OffsetIndex IndexedPlan PostingIndex.
#[local] Open Scope Z_scope.

(** ** Effects: an operation may raise, and it may change the world *)

Definition eff (W A : Type) : Type := W -> res A * W.
#[export] Instance eff_ret {W} : MRet (eff W) := fun A a w => (Ok a, w).
#[export] Instance eff_bind {W} : MBind (eff W) := fun A B f m w =>
  match m w with (Ok a, w') => f a w' | (Err e, w') => (Err e, w') end.

Definition eff_lift {W A} (r : res A) : eff W A := fun w => (r, w).
Definition eff_raise {W A} (e : exn) : eff W A := eff_lift (Err e).
Definition eff_raise_if {W} (cond : bool) (e : exn) : eff W unit := eff_lift (raise_if cond e).

(** [try: m  except ...: raise f e] for the exceptions [f] handles. *)
Definition eff_reraise {W A} (f : exn -> option exn) (m : eff W A) : eff W A := fun w =>
  match m w with (Err e, w') => (Err (default e (f e)), w') | r => r end.

(** ** The repository and the callbacks *)

Class ExportRepository (W : Type) : Type := {
  get_capture_source_version : string -> eff W (option CaptureSourceVersion);
  get_live_capture_source_version : string -> eff W (option CaptureSourceVersion);
  get_structural_index : SourceIndexBinding -> eff W StructuralIndexLookup;
  get_structural_index_identity : CaptureSourceVersion -> eff W StructuralIndexIdentityLookup;
  get_posting_index : CaptureSourceVersion -> StructuralIndexSnapshot -> PostingQueryLimits ->
    eff W PostingIndexLookup;
  get_posting_index_identity : CaptureSourceVersion -> StructuralIndexIdentity ->
    eff W PostingIndexIdentityLookup;
  read_capture_range : CaptureSourceVersion -> CaptureByteRange -> eff W bytes;
}.

(** [checkpoint], [check_cancelled] and [check_deadline]; [None] when both
    checks are one function. *)
Class ExportHooks (W : Type) : Type := {
  checkpoint_fetch : Z -> Z -> eff W unit;   (* scanned packets, bytes of the range *)
  check_cancelled : eff W unit;
  check_deadline : option (eff W unit);
}.

Definition _run_checks {W} `{!ExportHooks W} : eff W unit :=
  _ ← check_cancelled; default (mret tt) check_deadline.

Definition _current_source {W} `{!ExportRepository W} (kind : source_kind) (source_id : string)
    : eff W (option CaptureSourceVersion) :=
  match kind with
  | PCAP_UPLOAD => get_capture_source_version source_id
  | LIVE_SEGMENT => get_live_capture_source_version source_id
  end.

(** ** The source snapshot *)

Abbreviation descriptor := (gmap string py_scalar) (only parsing).

(** [source_manifest] is [None] when it is no list, an entry when it is no mapping. *)
Record SourceSnapshot : Type := mk_source_snapshot {
  ss_source_manifest : option (list (option descriptor));
  ss_source_kind : py_scalar;
  ss_source_generation : option py_scalar;
}.

(** [d.get(key)] *)
Definition field (d : descriptor) (key : string) : py_scalar := default PNone (d !! key).

(** [v == n] and [v == s]; a Python [bool] is an [int]. *)
Definition equals_int (v : py_scalar) (n : Z) : bool :=
  match v with PInt z => z =? n | PBool b => Z.b2z b =? n | _ => false end.
Definition equals_str (v : py_scalar) (s : string) : bool := bool_decide (v = PStr s).

(** [isinstance(v, str) and v] *)
Definition text_value (v : py_scalar) : option string :=
  match v with PStr s => if is_empty s then None else Some s | _ => None end.

(** [str(d.get(key, ""))] *)
Definition field_text (v : option py_scalar) : string := default ""%string (py_str <$> v).

(** The source has the version, size and digest of its manifest entry. *)
Definition version_matches (source : CaptureSourceVersion) (d : descriptor) : bool :=
  equals_str (field d "version_id") source.(csv_source_version_id)
  && equals_int (field d "size_bytes") source.(csv_source_size_bytes)
  && equals_str (field d "sha256") source.(csv_source_sha256).

Definition _source_matches_manifest (source : CaptureSourceVersion) (d : descriptor)
    (kind : source_kind) : bool :=
  bool_decide (source.(csv_source_kind) = kind)
  && equals_str (field d "id") source.(csv_source_id) && version_matches source d.

(** [_source_identity]: every field of the version. *)
Definition _source_identity (s : CaptureSourceVersion)
    : source_kind * string * string * string * Z * string :=
  (s.(csv_source_kind), s.(csv_source_id), s.(csv_object_key), s.(csv_source_version_id),
   s.(csv_source_size_bytes), s.(csv_source_sha256)).

Lemma source_identity_inj s s' : _source_identity s = _source_identity s' -> s = s'.
Proof. destruct s, s'. unfold _source_identity. simpl. congruence. Qed.

(** ** Reasoning about effects in a world that nothing is known about *)

(** Whenever [m] returns, its value satisfies [Q]. *)
Definition yields {W A} (m : eff W A) (Q : A -> Prop) : Prop :=
  forall w a w', m w = (Ok a, w') -> Q a.

Lemma yields_ret {W A} (a : A) (Q : A -> Prop) : Q a -> yields (mret a : eff W A) Q.
Proof. intros Ha w b w' [= <- _]. done. Qed.

Lemma yields_bind {W A B} (m : eff W A) (f : A -> eff W B) P Q :
  yields m P -> (forall a, P a -> yields (f a) Q) -> yields (m ≫= f) Q.
Proof.
  intros Hm Hf w b w'. unfold mbind, eff_bind. destruct (m w) as [[a|e] w1] eqn:E; [|done].
  intros Hb. eapply Hf; [|exact Hb]. by eapply Hm.
Qed.

Lemma yields_any {W A} (m : eff W A) : yields m (fun _ => True).
Proof. done. Qed.

Lemma yields_self {W A} (m : eff W A) : yields m (fun a => exists w w', m w = (Ok a, w')).
Proof. intros w a w' H. by exists w, w'. Qed.

Lemma yields_lift {W A} (r : res A) (Q : A -> Prop) :
  (forall a, r = Ok a -> Q a) -> yields (eff_lift r : eff W A) Q.
Proof. intros H w a w' [= Hr _]. by apply H. Qed.

Lemma yields_raise_if {W} cond e (Q : unit -> Prop) :
  (cond = false -> Q tt) -> yields (eff_raise_if cond e : eff W unit) Q.
Proof. intros H. apply yields_lift. intros [] Hc%raise_if_Ok. by apply H. Qed.

Lemma yields_raise {W A} e (Q : A -> Prop) : yields (eff_raise e : eff W A) Q.
Proof. intros w a w' [=]. Qed.

Lemma yields_reraise {W A} f (m : eff W A) Q : yields m Q -> yields (eff_reraise f m) Q.
Proof. intros Hm w a w'. unfold eff_reraise. destruct (m w) as [[b|e] w1] eqn:E; intros [= <- <-]. by eapply Hm. Qed.

Lemma yields_mono {W A} (m : eff W A) (P Q : A -> Prop) :
  (forall a, P a -> Q a) -> yields m P -> yields m Q.
Proof. intros H Hm w a w' Hr. apply H. by eapply Hm. Qed.
