(* ===== verification/StaticStore.v ===== *)
(** * StaticStore

    A repository that never changes: a list of sources with their bytes and
    their two indexes.  Concrete runs of selection and collection use it. *)

From Stdlib Require Import String.
From S2P Require Import Prelude Bytes Samples CaptureFormat PyFloat StructuralIndex PostingModel PostingBuild FlowFilter.
From S2P Require Import OffsetIndex IndexedPlan PlanProofs PostingIndex ExportRepository.
#[local] Open Scope Z_scope.

Record StoreEntry : Type := mk_entry {
  se_source : CaptureSourceVersion;
  se_content : bytes;
  se_parent : StructuralIndexSnapshot;
  se_posting : PostingIndexSnapshot;
}.

Section static.
Context (store : list StoreEntry).

Definition store_find (P : StoreEntry -> bool) : option StoreEntry := head (filter (fun e => P e = true) store).
Definition store_entry (source : CaptureSourceVersion) : option StoreEntry :=
  store_find (fun e => bool_decide (e.(se_source) = source)).

Definition store_source (kind : source_kind) (source_id : string) : eff unit (option CaptureSourceVersion) :=
  mret (se_source <$> store_find (fun e => bool_decide (e.(se_source).(csv_source_kind) = kind)
                                           && bool_decide (e.(se_source).(csv_source_id) = source_id))).

(** The bytes of a source version. *)
Definition stored_content (source : CaptureSourceVersion) : bytes :=
  default [] (se_content <$> store_entry source).

Definition static_repository : ExportRepository unit := {|
  get_capture_source_version := store_source PCAP_UPLOAD;
  get_live_capture_source_version := store_source LIVE_SEGMENT;
  get_structural_index binding :=
    mret match store_find (fun e => bool_decide (e.(se_parent).(sis_binding) = binding)) with
         | Some e => mk_index_lookup READY (Some e.(se_parent))
         | None => mk_index_lookup MISSING None
         end;
  get_structural_index_identity source :=
    mret match store_entry source with
         | Some e => mk_index_identity_lookup READY (Some (structural_index_identity e.(se_parent)))
         | None => mk_index_identity_lookup MISSING None
         end;
  get_posting_index source parent limits :=
    mret match store_entry source with
         | Some e => if bool_decide (parent = e.(se_parent)) then mk_posting_lookup POSTING_READY (Some e.(se_posting))
                     else mk_posting_lookup POSTING_STALE None
         | None => mk_posting_lookup POSTING_MISSING None
         end;
  get_posting_index_identity source parent :=
    mret match store_entry source with
         | Some e => mk_posting_identity_lookup POSTING_READY (Some (posting_index_identity e.(se_posting)))
         | None => mk_posting_identity_lookup POSTING_MISSING None
         end;
  read_capture_range source r :=
    match store_entry source with
    | Some e =>
        let part := slice r.(cbr_offset) (r.(cbr_offset) + r.(cbr_length)) e.(se_content) in
        if zlen part =? r.(cbr_length) then mret part else eff_raise CaptureRangeShortRead
    | None => eff_raise CaptureRangeMissing
    end;
|}.
End static.

Definition static_hooks : ExportHooks unit := {|
  checkpoint_fetch _ _ := mret tt;
  check_cancelled := mret tt;
  check_deadline := None;
|}.

(** The same with a meter: bytes and ranges read so far. *)
Definition counted {A} (n k : Z) (m : eff unit A) : eff (Z * Z) A := fun w =>
  ((m tt).1, (w.1 + n, w.2 + k)).

Definition metered_repository (store : list StoreEntry) : ExportRepository (Z * Z) :=
  let r := static_repository store in {|
  get_capture_source_version id := counted 0 0 (@get_capture_source_version _ r id);
  get_live_capture_source_version id := counted 0 0 (@get_live_capture_source_version _ r id);
  get_structural_index binding := counted 0 0 (@get_structural_index _ r binding);
  get_structural_index_identity source := counted 0 0 (@get_structural_index_identity _ r source);
  get_posting_index source parent limits := counted 0 0 (@get_posting_index _ r source parent limits);
  get_posting_index_identity source parent := counted 0 0 (@get_posting_index_identity _ r source parent);
  read_capture_range source b := counted b.(cbr_length) 1 (@read_capture_range _ r source b);
|}.

Definition metered_hooks : ExportHooks (Z * Z) := {|
  checkpoint_fetch _ _ := mret tt;
  check_cancelled := mret tt;
  check_deadline := None;
|}.

(** The sample capture in a store, and the snapshot that names it. *)
Definition sample_store (fmt : capture_format) (data : bytes) : list StoreEntry :=
  match sample_posting fmt data with
  | Ok posting => [mk_entry (sample_source data) data (sample_snapshot fmt data) posting]
  | Err _ => []
  end.

Definition sample_descriptor (data : bytes) : descriptor :=
  {["id" := PStr "job"; "version_id" := PStr "version"; "size_bytes" := PInt (zlen data);
    "sha256" := PStr (csv_source_sha256 (sample_source data)); "order" := PInt 0;
    "sensor_id" := PStr "sensor"]}%string.

Definition sample_source_snapshot (data : bytes) : SourceSnapshot :=
  mk_source_snapshot (Some [Some (sample_descriptor data)]) (PStr "canonical_capture") (Some (PInt 7)).
