(* ===== verification/PostingPlan.v ===== *)
(** * PostingPlan

    pcap_posting_selection.py: the query limits shared out between the sources
    of a manifest, and [_select_analysis_posting_plan_from_snapshot], which
    queries the postings of every source, reads every identity again after
    the last query, and returns the candidates with the proofs of what they
    were selected from; [select_analysis_posting_candidates] checks the job,
    the candidate and the provenance of the source before it. *)

From Stdlib Require Import String.
From S2P Require Import Prelude Bytes CaptureFormat PyFloat PostingModel PostingBuild FlowFilter PostingSelect.
From S2P Require Import OffsetIndex IndexedPlan PostingIndex ExportRepository JobMachine.
#[local] Open Scope Z_scope.

Definition _HARD_MAX_MANIFEST_SOURCES : Z := 1024.

(** ** Settings and limits *)

(** The settings the selection reads. *)
Record SelectionSettings : Type := mk_settings {
  set_pcap_export_scan_max_bytes : option Z;
  set_pcap_export_scan_max_packets : option Z;
  set_query_max_operations : Z;
  set_query_max_result_ordinals : Z;
  set_query_max_decoded_memberships : Z;
  set_query_max_directory_chunks : Z;
  set_query_max_dictionary_terms : Z;
}.

Definition _query_limits (s : SelectionSettings) : res PostingQueryLimits :=
  PostingQueryLimits_post_init
    (mk_query_limits s.(set_query_max_operations) s.(set_query_max_result_ordinals)
       s.(set_query_max_decoded_memberships) s.(set_query_max_directory_chunks)
       s.(set_query_max_dictionary_terms)).

(** [fields], with [getattr] and the keyword constructor. *)
Definition limit_fields (l : PostingQueryLimits) : list Z :=
  [l.(pql_max_operations); l.(pql_max_result_ordinals); l.(pql_max_decoded_memberships);
   l.(pql_max_directory_chunks); l.(pql_max_dictionary_terms)].

(** The share of source [source_order] of a limit. *)
Definition share (total source_count source_order : Z) : Z :=
  total / source_count + (if source_order <? total mod source_count then 1 else 0).

Definition allocate (l : PostingQueryLimits) (source_count source_order : Z) : res PostingQueryLimits :=
  let value total := share total source_count source_order in
  PostingQueryLimits_post_init
    (mk_query_limits (value l.(pql_max_operations)) (value l.(pql_max_result_ordinals))
       (value l.(pql_max_decoded_memberships)) (value l.(pql_max_directory_chunks))
       (value l.(pql_max_dictionary_terms))).

(** The [while source_order < source_count] loop. *)
Fixpoint allocations (l : PostingQueryLimits) (source_count : Z) (source_order : Z) (left : nat)
    : res (list PostingQueryLimits) :=
  match left with
  | O => Ok []
  | S left' =>
      first ← allocate l source_count source_order;
      rest ← allocations l source_count (source_order + 1) left';
      Ok (first :: rest)
  end.

Definition _allocated_query_limits (s : SelectionSettings) (source_count : Z)
    : res (option (list PostingQueryLimits)) :=
  global_limits ← _query_limits s;
  if (source_count <=? 0) || existsb (fun v => v <? source_count) (limit_fields global_limits)
  then Ok None
  else
    ls ← allocations global_limits source_count 0 (Z.to_nat source_count);
    Ok (Some ls).

(** ** The plan *)

Record PostingPacketCandidate : Type := mk_candidate {
  ppc_source_order : Z;
  ppc_source_kind : source_kind;
  ppc_source_id : string;
  ppc_parent_structural_build_id : string;
  ppc_packet_index : Z;
}.

#[export] Instance PostingPacketCandidate_eq_dec : EqDecision PostingPacketCandidate.
Proof. solve_decision. Defined.

Record AnalysisPostingCandidateSet : Type := mk_candidate_set {
  pcs_source_generation : string;
  pcs_candidates : list PostingPacketCandidate;
}.

Record PostingSelectionSourceProof : Type := mk_source_proof {
  psp_source : CaptureSourceVersion;
  psp_parent : StructuralIndexSnapshot;
  psp_parent_identity : StructuralIndexIdentity;
  psp_posting_identity : PostingIndexIdentity;
}.

Record PostingSelectionPlan : Type := mk_selection_plan {
  plan_candidates : AnalysisPostingCandidateSet;
  plan_source_proofs : list PostingSelectionSourceProof;
}.

Definition candidate_key_leb (a b : PostingPacketCandidate) : bool :=
  pair_lexb (a.(ppc_source_order), a.(ppc_packet_index)) (b.(ppc_source_order), b.(ppc_packet_index)).

Section selection.
Context {W : Type} `{!ExportRepository W}.
(** [hashlib.sha256], [datetime.fromisoformat] and the order of a Python set. *)
Context (sha256_hex : bytes -> string) (fromisoformat : string -> res Z)
        (terms_order : gset bytes -> list bytes).

Definition _ready_parent (source : CaptureSourceVersion) : eff W (option StructuralIndexSnapshot) :=
  compact ← get_structural_index_identity source;
  match compact.(siil_availability), compact.(siil_identity) with
  | READY, Some identity =>
      lookup ← get_structural_index identity.(sii_binding);
      match lookup.(sil_availability), lookup.(sil_snapshot) with
      | READY, Some snapshot =>
          mret (if bool_decide (structural_index_identity snapshot = identity) then Some snapshot else None)
      | _, _ => mret None
      end
  | _, _ => mret None
  end.

Section sources.
Context (kind : source_kind) (predicate : CompiledPacketPredicate).

(** The body of the first loop for one source: its ordinals, and what was
    observed while they were selected. [None] is the code's [return None]. *)
Definition select_source (limits : PostingQueryLimits) (source_order : Z) (item : option descriptor)
    : eff W (option (list PostingPacketCandidate * PostingSelectionSourceProof)) :=
  match item with
  | None => mret None
  | Some d =>
      if negb (equals_int (field d "order") source_order) then mret None
      else
        match text_value (field d "id") with
        | None => mret None
        | Some source_id =>
            current ← _current_source kind source_id;
            match current with
            | None => mret None
            | Some source =>
                if negb (_source_matches_manifest source d kind) then mret None
                else
                  ready ← _ready_parent source;
                  match ready with
                  | None => mret None
                  | Some parent =>
                      lookup ← get_posting_index source parent limits;
                      match lookup.(pil_availability), lookup.(pil_snapshot) with
                      | POSTING_READY, Some posting =>
                          if negb (validate_posting_index sha256_hex posting source parent) then mret None
                          else
                            selected ← eff_lift (select_posting_candidates terms_order
                              posting.(pis_generation) predicate
                              (Some (field_text (d !! "sensor_id"%string))) None (Some limits));
                            match selected with
                            | None => mret None
                            | Some ordinals =>
                                mret (Some
                                  ((fun o => mk_candidate source_order kind source_id
                                       parent.(sis_build_id) o) <$> ordinals,
                                   mk_source_proof source parent (structural_index_identity parent)
                                     (posting_index_identity posting)))
                            end
                      | _, _ => mret None
                      end
                  end
            end
        end
  end.

(** The first loop, over the manifest and its limits; [selected] grows over the
    sources and is bounded. *)
Fixpoint select_sources (global_result_limit : Z) (source_order : Z)
    (manifest : list (PostingQueryLimits * option descriptor))
    (selected : list PostingPacketCandidate) (observed : list PostingSelectionSourceProof)
    : eff W (option (list PostingPacketCandidate * list PostingSelectionSourceProof)) :=
  match manifest with
  | [] => mret (Some (selected, observed))
  | (limits, item) :: manifest' =>
      found ← select_source limits source_order item;
      match found with
      | None => mret None
      | Some (candidates, proof) =>
          let selected := selected ++ candidates in
          if global_result_limit <? zlen selected then mret None
          else select_sources global_result_limit (source_order + 1) manifest' selected
                 (observed ++ [proof])
      end
  end.

(** The second loop: the source and the two identities are read again. *)
Definition confirm_source (item : option descriptor) (proof : PostingSelectionSourceProof)
    : eff W (option PostingSelectionSourceProof) :=
  match item with
  | None => mret None
  | Some d =>
      current ← _current_source kind proof.(psp_source).(csv_source_id);
      match current with
      | None => mret None
      | Some source =>
          if negb (bool_decide (_source_identity source = _source_identity proof.(psp_source)))
             || negb (_source_matches_manifest source d kind) then mret None
          else
            parent ← get_structural_index_identity source;
            if negb (bool_decide (parent.(siil_availability) = READY))
               || negb (bool_decide (parent.(siil_identity) = Some proof.(psp_parent_identity)))
            then mret None
            else
              posting ← get_posting_index_identity source proof.(psp_parent_identity);
              if negb (bool_decide (posting.(piil_availability) = POSTING_READY))
                 || negb (bool_decide (posting.(piil_identity) = Some proof.(psp_posting_identity)))
              then mret None
              else mret (Some (mk_source_proof source proof.(psp_parent) proof.(psp_parent_identity)
                                 proof.(psp_posting_identity)))
      end
  end.

Fixpoint confirm_sources (manifest : list (option descriptor)) (observed : list PostingSelectionSourceProof)
    : eff W (option (list PostingSelectionSourceProof)) :=
  match manifest, observed with
  | item :: manifest', proof :: observed' =>
      confirmed ← confirm_source item proof;
      match confirmed with
      | None => mret None
      | Some p =>
          rest ← confirm_sources manifest' observed';
          mret (cons p <$> rest)
      end
  | _, _ => mret (Some [])
  end.
End sources.

(** [PCAP_UPLOAD] for a canonical capture of one source, [LIVE_SEGMENT] for a
    manifest of segments, nothing for other snapshots. *)
Definition snapshot_source_kind (snapshot_kind : py_scalar) (source_count : Z) : option source_kind :=
  if equals_str snapshot_kind "canonical_capture" then
    if source_count =? 1 then Some PCAP_UPLOAD else None
  else if equals_str snapshot_kind "segment_manifest" then Some LIVE_SEGMENT
  else None.

(** The manifest is within the source limit and the scan limit of the settings. *)
Definition manifest_admitted (settings : SelectionSettings) (max_sources source_count : Z) : bool :=
  let effective_source_limit := Z.min max_sources _HARD_MAX_MANIFEST_SOURCES in
  (0 <? effective_source_limit) && (source_count <=? effective_source_limit)
  && match settings.(set_pcap_export_scan_max_packets) with
     | None => false
     | Some limit => source_count <=? limit
     end.

Definition _select_analysis_posting_plan_from_snapshot (settings : SelectionSettings)
    (internal_networks : list py_scalar) (snapshot : SourceSnapshot) (canonical_request : PacketFilters)
    (max_sources : Z) : eff W (option PostingSelectionPlan) :=
  match snapshot.(ss_source_manifest) with
  | None | Some [] => mret None
  | Some manifest =>
      match snapshot_source_kind snapshot.(ss_source_kind) (zlen manifest) with
      | None => mret None
      | Some kind =>
          if negb (manifest_admitted settings max_sources (zlen manifest)) then mret None
          else
            predicate ← eff_lift (compile_packet_predicate fromisoformat canonical_request
                                    (py_str <$> internal_networks));
            allocated ← eff_lift (_allocated_query_limits settings (zlen manifest));
            match allocated with
            | None => mret None
            | Some limits =>
                found ← select_sources kind predicate settings.(set_query_max_result_ordinals) 0
                          (zip limits manifest) [] [];
                match found with
                | None => mret None
                | Some (selected, observed) =>
                    confirmed ← confirm_sources kind manifest observed;
                    mret ((fun proofs => mk_selection_plan
                             (mk_candidate_set (field_text snapshot.(ss_source_generation))
                                (sort_by candidate_key_leb (remove_dups selected)))
                             proofs) <$> confirmed)
                end
            end
      end
  end.
End selection.

(** ** The facades *)

(** The job as the repository summarises it. *)
Record JobSummary : Type := mk_job_summary {
  js_fields : descriptor;
  js_internal_networks : list py_scalar;
}.

(** The operations only the facade calls. *)
Class JobRepository (W : Type) : Type := {
  get_job_summary : string -> eff W (option JobSummary);
  get_candidate : string -> eff W (option (string * descriptor));
  snapshot_pcap_export_source : string -> PacketFilters -> option Z * option Z -> eff W (option SourceSnapshot);
}.

Definition JOB_NOT_FOUND : exn := ApiError 404 "JOB_NOT_FOUND" "분석 작업을 찾을 수 없습니다".
Definition CANDIDATE_NOT_FOUND : exn := ApiError 404 "CANDIDATE_NOT_FOUND" "후보를 찾을 수 없습니다".
Definition PCAP_SOURCE_NOT_FINAL : exn :=
  ApiError 409 "PCAP_SOURCE_NOT_FINAL" "LIVE analysis must be completed before PCAP export".
Definition PCAP_SOURCE_PROVENANCE_INVALID : exn :=
  ApiError 409 "PCAP_SOURCE_PROVENANCE_INVALID" "PCAP source provenance is invalid".

(** [except ValueError]: a broken provenance is reported, any other refusal is
    no selection. *)
Definition snapshot_failure {A} (e : exn) : res (option A) :=
  match e with
  | ValueError message =>
      if bool_decide (message ∈ ["source_provenance_cycle"; "source_provenance_missing"]%string)
      then Err PCAP_SOURCE_PROVENANCE_INVALID else Ok None
  | e => Err e
  end.

Section facades.
Context {W : Type} `{!ExportRepository W} `{!JobRepository W}.
Context (sha256_hex : bytes -> string) (fromisoformat : string -> res Z)
        (terms_order : gset bytes -> list bytes).

Definition select_analysis_posting_candidates_from_snapshot (settings : SelectionSettings)
    (internal_networks : list py_scalar) (snapshot : SourceSnapshot) (canonical_request : PacketFilters)
    (max_sources : Z) : eff W (option AnalysisPostingCandidateSet) :=
  plan ← _select_analysis_posting_plan_from_snapshot sha256_hex fromisoformat terms_order settings
           internal_networks snapshot canonical_request max_sources;
  mret (plan_candidates <$> plan).

(** The request with the candidate's address, when the candidate is the job's. *)
Definition normalize_candidate (job_id : string) (candidate_id : option string) (request : PacketFilters)
    : eff W PacketFilters :=
  match candidate_id with
  | None => mret request
  | Some id =>
      found ← get_candidate id;
      match found with
      | None => eff_raise CANDIDATE_NOT_FOUND
      | Some (owner, candidate) =>
          _ ← eff_raise_if (negb (bool_decide (owner = job_id))) CANDIDATE_NOT_FOUND;
          match candidate !! "candidate_ip"%string with
          | None => eff_raise (KeyError "candidate_ip")
          | Some ip => mret {| flt_fields := <["candidate_ip"%string := ip]> request.(flt_fields);
                               flt_include_filters := request.(flt_include_filters);
                               flt_exclude_filters := request.(flt_exclude_filters) |}
          end
      end
  end.

(** [snapshot_pcap_export_source] within its [try]; the outer option is the
    early [return None]. *)
Definition snapshot_source (job_id : string) (request : PacketFilters) (settings : SelectionSettings)
    : eff W (option (option SourceSnapshot)) := fun w =>
  let effective_limits :=
    (settings.(set_pcap_export_scan_max_bytes), settings.(set_pcap_export_scan_max_packets)) in
  match snapshot_pcap_export_source job_id request effective_limits w with
  | (Ok snapshot, w') => (Ok (Some snapshot), w')
  | (Err e, w') => (snapshot_failure e, w')
  end.

Definition select_analysis_posting_candidates (settings : SelectionSettings) (job_id : string)
    (canonical_request : PacketFilters) (candidate_id : option string) (max_sources : Z)
    : eff W (option AnalysisPostingCandidateSet) :=
  job ← get_job_summary job_id;
  match job with
  | None => eff_raise JOB_NOT_FOUND
  | Some job =>
      _ ← eff_raise_if (equals_str (field job.(js_fields) "mode") "LIVE"
                        && negb (equals_str (field job.(js_fields) "status") (job_state_name COMPLETED)))
            PCAP_SOURCE_NOT_FINAL;
      normalized ← normalize_candidate job_id candidate_id canonical_request;
      snapshot ← snapshot_source job_id normalized settings;
      match snapshot with
      | None => mret None
      | Some None => eff_raise JOB_NOT_FOUND
      | Some (Some snapshot) =>
          select_analysis_posting_candidates_from_snapshot settings job.(js_internal_networks) snapshot
            normalized max_sources
      end
  end.
End facades.
