(* ===== verification/PlanSelection.v ===== *)
(** * PlanSelection

    What [PostingPlan] guarantees: the limits of a query are shared out exactly,
    and a plan that is returned holds, for every source of the manifest, the
    proof of what its candidates were selected from. *)

From Stdlib Require Import String.
From S2P Require Import Prelude Bytes CaptureFormat PyFloat PostingModel PostingBuild FlowFilter PostingSelect.
From S2P Require Import Samples OffsetIndex OffsetProofs IndexedPlan PostingIndex ExportRepository PostingPlan.
From S2P Require Import StructuralIndex PostingQuery StaticStore.
#[local] Open Scope Z_scope.

(** ** The shares of a limit *)

Lemma sum_shares total n m : forall k,
  0 <= k -> 0 < n ->
  sumZ (share total n) (seqZ k (Z.of_nat m)) =
  Z.of_nat m * (total / n) + (Z.min (k + Z.of_nat m) (total mod n) - Z.min k (total mod n)).
Proof.
  induction m as [|m IH]; intros k Hk Hn; [rewrite seqZ_nil by lia; cbn; lia|].
  rewrite seqZ_cons by lia. replace (Z.pred (Z.of_nat (S m))) with (Z.of_nat m) by lia.
  rewrite sumZ_cons, IH by lia. unfold share. case_match; lia.
Qed.

Lemma shares_partition total n :
  0 < n -> sumZ (share total n) (seqZ 0 n) = total.
Proof.
  intros Hn. rewrite <- (Z2Nat.id n) at 2 by lia. rewrite sum_shares, Z2Nat.id by lia.
  pose proof (Z.mod_pos_bound total n Hn). pose proof (Z.div_mod total n). lia.
Qed.

Lemma share_bounds total n k :
  0 < n <= total -> 1 <= share total n k /\ total / n <= share total n k <= total / n + 1.
Proof.
  intros Hn. unfold share. assert (1 <= total / n) by (apply Z.div_le_lower_bound; lia). case_match; lia.
Qed.

Definition limit_projections : list (PostingQueryLimits -> Z) :=
  [pql_max_operations; pql_max_result_ordinals; pql_max_decoded_memberships; pql_max_directory_chunks;
   pql_max_dictionary_terms].

Definition shared (g : PostingQueryLimits) (n k : Z) (l : PostingQueryLimits) : Prop :=
  Forall (fun f => f l = share (f g) n k) limit_projections.

Lemma query_limits_positive l l' :
  PostingQueryLimits_post_init l = Ok l' -> l' = l /\ Forall (fun f => 1 <= f l) limit_projections.
Proof.
  unfold PostingQueryLimits_post_init, min_limit, limit_projections. simpl. case_match; [done|]. intros [= <-].
  split; [done|]. repeat constructor; lia.
Qed.

Lemma query_limits_init l :
  Forall (fun f => 1 <= f l) limit_projections -> PostingQueryLimits_post_init l = Ok l.
Proof.
  unfold limit_projections, PostingQueryLimits_post_init, min_limit. rewrite !Forall_cons. simpl.
  intros. rewrite (proj2 (Z.leb_gt _ _)) by lia. done.
Qed.

Lemma allocations_spec g n m : forall k,
  Forall (fun f => 0 < n <= f g) limit_projections ->
  exists ls, allocations g n k m = Ok ls /\ length ls = m /\
    Forall2 (shared g n) (seqZ k (Z.of_nat m)) ls.
Proof.
  induction m as [|m IH]; intros k Hg; cbn [allocations].
  - exists []. by rewrite seqZ_nil by lia.
  - unfold allocate. rewrite query_limits_init.
    + cbn [mbind res_bind]. destruct (IH (k + 1) Hg) as (ls & -> & Hlen & Hf). cbn [mbind res_bind].
      eexists. split; [done|]. split; [simpl; lia|]. rewrite seqZ_cons by lia.
      replace (Z.pred (Z.of_nat (S m))) with (Z.of_nat m) by lia. constructor; [|done].
      repeat constructor.
    + unfold limit_projections in *. rewrite !Forall_cons in *. simpl in *. destruct_and!.
      split_and!; try apply Forall_nil_2; by apply share_bounds.
Qed.

(** C32: the global limits of a query are shared out between the sources of a
    manifest exactly. For limits the settings accept, [_allocated_query_limits]
    never raises; it declines if and only if there is no source or a limit is
    smaller than the number of sources; otherwise there is one allocation per
    source, of each limit the allocations add up to the whole of it, and each is
    positive and within one of every other. *)
Theorem allocated_query_limits_partition (settings : SelectionSettings) (source_count : Z)
    (global_limits : PostingQueryLimits) :
  _query_limits settings = Ok global_limits ->
  match _allocated_query_limits settings source_count with
  | Err _ => False
  | Ok None => source_count <= 0 \/ Exists (fun f => f global_limits < source_count) limit_projections
  | Ok (Some ls) =>
      zlen ls = source_count /\
      Forall (fun f => sumZ f ls = f global_limits /\
        Forall (fun l => 1 <= f l /\ f global_limits / source_count <= f l <= f global_limits / source_count + 1) ls)
        limit_projections
  end.
Proof.
  intros Hg. unfold _allocated_query_limits. rewrite Hg. cbn [mbind res_bind].
  destruct (Z.leb_spec source_count 0) as [Hn|Hn]; [by left|]. cbn [orb].
  destruct (existsb _ _) eqn:Hx.
  - right. apply existsb_exists in Hx as (v & Hin & Hv%Z.ltb_lt). unfold limit_projections.
    rewrite !Exists_cons. simpl in Hin. naive_solver.
  - assert (Forall (fun f => 0 < source_count <= f global_limits) limit_projections) as Hall.
    { unfold limit_projections. cbn [limit_fields existsb] in Hx. rewrite !orb_false_iff, !Z.ltb_ge in Hx.
      destruct_and!. by repeat constructor. }
    destruct (allocations_spec _ _ (Z.to_nat source_count) 0 Hall) as (ls & -> & Hlen & Hf).
    cbn [mbind res_bind]. unfold zlen. rewrite Hlen, !Z2Nat.id in * by lia. split; [done|].
    apply Forall_forall. intros f Hfin. rewrite Forall_forall in Hall. specialize (Hall f Hfin).
    assert (f <$> ls = share (f global_limits) source_count <$> seqZ 0 source_count) as Heq.
    { clear -Hf Hfin. induction Hf as [|k l ks ls Hs Hf IH]; [done|]. rewrite !fmap_cons, IH. f_equal.
      unfold shared in Hs. rewrite Forall_forall in Hs. by apply Hs. }
    split.
    + trans (sumZ (share (f global_limits) source_count) (seqZ 0 source_count)); [|by apply shares_partition].
      unfold sumZ. by rewrite Heq.
    + apply (Forall_fmap f (fun v => 1 <= v /\ f global_limits / source_count <= v
        <= f global_limits / source_count + 1)). rewrite Heq. apply Forall_fmap, Forall_forall.
      intros k _. by apply share_bounds.
Qed.

Lemma allocated_query_limits_partition_witness :
  let settings := mk_settings None (Some 10) 100 10 7 8 9 in
  match _allocated_query_limits settings 4 with
  | Ok (Some ls) => zlen ls = 4 /\ sumZ pql_max_result_ordinals ls = 10
  | _ => False
  end.
Proof.
  pose proof (allocated_query_limits_partition (mk_settings None (Some 10) 100 10 7 8 9) 4
    (mk_query_limits 100 10 7 8 9) eq_refl) as H. cbv zeta.
  destruct (_allocated_query_limits (mk_settings None (Some 10) 100 10 7 8 9) 4) as [[ls|]|e] eqn:E;
    [|vm_compute in E; discriminate E|done].
  destruct H as [Hn H]. split; [exact Hn|]. apply Forall_cons in H as [_ H]. apply Forall_cons in H as [[H _] _]. exact H.
Defined.

(** ** The ordinals of a query *)

Lemma query_bind_Ok {A B} (m : query A) (f : A -> query B) s b s' :
  (m ≫= f) s = Ok (b, s') -> exists a s1, m s = Ok (a, s1) /\ f a s1 = Ok (b, s').
Proof.
  unfold mbind, query_bind. destruct (m s) as [[a s1]|e]; [|done]. intros Hb. by exists a, s1.
Qed.

Lemma run_selection_sorted limits g directory terms_order predicate s ordinals s' :
  run_selection limits g directory terms_order predicate s = Ok (ordinals, s') ->
  StronglySorted Z.lt ordinals /\ zlen ordinals <= limits.(pql_max_result_ordinals).
Proof.
  unfold run_selection. intros H. repeat (apply query_bind_Ok in H as (? & ? & ? & H)).
  injection H as <- <-.
  match goal with H : q_raise_if (_ <? Z.of_nat (size ?r)) _ _ = _ |- _ => rename r into result, H into Hsz end.
  split; [apply sort_Z_lt, NoDup_elements|]. unfold zlen. rewrite (sort_by_perm Z.leb (elements result)).
  unfold q_raise_if, q_lift, raise_if in Hsz. destruct (Z.ltb_spec (pql_max_result_ordinals limits) (Z.of_nat (size result)))
    as [|Hle]; [done|]. exact Hle.
Qed.

Lemma select_candidates_sorted terms_order g predicate sensor limits ordinals :
  select_posting_candidates terms_order g predicate (Some sensor) None (Some limits) = Ok (Some ordinals) ->
  StronglySorted Z.lt ordinals.
Proof.
  unfold select_posting_candidates. cbv zeta. set (mismatch := match cp_sensor predicate with Some _ => _ | None => _ end).
  destruct mismatch; [intros [= <-]; constructor|]. unfold select_within.
  destruct (existsb _ _); [done|]. destruct (_ || _); [done|]. destruct (_query_generation_directory _ _) as [directory|e]; cbn [mbind res_bind].
  - destruct (run_selection _ _ _ _ _ _) as [[os s]|e] eqn:Hr; [|by case_match].
    intros [= <-]. by eapply run_selection_sorted.
  - by case_match.
Qed.

(** ** A plan and what it was selected from *)

Section selection.
Context {W : Type} `{!ExportRepository W}.
Context (sha256_hex : bytes -> string) (terms_order : gset bytes -> list bytes).
Context (kind : source_kind) (predicate : CompiledPacketPredicate).

(** The repository gave out this posting snapshot for the source. *)
Definition served (source : CaptureSourceVersion) (parent : StructuralIndexSnapshot)
    (limits : PostingQueryLimits) (posting : PostingIndexSnapshot) : Prop :=
  exists w w', get_posting_index source parent limits w = (Ok (mk_posting_lookup POSTING_READY (Some posting)), w').

(** The repository gave out this structural index as the ready one of the source:
    its compact identity first, and then the snapshot of that identity. *)
Definition ready_index (source : CaptureSourceVersion) (parent : StructuralIndexSnapshot) : Prop :=
  exists w1 w2 w3 w4,
    get_structural_index_identity source w1 =
      (Ok (mk_index_identity_lookup READY (Some (structural_index_identity parent))), w2) /\
    get_structural_index parent.(sis_binding) w3 = (Ok (mk_index_lookup READY (Some parent)), w4).

(** A repository says [READY] of an identity only when
    [structural_index_identity_availability] does, as the repositories of the
    controller decide it. *)
Definition honest_identities : Prop := forall source identity w w',
  get_structural_index_identity source w = (Ok (mk_index_identity_lookup READY (Some identity)), w') ->
  structural_index_identity_availability identity source = READY.

Lemma ready_index_binds source parent :
  honest_identities -> ready_index source parent -> binds parent.(sis_binding) source = true.
Proof.
  intros Hh (w1 & w2 & _ & _ & H%Hh & _). unfold structural_index_identity_availability in H.
  destruct (current_versions _); [|done]. cbn [negb] in H. by destruct (binds _ _).
Qed.

Lemma ready_parent_yields source :
  yields (_ready_parent source) (fun r => match r with None => True | Some parent => ready_index source parent end).
Proof.
  unfold _ready_parent. eapply yields_bind; [apply yields_self|]. intros [av [identity|]] (w1 & w2 & H1);
    [|by destruct av; apply yields_ret]. destruct av; try by apply yields_ret. cbn [siil_availability siil_identity].
  eapply yields_bind; [apply yields_self|]. intros [av [parent|]] (w3 & w4 & H2);
    [|by destruct av; apply yields_ret]. destruct av; try by apply yields_ret. cbn [sil_availability sil_snapshot].
  apply yields_ret. case_bool_decide as Hid; [|done]. subst identity. by exists w1, w2, w3, w4.
Qed.

Lemma validated_binding s source parent :
  validate_posting_index sha256_hex s source parent = true ->
  _binding source (structural_index_identity parent) = Ok s.(pis_binding).
Proof.
  unfold validate_posting_index. destruct (_binding _ _) as [b|e]; [|done]. rewrite !andb_true_iff, !bool_decide_eq_true.
  intros [[[_ ->] _] _]. done.
Qed.

(** The candidates of one source come from postings validated against the
    source and the structural index its proof names: the source version matches
    the entry of the manifest, the structural index is the one the repository
    has ready for that version, and the postings are bound to both. *)
Record source_selected (limits : PostingQueryLimits) (source_order : Z) (d : descriptor)
    (candidates : list PostingPacketCandidate) (proof : PostingSelectionSourceProof) : Prop := {
  sel_order : equals_int (field d "order") source_order = true;
  sel_id : text_value (field d "id") = Some proof.(psp_source).(csv_source_id);
  sel_manifest : _source_matches_manifest proof.(psp_source) d kind = true;
  sel_parent : structural_index_identity proof.(psp_parent) = proof.(psp_parent_identity) /\
    ready_index proof.(psp_source) proof.(psp_parent);
  sel_posting : exists posting ordinals,
    served proof.(psp_source) proof.(psp_parent) limits posting /\
    validate_posting_index sha256_hex posting proof.(psp_source) proof.(psp_parent) = true /\
    _binding proof.(psp_source) proof.(psp_parent_identity) = Ok posting.(pis_binding) /\
    posting_index_identity posting = proof.(psp_posting_identity) /\
    select_posting_candidates terms_order posting.(pis_generation) predicate
      (Some (field_text (d !! "sensor_id"%string))) None (Some limits) = Ok (Some ordinals) /\
    candidates = (fun o => mk_candidate source_order kind proof.(psp_source).(csv_source_id)
                             proof.(psp_parent).(sis_build_id) o) <$> ordinals;
}.

Lemma text_equals v s s' : text_value v = Some s -> equals_str v s' = true -> s = s'.
Proof.
  unfold text_value, equals_str. rewrite bool_decide_eq_true. intros H ->. case_match; congruence.
Qed.

Lemma select_source_yields limits source_order item :
  yields (select_source sha256_hex terms_order kind predicate limits source_order item)
    (fun found => match found with
     | None => True
     | Some (candidates, proof) =>
         exists d, item = Some d /\ source_selected limits source_order d candidates proof
     end).
Proof.
  unfold select_source. destruct item as [d|]; [|by apply yields_ret].
  destruct (equals_int _ _) eqn:Ho; [|by apply yields_ret]. cbn [negb].
  destruct (text_value _) as [source_id|] eqn:Hid; [|by apply yields_ret].
  eapply yields_bind; [apply yields_any|]. intros [source|] _; [|by apply yields_ret].
  destruct (_source_matches_manifest _ _ _) eqn:Hm; [|by apply yields_ret]. cbn [negb].
  eapply yields_bind; [apply ready_parent_yields|]. intros [parent|] Hready; [|by apply yields_ret].
  eapply yields_bind; [apply yields_self|]. intros [av [posting|]] Hserved; [|by destruct av; apply yields_ret].
  destruct av; try by apply yields_ret. cbn [pil_availability pil_snapshot].
  destruct (validate_posting_index _ _ _ _) eqn:Hv; [|by apply yields_ret]. cbn [negb].
  eapply yields_bind; [apply yields_lift; intros r Hr; exact Hr|]. intros [ordinals|] Hsel; [|by apply yields_ret].
  apply yields_ret. exists d. split; [done|].
  assert (source_id = source.(csv_source_id)) as ->.
  { unfold _source_matches_manifest in Hm. rewrite !andb_true_iff in Hm. destruct_and!. by eapply text_equals. }
  pose proof (validated_binding _ _ _ Hv). constructor; try done. by exists posting, ordinals.
Qed.

(** All the sources of a manifest, from [source_order] on. *)
Inductive sources_selected : Z -> list (PostingQueryLimits * option descriptor) ->
    list (list PostingPacketCandidate) -> list PostingSelectionSourceProof -> Prop :=
  | sources_selected_nil order : sources_selected order [] [] []
  | sources_selected_cons order limits d manifest candidates css proof proofs :
      source_selected limits order d candidates proof ->
      sources_selected (order + 1) manifest css proofs ->
      sources_selected order ((limits, Some d) :: manifest) (candidates :: css) (proof :: proofs).

Lemma select_sources_yields limit manifest : forall order selected observed,
  zlen selected <= limit ->
  yields (select_sources sha256_hex terms_order kind predicate limit order manifest selected observed)
    (fun found => match found with
     | None => True
     | Some (selected', observed') => exists css proofs,
         selected' = selected ++ concat css /\ observed' = observed ++ proofs /\
         zlen selected' <= limit /\ sources_selected order manifest css proofs
     end).
Proof.
  induction manifest as [|[limits item] manifest IH]; intros order selected observed Hle; cbn [select_sources].
  - apply yields_ret. exists [], []. rewrite !app_nil_r. split_and!; [done..|constructor].
  - eapply yields_bind; [apply select_source_yields|]. intros [[candidates proof]|]; [|intros _; by apply yields_ret].
    intros (d & -> & Hsel). destruct (Z.ltb_spec limit (zlen (selected ++ candidates))); [by apply yields_ret|].
    eapply yields_mono; [|apply IH; lia]. intros [[selected' observed']|]; [|done].
    intros (css & proofs & -> & -> & Hle' & Hs). exists (candidates :: css), (proof :: proofs).
    cbn [concat]. rewrite <- !app_assoc. split_and!; [done|done|by rewrite app_assoc|by constructor].
Qed.

(** The second pass changes nothing: it only returns what it was given. *)
Lemma confirm_source_yields item proof :
  yields (confirm_source kind item proof) (fun r => match r with None => True | Some p => p = proof end).
Proof.
  unfold confirm_source. destruct item as [d|]; [|by apply yields_ret].
  eapply yields_bind; [apply yields_any|]. intros [source|] _; [|by apply yields_ret].
  destruct (bool_decide _) eqn:Hid; [|by apply yields_ret]. destruct (_source_matches_manifest _ _ _); [|by apply yields_ret].
  cbn [negb orb]. apply bool_decide_eq_true, source_identity_inj in Hid as ->.
  eapply yields_bind; [apply yields_any|]. intros parent _. destruct (_ || _); [by apply yields_ret|].
  eapply yields_bind; [apply yields_any|]. intros posting _. destruct (_ || _); [by apply yields_ret|].
  apply yields_ret. by destruct proof.
Qed.

Lemma confirm_sources_yields manifest : forall observed,
  length observed = length manifest ->
  yields (confirm_sources kind manifest observed) (fun r => match r with None => True | Some ps => ps = observed end).
Proof.
  induction manifest as [|item manifest IH]; intros [|proof observed] Hlen; try done; cbn [confirm_sources];
    [by apply yields_ret|].
  eapply yields_bind; [apply confirm_source_yields|]. intros [p|] Hp; [|by apply yields_ret].
  eapply yields_bind; [apply IH; simpl in Hlen; lia|]. intros [ps|] Hps; [|by apply yields_ret].
  apply yields_ret. simpl. congruence.
Qed.

Definition candidate_before (a b : PostingPacketCandidate) : Prop :=
  a.(ppc_source_order) < b.(ppc_source_order) \/
  a.(ppc_source_order) = b.(ppc_source_order) /\ a.(ppc_packet_index) < b.(ppc_packet_index).

Lemma source_selected_candidates limits order d candidates proof :
  source_selected limits order d candidates proof ->
  StronglySorted candidate_before candidates /\ Forall (fun c => c.(ppc_source_order) = order) candidates.
Proof.
  intros [_ _ _ _ (posting & ordinals & _ & _ & _ & _ & Hsel%select_candidates_sorted & ->)]. split.
  - eapply StronglySorted_fmap; [|exact Hsel]. intros x y Hxy. right. simpl. lia.
  - apply Forall_fmap, Forall_forall. done.
Qed.

Lemma sources_selected_sorted order manifest css proofs :
  sources_selected order manifest css proofs ->
  StronglySorted candidate_before (concat css) /\ Forall (fun c => order <= c.(ppc_source_order)) (concat css).
Proof.
  induction 1 as [|order limits d manifest cs css proof proofs Hs _ [IH1 IH2]]; [split; constructor|].
  apply source_selected_candidates in Hs as [Hc Ho]. cbn [concat]. split.
  - apply StronglySorted_app. split_and!; [|done|done]. intros a b Ha Hb. left.
    rewrite Forall_forall in Ho, IH2. specialize (Ho a Ha). specialize (IH2 b Hb). simpl in *. lia.
  - apply Forall_app. split; [eapply Forall_impl; [exact Ho|]; simpl; lia|eapply Forall_impl; [exact IH2|]; simpl; lia].
Qed.

Lemma sources_selected_length order manifest css proofs :
  sources_selected order manifest css proofs -> length proofs = length manifest /\ length css = length manifest.
Proof. induction 1; simpl; lia. Qed.

Lemma sources_selected_bound order manifest css proofs :
  honest_identities -> sources_selected order manifest css proofs ->
  Forall (fun proof => binds proof.(psp_parent).(sis_binding) proof.(psp_source) = true) proofs.
Proof.
  intros Hh. induction 1 as [|order limits d manifest cs css proof proofs [_ _ _ [_ Hr] _] _ IH]; constructor; [|done].
  by apply ready_index_binds.
Qed.
End selection.

Lemma remove_dups_sorted cs : StronglySorted candidate_before cs -> remove_dups cs = cs.
Proof.
  induction 1 as [|c cs _ IH Hc]; [done|]. simpl.
  destruct (decide_rel _ c cs) as [Hin|_]; [|by rewrite IH]. rewrite Forall_forall in Hc.
  specialize (Hc c Hin). unfold candidate_before in Hc. lia.
Qed.

Lemma sort_candidates_sorted cs : StronglySorted candidate_before cs -> sort_by candidate_key_leb cs = cs.
Proof.
  intros Hs. apply sort_by_sorted. rewrite <- (list_fmap_id cs). eapply StronglySorted_fmap; [|exact Hs].
  intros a b Hab. unfold candidate_key_leb, pair_lexb. simpl. unfold candidate_before in Hab. unfold id. lia.
Qed.

Lemma allocations_length g n m : forall k ls, allocations g n k m = Ok ls -> length ls = m.
Proof.
  induction m as [|m IH]; intros k ls H; cbn [allocations] in H; [by injection H as <-|].
  apply bind_Ok in H as (l & _ & (rest & Hr & [= <-])%bind_Ok). simpl. f_equal. by eapply IH.
Qed.

Lemma allocated_inv settings n ls :
  _allocated_query_limits settings n = Ok (Some ls) ->
  zlen ls = n /\ 1 <= settings.(set_query_max_result_ordinals).
Proof.
  unfold _allocated_query_limits. intros (g & Hg & H)%bind_Ok.
  apply query_limits_positive in Hg as [_ Hp]. unfold limit_projections in Hp. rewrite !Forall_cons in Hp. simpl in Hp.
  destruct (Z.leb_spec n 0); [done|]. cbn [orb] in H. destruct (existsb _ _); [done|].
  apply bind_Ok in H as (ls' & Hl%allocations_length & [= ->]). unfold zlen. split; [lia|apply Hp].
Qed.

(** What a plan holds. *)
Definition sound_plan {W : Type} {repository : ExportRepository W} (sha256_hex : bytes -> string)
    (fromisoformat : string -> res Z) (terms_order : gset bytes -> list bytes)
    (settings : SelectionSettings) (internal_networks : list py_scalar) (snapshot : SourceSnapshot)
    (request : PacketFilters) (plan : PostingSelectionPlan) : Prop :=
  exists manifest kind predicate limits css,
    snapshot.(ss_source_manifest) = Some manifest /\ 1 <= zlen manifest <= _HARD_MAX_MANIFEST_SOURCES /\
    snapshot_source_kind snapshot.(ss_source_kind) (zlen manifest) = Some kind /\
    compile_packet_predicate fromisoformat request (py_str <$> internal_networks) = Ok predicate /\
    _allocated_query_limits settings (zlen manifest) = Ok (Some limits) /\
    sources_selected (W := W) sha256_hex terms_order kind predicate 0 (zip limits manifest) css
      plan.(plan_source_proofs) /\
    zlen plan.(plan_source_proofs) = zlen manifest /\
    plan.(plan_candidates) = mk_candidate_set (field_text snapshot.(ss_source_generation)) (concat css) /\
    StronglySorted candidate_before (concat css) /\
    zlen (concat css) <= settings.(set_query_max_result_ordinals).

(** Whatever the repository does, a plan that is returned is sound. *)
Lemma select_plan_yields {W : Type} {repository : ExportRepository W} sha256_hex fromisoformat terms_order settings
    internal_networks snapshot request max_sources :
  yields (_select_analysis_posting_plan_from_snapshot sha256_hex fromisoformat terms_order settings
    internal_networks snapshot request max_sources) (fun r => match r with
    | None => True
    | Some plan => sound_plan (W := W) sha256_hex fromisoformat terms_order settings internal_networks snapshot request plan
    end).
Proof.
  unfold _select_analysis_posting_plan_from_snapshot.
  destruct snapshot.(ss_source_manifest) as [[|item0 manifest0]|] eqn:Hman; [by apply yields_ret| |by apply yields_ret].
  set (manifest := item0 :: manifest0). assert (1 <= zlen manifest) as H1 by (unfold manifest, zlen; simpl; lia).
  destruct (snapshot_source_kind _ _) as [kind|] eqn:Hk; [|by apply yields_ret].
  destruct (manifest_admitted _ _ _) eqn:Hadm; [|by apply yields_ret]. cbn [negb].
  eapply yields_bind; [apply yields_lift; intros p Hp; exact Hp|]. intros predicate Hp.
  eapply yields_bind; [apply yields_lift; intros l Hl; exact Hl|]. intros [limits|] Hl; [|by apply yields_ret].
  destruct (allocated_inv _ _ _ Hl) as [Hlen Hpos].
  eapply yields_bind; [apply select_sources_yields; rewrite zlen_nil; lia|].
  intros [[selected observed]|]; [|intros _; by apply yields_ret].
  intros (css & proofs & -> & -> & Hle & Hs). rewrite !app_nil_l in *.
  pose proof (sources_selected_length _ _ _ _ _ _ _ _ Hs) as [Hlp _].
  destruct (sources_selected_sorted _ _ _ _ _ _ _ _ Hs) as [Hsort _].
  assert (length proofs = length manifest) as Hpm by (rewrite Hlp, length_zip; unfold zlen in Hlen; lia).
  eapply yields_bind; [by apply confirm_sources_yields|]. intros [ps|]; [intros ->|by intros _; apply yields_ret].
  apply yields_ret. exists manifest, kind, predicate, limits, css.
  cbn [plan_source_proofs plan_candidates].
  rewrite remove_dups_sorted, sort_candidates_sorted by done.
  unfold manifest_admitted in Hadm. rewrite !andb_true_iff in Hadm.
  split_and!; try done; [lia|unfold zlen; lia].
Qed.

(** C33: a posting plan is what its name says, whatever the repository does
    between two calls. When one is returned, there is a proof for every entry of
    the manifest, in order, and the source version it names matches the entry;
    the structural index it names is the one the repository gave out as ready for
    that very version; each entry's candidates are exactly the ordinals its
    query selected from postings that were validated against both and are bound
    to both; the candidates of all sources together are strictly ordered, without
    repetition, and no more than the global result limit; and the manifest has
    at most 1024 entries, each queried within its share of the limits. That a
    structural index is itself bound to the source is left to the repository: it
    follows in every proof when the repository calls an identity ready only if
    [structural_index_identity_availability] does. *)
Theorem selection_plan_sound (W : Type) (repository : ExportRepository W) (sha256_hex : bytes -> string)
    (fromisoformat : string -> res Z) (terms_order : gset bytes -> list bytes)
    (settings : SelectionSettings) (internal_networks : list py_scalar) (snapshot : SourceSnapshot)
    (request : PacketFilters) (max_sources : Z) (w w' : W) (plan : PostingSelectionPlan) :
  _select_analysis_posting_plan_from_snapshot sha256_hex fromisoformat terms_order settings
    internal_networks snapshot request max_sources w = (Ok (Some plan), w') ->
  sound_plan (W := W) sha256_hex fromisoformat terms_order settings internal_networks snapshot request plan /\
  (honest_identities (W := W) ->
   Forall (fun proof => binds proof.(psp_parent).(sis_binding) proof.(psp_source) = true) plan.(plan_source_proofs)).
Proof.
  intros H. pose proof (select_plan_yields _ _ _ _ _ _ _ _ w (Some plan) w' H) as Hp. split; [exact Hp|].
  intros Hh. destruct Hp as (? & ? & ? & ? & ? & _ & _ & _ & _ & _ & Hs & _). by eapply sources_selected_bound.
Qed.

Definition sample_settings : SelectionSettings := mk_settings (Some 4096) (Some 100) 10000 100 1000 1000 1000.

Lemma sample_store_honest :
  @honest_identities unit (static_repository (sample_store PCAPNG sample_pcapng)).
Proof.
  intros source identity w w' H. cbn [get_structural_index_identity static_repository] in H.
  unfold store_entry, store_find, sample_store in H.
  destruct (sample_posting PCAPNG sample_pcapng) as [posting|e]; [|done]. rewrite filter_cons in H.
  case_decide as Hs; [|done]. apply bool_decide_eq_true in Hs as <-. injection H as <- _. vm_compute. reflexivity.
Qed.

Lemma selection_plan_sound_witness :
  let repository := static_repository (sample_store PCAPNG sample_pcapng) in
  match _select_analysis_posting_plan_from_snapshot zero_digest sample_fromisoformat elements sample_settings
          [PStr "10.0.0.0/8"] (sample_source_snapshot sample_pcapng) sample_filters 8 tt with
  | (Ok (Some plan), _) =>
      zlen plan.(plan_candidates).(pcs_candidates) = 1 /\
      sound_plan zero_digest sample_fromisoformat elements sample_settings [PStr "10.0.0.0/8"]
        (sample_source_snapshot sample_pcapng) sample_filters plan /\
      Forall (fun proof => binds proof.(psp_parent).(sis_binding) proof.(psp_source) = true) plan.(plan_source_proofs)
  | _ => False
  end.
Proof.
  intros repository.
  destruct (_select_analysis_posting_plan_from_snapshot zero_digest sample_fromisoformat elements sample_settings
    [PStr "10.0.0.0/8"] (sample_source_snapshot sample_pcapng) sample_filters 8 tt)
    as [[[plan|]|e] w'] eqn:E; [|vm_compute in E; discriminate E..].
  split; [vm_compute in E; injection E as <- _; reflexivity|].
  destruct (selection_plan_sound _ repository zero_digest sample_fromisoformat elements sample_settings
    [PStr "10.0.0.0/8"%string] (sample_source_snapshot sample_pcapng) sample_filters 8 _ _ _ E) as [Hp Hb].
  split; [exact Hp|apply Hb]. apply sample_store_honest.
Defined.

(** ** The facade *)

Section facade.
Context {W : Type} `{!ExportRepository W} `{!JobRepository W}.

(** A value the repository gave out at some point. *)
Definition gave {A} (m : eff W A) (a : A) : Prop := exists w w', m w = (Ok a, w').

(** The request a selection is made for: the caller's, or with the address of a
    candidate of the same job. *)
Definition authorized_request (job_id : string) (candidate_id : option string) (request normalized : PacketFilters)
    : Prop :=
  match candidate_id with
  | None => normalized = request
  | Some id => exists candidate ip, gave (get_candidate id) (Some (job_id, candidate)) /\
      candidate !! "candidate_ip"%string = Some ip /\
      normalized.(flt_fields) = <["candidate_ip"%string := ip]> request.(flt_fields) /\
      normalized.(flt_include_filters) = request.(flt_include_filters) /\
      normalized.(flt_exclude_filters) = request.(flt_exclude_filters)
  end.

Lemma normalize_candidate_yields job_id candidate_id request :
  yields (normalize_candidate job_id candidate_id request) (authorized_request job_id candidate_id request).
Proof.
  unfold normalize_candidate, authorized_request. destruct candidate_id as [id|]; [|by apply yields_ret].
  eapply yields_bind; [apply yields_self|]. intros [[owner candidate]|] Hc; [|apply yields_raise].
  apply (yields_bind _ _ (fun _ => owner = job_id)).
  { apply yields_raise_if. by intros ?%negb_false_iff%bool_decide_eq_true. }
  intros _ ->. destruct (candidate !! _) as [ip|] eqn:Hip; [|apply yields_raise]. apply yields_ret.
  exists candidate, ip. split_and!; done.
Qed.

Lemma snapshot_source_yields job_id request settings :
  yields (snapshot_source job_id request settings) (fun r => match r with
    | Some (Some snapshot) => gave (snapshot_pcap_export_source job_id request
        (settings.(set_pcap_export_scan_max_bytes), settings.(set_pcap_export_scan_max_packets))) (Some snapshot)
    | _ => True
    end).
Proof.
  intros w [[snapshot|]|] w' H; [|done..]. unfold snapshot_source in H. cbv zeta in H.
  destruct (snapshot_pcap_export_source _ _ _ w) as [[s|e] w1] eqn:E; injection H as H <-.
  - subst s. by exists w, w1.
  - unfold snapshot_failure in H. repeat case_match; done.
Qed.
End facade.

(** C36: a selection is made only for an authorised request. When
    [select_analysis_posting_candidates] returns candidates, the job exists and,
    if it is a LIVE job, is COMPLETED; a candidate that was named belongs to that
    job, and only its address was added to the request; and the candidates are
    those of a sound plan for that request over the source snapshot the
    repository made for the job. *)
Theorem selection_authorized (W : Type) (repository : ExportRepository W) (jobs : JobRepository W)
    (sha256_hex : bytes -> string) (fromisoformat : string -> res Z) (terms_order : gset bytes -> list bytes)
    (settings : SelectionSettings) (job_id : string) (request : PacketFilters) (candidate_id : option string)
    (max_sources : Z) (w w' : W) (candidates : AnalysisPostingCandidateSet) :
  select_analysis_posting_candidates sha256_hex fromisoformat terms_order settings job_id request candidate_id
    max_sources w = (Ok (Some candidates), w') ->
  exists job normalized snapshot plan,
    gave (get_job_summary job_id) (Some job) /\
    (field job.(js_fields) "mode" = PStr "LIVE" -> field job.(js_fields) "status" = PStr "COMPLETED") /\
    authorized_request job_id candidate_id request normalized /\
    gave (snapshot_pcap_export_source job_id normalized
            (settings.(set_pcap_export_scan_max_bytes), settings.(set_pcap_export_scan_max_packets))) (Some snapshot) /\
    sound_plan (W := W) sha256_hex fromisoformat terms_order settings job.(js_internal_networks) snapshot normalized plan /\
    plan.(plan_candidates) = candidates.
Proof.
  intros Hrun. revert w candidates w' Hrun. unfold select_analysis_posting_candidates.
  match goal with |- forall w c w', ?m w = (Ok (Some c), w') -> @?Q c =>
    cut (yields m (fun r => match r with Some c => Q c | None => True end)); [intros H w c w' Hr; exact (H w (Some c) w' Hr)|] end.
  eapply yields_bind; [apply yields_self|]. intros [job|] Hjob; [|apply yields_raise].
  apply (yields_bind _ _ (fun _ => field job.(js_fields) "mode" = PStr "LIVE" ->
    field job.(js_fields) "status" = PStr "COMPLETED")).
  { apply yields_raise_if. unfold equals_str. intros [H|H]%andb_false_iff Hm.
    - by rewrite bool_decide_true in H.
    - by apply negb_false_iff, bool_decide_eq_true in H. }
  intros _ Hlive. eapply yields_bind; [apply normalize_candidate_yields|]. intros normalized Hnorm.
  eapply yields_bind; [apply snapshot_source_yields|]. intros [[snapshot|]|] Hsnap; [|apply yields_raise|by apply yields_ret].
  unfold select_analysis_posting_candidates_from_snapshot.
  eapply yields_bind; [apply select_plan_yields|]. intros [plan|] Hplan; apply yields_ret; [|done].
  simpl. exists job, normalized, snapshot, plan. split_and!; done.
Qed.

(** A job over the sample store. *)
Definition sample_jobs : JobRepository unit := {|
  get_job_summary id := mret (if bool_decide (id = "job"%string)
    then Some (mk_job_summary {["mode" := PStr "LIVE"; "status" := PStr "COMPLETED"]}%string [PStr "10.0.0.0/8"])
    else None);
  get_candidate id := mret (Some ("job"%string, {["candidate_ip"%string := PStr "10.0.0.1"]}));
  snapshot_pcap_export_source job request limits := mret (Some (sample_source_snapshot sample_pcapng));
|}.

Lemma selection_authorized_witness :
  let repository := static_repository (sample_store PCAPNG sample_pcapng) in
  match @select_analysis_posting_candidates unit repository sample_jobs zero_digest sample_fromisoformat elements
          sample_settings "job" sample_filters (Some "candidate"%string) 8 tt with
  | (Ok (Some candidates), _) => exists normalized,
      @authorized_request unit sample_jobs "job" (Some "candidate"%string) sample_filters normalized
  | _ => False
  end.
Proof.
  intros repository.
  destruct (@select_analysis_posting_candidates unit repository sample_jobs zero_digest sample_fromisoformat elements
    sample_settings "job" sample_filters (Some "candidate"%string) 8 tt) as [[[candidates|]|e] w'] eqn:E;
    [|vm_compute in E; discriminate E..].
  destruct (selection_authorized unit repository sample_jobs zero_digest sample_fromisoformat elements sample_settings
    "job" sample_filters (Some "candidate"%string) 8 tt w' candidates E) as (job & normalized & _ & _ & _ & _ & H & _).
  exists normalized. exact H.
Defined.
