(* ===== verification/IndexedCollect.v ===== *)
(** * IndexedCollect

    pcap_indexed_export.py, [collect_indexed_matches]: the sources of a posting
    plan are located and planned one after the other within the scan budget,
    every identity is read again, and only then are the ranges fetched, the
    packets rebuilt and matched; the identities are read once more before the
    batch is returned.  pcap_stream.py's [MatchedPacketRecord] is what a match
    becomes. *)

From Stdlib Require Import String.
From S2P Require Import Prelude Bytes CaptureFormat StructuralIndex ExportDecoder PacketProjection PyFloat FlowFilter.
From S2P Require Import PostingModel OffsetIndex IndexedPlan PostingIndex ExportRepository PostingPlan.
#[local] Open Scope Z_scope.

(** ** Matches *)

Record MatchedPacketRecord : Type := mk_match {
  mpr_source_id : string;
  mpr_source_order : Z;
  mpr_packet_index : Z;
  mpr_section_index : Z;
  mpr_interface_id : Z;
  mpr_interface_ordinal : Z;
  mpr_link_type : Z;
  mpr_timestamp : Z;   (* microseconds since the epoch *)
  mpr_raw_packet_bytes : bytes;
  mpr_captured_length : Z;
  mpr_original_length : Z;
  mpr_sensor_id : string;
  mpr_source_ip : option string;
  mpr_destination_ip : option string;
  mpr_source_port : option Z;
  mpr_destination_port : option Z;
  mpr_protocol : option string;
  mpr_direction : option string;
  mpr_has_payload : option bool;
}.

Definition from_export_packet (packet : ExportPacket) (sensor_id : string) : MatchedPacketRecord :=
  let l := packet.(ep_locator) in
  let i := packet.(ep_interface) in
  let p := packet.(ep_projection) in
  mk_match l.(loc_source_id) l.(loc_source_order) l.(loc_packet_index) i.(ci_section_index)
    i.(ci_interface_id) i.(ci_interface_ordinal) i.(ci_link_type) packet.(ep_timestamp)
    packet.(ep_raw_packet_bytes) (zlen packet.(ep_raw_packet_bytes)) packet.(ep_original_length)
    sensor_id p.(pp_source_ip) p.(pp_destination_ip) p.(pp_source_port) p.(pp_destination_port)
    p.(pp_protocol) (direction_str <$> p.(pp_direction)) p.(pp_has_payload).

(** ** Batches *)

Record IndexedSourceIdentityProof : Type := mk_identity_proof {
  isp_source : CaptureSourceVersion;
  isp_parent_identity : StructuralIndexIdentity;
  isp_posting_identity : PostingIndexIdentity;
}.

Record PlannedIndexedSource : Type := mk_planned {
  pln_source : CaptureSourceVersion;
  pln_parent : StructuralIndexSnapshot;
  pln_located : LocatedPacketSelection;
  pln_range_plan : RangePlan;
  pln_sensor_id : string;
  pln_scanned_packets_before : Z;
  pln_identity_proof : IndexedSourceIdentityProof;
}.

Record IndexedMatchBatch : Type := mk_batch {
  imb_records : list MatchedPacketRecord;
  imb_source_capture_count : Z;
  imb_scanned_source_capture_count : Z;
  imb_source_total_bytes : Z;
  imb_scanned_source_bytes : Z;
  imb_scanned_packet_count : Z;
  imb_source_manifest : list (string * string);
  imb_truncation_reasons : list string;
  imb_range_count : Z;
  imb_selected_payload_bytes : Z;
  imb_fetched_bytes : Z;
  imb_identity_proof : list IndexedSourceIdentityProof;
  imb_requested_range_count : Z;
}.

(** [_fallback_for_range_error] on the [CaptureRangeError] subclasses. *)
Definition _fallback_for_range_error (e : exn) : option exn :=
  match e with
  | CaptureRangeMissing => Some (fallback RANGE_MISSING)
  | CaptureRangeShortRead => Some (fallback RANGE_SHORT)
  | CaptureRangeVersionDrift => Some (fallback VERSION_DRIFT)
  | CaptureRangeUnavailable => Some (fallback RANGE_UNAVAILABLE)
  | _ => None
  end.

(** [except PcapParseError: raise IndexedFallback(INDEX_CORRUPT)] *)
Definition corrupt_packet {A} (r : res A) : res A :=
  match r with Err (PcapParseError _ _) => Err (fallback INDEX_CORRUPT) | r => r end.

(** [tuple(dict.fromkeys(l))] *)
Fixpoint dict_fromkeys (seen : gset string) (l : list string) : list string :=
  match l with
  | [] => []
  | x :: l' => if bool_decide (x ∈ seen) then dict_fromkeys seen l'
               else x :: dict_fromkeys ({[x]} ∪ seen) l'
  end.

(** ** Checks of the plan against the manifest *)

(** One entry and its proof. *)
Definition check_entry (kind : source_kind) (source_order : Z)
    (entry : option descriptor * PostingSelectionSourceProof) : res unit :=
  match entry.1 with
  | None => Err (fallback UNSUPPORTED_SOURCE)
  | Some d =>
      _ ← raise_if (negb (equals_int (field d "order") source_order)
                    || bool_decide (text_value (field d "id") = None)) (fallback UNSUPPORTED_SOURCE);
      raise_if (negb (_source_matches_manifest entry.2.(psp_source) d kind)) (fallback OWNERSHIP_CHANGED)
  end.

Fixpoint check_entries (kind : source_kind) (source_order : Z)
    (entries : list (option descriptor * PostingSelectionSourceProof)) : res unit :=
  match entries with
  | [] => Ok tt
  | entry :: entries' =>
      _ ← check_entry kind source_order entry; check_entries kind (source_order + 1) entries'
  end.

(** The candidate belongs to the entry and proof its order names. *)
Definition check_candidate (kind : source_kind) (entry : option descriptor * PostingSelectionSourceProof)
    (c : PostingPacketCandidate) : bool :=
  match entry.1 with
  | None => false
  | Some d =>
      let proof := entry.2 in
      equals_str (field d "id") c.(ppc_source_id)
      && bool_decide (c.(ppc_source_kind) = kind)
      && bool_decide (c.(ppc_source_kind) = proof.(psp_source).(csv_source_kind))
      && bool_decide (c.(ppc_source_id) = proof.(psp_source).(csv_source_id))
      && bool_decide (c.(ppc_parent_structural_build_id) = proof.(psp_parent_identity).(sii_build_id))
  end.

(** [selected_by_source] *)
Fixpoint group_candidates_by_source (kind : source_kind)
    (entries : list (option descriptor * PostingSelectionSourceProof))
    (candidates : list PostingPacketCandidate) (selected : gmap Z (list Z)) : res (gmap Z (list Z)) :=
  match candidates with
  | [] => Ok selected
  | c :: candidates' =>
      let o := c.(ppc_source_order) in
      match (if o <? 0 then None else entries !! Z.to_nat o) with
      | None => Err (fallback INDEX_CORRUPT)
      | Some entry =>
          _ ← raise_if (negb (check_candidate kind entry c)) (fallback OWNERSHIP_CHANGED);
          group_candidates_by_source kind entries candidates'
            (<[o := default [] (selected !! o) ++ [c.(ppc_packet_index)]]> selected)
      end
  end.

(** [ordinals == sorted(set(ordinals))] *)
Definition ordinals_canonical (ordinals : list Z) : bool :=
  bool_decide (sort_by Z.leb (elements (list_to_set ordinals : gset Z)) = ordinals).

(** ** Planning *)

Record CollectState : Type := mk_collect {
  col_planned : list PlannedIndexedSource;
  col_source_manifest : list (string * string);
  col_truncation : list string;
  col_scanned_bytes : Z;
  col_scanned_packets : Z;
  col_scanned_sources : Z;
  col_range_count : Z;
  col_selected_payload_bytes : Z;
  col_fetched_bytes : Z;
}.

Definition collect_initial : CollectState := mk_collect [] [] [] 0 0 0 0 0 0.

Section collect.
Context {W : Type} `{!ExportRepository W} `{!ExportHooks W}.
(** [hashlib.sha256] and [datetime.fromisoformat]. *)
Context (sha256_hex : bytes -> string) (fromisoformat : string -> res Z).

Definition _fence_indexed_source_proof (proof : IndexedSourceIdentityProof) : eff W unit :=
  source ← _current_source proof.(isp_source).(csv_source_kind) proof.(isp_source).(csv_source_id);
  match source with
  | None => eff_raise (fallback OWNERSHIP_CHANGED)
  | Some source =>
      _ ← eff_raise_if (negb (bool_decide (_source_identity source = _source_identity proof.(isp_source))))
            (fallback OWNERSHIP_CHANGED);
      parent ← get_structural_index_identity source;
      _ ← eff_raise_if (negb (bool_decide (parent.(siil_availability) = READY))
                        || negb (bool_decide (parent.(siil_identity) = Some proof.(isp_parent_identity))))
            (fallback OWNERSHIP_CHANGED);
      posting ← get_posting_index_identity source proof.(isp_parent_identity);
      _ ← eff_raise_if (negb (bool_decide (posting.(piil_availability) = POSTING_READY))
                        || negb (bool_decide (posting.(piil_identity) = Some proof.(isp_posting_identity))))
            (fallback OWNERSHIP_CHANGED);
      _run_checks
  end.

Fixpoint _fence_indexed_source_proofs (proofs : list IndexedSourceIdentityProof) : eff W unit :=
  match proofs with
  | [] => mret tt
  | proof :: proofs' => _ ← _fence_indexed_source_proof proof; _fence_indexed_source_proofs proofs'
  end.

(** The identity reads of one entry, up to [_run_checks]: the current source. *)
Definition admit_source (source_order : Z) (item : option descriptor) (proof : PostingSelectionSourceProof)
    : eff W CaptureSourceVersion :=
  match item with
  | None => eff_raise (fallback UNSUPPORTED_SOURCE)
  | Some d =>
      _ ← eff_raise_if (negb (equals_int (field d "order") source_order)) (fallback UNSUPPORTED_SOURCE);
      match text_value (field d "id") with
      | None => eff_raise (fallback UNSUPPORTED_SOURCE)
      | Some source_id =>
          current ← _current_source proof.(psp_source).(csv_source_kind) source_id;
          match current with
          | None => eff_raise (fallback OWNERSHIP_CHANGED)
          | Some source =>
              _ ← eff_raise_if
                    (negb (bool_decide (_source_identity source = _source_identity proof.(psp_source)))
                     || negb (version_matches source d)) (fallback OWNERSHIP_CHANGED);
              parent ← get_structural_index_identity source;
              _ ← eff_raise_if (bool_decide (parent.(siil_availability) = MISSING)) (fallback INDEX_UNAVAILABLE);
              _ ← eff_raise_if
                    (negb (bool_decide (parent.(siil_availability) = READY))
                     || negb (bool_decide (parent.(siil_identity) = Some proof.(psp_parent_identity))))
                    (fallback INDEX_CORRUPT);
              _ ← eff_raise_if
                    (negb (bool_decide (structural_index_identity proof.(psp_parent) = proof.(psp_parent_identity)))
                     || negb (validate_structural_index sha256_hex proof.(psp_parent))) (fallback INDEX_CORRUPT);
              posting ← get_posting_index_identity source proof.(psp_parent_identity);
              _ ← eff_raise_if
                    (negb (bool_decide (posting.(piil_availability) = POSTING_READY))
                     || negb (bool_decide (posting.(piil_identity) = Some proof.(psp_posting_identity))))
                    (fallback OWNERSHIP_CHANGED);
              _ ← _run_checks;
              mret source
          end
      end
  end.

Section planning.
Context (scan_max_bytes scan_max_packets : Z) (range_limits : RangePlanLimits) (selected : gmap Z (list Z)).

(** Locating and planning one admitted source. *)
Definition plan_admitted_source (source_order : Z) (item : option descriptor)
    (proof : PostingSelectionSourceProof) (source : CaptureSourceVersion) (st : CollectState)
    : res (PlannedIndexedSource * CollectState) :=
  let parent := proof.(psp_parent) in
  located ← locate_selected_packets source parent source_order sha256_hex parent.(sis_build_id)
    (default [] (selected !! source_order)) (scan_max_bytes - st.(col_scanned_bytes))
    (scan_max_packets - st.(col_scanned_packets));
  plan ← plan_source_packet_ranges (_source_range_limits range_limits) located.(lps_locators);
  _ ← _validate_exact_range_plan plan located.(lps_locators);
  let next_range_count := st.(col_range_count) + zlen plan.(rp_ranges) in
  let next_fetched_bytes := st.(col_fetched_bytes) + plan.(rp_fetched_bytes) in
  _ ← raise_if ((range_limits.(rpl_max_ranges) <? next_range_count)
                || (range_limits.(rpl_max_total_fetched_bytes) <? next_fetched_bytes))
        (fallback RESOURCE_LIMIT);
  let planned := mk_planned source parent located plan
    (match item with Some d => field_text (d !! "sensor_id"%string) | None => ""%string end)
    st.(col_scanned_packets)
    (mk_identity_proof source proof.(psp_parent_identity) proof.(psp_posting_identity)) in
  Ok (planned, mk_collect (st.(col_planned) ++ [planned])
        (st.(col_source_manifest) ++ [(source.(csv_source_id), source.(csv_source_sha256))])
        (st.(col_truncation) ++ (if located.(lps_byte_limited) then ["SOURCE_BYTE_LIMIT"%string] else [])
         ++ (if located.(lps_packet_limited) then ["SOURCE_PACKET_LIMIT"%string] else []))
        (st.(col_scanned_bytes) + located.(lps_scanned_bytes))
        (st.(col_scanned_packets) + located.(lps_admitted_packet_count))
        (st.(col_scanned_sources) + if located.(lps_admitted_packet_count) =? 0 then 0 else 1)
        next_range_count (st.(col_selected_payload_bytes) + plan.(rp_selected_payload_bytes))
        next_fetched_bytes).

Definition with_truncation (reason : string) (st : CollectState) : CollectState :=
  mk_collect st.(col_planned) st.(col_source_manifest) (st.(col_truncation) ++ [reason])
    st.(col_scanned_bytes) st.(col_scanned_packets) st.(col_scanned_sources) st.(col_range_count)
    st.(col_selected_payload_bytes) st.(col_fetched_bytes).

(** The loop over the manifest; it ends early at a limit. *)
Fixpoint plan_sources (source_order : Z) (entries : list (option descriptor * PostingSelectionSourceProof))
    (st : CollectState) : eff W CollectState :=
  match entries with
  | [] => mret st
  | (item, proof) :: entries' =>
      _ ← _run_checks;
      source ← admit_source source_order item proof;
      if scan_max_packets - st.(col_scanned_packets) <? 1 then
        mret (with_truncation "SOURCE_PACKET_LIMIT" st)
      else if scan_max_bytes - st.(col_scanned_bytes) <? 1 then
        mret (with_truncation "SOURCE_BYTE_LIMIT" st)
      else
        '(planned, st) ← eff_lift (plan_admitted_source source_order item proof source st);
        if planned.(pln_located).(lps_byte_limited) || planned.(pln_located).(lps_packet_limited)
        then mret st
        else plan_sources (source_order + 1) entries' st
  end.
End planning.

(** ** Fetching *)

(** The slices of one fetched range. *)
Fixpoint cut_slices (r : CoalescedRange) (content : bytes) (slices : list PacketRangeSlice)
    (raw : gmap Z bytes) : res (gmap Z bytes) :=
  match slices with
  | [] => Ok raw
  | s :: slices' =>
      let start := s.(prs_data_offset) - r.(cr_offset) in
      let packet_bytes := slice start (start + s.(prs_captured_length)) content in
      _ ← raise_if ((start <? 0) || negb (zlen packet_bytes =? s.(prs_captured_length)))
            (fallback RANGE_SHORT);
      cut_slices r content slices' (<[s.(prs_packet_index) := packet_bytes]> raw)
  end.

Definition fetch_range (source : CaptureSourceVersion) (scanned_packets_before : Z) (r : CoalescedRange)
    (raw : gmap Z bytes) : eff W (gmap Z bytes) :=
  _ ← _run_checks;
  _ ← checkpoint_fetch scanned_packets_before r.(cr_length);
  content ← eff_reraise _fallback_for_range_error
              (b ← eff_lift (range_bytes r); read_capture_range source b);
  _ ← eff_raise_if (negb (zlen content =? r.(cr_length))) (fallback RANGE_SHORT);
  _ ← _run_checks;
  eff_lift (cut_slices r content r.(cr_packet_slices) raw).

Fixpoint fetch_ranges (source : CaptureSourceVersion) (scanned_packets_before : Z)
    (ranges : list CoalescedRange) (raw : gmap Z bytes) : eff W (gmap Z bytes) :=
  match ranges with
  | [] => mret raw
  | r :: ranges' =>
      raw' ← fetch_range source scanned_packets_before r raw;
      fetch_ranges source scanned_packets_before ranges' raw'
  end.

(** [raw_packets] before the first read: the packets without bytes. *)
Definition empty_packets (locators : list SelectedPacketLocator) : gmap Z bytes :=
  fold_left (fun m l => <[l.(spl_packet_index) := []]> m)
    (filter (fun l => l.(spl_captured_length) = 0) locators) ∅.

Section matching.
Context (predicate : CompiledPacketPredicate) (internal_networks : list string).

(** Rebuilding one selected packet and matching it. *)
Definition match_packet (sensor_id : string) (raw : gmap Z bytes) (l : SelectedPacketLocator)
    : res (list MatchedPacketRecord) :=
  match raw !! l.(spl_packet_index) with
  | None => Err (fallback INDEX_CORRUPT)
  | Some selected_packet_bytes =>
      packet ← corrupt_packet (export_packet_from_structural_locator selected_packet_bytes
                 (selected_locator l) l.(spl_interface) l.(spl_original_length)
                 l.(spl_raw_timestamp_ticks) (inl internal_networks));
      if packet.(ep_projection).(pp_supported) then
        matched ← predicate_matches fromisoformat predicate (export_fields packet) sensor_id;
        Ok (if matched : bool then [from_export_packet packet sensor_id] else [])
      else Ok []
  end.

Fixpoint match_packets (sensor_id : string) (raw : gmap Z bytes) (locators : list SelectedPacketLocator)
    : eff W (list MatchedPacketRecord) :=
  match locators with
  | [] => mret []
  | l :: locators' =>
      _ ← (if l.(spl_packet_index) mod 256 =? 0 then _run_checks else mret tt);
      found ← eff_lift (match_packet sensor_id raw l);
      rest ← match_packets sensor_id raw locators';
      mret (found ++ rest)
  end.

Definition collect_source (planned : PlannedIndexedSource) : eff W (list MatchedPacketRecord) :=
  let locators := planned.(pln_located).(lps_locators) in
  _ ← _fence_indexed_source_proofs [planned.(pln_identity_proof)];
  raw ← fetch_ranges planned.(pln_source) planned.(pln_scanned_packets_before)
          planned.(pln_range_plan).(rp_ranges) (empty_packets locators);
  match_packets planned.(pln_sensor_id) raw locators.

Fixpoint collect_sources (planned : list PlannedIndexedSource) : eff W (list MatchedPacketRecord) :=
  match planned with
  | [] => mret []
  | p :: planned' =>
      found ← collect_source p; rest ← collect_sources planned'; mret (found ++ rest)
  end.

Definition collect_indexed_matches (snapshot : SourceSnapshot) (plan : PostingSelectionPlan)
    (scan_max_bytes scan_max_packets : Z) (range_limits : RangePlanLimits) : eff W IndexedMatchBatch :=
  _ ← _run_checks;
  let manifest := default [] snapshot.(ss_source_manifest) in
  let proofs := plan.(plan_source_proofs) in
  _ ← eff_raise_if
        (bool_decide (manifest = [])
         || negb (bool_decide (field_text snapshot.(ss_source_generation)
                               = plan.(plan_candidates).(pcs_source_generation)))
         || negb (zlen proofs =? zlen manifest) || (scan_max_bytes <? 0) || (scan_max_packets <? 0))
        (fallback UNSUPPORTED_SOURCE);
  match snapshot_source_kind snapshot.(ss_source_kind) (zlen manifest) with
  | None => eff_raise (fallback UNSUPPORTED_SOURCE)
  | Some kind =>
      let entries := zip manifest proofs in
      _ ← eff_lift (check_entries kind 0 entries);
      selected ← eff_lift (group_candidates_by_source kind entries
                             plan.(plan_candidates).(pcs_candidates) ∅);
      _ ← eff_raise_if (existsb (fun e : Z * list Z => negb (ordinals_canonical e.2)) (map_to_list selected))
            (fallback INDEX_CORRUPT);
      st ← plan_sources scan_max_bytes scan_max_packets range_limits selected 0 entries collect_initial;
      _ ← eff_lift (_validate_request_range_totals st.(col_range_count) st.(col_fetched_bytes)
                      st.(col_selected_payload_bytes) range_limits);
      _ ← _run_checks;
      let final_proofs := pln_identity_proof <$> st.(col_planned) in
      _ ← _fence_indexed_source_proofs final_proofs;
      records ← collect_sources st.(col_planned);
      _ ← _run_checks;
      _ ← _fence_indexed_source_proofs final_proofs;
      mret (mk_batch records (zlen manifest) st.(col_scanned_sources)
              (sumZ (fun p => p.(psp_source).(csv_source_size_bytes)) proofs)
              st.(col_scanned_bytes) st.(col_scanned_packets) st.(col_source_manifest)
              (dict_fromkeys ∅ st.(col_truncation)) st.(col_range_count)
              st.(col_selected_payload_bytes) st.(col_fetched_bytes) final_proofs
              (sumZ (fun p => zlen p.(pln_located).(lps_locators)) st.(col_planned)))
  end.
End matching.

(** [indexed_match_factory], bound to the repository. *)
Definition indexed_match_factory (terms_order : gset bytes -> list bytes) (settings : SelectionSettings)
    (job_internal_networks : list py_scalar) (snapshot : SourceSnapshot) (canonical_request : PacketFilters)
    (predicate : CompiledPacketPredicate) (internal_networks : list string)
    (scan_max_bytes scan_max_packets : Z) (range_limits : RangePlanLimits) (max_sources : Z)
    : eff W IndexedMatchBatch :=
  _ ← _run_checks;
  selection_plan ← _select_analysis_posting_plan_from_snapshot sha256_hex fromisoformat terms_order settings
                     job_internal_networks snapshot canonical_request max_sources;
  _ ← _run_checks;
  match selection_plan with
  | None => eff_raise (fallback INDEX_UNAVAILABLE)
  | Some plan => collect_indexed_matches predicate internal_networks snapshot plan scan_max_bytes
                   scan_max_packets range_limits
  end.
End collect.
