(* ===== verification/SequentialExport.v ===== *)
(** * SequentialExport

    pcap_export_service.py: the sequential path of [PcapExportExecutor.execute].
    The retained sources of an export are opened one after the other, each is
    read once through a [BoundedVerifiedCapture], decoded, matched and then
    verified, and its matches count only after the verification.  The
    repository hands out opened sources as effects on a world, as in
    [ExportRepository]; the stage timings are not modelled. *)

From Stdlib Require Import Ascii String.
From S2P Require Import Prelude Bytes Reader CaptureFormat IpAddress PacketProjection ExportDecoder.
From S2P Require Import PostingModel FlowFilter CapturePrefix BoundedCapture ExportRepository IndexedCollect.
#[local] Open Scope Z_scope.

(** ** The repository and the progress callback *)

Class SequentialRepository (W S : Type) : Type := {
  open_job_capture : string -> eff W (option S);
  open_sensor_pcap : string -> eff W (option (descriptor * S));
}.

(** [checkpoint(phase=..., scanned_packet_count=...)] *)
Class ProgressHooks (W : Type) : Type := {
  checkpoint : string -> option Z -> eff W unit;
}.

(** ** Metadata of the retained sources *)

Definition integrity_error (message : string) : exn :=
  ApiError 409 "PCAP_SOURCE_INTEGRITY_ERROR" message.
Definition size_invalid : exn := integrity_error "retained PCAP size metadata is invalid".
Definition digest_invalid : exn := integrity_error "retained PCAP digest metadata is invalid".

Definition _is_sha256_hex_digest (value : py_scalar) : bool :=
  match value with
  | PStr s => Nat.eqb (String.length s) 64
              && forallb (fun c => bool_decide (is_Some (hex_value c))) (list_ascii_of_string s)
  | _ => false
  end.

(** [int(size)] of a value that is an [int] or a [str] but no [bool]. *)
Definition retained_size (value : py_scalar) : option Z :=
  match value with PInt z => Some z | PStr s => int_of_signed s | _ => None end.

(** The declared sizes of all sources, then the signs, then the digests. *)
Definition declared_source_sizes (descriptors : list descriptor) : res (list Z) :=
  match mapM (fun d => retained_size (field d "size_bytes")) descriptors with
  | None => Err size_invalid
  | Some sizes =>
      _ ← raise_if (existsb (fun size => size <? 0) sizes) size_invalid;
      _ ← raise_if (existsb (fun d => negb (_is_sha256_hex_digest (field d "sha256"))) descriptors)
            digest_invalid;
      Ok sizes
  end.

(** [d[key]] *)
Definition item (d : descriptor) (key : string) : res py_scalar :=
  match d !! key with Some v => Ok v | None => Err (KeyError key) end.

(** The descriptors [execute] makes of an immutable manifest: the canonical
    capture of the source job, or the segments as they are listed. *)
Definition source_descriptors (snapshot_kind : py_scalar) (manifest : list descriptor)
    (source_job_id sensor_id : string) : list descriptor :=
  match manifest with
  | first :: _ =>
      if equals_str snapshot_kind "canonical_capture" then
        [{["id" := PStr source_job_id; "sensor_id" := PStr sensor_id;
           "size_bytes" := field first "size_bytes"; "sha256" := field first "sha256";
           "_canonical" := PBool true]}%string]
      else manifest
  | [] => []
  end.

(** ** [_StreamCursor] over the reader of a session, which may raise *)

Record SessionCursor (S : Type) : Type := mk_session {
  ses_state : BoundedState S;
  ses_offset : Z;
}.
Arguments mk_session {S} _ _.
Arguments ses_state {S} _.
Arguments ses_offset {S} _.

Section session.
Context {S : Type} `{!CaptureSource S} (bounds : CaptureBounds).

Fixpoint session_read_loop (fuel : nat) (size remaining : Z) (eof_ok : bool) (result : bytes)
    (c : SessionCursor S) : res bytes * SessionCursor S :=
  match fuel with
  | O => (Err OutOfFuel, c)
  | Datatypes.S fuel' =>
      if remaining =? 0 then (Ok result, c)
      else
        match _read_admitted bounds (Some remaining) c.(ses_state) with
        | (Err e, st) => (Err e, mk_session st c.(ses_offset))
        | (Ok [], st) =>
            (if eof_ok && (remaining =? size) then Ok [] else Err EOFError, mk_session st c.(ses_offset))
        | (Ok part, st) =>
            if remaining <? zlen part then
              (Err (parse_error "capture reader returned more bytes than requested"),
               mk_session st c.(ses_offset))
            else
              session_read_loop fuel' size (remaining - zlen part) eof_ok (result ++ part)
                (mk_session st (c.(ses_offset) + zlen part))
        end
  end.

Definition session_read_exact (size : Z) (eof_ok : bool) (c : SessionCursor S)
    : res bytes * SessionCursor S :=
  session_read_loop (Datatypes.S (Z.to_nat size)) size size eof_ok [] c.

Definition session_discard_exact (size : Z) (c : SessionCursor S) : res unit * SessionCursor S :=
  discard_with session_read_exact size c.

(** ** One source *)

Context {W : Type} (on_packet : Z -> ExportPacket -> eff W (list MatchedPacketRecord)).

(** How a scan ends, with the cursor, the packets seen and the matches so far. *)
Definition scan_end : Type := res unit * SessionCursor S * Z * list MatchedPacketRecord.

(** The loop over [decoder.iter_packets()]: the decoder runs on the session, and
    every packet it yields is given to [on_packet].  The decoder handles no
    exception of its reader but [EOFError]. *)
Fixpoint consume (p : prog ExportPacket unit) (c : SessionCursor S) (seen : Z)
    (provisional : list MatchedPacketRecord) (w : W) : scan_end * W :=
  match p with
  | Ret _ => ((Ok tt, c, seen, provisional), w)
  | Raise e => ((Err e, c, seen, provisional), w)
  | ReadExact n eof_ok k =>
      match session_read_exact n eof_ok c with
      | (Ok b, c') => consume (k (Ok b)) c' seen provisional w
      | (Err EOFError, c') => consume (k (Err EOFError)) c' seen provisional w
      | (Err e, c') => ((Err e, c', seen, provisional), w)
      end
  | DiscardExact n k =>
      match session_discard_exact n c with
      | (Ok u, c') => consume (k (Ok u)) c' seen provisional w
      | (Err EOFError, c') => consume (k (Err EOFError)) c' seen provisional w
      | (Err e, c') => ((Err e, c', seen, provisional), w)
      end
  | GetOffset k => consume (k c.(ses_offset)) c seen provisional w
  | Yield packet k =>
      match on_packet (seen + 1) packet w with
      | (Ok found, w') => consume k c (seen + 1) (provisional ++ found) w'
      | (Err e, w') => ((Err e, c, seen + 1, provisional), w')
      end
  end.

(** [except PcapParseError] remembers the error, [except CaptureIntegrityError]
    leaves it to the verification, any other exception passes. *)
Definition caught (r : res unit) : res (option exn) :=
  match r with
  | Ok _ => Ok None
  | Err (PcapParseError m code) => Ok (Some (PcapParseError m code))
  | Err (CaptureIntegrityError _) => Ok None
  | Err e => Err e
  end.

(** A parse error counts unless the limits left no packet of the source. *)
Definition fatal_parse_error (parse_error : option exn) (scan : SourceScanResult) : option exn :=
  match parse_error with
  | Some (PcapParseError m code) =>
      if bool_decide (code = "EMPTY_PCAP"%string) && (scan.(srr_admitted_packets) =? 0)
         && (scan.(srr_byte_limited) || scan.(srr_packet_limited))
      then None else Some (ApiError 422 code m)
  | _ => None
  end.

(** What is left when the loop over the packets has ended: the verification of
    the source and the verdict. *)
Definition finish_session (sha256_hex : bytes -> string) (fuel : nat) (parse_error : option exn)
    (st : BoundedState S) : res SourceScanResult * BoundedState S :=
  match drain_and_verify sha256_hex bounds fuel st with
  | (Err (CaptureIntegrityError text), st') => (Err (integrity_error text), st')
  | (Err e, st') => (Err e, st')
  | (Ok scan, st') =>
      match fatal_parse_error parse_error scan with
      | Some e => (Err e, st')
      | None => (Ok scan, st')
      end
  end.

(** One session, from its first read to [session.close()] in the [finally]. *)
Definition scan_session (sha256_hex : bytes -> string) (fuel : nat) (decoder : prog ExportPacket unit)
    (st : BoundedState S) (w : W)
    : res (SourceScanResult * Z * list MatchedPacketRecord) * BoundedState S * W :=
  let '((r, c, seen, provisional), w') := consume decoder (mk_session st 0) 0 [] w in
  match caught r with
  | Err e => (Err e, (close c.(ses_state)).2, w')
  | Ok parse_error =>
      let '(verdict, st') := finish_session sha256_hex fuel parse_error c.(ses_state) in
      (scan ← verdict; Ok (scan, seen, provisional), (close st').2, w')
  end.

(** The session is dropped when it is closed. *)
Definition run_session (sha256_hex : bytes -> string) (fuel : nat) (decoder : prog ExportPacket unit)
    (st : BoundedState S) : eff W (SourceScanResult * Z * list MatchedPacketRecord) := fun w =>
  let '(r, _, w') := scan_session sha256_hex fuel decoder st w in (r, w').
End session.

(** ** The loop over the sources *)

Record SequentialScan : Type := mk_scan {
  sq_records : list MatchedPacketRecord;
  sq_source_manifest : list (string * string);   (* id, sha256 *)
  sq_scanned_bytes : Z;
  sq_remaining_packets : Z;
  sq_scanned_sources : Z;
  sq_truncation : list string;
}.

Definition truncated_by (reason : string) (st : SequentialScan) : SequentialScan :=
  mk_scan st.(sq_records) st.(sq_source_manifest) st.(sq_scanned_bytes) st.(sq_remaining_packets)
    st.(sq_scanned_sources) (st.(sq_truncation) ++ [reason]).

Section sequential.
Context {W S : Type} `{!CaptureSource S} {repository : SequentialRepository W S} {hooks : ProgressHooks W}.
Context (sha256_hex : bytes -> string) (fromisoformat : string -> res Z) (fuel : nat).
Context (predicate : CompiledPacketPredicate) (internal_networks : list string).
Context (source_job_id : string) (scan_max_bytes scan_max_packets : Z).

(** The checks of a segment's stored metadata against its descriptor. *)
Definition segment_matches (d stored : descriptor) (declared_size : Z) : res unit :=
  match retained_size (field stored "size_bytes") with
  | None => Err size_invalid
  | Some stored_size =>
      _ ← raise_if (negb (_is_sha256_hex_digest (field stored "sha256"))) digest_invalid;
      raise_if (negb (bool_decide (field_text (stored !! "id"%string) = field_text (d !! "id"%string)))
                || negb (bool_decide (field_text (stored !! "sensor_id"%string)
                                      = field_text (d !! "sensor_id"%string)))
                || negb (equals_str (field stored "analysis_job_id") source_job_id)
                || negb (stored_size =? declared_size)
                || negb (bool_decide (field stored "sha256" = field d "sha256")))
        (integrity_error "retained PCAP metadata mismatch")
  end.

(** Opening the source of a descriptor: its metadata and the opened stream. *)
Definition open_retained (d : descriptor) (declared_size : Z) : eff W (descriptor * S) :=
  _ ← checkpoint "SOURCE_FETCH" None;
  if bool_decide (field d "_canonical" = PBool true) then
    opened ← open_job_capture source_job_id;
    match opened with
    | None => eff_raise (integrity_error "retained canonical PCAP missing")
    | Some source => mret (d, source)
    end
  else
    id ← eff_lift (item d "id");
    opened ← open_sensor_pcap (py_str id);
    match opened with
    | None => eff_raise (integrity_error "retained PCAP segment missing")
    | Some (stored, source) =>
        _ ← eff_lift (segment_matches d stored declared_size);
        mret (stored, source)
    end.

(** The body of the loop over the packets. *)
Definition match_scanned (stored : descriptor) (packets_before : Z) (seen : Z) (packet : ExportPacket)
    : eff W (list MatchedPacketRecord) :=
  _ ← (if seen mod 256 =? 0 then checkpoint "SOURCE_SCAN" (Some (packets_before + seen)) else mret tt);
  if packet.(ep_projection).(pp_supported) then
    sensor_id ← eff_lift (item stored "sensor_id");
    matched ← eff_lift (predicate_matches fromisoformat predicate (export_fields packet) (py_str sensor_id));
    mret (if matched : bool then [from_export_packet packet (py_str sensor_id)] else [])
  else mret [].

(** [decoder_factory(...)] and its packets. *)
Definition source_decoder (stored : descriptor) (source_order : Z) : prog ExportPacket unit :=
  source_id ← lift_res (item stored "id");
  networks ← lift_res (_networks internal_networks);
  export_capture (py_str source_id) source_order networks fuel.

Definition stream_source (source_order : Z) (d : descriptor) (declared_size : Z) (st : SequentialScan)
    : eff W (descriptor * (SourceScanResult * Z * list MatchedPacketRecord)) :=
  let expected_digest := field d "sha256" in
  _ ← eff_raise_if (negb (py_truthy expected_digest)) (integrity_error "retained PCAP digest missing");
  '((stored, source) : descriptor * S) ← open_retained d declared_size;
  '((bounds, session) : CaptureBounds * BoundedState S) ← eff_lift (open_bounded_verified_capture source declared_size (py_str expected_digest)
                                   (scan_max_bytes - st.(sq_scanned_bytes)) st.(sq_remaining_packets)).1;
  let packets_before := scan_max_packets - st.(sq_remaining_packets) in
  result ← run_session bounds (match_scanned stored packets_before) sha256_hex fuel
             (source_decoder stored source_order) session;
  mret (stored, result).

(** The loop: it ends early at a limit. *)
Fixpoint stream_sources (source_order : Z) (sources : list (descriptor * Z)) (st : SequentialScan)
    : eff W SequentialScan :=
  match sources with
  | [] => mret st
  | (d, declared_size) :: sources' =>
      if st.(sq_remaining_packets) <? 1 then mret (truncated_by "SOURCE_PACKET_LIMIT" st)
      else if scan_max_bytes - st.(sq_scanned_bytes) <? 1 then mret (truncated_by "SOURCE_BYTE_LIMIT" st)
      else
        '(stored, (scan, seen, provisional)) ← stream_source source_order d declared_size st;
        id ← eff_lift (item stored "id");
        let st := mk_scan (st.(sq_records) ++ provisional)
                    (st.(sq_source_manifest) ++ [(py_str id, scan.(srr_actual_sha256))])
                    (st.(sq_scanned_bytes) + scan.(srr_admitted_bytes))
                    (st.(sq_remaining_packets) - scan.(srr_admitted_packets))
                    (if seen =? 0 then st.(sq_scanned_sources) else st.(sq_scanned_sources) + 1)
                    (st.(sq_truncation)
                     ++ (if scan.(srr_byte_limited) then ["SOURCE_BYTE_LIMIT"%string] else [])
                     ++ (if scan.(srr_packet_limited) then ["SOURCE_PACKET_LIMIT"%string] else [])) in
        if scan.(srr_byte_limited) || scan.(srr_packet_limited) then mret st
        else stream_sources (source_order + 1) sources' st
  end.

(** The sequential path over the retained sources of an export. *)
Definition sequential_export (descriptors : list descriptor) : eff W SequentialScan :=
  sizes ← eff_lift (declared_source_sizes descriptors);
  stream_sources 0 (zip descriptors sizes) (mk_scan [] [] 0 scan_max_packets 0 []).
End sequential.
