(* ===== verification/SessionProofs.v ===== *)
(** * SessionProofs

    What the decoder sees through a session of [SequentialExport]: as long as
    the source does not raise, the bytes that were handed out so far decide
    everything, and a decoder that has met the end of the session has run on
    exactly those bytes as if they were a file.  Nothing is assumed about what
    the session will admit next. *)

From Stdlib Require Import String.
From S2P Require Import Prelude Bytes Reader ReaderLogic CaptureFormat PacketProjection ExportDecoder ExportAgreement.
From S2P Require Import PostingModel FlowFilter CapturePrefix BoundedCapture BoundedProofs AdmissionReader.
From S2P Require Import ExportRepository IndexedCollect SequentialExport.
#[local] Open Scope Z_scope.

(** A run of [p] asks for more bytes than are left. *)
Fixpoint eof_seen {O A} (p : prog O A) (m : MemCursor) : Prop :=
  match p with
  | Ret _ | Raise _ => False
  | ReadExact n eof k =>
      zlen m.(mem_rest) < n \/ let '(r, m') := mem_read_exact n eof m in eof_seen (k r) m'
  | DiscardExact n k =>
      zlen m.(mem_rest) < n \/ let '(r, m') := mem_discard_exact n m in eof_seen (k r) m'
  | GetOffset k => eof_seen (k m.(mem_offset)) m
  | Yield _ k => eof_seen k m
  end.

Lemma eof_seen_bind_l {O A B} (p : prog O A) (f : A -> prog O B) m :
  eof_seen p m -> eof_seen (p ≫= f) m.
Proof.
  unfold mbind, prog_bind. revert m.
  induction p as [a|e|n eof k IH|n k IH|k IH|o k IH]; intros m H; simpl in *; try done.
  - destruct H as [H|H]; [by left|right]. destruct (mem_read_exact n eof m). by apply IH.
  - destruct H as [H|H]; [by left|right]. destruct (mem_discard_exact n m). by apply IH.
  - by apply IH.
  - by apply IH.
Qed.

Lemma eof_seen_bind_r {O A B} (p : prog O A) (f : A -> prog O B) m os a m' :
  run p m = (os, Ok a, m') -> eof_seen (f a) m' -> eof_seen (p ≫= f) m.
Proof.
  unfold mbind, prog_bind. revert m os.
  induction p as [x|e|n eof k IH|n k IH|k IH|o k IH]; intros m os H Hs; simpl in *.
  - by injection H as _ -> ->.
  - done.
  - right. destruct (mem_read_exact n eof m). by eapply IH.
  - right. destruct (mem_discard_exact n m). by eapply IH.
  - by eapply IH.
  - destruct (run k m) as [[os' r] c'] eqn:E. injection H as _ -> ->. by eapply IH.
Qed.

Lemma eof_seen_catch {O A} e (p : prog O A) m : eof_seen p m -> eof_seen (catch_eof e p) m.
Proof.
  revert m. induction p as [x|x|n eof k IH|n k IH|k IH|o k IH]; intros m H; simpl in *; try done.
  - destruct H as [H|H]; [by left|right]. destruct (mem_read_exact n eof m). by apply IH.
  - destruct H as [H|H]; [by left|right]. destruct (mem_discard_exact n m). by apply IH.
  - by apply IH.
  - by apply IH.
Qed.

Section session.
Context {S : Type} `{!CaptureSource S} `{!LawfulSource S}.
Context (c : bytes) (bounds : CaptureBounds) (Hb : bounds_ok bounds).

(** [out] was handed out. *)
Definition at_session (out : bytes) (k : SessionCursor S) : Prop :=
  phys c k.(ses_state) /\ safe bounds out k.(ses_state) /\ k.(ses_offset) = zlen out.

Definition ended (k : SessionCursor S) : Prop := finished k.(ses_state).(bs_frame).

(** From [out] the session went on to [out']: an ended one stays as it is. *)
Definition extends (out : bytes) (k : SessionCursor S) (out' : bytes) (k' : SessionCursor S) : Prop :=
  (exists q, out' = out ++ q /\ (ended k -> q = [] /\ ended k')) /\
  (described c bounds -> forall p, tracks c bounds p k.(ses_state).(bs_frame) ->
    tracks c bounds p k'.(ses_state).(bs_frame)).

Lemma extends_refl out k : extends out k out k.
Proof. split; [|done]. exists []. by rewrite app_nil_r. Qed.

Lemma extends_trans out1 k1 out2 k2 out3 k3 :
  extends out1 k1 out2 k2 -> extends out2 k2 out3 k3 -> extends out1 k1 out3 k3.
Proof.
  intros [(q & -> & Hq) H1] [(q' & -> & Hq') H2]. split; [|by auto]. exists (q ++ q').
  rewrite app_assoc. split; [done|]. intros He. destruct (Hq He) as [-> He2]. by destruct (Hq' He2) as [-> ?].
Qed.

(** The result of asking for [n] bytes: the failure of the source, all of them,
    or what was left at the end. *)
Definition took {A} (n : Z) (eof : bool) (full : bytes -> A) (out : bytes) (k : SessionCursor S)
    (r : res A) (k' : SessionCursor S) : Prop :=
  (exists e, r = Err e /\ failed e k'.(ses_state)) \/
  exists q, at_session (out ++ q) k' /\ extends out k (out ++ q) k' /\
    (zlen q = n /\ r = Ok (full q) \/
     zlen q < n /\ ended k' /\ r = if eof && bool_decide (q = []) then Ok (full []) else Err EOFError).

Lemma read_admitted_took n out k :
  0 < n -> at_session out k ->
  match _read_admitted bounds (Some n) k.(ses_state) with
  | (Err e, st) => failed e st
  | (Ok q, st) =>
      let k' := mk_session st (k.(ses_offset) + zlen q) in
      at_session (out ++ q) k' /\ extends out k (out ++ q) k' /\ zlen q <= n /\ (zlen q < n -> ended k')
  end.
Proof.
  intros Hn (Hp & Hs & Ho).
  pose proof (read_admitted_spec c bounds n _ out Hb Hn Hp Hs) as H. unfold mspec in H.
  pose proof (read_admitted_finished bounds n k.(ses_state) Hn (proj1 (proj2 (proj2 (proj2 Hp))))) as Hfin.
  destruct (_read_admitted bounds (Some n) (ses_state k)) as [[q|e] st]; [|done].
  destruct H as (Hp' & (Hs' & Ht) & Hle & Hlt). simpl. split_and!; try done.
  - unfold at_session. simpl. split_and!; [done..|]. rewrite zlen_app. lia.
  - split; [|exact Ht]. exists q. split; [done|]. intros He. specialize (Hfin He). injection Hfin as -> ->. done.
Qed.

Lemma session_read_loop_spec fuel size remaining eof result k out :
  0 <= remaining -> (Z.to_nat remaining < fuel)%nat -> size = zlen result + remaining -> at_session (out ++ result) k ->
  let '(r, k') := session_read_loop bounds fuel size remaining eof result k in
  (exists e, r = Err e /\ failed e k'.(ses_state)) \/
  exists q, at_session (out ++ result ++ q) k' /\ extends (out ++ result) k (out ++ result ++ q) k' /\
    (zlen q = remaining /\ r = Ok (result ++ q) \/
     zlen q < remaining /\ ended k' /\ r = if eof && bool_decide (result ++ q = []) then Ok [] else Err EOFError).
Proof.
  revert remaining result k. induction fuel as [|fuel IH]; intros remaining result k Hr Hf Hsize Hk; [lia|].
  cbn [session_read_loop]. destruct (Z.eqb_spec remaining 0) as [->|Hne].
  { right. exists []. rewrite !app_nil_r. split_and!; [done|apply extends_refl|]. left. by rewrite zlen_nil. }
  pose proof (read_admitted_took remaining (out ++ result) k ltac:(lia) Hk) as H.
  destruct (_read_admitted bounds (Some remaining) (ses_state k)) as [[q|e] st]; [|left; by exists e].
  destruct q as [|b part].
  - destruct H as (H1 & H2 & _ & H4). rewrite zlen_nil, Z.add_0_r, <- app_assoc in *. right. exists [].
    split_and!; [done|done|]. right. split_and!; [rewrite zlen_nil; lia|apply H4; lia|]. rewrite app_nil_r.
    replace (remaining =? size) with (bool_decide (result = [])); [done|].
    apply eq_true_iff_eq. rewrite bool_decide_eq_true, Z.eqb_eq, <- zlen_nil_iff. lia.
  - set (p := b :: part) in *. destruct H as (H1 & H2 & H3 & H4). rewrite (proj2 (Z.ltb_ge _ _)) by lia.
    assert (0 < zlen p) by (unfold p; rewrite zlen_cons; pose proof (zlen_nonneg part); lia).
    specialize (IH (remaining - zlen p) (result ++ p) (mk_session st (ses_offset k + zlen p))).
    rewrite <- (app_assoc out result p) in H1, H2.
    specialize (IH ltac:(lia) ltac:(lia) ltac:(rewrite zlen_app; lia) H1).
    destruct (session_read_loop _ _ _ _ _ _ _) as [r k']. destruct IH as [IH|(q & Ha & He & IH)]; [by left|right].
    rewrite <- (app_assoc result p q) in Ha, He, IH. exists (p ++ q). rewrite !zlen_app.
    split_and!; [done|by eapply extends_trans|].
    destruct IH as [[Hl ->]|(Hl & Hn & ->)]; [left|right]; split_and!; try done; lia.
Qed.

Lemma session_read_spec n eof out k :
  0 <= n -> at_session out k ->
  let '(r, k') := session_read_exact bounds n eof k in took n eof id out k r k'.
Proof.
  intros Hn Hk. unfold session_read_exact.
  pose proof (session_read_loop_spec (Datatypes.S (Z.to_nat n)) n n eof [] k out Hn ltac:(lia) ltac:(by rewrite zlen_nil)) as H.
  rewrite app_nil_r in H. specialize (H Hk). by destruct (session_read_loop _ _ _ _ _ _ _) as [r k'].
Qed.

Lemma session_discard_loop_spec fuel n out k :
  0 <= n -> (n + DISCARD_CHUNK - 1) / DISCARD_CHUNK < Z.of_nat fuel -> at_session out k ->
  let '(r, k') := discard_loop (session_read_exact bounds) fuel n k in took n false (fun _ => tt) out k r k'.
Proof.
  revert n out k. induction fuel as [|fuel IH]; intros n out k Hn Hf Hk.
  { pose proof (Z.div_pos (n + DISCARD_CHUNK - 1) DISCARD_CHUNK). unfold DISCARD_CHUNK in *. lia. }
  cbn [discard_loop]. destruct (Z.eqb_spec n 0) as [->|Hne].
  { right. exists []. rewrite app_nil_r. split_and!; [done|apply extends_refl|]. left. by rewrite zlen_nil. }
  set (chunk := Z.min n DISCARD_CHUNK). assert (0 < chunk <= n) as Hchunk by (unfold chunk, DISCARD_CHUNK; lia).
  pose proof (session_read_spec chunk false out k ltac:(lia) Hk) as H.
  destruct (session_read_exact bounds chunk false k) as [r k'].
  destruct H as [(e & -> & He)|(q & Ha & Hx & [[Hl ->]|(Hl & Hend & ->)])]; [left; by exists e| |].
  - specialize (IH (n - chunk) (out ++ q) k' ltac:(lia)). unfold id.
    assert ((n - chunk + DISCARD_CHUNK - 1) / DISCARD_CHUNK < Z.of_nat fuel) as Hf'.
    { unfold chunk in *. change DISCARD_CHUNK with 65536 in *. Z.to_euclidean_division_equations; lia. }
    specialize (IH Hf' Ha). destruct (discard_loop _ _ _ _) as [r' k''].
    destruct IH as [IH|(q' & Ha' & Hx' & IH)]; [by left|right]. exists (q ++ q'). rewrite zlen_app, app_assoc.
    split_and!; [done|by eapply extends_trans|]. simpl in *.
    destruct IH as [[? ->]|(? & ? & ->)]; [left|right]; split_and!; try done; lia.
  - simpl. right. exists q. split_and!; [done|done|]. right. split_and!; [lia|done|done].
Qed.

Lemma session_discard_spec n out k :
  0 <= n -> at_session out k ->
  let '(r, k') := session_discard_exact bounds n k in took n false (fun _ => tt) out k r k'.
Proof.
  intros Hn Hk. apply session_discard_loop_spec; [done| |done].
  change DISCARD_CHUNK with 65536. Z.to_euclidean_division_equations; lia.
Qed.

(** ** Consuming a decoder *)

(** A capture that agrees with what was handed out. *)
Definition agrees (X out : bytes) (k : SessionCursor S) : Prop :=
  (exists rest, X = out ++ rest) /\ (ended k -> X = out).

Lemma agrees_extends X out k out' k' : extends out k out' k' -> agrees X out' k' -> agrees X out k.
Proof.
  intros [(q & -> & Hq) _] [(rest & ->) He]. split; [exists (q ++ rest); by rewrite app_assoc|].
  intros Hk. destruct (Hq Hk) as [-> Hk']. rewrite app_nil_r in *. by apply He.
Qed.

Lemma took_mem n X out q k' :
  agrees X (out ++ q) k' -> 0 <= n -> zlen q <= n -> (zlen q < n -> ended k') ->
  mem_rest (mem_at X (zlen out)) = q ++ zdrop (zlen (out ++ q)) X /\
  mem_at X (zlen (out ++ q)) = mem_advance (zlen q) (mem_at X (zlen out)) /\
  (zlen q < n -> zlen (mem_rest (mem_at X (zlen out))) = zlen q).
Proof.
  intros [(rest & ->) He] Hn Hq Hlt. pose proof (zlen_nonneg out). pose proof (zlen_nonneg q).
  assert (zdrop (zlen (out ++ q)) ((out ++ q) ++ rest) = rest) as Hz by by rewrite zdrop_app_exact.
  simpl. rewrite Hz. rewrite <- app_assoc, (zdrop_app_exact (zlen out)) by done. split_and!; [done| |].
  - rewrite mem_at_advance, zlen_app by lia. done.
  - intros Hs. specialize (He (Hlt Hs)). rewrite zlen_app.
    assert (zlen rest = 0); [|lia]. apply (f_equal zlen) in He. rewrite !zlen_app in He. lia.
Qed.

(** A request answered at the end of the session or in full, on any capture that
    agrees with what was handed out. *)
Definition answered {A} (request : MemCursor -> res A * MemCursor) (n : Z) (out : bytes)
    (k : SessionCursor S) (r : res A) (k' : SessionCursor S) : Prop :=
  exists q, at_session (out ++ q) k' /\ extends out k (out ++ q) k' /\
    (r = Err EOFError \/ exists a, r = Ok a) /\
    forall X, agrees X (out ++ q) k' ->
      request (mem_at X (zlen out)) = (r, mem_at X (zlen (out ++ q))) /\
      (zlen (mem_rest (mem_at X (zlen out))) < n -> ended k').

Lemma read_answered n eof out k r k' :
  took n eof id out k r k' -> 0 <= n ->
  (exists e, r = Err e /\ failed e k'.(ses_state)) \/ answered (mem_read_exact n eof) n out k r k'.
Proof.
  intros [Hf|(q & Ha & Hx & Hr)] Hn; [by left|right]. exists q. split_and!; [done|done| |].
  { destruct Hr as [[_ ->]|(_ & _ & ->)]; [right; by eexists|]. destruct (_ && _); [right; by eexists|by left]. }
  intros X Hag. pose proof (zlen_nonneg q). pose proof (zlen_nonneg (zdrop (zlen (out ++ q)) X)).
  destruct Hr as [[Hl ->]|(Hl & Hend & ->)];
    (destruct (took_mem n X out q k' Hag Hn) as (H1 & H2 & H3); [lia|done || lia|]); unfold mem_read_exact.
  - rewrite H2, H1, zlen_app, (proj2 (Z.leb_le _ _)) by lia. split; [|lia]. by rewrite ztake_app_exact, Hl.
  - rewrite (H3 Hl), (proj2 (Z.leb_gt _ _)) by lia. split; [|done]. rewrite H2.
    replace (bool_decide (mem_rest (mem_at X (zlen out)) = [])) with (bool_decide (q = [])); [done|].
    apply bool_decide_ext. rewrite <- !zlen_nil_iff, (H3 Hl). done.
Qed.

Lemma discard_answered n out k r k' :
  took n false (fun _ => tt) out k r k' -> 0 <= n ->
  (exists e, r = Err e /\ failed e k'.(ses_state)) \/ answered (mem_discard_exact n) n out k r k'.
Proof.
  intros [Hf|(q & Ha & Hx & Hr)] Hn; [by left|right]. exists q. split_and!; [done|done| |].
  { destruct Hr as [[_ ->]|(_ & _ & ->)]; [right; by eexists|by left]. }
  intros X Hag. pose proof (zlen_nonneg q). pose proof (zlen_nonneg (zdrop (zlen (out ++ q)) X)).
  destruct Hr as [[Hl ->]|(Hl & Hend & ->)];
    (destruct (took_mem n X out q k' Hag Hn) as (H1 & H2 & H3); [lia|done || lia|]); unfold mem_discard_exact.
  - rewrite H2, H1, zlen_app, (proj2 (Z.leb_le _ _)) by lia. split; [by rewrite Hl|lia].
  - rewrite (H3 Hl), (proj2 (Z.leb_gt _ _)) by lia. by rewrite H2.
Qed.

Section consume.
Context {W : Type} (on_packet : Z -> ExportPacket -> eff W (list MatchedPacketRecord)).

(** The packet body returned [found] for the packet. *)
Definition handled (packet : ExportPacket) (found : list MatchedPacketRecord) : Prop :=
  exists n w w', on_packet n packet w = (Ok found, w').

Definition handler_raises (e : exn) : Prop := exists n packet w w', on_packet n packet w = (Err e, w').

(** A complete scan: the decoder did what it does on any capture that agrees
    with what was handed out, and every packet was handled. *)
Definition consumed (p : prog ExportPacket unit) (out : bytes) (k : SessionCursor S) (r : res unit)
    (k' : SessionCursor S) (seen : Z) (found : list MatchedPacketRecord) : Prop :=
  exists packets founds out', at_session out' k' /\ extends out k out' k' /\
    seen = zlen packets /\ found = concat founds /\ Forall2 handled packets founds /\
    forall X, agrees X out' k' ->
      run p (mem_at X (zlen out)) = (packets, r, mem_at X (zlen out')) /\
      (eof_seen p (mem_at X (zlen out)) -> ended k').

(** A scan that ended with [r]: the source failed, the body raised, or the scan
    is complete. *)
Definition consume_ends (p : prog ExportPacket unit) (out : bytes) (k : SessionCursor S) (seen : Z)
    (provisional : list MatchedPacketRecord) (x : scan_end * W) : Prop :=
  let '((r, k', seen', provisional'), _) := x in
  (exists e, r = Err e /\ failed e k'.(ses_state)) \/
  (exists e, r = Err e /\ handler_raises e /\ phys c k'.(ses_state)) \/
  exists found, provisional' = provisional ++ found /\ consumed p out k r k' (seen' - seen) found.

Lemma consumed_end out k seen provisional r w (p : prog ExportPacket unit) :
  at_session out k -> (forall X, run p (mem_at X (zlen out)) = ([], r, mem_at X (zlen out)) /\ ~ eof_seen p (mem_at X (zlen out))) ->
  consume_ends p out k seen provisional ((r, k, seen, provisional), w).
Proof.
  intros Hk Hr. right; right. exists []. rewrite app_nil_r. split; [done|]. exists [], [], out.
  split_and!; [done|apply extends_refl|rewrite zlen_nil; lia|done|constructor|]. intros X _. by destruct (Hr X).
Qed.

(** One request, then the rest. *)
Lemma consume_step {A} (request : MemCursor -> res A * MemCursor) n (p : res A -> prog ExportPacket unit) (q : prog ExportPacket unit)
    out k k1 r seen provisional x :
  (forall X, run q (mem_at X (zlen out)) = let '(r, m) := request (mem_at X (zlen out)) in run (p r) m) ->
  (forall X, eof_seen q (mem_at X (zlen out)) -> zlen (mem_rest (mem_at X (zlen out))) < n \/
    let '(r, m) := request (mem_at X (zlen out)) in eof_seen (p r) m) ->
  answered request n out k r k1 ->
  (forall out1, at_session out1 k1 -> consume_ends (p r) out1 k1 seen provisional x) ->
  consume_ends q out k seen provisional x.
Proof.
  intros Hrun Heof (b & Ha & Hx & _ & Hans) Hrest. specialize (Hrest _ Ha).
  destruct x as [[[[r' k'] seen'] provisional'] w']. destruct Hrest as [H|[H|(found & Hf & H)]]; [by left|by right; left|].
  right; right. exists found. split; [done|]. destruct H as (packets & founds & out' & H1 & H2 & H3 & H4 & H5 & H6).
  exists packets, founds, out'. split_and!; [done|by eapply extends_trans|done..|]. intros X HX.
  destruct (Hans X (agrees_extends _ _ _ _ _ H2 HX)) as [Hreq Hshort]. destruct (H6 X HX) as [Hr' He'].
  rewrite Hrun, Hreq. split; [done|]. intros [Hs|Hs]%Heof; [|rewrite Hreq in Hs; by apply He'].
  destruct H2 as [(? & _ & Hend) _]. by apply Hend, Hshort.
Qed.

Lemma consume_spec p out k seen provisional w :
  sizes_ok p -> at_session out k ->
  consume_ends p out k seen provisional (consume bounds on_packet p k seen provisional w).
Proof.
  revert out k seen provisional w.
  induction p as [[]|e|n eof p IH|n p IH|p IH|o p IH]; intros out k seen provisional w Hp Hk; cbn [consume].
  - apply consumed_end; [done|]. intros X. split; [done|]. by intros [].
  - apply consumed_end; [done|]. intros X. split; [done|]. by intros [].
  - destruct Hp as [Hn Hp]. pose proof (session_read_spec n eof out k Hn Hk) as Ht.
    destruct (session_read_exact bounds n eof k) as [r k1].
    destruct (read_answered _ _ _ _ _ _ Ht Hn) as [(e & -> & Hf)|Hans].
    { pose proof Hf as (_ & _ & _ & text & ->). left. by eexists. }
    assert (consume_ends (ReadExact n eof p) out k seen provisional (consume bounds on_packet (p r) k1 seen provisional w)) as H.
    { apply (consume_step (mem_read_exact n eof) n p _ out k k1 r); [done|done|done|]. intros out1 H1. by apply IH. }
    destruct Hans as (q & _ & _ & [->|[a ->]] & _); exact H.
  - destruct Hp as [Hn Hp]. pose proof (session_discard_spec n out k Hn Hk) as Ht.
    destruct (session_discard_exact bounds n k) as [r k1].
    destruct (discard_answered _ _ _ _ _ Ht Hn) as [(e & -> & Hf)|Hans].
    { pose proof Hf as (_ & _ & _ & text & ->). left. by eexists. }
    assert (consume_ends (DiscardExact n p) out k seen provisional (consume bounds on_packet (p r) k1 seen provisional w)) as H.
    { apply (consume_step (mem_discard_exact n) n p _ out k k1 r); [done|done|done|]. intros out1 H1. by apply IH. }
    destruct Hans as (q & _ & _ & [->|[a ->]] & _); exact H.
  - specialize (IH (ses_offset k) out k seen provisional w (Hp _) Hk).
    destruct Hk as (_ & _ & Ho). rewrite Ho in *. exact IH.
  - destruct (on_packet (seen + 1) o w) as [[found|e] w1] eqn:E; cycle 1.
    { right; left. exists e. split_and!; [done|by eexists _, _, _, _|apply Hk]. }
    specialize (IH out k (seen + 1) (provisional ++ found) w1 Hp Hk).
    destruct (consume _ _ _ _ _ _ _) as [[[[r' k'] seen'] provisional'] w'].
    destruct IH as [H|[H|(more & -> & H)]]; [by left|by right; left|]. right; right.
    exists (found ++ more). rewrite app_assoc. split; [done|].
    destruct H as (packets & founds & out' & H1 & H2 & H3 & -> & H5 & H6).
    exists (o :: packets), (found :: founds), out'. split_and!; [done|done|rewrite zlen_cons; lia|done| |].
    + constructor; [by eexists _, _, _|done].
    + intros X HX. destruct (H6 X HX) as [Hr He]. cbn [run eof_seen]. by rewrite Hr.
Qed.
End consume.
End session.
