(* ===== verification/PrefixDecode.v ===== *)
(** * PrefixDecode

    The export decoder on the part of a capture that [bounded_pcap_prefix]
    admits: it yields the first packets it yields on the whole capture, as many
    as were admitted, and the numbers are those the indexed export computes from
    the structural index alone ([admitted_prefix] of [IndexedPlan]). *)

From Stdlib Require Import String.
From S2P Require Import Prelude Bytes Reader ReaderLogic CaptureFormat IpAddress PacketProjection StructuralIndex StructuralProofs.
From S2P Require Import ExportDecoder ExportAgreement CapturePrefix BoundedCapture BoundedProofs ParserProofs.
From S2P Require Import OffsetIndex IndexedPlan SessionProofs.
#[local] Open Scope Z_scope.

(** ** Locality *)

(** A run that stays within the first [n] bytes is the same on those bytes. *)
Lemma run_truncated {O A} (p : prog O A) C n off :
  sizes_ok p -> 0 <= off <= zlen C -> (run p (mem_at C off)).2.(mem_offset) <= n ->
  run p (mem_at (ztake n C) off) =
  ((run p (mem_at C off)).1, mem_at (ztake n C) (run p (mem_at C off)).2.(mem_offset)).
Proof.
  intros Hp Hoff. destruct (Z.le_gt_cases (zlen C) n) as [Hn|Hn].
  { intros _. rewrite ztake_all by done. destruct (run_at C p off Hp Hoff) as (off' & H & _).
    destruct (run p (mem_at C off)) as [x m]. simpl in *. by subst m. }
  revert off Hp Hoff. induction p as [a|e|k eof p IH|k p IH|p IH|o p IH]; intros off Hp Hoff Hle;
    cbn [run cursor_read_exact cursor_discard_exact cursor_offset MemCursor_ops] in *; [done|done| | |by apply IH|].
  - destruct Hp as [Hk Hp]. rewrite (mem_read_at C) in Hle |- * by lia.
    destruct (Z.leb_spec (off + k) (zlen C)) as [Hin|Hout].
    + destruct (run_at C (p (Ok (slice off (off + k) C))) (off + k) (Hp _) ltac:(lia)) as (off' & Hrun & Hge).
      assert (off + k <= n) by (rewrite Hrun in Hle; simpl in Hle; lia).
      rewrite mem_read_at, zlen_ztake by (rewrite ?zlen_ztake; lia). rewrite (proj2 (Z.leb_le _ _)) by lia.
      rewrite slice_ztake by lia. apply IH; [done|lia|done].
    + edestruct (run_at C (p (if eof && (off =? zlen C) then Ok [] else Err EOFError)) (zlen C) (Hp _)) as (off' & Hrun & Hge);
        [lia|]. rewrite Hrun in Hle. simpl in Hle. lia.
  - destruct Hp as [Hk Hp]. rewrite (mem_discard_at C) in Hle |- * by lia.
    destruct (Z.leb_spec (off + k) (zlen C)) as [Hin|Hout].
    + destruct (run_at C (p (Ok tt)) (off + k) (Hp _) ltac:(lia)) as (off' & Hrun & Hge).
      assert (off + k <= n) by (rewrite Hrun in Hle; simpl in Hle; lia).
      rewrite mem_discard_at, zlen_ztake by (rewrite ?zlen_ztake; lia). rewrite (proj2 (Z.leb_le _ _)) by lia.
      apply IH; [done|lia|done].
    + destruct (run_at C (p (Err EOFError)) (zlen C) (Hp _) ltac:(lia)) as (off' & Hrun & Hge).
      rewrite Hrun in Hle. simpl in Hle. lia.
  - specialize (IH off Hp Hoff). destruct (run p (mem_at C off)) as [[os r] m]. simpl in *. by rewrite IH.
Qed.

(** The same for a run that returns, by its offset. *)
Lemma run_truncated_Ok {O A} (p : prog O A) C n off os a off' :
  sizes_ok p -> 0 <= off <= zlen C -> run p (mem_at C off) = (os, Ok a, mem_at C off') -> off' <= n ->
  run p (mem_at (ztake n C) off) = (os, Ok a, mem_at (ztake n C) off').
Proof. intros Hp Hoff Hr Hn. rewrite (run_truncated p C n off), Hr by (by rewrite ?Hr). done. Qed.

Definition anything (_ : exn) : Prop := True.
Ltac any_go := wp_step ltac:(first [exact I | by right]); try exact I.

(** What [wp] says of a run that returned. *)
Lemma wp_run {O A} C (Q : list O -> A -> Z -> Prop) p off os a m :
  wp C anything Q p off -> run p (mem_at C off) = (os, Ok a, m) ->
  exists off', m = mem_at C off' /\ off <= off' <= zlen C /\ Q os a off'.
Proof. unfold wp. intros H Hr. by rewrite Hr in H. Qed.

Lemma ztake_S {A} n (x : A) l : 0 <= n -> ztake (1 + n) (x :: l) = x :: ztake n l.
Proof. intros. unfold ztake. by replace (Z.to_nat (1 + n)) with (S (Z.to_nat n)) by lia. Qed.

Section decoder.
Context (source_id : string) (source_order : Z) (networks : list ip_network).
Context (C : bytes).

(** The decoder yielded the packet of the record at [rec]. *)
Definition yields_record (rec framed : Z) (os : list ExportPacket) : Prop :=
  exists q, os = [q] /\ q.(ep_locator).(loc_record_offset) = rec /\ q.(ep_locator).(loc_framed_length) = framed.

(** ** Classic captures *)

Lemma classic_record_wp e resolution interface rec count header off :
  0 <= off <= zlen C ->
  let captured := u32 e header 8 in
  wp C anything (fun os _ off' => off' = off + captured /\ captured <= MAX_CAPTURED_PACKET_BYTES /\
    yields_record rec (16 + captured) os)
    (decode_classic_record source_id source_order networks e resolution interface rec count header) off.
Proof.
  intros Hoff captured. pose proof (u32_bound e header 8). unfold decode_classic_record.
  fold captured. repeat any_go. split_and!; [done|done|]. by eexists.
Qed.

(** Running a tree to its end, then the rest. *)
Lemma run_step {O A B} (p : prog O A) (f : A -> prog O B) m os a m' :
  run p m = (os, Ok a, m') ->
  run (p ≫= f) m = let '(os', r, m'') := run (f a) m' in (os ++ os', r, m'').
Proof. intros H. rewrite run_bind, H. by destruct (run (f a) m') as [[? ?] ?]. Qed.

Lemma run_read_at X n eof off e :
  0 <= off -> 0 <= n -> off + n <= zlen X ->
  run (O := ExportPacket) (catch_eof e (read_exact n eof)) (mem_at X off) = ([], Ok (slice off (off + n) X), mem_at X (off + n)).
Proof.
  intros. rewrite run_catch_eof. unfold read_exact. cbn [run cursor_read_exact MemCursor_ops].
  rewrite mem_read_at, (proj2 (Z.leb_le _ _)) by lia. done.
Qed.

Lemma run_read_end X n e :
  0 < n -> run (O := ExportPacket) (catch_eof e (read_exact n true)) (mem_at X (zlen X)) = ([], Ok [], mem_at X (zlen X)).
Proof.
  intros. pose proof (zlen_nonneg X). rewrite run_catch_eof. unfold read_exact. cbn [run cursor_read_exact MemCursor_ops].
  rewrite mem_read_at, (proj2 (Z.leb_gt _ _)), Z.eqb_refl by lia. done.
Qed.

Lemma eof_read_end X n e : 0 < n -> eof_seen (O := ExportPacket) (catch_eof e (read_exact n true)) (mem_at X (zlen X)).
Proof. intros. apply eof_seen_catch. left. simpl. rewrite zlen_zdrop by apply zlen_nonneg. lia. Qed.

(** The loop at the end of a capture. *)
Lemma classic_loop_end X fuel e resolution interface count :
  let loop := iter_classic_loop source_id source_order networks (S fuel) e resolution interface count in
  run loop (mem_at X (zlen X)) = ([], if count =? 0 then Err empty_capture else Ok tt, mem_at X (zlen X)) /\
  eof_seen loop (mem_at X (zlen X)).
Proof.
  cbn zeta. cbn [iter_classic_loop]. split.
  - rewrite (run_step _ _ _ [] (zlen X) (mem_at X (zlen X))) by done. erewrite run_step by (apply run_read_end; lia).
    rewrite bool_decide_true by done. by destruct (count =? 0).
  - eapply eof_seen_bind_r; [done|]. apply eof_seen_bind_l, eof_read_end. lia.
Qed.

(** One record of a capture the loop accepts, and the same record on a prefix
    that holds it. *)
Lemma classic_loop_step fuel e resolution interface count off ps m :
  let loop fuel count := iter_classic_loop source_id source_order networks fuel e resolution interface count in
  let next := off + 16 + u32 e C (off + 8) in
  0 <= off <= zlen C -> run (loop (S fuel) count) (mem_at C off) = (ps, Ok tt, m) ->
  off = zlen C /\ ps = [] \/
  exists q ps', ps = q :: ps' /\ yields_record off (next - off) [q] /\ next <= zlen C /\
    u32 e C (off + 8) <= MAX_CAPTURED_PACKET_BYTES /\
    run (loop fuel (count + 1)) (mem_at C next) = (ps', Ok tt, m) /\
    forall n, next <= n ->
      run (loop (S fuel) count) (mem_at (ztake n C) off) =
        (let '(os, r, m) := run (loop fuel (count + 1)) (mem_at (ztake n C) next) in (q :: os, r, m)) /\
      (eof_seen (loop fuel (count + 1)) (mem_at (ztake n C) next) -> eof_seen (loop (S fuel) count) (mem_at (ztake n C) off)).
Proof.
  cbn zeta. intros Hoff Hrun. destruct (Z.eq_dec off (zlen C)) as [->|Hne].
  { left. split; [done|]. destruct (classic_loop_end C fuel e resolution interface count) as [He _]. cbn zeta in He.
    rewrite He in Hrun. by injection Hrun as <- _ _. }
  right. cbn [iter_classic_loop] in Hrun. rewrite (run_step _ _ _ [] off (mem_at C off)) in Hrun by done.
  destruct (Z.le_gt_cases (off + 16) (zlen C)) as [Hin|Hout]; cycle 1.
  { exfalso. rewrite run_bind, run_catch_eof in Hrun. unfold read_exact in Hrun.
    cbn [run cursor_read_exact MemCursor_ops] in Hrun. rewrite mem_read_at, (proj2 (Z.leb_gt _ _)) in Hrun by lia.
    rewrite (proj2 (Z.eqb_neq _ _)) in Hrun by done. done. }
  erewrite run_step in Hrun by (apply run_read_at; lia). rewrite bool_decide_false in Hrun by (apply slice_nonempty; lia).
  set (header := slice off (off + 16) C) in *. rewrite run_bind in Hrun.
  assert (u32 e header 8 = u32 e C (off + 8)) as Hu by (unfold header; by rewrite u32_slice by lia).
  set (record := decode_classic_record source_id source_order networks e resolution interface off count header) in *.
  destruct (run record (mem_at C (off + 16))) as [[os [[]|x]] m1] eqn:Hrec; [|done].
  destruct (wp_run C _ _ _ _ _ _ (classic_record_wp e resolution interface off count header (off + 16) ltac:(lia)) Hrec)
    as (off1 & -> & Hle & -> & Hmax & (q & -> & Hq)). rewrite Hu in *.
  destruct (run (iter_classic_loop source_id source_order networks fuel e resolution interface (count + 1)) _)
    as [[ps' r'] m'] eqn:Hrest. injection Hrun as <- -> ->.
  exists q, ps'. split_and!; [done| |lia|done|done|].
  { exists q. split_and!; [done|apply Hq|]. rewrite (proj2 Hq). lia. }
  intros n Hn. assert (zlen (ztake n C) = Z.min n (zlen C)) as Hz by (rewrite zlen_ztake; lia).
  assert (slice off (off + 16) (ztake n C) = header) as Hs by (unfold header; apply slice_ztake; lia).
  assert (run record (mem_at (ztake n C) (off + 16)) = ([q], Ok tt, mem_at (ztake n C) (off + 16 + u32 e C (off + 8)))) as Hrec'.
  { eapply run_truncated_Ok; [apply sizes_decode_classic_record|lia|exact Hrec|lia]. }
  cbn [iter_classic_loop]. split.
  - rewrite (run_step _ _ _ [] off (mem_at (ztake n C) off)) by done. erewrite run_step by (apply run_read_at; lia).
    rewrite Hs, bool_decide_false by (unfold header; apply slice_nonempty; lia).
    fold record. rewrite (run_step _ _ _ _ _ _ Hrec').
    by destruct (run _ (mem_at (ztake n C) (off + 16 + u32 e C (off + 8)))) as [[? ?] ?].
  - intros Heof. eapply eof_seen_bind_r; [done|]. eapply eof_seen_bind_r; [apply run_read_at; lia|].
    rewrite Hs, bool_decide_false by (unfold header; apply slice_nonempty; lia). fold record.
    by eapply eof_seen_bind_r; [exact Hrec'|].
Qed.

(** The index entry of a decoded packet. *)
Definition entry_of (p : StructuralPacketEntry) (q : ExportPacket) : Prop :=
  p.(spe_record_offset) = q.(ep_locator).(loc_record_offset) /\
  p.(spe_framed_length) = q.(ep_locator).(loc_framed_length).

(** What the decoder makes of a capture that ends after [admitted] packets. *)
Definition verdict (admitted : Z) : res unit := if admitted =? 0 then Err empty_capture else Ok tt.

(** A loop of the decoder on the admitted prefix: the first packets and the end. *)
Definition decodes_prefix (loop : prog ExportPacket unit) (start off scanned admitted : Z) (ps : list ExportPacket) : Prop :=
  run loop (mem_at (ztake scanned C) off) =
    (ztake (admitted - start) ps, verdict admitted, mem_at (ztake scanned C) scanned) /\
  eof_seen loop (mem_at (ztake scanned C) off).

Lemma classic_loop_stop fuel e resolution interface count off ps :
  0 <= off <= zlen C ->
  decodes_prefix (iter_classic_loop source_id source_order networks (S fuel) e resolution interface count)
    count off off count ps.
Proof.
  intros Hoff. destruct (classic_loop_end (ztake off C) fuel e resolution interface count) as [Hr He].
  assert (zlen (ztake off C) = off) as Hz by (rewrite zlen_ztake; lia). rewrite Hz in *.
  unfold decodes_prefix, verdict. by rewrite Z.sub_diag, ztake_0.
Qed.

Lemma classic_prefix_decodes mb mp fuel fuel2 e resolution interface count off es ps m :
  let loop := iter_classic_loop source_id source_order networks fuel e resolution interface count in
  0 <= off <= zlen C -> zlen C - off < Z.of_nat fuel2 -> Forall2 entry_of es ps ->
  run loop (mem_at C off) = (ps, Ok tt, m) ->
  let '(admitted, scanned, bl, pl) := classic_prefix_scan es (zlen C) mb mp count off in
  classic_prefix_loop C mb (Some mp) fuel2 e off count = Ok (mk_prefix (ztake scanned C) scanned admitted bl pl) /\
  decodes_prefix loop count off scanned admitted ps /\ off <= scanned <= zlen C /\ count <= admitted.
Proof.
  cbn zeta. revert fuel2 count off es ps. induction fuel as [|fuel IH]; intros fuel2 count off es ps Hoff Hf Hes Hrun; [done|].
  destruct fuel2 as [|fuel2]; [lia|].
  assert (prefix_until C off count = mk_prefix (ztake off C) off count) as Hu.
  { unfold prefix_until. by rewrite Z.min_l by lia. }
  pose proof (classic_loop_stop fuel e resolution interface count off ps Hoff) as Hstop.
  destruct (classic_loop_step fuel e resolution interface count off ps m Hoff Hrun) as
    [[-> ->]|(q & ps' & -> & Hq & Hnext & Hmax & Hrest & Htrunc)].
  { apply Forall2_nil_inv_r in Hes as ->. cbn [classic_prefix_scan classic_prefix_loop]. rewrite Z.ltb_irrefl, Hu.
    assert ((if zlen C <=? mb then zlen C else zlen C) = zlen C) as -> by (by destruct (_ <=? _)).
    rewrite Z.ltb_irrefl. split_and!; done || lia. }
  apply Forall2_cons_inv_r in Hes as (p & es' & [Hp1 Hp2] & Hes & ->).
  destruct Hq as (q' & [= <-] & Hq1 & Hq2). pose proof (u32_bound e C (off + 8)) as Hub.
  set (next := off + 16 + u32 e C (off + 8)) in *. assert (next = off + 16 + u32 e C (off + 8)) as Hnx by done.
  cbn [classic_prefix_scan classic_prefix_loop]. rewrite Hu.
  rewrite (proj2 (Z.ltb_lt off _)) by lia. unfold source_exceeds_limit. rewrite Hp1, Hp2, Hq1, Hq2.
  replace (off + (next - off)) with next by lia.
  destruct ((mb <? zlen C) && (mb - off <? 16)); [split_and!; done || lia|]. cbn [packets_exhausted]. destruct (mp <=? count); [split_and!; done || lia|].
  rewrite (proj2 (Z.ltb_ge (zlen C - off) 16)) by lia. cbn [raise_if mbind res_bind]. fold next.
  destruct ((mb <? zlen C) && (mb <? next)); [split_and!; done || lia|].
  rewrite (proj2 (Z.ltb_ge MAX_CAPTURED_PACKET_BYTES _)), (proj2 (Z.ltb_ge (zlen C) _)) by lia. cbn [orb raise_if mbind res_bind].
  specialize (IH fuel2 (count + 1) next es' ps' ltac:(lia) ltac:(lia) Hes Hrest).
  destruct (classic_prefix_scan es' (zlen C) mb mp (count + 1) next) as [[[admitted scanned] bl] pl].
  destruct IH as (Hl & [Hr He] & Hsc & Had). split_and!; [done| |lia..].
  destruct (Htrunc scanned ltac:(lia)) as [Ht1 Ht2]. split; [|by apply Ht2]. rewrite Ht1, Hr.
  replace (admitted - count) with (1 + (admitted - (count + 1))) by lia. by rewrite ztake_S by lia.
Qed.

(** ** PCAPNG captures *)

Lemma decode_options_wp fuel remaining e den tso off :
  0 <= off <= zlen C -> 0 <= remaining ->
  wp (O := ExportPacket) C anything (fun os _ off' => os = [] /\ off' = off + remaining)
    (decode_options_loop fuel remaining e den tso) off.
Proof.
  revert remaining den tso off. induction fuel as [|fuel IH]; intros remaining den tso off Hoff Hr; [done|].
  cbn [decode_options_loop]. destruct (Z.eqb_spec remaining 0); [any_go; split; [done|lia]|].
  destruct (Z.ltb_spec remaining 4); [repeat any_go; done|]. do 2 any_go. cbv zeta.
  set (header := slice off (off + 4) C) in *.
  destruct (u16 e header 0 =? 0); [repeat any_go; split; [done|lia]|].
  pose proof (u16_bound e header 2). pose proof (pad4_bounds (u16 e header 2)).
  destruct (Z.ltb_spec (remaining - 4) (pad4 (u16 e header 2))); [repeat any_go; split; [done|lia]|].
  any_go. eapply (wp_mono _ _ anything _ (fun os _ off' => os = [] /\ off' = off + 4 + pad4 (u16 e header 2))); [done| |].
  { intros os v off' Hle [-> ->]. eapply wp_mono; [done| |apply IH; lia]. intros ? ? ? _ [-> ->]. split; [done|lia]. }
  unfold decode_ng_option. destruct (_ && (_ =? 1)) eqn:E1; reflect_bools; [repeat any_go; split; [done|lia]|].
  destruct (_ && (_ =? 8)) eqn:E2; reflect_bools; repeat any_go; split; done || lia.
Qed.

Section block.
Context (off : Z) (Hoff : 0 <= off) (Hin : off + 12 <= zlen C).
#[local] Abbreviation prefix := (slice off (off + 12) C).

(** Where the body of a block of length [len] ends. *)
Definition body_end (len : Z) : Z := if len - 12 =? 0 then off + 12 else off + len - 4.

Lemma read_trailer_wp e len (Hlen : len = 12 \/ 16 <= len) (Hend : body_end len <= zlen C) :
  wp (O := ExportPacket) C anything (fun os t off' => os = [] /\ off' = off + len /\ u32 e t 0 = u32 e C (off + len - 4))
    (read_trailer prefix (len - 12)) (body_end len).
Proof.
  unfold read_trailer, body_end in *. destruct (Z.eqb_spec (len - 12) 0) as [H0|H0].
  - any_go. split_and!; [done|lia|]. rewrite slice_slice, u32_slice by lia. f_equal. lia.
  - any_go. split_and!; [done|lia|]. rewrite u32_slice by lia. f_equal. lia.
Qed.

Lemma discard_body_wp len (Hlen : len = 12 \/ 16 <= len) :
  wp (O := ExportPacket) C anything (fun os _ off' => os = [] /\ off' = body_end len)
    (discard_body (len - 12)) (off + 12).
Proof.
  unfold discard_body, body_end. destruct (Z.eqb_spec (len - 12) 0); any_go; split; done || lia.
Qed.

(** A block the decoder accepted: its framing, and the packet it yields. *)
Definition block_done (rec : Z) (nd : NgDecodeState) (os : list ExportPacket) (nd' : NgDecodeState) (off' : Z) : Prop :=
  exists e,
    (if bool_decide (slice off (off + 4) C = PCAPNG_SECTION)
     then section_endian (slice (off + 8) (off + 12) C) = Some e else e = nd.(nd_endian)) /\
    nd'.(nd_endian) = e /\
    let len := u32 e C (off + 4) in let is_packet := is_packet_block (u32 e C off) in
    12 <= len /\ len mod 4 = 0 /\ off' = off + len /\ u32 e C (off' - 4) = len /\
    nd'.(nd_count) = nd.(nd_count) + Z.b2z is_packet /\
    if is_packet then yields_record rec len os else os = [].

Lemma section_block_wp rec nd :
  slice off (off + 4) C = PCAPNG_SECTION ->
  wp C anything (block_done rec nd) (decode_section_block prefix nd) (off + 12).
Proof.
  intros Hs. unfold decode_section_block. rewrite slice_slice by lia. replace (off + 0) with off by lia.
  destruct (section_endian (slice (off + 8) (off + 12) C)) as [e|] eqn:He; [|any_go].
  rewrite slice_slice, u32_slice by lia. replace (off + 4 + 0) with (off + 4) by lia. cbv zeta.
  set (len := u32 e C (off + 4)). do 2 any_go.
  pose proof (validate_ng_length_Ok _ _ H) as [H12 H16]. pose proof (validate_ng_length_mod _ _ H) as Hm.
  any_go. any_go.
  eapply (wp_mono _ _ anything _ (fun os t off' => os = [] /\ off' = off + len /\ u32 e t 0 = u32 e C (off + len - 4))); [by right| |].
  { intros os t off' Hle (-> & -> & Ht). repeat any_go. apply validate_ng_trailer_Ok in H0. exists e.
    rewrite bool_decide_true by done. split_and!; [done|done|]. cbv zeta. fold len.
    assert (is_packet_block (u32 e C off) = false) as ->.
    { rewrite <- (section_not_packet e _ Hs). f_equal. rewrite u32_slice by lia. f_equal. lia. }
    split_and!; try done; simpl; [congruence|lia]. }
  destruct (Z.eqb_spec len 12) as [H12'|].
  - any_go. split_and!; [done|lia|]. rewrite u32_slice by lia. f_equal. lia.
  - repeat any_go. split_and!; [done|lia|]. rewrite u32_slice by lia. f_equal. lia.
Qed.

(** The rest of a block after its body: the trailer, the section check, and what
    the block does then. *)
Lemma block_tail_wp {A} e len section (k : prog ExportPacket A) Q :
  len = 12 \/ 16 <= len -> body_end len <= zlen C ->
  (off + len <= zlen C -> u32 e C (off + len - 4) = len -> wp C anything Q k (off + len)) ->
  wp C anything Q
    (trailer ← read_trailer prefix (len - 12);
     _ ← lift_res (validate_ng_trailer trailer len e);
     _ ← check_in_section section; k) (body_end len).
Proof.
  intros Hlen Hend Hk. any_go. eapply wp_mono; [done| |by apply (read_trailer_wp e)].
  intros os t off' Hle (-> & -> & Ht). unfold check_in_section. do 4 any_go. apply validate_ng_trailer_Ok in H.
  apply Hk; [lia|congruence].
Qed.

Lemma interface_block_wp len body_prefix nd :
  len = 12 \/ 16 <= len ->
  wp C anything (fun os nd' off' => os = [] /\ nd'.(nd_endian) = nd.(nd_endian) /\ nd'.(nd_count) = nd.(nd_count) /\
      off' = off + len /\ u32 nd.(nd_endian) C (off + len - 4) = len)
    (decode_interface_block prefix len (len - 12) body_prefix nd) (off + 12).
Proof.
  intros Hlen. unfold decode_interface_block. cbv zeta. any_go.
  eapply (wp_mono _ _ anything _ (fun os _ off' => os = [] /\ off' = body_end len)); [done| |].
  - intros os v off' Hle [-> ->]. apply block_tail_wp; [done|lia|]. intros Hend Htr.
    destruct v as [[[link_type snaplen] [[[? ?] ?] option_error]]|]; [|any_go].
    any_go. any_go. any_go. destruct option_error; [any_go|]. repeat any_go. done.
  - destruct (Z.ltb_spec (len - 12) 8).
    + any_go. eapply wp_mono; [done| |by apply discard_body_wp]. intros os u off' Hle [-> ->]. any_go. done.
    + do 3 any_go. eapply (wp_mono _ _ anything); [done| |apply decode_options_wp; lia].
      intros os v off' Hle [-> ->]. any_go. split; [done|]. unfold body_end.
      rewrite (proj2 (Z.eqb_neq _ 0)) by lia. lia.
Qed.

Lemma packet_values_wp e t body_prefix len :
  len = 12 \/ 16 <= len ->
  wp C anything (fun os _ off' => os = [] /\ off' = body_end len)
    (decode_packet_values e t body_prefix (len - 12)) (off + 12).
Proof.
  intros Hlen. unfold decode_packet_values. destruct (Z.ltb_spec (len - 12) 20).
  - any_go. eapply wp_mono; [done| |by apply discard_body_wp]. intros os u off' Hle [-> ->]. any_go. done.
  - do 2 any_go. unfold ng_packet_values.
    assert (body_end len = off + len - 4) as -> by (unfold body_end; rewrite (proj2 (Z.eqb_neq _ 0)); lia).
    set (fixed := body_prefix ++ _). pose proof (u32_bound e fixed 12) as Hu.
    pose proof (pad4_bounds (u32 e fixed 12) ltac:(lia)) as [Hp _].
    destruct (t =? 6); cbv zeta; any_go; (destruct (_ && _) eqn:E; reflect_bools; repeat any_go; (split; [done|lia])).
Qed.

Lemma packet_block_wp rec t len body_prefix nd :
  len = 12 \/ 16 <= len ->
  wp C anything (fun os nd' off' => yields_record rec len os /\ nd'.(nd_endian) = nd.(nd_endian) /\
      nd'.(nd_count) = nd.(nd_count) + 1 /\ off' = off + len /\ u32 nd.(nd_endian) C (off + len - 4) = len)
    (decode_packet_block source_id source_order networks rec prefix t len (len - 12) body_prefix nd) (off + 12).
Proof.
  intros Hlen. unfold decode_packet_block. cbv zeta. any_go. eapply wp_mono; [done| |by apply packet_values_wp].
  intros os [values raw] off' Hle [-> ->]. apply block_tail_wp; [done|lia|]. intros Hend Htr.
  destruct values as [[[[[interface_id high] low] captured] original]|]; [|any_go].
  destruct (nd_interfaces nd !! Z.to_nat interface_id) as [interface|]; [|any_go]. repeat any_go.
  split_and!; try done. by eexists.
Qed.

Lemma skipped_block_wp t len nd :
  len = 12 \/ 16 <= len ->
  wp C anything (fun os nd' off' => os = [] /\ nd' = nd /\ off' = off + len /\ u32 nd.(nd_endian) C (off + len - 4) = len)
    (decode_skipped_block prefix t len (len - 12) nd) (off + 12).
Proof.
  intros Hlen. unfold decode_skipped_block. any_go. eapply wp_mono; [done| |by apply discard_body_wp].
  intros os u off' Hle [-> ->]. apply block_tail_wp; [done|lia|]. intros Hend Htr. case_match; by any_go.
Qed.

Lemma ng_block_wp rec nd :
  wp C anything (block_done rec nd) (decode_ng_block source_id source_order networks rec prefix nd) (off + 12).
Proof.
  unfold decode_ng_block. change (ztake 4) with (@slice byte 0 4). rewrite slice_slice by lia.
  replace (off + 0) with off by lia. case_bool_decide as Hs; [by apply section_block_wp|].
  set (e := nd_endian nd). rewrite !u32_slice by lia. replace (off + 0) with off by lia.
  set (t := u32 e C off). set (len := u32 e C (off + 4)). any_go. any_go.
  pose proof (validate_ng_length_Ok _ _ H) as [H12 H16]. pose proof (validate_ng_length_mod _ _ H) as Hm.
  any_go.
  assert (forall os nd' off', nd_endian nd' = e -> off' = off + len -> u32 e C (off + len - 4) = len ->
    nd_count nd' = nd_count nd + Z.b2z (is_packet_block t) -> (if is_packet_block t then yields_record rec len os else os = []) ->
    block_done rec nd os nd' off') as Hdone.
  { intros os nd' off' He -> Htr Hc Hos. exists e. rewrite bool_decide_false by done. split_and!; [done..|]. cbv zeta. by split_and!. }
  assert (is_packet_block t = (t =? 2) || (t =? 6)) as Hpk by done.
  destruct (Z.eqb_spec t 1) as [Ht|Ht].
  { eapply (wp_mono _ _ anything); [by right| |by apply interface_block_wp].
    intros os nd' off' _ (-> & H1 & H2 & H3 & H4). apply Hdone; rewrite ?Ht; simpl; try done; lia. }
  rewrite <- Hpk. destruct (is_packet_block t) eqn:Ep.
  - eapply (wp_mono _ _ anything); [by right| |by apply packet_block_wp].
    intros os nd' off' _ (H0 & H1 & H2 & H3 & H4). by apply Hdone.
  - eapply (wp_mono _ _ anything); [by right| |by apply skipped_block_wp].
    intros os nd' off' _ (-> & -> & H3 & H4). apply Hdone; simpl; try done; lia.
Qed.
End block.

(** Where the cursor stands when the loop comes to the block at [off]. *)
Definition block_cursor (magic : option bytes) (off : Z) : Z :=
  off + match magic with Some _ => 4 | None => 0 end.

Definition magic_at (magic : option bytes) (off : Z) : Prop :=
  match magic with Some m => m = slice off (off + 4) C /\ off + 4 <= zlen C | None => True end.

#[local] Abbreviation ng_loop := (iter_pcapng_loop source_id source_order networks).

Lemma ng_loop_end X fuel nd :
  run (ng_loop (S fuel) None nd) (mem_at X (zlen X)) = ([], verdict nd.(nd_count), mem_at X (zlen X)) /\
  eof_seen (ng_loop (S fuel) None nd) (mem_at X (zlen X)).
Proof.
  cbn [iter_pcapng_loop]. split.
  - rewrite (run_step _ _ _ [] (zlen X) (mem_at X (zlen X))) by done. erewrite run_step by (apply run_read_end; lia).
    rewrite bool_decide_true by done. unfold verdict. by destruct (_ =? 0).
  - eapply eof_seen_bind_r; [done|]. apply eof_seen_bind_l, eof_read_end. lia.
Qed.

(** The block header the loop reads at [off], on any prefix that holds it. *)
Lemma run_block_header X magic off e :
  0 <= off -> magic_at magic off -> off + 12 <= zlen X -> (forall i, 0 <= i -> i <= 12 -> slice off (off + i) X = slice off (off + i) C) ->
  run (O := ExportPacket) (catch_eof e match magic with
        | Some m => rest ← read_exact 8 false; Ret (m ++ rest)
        | None => read_exact 12 true
        end) (mem_at X (block_cursor magic off)) = ([], Ok (slice off (off + 12) C), mem_at X (off + 12)).
Proof.
  intros Hoff Hm Hin Hs. unfold block_cursor. destruct magic as [m|].
  - destruct Hm as [-> _]. rewrite run_catch_eof, run_bind. unfold read_exact. cbn [run cursor_read_exact MemCursor_ops].
    rewrite mem_read_at, (proj2 (Z.leb_le _ _)) by lia. cbn [lift_res run].
    replace (off + 4 + 8) with (off + 12) by lia. rewrite <- (Hs 4), <- (Hs 12) by lia. by rewrite slice_app by lia.
  - rewrite Z.add_0_r, run_read_at by lia. by rewrite Hs by lia.
Qed.

(** One block of a capture the loop accepts, and the same block on a prefix that
    holds it. *)
Lemma ng_loop_step fuel magic nd off ps m :
  0 <= off <= zlen C -> magic_at magic off ->
  run (ng_loop (S fuel) magic nd) (mem_at C (block_cursor magic off)) = (ps, Ok tt, m) ->
  off = zlen C /\ ps = [] \/
  exists os nd' next ps', ps = os ++ ps' /\ off + 12 <= zlen C /\ next <= zlen C /\ block_done off off nd os nd' next /\
    run (ng_loop fuel None nd') (mem_at C next) = (ps', Ok tt, m) /\
    forall n, next <= n -> off + 12 <= n ->
      run (ng_loop (S fuel) magic nd) (mem_at (ztake n C) (block_cursor magic off)) =
        (let '(os', r, m) := run (ng_loop fuel None nd') (mem_at (ztake n C) next) in (os ++ os', r, m)) /\
      (eof_seen (ng_loop fuel None nd') (mem_at (ztake n C) next) ->
       eof_seen (ng_loop (S fuel) magic nd) (mem_at (ztake n C) (block_cursor magic off))).
Proof.
  intros Hoff Hm Hrun. destruct (Z.eq_dec off (zlen C)) as [->|Hne].
  { left. split; [done|]. destruct magic as [mg|]; [destruct Hm; lia|]. unfold block_cursor in Hrun. rewrite Z.add_0_r in Hrun.
    rewrite (proj1 (ng_loop_end C fuel nd)) in Hrun. by injection Hrun as <- _ _. }
  right. cbn [iter_pcapng_loop] in Hrun.
  rewrite (run_step _ _ _ [] (block_cursor magic off) (mem_at C (block_cursor magic off))) in Hrun by done. cbv zeta in Hrun.
  assert (block_cursor magic off - match magic with Some _ => 4 | None => 0 end = off) as Hrec by (unfold block_cursor; lia).
  rewrite Hrec in Hrun.
  destruct (Z.le_gt_cases (off + 12) (zlen C)) as [Hin|Hout]; cycle 1.
  { exfalso. unfold block_cursor in Hrun. destruct magic as [mg|].
    - destruct Hm as [_ Hm]. rewrite run_bind, run_catch_eof, run_bind in Hrun. unfold read_exact in Hrun.
      cbn [run cursor_read_exact MemCursor_ops] in Hrun. rewrite mem_read_at, (proj2 (Z.leb_gt _ _)) in Hrun by lia. done.
    - rewrite Z.add_0_r, run_bind, run_catch_eof in Hrun. unfold read_exact in Hrun.
      cbn [run cursor_read_exact MemCursor_ops] in Hrun. rewrite mem_read_at, (proj2 (Z.leb_gt _ _)) in Hrun by lia.
      rewrite (proj2 (Z.eqb_neq _ _)) in Hrun by done. done. }
  erewrite run_step in Hrun by (apply run_block_header; done || lia).
  rewrite bool_decide_false in Hrun by (apply slice_nonempty; lia). rewrite run_bind in Hrun.
  set (block := decode_ng_block source_id source_order networks off (slice off (off + 12) C) nd) in *.
  destruct (run block (mem_at C (off + 12))) as [[os [nd'|x]] m1] eqn:Hblock; [|done].
  destruct (wp_run C _ _ _ _ _ _ (ng_block_wp off (proj1 Hoff) Hin off nd) Hblock) as (next & -> & Hle & Hdone).
  destruct (run (ng_loop fuel None nd') (mem_at C next)) as [[ps' r'] m'] eqn:Hrest. injection Hrun as <- -> ->.
  exists os, nd', next, ps'. split_and!; [done|done|lia|done|done|]. intros n Hn H12.
  assert (zlen (ztake n C) = Z.min n (zlen C)) as Hz by (rewrite zlen_ztake; lia).
  assert (run block (mem_at (ztake n C) (off + 12)) = (os, Ok nd', mem_at (ztake n C) next)) as Hblock'.
  { eapply run_truncated_Ok; [apply sizes_decode_ng_block|lia|exact Hblock|lia]. }
  assert (forall i, 0 <= i -> i <= 12 -> slice off (off + i) (ztake n C) = slice off (off + i) C) as Hs
    by (intros; apply slice_ztake; lia).
  cbn [iter_pcapng_loop]. split.
  - rewrite (run_step _ _ _ [] (block_cursor magic off) (mem_at (ztake n C) (block_cursor magic off))) by done. cbv zeta.
    rewrite Hrec. erewrite run_step by (apply run_block_header; done || lia).
    rewrite bool_decide_false by (apply slice_nonempty; lia). fold block. rewrite (run_step _ _ _ _ _ _ Hblock').
    by destruct (run (ng_loop fuel None nd') (mem_at (ztake n C) next)) as [[? ?] ?].
  - intros Heof. eapply eof_seen_bind_r; [done|]. cbv zeta.
    eapply eof_seen_bind_r; [apply run_block_header; done || lia|].
    rewrite bool_decide_false by (apply slice_nonempty; lia).
    change (cursor_offset (mem_at (ztake n C) (block_cursor magic off))) with (block_cursor magic off). rewrite Hrec. fold block.
    by eapply eof_seen_bind_r; [exact Hblock'|].
Qed.

Lemma ng_loop_stop fuel nd off ps :
  0 <= off <= zlen C -> decodes_prefix (ng_loop (S fuel) None nd) nd.(nd_count) off off nd.(nd_count) ps.
Proof.
  intros Hoff. destruct (ng_loop_end (ztake off C) fuel nd) as [Hr He].
  assert (zlen (ztake off C) = off) as Hz by (rewrite zlen_ztake; lia). rewrite Hz in *.
  unfold decodes_prefix. by rewrite Z.sub_diag, ztake_0.
Qed.

(** Where a packet limit cuts a capture: at the record of the next packet. *)
Definition ng_cut (es : list StructuralPacketEntry) (k : Z) : Z * bool :=
  match es !! Z.to_nat k with Some p => (p.(spe_record_offset), true) | None => (zlen C, false) end.

Lemma ng_prefix_decodes mb mp fuel fuel2 e magic nd off es ps m :
  zlen C <= mb -> 0 <= nd.(nd_count) <= mp -> 0 <= off <= zlen C -> magic_at magic off ->
  (magic = None \/ slice off (off + 4) C = PCAPNG_SECTION) -> (slice off (off + 4) C = PCAPNG_SECTION \/ e = nd.(nd_endian)) ->
  zlen C - off < Z.of_nat fuel2 -> Forall2 entry_of es ps ->
  run (ng_loop fuel magic nd) (mem_at C (block_cursor magic off)) = (ps, Ok tt, m) ->
  let admitted := Z.min (nd.(nd_count) + zlen ps) mp in
  let '(scanned, pl) := ng_cut es (admitted - nd.(nd_count)) in
  ng_prefix_loop C mb (Some mp) fuel2 e off nd.(nd_count) = Ok (mk_prefix (ztake scanned C) scanned admitted false pl) /\
  decodes_prefix (ng_loop fuel magic nd) nd.(nd_count) (block_cursor magic off) scanned admitted ps /\
  off <= scanned <= zlen C /\ (magic = None \/ off + 12 <= scanned).
Proof.
  intros Hmb. revert fuel2 e magic nd off es ps.
  induction fuel as [|fuel IH]; intros fuel2 e magic nd off es ps Hc Hoff Hm Hsec He Hf Hes Hrun; [done|]. cbv zeta.
  destruct fuel2 as [|fuel2]; [lia|].
  assert (prefix_until C off (nd_count nd) = mk_prefix (ztake off C) off (nd_count nd)) as Hu.
  { unfold prefix_until. by rewrite Z.min_l by lia. }
  destruct (ng_loop_step fuel magic nd off ps m Hoff Hm Hrun) as
    [[-> ->]|(os & nd' & next & ps' & -> & Hin & Hnext & (e' & He' & Hnd & Hdone) & Hrest & Htrunc)].
  { apply Forall2_nil_inv_r in Hes as ->. destruct magic as [mg|]; [destruct Hm; lia|]. rewrite zlen_nil, Z.add_0_r.
    rewrite Z.min_l, Z.sub_diag by lia. cbn [ng_cut ng_prefix_loop lookup list_lookup]. rewrite Z.ltb_irrefl, Hu.
    unfold block_cursor. rewrite Z.add_0_r. split_and!; [done|apply ng_loop_stop; lia|lia..|by left]. }
  cbv zeta in Hdone. set (len := u32 e' C (off + 4)) in *. set (is_packet := is_packet_block (u32 e' C off)) in *.
  destruct Hdone as (H12 & Hmod & -> & Htr & Hcnt & Hos). cbn [ng_prefix_loop]. rewrite Hu.
  rewrite (proj2 (Z.ltb_lt off _)) by lia. unfold source_exceeds_limit. rewrite (proj2 (Z.ltb_ge mb _)) by lia. cbn [andb].
  rewrite (proj2 (Z.ltb_ge (zlen C - off) 12)) by lia. cbn [raise_if mbind res_bind].
  assert ((if bool_decide (slice off (off + 4) C = PCAPNG_SECTION) then _pcapng_endian C off else Ok e) = Ok e') as ->.
  { case_bool_decide as Hs; [|by destruct He as [?| ->]; [|f_equal]]. unfold _pcapng_endian.
    rewrite (proj2 (Z.ltb_ge (zlen C - off) 12)) by lia. by rewrite He'. }
  cbn [mbind res_bind]. fold len is_packet. cbn [packets_exhausted].
  destruct (is_packet && (mp <=? nd_count nd)) eqn:Estop.
  { apply andb_true_iff in Estop as [Hpk Hmp]. rewrite Hpk in Hos. destruct Hos as (q & -> & Hq & _).
    destruct magic as [mg|].
    { exfalso. destruct Hsec as [?|Hs]; [done|]. unfold is_packet in Hpk.
      assert (u32 e' C off = u32 e' (slice off (off + 4) C) 0) as Hx by (rewrite u32_slice by lia; f_equal; lia).
      rewrite Hx, section_not_packet in Hpk by done. done. }
    apply Forall2_app_inv_r in Hes as (es1 & es2 & Hes1 & _ & ->). apply Forall2_cons_inv_r in Hes1 as (p & ? & [Hp _] & _ & ->).
    rewrite zlen_app, zlen_cons, zlen_nil in *. pose proof (zlen_nonneg ps').
    rewrite Z.min_r by lia. replace mp with (nd_count nd) in * by lia. rewrite Z.sub_diag.
    unfold ng_cut. simpl. rewrite Hp, Hq. unfold block_cursor. rewrite Z.add_0_r.
    split_and!; [done|apply ng_loop_stop; lia|lia..|by left]. }
  assert ((len <? 12) || negb (len mod 4 =? 0) = false) as -> by lia. cbn [raise_if mbind res_bind].
  rewrite (proj2 (Z.ltb_ge (zlen C) _)) by lia. cbn [raise_if mbind res_bind].
  rewrite Htr, Z.eqb_refl. cbn [negb raise_if mbind res_bind].
  replace (if is_packet then nd_count nd + 1 else nd_count nd) with (nd_count nd')
    by (rewrite Hcnt; destruct is_packet; simpl; lia).
  assert (zlen os = Z.b2z is_packet) as Hlos.
  { destruct is_packet; [destruct Hos as (q & -> & _); done|by subst os]. }
  apply Forall2_app_inv_r in Hes as (es1 & es2 & Hes1 & Hes2 & ->). pose proof (Forall2_length _ _ _ Hes1) as Hles.
  assert (nd_count nd' <= mp) as Hle by (rewrite Hcnt; destruct is_packet; simpl in *; lia).
  specialize (IH fuel2 e' None nd' (off + len) es2 ps' ltac:(split; [|done]; rewrite Hcnt; destruct is_packet; simpl; lia) ltac:(lia) I
    (or_introl eq_refl) (or_intror (eq_sym Hnd)) ltac:(lia) Hes2).
  change (block_cursor None (off + len)) with (off + len + 0) in IH. rewrite Z.add_0_r in IH.
  specialize (IH Hrest). cbv zeta in IH.
  rewrite zlen_app, Hlos, Z.add_assoc, <- Hcnt. set (admitted := Z.min (nd_count nd' + zlen ps') mp) in *.
  pose proof (zlen_nonneg ps') as Hps'. assert (nd_count nd' <= admitted) as Had by lia.
  assert (ng_cut (es1 ++ es2) (admitted - nd_count nd) = ng_cut es2 (admitted - nd_count nd')) as ->.
  { unfold ng_cut. rewrite lookup_app_r by (unfold zlen in *; lia).
    by replace (Z.to_nat (admitted - nd_count nd) - length es1)%nat with (Z.to_nat (admitted - nd_count nd'))
      by (unfold zlen in *; lia). }
  destruct (ng_cut es2 (admitted - nd_count nd')) as [scanned pl]. destruct IH as (Hl & [Hr Heo] & Hsc & _).
  split_and!; [done| |lia|lia|right; lia].
  destruct (Htrunc scanned ltac:(lia) ltac:(lia)) as [Ht1 Ht2].
  split; [|by apply Ht2]. rewrite Ht1, Hr. do 2 f_equal. unfold ztake.
  rewrite take_app_ge by (unfold zlen in *; lia). do 2 f_equal. unfold zlen in *. lia.
Qed.

(** ** The whole decoder *)

(** The format the first bytes announce. *)
Definition format_of : capture_format :=
  match CLASSIC_MAGIC (ztake 4 C) with Some _ => PCAP | None => PCAPNG end.

Lemma scan_format fuel lim bs fmt out m :
  run (scan_capture fuel lim) (mk_mem C 0) = (bs, Ok (fmt, out), m) -> fmt = format_of.
Proof.
  change (mk_mem C 0) with (mem_at C 0). pose proof (zlen_nonneg C). unfold scan_capture, format_of. rewrite run_bind, run_catch_eof.
  unfold read_exact at 1. cbn [run cursor_read_exact MemCursor_ops]. rewrite mem_read_at by lia.
  destruct (Z.leb_spec (0 + 4) (zlen C)) as [H4|H4]; [|done]. cbn [lift_res run].
  change (slice 0 (0 + 4) C) with (ztake 4 C). destruct (CLASSIC_MAGIC (ztake 4 C)) as [[e r]|].
  - rewrite run_bind. destruct (run (_scan_classic _ _ _ _) _) as [[bs' [o|x]] m']; [|done]. cbn. by intros [= _ <- _ _].
  - case_bool_decide; [|done]. rewrite run_bind. destruct (run (_scan_pcapng _ _ _) _) as [[bs' [o|x]] m']; [|done].
    cbn. by intros [= _ <- _ _].
Qed.

#[local] Abbreviation capture fuel := (export_capture source_id source_order networks fuel).

(** The decoder reads the magic number and goes on with the loop of the format. *)
Lemma export_capture_head X fuel :
  4 <= zlen X -> ztake 4 X = ztake 4 C -> is_Some (CLASSIC_MAGIC (ztake 4 C)) \/ ztake 4 C = PCAPNG_SECTION ->
  run (capture fuel) (mem_at X 0) = run (iter_packets source_id source_order networks fuel (ztake 4 C)) (mem_at X 4) /\
  (eof_seen (iter_packets source_id source_order networks fuel (ztake 4 C)) (mem_at X 4) -> eof_seen (capture fuel) (mem_at X 0)).
Proof.
  intros H4 Hx Hm. assert (run open_magic (mem_at X 0) = ([], Ok (ztake 4 C), mem_at X 4)) as Hopen.
  { unfold open_magic. erewrite run_step by (apply run_read_at; lia). change (slice 0 (0 + 4) X) with (ztake 4 X).
    rewrite Hx, run_bind. assert (negb (bool_decide (is_Some (CLASSIC_MAGIC (ztake 4 C)))) &&
      negb (bool_decide (ztake 4 C = PCAPNG_SECTION)) = false) as ->; [|done].
    destruct Hm as [Hm|Hm]; rewrite (bool_decide_true _ Hm); [done|by rewrite andb_false_r]. }
  unfold export_capture. split; [|intros He; by eapply eof_seen_bind_r]. rewrite (run_step _ _ _ _ _ _ Hopen).
  by destruct (run (iter_packets _ _ _ _ _) _) as [[? ?] ?].
Qed.

Lemma export_capture_magic fuel ps m :
  run (capture fuel) (mem_at C 0) = (ps, Ok tt, m) ->
  4 <= zlen C /\ (is_Some (CLASSIC_MAGIC (ztake 4 C)) \/ ztake 4 C = PCAPNG_SECTION).
Proof.
  pose proof (zlen_nonneg C). unfold export_capture, open_magic. rewrite run_bind, run_bind, run_catch_eof.
  unfold read_exact. cbn [run cursor_read_exact MemCursor_ops]. rewrite mem_read_at by lia.
  destruct (Z.leb_spec (0 + 4) (zlen C)) as [H4|H4]; [|done]. cbn [lift_res run]. change (slice 0 (0 + 4) C) with (ztake 4 C).
  rewrite run_bind. unfold guard_not. destruct (negb _ && negb _) eqn:E; [done|]. intros _. split; [lia|].
  apply andb_false_iff in E as [E|E]; apply negb_false_iff, bool_decide_eq_true in E; auto.
Qed.

(** The classic header, read on any prefix that holds it. *)
Lemma classic_head fuel e resolution ps m :
  run (_iter_classic source_id source_order networks fuel e resolution) (mem_at C 4) = (ps, Ok tt, m) ->
  exists interface, 24 <= zlen C /\
    let loop := iter_classic_loop source_id source_order networks fuel e resolution interface 0 in
    run loop (mem_at C 24) = (ps, Ok tt, m) /\
    forall n, 24 <= n ->
      run (_iter_classic source_id source_order networks fuel e resolution) (mem_at (ztake n C) 4) = run loop (mem_at (ztake n C) 24) /\
      (eof_seen loop (mem_at (ztake n C) 24) ->
       eof_seen (_iter_classic source_id source_order networks fuel e resolution) (mem_at (ztake n C) 4)).
Proof.
  intros Hrun. pose proof (zlen_nonneg C). unfold _iter_classic in Hrun.
  destruct (Z.le_gt_cases 24 (zlen C)) as [Hin|Hout]; cycle 1.
  { exfalso. rewrite run_bind, run_catch_eof in Hrun. unfold read_exact in Hrun. cbn [run cursor_read_exact MemCursor_ops] in Hrun.
    destruct (Z.le_gt_cases 4 (zlen C)) as [H4|H4].
    - rewrite mem_read_at, (proj2 (Z.leb_gt _ _)) in Hrun by lia. done.
    - unfold mem_read_exact in Hrun. simpl in Hrun. rewrite zdrop_all in Hrun by lia. done. }
  erewrite run_step in Hrun by (apply run_read_at; lia). cbv zeta in Hrun.
  change (4 + 20) with 24 in *. set (header := slice 4 24 C) in *.
  rewrite run_bind in Hrun. unfold guard_not in Hrun. destruct (negb _ || negb _) eqn:E1; [done|].
  cbn [run] in Hrun. rewrite run_bind in Hrun. destruct (_ || _) eqn:E2 in Hrun; [done|]. cbn [run] in Hrun.
  destruct (run (iter_classic_loop _ _ _ _ _ _ _ _) _) as [[ps' r'] m'] eqn:Hloop. injection Hrun as <- -> ->.
  eexists. split; [done|]. cbv zeta. split; [exact Hloop|]. intros n Hn.
  assert (zlen (ztake n C) = Z.min n (zlen C)) as Hz by (rewrite zlen_ztake; lia).
  assert (slice 4 24 (ztake n C) = header) as Hs by (unfold header; apply slice_ztake; lia).
  unfold _iter_classic. split.
  - erewrite run_step by (apply run_read_at; lia). cbv zeta. change (4 + 20) with 24. rewrite Hs.
    rewrite run_bind. unfold guard_not. rewrite E1. cbn [run]. rewrite run_bind, E2. cbn [run].
    by destruct (run (iter_classic_loop _ _ _ _ _ _ _ _) (mem_at (ztake n C) 24)) as [[? ?] ?].
  - intros Heof. eapply eof_seen_bind_r; [apply run_read_at; lia|]. cbv zeta. change (4 + 20) with 24. rewrite Hs.
    unfold guard_not. rewrite E1. eapply eof_seen_bind_r; [done|]. rewrite E2. by eapply eof_seen_bind_r.
Qed.

Lemma export_prefix_decodes fuel mb mp source snapshot ps m admitted scanned bl pl :
  run (capture fuel) (mem_at C 0) = (ps, Ok tt, m) -> Forall2 entry_of snapshot.(sis_packets) ps ->
  snapshot.(sis_binding).(sib_capture_format) = format_of -> source.(csv_source_size_bytes) = zlen C ->
  1 <= mb -> 1 <= mp -> admitted_prefix source snapshot mb mp = Ok (admitted, scanned, bl, pl) ->
  bounded_pcap_prefix C mb (Some mp) = Ok (mk_prefix (ztake scanned C) scanned admitted bl pl) /\
  (24 <= mb -> decodes_prefix (capture fuel) 0 0 scanned admitted ps).
Proof.
  intros Hrun Hes Hfmt Hsize Hmb Hmp Hadm. destruct (export_capture_magic _ _ _ Hrun) as [H4 Hmagic].
  pose proof (export_capture_head C fuel H4 eq_refl Hmagic) as [Hhead _]. rewrite Hhead in Hrun.
  unfold admitted_prefix in Hadm. rewrite Hfmt, Hsize in Hadm. unfold bounded_pcap_prefix.
  rewrite (proj2 (Z.ltb_ge mb 1)), (proj2 (Z.ltb_ge mp 1)) by lia. cbn [raise_if mbind res_bind]. cbv zeta.
  assert (forall n, 4 <= n -> zlen (ztake n C) = Z.min n (zlen C) /\ ztake 4 (ztake n C) = ztake 4 C) as Htake.
  { intros n Hn. rewrite zlen_ztake by lia. split; [done|]. unfold ztake. rewrite take_take. f_equal. lia. }
  unfold format_of in *. unfold iter_packets in Hrun, Hhead. destruct (CLASSIC_MAGIC (ztake 4 C)) as [[e resolution]|] eqn:Ecl.
  - destruct (classic_head _ _ _ _ _ Hrun) as (interface & H24 & Hloop & Htrunc). cbv zeta in Hloop, Htrunc.
    unfold _classic_prefix in Hadm. apply bind_Ok in Hadm as (_ & _ & Hadm). rewrite (proj2 (Z.ltb_ge (zlen C) 24)) by lia.
    cbn [raise_if mbind res_bind]. destruct (Z.ltb_spec mb 24) as [Hlt|Hge].
    { injection Hadm as <- <- <- <-. split; [done|lia]. }
    injection Hadm as Hscan.
    pose proof (classic_prefix_decodes mb mp fuel (S (length C)) e resolution interface 0 24 _ ps m ltac:(lia)
      ltac:(unfold zlen; lia) Hes Hloop) as H. rewrite Hscan in H. destruct H as (Hpre & [Hr He] & Hsc & _). split; [done|].
    destruct (Htake scanned ltac:(lia)) as [Hz Ht]. destruct (export_capture_head (ztake scanned C) fuel) as [Hh1 Hh2]; [lia|done|left; by rewrite Ecl|].
    unfold iter_packets in Hh1, Hh2. rewrite Ecl in Hh1, Hh2. destruct (Htrunc scanned ltac:(lia)) as [Ht1 Ht2].
    intros _. split; [by rewrite Hh1, Ht1|by apply Hh2, Ht2].
  - destruct Hmagic as [[? ?]|Hsec]; [congruence|]. rewrite bool_decide_true by done.
    apply bind_Ok in Hadm as (_ & Hb%raise_if_Ok & Hadm). reflect_bools.
    pose proof (ng_prefix_decodes mb mp fuel (S (length C)) LE (Some (ztake 4 C)) nd_initial 0 _ ps m ltac:(lia)
      ltac:(simpl; lia) ltac:(lia) ltac:(split; [done|lia]) (or_intror Hsec) (or_introl Hsec) ltac:(unfold zlen; lia) Hes Hrun) as H.
    cbv zeta in H. change (nd_count nd_initial) with 0 in H. rewrite Z.add_0_l, Z.sub_0_r in H.
    pose proof (Forall2_length _ _ _ Hes) as Hlen.
    assert (zlen (sis_packets snapshot) = zlen ps) as Hl by (unfold zlen; lia). rewrite Hl in Hadm.
    assert (ng_cut (sis_packets snapshot) (Z.min (zlen ps) mp) = (scanned, pl) /\ admitted = Z.min (zlen ps) mp /\ bl = false) as (Hcut & -> & ->).
    { unfold ng_cut. destruct (sis_packets snapshot !! _); by injection Hadm as <- <- <- <-. }
    rewrite Hcut in H. destruct H as (Hpre & [Hr He] & Hsc & H12). destruct H12 as [?|H12]; [done|]. split; [done|].
    destruct (Htake scanned ltac:(lia)) as [Hz Ht]. destruct (export_capture_head (ztake scanned C) fuel) as [Hh1 Hh2]; [lia|done|by right|].
    unfold iter_packets in Hh1, Hh2. rewrite Ecl in Hh1, Hh2. intros _. split; [by rewrite Hh1|by apply Hh2].
Qed.

(** ** Fuel *)

Lemma classic_loop_fuel fuel e resolution interface count m os m' k :
  run (iter_classic_loop source_id source_order networks fuel e resolution interface count) m = (os, Ok tt, m') ->
  run (iter_classic_loop source_id source_order networks (fuel + k) e resolution interface count) (m : MemCursor) = (os, Ok tt, m').
Proof.
  revert count m os. induction fuel as [|fuel IH]; intros count m os Hrun; [done|]. cbn [iter_classic_loop Nat.add] in *.
  rewrite run_bind in *. cbn [run cursor_tell] in *. rewrite run_bind in *.
  destruct (run (catch_eof _ _) m) as [[o1 [header|x]] m1]; [|done]. case_bool_decide; [done|]. rewrite run_bind in *.
  destruct (run (decode_classic_record _ _ _ _ _ _ _ _ _) m1) as [[o2 [[]|x]] m2]; [|done].
  destruct (run (iter_classic_loop _ _ _ fuel _ _ _ _) m2) as [[o3 r3] m3] eqn:E. injection Hrun as <- -> ->. by rewrite (IH _ _ _ E).
Qed.

Lemma ng_loop_fuel fuel magic nd m os m' k :
  run (ng_loop fuel magic nd) m = (os, Ok tt, m') -> run (ng_loop (fuel + k) magic nd) (m : MemCursor) = (os, Ok tt, m').
Proof.
  revert magic nd m os. induction fuel as [|fuel IH]; intros magic nd m os Hrun; [done|]. cbn [iter_pcapng_loop Nat.add] in *.
  rewrite run_bind in *. cbn [run cursor_tell] in *. cbv zeta in *. rewrite run_bind in *.
  destruct (run (catch_eof _ _) m) as [[o1 [header|x]] m1]; [|done]. case_bool_decide; [done|]. rewrite run_bind in *.
  destruct (run (decode_ng_block _ _ _ _ _ _) m1) as [[o2 [nd'|x]] m2]; [|done].
  destruct (run (ng_loop fuel None nd') m2) as [[o3 r3] m3] eqn:E. injection Hrun as <- -> ->. by rewrite (IH _ _ _ _ E).
Qed.

(** More fuel changes nothing. *)
Lemma export_capture_fuel fuel fuel' m os m' :
  (fuel <= fuel')%nat -> run (capture fuel) m = (os, Ok tt, m') -> run (capture fuel') (m : MemCursor) = (os, Ok tt, m').
Proof.
  intros Hle. replace fuel' with (fuel + (fuel' - fuel))%nat by lia. unfold export_capture. rewrite !run_bind.
  destruct (run open_magic m) as [[o1 [magic|x]] m1]; [|done]. unfold iter_packets.
  assert (forall p q : prog ExportPacket unit, (forall os' m'', run p m1 = (os', Ok tt, m'') -> run q m1 = (os', Ok tt, m'')) ->
    (let '(os', x, c') := run p m1 in (o1 ++ os', x, c')) = (os, Ok tt, m') ->
    (let '(os', x, c') := run q m1 in (o1 ++ os', x, c')) = (os, Ok tt, m')) as Hk.
  { intros p q H. destruct (run p m1) as [[o2 r2] m2]. intros [= <- -> ->]. by rewrite (H _ _ eq_refl). }
  destruct (CLASSIC_MAGIC magic) as [[e r]|]; apply Hk; intros os' m''; [|apply ng_loop_fuel].
  unfold _iter_classic. rewrite !run_bind. destruct (run (catch_eof _ _) m1) as [[o2 [header|x]] m2]; [|done]. cbv zeta.
  unfold guard_not. rewrite !run_bind. destruct (negb _ || negb _); [done|]. cbn [run]. rewrite !run_bind. destruct (_ || _); [done|]. cbn [run].
  destruct (run (iter_classic_loop _ _ _ fuel _ _ _ _) m2) as [[o3 r3] m3] eqn:E. intros [= <- -> ->].
  by rewrite (classic_loop_fuel _ _ _ _ _ _ _ _ (fuel' - fuel) E).
Qed.
End decoder.
