(* ===== verification/CollectProofs.v ===== *)
(** * CollectProofs

    What [IndexedCollect] returns: the bytes cut out of the fetched ranges are
    the packets of the source, and the records are those of the selected
    packets, rebuilt and matched. *)

From Stdlib Require Import String.
From S2P Require Import Prelude Bytes Samples Reader CaptureFormat StructuralIndex StructuralProofs ExportDecoder.
From S2P Require Import ExportAgreement PacketProjection PyFloat FlowFilter PostingModel OffsetIndex OffsetProofs.
From S2P Require Import IndexedPlan PlanProofs PostingIndex ExportRepository PostingPlan PlanSelection IndexedCollect.
#[local] Open Scope Z_scope.

(** ** The exactness check, read backwards *)

Lemma observe_slice_inv r st s st' :
  observe_slice r st s = Ok st' ->
  slice_inside r s /\ st'.(ex_observed) = observe_all st.(ex_observed) [s].
Proof.
  unfold observe_slice. intros (_ & Hc%raise_if_Ok & [= <-])%bind_Ok.
  rewrite !orb_false_iff in Hc. unfold slice_inside, slice_end, range_end. split; [lia|done].
Qed.

Lemma observe_slices_inv r slices : forall st st',
  observe_slices r st slices = Ok st' ->
  Forall (slice_inside r) slices /\ st'.(ex_observed) = observe_all st.(ex_observed) slices.
Proof.
  induction slices as [|s slices IH]; intros st st' H; cbn [observe_slices] in H; [by injection H as <-|].
  apply bind_Ok in H as (st1 & [Hin Ho]%observe_slice_inv & [Hall Ho']%IH).
  split; [by constructor|]. by rewrite Ho', Ho.
Qed.

Lemma observe_ranges_inv ranges : forall st st',
  observe_ranges st ranges = Ok st' ->
  Forall (fun r => Forall (slice_inside r) r.(cr_packet_slices)) ranges /\
  st'.(ex_observed) = observe_all st.(ex_observed) (concat (cr_packet_slices <$> ranges)).
Proof.
  induction ranges as [|r ranges IH]; intros st st' H; cbn [observe_ranges] in H; [by injection H as <-|].
  apply bind_Ok in H as (st1 & [Hin Ho]%observe_slices_inv & [Hall Ho']%IH).
  split; [by constructor|]. cbn [fmap list_fmap concat]. unfold observe_all. rewrite fold_left_app.
  unfold observe_all in Ho, Ho'. by rewrite Ho', Ho.
Qed.

Lemma validated_plan plan locators :
  _validate_exact_range_plan plan locators = Ok tt ->
  Forall (fun r => Forall (slice_inside r) r.(cr_packet_slices)) plan.(rp_ranges) /\
  observe_all ∅ (concat (cr_packet_slices <$> plan.(rp_ranges))) = expected_slices locators.
Proof.
  unfold _validate_exact_range_plan. intros (st & [Hin Ho]%observe_ranges_inv & H)%bind_Ok.
  apply bind_Ok in H as (_ & Hc%raise_if_Ok & _). apply negb_false_iff, bool_decide_eq_true in Hc.
  split; [done|]. by rewrite <- Hc, Ho.
Qed.

(** Distinct keys. *)
Lemma NoDup_fmap_filter {A B} (f : A -> B) (P : A -> Prop) `{!forall x, Decision (P x)} l :
  NoDup (f <$> l) -> NoDup (f <$> filter P l).
Proof.
  induction l as [|x l IH]; [done|]. rewrite fmap_cons, filter_cons. intros [Hx Hnd]%NoDup_cons.
  destruct (decide (P x)); [|by apply IH]. rewrite fmap_cons. apply NoDup_cons. split; [|by apply IH].
  intros (y & Heq & [_ Hy]%list_elem_of_filter)%list_elem_of_fmap. apply Hx. rewrite Heq. by apply list_elem_of_fmap_2.
Qed.

Lemma NoDup_fmap_eq {A B} (f : A -> B) l x y :
  NoDup (f <$> l) -> x ∈ l -> y ∈ l -> f x = f y -> x = y.
Proof.
  induction l as [|z l IH]; [by intros _ ?%not_elem_of_nil|]. rewrite fmap_cons. intros [Hz Hnd]%NoDup_cons Hx Hy Heq.
  apply elem_of_cons in Hx as [->|Hx], Hy as [->|Hy]; [done| | |by apply IH].
  - destruct Hz. rewrite Heq. by apply list_elem_of_fmap_2.
  - destruct Hz. rewrite <- Heq. by apply list_elem_of_fmap_2.
Qed.

(** What is expected of a located packet. *)
Lemma expected_lookup locators l :
  NoDup (spl_packet_index <$> locators) -> l ∈ locators ->
  expected_slices locators !! l.(spl_packet_index) =
  if decide (nonempty l) then Some (l.(spl_data_offset), l.(spl_captured_length)) else None.
Proof.
  intros Hnd Hl. unfold expected_slices. change (filter (fun l => 0 < _) locators) with (filter nonempty locators).
  assert (NoDup (spl_packet_index <$> filter nonempty locators)) as Hnf.
  { by apply NoDup_fmap_filter. }
  destruct (decide (nonempty l)) as [Hn|Hn].
  - apply (fold_insert_lookup spl_packet_index (fun l => (l.(spl_data_offset), l.(spl_captured_length)))); [done|].
    by apply list_elem_of_filter.
  - rewrite (fold_insert_other spl_packet_index (fun l => (l.(spl_data_offset), l.(spl_captured_length)))); [apply lookup_empty|].
    intros (l' & Heq & [Hn' Hl']%list_elem_of_filter)%list_elem_of_fmap.
    assert (l' = l) as -> by (by eapply (NoDup_fmap_eq spl_packet_index locators)). done.
Qed.

(** ** Fetched packets *)

(** The bytes of a packet of the source. *)
Definition located_bytes (content : bytes) (l : SelectedPacketLocator) : bytes :=
  slice l.(spl_data_offset) (l.(spl_data_offset) + l.(spl_captured_length)) content.

Definition cut (content : bytes) (p : Z * Z) : bytes := slice p.1 (p.1 + p.2) content.

Section fetching.
Context {W : Type} `{!ExportRepository W} `{!ExportHooks W}.
Context (content : bytes).

Lemma cut_slices_spec r part slices : forall raw observed raw',
  part = slice r.(cr_offset) (range_end r) content -> 0 <= r.(cr_offset) -> range_end r <= zlen content ->
  Forall (slice_inside r) slices ->
  cut_slices r part slices ((cut content <$> observed) ∪ raw) = Ok raw' ->
  raw' = (cut content <$> observe_all observed slices) ∪ raw.
Proof.
  induction slices as [|s slices IH]; intros raw observed raw' Hp H0 He Hin H; cbn [cut_slices] in H.
  - by injection H as <-.
  - apply Forall_cons in Hin as [(Hs1 & Hs2 & Hs3) Hin]. apply bind_Ok in H as (_ & _ & H).
    unfold slice_end, range_end in *.
    assert (slice (prs_data_offset s - cr_offset r) (prs_data_offset s - cr_offset r + prs_captured_length s) part
      = cut content (prs_data_offset s, prs_captured_length s)) as Hcut.
    { rewrite Hp. unfold cut. simpl. rewrite slice_slice by lia. f_equal; lia. }
    rewrite Hcut in H. rewrite insert_union_l, <- fmap_insert in H. by apply IH in H.
Qed.

Lemma full_slice {A} a n (l : list A) : 0 <= a -> 0 < n -> zlen (slice a (a + n) l) = n -> a + n <= zlen l.
Proof.
  intros Ha Hn. unfold slice, ztake, zdrop, zlen. rewrite length_take, length_drop. lia.
Qed.

Context (source : CaptureSourceVersion).

(** Reading a range of this version of the source gives the bytes at that place. *)
Hypothesis faithful : forall b w part w',
  read_capture_range source b w = (Ok part, w') ->
  part = slice b.(cbr_offset) (b.(cbr_offset) + b.(cbr_length)) content.

Lemma fetch_range_yields before r observed raw :
  Forall (slice_inside r) r.(cr_packet_slices) ->
  yields (fetch_range source before r ((cut content <$> observed) ∪ raw))
    (fun raw' => raw' = (cut content <$> observe_all observed r.(cr_packet_slices)) ∪ raw).
Proof.
  intros Hin. unfold fetch_range. do 2 (eapply yields_bind; [apply yields_any|]; intros _ _).
  eapply yields_bind.
  { apply yields_reraise. eapply yields_bind; [apply yields_lift; intros b Hb; exact Hb|]. intros b Hb w part w' Hr.
    apply faithful in Hr. unfold range_bytes in Hb. apply bind_Ok in Hb as (u & Hi & [= <-]).
    simpl in Hr. instantiate (1 := fun part => 0 <= r.(cr_offset) /\ 0 < r.(cr_length) /\
      part = slice r.(cr_offset) (r.(cr_offset) + r.(cr_length)) content). split_and!; try done.
    all: unfold CaptureByteRange_post_init in Hi; inv_bind; rewrite ?orb_false_iff in *; simpl in *; lia. }
  intros part (H0 & Hpos & Hpart). apply (yields_bind _ _ (fun _ => zlen part = cr_length r)).
  { apply yields_raise_if. by intros Hl%negb_false_iff%Z.eqb_eq. }
  intros _ Hlen. eapply yields_bind; [apply yields_any|]. intros _ _.
  apply yields_lift. intros raw' Hcut. eapply cut_slices_spec; [exact Hpart|done| |exact Hin|exact Hcut].
  unfold range_end. apply full_slice; [done|done|]. by rewrite <- Hpart.
Qed.

Lemma fetch_ranges_yields before ranges raw : forall observed,
  Forall (fun r => Forall (slice_inside r) r.(cr_packet_slices)) ranges ->
  yields (fetch_ranges source before ranges ((cut content <$> observed) ∪ raw))
    (fun raw' => raw' = (cut content <$> observe_all observed (concat (cr_packet_slices <$> ranges))) ∪ raw).
Proof.
  induction ranges as [|r ranges IH]; intros observed Hin; cbn [fetch_ranges]; [by apply yields_ret|].
  apply Forall_cons in Hin as [Hr Hin]. eapply yields_bind; [by apply fetch_range_yields|]. intros raw' ->.
  cbn [fmap list_fmap concat]. unfold observe_all at 2. rewrite fold_left_app. by apply IH.
Qed.

(** Every located packet has its bytes once the ranges of a validated plan are fetched. *)
Lemma fetched_packets before plan locators :
  NoDup (spl_packet_index <$> locators) -> Forall (fun l => 0 <= l.(spl_captured_length)) locators ->
  _validate_exact_range_plan plan locators = Ok tt ->
  yields (fetch_ranges source before plan.(rp_ranges) (empty_packets locators))
    (fun raw => Forall (fun l => raw !! l.(spl_packet_index) = Some (located_bytes content l)) locators).
Proof.
  intros Hnd Hpos [Hin Hobs]%validated_plan.
  rewrite <- (map_empty_union (empty_packets locators)), <- (fmap_empty (cut content)).
  eapply yields_mono; [|by apply fetch_ranges_yields]. intros raw ->. rewrite Hobs.
  apply Forall_forall. intros l Hl. rewrite Forall_forall in Hpos. specialize (Hpos l Hl).
  rewrite lookup_union, lookup_fmap, (expected_lookup _ _ Hnd Hl).
  destruct (decide (nonempty l)) as [Hn|Hn]; [by simpl; destruct (empty_packets locators !! _)|].
  unfold nonempty in Hn. assert (spl_captured_length l = 0) as Hz by lia. simpl. unfold empty_packets.
  rewrite (fold_insert_lookup spl_packet_index (fun _ => [])).
  - simpl. f_equal. unfold located_bytes, slice. rewrite Hz. by replace (_ + 0 - _) with 0 by lia.
  - by apply NoDup_fmap_filter.
  - by apply list_elem_of_filter.
Qed.
End fetching.

(** ** Matches of rebuilt packets *)

Section matching.
Context {W : Type} `{!ExportRepository W} `{!ExportHooks W}.
Context (fromisoformat : string -> res Z) (predicate : CompiledPacketPredicate) (values : list string).

(** A decoded packet and the records it becomes. *)
Definition matched (sensor_id : string) (packet : ExportPacket) : res (list MatchedPacketRecord) :=
  if packet.(ep_projection).(pp_supported) then
    found ← predicate_matches fromisoformat predicate (export_fields packet) sensor_id;
    Ok (if found : bool then [from_export_packet packet sensor_id] else [])
  else Ok [].

Definition rebuilt (content : bytes) (l : SelectedPacketLocator) (packet : ExportPacket) : Prop :=
  export_packet_from_structural_locator (located_bytes content l) (selected_locator l) l.(spl_interface)
    l.(spl_original_length) l.(spl_raw_timestamp_ticks) (inl values) = Ok packet.

(** The records of a list of locators. *)
Definition records_of (content : bytes) (sensor_id : string) (locators : list SelectedPacketLocator)
    (records : list MatchedPacketRecord) : Prop :=
  exists packets found, Forall2 (rebuilt content) locators packets /\
    Forall2 (fun p rs => matched sensor_id p = Ok rs) packets found /\ records = concat found.

Lemma match_packet_inv content sensor_id raw l rs :
  raw !! l.(spl_packet_index) = Some (located_bytes content l) ->
  match_packet fromisoformat predicate values sensor_id raw l = Ok rs ->
  exists packet, rebuilt content l packet /\ matched sensor_id packet = Ok rs.
Proof.
  intros Hl. unfold match_packet. rewrite Hl. intros (packet & Hp & Hm)%bind_Ok. exists packet. split; [|exact Hm].
  unfold rebuilt, corrupt_packet in *. by destruct (export_packet_from_structural_locator _ _ _ _ _ _) as [|[]].
Qed.

Lemma match_packets_yields content sensor_id raw locators :
  Forall (fun l => raw !! l.(spl_packet_index) = Some (located_bytes content l)) locators ->
  yields (match_packets fromisoformat predicate values sensor_id raw locators) (records_of content sensor_id locators).
Proof.
  induction 1 as [|l locators Hl _ IH]; cbn [match_packets].
  - apply yields_ret. by exists [], [].
  - eapply yields_bind; [apply yields_any|]. intros _ _.
    eapply yields_bind; [apply yields_lift; intros rs Hrs; exact (match_packet_inv _ _ _ _ _ Hl Hrs)|].
    intros rs (packet & Hr & Hm). eapply yields_bind; [exact IH|]. intros rest (packets & found & Hf & Hg & ->).
    apply yields_ret. exists (packet :: packets), (rs :: found). split_and!; [by constructor|by constructor|done].
Qed.

(** A planned source whose plan the check accepts. *)
Record plan_checked (p : PlannedIndexedSource) : Prop := {
  pc_distinct : NoDup (spl_packet_index <$> p.(pln_located).(lps_locators));
  pc_lengths : Forall (fun l => 0 <= l.(spl_captured_length)) p.(pln_located).(lps_locators);
  pc_exact : _validate_exact_range_plan p.(pln_range_plan) p.(pln_located).(lps_locators) = Ok tt;
}.

Context (content_of : CaptureSourceVersion -> bytes).
Hypothesis faithful : forall source b w part w',
  read_capture_range source b w = (Ok part, w') ->
  part = slice b.(cbr_offset) (b.(cbr_offset) + b.(cbr_length)) (content_of source).

Lemma collect_source_yields p :
  plan_checked p ->
  yields (collect_source fromisoformat predicate values p)
    (records_of (content_of p.(pln_source)) p.(pln_sensor_id) p.(pln_located).(lps_locators)).
Proof.
  intros [Hnd Hpos Hex]. unfold collect_source. eapply yields_bind; [apply yields_any|]. intros _ _.
  eapply yields_bind; [eapply fetched_packets; [|exact Hnd|exact Hpos|exact Hex]; apply faithful|].
  intros raw Hraw. by apply match_packets_yields.
Qed.

Lemma collect_sources_yields ps :
  Forall plan_checked ps ->
  yields (collect_sources fromisoformat predicate values ps)
    (fun records => exists found, records = concat found /\
       Forall2 (fun p => records_of (content_of p.(pln_source)) p.(pln_sensor_id) p.(pln_located).(lps_locators))
         ps found).
Proof.
  induction 1 as [|p ps Hp _ IH]; cbn [collect_sources].
  - apply yields_ret. by exists [].
  - eapply yields_bind; [by apply collect_source_yields|]. intros rs Hrs.
    eapply yields_bind; [exact IH|]. intros rest (found & -> & Hf). apply yields_ret.
    exists (rs :: found). split; [done|]. by constructor.
Qed.
End matching.

(** ** The planning loop *)

Section planning_loop.
Context {W : Type} `{!ExportRepository W} `{!ExportHooks W}.
Context (sha256_hex : bytes -> string) (scan_max_bytes scan_max_packets : Z).
Context (range_limits : RangePlanLimits) (selected : gmap Z (list Z)).

Definition admitted_count (p : PlannedIndexedSource) : Z := p.(pln_located).(lps_admitted_packet_count).
Definition scanned_count (p : PlannedIndexedSource) : Z := p.(pln_located).(lps_scanned_bytes).
Definition limited (p : PlannedIndexedSource) : bool :=
  p.(pln_located).(lps_byte_limited) || p.(pln_located).(lps_packet_limited).

(** What was scanned of a source: bytes, packets and the two flags. *)
Definition scan_outcome : Type := Z * Z * bool * bool.
Definition plan_outcome (p : PlannedIndexedSource) : scan_outcome :=
  (scanned_count p, admitted_count p, p.(pln_located).(lps_byte_limited), p.(pln_located).(lps_packet_limited)).

(** The reasons a scan over [n] sources gives for being incomplete. *)
Fixpoint truncation_reasons (bytes packets : Z) (n : nat) (outcomes : list scan_outcome) : list string :=
  match n, outcomes with
  | O, _ => []
  | S _, [] => [if scan_max_packets - packets <? 1 then "SOURCE_PACKET_LIMIT"%string else "SOURCE_BYTE_LIMIT"%string]
  | S n', (scanned, admitted, byte_limited, packet_limited) :: outcomes' =>
      (if byte_limited then ["SOURCE_BYTE_LIMIT"%string] else [])
      ++ (if packet_limited then ["SOURCE_PACKET_LIMIT"%string] else [])
      ++ (if byte_limited || packet_limited then []
          else truncation_reasons (bytes + scanned) (packets + admitted) n' outcomes')
  end.

(** The entry of a source in the manifest of the export. *)
Definition plan_manifest (p : PlannedIndexedSource) : string * string :=
  (p.(pln_source).(csv_source_id), p.(pln_source).(csv_source_sha256)).
Definition plan_counts (p : PlannedIndexedSource) : Z := if admitted_count p =? 0 then 0 else 1.

(** A source planned with [bytes] and [packets] of the budget already spent. *)
Record planned_source (source_order bytes packets : Z) (entry : option descriptor * PostingSelectionSourceProof)
    (p : PlannedIndexedSource) : Prop := {
  ps_entry : exists d, entry.1 = Some d /\ p.(pln_sensor_id) = field_text (d !! "sensor_id"%string);
  ps_source : p.(pln_source) = entry.2.(psp_source);
  ps_parent : p.(pln_parent) = entry.2.(psp_parent);
  ps_budget : bytes < scan_max_bytes /\ packets < scan_max_packets;
  ps_located : located_selection entry.2.(psp_source) entry.2.(psp_parent) source_order
    (default [] (selected !! source_order)) (scan_max_bytes - bytes) (scan_max_packets - packets)
    p.(pln_located);
  ps_exact : _validate_exact_range_plan p.(pln_range_plan) p.(pln_located).(lps_locators) = Ok tt;
  ps_proof : p.(pln_identity_proof) =
    mk_identity_proof entry.2.(psp_source) entry.2.(psp_parent_identity) entry.2.(psp_posting_identity);
}.

(** The sources that were planned: all of them, or those up to a limit. *)
Inductive planned_run : Z -> Z -> Z -> list (option descriptor * PostingSelectionSourceProof) ->
    list PlannedIndexedSource -> bool -> Prop :=
  | planned_all order bytes packets : planned_run order bytes packets [] [] true
  | planned_exhausted order bytes packets entry entries :
      scan_max_bytes <= bytes \/ scan_max_packets <= packets ->
      planned_run order bytes packets (entry :: entries) [] false
  | planned_limited order bytes packets entry entries p :
      planned_source order bytes packets entry p -> limited p = true ->
      planned_run order bytes packets (entry :: entries) [p] false
  | planned_whole order bytes packets entry entries p ps complete :
      planned_source order bytes packets entry p -> limited p = false ->
      planned_run (order + 1) (bytes + scanned_count p) (packets + admitted_count p) entries ps complete ->
      planned_run order bytes packets (entry :: entries) (p :: ps) complete.

Lemma admit_source_yields order item proof :
  yields (admit_source sha256_hex order item proof)
    (fun source => source = proof.(psp_source) /\ exists d, item = Some d).
Proof.
  unfold admit_source. destruct item as [d|]; [|apply yields_raise].
  eapply yields_bind; [apply yields_any|]. intros _ _. destruct (text_value _); [|apply yields_raise].
  eapply yields_bind; [apply yields_any|]. intros [source|] _; [|apply yields_raise].
  apply (yields_bind _ _ (fun _ => source = proof.(psp_source))).
  { apply yields_raise_if. rewrite orb_false_iff, !negb_false_iff, bool_decide_eq_true.
    intros [H _]. by apply source_identity_inj. }
  intros _ ->. do 7 (eapply yields_bind; [apply yields_any|]; intros ? _).
  apply yields_ret. split; [done|by eexists].
Qed.

Lemma plan_admitted_source_inv order d proof st p st' :
  scan_max_packets - st.(col_scanned_packets) >= 1 -> scan_max_bytes - st.(col_scanned_bytes) >= 1 ->
  plan_admitted_source sha256_hex scan_max_bytes scan_max_packets range_limits selected order (Some d) proof
    proof.(psp_source) st = Ok (p, st') ->
  planned_source order st.(col_scanned_bytes) st.(col_scanned_packets) (Some d, proof) p /\
  st'.(col_planned) = st.(col_planned) ++ [p] /\
  st'.(col_scanned_bytes) = st.(col_scanned_bytes) + scanned_count p /\
  st'.(col_scanned_packets) = st.(col_scanned_packets) + admitted_count p /\
  st'.(col_source_manifest) = st.(col_source_manifest) ++ [plan_manifest p] /\
  st'.(col_scanned_sources) = st.(col_scanned_sources) + plan_counts p /\
  st'.(col_truncation) = st.(col_truncation)
    ++ (if p.(pln_located).(lps_byte_limited) then ["SOURCE_BYTE_LIMIT"%string] else [])
    ++ (if p.(pln_located).(lps_packet_limited) then ["SOURCE_PACKET_LIMIT"%string] else []).
Proof.
  intros Hp Hb. unfold plan_admitted_source. intros (located & Hl & H)%bind_Ok.
  apply bind_Ok in H as (plan & Hplan & H). apply bind_Ok in H as ([] & Hex & H).
  apply bind_Ok in H as (_ & _ & [= <- <-]). split_and!; try done.
  - constructor; simpl; try done; [by exists d|lia|by eapply locate_selected_spec].
Qed.

(** A run is complete when it gives no reason not to be. *)
Lemma planned_run_reasons order bytes packets entries ps complete :
  planned_run order bytes packets entries ps complete ->
  (truncation_reasons bytes packets (length entries) (plan_outcome <$> ps) = [] <-> complete = true).
Proof.
  induction 1 as [| |? ? ? ? ? p _ Hl|? ? ? ? ? p ? ? _ Hl _ IH]; cbn; [done|done| |].
  - unfold limited in Hl. by destruct (lps_byte_limited _), (lps_packet_limited _).
  - unfold limited in Hl. apply orb_false_iff in Hl as [-> ->]. exact IH.
Qed.

(** The totals of the loop follow from the planned sources. *)
Record run_result (st : CollectState) (n : nat) (ps : list PlannedIndexedSource) (st' : CollectState) : Prop := {
  rr_planned : st'.(col_planned) = st.(col_planned) ++ ps;
  rr_manifest : st'.(col_source_manifest) = st.(col_source_manifest) ++ (plan_manifest <$> ps);
  rr_bytes : st'.(col_scanned_bytes) = st.(col_scanned_bytes) + sumZ scanned_count ps;
  rr_packets : st'.(col_scanned_packets) = st.(col_scanned_packets) + sumZ admitted_count ps;
  rr_sources : st'.(col_scanned_sources) = st.(col_scanned_sources) + sumZ plan_counts ps;
  rr_truncation : st'.(col_truncation) = st.(col_truncation) ++
    truncation_reasons st.(col_scanned_bytes) st.(col_scanned_packets) n (plan_outcome <$> ps);
}.

Lemma run_result_limit st n :
  run_result st (S n) [] (with_truncation (if scan_max_packets - st.(col_scanned_packets) <? 1
    then "SOURCE_PACKET_LIMIT" else "SOURCE_BYTE_LIMIT") st).
Proof. constructor; simpl; rewrite ?app_nil_r; cbn; try lia; done. Qed.

Lemma plan_sources_yields entries : forall order st,
  yields (plan_sources sha256_hex scan_max_bytes scan_max_packets range_limits selected order entries st)
    (fun st' => exists ps complete,
       planned_run order st.(col_scanned_bytes) st.(col_scanned_packets) entries ps complete /\
       run_result st (length entries) ps st').
Proof.
  induction entries as [|[item proof] entries IH]; intros order st; cbn [plan_sources].
  - apply yields_ret. exists [], true. split; [constructor|]. constructor; cbn; rewrite ?app_nil_r; try lia; done.
  - eapply yields_bind; [apply yields_any|]. intros _ _.
    eapply yields_bind; [apply admit_source_yields|]. intros source [-> [d ->]].
    pose proof (run_result_limit st (length entries)) as Hlimit.
    destruct (Z.ltb_spec (scan_max_packets - col_scanned_packets st) 1) as [Hp|Hp].
    { apply yields_ret. exists [], false. split; [constructor; lia|done]. }
    destruct (Z.ltb_spec (scan_max_bytes - col_scanned_bytes st) 1) as [Hb|Hb].
    { apply yields_ret. exists [], false. split; [constructor; lia|done]. }
    clear Hlimit. eapply yields_bind; [apply yields_lift; intros r Hr; exact Hr|]. intros [p st'] Hr.
    apply plan_admitted_source_inv in Hr as (Hs & Hpl & Hbs & Hps & Hma & Hco & Htr); [|lia|lia].
    destruct (limited p) eqn:Hlim.
    + unfold limited in Hlim. rewrite Hlim. apply yields_ret. exists [p], false. split; [by constructor|].
      constructor; cbn; [done|done|lia|lia|lia|]. by rewrite Hlim, Htr, !app_nil_r.
    + unfold limited in Hlim. rewrite Hlim. eapply yields_mono; [|apply IH]. intros st'' (ps & complete & Hrun & Hres).
      exists (p :: ps), complete. rewrite Hbs, Hps in Hrun. split; [by constructor|].
      destruct Hres as [R1 R2 R3 R4 R5 R6]. constructor.
      * by rewrite R1, Hpl, <- app_assoc.
      * by rewrite R2, Hma, <- app_assoc.
      * rewrite R3, Hbs, sumZ_cons. lia.
      * rewrite R4, Hps, sumZ_cons. lia.
      * rewrite R5, Hco, sumZ_cons. lia.
      * rewrite R6, Htr, Hbs, Hps. cbn. apply orb_false_iff in Hlim as [-> ->]. by rewrite app_nil_r.
Qed.

Lemma planned_source_checked order bytes packets entry p :
  planned_source order bytes packets entry p -> plan_checked p.
Proof.
  intros [_ _ _ _ Hl He _]. apply located_selection_sorted in Hl as [Hs Hof]. constructor; [|.. |done].
  - by apply sorted_indices_NoDup.
  - eapply Forall_impl; [exact Hof|]. intros l Hl. apply Hl.
Qed.

Lemma planned_run_checked order bytes packets entries ps complete :
  planned_run order bytes packets entries ps complete -> Forall plan_checked ps.
Proof. induction 1; repeat constructor; try done; by eapply planned_source_checked. Qed.
End planning_loop.

(** ** The whole collection *)

Lemma dict_fromkeys_nil l : dict_fromkeys ∅ l = [] <-> l = [].
Proof. destruct l as [|x l]; [done|]. simpl. by rewrite bool_decide_false by set_solver. Qed.

Section collection.
Context {W : Type} `{!ExportRepository W} `{!ExportHooks W}.
Context (sha256_hex : bytes -> string) (fromisoformat : string -> res Z) (content_of : CaptureSourceVersion -> bytes).
Hypothesis faithful : forall source b w part w',
  read_capture_range source b w = (Ok part, w') ->
  part = slice b.(cbr_offset) (b.(cbr_offset) + b.(cbr_length)) (content_of source).

(** What a batch is made of: the planned sources and their records. *)
Record collected (predicate : CompiledPacketPredicate) (values : list string) (snapshot : SourceSnapshot)
    (plan : PostingSelectionPlan) (scan_max_bytes scan_max_packets : Z) (batch : IndexedMatchBatch)
    (manifest : list (option descriptor)) (kind : source_kind) (selected : gmap Z (list Z))
    (ps : list PlannedIndexedSource) (complete : bool) (found : list (list MatchedPacketRecord)) : Prop := {
  cl_manifest : snapshot.(ss_source_manifest) = Some manifest;
  cl_proofs : zlen plan.(plan_source_proofs) = zlen manifest;
  cl_entries : check_entries kind 0 (zip manifest plan.(plan_source_proofs)) = Ok tt;
  cl_selected : group_candidates_by_source kind (zip manifest plan.(plan_source_proofs))
    plan.(plan_candidates).(pcs_candidates) ∅ = Ok selected;
  cl_run : planned_run scan_max_bytes scan_max_packets selected 0 0 0
    (zip manifest plan.(plan_source_proofs)) ps complete;
  cl_records : batch.(imb_records) = concat found;
  cl_found : Forall2 (fun p => records_of fromisoformat predicate values (content_of p.(pln_source))
    p.(pln_sensor_id) p.(pln_located).(lps_locators)) ps found;
  cl_packets : batch.(imb_scanned_packet_count) = sumZ admitted_count ps;
  cl_bytes : batch.(imb_scanned_source_bytes) = sumZ scanned_count ps;
  cl_manifest_entries : batch.(imb_source_manifest) = plan_manifest <$> ps;
  cl_sources : batch.(imb_scanned_source_capture_count) = sumZ plan_counts ps;
  cl_reasons : batch.(imb_truncation_reasons) =
    dict_fromkeys ∅ (truncation_reasons scan_max_packets 0 0 (length manifest) (plan_outcome <$> ps));
  cl_truncation : batch.(imb_truncation_reasons) = [] <-> complete = true;
}.

Lemma collect_yields predicate values snapshot plan scan_max_bytes scan_max_packets range_limits :
  yields (collect_indexed_matches sha256_hex fromisoformat predicate values snapshot plan scan_max_bytes
            scan_max_packets range_limits)
    (fun batch => exists manifest kind selected ps complete found,
       collected predicate values snapshot plan scan_max_bytes scan_max_packets batch manifest kind selected ps
         complete found).
Proof.
  unfold collect_indexed_matches. eapply yields_bind; [apply yields_any|]. intros _ _.
  apply (yields_bind _ _ (fun _ => exists manifest, snapshot.(ss_source_manifest) = Some manifest /\
    zlen plan.(plan_source_proofs) = zlen manifest)).
  { apply yields_raise_if. rewrite !orb_false_iff. intros [[[[Hm _] Hl] _] _].
    destruct (ss_source_manifest snapshot) as [manifest|]; [|done]. exists manifest. split; [done|]. simpl in Hl. lia. }
  intros _ (manifest & Hman & Hlen). rewrite Hman. cbn [default]. destruct (snapshot_source_kind _ _) as [kind|]; [|apply yields_raise].
  eapply yields_bind; [apply yields_lift; intros r Hr; exact Hr|]. intros [] Hent.
  eapply yields_bind; [apply yields_lift; intros r Hr; exact Hr|]. intros selected Hsel.
  eapply yields_bind; [apply yields_any|]. intros _ _.
  eapply yields_bind; [apply plan_sources_yields|]. intros st (ps & complete & Hrun & [R1 R2 R3 R4 R5 R6]).
  unfold id in *. pose proof (planned_run_reasons _ _ _ _ _ _ _ _ _ Hrun) as Hcomplete.
  assert (length (zip manifest (plan_source_proofs plan)) = length manifest) as Hzip
    by (rewrite length_zip_with; unfold zlen in Hlen; lia). rewrite Hzip in R6, Hcomplete.
  simpl in R1, R2, R3, R4, R5, R6. do 3 (eapply yields_bind; [apply yields_any|]; intros _ _).
  rewrite R1. eapply yields_bind; [eapply collect_sources_yields; [exact faithful|by eapply planned_run_checked]|].
  intros records (found & -> & Hf). do 2 (eapply yields_bind; [apply yields_any|]; intros _ _).
  apply yields_ret. exists manifest, kind, selected, ps, complete, found. constructor; simpl; try done; [by rewrite R6|].
  by rewrite dict_fromkeys_nil, R6.
Qed.
End collection.
