(* ===== verification/IndexedComplete.v ===== *)
(** * IndexedComplete

    Selection and collection together: on a repository whose reads are faithful
    and whose indexes were built from the bytes they are bound to, indexed
    export finds exactly the packets a scan of the captures would. *)

From Stdlib Require Import String.
From S2P Require Import Prelude Bytes Samples Reader CaptureFormat StructuralIndex StructuralProofs ExportDecoder.
From S2P Require Import IpAddress ExportAgreement PacketProjection PyFloat FlowFilter PostingModel PostingBuild PostingProofs PostingComplete.
From S2P Require Import PostingSelect PostingQuery OffsetIndex OffsetProofs IndexedPlan PlanProofs PostingIndex.
From S2P Require Import ExportRepository StaticStore PostingPlan PlanSelection IndexedCollect CollectProofs.
From S2P Require Import ReaderLogic CapturePrefix PrefixDecode.
#[local] Open Scope Z_scope.

(** ** The candidates of each source *)

Definition of_order (i : Z) (c : PostingPacketCandidate) : Prop := c.(ppc_source_order) = i.
#[local] Instance of_order_dec i c : Decision (of_order i c) := decide (c.(ppc_source_order) = i).

Lemma group_candidates_spec kind entries candidates : forall selected selected' i,
  group_candidates_by_source kind entries candidates selected = Ok selected' ->
  default [] (selected' !! i) = default [] (selected !! i) ++ (ppc_packet_index <$> filter (of_order i) candidates).
Proof.
  induction candidates as [|c candidates IH]; intros selected selected' i H; cbn [group_candidates_by_source] in H.
  - injection H as <-. by rewrite filter_nil, app_nil_r.
  - destruct (if _ <? 0 then _ else _) as [entry|]; [|done]. apply bind_Ok in H as (_ & _ & H).
    apply (IH _ _ i) in H. rewrite H, filter_cons. unfold of_order at 2.
    destruct (decide (ppc_source_order c = i)) as [<-|Hne].
    + rewrite lookup_insert_eq. simpl. by rewrite <- app_assoc.
    + by rewrite lookup_insert_ne.
Qed.

Lemma filter_same {A} (P : A -> Prop) `{!forall x, Decision (P x)} l : Forall P l -> filter P l = l.
Proof. induction 1; [done|]. rewrite filter_cons_True by done. by f_equal. Qed.

Lemma filter_none {A} (P : A -> Prop) `{!forall x, Decision (P x)} l : Forall (fun x => ~ P x) l -> filter P l = [].
Proof. induction 1; [done|]. by rewrite filter_cons_False. Qed.

Section sources.
Context {W : Type} `{!ExportRepository W}.
Context (sha256_hex : bytes -> string) (terms_order : gset bytes -> list bytes).
Context (kind : source_kind) (predicate : CompiledPacketPredicate).
#[local] Abbreviation sources_selected := (sources_selected (W := W) sha256_hex terms_order kind predicate).

Lemma sources_selected_lookup order manifest css proofs : 
  sources_selected order manifest css proofs ->
  forall k proof, proofs !! k = Some proof ->
  exists limits d cs, manifest !! k = Some (limits, Some d) /\
    source_selected (W := W) sha256_hex terms_order kind predicate limits (order + Z.of_nat k) d cs proof /\
    filter (of_order (order + Z.of_nat k)) (concat css) = cs.
Proof.
  induction 1 as [|order limits d manifest cs css proof proofs Hs Hss IH]; intros k q Hk; [done|].
  destruct (source_selected_candidates _ _ _ _ _ _ _ _ _ Hs) as [_ Ho].
  destruct (sources_selected_sorted _ _ _ _ _ _ _ _ Hss) as [_ Hrest]. cbn [concat]. rewrite filter_app.
  destruct k as [|k]; simpl in Hk.
  - injection Hk as <-. exists limits, d, cs. rewrite Z.add_0_r. split_and!; [done|done|].
    rewrite (filter_same _ cs Ho), (filter_none _ (concat css)); [by rewrite app_nil_r|].
    eapply Forall_impl; [exact Hrest|]. unfold of_order. simpl. lia.
  - destruct (IH k q Hk) as (limits' & d' & cs' & Hm & Hsel & Hf). exists limits', d', cs'.
    replace (order + Z.of_nat (S k)) with (order + 1 + Z.of_nat k) by lia. split_and!; [done|done|].
    rewrite Hf, (filter_none _ cs); [done|]. eapply Forall_impl; [exact Ho|]. unfold of_order. simpl. lia.
Qed.
End sources.

(** ** The admitted packets *)

Lemma classic_scan_bounds packets size budget limit : forall admitted scanned,
  Forall (fun p => packet_end p <= size) packets -> 0 <= admitted <= limit -> scanned <= budget ->
  let '(a, s, bl, pl) := classic_prefix_scan packets size budget limit admitted scanned in
  admitted <= a <= admitted + zlen packets /\ (bl || pl = false -> a = admitted + zlen packets) /\
  a <= limit /\ s <= budget.
Proof.
  induction packets as [|p packets IH]; intros admitted scanned Hp Ha Hs; cbn [classic_prefix_scan].
  - rewrite zlen_nil. destruct (Z.leb_spec size budget); split_and!; lia.
  - pose proof (zlen_nonneg packets). rewrite zlen_cons. apply Forall_cons in Hp as [Hend Hp]. unfold packet_end in Hend.
    destruct (_ && _); [split_and!; try lia; done|]. destruct (Z.leb_spec limit admitted); [split_and!; try lia; done|].
    destruct ((_ <? _) && (_ <? _)) eqn:Hb; [split_and!; try lia; done|].
    specialize (IH (admitted + 1) (spe_record_offset p + spe_framed_length p) Hp ltac:(lia) ltac:(lia)).
    destruct (classic_prefix_scan _ _ _ _ _ _) as [[[a s] bl] pl]. destruct IH as (IH1 & IH2 & IH3 & IH4).
    split_and!; try lia. intros Hl. specialize (IH2 Hl). lia.
Qed.

Lemma admitted_prefix_bounds source snapshot budget limit a s bl pl :
  snapshot_valid snapshot -> binds snapshot.(sis_binding) source = true ->
  0 <= budget -> 0 <= limit -> admitted_prefix source snapshot budget limit = Ok (a, s, bl, pl) ->
  0 <= a <= zlen snapshot.(sis_packets) /\ (bl || pl = false -> a = zlen snapshot.(sis_packets)) /\
  a <= limit /\ s <= budget.
Proof.
  intros Hv Hbd Hbu Hl. unfold admitted_prefix.
  assert (snapshot.(sis_binding).(sib_source_size_bytes) = source.(csv_source_size_bytes)) as Hsize.
  { unfold binds in Hbd. rewrite !andb_true_iff in Hbd. destruct_and!. lia. }
  pose proof (sv_packets _ Hv) as Hends. rewrite Hsize in Hends. pose proof (zlen_nonneg (sis_packets snapshot)) as Hn.
  destruct (sib_capture_format _).
  - unfold _classic_prefix. intros (_ & _ & H)%bind_Ok. destruct (Z.ltb_spec budget 24).
    + injection H as <- <- <- <-. split_and!; try lia; done.
    + injection H as H. pose proof (classic_scan_bounds (sis_packets snapshot) (csv_source_size_bytes source) budget
        limit 0 24 ltac:(eapply Forall_impl; [exact Hends|]; intros p []; done) ltac:(lia) ltac:(lia)) as Hb.
      rewrite H in Hb. exact Hb.
  - intros (_ & Hc%raise_if_Ok & H)%bind_Ok. reflect_bools. destruct (_ !! _) as [p|] eqn:E; injection H as <- <- <- <-.
    + assert (packet_valid PCAPNG (csv_source_size_bytes source) (validation_interfaces (sis_interfaces snapshot)) p)
        as [_ Hval Hend _ _ _] by (rewrite Forall_forall in Hends; by eapply Hends, list_elem_of_lookup_2).
      apply packet_values_spec in Hval. unfold packet_end in Hend. split_and!; try lia; done.
    + split_and!; try lia. intros _. apply lookup_ge_None in E. unfold zlen in *. lia.
Qed.

(** ** Selected packets and all packets *)

(** Leaving out what contributes nothing changes nothing. *)
Lemma subsequence_concat {R} (f : Z -> list R) m : forall a l,
  StronglySorted Z.lt l -> Forall (fun k => a <= k < a + Z.of_nat m) l ->
  (forall k, a <= k < a + Z.of_nat m -> k ∉ l -> f k = []) ->
  concat (f <$> l) = concat (f <$> seqZ a (Z.of_nat m)).
Proof.
  induction m as [|m IH]; intros a l Hs Hr Hf.
  - rewrite seqZ_nil by lia. destruct Hr as [|k l Hk]; [done|lia].
  - rewrite seqZ_cons by lia. replace (Z.pred (Z.of_nat (S m))) with (Z.of_nat m) by lia. cbn [fmap list_fmap concat].
    destruct l as [|k l]; [|destruct (decide (k = a)) as [->|Hne]].
    + rewrite (Hf a), <- (IH (Z.succ a) []); [done|constructor|constructor|intros; apply Hf; [lia|set_solver]|lia|set_solver].
    + apply StronglySorted_inv in Hs as [Hs Hall]. apply Forall_cons in Hr as [_ Hr]. cbn [fmap list_fmap concat]. f_equal.
      apply IH; [done| |].
      * rewrite Forall_forall in *. intros k Hk. specialize (Hr k Hk). specialize (Hall k Hk). lia.
      * intros k Hk Hn. apply Hf; [lia|]. intros [->|?]%elem_of_cons; [lia|done].
    + assert (forall k', k' ∈ k :: l -> a < k') as Hgt.
      { apply StronglySorted_inv in Hs as [_ Hall]. apply Forall_cons in Hr as [Hk _]. rewrite Forall_forall in Hall.
        intros k' [->|Hk']%elem_of_cons; [lia|]. specialize (Hall k' Hk'). lia. }
      rewrite (Hf a); [|lia|intros Hin%Hgt; lia]. simpl app. apply IH; [done| |].
      * rewrite Forall_forall in *. intros k' Hk'. specialize (Hr k' Hk'). specialize (Hgt k' Hk'). lia.
      * intros k' Hk' Hn. apply Hf; [lia|done].
Qed.

(** [l[0:n]], one element after the other. *)
Lemma concat_take {A R} (f : A -> list R) (l : list A) n :
  0 <= n <= zlen l ->
  concat (f <$> ztake n l) = concat ((fun k => match l !! Z.to_nat k with Some x => f x | None => [] end) <$> seqZ 0 n).
Proof.
  intros Hn. f_equal. apply list_eq. intros i. rewrite !list_lookup_fmap. unfold ztake, zlen in *.
  destruct (decide (i < Z.to_nat n)%nat) as [Hi|Hi].
  - rewrite lookup_take_lt, lookup_seqZ_lt by lia. cbn [fmap option_fmap option_map].
    replace (Z.to_nat (0 + Z.of_nat i)) with i by lia.
    destruct (lookup_lt_is_Some_2 l i) as [x ->]; [lia|done].
  - rewrite lookup_take_ge, lookup_seqZ_ge by lia. done.
Qed.

(** ** One source *)

Section one_source.
Context (fromisoformat : string -> res Z) (predicate : CompiledPacketPredicate) (sensor_id : string).

(** The record a decoded packet becomes, if it matches. *)
Definition match_record (packet : ExportPacket) : list MatchedPacketRecord :=
  if packet.(ep_projection).(pp_supported)
     && bool_decide (predicate_matches fromisoformat predicate (export_fields packet) sensor_id = Ok true)
  then [from_export_packet packet sensor_id] else [].

Definition matching (packets : list ExportPacket) : list MatchedPacketRecord := concat (match_record <$> packets).

Lemma matched_record packet rs : matched fromisoformat predicate sensor_id packet = Ok rs -> rs = match_record packet.
Proof.
  unfold matched, match_record. destruct (pp_supported _); [|by intros [= <-]].
  intros (b & Hb & [= <-])%bind_Ok. rewrite Hb. destruct b; [by rewrite bool_decide_true|by rewrite bool_decide_false].
Qed.

Context (content : bytes) (source : CaptureSourceVersion) (parent : StructuralIndexSnapshot) (order : Z).
Context (values : list string) (networks : list ip_network) (packets : list ExportPacket).
Hypothesis networks_ok : _networks values = Ok networks.
Hypothesis decoded : Forall2 (decoded_as content source.(csv_source_id) order networks parent.(sis_interfaces))
  parent.(sis_packets) packets.
Hypothesis fractions : Forall (fraction_ok content) parent.(sis_packets).

Definition record_at (o : Z) : list MatchedPacketRecord :=
  match packets !! Z.to_nat o with Some p => match_record p | None => [] end.

Lemma export_networks raw locator interface original ticks :
  export_packet_from_structural_locator raw locator interface original ticks (inl values) =
  export_packet_from_structural_locator raw locator interface original ticks (inr networks).
Proof.
  unfold export_packet_from_structural_locator, project_export_packet. destruct values as [|v vs]; [done|].
  by rewrite networks_ok.
Qed.

(** Rebuilding the packet of an entry gives the decoded packet. *)
Lemma rebuilt_decoded k p q l packet :
  parent.(sis_packets) !! k = Some p -> packets !! k = Some q -> located_as source parent order p l ->
  rebuilt values content l packet -> packet = q.
Proof.
  intros Hp Hq (i & Hi & ->). destruct (Forall2_lookup_lr _ _ _ _ _ _ decoded Hp Hq) as (j & Hj & _ & _ & _ & _ & _ & Hre).
  rewrite Hj in Hi. injection Hi as ->. unfold rebuilt. rewrite export_networks.
  rewrite Forall_forall in fractions. specialize (Hre (fractions p (list_elem_of_lookup_2 _ _ _ Hp))).
  intros Hr. unfold located_bytes, selected_locator in Hr. simpl in Hr. unfold packet_bytes, locator_of, ci_of in Hre.
  unfold capture_interface_of in Hr. rewrite Hre in Hr. by injection Hr.
Qed.

Lemma selected_records admitted ordinals : forall locators rs,
  Forall (fun o => 0 <= o < zlen parent.(sis_packets)) ordinals ->
  Forall2 (located_as source parent order) (chosen parent admitted ordinals) locators ->
  records_of fromisoformat predicate values content sensor_id locators rs ->
  rs = concat (record_at <$> filter (fun o => o < admitted) ordinals).
Proof.
  induction ordinals as [|o ordinals IH]; intros locators rs Hr Hl (pk & found & Hb & Hm & ->); unfold chosen in Hl; cbn in Hl.
  - apply Forall2_nil_inv_l in Hl as ->. apply Forall2_nil_inv_l in Hb as ->. apply Forall2_nil_inv_l in Hm as ->. done.
  - apply Forall_cons in Hr as [Ho Hr]. rewrite filter_cons. destruct (Z.leb_spec admitted o) as [Hle|Hlt].
    + rewrite decide_False by lia. eapply IH; [done|exact Hl|]. by exists pk, found.
    + rewrite decide_True by lia.
      destruct (lookup_lt_is_Some_2 parent.(sis_packets) (Z.to_nat o)) as [p Hp]; [unfold zlen in Ho; lia|].
      rewrite Hp in Hl. apply Forall2_cons_inv_l in Hl as (l & ls & Hpl & Hl & ->).
      apply Forall2_cons_inv_l in Hb as (packet & pks & Hbl & Hb & ->).
      apply Forall2_cons_inv_l in Hm as (r & rs & Hmr%matched_record & Hm & ->).
      destruct (Forall2_lookup_l _ _ _ _ _ decoded Hp) as (q & Hq & _).
      pose proof (rebuilt_decoded _ _ _ _ _ Hp Hq Hpl Hbl) as ->.
      cbn [fmap list_fmap concat]. unfold record_at at 1. rewrite Hq, Hmr. f_equal.
      eapply IH; [done|exact Hl|]. by exists pks, rs.
Qed.

(** All the matches among the admitted packets, when no match was left out of
    the selection. *)
Lemma selection_matches admitted ordinals locators rs :
  StronglySorted Z.lt ordinals -> Forall (fun o => 0 <= o < zlen parent.(sis_packets)) ordinals ->
  0 <= admitted <= zlen parent.(sis_packets) ->
  (forall k q, packets !! k = Some q -> q.(ep_projection).(pp_supported) = true ->
     predicate_matches fromisoformat predicate (export_fields q) sensor_id = Ok true -> Z.of_nat k ∈ ordinals) ->
  Forall2 (located_as source parent order) (chosen parent admitted ordinals) locators ->
  records_of fromisoformat predicate values content sensor_id locators rs ->
  rs = matching (ztake admitted packets).
Proof.
  intros Hs Hr Ha Hall Hl Hrec. rewrite (selected_records _ _ _ _ Hr Hl Hrec). unfold matching.
  pose proof (Forall2_length _ _ _ decoded) as Hlen. rewrite concat_take by (unfold zlen in *; lia).
  replace (seqZ 0 admitted) with (seqZ 0 (Z.of_nat (Z.to_nat admitted))) by (f_equal; lia).
  apply (subsequence_concat record_at).
  - by apply StronglySorted_filter.
  - rewrite Forall_forall in *. intros o [Ho1 Ho2]%list_elem_of_filter. specialize (Hr o Ho2). lia.
  - intros o Ho Hn. unfold record_at. destruct (packets !! Z.to_nat o) as [q|] eqn:Hq; [|done]. unfold match_record.
    destruct (pp_supported _) eqn:Hsup; [|done]. destruct (bool_decide _) eqn:Hm; [|done]. exfalso. apply Hn.
    apply bool_decide_eq_true in Hm. apply list_elem_of_filter. split; [lia|].
    specialize (Hall _ _ Hq Hsup Hm). by rewrite Z2Nat.id in Hall by lia.
Qed.
End one_source.

(** ** The repository *)

(** Enough for every loop over the capture. *)
Definition capture_fuel (content : bytes) : nat := S (length content).

(** The packets the decoder yields on a capture, for one source of an export. *)
Definition decodes (values : list string) (content : bytes) (source_id : string) (order : Z)
    (packets : list ExportPacket) : Prop :=
  export_packets (capture_fuel content) {| bio_data := content |} source_id order values = (packets, Ok tt).

(** The structural index was scanned and the postings were built from these
    bytes, and the decoder accepts them. *)
Record indexed_from (sha256_hex : bytes -> string) (values : list string) (content : bytes)
    (parent : StructuralIndexSnapshot) (g : PostingGeneration) : Prop := {
  ix_scan : exists lim batches out, limits_ok lim /\ zlen content <= _MAX_I64 /\
    scan_structural_packet_index sha256_hex (capture_fuel content) {| bio_data := content |} lim
      = (batches, Ok out) /\
    parent.(sis_packets) = concat batches ++ out.(ssr_packets) /\
    parent.(sis_interfaces) = out.(ssr_interfaces) /\
    parent.(sis_binding).(sib_capture_format) = out.(ssr_capture_format);
  ix_postings : exists version packets limits binding, decodes values content version 0 packets /\
    build_limits_ok limits /\
    build_packet_postings sha256_hex (packets, Ok tt) parent.(sis_packets) parent.(sis_interfaces)
      limits binding = Ok g;
  ix_decodes : forall source_id order, exists packets, decodes values content source_id order packets;
}.

(** What indexed export relies on: a range read gives the bytes of that version
    of the source, and postings that validate were built from them. *)
Class FaithfulRepository (W : Type) {repository : ExportRepository W} (sha256_hex : bytes -> string)
    (content_of : CaptureSourceVersion -> bytes) (values : list string) : Prop := {
  faithful_read source b w part w' :
    read_capture_range source b w = (Ok part, w') ->
    part = slice b.(cbr_offset) (b.(cbr_offset) + b.(cbr_length)) (content_of source);
  faithful_index source parent limits posting :
    served source parent limits posting -> validate_posting_index sha256_hex posting source parent = true ->
    indexed_from sha256_hex values (content_of source) parent posting.(pis_generation);
}.

Lemma indexed_decoded sha256_hex values content parent g source_id order packets :
  indexed_from sha256_hex values content parent g -> decodes values content source_id order packets ->
  exists networks, _networks values = Ok networks /\
    same_capture content source_id order networks parent.(sis_interfaces) parent.(sis_packets) packets.
Proof.
  intros [(lim & batches & out & Hlim & Hmax & Hscan & -> & -> & _) _ _] Hd.
  destruct (scan_export_same_capture sha256_hex BytesIO BytesIO _ _ _ _ (capture_fuel content) {| bio_data := content |}
    {| bio_data := content |} lim batches out source_id order values packets) as (networks & Hsame & _ & Hnet);
    try done; [unfold capture_fuel, zlen; simpl; lia|]. by exists networks.
Qed.

(** The format of the index is the one the first bytes announce. *)
Lemma indexed_format sha256_hex values content parent g :
  indexed_from sha256_hex values content parent g -> parent.(sis_binding).(sib_capture_format) = format_of content.
Proof.
  intros [(lim & batches & out & Hlim & Hmax & Hscan & _ & _ & ->) _ _].
  rewrite (scan_refines_content sha256_hex) in Hscan by done. unfold scan_of_content in Hscan. change (reader_content _) with content in Hscan.
  destruct (run (scan_capture _ _) _) as [[bs [[fmt [[interfaces ps] n]]|e]] m] eqn:E; [|done]. injection Hscan as _ <-. simpl.
  by eapply scan_format.
Qed.

(** The decoder of an indexed capture, run on its bytes. *)
Lemma decodes_run values content source_id order networks packets fuel :
  _networks values = Ok networks -> (length content < fuel)%nat -> decodes values content source_id order packets ->
  exists m, run (export_capture source_id order networks fuel) (mem_at content 0) = (packets, Ok tt, m).
Proof.
  intros Hnets Hfuel Hdec. unfold decodes in Hdec. rewrite (export_packets_run _ _ _ _ _ networks Hnets) in Hdec.
  change (reader_content _) with content in Hdec. destruct (run _ _) as [[ps' r'] m] eqn:E in Hdec.
  injection Hdec as <- ->. exists m. eapply export_capture_fuel; [|exact E]. unfold capture_fuel. lia.
Qed.

(** What the index admits of a source is the prefix [bounded_pcap_prefix] takes. *)
Lemma indexed_prefix sha256_hex values content parent g source order networks packets mb mp admitted scanned bl pl :
  indexed_from sha256_hex values content parent g -> _networks values = Ok networks ->
  decodes values content source.(csv_source_id) order packets ->
  Forall2 (decoded_as content source.(csv_source_id) order networks parent.(sis_interfaces)) parent.(sis_packets) packets ->
  zlen content = source.(csv_source_size_bytes) -> 1 <= mb -> 1 <= mp ->
  admitted_prefix source parent mb mp = Ok (admitted, scanned, bl, pl) ->
  bounded_pcap_prefix content mb (Some mp) = Ok (mk_prefix (ztake scanned content) scanned admitted bl pl).
Proof.
  intros Hix Hnets Hdec Hf2 Hsize Hmb Hmp Hadm.
  destruct (decodes_run _ _ _ _ _ _ (capture_fuel content) Hnets ltac:(apply Nat.lt_succ_diag_r) Hdec) as [m Hrun].
  eapply (export_prefix_decodes _ _ _ content); [exact Hrun| |by eapply indexed_format|done|done|done|exact Hadm].
  eapply Forall2_impl; [exact Hf2|]. intros e q (i & _ & Hl & _). unfold entry_of. by rewrite Hl.
Qed.

(** The fields a predicate looks at do not depend on where the export puts the source. *)
Lemma decoded_fields content networks interfaces p q q' id order id' order' :
  fraction_ok content p -> decoded_as content id order networks interfaces p q ->
  decoded_as content id' order' networks interfaces p q' ->
  export_fields q = export_fields q' /\ q.(ep_projection) = q'.(ep_projection).
Proof.
  intros Hf (i & Hi & _ & _ & _ & _ & Hpj & Hre) (i' & Hi' & _ & _ & _ & _ & Hpj' & Hre').
  rewrite Hi in Hi'. injection Hi' as <-. rewrite Hpj in Hpj'. injection Hpj' as Hproj.
  specialize (Hre Hf). specialize (Hre' Hf). unfold export_fields. rewrite Hproj. split; [|done]. f_equal. f_equal.
  unfold export_packet_from_structural_locator in Hre, Hre'. cbn [locator_of loc_captured_length loc_data_offset
    loc_record_offset loc_framed_length] in Hre, Hre'.
  repeat (apply bind_Ok in Hre as (? & ? & Hre)). repeat (apply bind_Ok in Hre' as (? & ? & Hre')).
  injection Hre as <-. injection Hre' as <-. simpl. congruence.
Qed.

Section export.
Context {W : Type} {repository : ExportRepository W} {hooks : ExportHooks W}.
Context (sha256_hex : bytes -> string) (fromisoformat : string -> res Z) (terms_order : gset bytes -> list bytes).
Context (content_of : CaptureSourceVersion -> bytes) (values : list string).
Context {faithful : FaithfulRepository W sha256_hex content_of values}.
Hypothesis set_order : forall terms, terms_order terms ≡ₚ elements terms.

(** The sub-second fields of classic records are below one second in every
    capture that postings are served for. The sources do not check it; where it
    fails, the rebuilt timestamp may differ from the decoded one. *)
Definition subseconds_below_one : Prop := forall source parent limits posting,
  served source parent limits posting -> validate_posting_index sha256_hex posting source parent = true ->
  Forall (fraction_ok (content_of source)) parent.(sis_packets).

Hypothesis fractions : subseconds_below_one.

(** A source of the export: its entry in the manifest, what the decoder yields on
    it, how many of those packets the budget admits, the bytes that takes, and
    which limit was hit. *)
Record ExportedSource : Type := mk_exported {
  es_source : CaptureSourceVersion;
  es_descriptor : descriptor;
  es_packets : list ExportPacket;
  es_admitted : Z;
  es_bytes : Z;
  es_byte_limited : bool;
  es_packet_limited : bool;
}.

Definition sensor_of (d : descriptor) : string := field_text (d !! "sensor_id"%string).

Definition exported_records (predicate : CompiledPacketPredicate) (s : ExportedSource) : list MatchedPacketRecord :=
  matching fromisoformat predicate (sensor_of s.(es_descriptor)) (ztake s.(es_admitted) s.(es_packets)).

(** What the remaining budget admits of a source: no more than it, and, when the
    recorded size of the source is that of its bytes, what [bounded_pcap_prefix]
    takes of them. *)
Definition within_budget (max_bytes max_packets : Z) (s : ExportedSource) : Prop :=
  s.(es_bytes) <= max_bytes /\ s.(es_admitted) <= max_packets /\
  let content := content_of s.(es_source) in
  (zlen content = s.(es_source).(csv_source_size_bytes) ->
   bounded_pcap_prefix content max_bytes (Some max_packets) =
     Ok (mk_prefix (ztake s.(es_bytes) content) s.(es_bytes) s.(es_admitted) s.(es_byte_limited) s.(es_packet_limited))).

(** A planned source with a selection that lost no match exports its matches. *)
Lemma source_exported kind filters networks predicate limits order d cs proof selected smb smp b pk p rs :
  compile_packet_predicate fromisoformat filters networks = Ok predicate ->
  source_selected (W := W) sha256_hex terms_order kind predicate limits order d cs proof ->
  planned_source smb smp selected order b pk (Some d, proof) p ->
  default [] (selected !! order) = ppc_packet_index <$> cs ->
  records_of fromisoformat predicate values (content_of p.(pln_source)) p.(pln_sensor_id)
    p.(pln_located).(lps_locators) rs ->
  exists s, s.(es_source) = proof.(psp_source) /\ s.(es_descriptor) = d /\
    decodes values (content_of s.(es_source)) s.(es_source).(csv_source_id) order s.(es_packets) /\
    (s.(es_bytes), s.(es_admitted), s.(es_byte_limited), s.(es_packet_limited)) = plan_outcome p /\
    0 <= s.(es_admitted) <= zlen s.(es_packets) /\
    (limited p = false -> s.(es_admitted) = zlen s.(es_packets)) /\ within_budget (smb - b) (smp - pk) s /\
    rs = exported_records predicate s.
Proof.
  intros Hcomp [_ _ _ _ (posting & ordinals & Hserved & Hval & _ & _ & Hsel & ->)] [(d' & [= <-] & Hsensor) Hsrc Hpar Hbud Hloc _ _]
    Hords Hrec.
  cbn [fst snd] in *. rewrite <- list_fmap_compose in Hords.
  assert (ppc_packet_index ∘ (fun o => mk_candidate order kind (csv_source_id (psp_source proof))
    (sis_build_id (psp_parent proof)) o) <$> ordinals = ordinals) as Hid
    by (clear; induction ordinals as [|o os IH]; [done|]; rewrite fmap_cons, IH; done).
  rewrite Hid in Hords. rewrite Hords in Hloc.
  pose proof (faithful_index _ _ _ _ Hserved Hval) as Hix. pose proof (fractions _ _ _ _ Hserved Hval) as Hfr. set (source := psp_source proof) in *.
  destruct (ix_decodes _ _ _ _ _ Hix source.(csv_source_id) order) as [packets Hdec].
  destruct (indexed_decoded _ _ _ _ _ _ _ _ Hix Hdec) as (nets & Hnets & Hcap).
  destruct (ix_postings _ _ _ _ _ Hix) as (version & packets0 & blimits & binding & Hdec0 & Hbl & Hbuild).
  destruct (indexed_decoded _ _ _ _ _ _ _ _ Hix Hdec0) as (nets0 & Hnets0 & Hcap0).
  assert (nets0 = nets) as -> by congruence.
  destruct (select_superset _ _ _ _ _ _ _ _ _ _ _ _ _ _ _ _ _ _ _ _ set_order Hcap0 Hbl Hbuild Hcomp Hsel)
    as (Hsorted & _ & Hsup).
  pose proof Hcap as (_ & _ & Hf2). pose proof Hcap0 as (_ & _ & Hf20).
  destruct Hloc as [Hvalid Hbinds _ Hrange Hprefix Hlocs].
  destruct (admitted_prefix_bounds _ _ (smb - b) (smp - pk) _ _ _ _ Hvalid Hbinds ltac:(lia) ltac:(lia) Hprefix)
    as (Hadm & Hfull & Hmaxp & Hmaxb).
  pose proof (Forall2_length _ _ _ Hf2) as Hlen.
  exists (mk_exported source d packets (admitted_count p) (scanned_count p) (lps_byte_limited (pln_located p))
    (lps_packet_limited (pln_located p))). unfold admitted_count, scanned_count, within_budget. simpl.
  split_and!; try done; [lia|unfold zlen in *; lia|unfold zlen in *; intros Hl; specialize (Hfull Hl); lia| |].
  { intros Hsz. eapply indexed_prefix; [exact Hix|exact Hnets|exact Hdec|exact Hf2|exact Hsz|lia|lia|exact Hprefix]. }
  unfold exported_records. simpl. rewrite Hsrc, Hsensor in Hrec.
  eapply (selection_matches fromisoformat predicate (sensor_of d) (content_of source) source (psp_parent proof) order
    values nets packets Hnets Hf2 Hfr); [exact Hsorted|exact Hrange|exact Hadm| |exact Hlocs|exact Hrec].
  intros k q Hq Hs Hm. destruct (Forall2_lookup_r _ _ _ _ _ Hf2 Hq) as (e & He & Hqe).
  destruct (Forall2_lookup_l _ _ _ _ _ Hf20 He) as (q0 & Hq0 & Hqe0).
  rewrite Forall_forall in Hfr.
  destruct (decoded_fields _ _ _ _ _ _ _ _ _ _ (Hfr e (list_elem_of_lookup_2 _ _ _ He)) Hqe Hqe0) as [Hfe Hpe].
  apply (Hsup k q0 Hq0); [by rewrite <- Hpe|]. by rewrite <- Hfe.
Qed.

Definition whole (s : ExportedSource) : Prop := s.(es_admitted) = zlen s.(es_packets).

Definition cut (s : ExportedSource) : bool := s.(es_byte_limited) || s.(es_packet_limited).

Section run.
Context (scan_max_bytes scan_max_packets : Z).

(** The source that stands at [order] of the export, for its entry, with [bytes]
    and [packets] of the budget already spent. *)
Definition exported_at (order bytes packets : Z) (entry : option descriptor * PostingSelectionSourceProof)
    (s : ExportedSource) : Prop :=
  entry.1 = Some s.(es_descriptor) /\ s.(es_source) = entry.2.(psp_source) /\
  decodes values (content_of s.(es_source)) s.(es_source).(csv_source_id) order s.(es_packets) /\
  0 <= s.(es_admitted) <= zlen s.(es_packets) /\
  within_budget (scan_max_bytes - bytes) (scan_max_packets - packets) s.

(** The exported sources are a prefix of the entries, each admitted by what the
    ones before it left of the budget; all but the last are whole, and the run
    ends early only at a source a limit cuts or when the budget is spent. *)
Inductive exported_run : Z -> Z -> Z -> list (option descriptor * PostingSelectionSourceProof) ->
    list ExportedSource -> bool -> Prop :=
  | exported_all order bytes packets : exported_run order bytes packets [] [] true
  | exported_none order bytes packets entry entries :
      scan_max_bytes <= bytes \/ scan_max_packets <= packets ->
      exported_run order bytes packets (entry :: entries) [] false
  | exported_last order bytes packets entry entries s :
      exported_at order bytes packets entry s -> cut s = true ->
      exported_run order bytes packets (entry :: entries) [s] false
  | exported_whole order bytes packets entry entries s sources complete :
      exported_at order bytes packets entry s -> cut s = false -> whole s ->
      exported_run (order + 1) (bytes + s.(es_bytes)) (packets + s.(es_admitted)) entries sources complete ->
      exported_run order bytes packets (entry :: entries) (s :: sources) complete.

(** Together the sources stay within the budget. *)
Lemma exported_within order bytes packets entries sources complete :
  exported_run order bytes packets entries sources complete ->
  bytes <= scan_max_bytes -> packets <= scan_max_packets ->
  bytes + sumZ es_bytes sources <= scan_max_bytes /\ packets + sumZ es_admitted sources <= scan_max_packets.
Proof.
  induction 1 as [| |? ? ? ? ? ? (_ & _ & _ & _ & H1 & H2 & _)|? ? ? ? ? ? ? ? (_ & _ & _ & _ & H1 & H2 & _) _ _ _ IH];
    intros Hb Hp; rewrite ?sumZ_cons; cbn [sumZ fmap list_fmap foldr]; [lia|lia|unfold sumZ; simpl; lia|].
  specialize (IH ltac:(lia) ltac:(lia)). lia.
Qed.
End run.

Definition entry_selected kind predicate (selected : gmap Z (list Z)) (order : Z)
    (entry : option descriptor * PostingSelectionSourceProof) : Prop :=
  exists limits d cs, entry.1 = Some d /\
    source_selected (W := W) sha256_hex terms_order kind predicate limits order d cs entry.2 /\
    default [] (selected !! order) = ppc_packet_index <$> cs.

Lemma run_exported kind filters networks predicate smb smp selected order b pk entries ps complete found :
  compile_packet_predicate fromisoformat filters networks = Ok predicate ->
  planned_run smb smp selected order b pk entries ps complete ->
  (forall k entry, entries !! k = Some entry -> entry_selected kind predicate selected (order + Z.of_nat k) entry) ->
  Forall2 (fun p => records_of fromisoformat predicate values (content_of p.(pln_source))
    p.(pln_sensor_id) p.(pln_located).(lps_locators)) ps found ->
  exists sources, exported_run smb smp order b pk entries sources complete /\
    found = exported_records predicate <$> sources /\
    es_admitted <$> sources = admitted_count <$> ps /\ es_bytes <$> sources = scanned_count <$> ps.
Proof.
  intros Hcomp Hrun. revert found.
  assert (forall order b pk entry p rs, planned_source smb smp selected order b pk entry p ->
    entry_selected kind predicate selected order entry ->
    records_of fromisoformat predicate values (content_of p.(pln_source)) p.(pln_sensor_id)
      p.(pln_located).(lps_locators) rs ->
    exists s, exported_at smb smp order b pk entry s /\ es_admitted s = admitted_count p /\
      es_bytes s = scanned_count p /\ cut s = limited p /\ (limited p = false -> whole s) /\
      rs = exported_records predicate s) as Hone.
  { intros o b' pk' [item proof] p rs Hp (limits & d & cs & [= ->] & Hs & Hd) Hr.
    destruct (source_exported _ _ _ _ _ _ _ _ _ _ _ _ _ _ _ _ Hcomp Hs Hp Hd Hr) as (s & H1 & H2 & H3 & [= Hby Had Hbl Hpl] & H5 & H6 & H7 & H8).
    exists s. unfold exported_at, cut, limited. simpl. rewrite H2, Hbl, Hpl. done. }
  induction Hrun as [order b pk|order b pk entry entries Hb|order b pk entry entries p Hp Hl
    |order b pk entry entries p ps complete Hp Hl _ IH]; intros found Hsel Hf.
  - apply Forall2_nil_inv_l in Hf as ->. exists []. split; [constructor|done].
  - apply Forall2_nil_inv_l in Hf as ->. exists []. split; [by constructor|done].
  - apply Forall2_cons_inv_l in Hf as (rs & fs & Hr & ->%Forall2_nil_inv_l & ->).
    specialize (Hsel 0%nat entry eq_refl). rewrite Z.add_0_r in Hsel.
    destruct (Hone _ _ _ _ _ _ Hp Hsel Hr) as (s & H1 & H2 & H3 & H4 & _ & ->). exists [s].
    split_and!; [constructor; [done|congruence]|done|simpl; by rewrite H2|simpl; by rewrite H3].
  - apply Forall2_cons_inv_l in Hf as (rs & fs & Hr & Hf & ->).
    pose proof (Hsel 0%nat entry eq_refl) as Hsel0. rewrite Z.add_0_r in Hsel0.
    destruct (Hone _ _ _ _ _ _ Hp Hsel0 Hr) as (s & H1 & H2 & H3 & H4 & Hw & ->).
    destruct (IH fs) as (sources & Hex & -> & Hadm & Hby); [|done|].
    { intros k e He. specialize (Hsel (S k) e He). by replace (order + 1 + Z.of_nat k) with (order + Z.of_nat (S k)) by lia. }
    rewrite <- H2, <- H3 in Hex. exists (s :: sources).
    split_and!; [constructor; auto; congruence|done|by rewrite !fmap_cons, H2, Hadm|by rewrite !fmap_cons, H3, Hby].
Qed.

(** What a batch is made of, and that its entries were selected. *)
Lemma indexed_batch_yields settings job_networks snapshot request predicate smb smp range_limits max_sources :
  compile_packet_predicate fromisoformat request (py_str <$> job_networks) = Ok predicate ->
  yields (indexed_match_factory sha256_hex fromisoformat terms_order settings job_networks snapshot request predicate
    values smb smp range_limits max_sources)
    (fun batch => exists manifest kind kind' plan selected ps complete found,
       collected fromisoformat content_of predicate values snapshot plan smb smp batch manifest kind selected ps complete found /\
       snapshot_source_kind snapshot.(ss_source_kind) (zlen manifest) = Some kind' /\
       forall k entry, zip manifest (plan_source_proofs plan) !! k = Some entry ->
         entry_selected kind' predicate selected (0 + Z.of_nat k) entry).
Proof.
  intros Hcomp. unfold indexed_match_factory. eapply yields_bind; [apply yields_any|]. intros _ _.
  eapply yields_bind; [apply select_plan_yields|]. intros [plan|] Hplan; cycle 1.
  { eapply yields_bind; [apply yields_any|]. intros _ _. apply yields_raise. }
  eapply yields_bind; [apply yields_any|]. intros _ _.
  eapply yields_mono; [|eapply collect_yields; exact faithful_read].
  intros batch (manifest & kind & selected & ps & complete & found & Hcol).
  destruct Hplan as (manifest' & kind' & predicate' & limits & css & Hman' & _ & Hkind & Hcomp' & Hlim & Hss & _ & Hcand & _).
  pose proof Hcol as [Hman _ _ Hsel _ _ _ _ _ _ _ _ _].
  assert (manifest' = manifest) as -> by congruence. assert (predicate' = predicate) as -> by congruence.
  exists manifest, kind, kind', plan, selected, ps, complete, found. split_and!; [done|done|].
  intros k [item proof] Hk. rewrite lookup_zip_with_Some in Hk. destruct Hk as (x & y & [= -> ->] & Hx & Hy).
  destruct (sources_selected_lookup _ _ _ _ _ _ _ _ Hss k y Hy) as (ls & d & cs & Hm & Hs & Hf).
  rewrite Z.add_0_l in *. exists ls, d, cs. split_and!; [|done|].
  - apply lookup_zip_with_Some in Hm as (l & x' & [= -> <-] & _ & Hx'). simpl. congruence.
  - rewrite Hcand in Hsel. simpl in Hsel. rewrite (group_candidates_spec _ _ _ _ _ (Z.of_nat k) Hsel), lookup_empty, Hf. done.
Qed.
End export.

(** C34: indexed export is complete and exact. Take a repository whose range
    reads are faithful and whose validated postings were built from the bytes
    they are bound to, over captures whose classic records have sub-second fields
    below one second (the sources do not check that, and without it the rebuilt
    timestamps may differ), and a [terms_order] that permutes a set. Whatever else
    the repository and the callbacks do between two calls, a batch that
    [indexed_match_factory] returns holds exactly the records of the packets the
    export decoder yields on the sources of the manifest that the predicate
    matches, in file order, source after source, up to the scan budget: each
    source is admitted up to what the ones before it left of the two limits (and,
    where its recorded size is that of its bytes, exactly as far as
    [bounded_pcap_prefix] goes with them), every source but the last is exported
    whole, and the run stops early only at a source a limit cuts or with a limit
    spent. The packet and byte counts are the sums over the sources and stay
    within the limits, and no truncation is reported if and only if every source
    of the manifest is exported whole. The index changes how the matches are
    found, never which they are. *)
Theorem indexed_export_complete (W : Type) (repository : ExportRepository W) (hooks : ExportHooks W)
    (sha256_hex : bytes -> string) (fromisoformat : string -> res Z) (terms_order : gset bytes -> list bytes)
    (content_of : CaptureSourceVersion -> bytes) (values : list string)
    (faithful : FaithfulRepository W sha256_hex content_of values)
    (settings : SelectionSettings) (job_networks : list py_scalar) (snapshot : SourceSnapshot)
    (request : PacketFilters) (predicate : CompiledPacketPredicate) (scan_max_bytes scan_max_packets : Z)
    (range_limits : RangePlanLimits) (max_sources : Z) (w w' : W) (batch : IndexedMatchBatch) :
  (forall terms, terms_order terms ≡ₚ elements terms) ->
  subseconds_below_one (W := W) sha256_hex content_of ->
  compile_packet_predicate fromisoformat request (py_str <$> job_networks) = Ok predicate ->
  indexed_match_factory sha256_hex fromisoformat terms_order settings job_networks snapshot request predicate
    values scan_max_bytes scan_max_packets range_limits max_sources w = (Ok batch, w') ->
  exists manifest kind proofs sources complete,
    snapshot.(ss_source_manifest) = Some manifest /\ zlen proofs = zlen manifest /\
    check_entries kind 0 (zip manifest proofs) = Ok tt /\
    exported_run content_of values scan_max_bytes scan_max_packets 0 0 0 (zip manifest proofs) sources complete /\
    batch.(imb_records) = concat (exported_records fromisoformat predicate <$> sources) /\
    batch.(imb_scanned_packet_count) = sumZ es_admitted sources /\
    batch.(imb_scanned_source_bytes) = sumZ es_bytes sources /\
    (0 <= scan_max_bytes -> 0 <= scan_max_packets ->
     batch.(imb_scanned_source_bytes) <= scan_max_bytes /\ batch.(imb_scanned_packet_count) <= scan_max_packets) /\
    (batch.(imb_truncation_reasons) = [] <-> complete = true).
Proof.
  intros Horder Hfractions Hcomp Hrun0.
  destruct (indexed_batch_yields sha256_hex fromisoformat terms_order content_of values _ _ _ _ _ _ _ _ _ Hcomp _ _ _ Hrun0)
    as (manifest & kind & kind' & plan & selected & ps & complete & found &
        [Hman Hlen Hent Hsel Hrun Hrec Hfound Hpk Hby _ _ _ Htr] & _ & Hentry).
  destruct (run_exported sha256_hex fromisoformat terms_order content_of values Horder Hfractions _ _ _ _ _ _ _ _ _ _ _ _ _ _
    Hcomp Hrun Hentry Hfound) as (sources & Hex & -> & Hadm & Hbytes).
  assert (sumZ admitted_count ps = sumZ es_admitted sources) as Hp by (unfold sumZ; by rewrite Hadm).
  assert (sumZ scanned_count ps = sumZ es_bytes sources) as Hb by (unfold sumZ; by rewrite Hbytes).
  exists manifest, kind, (plan_source_proofs plan), sources, complete. rewrite Hpk, Hby, Hp, Hb. split_and!; try done.
  intros Hb0 Hp0. exact (exported_within _ _ _ _ _ _ _ _ _ _ Hex Hb0 Hp0).
Qed.

(** ** The sample store *)

Lemma static_read_faithful store source b w part w' :
  @read_capture_range _ (static_repository store) source b w = (Ok part, w') ->
  part = slice b.(cbr_offset) (b.(cbr_offset) + b.(cbr_length)) (stored_content store source).
Proof.
  simpl. unfold stored_content. destruct (store_entry store source) as [e|]; [|done].
  destruct (_ =? _); [by intros [= <- _]|done].
Qed.

Definition sample_values : list string := ["10.0.0.0/8"%string].

Lemma sample_indexed posting :
  sample_posting PCAPNG sample_pcapng = Ok posting ->
  indexed_from zero_digest sample_values sample_pcapng (sample_snapshot PCAPNG sample_pcapng)
    posting.(pis_generation).
Proof.
  intros Hp. constructor.
  - exists (sample_limits 2 true).
    destruct (scan_structural_packet_index zero_digest (capture_fuel sample_pcapng) {| bio_data := sample_pcapng |}
      (sample_limits 2 true)) as [batches [out|e]] eqn:E; [|vm_compute in E; discriminate E].
    exists batches, out. vm_compute in E. injection E as <- <-.
    split_and!; [repeat split; vm_compute; reflexivity|vm_compute; discriminate|reflexivity|vm_compute; reflexivity..].
  - destruct (export_packets (capture_fuel sample_pcapng) {| bio_data := sample_pcapng |} "version" 0 sample_values)
      as [packets r] eqn:E.
    exists "version"%string, packets, default_build_limits, (pg_binding_document posting.(pis_generation)).
    vm_compute in E. injection E as <- <-. split_and!; [reflexivity|repeat split; vm_compute; reflexivity|].
    vm_compute in Hp. injection Hp as <-. vm_compute. reflexivity.
  - intros source_id order. eexists. vm_compute. reflexivity.
Qed.

Lemma sample_faithful :
  @FaithfulRepository unit (static_repository (sample_store PCAPNG sample_pcapng)) zero_digest
    (stored_content (sample_store PCAPNG sample_pcapng)) sample_values.
Proof.
  destruct (sample_posting PCAPNG sample_pcapng) as [posting|e] eqn:Hp; [|vm_compute in Hp; discriminate Hp].
  assert (sample_store PCAPNG sample_pcapng = [mk_entry (sample_source sample_pcapng) sample_pcapng
    (sample_snapshot PCAPNG sample_pcapng) posting]) as -> by (unfold sample_store; by rewrite Hp).
  constructor; [apply static_read_faithful|]. intros source parent limits posting' (w & w' & Hs) _.
  cbn [get_posting_index static_repository] in Hs. unfold store_entry, store_find in Hs. unfold stored_content, store_entry, store_find.
  rewrite filter_cons in *. destruct (decide _) as [Hd|Hd]; [|done]. cbn [head se_source se_content fmap option_fmap option_map default] in *.
  destruct (bool_decide (parent = _)) eqn:Hpar; [|done]. apply bool_decide_eq_true in Hpar as ->.
  injection Hs as <- _. by apply sample_indexed.
Qed.

Lemma sample_fractions :
  @subseconds_below_one unit (static_repository (sample_store PCAPNG sample_pcapng)) zero_digest
    (stored_content (sample_store PCAPNG sample_pcapng)).
Proof.
  intros source parent limits posting _ _. apply Forall_forall. intros p _ e resolution Hm. exfalso. revert Hm.
  unfold stored_content, store_entry, store_find, sample_store.
  destruct (sample_posting PCAPNG sample_pcapng) as [posting'|x]; [|done]. rewrite filter_cons.
  destruct (decide _); [|done]. intros Hm. vm_compute in Hm. discriminate Hm.
Qed.

Lemma indexed_export_complete_witness :
  let repository := static_repository (sample_store PCAPNG sample_pcapng) in
  match compile_packet_predicate sample_fromisoformat sample_filters sample_values with
  | Ok predicate =>
      match @indexed_match_factory unit repository static_hooks zero_digest sample_fromisoformat elements sample_settings
              [PStr "10.0.0.0/8"] (sample_source_snapshot sample_pcapng) sample_filters predicate sample_values
              4096 10 (mk_range_limits 64 1024 16 4096 4 1 3 4) 8 tt with
      | (Ok batch, _) => zlen batch.(imb_records) = 1 /\ exists sources,
          batch.(imb_records) = concat (exported_records sample_fromisoformat predicate <$> sources)
      | (Err _, _) => False
      end
  | Err _ => False
  end.
Proof.
  intros repository.
  destruct (compile_packet_predicate sample_fromisoformat sample_filters sample_values) as [predicate|e] eqn:Hc;
    [|vm_compute in Hc; discriminate Hc].
  destruct (@indexed_match_factory unit repository static_hooks zero_digest sample_fromisoformat elements sample_settings
    [PStr "10.0.0.0/8"] (sample_source_snapshot sample_pcapng) sample_filters predicate sample_values
    4096 10 (mk_range_limits 64 1024 16 4096 4 1 3 4) 8 tt) as [[batch|e] w'] eqn:E;
    [|vm_compute in Hc; injection Hc as <-; vm_compute in E; discriminate E].
  split; [vm_compute in Hc; injection Hc as <-; vm_compute in E; injection E as <- _; reflexivity|].
  destruct (indexed_export_complete unit repository static_hooks zero_digest sample_fromisoformat elements
    (stored_content (sample_store PCAPNG sample_pcapng)) sample_values sample_faithful sample_settings
    [PStr "10.0.0.0/8"%string] (sample_source_snapshot sample_pcapng) sample_filters predicate 4096 10
    (mk_range_limits 64 1024 16 4096 4 1 3 4) 8 tt w' batch) as (_ & _ & _ & sources & _ & _ & _ & _ & _ & Hrec & _).
  - reflexivity.
  - exact sample_fractions.
  - exact Hc.
  - exact E.
  - exists sources. exact Hrec.
Defined.
