(* ===== verification/CollectBudget.v ===== *)
(** * CollectBudget

    What one collection may read: the ranges are fetched only after the totals
    of the whole request were admitted, so a run, however it ends, stays within
    the limits. *)

From Stdlib Require Import String.
From S2P Require Import Prelude Bytes Samples CaptureFormat StructuralIndex ExportDecoder PyFloat FlowFilter PostingModel.
From S2P Require Import PostingQuery OffsetIndex OffsetProofs IndexedPlan PlanProofs PostingIndex ExportRepository StaticStore.
From S2P Require Import PostingPlan PlanSelection IndexedCollect CollectProofs.
#[local] Open Scope Z_scope.

Lemma sumZ_snoc {A} (f : A -> Z) l x : sumZ f (l ++ [x]) = sumZ f l + f x.
Proof. rewrite sumZ_app, sumZ_cons. unfold sumZ at 2. simpl. lia. Qed.

(** ** Ranges have a length *)

Lemma add_range_positive limits st item :
  0 < item.(spl_captured_length) -> Forall (fun r => 0 < r.(cr_length)) st.(ps_ranges) ->
  Forall (fun r => 0 < r.(cr_length)) (add_range limits st item).
Proof.
  intros Hi Hr. unfold add_range, can_join. destruct (ps_ranges st) as [|current rest]; [by repeat constructor|].
  apply Forall_cons in Hr as [Hc Hr].
  destruct (ps_previous st) as [previous|]; [|by repeat constructor]. destruct (_ && _) eqn:Hj; [|by repeat constructor].
  constructor; [|done]. rewrite !andb_true_iff, !Z.leb_le in Hj. simpl. lia.
Qed.

Lemma plan_items_positive limits items : forall st st',
  plan_items limits st items = Ok st' -> Forall (fun r => 0 < r.(cr_length)) st.(ps_ranges) ->
  Forall (fun r => 0 < r.(cr_length)) st'.(ps_ranges).
Proof.
  induction items as [|item items IH]; intros st st' H Hr; cbn [plan_items] in H; [by injection H as <-|].
  apply bind_Ok in H as (st1 & H1 & H). apply (IH _ _ H). unfold plan_item in H1.
  apply bind_Ok in H1 as (_ & _ & H1). apply bind_Ok in H1 as (_ & _ & H1). apply bind_Ok in H1 as (_ & Hv%raise_if_Ok & H1).
  rewrite !orb_false_iff in Hv. destruct (Z.eqb_spec (spl_captured_length item) 0); [by injection H1 as <-|].
  apply bind_Ok in H1 as (_ & _ & [= <-]). simpl. apply add_range_positive; [lia|done].
Qed.

Lemma planned_fetch limits items plan :
  plan_source_packet_ranges limits items = Ok plan ->
  Forall (fun r => 0 < r.(cr_length)) plan.(rp_ranges) /\ plan.(rp_fetched_bytes) = sumZ cr_length plan.(rp_ranges).
Proof.
  unfold plan_source_packet_ranges. intros (_ & _ & H)%bind_Ok. apply bind_Ok in H as (st & Hst & H).
  apply bind_Ok in H as (_ & _ & [= <-]). simpl. split; [|done]. apply Forall_rev.
  by apply (plan_items_positive _ _ _ _ Hst).
Qed.

(** ** Meters *)

Section meter.
Context {W : Type} {repository : ExportRepository W} {hooks : ExportHooks W}.
Context (bytes_read reads : W -> Z).

(** [m] reads at most [n] bytes in at most [k] ranges, however it ends. *)
Definition spends {A} (m : eff W A) (n k : Z) : Prop :=
  forall w r w', m w = (r, w') -> bytes_read w' <= bytes_read w + n /\ reads w' <= reads w + k.

(** Only [read_capture_range] reads from the sources. *)
Record metered : Prop := {
  mt_capture id : spends (get_capture_source_version id) 0 0;
  mt_live id : spends (get_live_capture_source_version id) 0 0;
  mt_index binding : spends (get_structural_index binding) 0 0;
  mt_index_identity source : spends (get_structural_index_identity source) 0 0;
  mt_posting source parent limits : spends (get_posting_index source parent limits) 0 0;
  mt_posting_identity source parent : spends (get_posting_index_identity source parent) 0 0;
  mt_read source b : spends (read_capture_range source b) b.(cbr_length) 1;
  mt_checkpoint n k : spends (checkpoint_fetch n k) 0 0;
  mt_cancelled : spends check_cancelled 0 0;
  mt_deadline check : check_deadline = Some check -> spends check 0 0;
}.

Lemma spends_ret {A} (a : A) : spends (mret a) 0 0.
Proof. intros w r w' [= <- <-]. lia. Qed.

Lemma spends_lift {A} (r : res A) : spends (eff_lift r) 0 0.
Proof. intros w r' w' [= <- <-]. lia. Qed.

Lemma spends_mono {A} (m : eff W A) n k n' k' : spends m n k -> n <= n' -> k <= k' -> spends m n' k'.
Proof. intros H Hn Hk w r w' Hm. destruct (H _ _ _ Hm). lia. Qed.

Lemma spends_bind {A B} (m : eff W A) (f : A -> eff W B) (P : A -> Prop) n k n' k' :
  spends m n k -> yields m P -> (forall a, P a -> spends (f a) n' k') -> 0 <= n' -> 0 <= k' ->
  spends (m ≫= f) (n + n') (k + k').
Proof.
  intros Hm HP Hf Hn Hk w r w'. unfold mbind, eff_bind. destruct (m w) as [[a|e] w1] eqn:E; intros H.
  - destruct (Hm _ _ _ E), (Hf a (HP _ _ _ E) _ _ _ H). lia.
  - injection H as <- <-. destruct (Hm _ _ _ E). lia.
Qed.

(** A step that reads nothing. *)
Lemma spends_then {A B} (m : eff W A) (f : A -> eff W B) n k :
  spends m 0 0 -> (forall a, spends (f a) n k) -> 0 <= n -> 0 <= k -> spends (m ≫= f) n k.
Proof. intros Hm Hf Hn Hk. apply (spends_bind m f (fun _ => True) 0 0 n k Hm (yields_any m)); auto. Qed.

Lemma spends_reraise {A} f (m : eff W A) n k : spends m n k -> spends (eff_reraise f m) n k.
Proof.
  intros Hm w r w'. unfold eff_reraise. destruct (m w) as [[a|e] w1] eqn:E; intros [= <- <-]; by eapply Hm.
Qed.

Hypothesis meter : metered.

Lemma spends_checks : spends _run_checks 0 0.
Proof.
  unfold _run_checks. apply spends_then; [apply mt_cancelled, meter|intros _|done|done].
  destruct check_deadline as [check|] eqn:E; [by apply (mt_deadline meter)|apply spends_ret].
Qed.

Lemma spends_source kind id : spends (_current_source kind id) 0 0.
Proof. destruct kind; [apply mt_capture, meter|apply mt_live, meter]. Qed.

(** Steps through a body that only reads identities. *)
Ltac spends_step :=
  first [ apply spends_ret | apply spends_lift | apply spends_checks | apply spends_source
        | apply (mt_index meter) | apply (mt_index_identity meter) | apply (mt_posting meter)
        | apply (mt_posting_identity meter) | apply (mt_checkpoint meter)
        | apply spends_then; [| intros ? | lia | lia ] ].
Ltac spends_all := repeat (spends_step || case_match).

Lemma spends_fence proofs : spends (_fence_indexed_source_proofs proofs) 0 0.
Proof.
  induction proofs as [|proof proofs IH]; cbn [_fence_indexed_source_proofs]; [apply spends_ret|].
  apply spends_then; [|intros _; exact IH|lia|lia]. unfold _fence_indexed_source_proof. spends_all.
Qed.

Lemma spends_admit sha256_hex order item proof : spends (admit_source sha256_hex order item proof) 0 0.
Proof. unfold admit_source. spends_all. Qed.

(** *** Planning reads nothing and keeps its totals *)

Definition plan_bytes (p : PlannedIndexedSource) : Z := sumZ cr_length p.(pln_range_plan).(rp_ranges).
Definition plan_reads (p : PlannedIndexedSource) : Z := zlen p.(pln_range_plan).(rp_ranges).

Record totals_ok (st : CollectState) : Prop := {
  tot_positive : Forall (fun p => Forall (fun r => 0 < r.(cr_length)) p.(pln_range_plan).(rp_ranges)) st.(col_planned);
  tot_fetched : st.(col_fetched_bytes) = sumZ plan_bytes st.(col_planned);
  tot_ranges : st.(col_range_count) = sumZ plan_reads st.(col_planned);
}.

Lemma plan_admitted_totals sha256_hex smb smp range_limits selected order item proof source st p st' :
  plan_admitted_source sha256_hex smb smp range_limits selected order item proof source st = Ok (p, st') ->
  totals_ok st -> totals_ok st'.
Proof.
  unfold plan_admitted_source. intros (located & _ & H)%bind_Ok [T1 T2 T3].
  apply bind_Ok in H as (plan & [Hp Hf]%planned_fetch & H). apply bind_Ok in H as (_ & _ & H).
  apply bind_Ok in H as (_ & _ & [= _ <-]). constructor; simpl.
  - apply Forall_app. split; [done|by repeat constructor].
  - by rewrite sumZ_snoc, T2, Hf.
  - by rewrite sumZ_snoc, T3.
Qed.

Lemma plan_sources_totals sha256_hex smb smp range_limits selected entries : forall order st,
  totals_ok st -> yields (plan_sources sha256_hex smb smp range_limits selected order entries st) totals_ok.
Proof.
  induction entries as [|[item proof] entries IH]; intros order st Hst; cbn [plan_sources]; [by apply yields_ret|].
  eapply yields_bind; [apply yields_any|]. intros _ _. eapply yields_bind; [apply yields_any|]. intros source _.
  case_match; [by apply yields_ret; destruct Hst|]. case_match; [by apply yields_ret; destruct Hst|].
  eapply yields_bind; [apply yields_lift; intros r Hr; exact Hr|]. intros [p st'] Hr%plan_admitted_totals; [|done].
  case_match; [by apply yields_ret|by apply IH].
Qed.

Lemma spends_plan_sources sha256_hex smb smp range_limits selected entries : forall order st,
  spends (plan_sources sha256_hex smb smp range_limits selected order entries st) 0 0.
Proof.
  induction entries as [|[item proof] entries IH]; intros order st; cbn [plan_sources]; [apply spends_ret|].
  apply spends_then; [apply spends_checks|intros _|lia|lia]. apply spends_then; [apply spends_admit|intros source|lia|lia].
  case_match; [apply spends_ret|]. case_match; [apply spends_ret|].
  apply spends_then; [apply spends_lift|intros [p st']|lia|lia]. case_match; [apply spends_ret|apply IH].
Qed.

(** *** Fetching *)

Lemma sum_lengths_nonneg ranges : Forall (fun r => 0 < r.(cr_length)) ranges -> 0 <= sumZ cr_length ranges.
Proof. intros Hr. apply sumZ_nonneg. eapply Forall_impl; [exact Hr|]. simpl. lia. Qed.

Lemma spends_fetch_range source before r raw :
  0 < r.(cr_length) -> spends (fetch_range source before r raw) r.(cr_length) 1.
Proof.
  intros Hr. unfold fetch_range. apply spends_then; [apply spends_checks|intros _|lia|lia].
  apply spends_then; [apply (mt_checkpoint meter)|intros _|lia|lia].
  apply (spends_mono _ (cr_length r + 0) (1 + 0)); [|lia|lia]. eapply spends_bind; [|apply yields_any|intros part _; spends_all|lia|lia].
  apply spends_reraise. apply (spends_mono _ (0 + cr_length r) (0 + 1)); [|lia|lia].
  apply (spends_bind _ _ (fun b => cbr_length b = cr_length r)); [apply spends_lift| | |lia|lia].
  - apply yields_lift. unfold range_bytes. by intros b (u & _ & [= <-])%bind_Ok.
  - intros b <-. apply (mt_read meter).
Qed.

Lemma spends_fetch_ranges source before ranges : forall raw,
  Forall (fun r => 0 < r.(cr_length)) ranges ->
  spends (fetch_ranges source before ranges raw) (sumZ cr_length ranges) (zlen ranges).
Proof.
  induction ranges as [|r ranges IH]; intros raw Hr; cbn [fetch_ranges]; [apply spends_ret|].
  apply Forall_cons in Hr as [Hl Hr]. pose proof (sum_lengths_nonneg _ Hr). pose proof (zlen_nonneg ranges).
  rewrite sumZ_cons, zlen_cons. eapply spends_bind; [by apply spends_fetch_range|apply yields_any|by intros raw' _; apply IH|lia|lia].
Qed.

Lemma spends_match_packets fromisoformat predicate values sensor raw locators :
  spends (match_packets fromisoformat predicate values sensor raw locators) 0 0.
Proof.
  induction locators as [|l locators IH]; cbn [match_packets]; [apply spends_ret|].
  apply spends_then; [spends_all|intros _|lia|lia]. apply spends_then; [apply spends_lift|intros found|lia|lia].
  apply spends_then; [exact IH|intros rest; apply spends_ret|lia|lia].
Qed.

Lemma spends_collect_sources fromisoformat predicate values ps :
  Forall (fun p => Forall (fun r => 0 < r.(cr_length)) p.(pln_range_plan).(rp_ranges)) ps ->
  spends (collect_sources fromisoformat predicate values ps) (sumZ plan_bytes ps) (sumZ plan_reads ps).
Proof.
  induction 1 as [|p ps Hp Hps IH]; cbn [collect_sources]; [apply spends_ret|]. rewrite !sumZ_cons.
  assert (0 <= sumZ plan_bytes ps).
  { apply sumZ_nonneg. eapply Forall_impl; [exact Hps|]. intros q Hq. by apply sum_lengths_nonneg. }
  assert (0 <= sumZ plan_reads ps) by (apply sumZ_nonneg, Forall_true; intros q; apply zlen_nonneg).
  eapply spends_bind; [|apply yields_any| |lia|lia].
  - unfold collect_source. pose proof (sum_lengths_nonneg _ Hp). pose proof (zlen_nonneg (rp_ranges (pln_range_plan p))).
    apply spends_then; [apply spends_fence|intros _|unfold plan_bytes; lia|unfold plan_reads; lia].
    eapply spends_mono; [eapply spends_bind; [by apply spends_fetch_ranges|apply yields_any|
      intros raw _; apply spends_match_packets|lia|lia]|unfold plan_bytes; lia|unfold plan_reads; lia].
  - intros found _. eapply spends_mono; [eapply spends_bind; [exact IH|apply yields_any|
      intros rest _; apply spends_ret|lia|lia]|lia|lia].
Qed.
End meter.

Lemma range_totals_Ok count fetched selected limits :
  _validate_request_range_totals count fetched selected limits = Ok tt ->
  count <= limits.(rpl_max_ranges) /\ fetched <= limits.(rpl_max_total_fetched_bytes).
Proof.
  unfold _validate_request_range_totals. intros (_ & Hc%raise_if_Ok & _)%bind_Ok.
  rewrite orb_false_iff, !Z.ltb_ge in Hc. done.
Qed.

(** C35: one collection never reads more than the request's limits allow,
    however it ends. For any repository in which only [read_capture_range]
    reads from the sources, whatever it answers and whichever call raises, a run
    of [collect_indexed_matches] under valid limits asks for at most
    [max_total_fetched_bytes] bytes in at most [max_ranges] ranges: nothing is
    fetched until the plans of all sources are complete and their totals
    admitted. *)
Theorem collection_within_limits (W : Type) (repository : ExportRepository W) (hooks : ExportHooks W)
    (bytes_read reads : W -> Z) (sha256_hex : bytes -> string) (fromisoformat : string -> res Z)
    (predicate : CompiledPacketPredicate) (values : list string) (snapshot : SourceSnapshot)
    (plan : PostingSelectionPlan) (scan_max_bytes scan_max_packets : Z) (range_limits : RangePlanLimits)
    (w w' : W) (r : res IndexedMatchBatch) :
  metered bytes_read reads -> RangePlanLimits_post_init range_limits = Ok tt ->
  collect_indexed_matches sha256_hex fromisoformat predicate values snapshot plan scan_max_bytes
    scan_max_packets range_limits w = (r, w') ->
  bytes_read w' - bytes_read w <= range_limits.(rpl_max_total_fetched_bytes) /\
  reads w' - reads w <= range_limits.(rpl_max_ranges).
Proof.
  intros meter Hlim. set (n := rpl_max_total_fetched_bytes range_limits). set (k := rpl_max_ranges range_limits).
  assert (0 < n /\ 0 < k) as [Hn Hk].
  { unfold RangePlanLimits_post_init in Hlim. apply raise_if_Ok in Hlim. rewrite !orb_false_iff in Hlim. lia. }
  intros Hrun. enough (spends bytes_read reads (collect_indexed_matches sha256_hex fromisoformat predicate values
    snapshot plan scan_max_bytes scan_max_packets range_limits) n k) as H by (destruct (H _ _ _ Hrun); lia).
  clear Hrun. unfold collect_indexed_matches.
  apply spends_then; [by apply spends_checks|intros _|lia|lia]. apply spends_then; [apply spends_lift|intros _|lia|lia].
  destruct (snapshot_source_kind _ _) as [kind|]; [|apply (spends_mono _ _ _ 0 0); [apply spends_lift|lia|lia]].
  apply spends_then; [apply spends_lift|intros _|lia|lia]. apply spends_then; [apply spends_lift|intros selected|lia|lia].
  apply spends_then; [apply spends_lift|intros _|lia|lia].
  apply (spends_bind _ _ _ _ totals_ok 0 0 n k); [by apply spends_plan_sources| | |lia|lia].
  { apply plan_sources_totals. constructor; [constructor|done|done]. }
  intros st [T1 T2 T3].
  apply (spends_bind _ _ _ _ (fun _ => sumZ plan_bytes st.(col_planned) <= n /\ sumZ plan_reads st.(col_planned) <= k) 0 0 n k);
    [apply spends_lift| | |lia|lia].
  { apply yields_lift. intros [] [Hc Hf]%range_totals_Ok. rewrite T2 in Hf. rewrite T3 in Hc. done. }
  intros _ [Hb Hr]. apply spends_then; [by apply spends_checks|intros _|lia|lia].
  apply spends_then; [by apply spends_fence|intros _|lia|lia].
  apply (spends_mono _ _ _ (sumZ plan_bytes st.(col_planned) + 0) (sumZ plan_reads st.(col_planned) + 0)); [|lia|lia].
  eapply spends_bind; [by apply spends_collect_sources|apply yields_any| |lia|lia]. intros records _.
  apply spends_then; [by apply spends_checks|intros _|lia|lia]. apply spends_then; [by apply spends_fence|intros _|lia|lia].
  apply spends_ret.
Qed.

Lemma counted_spends {A} n k (m : eff unit A) : spends fst snd (counted n k m) n k.
Proof. intros w r w' [= _ <-]. simpl. lia. Qed.

Lemma metered_store store : @metered _ (metered_repository store) metered_hooks fst snd.
Proof. constructor; intros; try apply counted_spends; try apply spends_ret. done. Qed.

(** The plan of the sample store, selected without the meter. *)
Definition sample_plan : option PostingSelectionPlan :=
  match @_select_analysis_posting_plan_from_snapshot _ (static_repository (sample_store PCAPNG sample_pcapng))
          zero_digest sample_fromisoformat elements sample_settings [PStr "10.0.0.0/8"]
          (sample_source_snapshot sample_pcapng) sample_filters 8 tt with
  | (Ok plan, _) => plan
  | (Err _, _) => None
  end.

Lemma collection_within_limits_witness :
  let limits := mk_range_limits 64 1024 16 4096 4 1 3 4 in
  match sample_plan, sample_predicate with
  | Some plan, Ok predicate =>
      match @collect_indexed_matches _ (metered_repository (sample_store PCAPNG sample_pcapng)) metered_hooks
              zero_digest sample_fromisoformat predicate ["10.0.0.0/8"%string] (sample_source_snapshot sample_pcapng)
              plan 4096 10 limits (0, 0) with
      | (Ok _, w) => 0 < w.1 <= 4096 /\ w.2 = 1
      | (Err _, _) => False
      end
  | _, _ => False
  end.
Proof.
  intros limits. destruct sample_plan as [plan|] eqn:Hp; [|vm_compute in Hp; discriminate Hp].
  destruct sample_predicate as [predicate|e] eqn:Hc; [|vm_compute in Hc; discriminate Hc].
  destruct (@collect_indexed_matches _ (metered_repository (sample_store PCAPNG sample_pcapng)) metered_hooks
    zero_digest sample_fromisoformat predicate ["10.0.0.0/8"%string] (sample_source_snapshot sample_pcapng)
    plan 4096 10 limits (0, 0)) as [r w] eqn:E.
  destruct (collection_within_limits _ (metered_repository (sample_store PCAPNG sample_pcapng)) metered_hooks fst snd
    zero_digest sample_fromisoformat predicate ["10.0.0.0/8"%string] (sample_source_snapshot sample_pcapng) plan 4096 10
    limits (0, 0) w r (metered_store _) eq_refl E) as [Hb _].
  vm_compute in Hp, Hc. injection Hp as <-. injection Hc as <-. vm_compute in E. injection E as <- <-.
  split; [|reflexivity]. split; [reflexivity|exact Hb].
Defined.
