(* ===== verification/SequentialProofs.v ===== *)
(** * SequentialProofs

    What a sequential scan returns: every source it read was verified in full
    against its descriptor, and its records are the matches of what the decoder
    yields on the admitted bytes. *)

From Stdlib Require Import Ascii String.
From S2P Require Import Prelude Bytes Samples Reader ReaderLogic CaptureFormat IpAddress PacketProjection StructuralIndex StructuralProofs.
From S2P Require Import ExportDecoder ExportAgreement PostingModel FlowFilter CapturePrefix BoundedCapture BoundedProofs AdmissionReader.
From S2P Require Import PostingQuery OffsetProofs PostingIndex ExportRepository StaticStore PostingPlan PlanSelection IndexedCollect CollectProofs IndexedComplete SequentialExport SessionProofs.
#[local] Open Scope Z_scope.

(** ** Exceptions that pass through the scan of a source *)

Definition escapes (e : exn) : Prop := caught (Err e) = Err e.

Lemma any_res_error {A} (f : A -> res bool) l e (P : exn -> Prop) :
  (forall a x, f a = Err x -> P x) -> any_res f l = Err e -> P e.
Proof.
  intros Hf. induction l as [|a l IH]; simpl; [done|]. destruct (f a) as [[]|x] eqn:E; simpl; [done|done|].
  intros [= <-]. by eapply Hf.
Qed.

Lemma bind_error {A B} (m : res A) (f : A -> res B) e (P : exn -> Prop) :
  (forall x, m = Err x -> P x) -> (forall a, m = Ok a -> f a = Err e -> P e) -> m ≫= f = Err e -> P e.
Proof. destruct m as [a|x]; intros H1 H2; [by apply H2|]. intros [= <-]. by apply H1. Qed.

Lemma address_error text e : ip_address_of text = Err e -> escapes e.
Proof. unfold ip_address_of. case_match; by intros [= <-]. Qed.

Lemma network_error text e : ip_network_of text = Err e -> escapes e.
Proof. unfold ip_network_of. case_match; by intros [= <-]. Qed.

Lemma internal_error value networks e : _is_internal value networks = Err e -> escapes e.
Proof.
  unfold _is_internal. apply bind_error; [apply address_error|]. intros a _. apply any_res_error.
  intros n x. apply bind_error; [apply network_error|done].
Qed.

Lemma service_port_error source destination direction sp dp networks e :
  packet_service_port source destination direction sp dp networks = Err e -> escapes e.
Proof.
  unfold packet_service_port. do 2 (case_match; [done|]). apply bind_error; [apply internal_error|]. intros a _.
  apply bind_error; [apply internal_error|]. intros b _. by case_match.
Qed.

Lemma filter_error flow nf e : _matches_filter flow nf = Err e -> escapes e.
Proof.
  unfold _matches_filter. apply bind_error; [|intros; repeat case_match; done]. intros x. case_match; [|done].
  unfold endpoint_matches. apply any_res_error. intros a y. apply bind_error; [apply address_error|done].
Qed.

(** A predicate on a decoded packet raises at worst a [ValueError]. *)
Lemma predicate_error fromisoformat predicate packet sensor_id e :
  predicate_matches fromisoformat predicate (export_fields packet) sensor_id = Err e -> escapes e.
Proof.
  unfold predicate_matches. apply bind_error; [done|]. intros ts _. do 7 (case_match; [done|]).
  unfold matches_compiled_packet_groups. cbv zeta. apply bind_error; [apply service_port_error|]. intros port _.
  apply bind_error; [intros x; case_match; [done|]; apply any_res_error, filter_error|]. intros a _.
  apply bind_error; [intros x; apply any_res_error, filter_error|done].
Qed.

Lemma item_error d key e : item d key = Err e -> escapes e.
Proof. unfold item. case_match; by intros [= <-]. Qed.

Lemma parse_networks_error vs e : parse_networks vs = Err e -> exists text, e = invalid_network text.
Proof.
  revert e. induction vs as [|v vs IH]; [done|]. intros e. simpl. case_match; [|intros [= <-]; by eexists].
  apply (bind_error _ _ _ (fun e => exists text, e = invalid_network text)); [|done].
  exact IH.
Qed.

Lemma networks_error values e : _networks values = Err e -> exists text, e = invalid_network text.
Proof.
  unfold _networks. apply (bind_error _ _ _ (fun e => exists text, e = invalid_network text)); [apply parse_networks_error|].
  intros nets _. apply (bind_error _ _ _ (fun e => exists text, e = invalid_network text)); [|done].
  intros x ->%raise_if_error. by eexists.
Qed.

(** ** Digests *)

Lemma hex_not_space c : is_Some (hex_value c) -> ascii_space c = false.
Proof.
  unfold hex_value, ascii_space. cbv zeta. intros [v Hv]. set (n := N_of_ascii c) in *. clearbody n.
  apply orb_false_iff. split; [apply andb_false_iff; right; apply N.leb_gt|apply N.eqb_neq];
    (destruct (_ && _) eqn:E1 in Hv; [lia|destruct (_ && _) eqn:E2 in Hv; [lia|destruct (_ && _) eqn:E3 in Hv; [lia|done]]]).
Qed.

Lemma fromhex_pairs n l :
  length l = (2 * n)%nat -> forallb (fun c => bool_decide (is_Some (hex_value c))) l = true -> fromhex_ok l = true.
Proof.
  revert l. induction n as [|n IH]; intros l Hl Hf; [by destruct l|].
  destruct l as [|c [|d l]]; [done|simpl in Hl; lia|]. simpl in Hf. apply andb_true_iff in Hf as [Hc Hf].
  apply andb_true_iff in Hf as [Hd Hf]. apply bool_decide_eq_true in Hc, Hd. cbn [fromhex_ok].
  rewrite hex_not_space by done. destruct Hc as [vc ->], Hd as [vd ->]. apply IH; [simpl in Hl; lia|done].
Qed.

(** A digest the manifest checks admit is one the reader takes. *)
Lemma digest_admits_init size v mb mp :
  _is_sha256_hex_digest v = true -> 0 <= size -> 1 <= mb -> 1 <= mp ->
  py_truthy v = true /\ BoundedVerifiedCapture_init size (py_str v) mb mp = Ok (mk_bounds size (str_lower (py_str v)) mb mp).
Proof.
  destruct v as [| | |s]; try done. unfold _is_sha256_hex_digest. intros [Hl%Nat.eqb_eq Hf]%andb_true_iff Hs Hb Hp. split.
  - simpl. by rewrite bool_decide_false by (by intros ->).
  - unfold BoundedVerifiedCapture_init. cbn [py_str].
    rewrite (proj2 (Z.ltb_ge size 0)), Hl, (proj2 (Z.ltb_ge mb 1)), (proj2 (Z.ltb_ge mp 1)) by done.
    rewrite (fromhex_pairs 32); [done| |done]. clear -Hl. change (2 * 32)%nat with 64%nat. rewrite <- Hl. clear. by induction s; simpl; [|f_equal].
Qed.

(** ** Scanned sources *)

Record ScannedSource : Type := mk_scanned {
  sd_descriptor : descriptor;
  sd_stored : descriptor;
  sd_content : bytes;
  sd_scan : SourceScanResult;
  sd_packets : list ExportPacket;
}.

Definition sd_outcome (s : ScannedSource) : scan_outcome :=
  (s.(sd_scan).(srr_admitted_bytes), s.(sd_scan).(srr_admitted_packets),
   s.(sd_scan).(srr_byte_limited), s.(sd_scan).(srr_packet_limited)).
Definition sd_manifest (s : ScannedSource) : string * string :=
  (field_text (s.(sd_stored) !! "id"%string), s.(sd_scan).(srr_actual_sha256)).
Definition sd_counts (s : ScannedSource) : Z := if zlen s.(sd_packets) =? 0 then 0 else 1.

Definition sd_bytes (s : ScannedSource) : Z := s.(sd_scan).(srr_admitted_bytes).
Definition sd_admitted (s : ScannedSource) : Z := s.(sd_scan).(srr_admitted_packets).
Definition sd_limited (s : ScannedSource) : bool :=
  s.(sd_scan).(srr_byte_limited) || s.(sd_scan).(srr_packet_limited).

(** The sources a scan went over within its budget: all of them, or those up to
    a limit.  [P] says what is known of one source, scanned with some bytes and
    packets already spent. *)
Inductive budget_run (scan_max_bytes scan_max_packets : Z)
    (P : Z -> Z -> Z -> descriptor * Z -> ScannedSource -> Prop)
    : Z -> Z -> Z -> list (descriptor * Z) -> list ScannedSource -> bool -> Prop :=
  | scanned_all order bytes packets : budget_run scan_max_bytes scan_max_packets P order bytes packets [] [] true
  | scanned_exhausted order bytes packets entry entries :
      scan_max_bytes <= bytes \/ scan_max_packets <= packets ->
      budget_run scan_max_bytes scan_max_packets P order bytes packets (entry :: entries) [] false
  | scanned_limited order bytes packets entry entries s :
      bytes < scan_max_bytes /\ packets < scan_max_packets ->
      P order bytes packets entry s -> sd_limited s = true ->
      budget_run scan_max_bytes scan_max_packets P order bytes packets (entry :: entries) [s] false
  | scanned_whole order bytes packets entry entries s ss complete :
      bytes < scan_max_bytes /\ packets < scan_max_packets ->
      P order bytes packets entry s -> sd_limited s = false ->
      budget_run scan_max_bytes scan_max_packets P (order + 1) (bytes + sd_bytes s) (packets + sd_admitted s)
        entries ss complete ->
      budget_run scan_max_bytes scan_max_packets P order bytes packets (entry :: entries) (s :: ss) complete.

Lemma budget_run_impl smb smp (P Q : Z -> Z -> Z -> descriptor * Z -> ScannedSource -> Prop) order bytes packets entries ss complete :
  (forall o b p e s, b < smb -> p < smp -> P o b p e s -> Q o b p e s) ->
  budget_run smb smp P order bytes packets entries ss complete -> budget_run smb smp Q order bytes packets entries ss complete.
Proof.
  intros H. induction 1 as [| |? ? ? ? ? ? []|? ? ? ? ? ? ? ? []]; [constructor|by constructor|by constructor; auto|].
  apply scanned_whole; auto.
Qed.

Section sequential.
Context {W S : Type} {ops : CaptureSource S} {lawful : LawfulSource S}.
Context {repository : SequentialRepository W S} {hooks : ProgressHooks W}.
Context (sha256_hex : bytes -> string) (fromisoformat : string -> res Z) (fuel : nat).
Context (predicate : CompiledPacketPredicate) (values : list string).
Context (source_job_id : string) (scan_max_bytes scan_max_packets : Z).

(** The progress callback raises only what no scan handles. *)
Definition callback_passes : Prop :=
  forall phase n w e w', checkpoint phase n w = (Err e, w') -> escapes e.

(** A source the repository handed out. *)
Definition opened (s : S) : Prop :=
  (exists id w w', open_job_capture id w = (Ok (Some s), w')) \/
  (exists id d w w', open_sensor_pcap id w = (Ok (Some (d, s)), w')).

Hypothesis passes : callback_passes.
Hypothesis enough_fuel : forall s, opened s -> (length (source_content s) < fuel)%nat.

(** ** The body of the packet loop *)

Lemma match_scanned_Ok stored before n packet w found w' :
  match_scanned fromisoformat predicate stored before n packet w = (Ok found, w') ->
  found = match_record fromisoformat predicate (sensor_of stored) packet.
Proof.
  unfold match_scanned, match_record, sensor_of, field_text, mbind, eff_bind.
  destruct (if n mod 256 =? 0 then _ else _) as [[[]|e] w1]; [|done]. unfold item, eff_lift.
  destruct (pp_supported _); [|by intros [= <- _]]. destruct (stored !! "sensor_id"%string) as [v|]; [|done].
  destruct (predicate_matches _ _ _ _) as [b|e]; [|done]. intros [= <- _]. simpl. by destruct b.
Qed.

Lemma match_scanned_error stored before e :
  handler_raises (match_scanned fromisoformat predicate stored before) e -> escapes e.
Proof.
  intros (n & packet & w & w' & H). revert H. unfold match_scanned, mbind, eff_bind.
  destruct (if n mod 256 =? 0 then _ else _) as [[[]|x] w1] eqn:Ec; cycle 1.
  { intros [= <- _]. destruct (n mod 256 =? 0); [by eapply passes|done]. }
  destruct (pp_supported _); [|done]. unfold eff_lift. destruct (item stored _) as [v|x] eqn:Ei; [|intros [= <- _]; by eapply item_error].
  destruct (predicate_matches _ _ _ _) as [b|x] eqn:Ep; [done|]. intros [= <- _]. by eapply predicate_error.
Qed.

(** ** One session *)

(** A verified scan of the capture [c]: what was handed out and what the decoder
    made of any capture that agrees with it. *)
Record session_scanned (c : bytes) (bounds : CaptureBounds) (decoder : prog ExportPacket unit) (sensor_id : string)
    (k0 : SessionCursor S) (scan : SourceScanResult) (seen : Z) (found : list MatchedPacketRecord)
    (k : SessionCursor S) (out : bytes) (packets : list ExportPacket) (r : res unit) : Prop := {
  sn_authentic : authentic sha256_hex c bounds;
  sn_commits : commits sha256_hex c k.(ses_state).(bs_frame) scan;
  sn_at : at_session c bounds out k;
  sn_extends : extends c bounds [] k0 out k;
  sn_seen : seen = zlen packets;
  sn_found : found = matching fromisoformat predicate sensor_id packets;
  sn_verdict : exists parse_error, caught r = Ok parse_error /\ fatal_parse_error parse_error scan = None;
  sn_run : forall X, agrees X out k ->
    run decoder (mem_at X 0) = (packets, r, mem_at X (zlen out)) /\ (eof_seen decoder (mem_at X 0) -> ended k);
}.

Lemma handled_matching stored before packets founds :
  Forall2 (handled (match_scanned fromisoformat predicate stored before)) packets founds ->
  concat founds = matching fromisoformat predicate (sensor_of stored) packets.
Proof.
  induction 1 as [|packet found packets founds (n & w & w' & H) _ IH]; [done|].
  unfold matching in *. simpl. rewrite IH. by rewrite (match_scanned_Ok _ _ _ _ _ _ _ H).
Qed.

Lemma run_session_Ok s bounds stored before decoder w scan seen found w' :
  bounds_ok bounds -> opened s -> sizes_ok decoder ->
  run_session bounds (match_scanned fromisoformat predicate stored before) sha256_hex fuel decoder (new_bounded s) w
    = (Ok (scan, seen, found), w') ->
  exists k out packets r, session_scanned (source_content s) bounds decoder (sensor_of stored)
    (mk_session (new_bounded s) 0) scan seen found k out packets r.
Proof.
  intros Hb Ho Hd Hrun. set (c := source_content s) in *.
  destruct (new_bounded_ok c bounds s Hb eq_refl) as [Hp Hs].
  assert (at_session c bounds [] (mk_session (new_bounded s) 0)) as Hk by done.
  pose proof (consume_spec c bounds Hb (match_scanned fromisoformat predicate stored before) decoder [] _ 0 [] w Hd Hk) as Hc.
  unfold run_session, scan_session in Hrun.
  destruct (consume _ _ _ _ _ _ _) as [[[[r k] seen'] found'] w1]. unfold consume_ends in Hc.
  destruct (caught r) as [parse_error|e] eqn:Hr; [|done]. unfold finish_session in Hrun.
  destruct Hc as [(e & -> & Hf)|[(e & -> & He & _)|(more & -> & Hcons)]].
  - destruct (verify_failed sha256_hex bounds fuel e _ Hf) as [st' Hv]. rewrite Hv in Hrun.
    destruct Hf as (_ & _ & _ & text & ->). done.
  - apply match_scanned_error in He. unfold escapes in He. congruence.
  - destruct Hcons as (packets & founds & out & H1 & H2 & H3 & -> & H5 & H6).
    pose proof (verify_spec sha256_hex c bounds fuel k.(ses_state) (proj1 H1) (enough_fuel s Ho)) as Hv.
    destruct (drain_and_verify _ _ _ _) as [[scan'|e] st']; [|by destruct e; destruct Hv as [[? ?] _]].
    destruct Hv as [Ha Hcom]. destruct (fatal_parse_error parse_error scan') eqn:Hfatal; [done|].
    injection Hrun as <- <- <- _. exists k, out, packets, r. constructor; try done.
    + rewrite Z.sub_0_r in H3. done.
    + simpl. by eapply handled_matching.
    + by exists parse_error.
Qed.

(** ** A budget below the header of a capture *)

Definition starved_frame (bounds : CaptureBounds) : FrameState :=
  with_stopped (with_byte_limited (0 <? bounds.(cb_expected_size)) new_frame).

Definition starved (bounds : CaptureBounds) (s : S) : BoundedState S :=
  mk_bstate s [] 0 (starved_frame bounds) false None None.

(** The session ends at the first read. *)
Lemma starved_consume bounds s (on_packet : Z -> ExportPacket -> eff W (list MatchedPacketRecord)) id order networks w :
  bounds.(cb_max_bytes) < 24 ->
  consume bounds on_packet (export_capture id order networks fuel) (mk_session (new_bounded s) 0) 0 [] w
    = ((Err not_a_capture, mk_session (starved bounds s) 0, 0, []), w).
Proof.
  intros Hb. assert (_read_admitted bounds (Some 4) (new_bounded s) = (Ok [], starved bounds s)) as Hread.
  { transitivity (read_admitted_loop bounds 7 4 [] (new_bounded s)); [done|]. cbn [read_admitted_loop].
    change (zlen [] <? 4) with true. cbn iota. unfold mbind at 1, method_bind at 1.
    assert (_prepare bounds (new_bounded s) = (Ok tt, starved bounds s)) as ->; [|done].
    unfold _prepare, mbind, method_bind, get_frame, new_bounded. cbn -[_prepare_initial]. unfold _prepare_initial.
    by rewrite (proj2 (Z.ltb_lt _ _) Hb). }
  unfold export_capture, open_magic. unfold session_read_exact. cbn -[_read_admitted].
  unfold session_read_exact. change (Datatypes.S (Z.to_nat 4)) with 5%nat. cbn [session_read_loop].
  change (4 =? 0) with false. cbn [ses_state]. by rewrite Hread.
Qed.

Lemma source_decoder_capture stored order id networks :
  item stored "id" = Ok id -> _networks values = Ok networks ->
  source_decoder fuel values stored order = export_capture (py_str id) order networks fuel.
Proof. intros Hid Hn. unfold source_decoder. by rewrite Hid, Hn. Qed.

(** Such a session rejects every source. *)
Lemma starved_session bounds s stored before order w x w' :
  run_session bounds (match_scanned fromisoformat predicate stored before) sha256_hex fuel
    (source_decoder fuel values stored order) (new_bounded s) w = (Ok x, w') -> 24 <= bounds.(cb_max_bytes).
Proof.
  destruct (Z.lt_ge_cases bounds.(cb_max_bytes) 24) as [Hb|Hb]; [|done].
  assert (forall code m st, code <> "EMPTY_PCAP"%string -> exists e st',
    finish_session bounds sha256_hex fuel (Some (PcapParseError m code)) st = (Err e, st')) as Hfinish.
  { intros code m st Hcode. unfold finish_session. destruct (drain_and_verify _ _ _ _) as [[scan|e] st'].
    - simpl. rewrite bool_decide_false by done. simpl. by eexists _, _.
    - destruct e; by eexists _, _. }
  unfold run_session, scan_session. destruct (item stored "id") as [id|e] eqn:Hid.
  - destruct (_networks values) as [networks|e] eqn:Hn.
    + rewrite (source_decoder_capture _ _ _ _ Hid Hn), starved_consume by done. unfold not_a_capture, parse_error, caught.
      edestruct Hfinish as (e & st' & ->); [|done]. done.
    + assert (source_decoder fuel values stored order = Raise e) as -> by (unfold source_decoder; by rewrite Hid, Hn).
      destruct (networks_error _ _ Hn) as [text ->]. unfold invalid_network, caught, consume.
      edestruct Hfinish as (e & st' & ->); [|done]. done.
  - assert (source_decoder fuel values stored order = Raise e) as -> by (unfold source_decoder; by rewrite Hid).
    apply item_error in Hid. unfold escapes in Hid. cbn [consume]. by rewrite Hid.
Qed.

(** ** One source *)

Lemma sizes_source_decoder stored order : sizes_ok (source_decoder fuel values stored order).
Proof.
  unfold source_decoder. apply sizes_lift_bind. intros id _. apply sizes_lift_bind. intros networks _.
  apply sizes_export_capture.
Qed.

(** A decoder that ran without an escaping or a fatal error had an id and networks. *)
Lemma source_decoder_run stored order X packets r m parse_error scan :
  run (source_decoder fuel values stored order) (mem_at X 0) = (packets, r, m) ->
  caught r = Ok parse_error -> fatal_parse_error parse_error scan = None ->
  exists id networks, item stored "id" = Ok id /\ _networks values = Ok networks /\
    source_decoder fuel values stored order = export_capture (py_str id) order networks fuel.
Proof.
  unfold source_decoder. destruct (item stored "id") as [id|e] eqn:Hid.
  - destruct (_networks values) as [networks|e] eqn:Hn; [intros _ _ _; by exists id, networks|].
    destruct (networks_error _ _ Hn) as [text ->]. cbn. intros [= _ <- _] [= <-]. done.
  - cbn. intros [= _ <- _] Hc. apply item_error in Hid. unfold escapes in Hid. congruence.
Qed.

Definition sd_records (s : ScannedSource) : list MatchedPacketRecord :=
  matching fromisoformat predicate (sensor_of s.(sd_stored)) s.(sd_packets).

(** A source scanned with [bytes] and [packets] of the budget already spent. *)
Definition source_scanned (order bytes packets : Z) (entry : descriptor * Z) (s : ScannedSource) : Prop :=
  exists source bounds k out r,
    s.(sd_descriptor) = entry.1 /\ s.(sd_content) = source_content source /\ opened source /\
    (exists w w', open_retained source_job_id entry.1 entry.2 w = (Ok (s.(sd_stored), source), w')) /\
    BoundedVerifiedCapture_init entry.2 (py_str (field entry.1 "sha256")) (scan_max_bytes - bytes)
      (scan_max_packets - packets) = Ok bounds /\
    24 <= bounds.(cb_max_bytes) /\
    is_Some (s.(sd_stored) !! "id"%string) /\
    session_scanned s.(sd_content) bounds (source_decoder fuel values s.(sd_stored) order) (sensor_of s.(sd_stored))
      (mk_session (new_bounded source) 0) s.(sd_scan) (zlen s.(sd_packets)) (sd_records s) k out s.(sd_packets) r.

Lemma open_retained_opened d size w stored source w' :
  open_retained source_job_id d size w = (Ok (stored, source), w') -> opened source.
Proof.
  unfold open_retained, mbind, eff_bind. destruct (checkpoint _ _ w) as [[[]|e] w1]; [|done].
  case_bool_decide.
  - destruct (open_job_capture _ w1) as [[[s|]|e] w2] eqn:E; [|done..]. intros [= _ <- _]. left. by eexists _, _, _.
  - unfold eff_lift. destruct (item d "id") as [id|e]; [|done].
    destruct (open_sensor_pcap _ w1) as [[[[st s]|]|e] w2] eqn:E; [|done..].
    destruct (segment_matches _ _ _ _) as [[]|e]; [|done]. intros [= _ <- _]. right. by eexists _, _, _, _.
Qed.

Lemma stream_source_Ok order d size st w stored scan seen found w' :
  stream_source sha256_hex fromisoformat fuel predicate values source_job_id scan_max_bytes scan_max_packets order d size st w
    = (Ok (stored, (scan, seen, found)), w') ->
  exists s, source_scanned order st.(sq_scanned_bytes) (scan_max_packets - st.(sq_remaining_packets)) (d, size) s /\
    s.(sd_stored) = stored /\ s.(sd_scan) = scan /\ zlen s.(sd_packets) = seen /\ sd_records s = found.
Proof.
  unfold stream_source, mbind at 1, eff_bind at 1. destruct (eff_raise_if _ _ w) as [[[]|e] w1]; [|done].
  unfold mbind at 1, eff_bind at 1. destruct (open_retained _ _ _ w1) as [[[stored' source]|e] w2] eqn:Ho; [|done].
  pose proof (open_retained_opened _ _ _ _ _ _ Ho) as Hop.
  unfold open_bounded_verified_capture. destruct (BoundedVerifiedCapture_init _ _ _ _) as [bounds|e] eqn:Hi; [|done].
  cbn. destruct (init_bounds_ok _ _ _ _ _ Hi) as [Hb _].
  unfold mbind, eff_bind, eff_lift. cbn beta iota.
  match goal with |- context [run_session ?b ?f ?h ?n ?p ?x w2] =>
    destruct (run_session b f h n p x w2) as [[[[scan' seen'] found']|e] w3] eqn:Hr; [|done] end.
  intros [= <- <- <- <- _].
  destruct (run_session_Ok source bounds stored' _ _ _ _ _ _ _ Hb Hop (sizes_source_decoder _ _) Hr) as (k & out & packets & r & Hs).
  pose proof Hs as [_ _ _ _ -> -> (pe & Hc & Hf) Hrun]. exists (mk_scanned d stored' (source_content source) scan' packets).
  split_and!; try done. exists source, bounds, k, out, r. simpl.
  replace (scan_max_packets - (scan_max_packets - sq_remaining_packets st)) with (sq_remaining_packets st) by lia.
  split_and!; try done; [by eexists _, _|by eapply starved_session|].
  destruct (Hrun out) as [Hout _]; [split; [exists []; by rewrite app_nil_r|done]|].
  destruct (source_decoder_run _ _ _ _ _ _ _ _ Hout Hc Hf) as (id & ? & Hid & _).
  unfold item in Hid. destruct (stored' !! _); [by eexists|done].
Qed.

(** ** The loop over the sources *)

#[local] Abbreviation scanned_run := (budget_run scan_max_bytes scan_max_packets source_scanned).

(** The totals of the loop follow from the scanned sources. *)
Record scan_result (st : SequentialScan) (n : nat) (ss : list ScannedSource) (st' : SequentialScan) : Prop := {
  sr_records : st'.(sq_records) = st.(sq_records) ++ concat (sd_records <$> ss);
  sr_manifest : st'.(sq_source_manifest) = st.(sq_source_manifest) ++ (sd_manifest <$> ss);
  sr_bytes : st'.(sq_scanned_bytes) = st.(sq_scanned_bytes) + sumZ sd_bytes ss;
  sr_remaining : st'.(sq_remaining_packets) = st.(sq_remaining_packets) - sumZ sd_admitted ss;
  sr_sources : st'.(sq_scanned_sources) = st.(sq_scanned_sources) + sumZ sd_counts ss;
  sr_truncation : st'.(sq_truncation) = st.(sq_truncation) ++
    truncation_reasons scan_max_packets st.(sq_scanned_bytes) (scan_max_packets - st.(sq_remaining_packets)) n
      (sd_outcome <$> ss);
}.

Lemma scan_result_limit st n :
  scan_result st (Datatypes.S n) [] (truncated_by (if st.(sq_remaining_packets) <? 1
    then "SOURCE_PACKET_LIMIT" else "SOURCE_BYTE_LIMIT") st).
Proof.
  constructor; simpl; rewrite ?app_nil_r; cbn; try lia; try done.
  by replace (scan_max_packets - (scan_max_packets - sq_remaining_packets st)) with (sq_remaining_packets st) by lia.
Qed.

(** The state after one source. *)
Definition after_source (st : SequentialScan) (s : ScannedSource) : SequentialScan :=
  mk_scan (st.(sq_records) ++ sd_records s) (st.(sq_source_manifest) ++ [sd_manifest s])
    (st.(sq_scanned_bytes) + sd_bytes s) (st.(sq_remaining_packets) - sd_admitted s)
    (st.(sq_scanned_sources) + sd_counts s)
    (st.(sq_truncation) ++ (if s.(sd_scan).(srr_byte_limited) then ["SOURCE_BYTE_LIMIT"%string] else [])
      ++ (if s.(sd_scan).(srr_packet_limited) then ["SOURCE_PACKET_LIMIT"%string] else [])).

Lemma after_source_result st s n ss st' :
  (if sd_limited s then ss = [] /\ st' = after_source st s else scan_result (after_source st s) n ss st') ->
  scan_result st (Datatypes.S n) (s :: ss) st'.
Proof.
  unfold sd_limited. intros H. destruct (_ || _) eqn:E.
  - destruct H as [-> ->]. constructor; cbn; rewrite ?E, ?app_nil_r; unfold sumZ; simpl; try lia; done.
  - apply orb_false_iff in E as [E1 E2]. destruct H as [H1 H2 H3 H4 H5 H6]. cbn in *. rewrite E1, E2 in *. cbn in *.
    constructor; rewrite ?sumZ_cons; cbn.
    + by rewrite H1, <- app_assoc.
    + by rewrite H2, <- app_assoc.
    + lia.
    + lia.
    + lia.
    + rewrite H6, E1, E2, app_nil_r. cbn. do 2 f_equal. unfold sd_admitted. lia.
Qed.

Lemma stream_sources_Ok entries : forall order st w st' w',
  stream_sources sha256_hex fromisoformat fuel predicate values source_job_id scan_max_bytes scan_max_packets order
    entries st w = (Ok st', w') ->
  exists ss complete,
    scanned_run order st.(sq_scanned_bytes) (scan_max_packets - st.(sq_remaining_packets)) entries ss complete /\
    scan_result st (length entries) ss st'.
Proof.
  induction entries as [|[d size] entries IH]; intros order st w st' w' H; cbn [stream_sources] in H.
  { injection H as <- _. exists [], true. split; [constructor|]. constructor; cbn; rewrite ?app_nil_r; try lia; done. }
  pose proof (scan_result_limit st (length entries)) as Hlimit.
  destruct (Z.ltb_spec (sq_remaining_packets st) 1) as [Hp|Hp].
  { injection H as <- _. exists [], false. split; [constructor; lia|done]. }
  destruct (Z.ltb_spec (scan_max_bytes - sq_scanned_bytes st) 1) as [Hb|Hb].
  { injection H as <- _. exists [], false. split; [constructor; lia|done]. }
  clear Hlimit. unfold mbind at 1, eff_bind at 1 in H.
  destruct (stream_source _ _ _ _ _ _ _ _ _ _ _ _ w) as [[[stored [[scan seen] found]]|e] w1] eqn:Hs; [|done].
  apply stream_source_Ok in Hs as (s & Hs & <- & <- & <- & <-).
  assert (exists id, item s.(sd_stored) "id" = Ok id /\ py_str id = field_text (s.(sd_stored) !! "id"%string)) as (id & Hid & Hfield).
  { destruct Hs as (? & ? & ? & ? & ? & _ & _ & _ & _ & _ & _ & [v Hv] & _). exists v. unfold item. by rewrite Hv. }
  unfold mbind, eff_bind, eff_lift in H. rewrite Hid in H. cbv beta iota zeta in H. rewrite Hfield in H.
  assert (mk_scan (sq_records st ++ sd_records s) (sq_source_manifest st ++ [(field_text (sd_stored s !! "id"%string), srr_actual_sha256 (sd_scan s))])
    (sq_scanned_bytes st + srr_admitted_bytes (sd_scan s)) (sq_remaining_packets st - srr_admitted_packets (sd_scan s))
    (if zlen (sd_packets s) =? 0 then sq_scanned_sources st else sq_scanned_sources st + 1)
    (sq_truncation st ++ (if srr_byte_limited (sd_scan s) then ["SOURCE_BYTE_LIMIT"%string] else []) ++
      (if srr_packet_limited (sd_scan s) then ["SOURCE_PACKET_LIMIT"%string] else [])) = after_source st s) as Hst.
  { unfold after_source, sd_counts, sd_manifest, sd_bytes, sd_admitted. f_equal. destruct (_ =? 0); lia. }
  rewrite Hst in H. destruct (sd_limited s) eqn:Hlim; unfold sd_limited in Hlim; rewrite Hlim in H.
  - injection H as <- _. exists [s], false. split; [constructor; [lia|done..]|].
    apply after_source_result. unfold sd_limited. by rewrite Hlim.
  - apply IH in H as (ss & complete & Hrun & Hres). exists (s :: ss), complete. split.
    + constructor; [lia|done|done|]. cbn in Hrun.
      by replace (scan_max_packets - sq_remaining_packets st + sd_admitted s) with (scan_max_packets - (sq_remaining_packets st - sd_admitted s)) by lia.
    + apply after_source_result. unfold sd_limited. by rewrite Hlim.
Qed.

Lemma sequential_export_Ok descriptors w st w' :
  sequential_export sha256_hex fromisoformat fuel predicate values source_job_id scan_max_bytes scan_max_packets
    descriptors w = (Ok st, w') ->
  exists sizes ss complete, declared_source_sizes descriptors = Ok sizes /\
    scanned_run 0 0 0 (zip descriptors sizes) ss complete /\
    scan_result (mk_scan [] [] 0 scan_max_packets 0 []) (length (zip descriptors sizes)) ss st.
Proof.
  unfold sequential_export, mbind, eff_bind, eff_lift. destruct (declared_source_sizes descriptors) as [sizes|e]; [|done].
  intros H. apply stream_sources_Ok in H as (ss & complete & Hrun & Hres). cbn in Hrun. rewrite Z.sub_diag in Hrun.
  by exists sizes, ss, complete.
Qed.

(** ** What is certain of a scanned source *)

(** How the decoder ended: at the end of the admitted bytes, or on a capture that
    a limit left without packets. *)
Definition tolerated (s : ScannedSource) (r : res unit) : Prop :=
  r = Ok tt \/
  sd_limited s = true /\ sd_admitted s = 0 /\ exists message, r = Err (PcapParseError message "EMPTY_PCAP").

Record verified_source (order bytes packets : Z) (entry : descriptor * Z) (s : ScannedSource) : Prop := {
  vs_opened : exists source w w', open_retained source_job_id entry.1 entry.2 w = (Ok (s.(sd_stored), source), w') /\
    source_content source = s.(sd_content);
  vs_size : zlen s.(sd_content) = entry.2;
  vs_digest : sha256_hex s.(sd_content) = str_lower (py_str (field entry.1 "sha256"));
  vs_committed : s.(sd_scan).(srr_actual_sha256) = sha256_hex s.(sd_content);
  vs_admitted : 0 <= sd_bytes s <= zlen s.(sd_content);
  vs_budget : bytes + sd_bytes s <= scan_max_bytes /\ packets + sd_admitted s <= scan_max_packets;
  vs_decoded : exists r,
    export_packets fuel {| bio_data := ztake (sd_bytes s) s.(sd_content) |}
      (field_text (s.(sd_stored) !! "id"%string)) order values = (s.(sd_packets), r) /\ tolerated s r;
}.

(** What was handed out is a prefix of the source, within the bounds. *)
Lemma session_prefix c bounds out (k : SessionCursor S) :
  bounds.(cb_expected_size) = zlen c -> at_session c bounds out k ->
  ztake (zlen out) c = out /\ zlen out <= zlen c /\ zlen out <= bounds.(cb_max_bytes) /\
  k.(ses_state).(bs_frame).(fs_admitted_bytes) = zlen out /\
  k.(ses_state).(bs_frame).(fs_admitted_packets) <= bounds.(cb_max_packets).
Proof.
  intros Hsize (Hp & Hs & _). pose proof Hs as [Ha (mid & Hh & _) Hr _ Hbytes Hpk _ _ _].
  destruct Hp as [Hc _]. rewrite Hh, <- !app_assoc in Hc. subst c.
  pose proof (zlen_nonneg (fs_pending (bs_frame (ses_state k)))). rewrite !zlen_app in *.
  pose proof (zlen_nonneg mid). pose proof (zlen_nonneg (source_content (bs_source (ses_state k)))).
  split_and!; [by rewrite ztake_app_exact|lia| |done|].
  - unfold oversized in Hbytes. destruct (Z.ltb_spec (cb_max_bytes bounds) (cb_expected_size bounds)); [|lia].
    specialize (Hbytes eq_refl). lia.
  - destruct (fs_unit_is_packet _); simpl in Hpk; lia.
Qed.

Lemma tolerated_verdict scan parse_error r :
  (forall text, r <> Err (CaptureIntegrityError text)) ->
  caught r = Ok parse_error -> fatal_parse_error parse_error scan = None ->
  r = Ok tt \/
  (scan.(srr_byte_limited) || scan.(srr_packet_limited) = true /\ scan.(srr_admitted_packets) = 0 /\
   exists message, r = Err (PcapParseError message "EMPTY_PCAP")).
Proof.
  intros Hr Hc Hf. destruct r as [[]|e]; [by left|right]. destruct e; try discriminate Hc; [|exfalso; by eapply Hr].
  injection Hc as <-. simpl in Hf. case_bool_decide as Hcode; [|done]. simpl in Hf. destruct (Z.eqb_spec (srr_admitted_packets scan) 0); [|done].
  destruct (_ || _) eqn:E; [|done]. subst. split_and!; [done|done|]. by eexists.
Qed.

Lemma source_scanned_verified order bytes packets entry s :
  source_scanned order bytes packets entry s -> verified_source order bytes packets entry s.
Proof.
  intros (source & bounds & k & out & r & _ & Hcontent & Hop & (w & w' & Hopen) & Hinit & _ & [id Hid] & Hs).
  destruct (init_bounds_ok _ _ _ _ _ Hinit) as [Hb ->]. pose proof Hs as [[Hsize Hdig] Hcom Hat _ _ _ (pe & Hcaught & Hfatal) Hrun].
  destruct Hcom as (Cb & Cp & Cbl & Cpl & _ & Csha). cbn [cb_expected_size cb_expected_sha256] in *.
  destruct (fun H => session_prefix _ _ _ _ H Hat) as (Htake & Hle & Hmax & Hab & Hap); [done|]. cbn in Hmax, Hap.
  destruct (Hrun out) as [Hout _]; [split; [exists []; by rewrite app_nil_r|done]|].
  destruct (source_decoder_run _ _ _ _ _ _ _ _ Hout Hcaught Hfatal) as (id' & networks & Hid' & Hnet & Hdec).
  unfold item in Hid'. rewrite Hid in Hid'. injection Hid' as <-. rewrite Hdec in Hout.
  pose proof (zlen_nonneg out). constructor; try done; unfold sd_bytes, sd_admitted.
  - by exists source, w, w'.
  - lia.
  - lia.
  - exists r. rewrite Cb, Hab, Htake, (export_packets_run _ _ _ _ _ networks Hnet), Hid.
    change (field_text (Some id)) with (py_str id). change (mk_mem _ 0) with (mem_at out 0). rewrite Hout. split; [done|].
    unfold tolerated, sd_limited, sd_admitted. eapply tolerated_verdict; [|done|done]. intros text ->.
    assert (zlen out < Z.of_nat fuel) as Hfuel by (specialize (enough_fuel _ Hop); rewrite <- Hcontent in enough_fuel; unfold zlen in *; lia).
    pose proof (wp_fuel_export_capture out (py_str id) order networks fuel Hfuel) as Hwp.
    unfold wp in Hwp. by rewrite Hout in Hwp.
Qed.
End sequential.

(** C37: a sequential export is verified and exact. When [PcapExportExecutor]
    returns from the scan of its retained sources, every source it scanned was
    read to its end and has the size and the SHA-256 digest its descriptor
    declares; the bytes it admitted are a prefix of that source; all admitted
    bytes and packets together stay within the limits of the scan; the records
    are, source after source in the order of the descriptors, the matches among
    the packets the export decoder yields on exactly those admitted bytes, and
    the counters and the manifest of the export are those of the same sources.
    The scan goes on to the next source only if no limit cut the previous one,
    and the decoder may have failed only on a capture a limit left without
    packets. Provided the progress callback raises nothing the scan would take
    for its own and the fuel exceeds the length of the sources. *)
Theorem sequential_export_verified (W S : Type) (ops : CaptureSource S) (lawful : LawfulSource S)
    (repository : SequentialRepository W S) (hooks : ProgressHooks W)
    (sha256_hex : bytes -> string) (fromisoformat : string -> res Z) (fuel : nat)
    (predicate : CompiledPacketPredicate) (values : list string) (source_job_id : string)
    (scan_max_bytes scan_max_packets : Z) (descriptors : list descriptor) (w w' : W) (st : SequentialScan) :
  callback_passes (W := W) -> (forall s : S, opened (W := W) s -> (length (source_content s) < fuel)%nat) ->
  sequential_export sha256_hex fromisoformat fuel predicate values source_job_id scan_max_bytes scan_max_packets
    descriptors w = (Ok st, w') ->
  exists sizes ss complete, declared_source_sizes descriptors = Ok sizes /\
    budget_run scan_max_bytes scan_max_packets
      (verified_source (W := W) (S := S) sha256_hex fuel values source_job_id scan_max_bytes scan_max_packets)
      0 0 0 (zip descriptors sizes) ss complete /\
    st.(sq_records) = concat (sd_records fromisoformat predicate <$> ss) /\
    st.(sq_source_manifest) = sd_manifest <$> ss /\
    st.(sq_scanned_bytes) = sumZ sd_bytes ss /\
    scan_max_packets - st.(sq_remaining_packets) = sumZ sd_admitted ss /\
    st.(sq_scanned_sources) = sumZ sd_counts ss /\
    (st.(sq_truncation) = [] <-> complete = true).
Proof.
  intros Hpass Hfuel H. apply (sequential_export_Ok _ _ _ _ _ _ _ _ Hpass Hfuel) in H as (sizes & ss & complete & Hsizes & Hrun & [R1 R2 R3 R4 R5 R6]).
  exists sizes, ss, complete. split; [done|]. split; [|cbn in *; split_and!; try done; try lia].
  - eapply budget_run_impl; [|exact Hrun]. intros o b p e s _ _ Hs. by eapply source_scanned_verified.
  - rewrite R6. revert Hrun. generalize 0 at 2 4 as bytes. rewrite Z.sub_diag. generalize 0 at 2 3 as packets.
    generalize 0 as order. intros order packets bytes. clear. induction 1 as [| |? ? ? ? ? s _ _ Hl|? ? ? ? ? s ? ? _ _ Hl _ IH]; cbn; [done|done| |].
    + unfold sd_limited in Hl. by destruct (srr_byte_limited _), (srr_packet_limited _).
    + unfold sd_limited in Hl. apply orb_false_iff in Hl as [-> ->]. exact IH.
Qed.

(** C39: a source that meets fewer than 24 bytes of the scan budget is rejected.
    However genuine the retained source is (it opens, its reads and its close
    never fail, and it has the size and the digest of its descriptor, whatever
    its bytes are), when between 1 and 23 bytes of the budget and at least one
    packet are left the admission reader hands out nothing, the decoder takes the
    empty stream for something that is no capture, and the export ends with the
    client error 422 INVALID_PCAP. Provided the stored entry has an id, the
    networks parse and the fuel exceeds the length of the source. For a classic
    capture with its 24-byte header, the prefix builder of the other pipeline
    reports a truncation by the byte limit for the same bytes and budget. (For a
    PCAPNG capture whose first block fits the budget it would admit that
    block.) *)
Theorem starved_source_rejected (W S : Type) (ops : CaptureSource S) (lawful : LawfulSource S)
    (repository : SequentialRepository W S) (hooks : ProgressHooks W)
    (sha256_hex : bytes -> string) (fromisoformat : string -> res Z) (fuel : nat)
    (predicate : CompiledPacketPredicate) (values : list string) (source_job_id : string)
    (scan_max_bytes scan_max_packets order size : Z) (d stored : descriptor) (id : py_scalar)
    (networks : list ip_network) (source : S) (st : SequentialScan) (w w' : W) :
  BoundedProofs.reliable (S := S) -> closes (S := S) ->
  1 <= scan_max_bytes - st.(sq_scanned_bytes) < 24 -> 1 <= st.(sq_remaining_packets) ->
  _is_sha256_hex_digest (field d "sha256") = true ->
  open_retained source_job_id d size w = (Ok (stored, source), w') ->
  item stored "id" = Ok id -> _networks values = Ok networks ->
  zlen (source_content source) = size ->
  sha256_hex (source_content source) = str_lower (py_str (field d "sha256")) ->
  (length (source_content source) < fuel)%nat ->
  stream_source sha256_hex fromisoformat fuel predicate values source_job_id scan_max_bytes scan_max_packets
    order d size st w
    = (Err (ApiError 422 "INVALID_PCAP" "file is not a classic PCAP or PCAPNG capture"), w') /\
  (is_Some (CLASSIC_MAGIC (ztake 4 (source_content source))) -> 24 <= size ->
   bounded_pcap_prefix (source_content source) (scan_max_bytes - st.(sq_scanned_bytes)) (Some st.(sq_remaining_packets))
     = Ok (mk_prefix [] 0 0 true false)).
Proof.
  intros Hrel Hclose Hb Hp Hdig Hopen Hid Hnet Hlen Hsha Hfuel. pose proof (zlen_nonneg (source_content source)) as Hpos.
  destruct (digest_admits_init size (field d "sha256") (scan_max_bytes - st.(sq_scanned_bytes)) st.(sq_remaining_packets))
    as [Htruthy Hinit]; [done|lia..|]. set (bounds := mk_bounds _ _ _ _) in Hinit. split.
  - unfold stream_source, mbind, eff_bind. rewrite Htruthy. unfold eff_raise_if, eff_lift. cbn [negb raise_if].
    rewrite Hopen. unfold open_bounded_verified_capture. rewrite Hinit. cbn [fst].
    unfold run_session, scan_session. rewrite (source_decoder_capture _ _ _ _ _ _ Hid Hnet), starved_consume by (simpl; lia).
    unfold finish_session. cbn [caught not_a_capture parse_error ses_state].
    assert (phys (source_content source) (starved bounds source)) as Hphys by by repeat split.
    pose proof (verify_spec sha256_hex (source_content source) bounds fuel _ Hphys Hfuel) as Hv.
    destruct (drain_and_verify _ _ _ _) as [[scan|e] st'].
    + done.
    + destruct Hv as [_ Hna]. by destruct Hna.
  - intros [er Hmagic] Hsize. unfold bounded_pcap_prefix. rewrite Hmagic, (proj2 (Z.ltb_ge (scan_max_bytes - _) 1)), (proj2 (Z.ltb_ge (sq_remaining_packets st) 1)) by lia.
    destruct er as [e r]. cbn [raise_if mbind res_bind]. rewrite (proj2 (Z.ltb_ge (zlen _) 24)), (proj2 (Z.ltb_lt (scan_max_bytes - _) 24)) by lia. done.
Qed.

(** ** The sample capture, streamed *)

Definition sample_sources (data : bytes) : SequentialRepository unit BlobSource := {|
  open_job_capture _ := mret (Some (mk_blob data 6));
  open_sensor_pcap _ := mret None;
|}.

Definition quiet_progress : ProgressHooks unit := {| checkpoint _ _ := mret tt |}.

Definition sample_descriptors (data : bytes) : list descriptor :=
  source_descriptors (PStr "canonical_capture") [sample_descriptor data] "job" "sensor".

Lemma sample_sources_fuel s : opened (repository := sample_sources sample_pcapng) s -> (length (source_content s) < 400)%nat.
Proof.
  intros [(id & w & w' & H)|(id & d & w & w' & H)]; [|done]. injection H as <- _. vm_compute. lia.
Qed.

Definition sample_sequential (scan_max_bytes scan_max_packets : Z) : res SequentialScan :=
  predicate ← compile_packet_predicate sample_fromisoformat sample_filters sample_values;
  (sequential_export (repository := sample_sources sample_pcapng) (hooks := quiet_progress) zero_digest sample_fromisoformat 400
     predicate sample_values "job" scan_max_bytes scan_max_packets (sample_descriptors sample_pcapng) tt).1.

Lemma sequential_export_verified_witness :
  match sample_sequential 4096 10 with
  | Ok st => zlen st.(sq_records) = 1 /\ st.(sq_truncation) = [] /\ exists ss,
      st.(sq_scanned_bytes) = sumZ sd_bytes ss
  | Err _ => False
  end.
Proof.
  unfold sample_sequential.
  destruct (compile_packet_predicate sample_fromisoformat sample_filters sample_values) as [predicate|e] eqn:Hc;
    [|vm_compute in Hc; discriminate Hc].
  cbn [mbind res_bind].
  destruct (sequential_export _ _ _ _ _ _ _ _ _ tt) as [[st|e] w'] eqn:E;
    [|vm_compute in Hc; injection Hc as <-; vm_compute in E; discriminate E].
  cbn [fst]. split; [|split]; [vm_compute in Hc; injection Hc as <-; vm_compute in E; injection E as <- _; reflexivity..|].
  destruct (sequential_export_verified unit BlobSource _ _ (sample_sources sample_pcapng) quiet_progress zero_digest sample_fromisoformat 400
    predicate sample_values "job" 4096 10 (sample_descriptors sample_pcapng) tt w' st) as (_ & ss & _ & _ & _ & _ & _ & Hb & _).
  - intros phase n w e w1 H. discriminate H.
  - exact sample_sources_fuel.
  - exact E.
  - exists ss. exact Hb.
Defined.

Lemma starved_source_rejected_witness :
  match compile_packet_predicate sample_fromisoformat sample_filters sample_values, sample_descriptors sample_pcap with
  | Ok predicate, [d] =>
      (stream_source (repository := sample_sources sample_pcap) (hooks := quiet_progress) zero_digest
        sample_fromisoformat 400 predicate sample_values "job" 23 10 0 d (zlen sample_pcap) (mk_scan [] [] 0 10 0 []) tt).1
        = Err (ApiError 422 "INVALID_PCAP" "file is not a classic PCAP or PCAPNG capture")
  | _, _ => False
  end.
Proof.
  destruct (compile_packet_predicate sample_fromisoformat sample_filters sample_values) as [predicate|e] eqn:Hc;
    [|vm_compute in Hc; discriminate Hc].
  destruct (sample_descriptors sample_pcap) as [|d [|? ?]] eqn:Hd; [discriminate Hd| |discriminate Hd].
  destruct (starved_source_rejected unit BlobSource _ _ (sample_sources sample_pcap) quiet_progress zero_digest
    sample_fromisoformat 400 predicate sample_values "job" 23 10 0 (zlen sample_pcap) d d (PStr "job")
    (match _networks sample_values with Ok networks => networks | Err _ => [] end) (mk_blob sample_pcap 6)
    (mk_scan [] [] 0 10 0 []) tt tt) as [-> _]; [..|reflexivity].
  - exact blob_reliable.
  - exact blob_closes.
  - simpl. lia.
  - simpl. lia.
  - injection Hd as <-. reflexivity.
  - injection Hd as <-. reflexivity.
  - injection Hd as <-. reflexivity.
  - vm_compute. reflexivity.
  - reflexivity.
  - injection Hd as <-. reflexivity.
  - vm_compute. lia.
Defined.
