(* ===== verification/Parity.v ===== *)
(** * Parity

    The two ways of exporting the same snapshot: through the packet index and by
    a sequential scan.  When both return, they return the same export. *)

From Stdlib Require Import Ascii String.
From S2P Require Import Prelude Bytes Samples Reader ReaderLogic CaptureFormat IpAddress PacketProjection StructuralIndex StructuralProofs.
From S2P Require Import ExportDecoder ExportAgreement PostingModel PostingBuild FlowFilter CapturePrefix BoundedCapture BoundedProofs AdmissionReader.
From S2P Require Import PostingQuery OffsetIndex OffsetProofs IndexedPlan PlanProofs PostingIndex ExportRepository StaticStore.
From S2P Require Import PostingPlan PlanSelection IndexedCollect CollectProofs IndexedComplete.
From S2P Require Import SequentialExport SessionProofs PrefixDecode SequentialProofs.
#[local] Open Scope Z_scope.

(** ** Digests in lower case *)

Lemma lower_hex c : is_hex_char c = true -> ascii_lower c = c.
Proof.
  unfold is_hex_char, ascii_lower. cbv zeta. set (n := N_of_ascii c). intros H.
  destruct ((65 <=? Z.of_N n) && (Z.of_N n <=? 90)) eqn:E; [|done]. exfalso.
  apply andb_true_iff in E as [E1 E2]. apply orb_true_iff in H as [H|H]; apply andb_true_iff in H as [H1 H2];
    apply N.leb_le in H1, H2; lia.
Qed.

Lemma lower_digest s : is_sha256_hex s = true -> str_lower s = s.
Proof.
  intros [_ H]%andb_true_iff. unfold str_lower, str_map. rewrite <- (string_of_list_ascii_of_string s) at 2. f_equal.
  induction (list_ascii_of_string s) as [|c l IH]; [done|]. cbn [forallb] in H.
  apply andb_true_iff in H as [Hc Hl]. rewrite fmap_cons, lower_hex by done. by rewrite IH.
Qed.

(** Validated postings are bound to a source with a digest in lower case. *)
Lemma validated_digest sha256_hex posting source parent :
  validate_posting_index sha256_hex posting source parent = true -> is_sha256_hex source.(csv_source_sha256) = true.
Proof.
  unfold validate_posting_index. destruct (_binding source _) as [b|e] eqn:Hb; [|done]. intros _.
  unfold _binding in Hb. inv_bind. subst. unfold PostingIndexBinding_post_init in *.
  repeat match goal with H : raise_if _ _ = Ok _ |- _ => apply raise_if_Ok in H end.
  rewrite !orb_false_iff, !negb_false_iff in *. tauto.
Qed.

(** ** The entry of a source in both exports *)

(** [d] describes for the sequential scan what [d0] describes in the manifest. *)
Record same_entry (d0 d : descriptor) : Prop := {
  en_id : field_text (d !! "id"%string) = field_text (d0 !! "id"%string);
  en_sensor : sensor_of d = sensor_of d0;
  en_size : field d "size_bytes" = field d0 "size_bytes";
  en_digest : field d "sha256" = field d0 "sha256";
}.

Lemma manifest_fields source d kind :
  _source_matches_manifest source d kind = true ->
  field_text (d !! "id"%string) = source.(csv_source_id) /\
  equals_int (field d "size_bytes") source.(csv_source_size_bytes) = true /\
  field d "sha256" = PStr source.(csv_source_sha256).
Proof.
  unfold _source_matches_manifest, version_matches, equals_str. rewrite !andb_true_iff, !bool_decide_eq_true.
  intros [[_ Hid] [[_ Hsize] Hsha]]. split_and!; [|done|done]. unfold field in Hid. unfold field_text.
  destruct (d !! "id"%string) as [v|]; [|done]. simpl in *. by rewrite Hid.
Qed.

Lemma same_size v size size' : equals_int v size = true -> retained_size v = Some size' -> size' = size.
Proof. destruct v; try done. simpl. intros ?%Z.eqb_eq [= <-]. done. Qed.

(** The metadata a source is opened with has the id and the sensor of its descriptor. *)
Lemma open_retained_stored {W S} `{!CaptureSource S} {repository : SequentialRepository W S} {hooks : ProgressHooks W}
    job d size w stored (source : S) w' :
  open_retained job d size w = (Ok (stored, source), w') ->
  field_text (stored !! "id"%string) = field_text (d !! "id"%string) /\ sensor_of stored = sensor_of d.
Proof.
  unfold open_retained, mbind, eff_bind. destruct (checkpoint _ _ w) as [[[]|e] w1]; [|done].
  case_bool_decide.
  - destruct (open_job_capture _ w1) as [[[s|]|e] w2]; [|done..]. by intros [= <- <- _].
  - unfold eff_lift. destruct (item d "id") as [id|e]; [|done].
    destruct (open_sensor_pcap _ w1) as [[[[st s]|]|e] w2]; [|done..].
    destruct (segment_matches _ _ _ _) as [[]|e] eqn:Hm; [|done]. intros [= <- <- _]. unfold segment_matches in Hm.
    destruct (retained_size _); [|done]. apply bind_Ok in Hm as (_ & _ & Hm%raise_if_Ok).
    rewrite !orb_false_iff, !negb_false_iff, !bool_decide_eq_true in Hm. unfold sensor_of. tauto.
Qed.

(** ** One source *)

Section parity.
Context {W : Type} {repository : ExportRepository W}.
Context {V S : Type} {ops : CaptureSource S} {lawful : LawfulSource S}.
Context {sources : SequentialRepository V S} {progress : ProgressHooks V}.
Context (sha256_hex : bytes -> string) (fromisoformat : string -> res Z) (terms_order : gset bytes -> list bytes).
Context (content_of : CaptureSourceVersion -> bytes) (values : list string).
Context {faithful : FaithfulRepository W sha256_hex content_of values}.
Context (fuel : nat) (predicate : CompiledPacketPredicate) (source_job_id : string).
Context (scan_max_bytes scan_max_packets : Z).

(** A source that streams with the size and the digest of an indexed version
    streams the bytes of that version. *)
Definition digests_identify : Prop := forall source parent limits posting (s : S),
  served (W := W) source parent limits posting -> opened (W := V) s ->
  zlen (source_content s) = source.(csv_source_size_bytes) ->
  sha256_hex (source_content s) = source.(csv_source_sha256) -> source_content s = content_of source.

Hypothesis identify : digests_identify.
Hypothesis enough_fuel : forall s : S, opened (W := V) s -> (length (source_content s) < fuel)%nat.
Hypothesis set_order : forall terms, terms_order terms ≡ₚ elements terms.
Hypothesis fractions : subseconds_below_one (W := W) sha256_hex content_of.

#[local] Abbreviation scanned := (source_scanned (W := V) (S := S) sha256_hex fromisoformat fuel predicate values source_job_id scan_max_bytes scan_max_packets).

(** The scan of an indexed source has the bytes of its version. *)
Lemma scanned_content kind limits posting order bytes packets source parent d0 d size s :
  served (W := W) source parent limits posting -> validate_posting_index sha256_hex posting source parent = true ->
  _source_matches_manifest source d0 kind = true -> same_entry d0 d -> retained_size (field d "size_bytes") = Some size ->
  scanned order bytes packets (d, size) s ->
  s.(sd_content) = content_of source /\ size = source.(csv_source_size_bytes) /\
  sha256_hex (content_of source) = source.(csv_source_sha256).
Proof.
  intros Hserved Hval Hman Hen Hsize (src & bounds & k & out & r & _ & Hcontent & Hop & _ & Hinit & _ & _ & Hs).
  destruct (manifest_fields _ _ _ Hman) as (_ & Hms & Hmd). destruct (init_bounds_ok _ _ _ _ _ Hinit) as [_ ->].
  pose proof (sn_authentic _ _ _ _ _ _ _ _ _ _ _ _ _ _ _ Hs) as [Hz Hh]. cbn in Hz, Hh.
  rewrite (en_digest _ _ Hen), Hmd in Hh. cbn [py_str] in Hh. rewrite lower_digest in Hh by (by eapply validated_digest).
  rewrite (en_size _ _ Hen) in Hsize. pose proof (same_size _ _ _ Hms Hsize) as ->. rewrite Hcontent in *.
  assert (source_content src = content_of source) as Hc by by eapply identify. rewrite <- Hc. done.
Qed.

(** The decoder of the scan, on the part of the capture the budget admits. *)
Lemma scanned_prefix kind limits posting order bytes packets source parent d0 d size s admitted scanned_bytes bl pl :
  served (W := W) source parent limits posting -> validate_posting_index sha256_hex posting source parent = true ->
  _source_matches_manifest source d0 kind = true -> same_entry d0 d -> retained_size (field d "size_bytes") = Some size ->
  packets < scan_max_packets -> scanned order bytes packets (d, size) s ->
  admitted_prefix source parent (scan_max_bytes - bytes) (scan_max_packets - packets)
    = Ok (admitted, scanned_bytes, bl, pl) ->
  sd_outcome s = (scanned_bytes, admitted, bl, pl) /\
  forall ps, decodes values (content_of source) source.(csv_source_id) order ps -> s.(sd_packets) = ztake admitted ps.
Proof.
  intros Hserved Hval Hman Hen Hsize Hpk Hsc Hadm.
  destruct (scanned_content _ _ _ _ _ _ _ _ _ _ _ _ Hserved Hval Hman Hen Hsize Hsc) as (Hc & -> & Hsha).
  pose proof (faithful_index _ _ _ _ Hserved Hval) as Hix. set (C := content_of source) in *.
  destruct Hsc as (src & bounds & k & out & r & _ & Hcontent & Hop & (v & v' & Hopen) & Hinit & H24 & [id Hid] & Hs).
  destruct (init_bounds_ok _ _ _ _ _ Hinit) as [Hb ->]. cbn in H24. rewrite Hc in Hs.
  destruct (open_retained_stored _ _ _ _ _ _ _ Hopen) as [Hsid _]. destruct (manifest_fields _ _ _ Hman) as (Hmid & _).
  cbn [fst] in Hsid. rewrite (en_id _ _ Hen), Hmid, Hid in Hsid. cbn in Hsid.
  destruct (ix_decodes _ _ _ _ _ Hix source.(csv_source_id) order) as [ps Hdec].
  destruct (indexed_decoded _ _ _ _ _ _ _ _ Hix Hdec) as (nets & Hnets & _ & _ & Hf2).
  pose proof (indexed_format _ _ _ _ _ Hix) as Hfmt.
  assert (length C < fuel)%nat as Hfuel by (rewrite <- Hc, Hcontent; by apply enough_fuel).
  destruct (decodes_run _ _ _ _ _ _ fuel Hnets Hfuel Hdec) as [m Hrun].
  pose proof Hs as [[Hzlen _] Hcom Hat [_ Htr] _ _ _ Hsrun]. cbn in Hzlen.
  destruct (export_prefix_decodes _ _ _ C fuel (scan_max_bytes - bytes) (scan_max_packets - packets) source parent ps m
    admitted scanned_bytes bl pl Hrun) as [Hpre Hdp]; [|done|lia|lia|lia|done|].
  { eapply Forall2_impl; [exact Hf2|]. intros e q (i & _ & Hl & _). unfold entry_of. by rewrite Hl. }
  destruct (Hdp ltac:(lia)) as [Hprun Heof]. set (X := ztake scanned_bytes C) in *. set (P := mk_prefix X scanned_bytes admitted bl pl) in *.
  assert (tracks C (mk_bounds source.(csv_source_size_bytes) (str_lower (py_str (field d "sha256"))) (scan_max_bytes - bytes)
    (scan_max_packets - packets)) P k.(ses_state).(bs_frame)) as Htracks.
  { apply Htr; [done|]. refine (conj eq_refl (conj eq_refl (conj eq_refl (ex_intro _ P (conj Hpre _))))).
    unfold reader_prefix. cbn [cb_max_bytes]. by rewrite (proj2 (Z.ltb_ge _ _)) by lia. }
  pose proof Hat as (Hphys & Hsafe & _).
  destruct (tracks_content C _ P out _ Hphys Hsafe Htracks) as (rest & HX & Hrest); [by eapply (bounded_prefix_grows C (mk_bounds 0 "" (scan_max_bytes - bytes) (scan_max_packets - packets)))|].
  destruct (Hsrun X) as [HXrun HXeof].
  { split; [by exists rest|]. intros He. cbn in HX. rewrite HX, (Hrest He). by rewrite app_nil_r. }
  assert (item (sd_stored s) "id" = Ok id) as Hitem by (unfold item; by rewrite Hid).
  rewrite (source_decoder_capture _ _ _ _ _ _ Hitem Hnets), Hsid in HXrun, HXeof. rewrite Hprun in HXrun.
  specialize (HXeof Heof). injection HXrun as Hps _ _. rewrite Z.sub_0_r in Hps. split.
  - destruct HXeof as (Hstop & _). unfold tracks in Htracks. rewrite Hstop in Htracks.
    destruct Htracks as (_ & T1 & T2 & T3 & T4). destruct Hcom as (C1 & C2 & C3 & C4 & _).
    unfold sd_outcome. cbn in T1, T2, T3, T4. congruence.
  - intros ps' Hdec'. unfold decodes in *. rewrite Hdec in Hdec'. injection Hdec' as <-. done.
Qed.

#[local] Abbreviation records s := (sd_records fromisoformat predicate s).

(** What one source adds to both exports. *)
Definition same_source (p : PlannedIndexedSource) (rs : list MatchedPacketRecord) (s : ScannedSource) : Prop :=
  sd_outcome s = plan_outcome p /\ sd_manifest s = plan_manifest p /\ sd_counts s = plan_counts p /\ records s = rs.

(** The entry of a source was selected and describes the same source for the scan. *)
Definition linked kind (selected : gmap Z (list Z)) (order : Z) (entry : option descriptor * PostingSelectionSourceProof)
    (entry' : descriptor * Z) : Prop :=
  entry_selected (W := W) sha256_hex terms_order kind predicate selected order entry /\
  exists d0, entry.1 = Some d0 /\ same_entry d0 entry'.1 /\ retained_size (field entry'.1 "size_bytes") = Some entry'.2.

Lemma source_parity kind filters networks selected order bytes packets entry entry' p rs s :
  compile_packet_predicate fromisoformat filters networks = Ok predicate ->
  linked kind selected order entry entry' -> packets < scan_max_packets ->
  planned_source scan_max_bytes scan_max_packets selected order bytes packets entry p ->
  records_of fromisoformat predicate values (content_of p.(pln_source)) p.(pln_sensor_id) p.(pln_located).(lps_locators) rs ->
  scanned order bytes packets entry' s -> same_source p rs s.
Proof.
  destruct entry as [item proof], entry' as [d size].
  intros Hcomp [(limits & d1 & cs & [= ->] & Hsel & Hords) (d0 & [= <-] & Hen & Hsize)] Hpk Hp Hrs Hsc.
  destruct (source_exported sha256_hex fromisoformat terms_order content_of values set_order fractions _ _ _ _ _ _ _ _ _ _ _ _ _ _ _ _
    Hcomp Hsel Hp Hords Hrs) as (es & E1 & E2 & Hdec & [= _ Hadm _ _] & Hle & _ & _ & ->).
  rewrite E1 in Hdec. pose proof Hsel as [_ _ Hman _ (posting & ordinals & Hserved & Hval & _)].
  destruct Hp as [_ Psrc Ppar _ [_ _ _ _ Hpre _] _ _]. cbn [fst snd] in *.
  destruct (scanned_prefix _ _ _ _ _ _ _ _ _ _ _ _ _ _ _ _ Hserved Hval Hman Hen Hsize Hpk Hsc Hpre) as [Hout Hpackets].
  specialize (Hpackets _ Hdec). destruct (scanned_content _ _ _ _ _ _ _ _ _ _ _ _ Hserved Hval Hman Hen Hsize Hsc) as (Hc & _ & Hsha).
  destruct Hsc as (src & bounds & k & out & r & _ & _ & _ & (v & v' & Hopen) & _ & _ & _ & Hs).
  destruct (open_retained_stored _ _ _ _ _ _ _ Hopen) as [Hid Hsensor]. cbn [fst] in Hid, Hsensor.
  destruct (manifest_fields _ _ _ Hman) as (Hmid & _). unfold admitted_count in Hadm. split_and!.
  - exact Hout.
  - unfold sd_manifest, plan_manifest. rewrite Psrc, Hid, (en_id _ _ Hen), Hmid.
    destruct (sn_commits _ _ _ _ _ _ _ _ _ _ _ _ _ _ _ Hs) as (_ & _ & _ & _ & _ & ->). by rewrite Hc, Hsha.
  - unfold sd_counts, plan_counts, admitted_count. rewrite Hpackets, zlen_ztake by lia. by rewrite Z.min_l by lia.
  - unfold sd_records, exported_records. by rewrite Hpackets, Hsensor, (en_sensor _ _ Hen), E2, Hadm.
Qed.

(** ** The loop over the sources *)

Lemma outcome_limited p rs s : same_source p rs s -> sd_limited s = limited p.
Proof. intros [[= _ _ Hb Hl] _]. unfold sd_limited, limited. by rewrite Hb, Hl. Qed.

Lemma run_parity kind filters networks selected order bytes packets entries ps complete :
  compile_packet_predicate fromisoformat filters networks = Ok predicate ->
  planned_run scan_max_bytes scan_max_packets selected order bytes packets entries ps complete ->
  forall entries' found ss complete',
  (length entries = length entries') ->
  (forall k e e', entries !! k = Some e -> entries' !! k = Some e' -> linked kind selected (order + Z.of_nat k) e e') ->
  Forall2 (fun p => records_of fromisoformat predicate values (content_of p.(pln_source))
    p.(pln_sensor_id) p.(pln_located).(lps_locators)) ps found ->
  budget_run scan_max_bytes scan_max_packets scanned order bytes packets entries' ss complete' ->
  Forall2 (fun x s => same_source x.1 x.2 s) (zip ps found) ss.
Proof.
  intros Hcomp. induction 1 as [order b pk|order b pk entry entries Hb|order b pk entry entries p Hp Hl
    |order b pk entry entries p ps complete Hp Hl _ IH]; intros entries' found ss complete' Hlen Hlink Hf Hrun.
  - destruct entries'; [|done]. inversion Hrun; subst. constructor.
  - inversion Hrun; subst; [done|constructor|lia|lia].
  - destruct entries' as [|entry' entries']; [done|]. apply Forall2_cons_inv_l in Hf as (rs & fs & Hr & ->%Forall2_nil_inv_l & ->).
    specialize (Hlink 0%nat entry entry' eq_refl eq_refl). rewrite Z.add_0_r in Hlink. pose proof (ps_budget _ _ _ _ _ _ _ _ Hp) as Hbud.
    inversion Hrun as [|? ? ? ? ? Hex|? ? ? ? ? s _ Hs Hsl|? ? ? ? ? s ss' ? _ Hs Hsl _]; subst; [lia| |];
      (assert (same_source p rs s) as Hsame by (eapply source_parity; try done; lia)).
    + constructor; [done|constructor].
    + rewrite (outcome_limited _ _ _ Hsame) in Hsl. congruence.
  - destruct entries' as [|entry' entries']; [done|]. apply Forall2_cons_inv_l in Hf as (rs & fs & Hr & Hf & ->).
    pose proof (Hlink 0%nat entry entry' eq_refl eq_refl) as Hlink0. rewrite Z.add_0_r in Hlink0.
    pose proof (ps_budget _ _ _ _ _ _ _ _ Hp) as Hbud.
    inversion Hrun as [|? ? ? ? ? Hex|? ? ? ? ? s _ Hs Hsl|? ? ? ? ? s ss' ? _ Hs Hsl Hrest]; subst; [lia| |];
      (assert (same_source p rs s) as Hsame by (eapply source_parity; try done; lia)).
    + rewrite (outcome_limited _ _ _ Hsame) in Hsl. congruence.
    + constructor; [done|]. pose proof Hsame as [[= E1 E2 _ _] _].
      eapply IH; [by injection Hlen| |exact Hf|].
      * intros j e e' He He'. specialize (Hlink (Datatypes.S j) e e' He He').
        by replace (order + 1 + Z.of_nat j) with (order + Z.of_nat (Datatypes.S j)) by lia.
      * unfold sd_bytes, sd_admitted in Hrest. rewrite E1, E2 in Hrest. exact Hrest.
Qed.
End parity.

(** ** The whole export *)

Lemma declared_sizes descriptors sizes :
  declared_source_sizes descriptors = Ok sizes ->
  Forall2 (fun d size => retained_size (field d "size_bytes") = Some size) descriptors sizes.
Proof.
  unfold declared_source_sizes. destruct (mapM _ descriptors) as [sizes'|] eqn:E; [|done].
  intros (_ & _ & (_ & _ & [= <-])%bind_Ok)%bind_Ok. by apply mapM_Some in E.
Qed.

(** In the manifest of a canonical capture the source is the job's, with its sensor. *)
Definition canonical_entry (snapshot_kind : py_scalar) (manifest : list descriptor) (job sensor : string) : Prop :=
  equals_str snapshot_kind "canonical_capture" = true ->
  Forall (fun d => field_text (d !! "id"%string) = job /\ sensor_of d = sensor) manifest.

Lemma descriptors_same snapshot_kind manifest job sensor kind :
  snapshot_source_kind snapshot_kind (zlen manifest) = Some kind -> canonical_entry snapshot_kind manifest job sensor ->
  Forall2 same_entry manifest (source_descriptors snapshot_kind manifest job sensor).
Proof.
  unfold snapshot_source_kind, canonical_entry, source_descriptors. intros Hk Hc. destruct manifest as [|d manifest]; [constructor|].
  destruct (equals_str snapshot_kind "canonical_capture").
  - destruct manifest as [|d' manifest]; [|destruct (Z.eqb_spec (zlen (d :: d' :: manifest)) 1); [unfold zlen in *; simpl in *; lia|done]].
    specialize (Hc eq_refl). apply Forall_cons in Hc as [[Hid Hs] _]. constructor; [|constructor].
    constructor; [by rewrite Hid|by rewrite Hs|done|done].
  - apply Forall2_same_length_lookup_2; [done|]. intros i x y Hx Hy. rewrite Hx in Hy. injection Hy as <-. done.
Qed.

Lemma same_sources_fmap fromisoformat predicate ps found ss :
  length found = length ps ->
  Forall2 (fun x s => same_source fromisoformat predicate x.1 x.2 s) (zip ps found) ss ->
  sd_outcome <$> ss = plan_outcome <$> ps /\ sd_manifest <$> ss = plan_manifest <$> ps /\
  sumZ sd_counts ss = sumZ plan_counts ps /\ sumZ sd_bytes ss = sumZ scanned_count ps /\
  sumZ sd_admitted ss = sumZ admitted_count ps /\ sd_records fromisoformat predicate <$> ss = found.
Proof.
  revert found ss. induction ps as [|p ps IH]; intros [|rs found] ss Hlen Hf; try done.
  - apply Forall2_nil_inv_l in Hf as ->. done.
  - apply Forall2_cons_inv_l in Hf as (s & ss' & (H1 & H2 & H3 & H4) & Hf & ->). cbn [fst snd] in *.
    destruct (IH found ss') as (I1 & I2 & I3 & I4 & I5 & I6); [by injection Hlen|done|].
    rewrite !fmap_cons, !sumZ_cons, H1, H2, H3, H4, I1, I2, I3, I4, I5, I6. pose proof H1 as [= E1 E2 _ _].
    unfold sd_bytes, sd_admitted. by rewrite E1, E2.
Qed.

(** C38: indexed and sequential export agree. Take one snapshot with its
    manifest, one predicate and one pair of limits. Let the repository's range
    reads be faithful and its validated postings be built from the bytes they are
    bound to; let classic records have sub-second fields below one second (no
    source checks it, and without it the two paths may give different
    timestamps); let size and SHA-256 digest identify the bytes of a source the
    sequential path opens; let the entry of a canonical capture name the job and
    its sensor; let the progress callback raise nothing the scan would take for
    its own; let [terms_order] permute a set and the fuel exceed the length of
    the sources. Then whenever the index path returns a batch and the sequential
    path returns a scan, whatever else happened to the repository in between, the
    two are the same export: the same records in the same order, the same packet,
    byte and source counts, the same source manifest and the same truncation
    reasons (the index path lists each reason once). Under these conditions an
    index never changes what an export contains, limits included. *)
Theorem indexed_sequential_parity (W V S : Type) (repository : ExportRepository W) (hooks : ExportHooks W)
    (ops : CaptureSource S) (lawful : LawfulSource S) (sources : SequentialRepository V S) (progress : ProgressHooks V)
    (sha256_hex : bytes -> string) (fromisoformat : string -> res Z) (terms_order : gset bytes -> list bytes)
    (content_of : CaptureSourceVersion -> bytes) (values : list string)
    (faithful : FaithfulRepository W sha256_hex content_of values)
    (settings : SelectionSettings) (job_networks : list py_scalar) (manifest : list descriptor)
    (snapshot_kind : py_scalar) (generation : option py_scalar)
    (request : PacketFilters) (predicate : CompiledPacketPredicate) (scan_max_bytes scan_max_packets : Z)
    (range_limits : RangePlanLimits) (max_sources : Z) (fuel : nat) (source_job_id sensor_id : string)
    (w w' : W) (batch : IndexedMatchBatch) (v v' : V) (st : SequentialScan) :
  (forall terms, terms_order terms ≡ₚ elements terms) ->
  subseconds_below_one (W := W) sha256_hex content_of ->
  digests_identify (W := W) (V := V) (S := S) sha256_hex content_of ->
  callback_passes (W := V) -> (forall s : S, opened (W := V) s -> (length (source_content s) < fuel)%nat) ->
  canonical_entry snapshot_kind manifest source_job_id sensor_id ->
  compile_packet_predicate fromisoformat request (py_str <$> job_networks) = Ok predicate ->
  indexed_match_factory sha256_hex fromisoformat terms_order settings job_networks
    (mk_source_snapshot (Some (Some <$> manifest)) snapshot_kind generation) request predicate
    values scan_max_bytes scan_max_packets range_limits max_sources w = (Ok batch, w') ->
  sequential_export sha256_hex fromisoformat fuel predicate values source_job_id scan_max_bytes scan_max_packets
    (source_descriptors snapshot_kind manifest source_job_id sensor_id) v = (Ok st, v') ->
  st.(sq_records) = batch.(imb_records) /\
  st.(sq_source_manifest) = batch.(imb_source_manifest) /\
  st.(sq_scanned_bytes) = batch.(imb_scanned_source_bytes) /\
  scan_max_packets - st.(sq_remaining_packets) = batch.(imb_scanned_packet_count) /\
  st.(sq_scanned_sources) = batch.(imb_scanned_source_capture_count) /\
  dict_fromkeys ∅ st.(sq_truncation) = batch.(imb_truncation_reasons).
Proof.
  intros Horder Hfractions Hidentify Hpass Hfuel Hcanon Hcomp Hix Hseq.
  destruct (indexed_batch_yields sha256_hex fromisoformat terms_order content_of values _ _ _ _ _ _ _ _ _ Hcomp _ _ _ Hix)
    as (entries & kind & kind' & plan & selected & ps & complete & found &
        [Hman Hlen _ _ Hrun Hrec Hfound Hpk Hby Hmf Hsc Htr _] & Hkind & Hentry).
  cbn [ss_source_manifest ss_source_kind] in Hman, Hkind. injection Hman as <-.
  assert (zlen (Some <$> manifest) = zlen manifest) as Hz by (unfold zlen; by rewrite length_fmap). rewrite Hz in *.
  apply (sequential_export_Ok _ _ _ _ _ _ _ _ Hpass Hfuel) in Hseq as (sizes & ss & complete' & Hsizes & Hrun' & [R1 R2 R3 R4 R5 R6]).
  pose proof (declared_sizes _ _ Hsizes) as Hds. pose proof (descriptors_same _ _ _ _ _ Hkind Hcanon) as Hsame.
  set (ds := source_descriptors _ _ _ _) in *.
  pose proof (Forall2_length _ _ _ Hds) as L1. pose proof (Forall2_length _ _ _ Hsame) as L2.
  assert (length (zip ds sizes) = length manifest) as Lz by (rewrite length_zip_with; lia).
  assert (Forall2 (fun x s => same_source fromisoformat predicate x.1 x.2 s) (zip ps found) ss) as Hall.
  { eapply (run_parity sha256_hex fromisoformat terms_order content_of values fuel predicate source_job_id _ _
      Hidentify Hfuel Horder Hfractions kind' _ _ selected 0 0 0); [exact Hcomp|exact Hrun| | |exact Hfound|exact Hrun'].
    - rewrite Lz, length_zip_with, length_fmap. unfold zlen in Hlen. lia.
    - intros k e [d size] He He'. split; [by apply Hentry|]. apply lookup_zip_with_Some in He as (o & proof & -> & Ho & _).
      rewrite list_lookup_fmap in Ho. destruct (manifest !! k) as [d0|] eqn:Hd0; [|done]. injection Ho as <-.
      apply lookup_zip_with_Some in He' as (d' & size' & [= -> ->] & Hd' & Hs'). exists d0. cbn [fst snd]. split_and!; [done| |].
      + by eapply Forall2_lookup_lr.
      + exact (Forall2_lookup_lr _ _ _ _ _ _ Hds Hd' Hs'). }
  destruct (same_sources_fmap _ _ _ _ _ (eq_sym (Forall2_length _ _ _ Hfound)) Hall) as (F1 & F2 & F3 & F4 & F5 & F6).
  cbn in R1, R2, R3, R4, R5, R6. rewrite Lz, F1, Z.sub_diag in R6. rewrite length_fmap in Htr. split_and!.
  - by rewrite R1, F6, Hrec.
  - by rewrite R2, F2, Hmf.
  - by rewrite R3, F4, Hby.
  - lia.
  - by rewrite R5, F3, Hsc.
  - by rewrite R6, Htr.
Qed.

(** ** The sample capture, exported both ways *)

Lemma sample_identify :
  digests_identify (repository := static_repository (sample_store PCAPNG sample_pcapng)) (sources := sample_sources sample_pcapng)
    zero_digest (stored_content (sample_store PCAPNG sample_pcapng)).
Proof.
  destruct (sample_posting PCAPNG sample_pcapng) as [posting|e] eqn:Hp; [|vm_compute in Hp; discriminate Hp].
  assert (sample_store PCAPNG sample_pcapng = [mk_entry (sample_source sample_pcapng) sample_pcapng
    (sample_snapshot PCAPNG sample_pcapng) posting]) as -> by (unfold sample_store; by rewrite Hp).
  intros source parent limits posting' s (w & w' & Hs) Hopened _ _.
  assert (source_content s = sample_pcapng) as ->.
  { destruct Hopened as [(id & v & v' & H)|(id & d & v & v' & H)]; [|discriminate H]. by injection H as <- _. }
  cbn [get_posting_index static_repository] in Hs. unfold stored_content. unfold store_entry, store_find in *.
  rewrite filter_cons in *. by destruct (decide _).
Qed.

Lemma indexed_sequential_parity_witness :
  match compile_packet_predicate sample_fromisoformat sample_filters sample_values, sample_sequential 4096 10 with
  | Ok predicate, Ok st =>
      match @indexed_match_factory unit (static_repository (sample_store PCAPNG sample_pcapng)) static_hooks zero_digest
              sample_fromisoformat elements sample_settings [PStr "10.0.0.0/8"] (sample_source_snapshot sample_pcapng)
              sample_filters predicate sample_values 4096 10 (mk_range_limits 64 1024 16 4096 4 1 3 4) 8 tt with
      | (Ok batch, _) => zlen st.(sq_records) = 1 /\ st.(sq_records) = batch.(imb_records)
      | (Err _, _) => False
      end
  | _, _ => False
  end.
Proof.
  unfold sample_sequential.
  destruct (compile_packet_predicate sample_fromisoformat sample_filters sample_values) as [predicate|e] eqn:Hc;
    [|vm_compute in Hc; discriminate Hc].
  cbn [mbind res_bind].
  destruct (sequential_export _ _ _ _ _ _ _ _ _ tt) as [[st|e] v'] eqn:Hs;
    [|vm_compute in Hc; injection Hc as <-; vm_compute in Hs; discriminate Hs].
  cbn [fst].
  destruct (@indexed_match_factory unit (static_repository (sample_store PCAPNG sample_pcapng)) static_hooks zero_digest
    sample_fromisoformat elements sample_settings [PStr "10.0.0.0/8"] (sample_source_snapshot sample_pcapng)
    sample_filters predicate sample_values 4096 10 (mk_range_limits 64 1024 16 4096 4 1 3 4) 8 tt) as [[batch|e] w'] eqn:E;
    [|vm_compute in Hc; injection Hc as <-; vm_compute in E; discriminate E].
  split; [vm_compute in Hc; injection Hc as <-; vm_compute in Hs; injection Hs as <- _; reflexivity|].
  destruct (indexed_sequential_parity unit unit BlobSource (static_repository (sample_store PCAPNG sample_pcapng)) static_hooks
    _ _ (sample_sources sample_pcapng) quiet_progress zero_digest sample_fromisoformat elements
    (stored_content (sample_store PCAPNG sample_pcapng)) sample_values sample_faithful sample_settings [PStr "10.0.0.0/8"%string]
    [sample_descriptor sample_pcapng] (PStr "canonical_capture") (Some (PInt 7)) sample_filters predicate 4096 10
    (mk_range_limits 64 1024 16 4096 4 1 3 4) 8 400 "job" "sensor" tt w' batch tt v' st) as [Hrec _].
  - reflexivity.
  - exact sample_fractions.
  - exact sample_identify.
  - intros phase n w e w1 H. discriminate H.
  - exact sample_sources_fuel.
  - intros _. repeat constructor.
  - exact Hc.
  - exact E.
  - exact Hs.
  - exact Hrec.
Defined.
