(* ===== verification/ExportQueue.v ===== *)
(** * ExportQueue

    pcap_export_store.py, the queue of export jobs: [RepositoryQueueStore] over
    the memory of a repository, with the operations of the memory repository
    (repositories.py) on the artifacts of the jobs, and the jobs that
    pcap_export_service.py makes.  The lock makes every operation one step.  A job is a
    dictionary; its [progress] is a dictionary of its own, and the documents a job carries that the queue never reads (the request, the
    limits, the source manifest) are left out.  Times are microseconds since the
    epoch, their text is an interface; the clock readings of an operation and
    the token [secrets] makes are its arguments. *)

From Stdlib Require Import String.
From S2P Require Import Prelude Bytes PostingModel FlowFilter ExportRepository SequentialExport.
#[local] Open Scope Z_scope.

(** ** Jobs and the store *)

Record ExportJob : Type := mk_export_job {
  ej_fields : descriptor;
  ej_progress : option descriptor;
}.

(** [pcap_export_jobs] in insertion order, [exports] and [export_content]. *)
Record QueueState : Type := mk_queue {
  q_jobs : list (string * ExportJob);
  q_exports : gmap string descriptor;
  q_content : gmap string bytes;
}.

Definition with_jobs (jobs : list (string * ExportJob)) (q : QueueState) : QueueState :=
  mk_queue jobs q.(q_exports) q.(q_content).

(** [isoformat] of a time in UTC, and [datetime.fromisoformat]. *)
Class IsoClock : Type := {
  iso : Z -> string;
  fromiso : string -> res Z;
}.

(** A time is read back from its text, which is not empty. *)
Class LawfulClock `{!IsoClock} : Prop := {
  fromiso_iso t : fromiso (iso t) = Ok t;
  iso_nonempty t : iso t <> ""%string;
}.

Definition ACTIVE_EXPORT_STATES : list string := ["QUEUED"; "RUNNING"]%string.
Definition TERMINAL_EXPORT_STATES : list string := ["COMPLETED"; "FAILED"; "CANCELLED"]%string.
Definition _PROGRESS_COUNTERS : list string :=
  ["percent"; "scanned_source_bytes"; "scanned_packet_count"; "matched_packet_count";
   "exported_packet_count"]%string.

(** [a == b]; a Python [bool] is an [int]. *)
Definition py_eq (a b : py_scalar) : bool :=
  match a, b with
  | PBool x, PInt z | PInt z, PBool x => Z.b2z x =? z
  | _, _ => bool_decide (a = b)
  end.

(** [v in states] *)
Definition one_of (v : py_scalar) (states : list string) : bool := existsb (equals_str v) states.

(** [d.update(k=v, ...)] *)
Definition update (d : descriptor) (values : list (string * py_scalar)) : descriptor :=
  foldl (fun d '(k, v) => <[k := v]> d) d values.
Definition job_update (values : list (string * py_scalar)) (j : ExportJob) : ExportJob :=
  mk_export_job (update j.(ej_fields) values) j.(ej_progress).
Definition progress_update (values : list (string * py_scalar)) (j : ExportJob) : ExportJob :=
  mk_export_job j.(ej_fields) (Some (update (default ∅ j.(ej_progress)) values)).

(** [int(d.get(key, default))] *)
Definition int_field (d : descriptor) (key : string) (missing : Z) : res Z :=
  py_int (default (PInt missing) (d !! key)).

(** [v or w] *)
Definition py_or (v w : py_scalar) : py_scalar := if py_truthy v then v else w.

Fixpoint map_res {A B} (f : A -> res B) (l : list A) : res (list B) :=
  match l with
  | [] => Ok []
  | x :: l' => y ← f x; ys ← map_res f l'; Ok (y :: ys)
  end.

(** [next((x for x in l if f(x)), None)] *)
Fixpoint next_res {A} (f : A -> res bool) (l : list A) : res (option A) :=
  match l with
  | [] => Ok None
  | x :: l' => found ← f x; if found : bool then Ok (Some x) else next_res f l'
  end.

(** [[x for x in l if f(x)]] *)
Fixpoint filter_res {A} (f : A -> res bool) (l : list A) : res (list A) :=
  match l with
  | [] => Ok []
  | x :: l' => keep ← f x; xs ← filter_res f l'; Ok (if keep : bool then x :: xs else xs)
  end.

(** Short-circuit [and]. *)
Definition and_also (a b : res bool) : res bool := x ← a; if x : bool then b else Ok false.

Section queue.
Context `{!IsoClock}.

(** [datetime.fromisoformat(v)] *)
Definition parse_time (v : py_scalar) : res Z :=
  match v with
  | PStr s => fromiso s
  | _ => Err (TypeError "fromisoformat: argument must be str")
  end.

(** [t + timedelta(microseconds=micros)] *)
Definition later (t micros : Z) : res Z :=
  let r := t + micros in
  if (r <? -62135596800000000) || (253402300799999999 <? r)
  then Err (OverflowError "date value out of range") else Ok r.
Definition add_seconds (t seconds : Z) : res Z := later t (seconds * 1000000).

(** ** Loading and saving *)

Definition _load_all_locked (q : QueueState) : list ExportJob := q.(q_jobs).*2.

(** [memory[key] = job]: a new key comes last. *)
Fixpoint store_job (key : string) (job : ExportJob) (jobs : list (string * ExportJob))
    : list (string * ExportJob) :=
  match jobs with
  | [] => [(key, job)]
  | (k, j) :: jobs' => if bool_decide (k = key) then (k, job) :: jobs' else (k, j) :: store_job key job jobs'
  end.

Definition _save_locked (job : ExportJob) : eff QueueState unit := fun q =>
  match item job.(ej_fields) "id" with
  | Err e => (Err e, q)
  | Ok id => (Ok tt, with_jobs (store_job (py_str id) job q.(q_jobs)) q)
  end.

Definition with_state {A} (f : QueueState -> res A * QueueState) : eff QueueState A := f.
Definition load_all : eff QueueState (list ExportJob) := fun q => (Ok (_load_all_locked q), q).

(** [next((x for x in self._load_all_locked() if x["id"] == export_id), None)] *)
Definition find_job (export_id : string) : eff QueueState (option ExportJob) :=
  jobs ← load_all;
  eff_lift (next_res (fun j => id ← item j.(ej_fields) "id"; Ok (equals_str id export_id)) jobs).

(** ** Admission *)

Definition same_field (a b : ExportJob) (key : string) : res bool :=
  x ← item a.(ej_fields) key; y ← item b.(ej_fields) key; Ok (py_eq x y).

Definition status_in (states : list string) (j : ExportJob) : res bool :=
  status ← item j.(ej_fields) "status"; Ok (one_of status states).

(** [validate_source] is the check of the repository, when it has one; it only
    reads what the repository knows about the source. *)
Definition enqueue (validate_source : option (ExportJob -> res bool)) (job : ExportJob)
    (capacity per_principal_limit : Z) : eff QueueState (ExportJob * bool) :=
  existing ← load_all;
  let key := field job.(ej_fields) "idempotency_key" in
  keyed ← (if bool_decide (key = PNone) then mret None
           else eff_lift (next_res (fun x => and_also (same_field x job "principal_scope")
                                    (Ok (py_eq (field x.(ej_fields) "idempotency_key") key))) existing));
  match keyed with
  | Some stored =>
      same ← eff_lift (same_field stored job "request_fingerprint");
      if negb same then eff_raise (ValueError "idempotency_conflict") else mret (stored, false)
  | None =>
      reusable ← eff_lift (next_res (fun x => and_also (same_field x job "principal_scope")
                   (and_also (same_field x job "coalesce_fingerprint")
                      (status_in ["QUEUED"; "RUNNING"; "COMPLETED"]%string x))) existing);
      match reusable with
      | Some stored => mret (stored, false)
      | None =>
          active ← eff_lift (filter_res (status_in ACTIVE_EXPORT_STATES) existing);
          _ ← eff_raise_if (capacity <=? zlen active) (ExportQueueFullError "pcap export queue is full");
          principal_active ← eff_lift (filter_res (fun x => same_field x job "principal_scope") active);
          _ ← eff_raise_if (per_principal_limit <=? zlen principal_active)
                (ExportPrincipalLimitError "principal PCAP export limit reached");
          admitted ← match validate_source with None => mret true | Some check => eff_lift (check job) end;
          _ ← eff_raise_if (negb admitted)
                (ExportSourceChangedError "PCAP export source changed before admission");
          _ ← _save_locked job;
          mret (job, true)
      end
  end.

Definition get (export_id : string) : eff QueueState (option ExportJob) := fun q =>
  (Ok (snd <$> List.find (fun e => bool_decide (e.1 = export_id)) q.(q_jobs)), q).

Definition find_pcap_export_job (principal_scope idempotency_key request_fingerprint : string)
    : eff QueueState (option ExportJob) :=
  existing ← load_all;
  let found := List.find (fun j => equals_str (field j.(ej_fields) "principal_scope") principal_scope
                                   && equals_str (field j.(ej_fields) "idempotency_key") idempotency_key) existing in
  match found with
  | Some j =>
      if negb (equals_str (field j.(ej_fields) "request_fingerprint") request_fingerprint)
      then eff_raise (ValueError "idempotency_conflict") else mret found
  | None => mret found
  end.

(** The numbers of queued and of running jobs. *)
Definition count_pcap_export_jobs_by_status : eff QueueState (list (string * Z)) :=
  existing ← load_all;
  mret ((fun status => (status, zlen (filter (fun j => equals_str (field j.(ej_fields) "status") status = true) existing)))
        <$> ["QUEUED"; "RUNNING"]%string).

(** ** Leases *)

(** The keys of a sort are text here, as every job has them. *)
Definition text_item (d : descriptor) (key : string) : res string :=
  v ← item d key;
  match v with PStr s => Ok s | _ => Err (TypeError "'<' not supported between instances") end.

Definition text_pair_leb (a b : string * string) : bool :=
  if bool_decide (a.1 = b.1) then str_leb a.2 b.2 else str_leb a.1 b.1.

Definition claim_key (j : ExportJob) : res ((string * string) * ExportJob) :=
  queued_at ← text_item j.(ej_fields) "queued_at"; id ← text_item j.(ej_fields) "id";
  Ok ((queued_at, id), j).

Definition claimable (now : Z) (j : ExportJob) : res bool :=
  and_also (status ← item j.(ej_fields) "status"; Ok (equals_str status "QUEUED"))
    (let next := field j.(ej_fields) "next_attempt_at" in
     if py_truthy next then at_ ← parse_time next; Ok (at_ <=? now) else Ok true).

Definition claim (now lease_seconds : Z) (token : string) : eff QueueState (option ExportJob) :=
  existing ← load_all;
  keyed ← eff_lift (map_res claim_key existing);
  let jobs := (sort_by (fun a b => text_pair_leb a.1 b.1) keyed).*2 in
  found ← eff_lift (next_res (claimable now) jobs);
  match found with
  | None => mret None
  | Some job =>
      attempt ← eff_lift (int_field job.(ej_fields) "attempt" 0);
      expires ← eff_lift (add_seconds now lease_seconds);
      let job := progress_update [("phase", PStr "SNAPSHOT_VALIDATION")]
        (job_update [("status", PStr "RUNNING"); ("attempt", PInt (attempt + 1)); ("lease_token", PStr token);
                     ("lease_expires_at", PStr (iso expires));
                     ("started_at", py_or (field job.(ej_fields) "started_at") (PStr (iso now)));
                     ("updated_at", PStr (iso now))] job)%string in
      _ ← _save_locked job;
      mret (Some job)
  end.

(** [secrets.compare_digest] takes text of ASCII characters only. *)
Fixpoint ascii_only (s : string) : bool :=
  match s with
  | EmptyString => true
  | String c s' => (Z.of_N (Ascii.N_of_ascii c) <? 128) && ascii_only s'
  end.
Definition compare_digest (a b : string) : res bool :=
  if ascii_only a && ascii_only b then Ok (bool_decide (a = b))
  else Err (TypeError "comparing strings with non-ASCII characters is not supported").

Definition _owns (job : ExportJob) (attempt : Z) (lease_token : string) : res bool :=
  and_also (Ok (equals_str (field job.(ej_fields) "status") "RUNNING"))
    (and_also (n ← int_field job.(ej_fields) "attempt" 0; Ok (n =? attempt))
       (compare_digest (field_text (job.(ej_fields) !! "lease_token"%string)) lease_token)).

Definition _guarded_update (export_id : string) (attempt : Z) (lease_token : string)
    (mutate : ExportJob -> eff QueueState (bool * ExportJob)) (updated_at : Z) : eff QueueState bool :=
  found ← find_job export_id;
  match found with
  | None => mret false
  | Some job =>
      owned ← eff_lift (_owns job attempt lease_token);
      if negb owned then mret false
      else
        '((changed, job) : bool * ExportJob) ← mutate job;
        if negb changed then mret false
        else _ ← _save_locked (job_update [("updated_at", PStr (iso updated_at))]%string job); mret true
  end.

Definition heartbeat (export_id : string) (attempt : Z) (lease_token : string) (lease_seconds : Z)
    (now updated_at : Z) : eff QueueState bool :=
  _guarded_update export_id attempt lease_token (fun job =>
    expires ← eff_lift (add_seconds now lease_seconds);
    mret (true, job_update [("lease_expires_at", PStr (iso expires))]%string job)) updated_at.

(** One item of the reported progress. *)
Definition merge_progress (current : descriptor) (entry : string * py_scalar) : res descriptor :=
  let '(key, value) := entry in
  if bool_decide (key ∈ _PROGRESS_COUNTERS) then
    old ← int_field current key 0;
    new ← py_int value;
    Ok (<[key := PInt (Z.max old (if bool_decide (key = "percent"%string) then Z.min 99 new else new))]> current)
  else if bool_decide (key = "phase"%string) then Ok (<[key := PStr (py_str value)]> current)
  else Ok current.

Fixpoint merge_all (current : descriptor) (progress : list (string * py_scalar)) : res descriptor :=
  match progress with
  | [] => Ok current
  | entry :: progress' => current ← merge_progress current entry; merge_all current progress'
  end.

Definition progress (export_id : string) (attempt : Z) (lease_token : string)
    (values : list (string * py_scalar)) (updated_at : Z) : eff QueueState bool :=
  _guarded_update export_id attempt lease_token (fun job =>
    current ← eff_lift (merge_all (default ∅ job.(ej_progress)) values);
    mret (true, mk_export_job job.(ej_fields) (Some current))) updated_at.

(** ** Ends of an attempt *)

Definition cancelled (completed_at : Z) : list (string * py_scalar) :=
  [("status", PStr "CANCELLED"); ("completed_at", PStr (iso completed_at));
   ("error_code", PStr "PCAP_EXPORT_CANCELLED"); ("error", PStr "PCAP export was cancelled")]%string.

Definition released : list (string * py_scalar) :=
  [("lease_token", PNone); ("lease_expires_at", PNone)]%string.

(** [stored["published"] = True] on the artifact this attempt saved. *)
Definition publish (export_id : string) (attempt : Z) (lease_token : string) (artifact : descriptor)
    : eff QueueState bool := fun q =>
  match q.(q_exports) !! export_id with
  | None => (Ok false, q)
  | Some stored =>
      if negb (py_eq (field stored "attempt") (PInt attempt))
         || negb (equals_str (field stored "lease_token") lease_token)
         || negb (py_eq (field stored "object_key") (field artifact "object_key"))
      then (Ok false, q)
      else (Ok true, mk_queue q.(q_jobs) (<[export_id := <["published"%string := PBool true]> stored]> q.(q_exports))
                       q.(q_content))
  end.

(** The artifact's fields and the end of the job. *)
Definition finish_job (status : string) (artifact : descriptor) (completed_at : Z) (job : ExportJob) : res ExportJob :=
  let fields := update (artifact ∪ job.(ej_fields))
    ([("status", PStr status); ("completed_at", PStr (iso completed_at))]%string ++ released
     ++ if bool_decide (status = "COMPLETED"%string) then [("error_code", PNone); ("error", PNone)]%string else []) in
  let current := default ∅ job.(ej_progress) in
  percent ← (if bool_decide (status = "COMPLETED"%string) then Ok 100
             else old ← int_field current "percent" 0; Ok (Z.min 99 old));
  Ok (mk_export_job fields (Some (update current [("phase", PStr "TERMINAL"); ("percent", PInt percent)]%string))).

(** The state of [complete]'s closure: whether the artifact was accepted. *)
Definition complete_mutate (export_id : string) (attempt : Z) (lease_token : string) (artifact : descriptor)
    (completed_at : Z) (job : ExportJob) : eff QueueState (bool * ExportJob) :=
  if py_truthy (field job.(ej_fields) "cancellation_requested") then
    mret (true, job_update (cancelled completed_at ++ released) job)
  else
    let status := py_str (default (PStr "COMPLETED") (artifact !! "status"%string)) in
    if negb (bool_decide (status ∈ ["COMPLETED"; "FAILED"]%string)) then mret (false, job)
    else if bool_decide (status = "COMPLETED"%string) && bool_decide (field artifact "published" = PBool false) then
      published ← publish export_id attempt lease_token artifact;
      if negb published then mret (false, job)
      else
        job ← eff_lift (finish_job status (<["published"%string := PBool true]> artifact) completed_at job);
        mret (true, job)
    else
      job ← eff_lift (finish_job status artifact completed_at job);
      mret (true, job).

(** The artifact was accepted when the update went through and the job was not
    cancelled. *)
Definition complete (export_id : string) (attempt : Z) (lease_token : string) (artifact : descriptor)
    (completed_at updated_at : Z) : eff QueueState bool :=
  before ← find_job export_id;
  updated ← _guarded_update export_id attempt lease_token
              (complete_mutate export_id attempt lease_token artifact completed_at) updated_at;
  mret (updated && match before with
                   | Some job => negb (py_truthy (field job.(ej_fields) "cancellation_requested"))
                   | None => false
                   end).

(** [retry_base_seconds * 2 ** (attempt - 1)] in microseconds, rounded as
    [timedelta] rounds when the power is a fraction. *)
Definition backoff (retry_base_seconds attempt : Z) : Z :=
  if 1 <=? attempt then retry_base_seconds * 2 ^ (attempt - 1) * 1000000
  else
    let d := 2 ^ (1 - attempt) in
    let n := retry_base_seconds * 1000000 in
    let q := n / d in
    let r := n mod d in
    if (d <? 2 * r) || ((d =? 2 * r) && Z.odd q) then q + 1 else q.

Definition retry_or_fail (export_id : string) (attempt : Z) (lease_token : string) (transient : bool)
    (error_code error : string) (retry_base_seconds now updated_at : Z) : eff QueueState bool :=
  _guarded_update export_id attempt lease_token (fun job =>
    changes ← (if py_truthy (field job.(ej_fields) "cancellation_requested") then mret (cancelled now)
               else
                 again ← (if transient then
                            max_attempts ← eff_lift (int_field job.(ej_fields) "max_attempts" 3);
                            mret (attempt <? max_attempts)
                          else mret false);
                 if again : bool then
                   next ← eff_lift (later now (backoff retry_base_seconds attempt));
                   mret [("status", PStr "QUEUED"); ("next_attempt_at", PStr (iso next))]%string
                 else
                   mret [("status", PStr "FAILED");
                         ("error_code", PStr (if transient then "PCAP_EXPORT_RETRY_EXHAUSTED" else error_code));
                         ("error", PStr error); ("completed_at", PStr (iso now))]%string);
    mret (true, job_update (changes ++ released) job)) updated_at.

Definition cancel (export_id : string) (reason : option string) (requested_at completed_at : Z)
    : eff QueueState ExportJob :=
  found ← find_job export_id;
  match found with
  | None => eff_raise (KeyError export_id)
  | Some job =>
      status ← eff_lift (item job.(ej_fields) "status");
      let requested := [("cancellation_requested", PBool true);
                        ("cancellation_requested_at", PStr (iso requested_at));
                        ("cancellation_reason", default PNone (PStr <$> reason))]%string in
      if one_of status ["COMPLETED"; "FAILED"]%string then mret job
      else
        let job := if equals_str status "QUEUED" then job_update (requested ++ cancelled completed_at) job
                   else if equals_str status "RUNNING" then job_update requested job
                   else job in
        _ ← _save_locked job;
        mret job
  end.

(** ** Recovery *)

Definition expired (now : Z) (j : ExportJob) : res bool :=
  let expiry := field j.(ej_fields) "lease_expires_at" in
  and_also (status ← item j.(ej_fields) "status"; Ok (equals_str status "RUNNING"))
    (if py_truthy expiry then at_ ← parse_time expiry; Ok (at_ <=? now) else Ok false).

Definition recovered (now : Z) (j : ExportJob) : res ExportJob :=
  changes ← (if py_truthy (field j.(ej_fields) "cancellation_requested") then Ok (cancelled now)
             else
               attempt ← int_field j.(ej_fields) "attempt" 0;
               max_attempts ← int_field j.(ej_fields) "max_attempts" 3;
               Ok (if max_attempts <=? attempt then
                     [("status", PStr "FAILED"); ("completed_at", PStr (iso now));
                      ("error_code", PStr "PCAP_EXPORT_RETRY_EXHAUSTED");
                      ("error", PStr "PCAP export retry attempts were exhausted")]%string
                   else [("status", PStr "QUEUED"); ("next_attempt_at", PStr (iso now))]%string));
  Ok (job_update (changes ++ released ++ [("updated_at", PStr (iso now))]%string) j).

Fixpoint recover_jobs (now : Z) (jobs : list ExportJob) (count : Z) : eff QueueState Z :=
  match jobs with
  | [] => mret count
  | j :: jobs' =>
      dead ← eff_lift (expired now j);
      if dead : bool then
        j' ← eff_lift (recovered now j); _ ← _save_locked j'; recover_jobs now jobs' (count + 1)
      else recover_jobs now jobs' count
  end.

Definition recover_expired (now : Z) : eff QueueState Z :=
  jobs ← load_all; recover_jobs now jobs 0.

(** ** Retention *)

Definition retention_key (j : ExportJob) : res ((string * string) * ExportJob) :=
  let f := j.(ej_fields) in
  id ← item f "id";
  Ok ((py_str (py_or (field f "completed_at") (py_or (field f "updated_at") (PStr ""))), py_str id), j).

Definition too_old (cutoff : Z) (j : ExportJob) : res bool :=
  let timestamp := py_or (field j.(ej_fields) "completed_at") (field j.(ej_fields) "updated_at") in
  if py_truthy timestamp then at_ ← fromiso (py_str timestamp); Ok (at_ <? cutoff) else Ok false.

(** [while len(survivors) > max_count: selected.add(survivors.pop(0))] *)
Fixpoint drop_excess (max_count : Z) (survivors selected : list ExportJob) : res (list ExportJob * list ExportJob) :=
  if max_count <? zlen survivors then
    match survivors with
    | [] => Err (IndexError "pop from empty list")
    | j :: survivors' => drop_excess max_count survivors' (selected ++ [j])
    end
  else Ok (survivors, selected).

(** [int(job.get("size_bytes", 0) or 0)] *)
Definition artifact_bytes (j : ExportJob) : res Z :=
  py_int (py_or (default (PInt 0) (j.(ej_fields) !! "size_bytes"%string)) (PInt 0)).

(** [while survivors and retained_bytes > max_artifact_bytes: ...] *)
Fixpoint drop_bytes (max_artifact_bytes retained : Z) (survivors selected : list ExportJob) : res (list ExportJob) :=
  match survivors with
  | [] => Ok selected
  | j :: survivors' =>
      if max_artifact_bytes <? retained then
        size ← artifact_bytes j;
        drop_bytes max_artifact_bytes (retained - size) survivors' (selected ++ [j])
      else Ok selected
  end.

Definition job_id (j : ExportJob) : string := py_str (field j.(ej_fields) "id").

(** The ids of the jobs to drop, oldest first. *)
Definition retention (now max_age_seconds max_count max_artifact_bytes : Z) (jobs : list ExportJob) : res (list string) :=
  let terminal := filter (fun j => one_of (field j.(ej_fields) "status") TERMINAL_EXPORT_STATES = true) jobs in
  keyed ← map_res retention_key terminal;
  let terminal := (sort_by (fun a b => text_pair_leb a.1 b.1) keyed).*2 in
  cutoff ← add_seconds now (- max_age_seconds);
  aged ← filter_res (too_old cutoff) terminal;
  let survivors := filter (fun j => job_id j ∉ job_id <$> aged) terminal in
  '(survivors, excess) ← drop_excess max_count survivors [];
  sizes ← map_res artifact_bytes survivors;
  heavy ← drop_bytes max_artifact_bytes (foldr Z.add 0 sizes) survivors [];
  let selected := job_id <$> (aged ++ excess ++ heavy) in
  Ok (job_id <$> filter (fun j => job_id j ∈ selected) terminal).

(** [memory.pop], [exports.pop] and [export_content.pop] for each id. *)
Definition remove_exports (ids : list string) (q : QueueState) : QueueState :=
  mk_queue (filter (fun e => e.1 ∉ ids) q.(q_jobs)) (filter (fun e => e.1 ∉ ids) q.(q_exports))
    (filter (fun e => e.1 ∉ ids) q.(q_content)).

Definition retain_terminal (now max_age_seconds max_count max_artifact_bytes : Z) : eff QueueState (list string) :=
  jobs ← load_all;
  ordered ← eff_lift (retention now max_age_seconds max_count max_artifact_bytes jobs);
  with_state (fun q => (Ok ordered, remove_exports ordered q)).

(** ** The artifacts in the memory repository *)

(** The chunks are collected until the size hint is met exactly; [failed] when
    the producer raises after the last of them. *)
Fixpoint collect_chunks (failed : bool) (size_hint size : Z) (collected : bytes) (chunks : list bytes) : res bytes :=
  match chunks with
  | [] =>
      if failed then Err (ArtifactProducerError "artifact producer failed")
      else if size =? size_hint then Ok collected
      else Err (ArtifactProducerError "artifact producer ended before size hint")
  | chunk :: chunks' =>
      if bool_decide (chunk = []) then collect_chunks failed size_hint size collected chunks'
      else
        let size := size + zlen chunk in
        if size_hint <? size then Err (ArtifactProducerError "artifact producer yielded more than size hint")
        else collect_chunks failed size_hint size (collected ++ chunk) chunks'
  end.

Definition _consume_artifact_chunks (chunks : list bytes) (failed : bool) (size_hint : Z) : res bytes :=
  _ ← raise_if (size_hint <? 0) (ArtifactProducerError "artifact size hint must be non-negative");
  collect_chunks failed size_hint 0 [] chunks.

(** [job_exists]: whether a key is one of the repository's analysis jobs. *)
Definition save_export_stream (sha256_hex : bytes -> string) (job_exists : string -> bool) (export : descriptor)
    (chunks : list bytes) (failed : bool) (size_hint : Z) : eff QueueState (option descriptor) := fun q =>
  match (content ← _consume_artifact_chunks chunks failed size_hint;
         let stored := update export [("size_bytes", PInt (zlen content)); ("sha256", PStr (sha256_hex content))]%string in
         job_id ← item export "job_id";
         if negb (job_exists (py_str job_id)) then Ok None
         else
           id ← item export "id";
           if bool_decide (is_Some (q.(q_exports) !! py_str id)) then
             Err (ArtifactAlreadyExistsError ("export already exists: " +:+ py_str id))
           else Ok (Some (py_str id, stored, content))) with
  | Err e => (Err e, q)
  | Ok None => (Ok None, q)
  | Ok (Some (id, stored, content)) =>
      (Ok (Some stored), mk_queue q.(q_jobs) (<[id := stored]> q.(q_exports)) (<[id := content]> q.(q_content)))
  end.

Definition save_export (sha256_hex : bytes -> string) (job_exists : string -> bool) (export : descriptor)
    (content : bytes) : eff QueueState (option descriptor) :=
  save_export_stream sha256_hex job_exists export [content] false (zlen content).

Definition get_export_metadata (export_id : string) : eff QueueState (option descriptor) := fun q =>
  (Ok (metadata ← q.(q_exports) !! export_id;
       if bool_decide (field metadata "published" = PBool false) then None else Some metadata), q).

Definition get_export (export_id : string) : eff QueueState (option (descriptor * bytes)) := fun q =>
  match q.(q_exports) !! export_id with
  | None => (Ok None, q)
  | Some metadata =>
      if bool_decide (field metadata "published" = PBool false) then (Ok None, q)
      else match q.(q_content) !! export_id with
           | None => (Err (ArtifactMissingError ("artifact content is missing: " +:+ export_id)), q)
           | Some content => (Ok (Some (metadata, content)), q)
           end
  end.

Definition remove_artifact (export_id : string) (q : QueueState) : QueueState :=
  mk_queue q.(q_jobs) (delete export_id q.(q_exports)) (delete export_id q.(q_content)).

(** [isinstance(v, int)] *)
Definition is_int (v : py_scalar) : bool := match v with PInt _ | PBool _ => true | _ => false end.
Definition is_str (v : py_scalar) : bool := match v with PStr _ => true | _ => false end.

(** The job completed with this very artifact. *)
Definition published_winner (lifecycle : option ExportJob) (attempt : Z) (artifact : descriptor) : res bool :=
  match lifecycle with
  | None => Ok false
  | Some j =>
      let f := j.(ej_fields) in
      if equals_str (field f "status") "COMPLETED" then
        n ← int_field f "attempt" 0;
        Ok ((n =? attempt) && is_str (field artifact "sha256") && is_int (field artifact "size_bytes")
            && py_eq (field f "sha256") (field artifact "sha256")
            && py_eq (field f "size_bytes") (field artifact "size_bytes"))
      else Ok false
  end.

Definition compensate_pcap_export_artifact (export_id : string) (attempt : Z) (lease_token : string)
    (artifact : descriptor) : eff QueueState unit :=
  lifecycle ← get export_id;
  winner ← eff_lift (published_winner lifecycle attempt artifact);
  let object_key := field artifact "object_key" in
  let referenced := py_truthy object_key
    && match lifecycle with Some j => py_eq (field j.(ej_fields) "object_key") object_key | None => false end in
  if winner || referenced then mret tt
  else with_state (fun q =>
    match q.(q_exports) !! export_id with
    | None => (Ok tt, q)
    | Some metadata =>
        if py_eq (field metadata "attempt") (PInt attempt) && equals_str (field metadata "lease_token") lease_token
           && py_eq (field metadata "object_key") object_key
        then (Ok tt, remove_artifact export_id q) else (Ok tt, q)
    end).

(** An unpublished artifact with an object key that no job refers to. *)
Definition orphan (cutoff : Z) (referenced : list string) (metadata : descriptor) : res bool :=
  let object_key := field metadata "object_key" in
  let created := field metadata "created_at" in
  if bool_decide (field metadata "published" = PBool false) && py_truthy object_key
     && negb (bool_decide (py_str object_key ∈ referenced)) && py_truthy created
  then at_ ← fromiso (py_str created); Ok (at_ <=? cutoff)
  else Ok false.

Definition orphan_key (e : string * descriptor) : string * (string * string) :=
  (field_text (e.2 !! "created_at"%string), (e.1, py_str (field e.2 "object_key"))).

Definition orphan_leb (a b : string * (string * string)) : bool :=
  if bool_decide (a.1 = b.1) then text_pair_leb a.2 b.2 else str_leb a.1 b.1.

(** [sorted(...)[:limit]] and then [pop]; a negative limit counts from the end. *)
Definition cleanup_pcap_export_orphans (now max_age_seconds limit : Z) : eff QueueState (list string) := fun q =>
  let referenced := py_str <$> filter (fun v => py_truthy v = true) ((fun j => field j.(ej_fields) "object_key") <$> _load_all_locked q) in
  match (cutoff ← add_seconds now (- max_age_seconds);
         found ← filter_res (fun e => orphan cutoff referenced e.2) (map_to_list q.(q_exports));
         let sorted := sort_by orphan_leb (orphan_key <$> found) in
         Ok (ztake (if limit <? 0 then Z.max 0 (zlen sorted + limit) else limit) sorted)) with
  | Err e => (Err e, q)
  | Ok candidates => (Ok (candidates.*2.*2), foldl (fun q c => remove_artifact c.2.1 q) q candidates)
  end.
End queue.

(** ** New jobs *)

(** What [build_async_job] makes of a request; [now] is the text of the time, the
    fingerprints are those of the request documents. *)
Definition build_async_job (export_id now principal_scope requested_job_id : string) (snapshot : descriptor)
    (candidate_id idempotency_key : option string) (request_fingerprint coalesce : string) (max_attempts : Z)
    : res ExportJob :=
  source_job_id ← item snapshot "source_job_id";
  source_generation ← item snapshot "source_generation";
  policy_version ← item snapshot "policy_version";
  source_kind ← item snapshot "source_kind";
  Ok (mk_export_job
    (list_to_map [("id", PStr export_id); ("principal_scope", PStr principal_scope);
       ("idempotency_key", default PNone (PStr <$> idempotency_key));
       ("request_fingerprint", PStr request_fingerprint); ("coalesce_fingerprint", PStr coalesce);
       ("job_id", PStr requested_job_id); ("source_job_id", source_job_id);
       ("candidate_id", default PNone (PStr <$> candidate_id)); ("status", PStr "QUEUED");
       ("execution_mode", PStr "ASYNC"); ("cancellation_requested", PBool false); ("attempt", PInt 0);
       ("max_attempts", PInt max_attempts); ("source_generation", source_generation);
       ("source_kind", source_kind); ("source_total_bytes", field snapshot "source_total_bytes");
       ("source_packet_count", field snapshot "source_packet_count"); ("policy_version", policy_version);
       ("queued_at", PStr now); ("created_at", PStr now); ("updated_at", PStr now); ("started_at", PNone);
       ("completed_at", PNone); ("next_attempt_at", PStr now);
       ("status_url", PStr ("/api/v1/pcap-exports/" +:+ export_id)); ("download_url", PNone);
       ("error_code", PNone); ("error", PNone)]%string)
    (Some (list_to_map [("phase", PStr "QUEUED"); ("percent", PInt 0); ("scanned_source_bytes", PInt 0);
       ("scanned_packet_count", PInt 0); ("matched_packet_count", PInt 0); ("exported_packet_count", PInt 0)]%string))).
