(* ===== verification/ExportQueueProofs.v ===== *)
(** * ExportQueueProofs

    The reachable states of the export queue.  A step is one operation of a
    client, a worker or the maintenance, in any order and with any arguments;
    what an operation may do is described once, by the change it makes to one
    job, and every operation is shown to be such a change. *)

From Stdlib Require Import String.
From S2P Require Import Prelude Bytes PostingModel FlowFilter ExportRepository SequentialExport ExportQueue.
#[local] Open Scope Z_scope.

(** ** Jobs by key *)

Fixpoint job_at (key : string) (jobs : list (string * ExportJob)) : option ExportJob :=
  match jobs with
  | [] => None
  | (k, j) :: jobs' => if bool_decide (k = key) then Some j else job_at key jobs'
  end.

Lemma job_at_elem key jobs j : job_at key jobs = Some j -> (key, j) ∈ jobs.
Proof.
  induction jobs as [|[k x] jobs IH]; simpl; [done|]. case_bool_decide as Hk; [|set_solver].
  intros [= ->]. subst. set_solver.
Qed.

Lemma elem_job_at key jobs j : NoDup jobs.*1 -> (key, j) ∈ jobs -> job_at key jobs = Some j.
Proof.
  induction jobs as [|[k x] jobs IH]; simpl; intros Hnd Hin; [set_solver|].
  apply NoDup_cons in Hnd as [Hk Hnd]. case_bool_decide as Heq.
  - subst. apply elem_of_cons in Hin as [[= ->]|Hin]; [done|]. destruct Hk. apply list_elem_of_fmap. by exists (key, j).
  - apply elem_of_cons in Hin as [[= -> ->]|Hin]; [done|]. by apply IH.
Qed.

Lemma job_at_None key jobs : job_at key jobs = None <-> key ∉ jobs.*1.
Proof.
  induction jobs as [|[k x] jobs IH]; simpl; [set_solver|]. case_bool_decide; [set_solver|]. rewrite IH. set_solver.
Qed.

Lemma job_at_store key j jobs k : job_at k (store_job key j jobs) = if bool_decide (k = key) then Some j else job_at k jobs.
Proof.
  assert (forall a b : string, bool_decide (a = b) = bool_decide (b = a)) as Hsym by (intros; by apply bool_decide_ext).
  induction jobs as [|[k' x] jobs IH]; cbn [store_job job_at]; [by rewrite Hsym|].
  destruct (decide (k' = key)) as [->|Hk].
  - rewrite (bool_decide_true (key = key)) by done. cbn [job_at]. rewrite (Hsym key k). by destruct (bool_decide (k = key)).
  - rewrite (bool_decide_false (k' = key)) by done. cbn [job_at]. rewrite IH.
    destruct (decide (k' = k)) as [->|Hk']; [by rewrite bool_decide_true, bool_decide_false by done|by rewrite (bool_decide_false (k' = k))].
Qed.

Lemma store_job_keys key j jobs :
  (store_job key j jobs).*1 = if bool_decide (key ∈ jobs.*1) then jobs.*1 else jobs.*1 ++ [key].
Proof.
  induction jobs as [|[k x] jobs IH]; [done|]. cbn [store_job]. rewrite fmap_cons. cbn [fst].
  destruct (decide (k = key)) as [->|Hk].
  - rewrite (bool_decide_true (key = key)), bool_decide_true by set_solver. done.
  - rewrite (bool_decide_false (k = key)) by done. rewrite fmap_cons, IH. cbn [fst].
    destruct (decide (key ∈ jobs.*1)); [rewrite !bool_decide_true by set_solver|rewrite !bool_decide_false by set_solver]; done.
Qed.

Lemma store_job_NoDup key j jobs : NoDup jobs.*1 -> NoDup (store_job key j jobs).*1.
Proof.
  intros Hnd. rewrite store_job_keys. case_bool_decide; [done|]. apply NoDup_app. split_and!; [done|set_solver|].
  apply NoDup_singleton.
Qed.

(** How many entries satisfy a test. *)
Definition count (f : ExportJob -> bool) (jobs : list (string * ExportJob)) : Z :=
  zlen (filter (fun e => f e.2 = true) jobs).

Lemma count_cons f e jobs : count f (e :: jobs) = Z.b2z (f e.2) + count f jobs.
Proof.
  unfold count. rewrite filter_cons. destruct (f e.2); simpl; [|done]. rewrite zlen_cons. lia.
Qed.

Lemma count_store f key j jobs :
  NoDup jobs.*1 ->
  count f (store_job key j jobs) =
  count f jobs + Z.b2z (f j) - match job_at key jobs with Some old => Z.b2z (f old) | None => 0 end.
Proof.
  induction jobs as [|[k x] jobs IH]; intros Hnd; cbn [store_job job_at].
  - rewrite count_cons. simpl. lia.
  - apply NoDup_cons in Hnd as [_ Hnd]. destruct (bool_decide (k = key)); rewrite !count_cons; simpl; [lia|]. rewrite IH by done. lia.
Qed.

Lemma count_filter f (P : string * ExportJob -> Prop) `{!forall e, Decision (P e)} jobs : count f (filter P jobs) <= count f jobs.
Proof.
  induction jobs as [|e jobs IH]; [done|]. rewrite filter_cons. destruct (decide (P e)); rewrite ?count_cons; [lia|].
  destruct (f e.2); simpl; lia.
Qed.

(** ** Well-formed jobs *)

(** [j[key]] is [v]. *)
Definition has (j : ExportJob) (key : string) (v : py_scalar) : Prop := j.(ej_fields) !! key = Some v.

(** Looks a key up after an update with named keys. *)
Ltac look := solve [
  unfold has, field, job_update, progress_update, update, cancelled, released in *; cbn [ej_fields ej_progress foldl app] in *;
  repeat first [ rewrite lookup_insert_ne by done | rewrite lookup_insert_eq ]; cbn [default]; done ].

(** Named keys leave the identity of a job alone. *)
Ltac keys := solve [ cbn; repeat (apply Forall_cons; split); [set_solver..|apply Forall_nil; done] ].

#[export] Instance Ok_inj {A} : Inj eq eq (@Ok A).
Proof. by intros x y [= ->]. Qed.

Section queue.
Context {clock : IsoClock} {lawful : LawfulClock}.

(** A job waits, is leased, or has ended. *)
Inductive job_state (issued : gset string) (j : ExportJob) : Prop :=
  | queued_job a m t :
      has j "status" (PStr "QUEUED") -> has j "attempt" (PInt a) -> has j "max_attempts" (PInt m) -> 0 <= a < m ->
      field j.(ej_fields) "lease_token" = PNone -> py_truthy (field j.(ej_fields) "cancellation_requested") = false ->
      has j "next_attempt_at" (PStr (iso t)) -> job_state issued j
  | running_job a m token t :
      has j "status" (PStr "RUNNING") -> has j "attempt" (PInt a) -> has j "max_attempts" (PInt m) -> 1 <= a <= m ->
      has j "lease_token" (PStr token) -> token ∈ issued -> has j "lease_expires_at" (PStr (iso t)) -> job_state issued j
  | ended_job status t :
      status ∈ TERMINAL_EXPORT_STATES -> has j "status" (PStr status) ->
      field j.(ej_fields) "lease_token" = PNone -> has j "completed_at" (PStr (iso t)) -> job_state issued j.

(** The reported percentage reaches 100 in a completed job only. *)
Definition percent_ok (j : ExportJob) : Prop :=
  exists p, default ∅ j.(ej_progress) !! "percent"%string = Some (PInt p) /\
    0 <= p <= if equals_str (field j.(ej_fields) "status") "COMPLETED" then 100 else 99.

Record job_ok (issued : gset string) (key : string) (j : ExportJob) : Prop := {
  jo_id : has j "id" (PStr key);
  jo_queued : exists t, has j "queued_at" (PStr t);
  jo_scope : exists v, has j "principal_scope" v;
  jo_coalesce : exists v, has j "coalesce_fingerprint" v;
  jo_request : exists v, has j "request_fingerprint" v;
  jo_state : job_state issued j;
  jo_percent : percent_ok j;
}.

Definition holds (j : ExportJob) (token : string) : Prop :=
  has j "status" (PStr "RUNNING") /\ has j "lease_token" (PStr token).
Definition ended (j : ExportJob) (status : string) : Prop :=
  status ∈ TERMINAL_EXPORT_STATES /\ has j "status" (PStr status).
Definition is_active (j : ExportJob) : bool := one_of (field j.(ej_fields) "status") ACTIVE_EXPORT_STATES.

(** *** Fields after an update *)

Lemma update_lookup_ne d values key : key ∉ values.*1 -> update d values !! key = d !! key.
Proof.
  revert d. induction values as [|[k v] values IH]; intros d Hk; [done|]. rewrite fmap_cons in Hk. cbn in *.
  rewrite IH by set_solver. rewrite lookup_insert_ne by set_solver. done.
Qed.

Definition identity_keys : list string :=
  ["id"; "queued_at"; "principal_scope"; "coalesce_fingerprint"; "request_fingerprint"]%string.

(** The identity of a job is settled when it is made. *)
Lemma job_ok_identity issued issued' key j j' :
  job_ok issued key j ->
  (forall k, k ∈ identity_keys -> j'.(ej_fields) !! k = j.(ej_fields) !! k) ->
  job_state issued' j' -> percent_ok j' -> job_ok issued' key j'.
Proof.
  intros [H1 H2 H3 H4 H5 _ _] Hk Hs Hp. unfold has in *.
  constructor; unfold has; try done; rewrite Hk by set_solver; done.
Qed.

Lemma update_scope j values progress :
  Forall (fun k => k ∉ values.*1) identity_keys ->
  field (mk_export_job (update j.(ej_fields) values) progress).(ej_fields) "principal_scope" = field j.(ej_fields) "principal_scope".
Proof.
  intros Hk. unfold field. cbn [ej_fields]. rewrite update_lookup_ne; [done|]. rewrite Forall_forall in Hk. apply Hk. set_solver.
Qed.

Lemma job_ok_update issued issued' key j values progress :
  job_ok issued key j -> Forall (fun k => k ∉ values.*1) identity_keys ->
  let j' := mk_export_job (update j.(ej_fields) values) progress in
  job_state issued' j' -> percent_ok j' -> job_ok issued' key j'.
Proof.
  intros Hj Hk j' Hs Hp. eapply job_ok_identity; [done| |done|done]. intros k Hin. cbn. apply update_lookup_ne.
  rewrite Forall_forall in Hk. by apply Hk.
Qed.

Lemma job_state_mono issued issued' j : issued ⊆ issued' -> job_state issued j -> job_state issued' j.
Proof. intros Hsub []; [by eapply queued_job|eapply running_job; eauto|by eapply ended_job]. Qed.

Lemma job_ok_mono issued issued' key j : issued ⊆ issued' -> job_ok issued key j -> job_ok issued' key j.
Proof. intros Hsub []. constructor; try done. by eapply job_state_mono. Qed.

(** *** States exclude each other *)

Lemma terminal_not_active status : status ∈ TERMINAL_EXPORT_STATES -> one_of (PStr status) ACTIVE_EXPORT_STATES = false.
Proof. unfold TERMINAL_EXPORT_STATES. intros H. repeat (apply elem_of_cons in H as [->|H]; [done|]). by apply not_elem_of_nil in H. Qed.

Lemma has_field j key v : has j key v -> field j.(ej_fields) key = v.
Proof. unfold has, field. by intros ->. Qed.

Lemma ended_inactive j status : ended j status -> is_active j = false.
Proof. intros [Ht Hs]. unfold is_active. rewrite (has_field _ _ _ Hs). by apply terminal_not_active. Qed.

Lemma has_status_inj j s s' : has j "status" (PStr s) -> has j "status" (PStr s') -> s = s'.
Proof. unfold has. congruence. Qed.

Lemma ended_not_running j status : ended j status -> ~ has j "status" (PStr "RUNNING").
Proof. intros [Ht Hs] Hr. pose proof (has_status_inj _ _ _ Hs Hr) as ->. by apply terminal_not_active in Ht. Qed.

(** ** The state of the queue *)

(** The settings [capacity] and [per_principal_limit]. *)
Record Limits : Type := mk_limits { max_active : Z; max_per_principal : Z }.

Definition active_for (scope : string) (j : ExportJob) : bool :=
  is_active j && equals_str (field j.(ej_fields) "principal_scope") scope.

Record queue_ok (capacity : Limits) (issued : gset string) (q : QueueState) : Prop := {
  qo_keys : NoDup q.(q_jobs).*1;
  qo_jobs : forall key j, job_at key q.(q_jobs) = Some j -> job_ok issued key j;
  qo_leases : forall k1 k2 j1 j2 token, job_at k1 q.(q_jobs) = Some j1 -> job_at k2 q.(q_jobs) = Some j2 ->
    holds j1 token -> holds j2 token -> k1 = k2;
  qo_active : count is_active q.(q_jobs) <= Z.max 0 capacity.(max_active);
  qo_principal : forall scope, count (active_for scope) q.(q_jobs) <= Z.max 0 capacity.(max_per_principal);
  qo_published : forall id e token, q.(q_exports) !! id = Some e -> field e "published" <> PBool false ->
    field e "lease_token" = PStr token -> exists j, job_at id q.(q_jobs) = Some j /\ ended j "COMPLETED";
}.

Definition same_attempt (j j' : ExportJob) : Prop := j'.(ej_fields) !! "attempt"%string = j.(ej_fields) !! "attempt"%string.

(** What no step undoes: a job that has not ended stays in the queue, an ended
    job keeps its status until it is dropped, and a lease that is held was held
    before, for the same attempt, or is new. *)
Record advances (issued : gset string) (q q' : QueueState) : Prop := {
  ad_kept : forall key j, job_at key q.(q_jobs) = Some j -> is_active j = true -> is_Some (job_at key q'.(q_jobs));
  ad_ended : forall key j status, job_at key q.(q_jobs) = Some j -> ended j status ->
    job_at key q'.(q_jobs) = None \/ exists j', job_at key q'.(q_jobs) = Some j' /\ ended j' status;
  ad_leases : forall key j' token, job_at key q'.(q_jobs) = Some j' -> holds j' token ->
    (exists j, job_at key q.(q_jobs) = Some j /\ holds j token /\ same_attempt j j') \/ token ∉ issued;
}.

Lemma advances_same issued q q' : q'.(q_jobs) = q.(q_jobs) -> advances issued q q'.
Proof. intros Hj. constructor; rewrite Hj; [eauto..|]. intros key j' token Hj' Hh. left. by exists j'. Qed.

(** One job goes on from [j] to [j']. *)
Record change (issued issued' : gset string) (key : string) (j j' : ExportJob) : Prop := {
  ch_ok : job_ok issued' key j';
  ch_ended : forall status, ended j status -> ended j' status;
  ch_holds : forall token, holds j' token -> (holds j token /\ same_attempt j j') \/ token ∉ issued;
  ch_active : is_active j' = true -> is_active j = true;
  ch_scope : is_active j' = true -> field j'.(ej_fields) "principal_scope" = field j.(ej_fields) "principal_scope";
}.

Lemma count_replace f key j j' jobs :
  NoDup jobs.*1 -> job_at key jobs = Some j -> (f j' = true -> f j = true) -> count f (store_job key j' jobs) <= count f jobs.
Proof.
  intros Hnd Hj Hf. rewrite count_store, Hj by done. destruct (f j') eqn:E; [rewrite Hf by done; lia|].
  destruct (f j); simpl; lia.
Qed.

Lemma held_issued issued key j token : job_ok issued key j -> holds j token -> token ∈ issued.
Proof.
  intros Hj [Hs Ht]. destruct (jo_state _ _ _ Hj) as [? ? ? Hs'|? ? ? ? Hs' ? ? ? Ht'|? ? Hin Hs'].
  - pose proof (has_status_inj _ _ _ Hs Hs'). done.
  - unfold has in *. congruence.
  - by destruct (ended_not_running j status).
Qed.

Lemma change_queue capacity issued issued' q key j j' :
  queue_ok capacity issued q -> job_at key q.(q_jobs) = Some j -> issued ⊆ issued' -> change issued issued' key j j' ->
  let q' := with_jobs (store_job key j' q.(q_jobs)) q in
  queue_ok capacity issued' q' /\ advances issued q q'.
Proof.
  intros [Hnd Hjobs Hleases Hactive Hprincipal Hpub] Hj Hsub [Cok Cended Cholds Cactive Cscope] q'. unfold q'. split.
  - constructor; cbn [q_jobs q_exports with_jobs].
    + by apply store_job_NoDup.
    + intros k x. rewrite job_at_store. case_bool_decide as Hk; [intros [= <-]; by subst|].
      intros Hx. eapply job_ok_mono; [done|by apply Hjobs].
    + assert (forall k x token, k <> key -> job_at k q.(q_jobs) = Some x -> holds x token -> holds j' token -> k = key) as Hother.
      { intros k x token Hk Hx Hh Hh'. destruct (Cholds _ Hh') as [[Hold _]|Hnew]; [by eapply Hleases|].
        destruct Hnew. eapply held_issued; [by apply Hjobs|done]. }
      intros k1 k2 j1 j2 token. rewrite !job_at_store. case_bool_decide as E1; case_bool_decide as E2; intros H1 H2 Hh1 Hh2;
        simplify_eq; [done|by eapply eq_sym, Hother|by eapply Hother|by eapply (Hleases k1 k2)].
    + etransitivity; [by eapply count_replace|done].
    + intros scope. etransitivity; [eapply count_replace; [done..|]|apply Hprincipal].
      unfold active_for. intros [Ha Hs]%andb_true_iff. rewrite Cscope in Hs by done. by rewrite Cactive, Hs.
    + intros id e token He Hp Ht. destruct (Hpub _ _ _ He Hp Ht) as (x & Hx & Hended). rewrite job_at_store.
      case_bool_decide; [|by exists x]. exists j'. split; [done|]. apply Cended. congruence.
  - constructor; cbn [q_jobs with_jobs].
    + intros k x Hx _. rewrite job_at_store. case_bool_decide; by eexists.
    + intros k x status Hx Hended. rewrite job_at_store. case_bool_decide; [|eauto]. right. exists j'. split; [done|].
      apply Cended. congruence.
    + intros k x token. rewrite job_at_store. case_bool_decide; [|intros Hx Hh; left; by exists x]. intros [= <-] Hh. subst.
      destruct (Cholds _ Hh); [left; by exists j|by right].
Qed.

(** *** Finding and saving *)

Lemma next_res_pure {A} (f : A -> res bool) (g : A -> bool) l :
  Forall (fun x => f x = Ok (g x)) l -> next_res f l = Ok (List.find g l).
Proof. induction 1 as [|x l Hx _ IH]; [done|]. simpl. rewrite Hx. simpl. by destruct (g x). Qed.

Lemma find_job_at capacity issued q id :
  queue_ok capacity issued q -> find_job id q = (Ok (job_at id q.(q_jobs)), q).
Proof.
  intros [Hnd Hjobs _ _ _ _]. unfold find_job, mbind, eff_bind, load_all, _load_all_locked, eff_lift. f_equal.
  assert (forall k j, (k, j) ∈ q.(q_jobs) -> has j "id" (PStr k)) as Hid
    by (intros k j Hin; by eapply jo_id, Hjobs, elem_job_at). clear Hjobs Hnd.
  induction q.(q_jobs) as [|[k j] jobs IH]; [done|]. cbn [fmap list_fmap snd next_res job_at].
  unfold item. rewrite (Hid k j) by set_solver. cbn [mbind res_bind]. unfold equals_str.
  destruct (decide (k = id)) as [->|Hne].
  - by rewrite !bool_decide_true.
  - rewrite !bool_decide_false by congruence. apply IH. intros k' j' Hin. apply Hid. set_solver.
Qed.

Lemma save_job_at key j q : has j "id" (PStr key) -> _save_locked j q = (Ok tt, with_jobs (store_job key j q.(q_jobs)) q).
Proof. intros Hid. unfold _save_locked, item. by rewrite Hid. Qed.

(** ** Changes of one job *)

Lemma active_change issued issued' key j j' :
  is_active j = true -> job_ok issued' key j' -> (forall token, holds j' token -> (holds j token /\ same_attempt j j') \/ token ∉ issued) ->
  (is_active j' = true -> field j'.(ej_fields) "principal_scope" = field j.(ej_fields) "principal_scope") ->
  change issued issued' key j j'.
Proof. intros Ha Hok Hh Hs. constructor; try done. intros status He. apply ended_inactive in He. congruence. Qed.

Lemma status_holds j status token : has j "status" (PStr status) -> status <> "RUNNING"%string -> ~ holds j token.
Proof. intros Hs Hne [Hr _]. pose proof (has_status_inj _ _ _ Hs Hr). done. Qed.

Lemma running_active j : has j "status" (PStr "RUNNING") -> is_active j = true.
Proof. intros Hs. unfold is_active. by rewrite (has_field _ _ _ Hs). Qed.

(** The percentage of a job that did not complete. *)
Lemma percent_low j : percent_ok j -> ~ has j "status" (PStr "COMPLETED") ->
  exists p, default ∅ j.(ej_progress) !! "percent"%string = Some (PInt p) /\ 0 <= p <= 99.
Proof.
  intros (p & Hp & Hle) Hs. exists p. split; [done|]. unfold equals_str, field in Hle. unfold has in Hs.
  rewrite bool_decide_false in Hle; [done|]. destruct (j.(ej_fields) !! _) as [v|]; [|done]. simpl. by intros ->.
Qed.

Lemma percent_high p (j : ExportJob) : default ∅ j.(ej_progress) !! "percent"%string = Some (PInt p) -> 0 <= p <= 99 -> percent_ok j.
Proof. intros Hp Hle. exists p. split; [done|]. destruct (equals_str _ _); lia. Qed.

(** Facts about a leased job. *)
Record leased (issued : gset string) (key : string) (j : ExportJob) (attempt : Z) (token : string) : Prop := {
  le_ok : job_ok issued key j;
  le_status : has j "status" (PStr "RUNNING");
  le_attempt : has j "attempt" (PInt attempt);
  le_token : has j "lease_token" (PStr token);
  le_issued : token ∈ issued;
  le_max : exists m, has j "max_attempts" (PInt m) /\ 1 <= attempt <= m;
  le_expires : exists t, has j "lease_expires_at" (PStr (iso t));
  le_percent : exists p, default ∅ j.(ej_progress) !! "percent"%string = Some (PInt p) /\ 0 <= p <= 99;
}.

Lemma leased_intro issued key j attempt token :
  job_ok issued key j -> holds j token -> has j "attempt" (PInt attempt) -> leased issued key j attempt token.
Proof.
  intros Hj [Hs Ht] Ha. destruct (jo_state _ _ _ Hj) as [? ? ? Hs'|a m token' t Hs' Ha' Hm Hle Ht' Hi He|? ? Hin Hs'].
  - pose proof (has_status_inj _ _ _ Hs Hs'). done.
  - unfold has in *. simplify_eq. constructor; try done; [by exists m|by exists t|].
    apply percent_low; [apply Hj|]. intros Hc. pose proof (has_status_inj _ _ _ Hs Hc). done.
  - by destruct (ended_not_running j status).
Qed.

(** A leased job that ends. *)
Lemma end_change issued key j attempt token values status t progress :
  leased issued key j attempt token -> status ∈ TERMINAL_EXPORT_STATES ->
  let j' := mk_export_job (update j.(ej_fields) values) progress in
  Forall (fun k => k ∉ values.*1) identity_keys ->
  has j' "status" (PStr status) -> field j'.(ej_fields) "lease_token" = PNone -> has j' "completed_at" (PStr (iso t)) ->
  percent_ok j' -> change issued issued key j j'.
Proof.
  intros L Hst j' Hk H1 H2 H3 H4. apply active_change; [apply running_active, L| | |intros _; by apply update_scope].
  - eapply job_ok_update; [apply L|done| |done]. by eapply ended_job.
  - intros token' Hh. exfalso. by apply (ended_not_running j' status (conj Hst H1)), (proj1 Hh).
Qed.

Lemma update_app d a b : update (update d a) b = update d (a ++ b).
Proof. unfold update. by rewrite foldl_app. Qed.

Lemma job_update_app a b j : job_update b (job_update a j) = job_update (a ++ b) j.
Proof. unfold job_update. cbn. by rewrite update_app. Qed.

(** The lease goes on with other details. *)
Lemma keep_change issued key j attempt token values progress :
  leased issued key j attempt token ->
  let j' := mk_export_job (update j.(ej_fields) values) progress in
  Forall (fun k => k ∉ values.*1) identity_keys ->
  "status"%string ∉ values.*1 -> "attempt"%string ∉ values.*1 -> "max_attempts"%string ∉ values.*1 ->
  "lease_token"%string ∉ values.*1 -> (exists t, has j' "lease_expires_at" (PStr (iso t))) -> percent_ok j' ->
  change issued issued key j j'.
Proof.
  intros L j' Hk Hs Ha Hm Ht [t He] Hp.
  assert (forall k v, k ∉ values.*1 -> has j k v -> has j' k v) as Hkeep
    by (intros k v Hn Hv; unfold has, j'; cbn; by rewrite update_lookup_ne).
  apply active_change; [apply running_active, L| | |intros _; by apply update_scope].
  - eapply job_ok_update; [apply L|done| |done]. destruct (le_max _ _ _ _ _ L) as (m & Hmax & Hle).
    apply (running_job _ _ attempt m token t); try done; try (apply Hkeep; [done|]); try apply L. done.
  - intros token' [_ Hh]. left. split; [split; [apply L|]|].
    + unfold has, j' in *. cbn in Hh. by rewrite update_lookup_ne in Hh.
    + unfold same_attempt, j'. cbn. by rewrite update_lookup_ne.
Qed.

(** A leased job goes back to the queue when an attempt is left. *)
Lemma requeue_change issued key j attempt token values m t progress :
  leased issued key j attempt token -> has j "max_attempts" (PInt m) -> attempt < m ->
  py_truthy (field j.(ej_fields) "cancellation_requested") = false ->
  let j' := mk_export_job (update j.(ej_fields) values) progress in
  Forall (fun k => k ∉ values.*1) identity_keys -> "attempt"%string ∉ values.*1 -> "max_attempts"%string ∉ values.*1 ->
  "cancellation_requested"%string ∉ values.*1 ->
  has j' "status" (PStr "QUEUED") -> field j'.(ej_fields) "lease_token" = PNone -> has j' "next_attempt_at" (PStr (iso t)) ->
  percent_ok j' -> change issued issued key j j'.
Proof.
  intros L Hm Hlt Hc j' Hk Ka Km Kc Hs Ht Hn Hp. apply active_change; [apply running_active, L| | |intros _; by apply update_scope].
  - eapply job_ok_update; [apply L|done| |done]. destruct (le_max _ _ _ _ _ L) as (_ & _ & Hle & _).
    apply (queued_job _ _ attempt m t); try done.
    + unfold has, j'. cbn. rewrite update_lookup_ne by done. apply L.
    + unfold has, j'. cbn. by rewrite update_lookup_ne by done.
    + lia.
    + unfold field, j'. cbn. by rewrite update_lookup_ne by done.
  - intros token' Hh. exfalso. by eapply status_holds.
Qed.

Lemma leased_percent issued key j attempt token fields :
  leased issued key j attempt token -> percent_ok (mk_export_job fields j.(ej_progress)).
Proof. intros L. destruct (le_percent _ _ _ _ _ L) as (p & Hp & Hle). by eapply percent_high. Qed.

Lemma cancelled_change issued key j attempt token t more :
  leased issued key j attempt token -> Forall (fun k => k ∉ more.*1) identity_keys ->
  "status"%string ∉ more.*1 -> "completed_at"%string ∉ more.*1 -> "lease_token"%string ∉ more.*1 ->
  change issued issued key j (job_update ((cancelled t ++ released) ++ more) j).
Proof.
  intros L Hk Hs Hc Ht. unfold job_update. apply (end_change issued key j attempt token _ "CANCELLED" t); [done|set_solver| | | | |by eapply leased_percent].
  - rewrite Forall_forall in *. intros k Hin. rewrite fmap_app, not_elem_of_app. split; [|by apply Hk]. revert k Hin. apply Forall_forall. keys.
  - unfold has. cbn [ej_fields]. rewrite <- update_app, update_lookup_ne by done. look.
  - unfold field. cbn [ej_fields]. rewrite <- update_app, update_lookup_ne by done. look.
  - unfold has. cbn [ej_fields]. rewrite <- update_app, update_lookup_ne by done. look.
Qed.

(** ** Operations of the holder of a lease *)

(** What an operation leads to. *)
Definition leads (capacity : Limits) (issued issued' : gset string) (q q' : QueueState) : Prop :=
  queue_ok capacity issued' q' /\ advances issued q q'.

Lemma leads_refl capacity issued q : queue_ok capacity issued q -> leads capacity issued issued q q.
Proof. intros Hq. split; [done|]. by apply advances_same. Qed.

Definition owned (q : QueueState) (id : string) (attempt : Z) (token : string) : Prop :=
  exists j, job_at id q.(q_jobs) = Some j /\ holds j token /\ has j "attempt" (PInt attempt).

Lemma owns_spec issued key j attempt token :
  job_ok issued key j ->
  match _owns j attempt token with
  | Ok b => b = true <-> holds j token /\ has j "attempt" (PInt attempt)
  | Err _ => holds j token -> ascii_only token = false
  end.
Proof.
  intros Hj. unfold _owns, equals_str. case_bool_decide as Hs; cbn [and_also mbind res_bind].
  - assert (has j "status" (PStr "RUNNING")) as Hr by (unfold has, field in *; destruct (_ !! _); simpl in *; congruence).
    destruct (jo_state _ _ _ Hj) as [? ? ? Hs'|a m token' t Hs' Ha Hm Hle Ht Hi He|status ? Hin Hs'].
    + pose proof (has_status_inj _ _ _ Hr Hs'). done.
    + unfold int_field, compare_digest, holds, has in *. rewrite Ha, Ht. cbn. destruct (Z.eqb_spec a attempt) as [->|Hne].
      * destruct (ascii_only token') eqn:E1; [destruct (ascii_only token) eqn:E2|]; cbn; [|done|intros [_ [= ->]]; done].
        rewrite bool_decide_eq_true. split; [intros ->; done|]. by intros [[_ [= ->]] _].
      * split; [done|]. intros [_ [= ->]]. done.
    + by destruct (ended_not_running j status).
  - split; [done|]. intros [[Hr _] _]. destruct Hs. by apply has_field.
Qed.

Lemma guarded_unowned capacity issued q id attempt token mutate t :
  queue_ok capacity issued q -> ~ owned q id attempt token ->
  exists r, _guarded_update id attempt token mutate t q = (r, q) /\ r <> Ok true.
Proof.
  intros Hq Hno. unfold _guarded_update, mbind, eff_bind. rewrite (find_job_at _ _ _ _ Hq).
  destruct (job_at id q.(q_jobs)) as [j|] eqn:Hj; [|by eexists].
  pose proof (owns_spec issued id j attempt token (qo_jobs _ _ _ Hq _ _ Hj)) as Hown. unfold eff_lift.
  destruct (_owns j attempt token) as [[]|e]; [|by eexists..]. destruct Hno. exists j. by destruct Hown as [[? ?] _].
Qed.

Lemma guarded_step capacity issued q id attempt token mutate t r q' :
  queue_ok capacity issued q ->
  (forall j, job_at id q.(q_jobs) = Some j -> leased issued id j attempt token ->
     match mutate j q with
     | (Ok (true, j'), q1) => has j' "id" (PStr id) /\
         leads capacity issued issued q (with_jobs (store_job id (job_update [("updated_at", PStr (iso t))]%string j') q1.(q_jobs)) q1)
     | (_, q1) => leads capacity issued issued q q1
     end) ->
  _guarded_update id attempt token mutate t q = (r, q') -> leads capacity issued issued q q'.
Proof.
  intros Hq Hmut. unfold _guarded_update, mbind, eff_bind. rewrite (find_job_at _ _ _ _ Hq).
  destruct (job_at id q.(q_jobs)) as [j|] eqn:Hj; [|intros [= _ <-]; by apply leads_refl].
  pose proof (qo_jobs _ _ _ Hq _ _ Hj) as Hok.
  pose proof (owns_spec issued id j attempt token Hok) as Hown. unfold eff_lift.
  destruct (_owns j attempt token) as [[]|e]; cbn [negb]; [|intros [= _ <-]; by apply leads_refl..].
  destruct Hown as [Hown _]. destruct (Hown eq_refl) as [Hh Ha]. specialize (Hmut j eq_refl (leased_intro _ _ _ _ _ Hok Hh Ha)).
  destruct (mutate j q) as [[[[] j']|e] q1]; [|intros [= _ <-]; done..]. cbn [negb]. destruct Hmut as [Hid Hl].
  rewrite (save_job_at id) by look. intros [= _ <-]. done.
Qed.

(** The mutation of a job that leaves the rest alone. *)
Lemma leased_step capacity issued q id j j' attempt token t :
  queue_ok capacity issued q -> job_at id q.(q_jobs) = Some j -> leased issued id j attempt token ->
  change issued issued id j (job_update [("updated_at", PStr (iso t))]%string j') ->
  has j' "id" (PStr id) /\
  leads capacity issued issued q (with_jobs (store_job id (job_update [("updated_at", PStr (iso t))]%string j') q.(q_jobs)) q).
Proof.
  intros Hq Hj L Hc. split; [|by eapply change_queue].
  pose proof (jo_id _ _ _ (ch_ok _ _ _ _ _ Hc)) as Hid. unfold has, job_update, update in *. cbn in Hid.
  by rewrite lookup_insert_ne in Hid.
Qed.

Lemma heartbeat_leads capacity issued q id attempt token lease_seconds now t r q' :
  queue_ok capacity issued q -> heartbeat id attempt token lease_seconds now t q = (r, q') -> leads capacity issued issued q q'.
Proof.
  intros Hq. apply guarded_step; [done|]. intros j Hj L. unfold mbind, eff_bind, eff_lift.
  destruct (add_seconds now lease_seconds) as [e|e]; [|by apply leads_refl]. cbn. eapply leased_step; [done..|].
  rewrite job_update_app. unfold job_update. eapply keep_change; [done|keys|set_solver..| |by eapply leased_percent]. exists e. look.
Qed.

Lemma merge_percent progress current current' :
  merge_all current progress = Ok current' ->
  (exists p, current !! "percent"%string = Some (PInt p) /\ 0 <= p <= 99) ->
  exists p, current' !! "percent"%string = Some (PInt p) /\ 0 <= p <= 99.
Proof.
  revert current. induction progress as [|[key value] progress IH]; intros current Hm (p & Hp & Hle); [injection Hm as <-; eauto|].
  cbn [merge_all] in Hm. apply bind_Ok in Hm as (next & Hn & Hm). apply (IH next Hm). clear Hm IH. unfold merge_progress in Hn.
  case_bool_decide as Hk.
  - apply bind_Ok in Hn as (old & Hold & (new & _ & [= <-])%bind_Ok). destruct (decide (key = "percent"%string)) as [->|Hne].
    + unfold int_field in Hold. rewrite Hp in Hold. injection Hold as <-. rewrite bool_decide_true by done.
      eexists. rewrite lookup_insert_eq. split; [done|]. lia.
    + exists p. by rewrite lookup_insert_ne.
  - case_bool_decide as Hph; injection Hn as <-; [subst|eauto]. exists p. by rewrite lookup_insert_ne.
Qed.

Lemma progress_leads capacity issued q id attempt token values t r q' :
  queue_ok capacity issued q -> progress id attempt token values t q = (r, q') -> leads capacity issued issued q q'.
Proof.
  intros Hq. apply guarded_step; [done|]. intros j Hj L. unfold mbind, eff_bind, eff_lift.
  destruct (merge_all _ values) as [current|e] eqn:Hm; [|by apply leads_refl]. cbn. eapply leased_step; [done..|].
  unfold job_update. cbn [ej_fields ej_progress]. eapply keep_change; [done|keys|set_solver..| |].
  - destruct (le_expires _ _ _ _ _ L) as [e He]. exists e. look.
  - destruct (merge_percent _ _ _ Hm (le_percent _ _ _ _ _ L)) as (p & Hp & Hle). by eapply percent_high.
Qed.

Lemma int_field_has j key n missing : has j key (PInt n) -> int_field j.(ej_fields) key missing = Ok n.
Proof. unfold has, int_field. by intros ->. Qed.

Lemma retry_leads capacity issued q id attempt token transient code error base now t r q' :
  queue_ok capacity issued q -> retry_or_fail id attempt token transient code error base now t q = (r, q') ->
  leads capacity issued issued q q'.
Proof.
  intros Hq. apply guarded_step; [done|]. intros j Hj L. destruct (le_max _ _ _ _ _ L) as (m & Hm & Hle).
  destruct (py_truthy _) eqn:Hc.
  { cbn. eapply leased_step; [done..|]. rewrite job_update_app. eapply cancelled_change; [done|keys|set_solver..]. }
  assert (forall mx, change issued issued id j (job_update [("updated_at", PStr (iso t))]%string (job_update
    ([("status", PStr "FAILED"); ("error_code", PStr mx); ("error", PStr error); ("completed_at", PStr (iso now))]%string ++ released) j))) as Hfail.
  { intros mx. rewrite job_update_app. unfold job_update.
    apply (end_change issued id j attempt token _ "FAILED" now); [done|set_solver|keys|look|look|look|by eapply leased_percent]. }
  unfold mbind, eff_bind, eff_lift, mret, eff_ret. rewrite (int_field_has _ _ _ _ Hm).
  destruct transient; cbn beta iota; [|by eapply leased_step].
  destruct (Z.ltb_spec attempt m) as [Hlt|Hge]; [|by eapply leased_step].
  destruct (later now _) as [next|e]; [|by apply leads_refl]. eapply leased_step; [done..|]. rewrite job_update_app. unfold job_update.
  apply (requeue_change issued id j attempt token _ m next); [done|done|done|done|keys|set_solver..|look|look|look|by eapply leased_percent].
Qed.

(** *** Completion *)

(** What the artifact of a job may say about the job. *)
Record artifact_ok (id : string) (artifact : descriptor) : Prop := {
  ar_id : artifact !! "id"%string = None \/ artifact !! "id"%string = Some (PStr id);
  ar_queue : Forall (fun k => artifact !! k = None)
    ["queued_at"; "coalesce_fingerprint"; "request_fingerprint"]%string;
}.

Lemma artifact_published id artifact : artifact_ok id artifact -> artifact_ok id (<["published"%string := PBool true]> artifact).
Proof.
  intros [Hid Hq]. constructor; [by rewrite lookup_insert_ne|]. repeat (apply Forall_cons in Hq as [? Hq]).
  repeat (apply Forall_cons; split); try (by rewrite lookup_insert_ne). apply Forall_nil. done.
Qed.

Lemma finish_change issued id j attempt token status artifact completed t j' :
  leased issued id j attempt token -> artifact_ok id artifact -> status ∈ ["COMPLETED"; "FAILED"]%string ->
  finish_job status artifact completed j = Ok j' ->
  let j'' := job_update [("updated_at", PStr (iso t))]%string j' in
  change issued issued id j j'' /\ ended j'' status.
Proof.
  intros L [Hid Hq] Hst Hf j''. destruct (le_percent _ _ _ _ _ L) as (p & Hp & Hle). unfold finish_job in Hf.
  set (extra := if bool_decide (status = "COMPLETED"%string) then [("error_code", PNone); ("error", PNone)]%string else []) in *.
  apply bind_Ok in Hf as (percent & Hpc & Hf). apply (inj Ok) in Hf. subst j'.
  assert (extra = [] \/ extra = [("error_code", PNone); ("error", PNone)]%string) as Hextra by (unfold extra; case_bool_decide; auto).
  assert (0 <= percent <= if bool_decide (status = "COMPLETED"%string) then 100 else 99) as Hperc.
  { case_bool_decide; [injection Hpc as <-; lia|]. apply bind_Ok in Hpc as (old & Hold & [= <-]).
    unfold int_field in Hold. rewrite Hp in Hold. injection Hold as <-. lia. }
  clear Hpc. clearbody extra.
  assert (forall k, k ∉ ["status"; "completed_at"; "lease_token"; "lease_expires_at"; "error_code"; "error"; "updated_at"]%string ->
    j''.(ej_fields) !! k = (artifact ∪ j.(ej_fields)) !! k) as Hother.
  { intros k Hk. unfold j'', job_update. cbn [ej_fields]. rewrite update_app. apply update_lookup_ne.
    destruct Hextra as [-> | ->]; cbn; set_solver. }
  assert (has j'' "status" (PStr status)) as Hstatus by (unfold j''; destruct Hextra as [-> | ->]; look).
  assert (ended j'' status) as Hended by (split; [unfold TERMINAL_EXPORT_STATES; set_solver|done]).
  assert (forall k v, artifact !! k = None -> has j k v -> (artifact ∪ j.(ej_fields)) !! k = Some v) as Hunion
    by (intros k v Ha Hv; rewrite lookup_union_r by done; done).
  repeat (apply Forall_cons in Hq as [? Hq]). pose proof (le_ok _ _ _ _ _ L) as [Jid [tq Jq] [vs Js] [vc Jc] [vr Jr] _ _].
  split; [|done]. apply active_change; [apply running_active, L| | |rewrite (ended_inactive _ _ Hended); done].
  - constructor; unfold has; try (eexists; rewrite Hother by set_solver; by apply Hunion).
    + rewrite Hother by set_solver. destruct Hid as [Hid|Hid]; [by apply Hunion|by apply lookup_union_Some_l].
    + rewrite Hother by set_solver. destruct (artifact !! "principal_scope"%string) as [v|] eqn:E;
        [exists v; by apply lookup_union_Some_l|eexists; by apply Hunion].
    + eapply (ended_job _ _ status completed); [apply Hended|done|unfold j''; destruct Hextra as [-> | ->]; look..].
    + exists percent. split; [apply lookup_insert_eq|].
      rewrite (has_field _ _ _ Hstatus). unfold equals_str.
      replace (bool_decide (PStr status = PStr "COMPLETED")) with (bool_decide (status = "COMPLETED"%string)); [done|].
      apply bool_decide_ext. split; [by intros ->|by intros [= ->]].
  - intros token' [Hr _]. exfalso. by eapply ended_not_running.
Qed.

(** Only the artifact of a completed job may be published. *)
Lemma publish_leads capacity issued q id stored e' j' :
  leads capacity issued issued q (with_jobs (store_job id j' q.(q_jobs)) q) -> q.(q_exports) !! id = Some stored ->
  ended j' "COMPLETED" ->
  leads capacity issued issued q (mk_queue (store_job id j' q.(q_jobs)) (<[id := e']> q.(q_exports)) q.(q_content)).
Proof.
  intros [[Q1 Q2 Q3 Q4 Q5 Q6] [A0 A1 A2]] Hstored He. split; constructor; cbn in *; try done.
  intros id' e token Hid Hp Ht. destruct (decide (id' = id)) as [->|Hne].
  - exists j'. rewrite job_at_store. by rewrite bool_decide_true.
  - rewrite lookup_insert_ne in Hid by done. by eapply Q6.
Qed.

Lemma complete_leads capacity issued q id attempt token artifact completed t r q' :
  queue_ok capacity issued q -> artifact_ok id artifact -> complete id attempt token artifact completed t q = (r, q') ->
  leads capacity issued issued q q'.
Proof.
  intros Hq Har. unfold complete, mbind, eff_bind. rewrite (find_job_at _ _ _ _ Hq).
  destruct (_guarded_update _ _ _ _ _ _) as [r1 q1] eqn:Hg. intros H. assert (q1 = q') as <- by (by destruct r1; injection H).
  clear H. revert Hg. apply guarded_step; [done|]. intros j Hj L. unfold complete_mutate.
  destruct (py_truthy _).
  { cbn. eapply leased_step; [done..|]. rewrite job_update_app. eapply cancelled_change; [done|keys|set_solver..]. }
  set (status := py_str _). case_bool_decide as Hst; cbn [negb]; [|by apply leads_refl].
  destruct (bool_decide (status = _) && _) eqn:Hpub; unfold mbind, eff_bind, eff_lift, mret, eff_ret.
  - apply andb_true_iff in Hpub as [Hc%bool_decide_eq_true _]. unfold publish.
    destruct (q.(q_exports) !! id) as [stored|] eqn:Hstored; [|by apply leads_refl].
    destruct (_ || _); [by apply leads_refl|]. cbn [negb].
    destruct (finish_job _ _ _ _) as [j'|e] eqn:Hf; [|rewrite Hc in Hf; done].
    destruct (finish_change _ _ _ _ _ _ _ _ t _ L (artifact_published _ _ Har) Hst Hf) as [Hch Hend].
    destruct (leased_step _ _ _ _ _ _ _ _ _ Hq Hj L Hch) as [Hid Hl]. split; [done|]. rewrite Hc in Hend.
    by apply (publish_leads capacity issued q id stored).
  - destruct (finish_job _ _ _ _) as [j'|e] eqn:Hf; [|by apply leads_refl].
    destruct (finish_change _ _ _ _ _ _ _ _ t _ L Har Hst Hf) as [Hch _]. by eapply leased_step.
Qed.

(** ** Claiming *)

Lemma next_res_Some {A} (f : A -> res bool) l x : next_res f l = Ok (Some x) -> x ∈ l /\ f x = Ok true.
Proof.
  induction l as [|y l IH]; [done|]. cbn. intros ([] & Hf & Hn)%bind_Ok; [injection Hn as ->; split; [set_solver|done]|].
  destruct (IH Hn). split; [set_solver|done].
Qed.

Lemma map_res_keyed {A B} (f : A -> res (B * A)) l l' :
  (forall x y, f x = Ok y -> y.2 = x) -> map_res f l = Ok l' -> l'.*2 = l.
Proof.
  intros Hf. revert l'. induction l as [|x l IH]; intros l'; [by intros [= <-]|].
  cbn [map_res]. intros (y & Hy & (ys & Hys & [= <-])%bind_Ok)%bind_Ok. rewrite fmap_cons. f_equal; [by apply Hf|by apply IH].
Qed.

Lemma claim_key_job j y : claim_key j = Ok y -> y.2 = j.
Proof. unfold claim_key. intros (a & _ & (b & _ & [= <-])%bind_Ok)%bind_Ok. done. Qed.

Lemma loaded_job capacity issued q j :
  queue_ok capacity issued q -> j ∈ _load_all_locked q -> exists key, job_at key q.(q_jobs) = Some j.
Proof.
  intros [Hnd _ _ _ _ _]. unfold _load_all_locked. intros ([key x] & -> & Hin)%list_elem_of_fmap.
  exists key. by apply elem_job_at.
Qed.

(** A waiting job that gets a new lease. *)
Lemma claim_change issued key j token now expires started :
  job_ok issued key j -> has j "status" (PStr "QUEUED") -> token ∉ issued -> forall a, has j "attempt" (PInt a) ->
  change issued ({[token]} ∪ issued) key j
    (progress_update [("phase", PStr "SNAPSHOT_VALIDATION")]
       (job_update [("status", PStr "RUNNING"); ("attempt", PInt (a + 1)); ("lease_token", PStr token);
          ("lease_expires_at", PStr (iso expires)); ("started_at", started); ("updated_at", PStr (iso now))] j))%string.
Proof.
  intros Hj Hs Hnew a Ha. apply active_change; [unfold is_active; by rewrite (has_field _ _ _ Hs)| | |intros _; look].
  - destruct (jo_state _ _ _ Hj) as [a' m t Hs' Ha' Hm Hle Ht Hc Hn|? ? ? ? Hs'|status ? Hin Hs'];
      [|pose proof (has_status_inj _ _ _ Hs Hs'); done|pose proof (has_status_inj _ _ _ Hs Hs'); subst; by apply terminal_not_active in Hin].
    assert (a' = a) as -> by (unfold has in *; congruence). unfold progress_update, job_update. cbn [ej_fields ej_progress].
    eapply job_ok_update; [done|keys| |].
    + apply (running_job _ _ (a + 1) m token expires); [look|look|look|lia|look|set_solver|look].
    + destruct (percent_low j) as (p & Hp & Hb); [apply Hj|intros Hc'; pose proof (has_status_inj _ _ _ Hs Hc'); done|].
      eapply (percent_high p); [|done]. etransitivity; [by apply lookup_insert_ne|exact Hp].
  - intros token' [_ Ht]. right. assert (token' = token) as ->; [|done].
    unfold has, progress_update, job_update, update in Ht. cbn in Ht.
    rewrite !lookup_insert_ne, lookup_insert_eq in Ht by done. congruence.
Qed.

(** The job a claim returns. *)
Definition claimed_job (token : string) (now expires a : Z) (j : ExportJob) : ExportJob :=
  progress_update [("phase", PStr "SNAPSHOT_VALIDATION")]
    (job_update [("status", PStr "RUNNING"); ("attempt", PInt (a + 1)); ("lease_token", PStr token);
       ("lease_expires_at", PStr (iso expires)); ("started_at", py_or (field j.(ej_fields) "started_at") (PStr (iso now)));
       ("updated_at", PStr (iso now))] j)%string.

(** A claim leaves the queue alone or leases one waiting job. *)
Lemma claim_inv capacity issued q now lease token r q' :
  queue_ok capacity issued q -> claim now lease token q = (r, q') ->
  (q' = q /\ forall j, r <> Ok (Some j)) \/
  (exists key j a expires, job_at key q.(q_jobs) = Some j /\ has j "status" (PStr "QUEUED") /\ has j "attempt" (PInt a) /\
     let j' := claimed_job token now expires a j in
     r = Ok (Some j') /\ q' = with_jobs (store_job key j' q.(q_jobs)) q).
Proof.
  intros Hq. unfold claim, mbind, eff_bind, load_all, eff_lift.
  destruct (map_res claim_key _) as [keyed|e] eqn:Hk; [|intros [= <- <-]; by left]. apply (map_res_keyed _ _ _ claim_key_job) in Hk.
  destruct (next_res _ _) as [[j|]|e] eqn:Hn; [|intros [= <- <-]; by left..]. apply next_res_Some in Hn as [Hin Hcl].
  assert (j ∈ _load_all_locked q) as Hload.
  { rewrite <- Hk. apply list_elem_of_fmap in Hin as (y & -> & Hy). apply list_elem_of_fmap. exists y. split; [done|].
    by rewrite <- (sort_by_perm (fun a b => text_pair_leb a.1 b.1) keyed). }
  destruct (loaded_job _ _ _ _ Hq Hload) as [key Hj]. pose proof (qo_jobs _ _ _ Hq _ _ Hj) as Hok.
  assert (has j "status" (PStr "QUEUED")) as Hs.
  { unfold claimable, and_also, item in Hcl. unfold has. destruct (j.(ej_fields) !! "status"%string) as [v|]; [|done].
    cbn in Hcl. unfold equals_str in Hcl. case_bool_decide as Hv; [|done]. by subst. }
  assert (exists a, has j "attempt" (PInt a)) as [a Ha].
  { destruct (jo_state _ _ _ Hok) as [a m t Hs' Ha|a ? ? ? Hs' Ha|status ? Hi Hs']; [by exists a|by exists a|].
    pose proof (has_status_inj _ _ _ Hs Hs'). subst. by apply terminal_not_active in Hi. }
  rewrite (int_field_has _ _ _ _ Ha). destruct (add_seconds now lease) as [expires|e]; [|intros [= <- <-]; by left].
  intros H. right. exists key, j, a, expires. do 3 (split; [done|]). revert H.
  change (progress_update _ _) with (claimed_job token now expires a j).
  rewrite (save_job_at key); [by intros [= <- <-]|]. unfold claimed_job. pose proof (jo_id _ _ _ Hok). look.
Qed.

Lemma claim_leads capacity issued q now lease token r q' :
  queue_ok capacity issued q -> token ∉ issued -> claim now lease token q = (r, q') ->
  leads capacity issued ({[token]} ∪ issued) q q'.
Proof.
  intros Hq Hnew [[-> _]|(key & j & a & expires & Hj & Hs & Ha & _ & ->)]%(claim_inv _ _ _ _ _ _ _ _ Hq).
  - split; [|by apply advances_same]. destruct Hq as [Q1 Q2 Q3 Q4 Q5 Q6]. constructor; try done.
    intros key j Hj. eapply job_ok_mono; [|by apply Q2]. set_solver.
  - eapply change_queue; [done|done|set_solver|]. by apply claim_change; [apply (qo_jobs _ _ _ Hq)|..].
Qed.
End queue.

