(* ===== verification/ExportQueueSteps.v ===== *)
(** * ExportQueueSteps

    The remaining operations of the export queue, the steps of the system and
    what holds of every state it can reach. *)

From Stdlib Require Import String.
From S2P Require Import Prelude Bytes PostingModel FlowFilter ExportRepository SequentialExport ExportQueue ExportQueueProofs.
#[local] Open Scope Z_scope.

Section steps.
Context {clock : IsoClock} {lawful : LawfulClock}.

(** ** Cancellation *)

(** A waiting job that is given up. *)
Lemma drop_change issued key j values t :
  job_ok issued key j -> has j "status" (PStr "QUEUED") ->
  let j' := job_update values j in
  Forall (fun k => k ∉ values.*1) identity_keys -> "lease_token"%string ∉ values.*1 ->
  has j' "status" (PStr "CANCELLED") -> has j' "completed_at" (PStr (iso t)) -> change issued issued key j j'.
Proof.
  intros Hj Hs j' Hk Ht H1 H2. apply active_change; [unfold is_active; by rewrite (has_field _ _ _ Hs)| | |intros _; by apply update_scope].
  - destruct (jo_state _ _ _ Hj) as [a m t' Hs' Ha Hm Hle Htok Hc Hn|? ? ? ? Hs'|status ? Hin Hs'];
      [|pose proof (has_status_inj _ _ _ Hs Hs'); done|pose proof (has_status_inj _ _ _ Hs Hs'); subst; by apply terminal_not_active in Hin].
    eapply job_ok_update; [done|done| |].
    + eapply (ended_job _ _ "CANCELLED" t); [unfold TERMINAL_EXPORT_STATES; set_solver|done| |done].
      unfold field. cbn. by rewrite update_lookup_ne.
    + destruct (percent_low j) as (p & Hp & Hb); [apply Hj|intros Hc'; pose proof (has_status_inj _ _ _ Hs Hc'); done|].
      by eapply (percent_high p).
  - intros token Hh. exfalso. by eapply status_holds.
Qed.

Lemma same_change issued key j : job_ok issued key j -> change issued issued key j j.
Proof. intros Hj. constructor; try done. by left. Qed.

Lemma running_lease issued key j : job_ok issued key j -> has j "status" (PStr "RUNNING") -> exists attempt token, leased issued key j attempt token.
Proof.
  intros Hj Hs. destruct (jo_state _ _ _ Hj) as [? ? ? Hs'|a m token t Hs' Ha Hm Hle Ht Hi He|status ? Hin Hs'].
  - pose proof (has_status_inj _ _ _ Hs Hs'). done.
  - exists a, token. by apply leased_intro.
  - by destruct (ended_not_running j status).
Qed.

Lemma cancel_leads capacity issued q id reason requested completed r q' :
  queue_ok capacity issued q -> cancel id reason requested completed q = (r, q') -> leads capacity issued issued q q'.
Proof.
  intros Hq. unfold cancel, mbind, eff_bind. rewrite (find_job_at _ _ _ _ Hq).
  destruct (job_at id q.(q_jobs)) as [j|] eqn:Hj; [|intros [= _ <-]; by apply leads_refl].
  pose proof (qo_jobs _ _ _ Hq _ _ Hj) as Hok. unfold eff_lift, item.
  destruct (j.(ej_fields) !! "status"%string) as [status|] eqn:Hs; [|intros [= _ <-]; by apply leads_refl].
  destruct (one_of status _); [intros [= _ <-]; by apply leads_refl|].
  set (j' := if equals_str status "QUEUED" then _ else _).
  assert (change issued issued id j j') as Hch.
  { unfold j', equals_str. case_bool_decide as Hqd; [|case_bool_decide as Hr].
    - subst. eapply (drop_change issued id j _ completed); [done|done|keys|set_solver|look|look].
    - subst. destruct (running_lease _ _ _ Hok Hs) as (a & token & L). unfold job_update.
      eapply keep_change; [done|keys|set_solver..| |by eapply leased_percent]. destruct (le_expires _ _ _ _ _ L) as [e He]. exists e. look.
    - by apply same_change. }
  rewrite (save_job_at id) by apply (ch_ok _ _ _ _ _ Hch). intros [= _ <-]. by eapply change_queue.
Qed.

(** ** Recovery *)

Lemma recovered_change issued key j now j' :
  job_ok issued key j -> has j "status" (PStr "RUNNING") -> recovered now j = Ok j' -> change issued issued key j j'.
Proof.
  intros Hj Hs Hr. destruct (running_lease _ _ _ Hj Hs) as (a & token & L). destruct (le_max _ _ _ _ _ L) as (m & Hm & Hle).
  unfold recovered in Hr. destruct (py_truthy _) eqn:Hc.
  { injection Hr as <-. pose proof (cancelled_change issued key j a token now [("updated_at", PStr (iso now))]%string) as H.
    unfold job_update in *. rewrite <- app_assoc in H. apply H; [done|keys|set_solver..]. }
  rewrite (int_field_has _ _ _ _ (le_attempt _ _ _ _ _ L)), (int_field_has _ _ _ _ Hm) in Hr. cbn [mbind res_bind] in Hr.
  apply (inj Ok) in Hr. subst j'. destruct (Z.leb_spec m a).
  - unfold job_update. apply (end_change issued key j a token _ "FAILED" now); [done|unfold TERMINAL_EXPORT_STATES; set_solver|keys|look|look|look|by eapply leased_percent].
  - unfold job_update. apply (requeue_change issued key j a token _ m now); [done|done|done|done|keys|set_solver..|look|look|look|by eapply leased_percent].
Qed.

Lemma queue_advances_trans issued q1 q2 q3 :
  advances issued q1 q2 -> advances issued q2 q3 -> q3.(q_jobs).*1 = q2.(q_jobs).*1 -> advances issued q1 q3.
Proof.
  intros [K1 E1 L1] [K2 E2 L2] Hkeys. constructor.
  - intros key j Hj Ha. destruct (K1 _ _ Hj Ha) as [j2 Hj2]. apply not_eq_None_Some. rewrite job_at_None, Hkeys.
    rewrite <- job_at_None. congruence.
  - intros key j status Hj He. destruct (E1 _ _ _ Hj He) as [Hn|(j2 & Hj2 & He2)]; [|by eapply E2].
    left. rewrite job_at_None in *. by rewrite Hkeys.
  - intros key j token Hj Hh. destruct (L2 _ _ _ Hj Hh) as [(j2 & Hj2 & Hh2 & Ha2)|]; [|by right].
    destruct (L1 _ _ _ Hj2 Hh2) as [(j1 & Hj1 & Hh1 & Ha1)|]; [|by right]. left. exists j1. unfold same_attempt in *. split_and!; [done..|congruence].
Qed.

Lemma store_job_same key j j' jobs : job_at key jobs = Some j -> (store_job key j' jobs).*1 = jobs.*1.
Proof.
  intros Hj. rewrite store_job_keys, bool_decide_true; [done|]. apply job_at_elem in Hj. apply list_elem_of_fmap. by exists (key, j).
Qed.

(** The jobs that are still to be looked at are as they were read. *)
Lemma recover_jobs_leads capacity issued now entries : forall q n r q',
  queue_ok capacity issued q -> NoDup entries.*1 -> Forall (fun e => job_at e.1 q.(q_jobs) = Some e.2) entries ->
  recover_jobs now entries.*2 n q = (r, q') -> leads capacity issued issued q q' /\ q'.(q_jobs).*1 = q.(q_jobs).*1.
Proof.
  induction entries as [|[key j] entries IH]; intros q n r q' Hq Hnd Hat; cbn [fmap list_fmap snd recover_jobs].
  { intros [= _ <-]. split; [by apply leads_refl|done]. }
  apply NoDup_cons in Hnd as [Hkey Hnd]. apply Forall_cons in Hat as [Hj Hat]. cbn [fst snd] in Hj.
  unfold mbind, eff_bind, eff_lift. destruct (expired now j) as [[]|e] eqn:He;
    [|by apply IH|intros [= _ <-]; split; [by apply leads_refl|done]].
  assert (has j "status" (PStr "RUNNING")) as Hs.
  { unfold expired, and_also, item in He. unfold has. destruct (j.(ej_fields) !! "status"%string) as [v|]; [|done].
    cbn in He. unfold equals_str in He. case_bool_decide; [by subst|done]. }
  destruct (recovered now j) as [j'|e] eqn:Hr; [|intros [= _ <-]; split; [by apply leads_refl|done]].
  pose proof (recovered_change _ _ _ _ _ (qo_jobs _ _ _ Hq _ _ Hj) Hs Hr) as Hch.
  rewrite (save_job_at key) by apply (ch_ok _ _ _ _ _ Hch). cbn beta iota.
  destruct (change_queue _ _ _ _ _ _ _ Hq Hj (reflexivity issued) Hch) as [Hq1 Ha1]. intros Hrun.
  assert (Forall (fun e => job_at e.1 (with_jobs (store_job key j' q.(q_jobs)) q).(q_jobs) = Some e.2) entries) as Hat1.
  { rewrite Forall_forall in *. intros [k x] Hin. cbn [q_jobs with_jobs fst snd]. rewrite job_at_store, bool_decide_false; [by apply Hat in Hin|].
    intros ->. destruct Hkey. apply list_elem_of_fmap. by exists (key, x). }
  destruct (IH _ _ _ _ Hq1 Hnd Hat1 Hrun) as [[Hq2 Ha2] Hk2].
  split; [split; [done|by eapply queue_advances_trans]|]. rewrite Hk2. cbn. by eapply store_job_same.
Qed.

Lemma recover_leads capacity issued q now r q' :
  queue_ok capacity issued q -> recover_expired now q = (r, q') -> leads capacity issued issued q q'.
Proof.
  intros Hq. unfold recover_expired, mbind, eff_bind, load_all, _load_all_locked. intros H.
  eapply recover_jobs_leads; [done|apply Hq| |exact H]. rewrite Forall_forall. intros [k j] Hin. apply elem_job_at; [apply Hq|done].
Qed.

(** ** Admission *)

(** A new job waits for its first attempt. *)
Lemma built_ok issued id t principal requested snapshot candidate key fingerprint coalesce m j :
  build_async_job id (iso t) principal requested snapshot candidate key fingerprint coalesce m = Ok j -> 1 <= m ->
  job_ok issued id j /\ has j "principal_scope" (PStr principal) /\ forall token, ~ holds j token.
Proof.
  unfold build_async_job. intros (s1 & _ & (s2 & _ & (s3 & _ & (s4 & _ & Hj)%bind_Ok)%bind_Ok)%bind_Ok)%bind_Ok Hm.
  apply (inj Ok) in Hj. subst j.
  split_and!; [|reflexivity|intros token [Hs _]; discriminate Hs].
  constructor; [reflexivity|eexists; reflexivity..| |].
  - apply (queued_job _ _ 0 m t); try reflexivity. lia.
  - exists 0. split; [reflexivity|]. destruct (equals_str _ _); lia.
Qed.

Lemma store_fresh capacity issued q key j :
  queue_ok capacity issued q -> job_at key q.(q_jobs) = None -> job_ok issued key j -> (forall token, ~ holds j token) ->
  count is_active q.(q_jobs) < capacity.(max_active) ->
  (forall scope, active_for scope j = true -> count (active_for scope) q.(q_jobs) < capacity.(max_per_principal)) -> leads capacity issued issued q (with_jobs (store_job key j q.(q_jobs)) q).
Proof.
  intros [Hnd Hjobs Hleases Hactive Hprincipal Hpub] Hfresh Hok Hnone Hroom Hmine. split; constructor; cbn [q_jobs q_exports with_jobs].
  - by apply store_job_NoDup.
  - intros k x. rewrite job_at_store. case_bool_decide; [intros [= <-]; by subst|apply Hjobs].
  - intros k1 k2 j1 j2 token. rewrite !job_at_store. case_bool_decide; [intros [= <-] _ Hh; by apply Hnone in Hh|].
    case_bool_decide; [intros _ [= <-] _ Hh; by apply Hnone in Hh|]. apply Hleases.
  - rewrite count_store by done. rewrite Hfresh. destruct (is_active j); simpl; lia.
  - intros scope. specialize (Hprincipal scope). specialize (Hmine scope). rewrite count_store by done. rewrite Hfresh.
    destruct (active_for scope j); simpl; [specialize (Hmine eq_refl)|]; lia.
  - intros id e token He Hp Ht. destruct (Hpub _ _ _ He Hp Ht) as (x & Hx & Hended). exists x.
    rewrite job_at_store, bool_decide_false by congruence. done.
  - intros k x Hx _. exists x. by rewrite job_at_store, bool_decide_false by congruence.
  - intros k x status Hx He. right. exists x. rewrite job_at_store, bool_decide_false by congruence. done.
  - intros k x token. rewrite job_at_store. case_bool_decide; [intros [= <-] Hh; by apply Hnone in Hh|intros Hx Hh; left; by exists x].
Qed.

Lemma item_field d key v : item d key = Ok v -> field d key = v.
Proof. unfold item, field. destruct (d !! key); [by intros [= ->]|done]. Qed.

Lemma filter_active q active :
  filter_res (status_in ACTIVE_EXPORT_STATES) (_load_all_locked q) = Ok active -> zlen active = count is_active q.(q_jobs).
Proof.
  unfold _load_all_locked. revert active. induction q.(q_jobs) as [|[k j] jobs IH]; intros active; cbn [fmap list_fmap snd filter_res]; [by intros [= <-]|].
  intros (keep & Hkeep & (xs & Hxs & Ha)%bind_Ok)%bind_Ok. apply (inj Ok) in Ha. subst active.
  unfold status_in in Hkeep. apply bind_Ok in Hkeep as (v & Hv & Hkeep). apply (inj Ok) in Hkeep. subst keep.
  rewrite count_cons, <- (IH _ Hxs). unfold is_active. cbn [snd]. rewrite (item_field _ _ _ Hv).
  destruct (one_of v _); rewrite ?zlen_cons; simpl; lia.
Qed.

Lemma filter_principal q job scope active mine :
  has job "principal_scope" (PStr scope) ->
  filter_res (status_in ACTIVE_EXPORT_STATES) (_load_all_locked q) = Ok active ->
  filter_res (fun x => same_field x job "principal_scope") active = Ok mine -> zlen mine = count (active_for scope) q.(q_jobs).
Proof.
  intros Hscope. unfold _load_all_locked. revert active mine.
  induction q.(q_jobs) as [|[k j] jobs IH]; intros active mine; cbn [fmap list_fmap snd filter_res]; [intros [= <-]; by intros [= <-]|].
  intros (keep & Hkeep & (xs & Hxs & Ha)%bind_Ok)%bind_Ok Hm. apply (inj Ok) in Ha. subst active.
  unfold status_in in Hkeep. apply bind_Ok in Hkeep as (v & Hv & Hkeep). apply (inj Ok) in Hkeep. subst keep.
  rewrite count_cons. unfold active_for at 1, is_active. cbn [snd]. rewrite (item_field _ _ _ Hv).
  destruct (one_of v _); [|rewrite (IH _ _ Hxs Hm); simpl; lia]. cbn [filter_res] in Hm.
  apply bind_Ok in Hm as (same & Hsame & (ys & Hys & Hm)%bind_Ok). apply (inj Ok) in Hm. subst mine. rewrite <- (IH _ _ Hxs Hys).
  unfold same_field in Hsame. apply bind_Ok in Hsame as (x & Hx & (y & Hy & Hsame)%bind_Ok). apply (inj Ok) in Hsame. subst same.
  assert (y = PStr scope) as -> by (unfold item in Hy; rewrite Hscope in Hy; by injection Hy).
  rewrite (item_field _ _ _ Hx). replace (py_eq x (PStr scope)) with (equals_str x scope) by (by destruct x).
  destruct (equals_str x scope); rewrite ?zlen_cons; simpl; lia.
Qed.

Lemma enqueue_leads capacity issued q validate job scope id r q' :
  has job "principal_scope" (PStr scope) -> queue_ok capacity issued q -> job_at id q.(q_jobs) = None -> job_ok issued id job -> (forall token, ~ holds job token) ->
  enqueue validate job capacity.(max_active) capacity.(max_per_principal) q = (r, q') -> leads capacity issued issued q q'.
Proof.
  intros Hscope Hq Hfresh Hok Hnone H. unfold enqueue in H.
  revert H. unfold mbind, eff_bind, load_all, eff_lift, eff_raise_if.
  match goal with |- context [(if bool_decide ?P then ?a else ?b) q] => set (keyed := (if bool_decide P then a else b) q) end.
  assert (keyed.2 = q) as Hk by (unfold keyed; by case_bool_decide). destruct keyed as [[[stored|]|e] q1]; cbn in Hk; subst q1.
  - destruct (same_field stored _ _) as [[]|e]; intros [= _ <-]; by apply leads_refl.
  - destruct (next_res _ _) as [[stored|]|e]; [intros [= _ <-]; by apply leads_refl| |intros [= _ <-]; by apply leads_refl].
    destruct (filter_res (status_in _) _) as [active|e] eqn:Ha; [|intros [= _ <-]; by apply leads_refl].
    pose proof (filter_active _ _ Ha) as Hroom. destruct (Z.leb_spec capacity.(max_active) (zlen active)); [intros [= _ <-]; by apply leads_refl|].
    cbn. destruct (filter_res _ active) as [mine|e] eqn:Hm; [|intros [= _ <-]; by apply leads_refl].
    destruct (Z.leb_spec capacity.(max_per_principal) (zlen mine)); [intros [= _ <-]; by apply leads_refl|]. cbn.
    replace (match validate with Some check => fun w : QueueState => (check job, w) | None => mret true end q)
      with (match validate with Some check => check job | None => Ok true end, q) by (by destruct validate).
    destruct (match validate with Some _ => _ | None => _ end) as [[]|e]; cbn; [|intros [= _ <-]; by apply leads_refl..].
    rewrite (save_job_at id) by apply Hok. intros [= _ <-]. apply store_fresh; try done; [lia|].
    intros scope' Ha'. unfold active_for, equals_str in Ha'. apply andb_true_iff in Ha' as [_ Hs%bool_decide_eq_true].
    rewrite (has_field _ _ _ Hscope) in Hs. injection Hs as <-. pose proof (filter_principal _ _ _ _ _ Hscope Ha Hm). lia.
  - intros [= _ <-]; by apply leads_refl.
Qed.

(** ** Retention *)

Lemma job_at_filter (ids : list string) jobs key :
  job_at key (filter (fun e => e.1 ∉ ids) jobs) = if bool_decide (key ∈ ids) then None else job_at key jobs.
Proof.
  induction jobs as [|[k j] jobs IH]; [by case_bool_decide|]. rewrite filter_cons. cbn [fst].
  destruct (decide (k ∉ ids)) as [Hk|Hk]; cbn [job_at]; rewrite IH.
  - destruct (decide (k = key)) as [->|]; [by rewrite !(bool_decide_true (key = key)), bool_decide_false|].
    by rewrite !(bool_decide_false (k = key)).
  - destruct (decide (k = key)) as [->|]; [rewrite !bool_decide_true by (done || by apply dec_stable); done|].
    by rewrite (bool_decide_false (k = key)).
Qed.

Lemma filter_keys_NoDup (P : string * ExportJob -> Prop) `{!forall e, Decision (P e)} jobs :
  NoDup jobs.*1 -> NoDup (filter P jobs).*1.
Proof.
  intros Hnd. eapply sublist_NoDup; [exact Hnd|]. apply fmap_sublist, sublist_filter.
Qed.

Lemma remove_leads capacity issued q ids :
  queue_ok capacity issued q ->
  (forall key j, job_at key q.(q_jobs) = Some j -> key ∈ ids -> is_active j = false) ->
  leads capacity issued issued q (remove_exports ids q).
Proof.
  intros [Hnd Hjobs Hleases Hactive Hprincipal Hpub] Hids.
  assert (forall key j, job_at key (remove_exports ids q).(q_jobs) = Some j -> job_at key q.(q_jobs) = Some j) as Hold
    by (intros key j; cbn [q_jobs remove_exports]; rewrite job_at_filter; by case_bool_decide).
  split; constructor; try eauto; [| | | | | |intros key j token Hj Hh; left; exists j; split_and!; [by apply Hold|done|done]].
  - cbn [remove_exports q_jobs]. by apply filter_keys_NoDup.
  - etransitivity; [|exact Hactive]. cbn [remove_exports q_jobs]. apply count_filter.
  - intros scope. etransitivity; [|apply (Hprincipal scope)]. cbn [remove_exports q_jobs]. apply count_filter.
  - intros id e token [He Hid]%map_lookup_filter_Some Hp Ht. destruct (Hpub _ _ _ He Hp Ht) as (j & Hj & Hended). exists j.
    cbn [remove_exports q_jobs]. by rewrite job_at_filter, bool_decide_false.
  - intros key j Hj Ha. cbn [remove_exports q_jobs]. rewrite job_at_filter, bool_decide_false; [by eexists|]. intros Hin.
    rewrite (Hids _ _ Hj Hin) in Ha. done.
  - intros key j status Hj He. cbn [remove_exports q_jobs]. rewrite job_at_filter. case_bool_decide; [by left|right; by exists j].
Qed.

Lemma retention_key_job j y : retention_key j = Ok y -> y.2 = j.
Proof. unfold retention_key. intros (a & _ & Hy)%bind_Ok. apply (inj Ok) in Hy. by subst y. Qed.

(** Only ended jobs are selected. *)
Lemma retention_terminal now age n bytes jobs ids :
  retention now age n bytes jobs = Ok ids ->
  Forall (fun id => exists j, j ∈ jobs /\ one_of (field j.(ej_fields) "status") TERMINAL_EXPORT_STATES = true /\ job_id j = id) ids.
Proof.
  unfold retention. intros (keyed & Hk & H)%bind_Ok. apply (map_res_keyed _ _ _ retention_key_job) in Hk.
  apply bind_Ok in H as (cutoff & _ & H). apply bind_Ok in H as (aged & _ & H).
  apply bind_Ok in H as ([survivors excess] & _ & H). apply bind_Ok in H as (sizes & _ & H). apply bind_Ok in H as (heavy & _ & H).
  apply (inj Ok) in H. subst ids. rewrite Forall_forall. intros id (j & -> & Hj)%list_elem_of_fmap.
  apply list_elem_of_filter in Hj as [_ Hj]. rewrite (sort_by_perm (fun a b => text_pair_leb a.1 b.1) keyed), Hk in Hj.
  apply list_elem_of_filter in Hj as [Ht Hin]. by exists j.
Qed.

Lemma retain_leads capacity issued q now age n bytes r q' :
  queue_ok capacity issued q -> retain_terminal now age n bytes q = (r, q') -> leads capacity issued issued q q'.
Proof.
  intros Hq. unfold retain_terminal, mbind, eff_bind, load_all, eff_lift, with_state.
  destruct (retention _ _ _ _ _) as [ids|e] eqn:Hr; [|intros [= _ <-]; by apply leads_refl]. intros [= _ <-].
  apply remove_leads; [done|]. intros key j Hj Hin. apply retention_terminal in Hr. rewrite Forall_forall in Hr.
  destruct (Hr _ Hin) as (j' & Hj' & Ht & Hid). destruct (loaded_job _ _ _ _ Hq Hj') as [key' Hat].
  assert (key' = key) as ->.
  { pose proof (jo_id _ _ _ (qo_jobs _ _ _ Hq _ _ Hat)) as Hk. unfold job_id in Hid. rewrite (has_field _ _ _ Hk) in Hid. done. }
  assert (j' = j) as -> by congruence. destruct (jo_state _ _ _ (qo_jobs _ _ _ Hq _ _ Hj)) as [? ? ? Hs|? ? ? ? Hs|status ? Hst Hs].
  - by rewrite (has_field _ _ _ Hs) in Ht.
  - by rewrite (has_field _ _ _ Hs) in Ht.
  - by eapply ended_inactive.
Qed.

(** ** Artifacts *)

(** The jobs stay, and an artifact is one of those that were there or is not published. *)
Lemma exports_leads capacity issued q q' :
  queue_ok capacity issued q -> q'.(q_jobs) = q.(q_jobs) ->
  (forall id e, q'.(q_exports) !! id = Some e -> q.(q_exports) !! id = Some e \/
     forall token, field e "published" <> PBool false -> field e "lease_token" = PStr token -> False) ->
  leads capacity issued issued q q'.
Proof.
  intros [Hnd Hjobs Hleases Hactive Hprincipal Hpub] Hj He. split; [|by apply advances_same]. constructor; rewrite ?Hj; try done.
  intros id e token Hid Hp Ht. destruct (He _ _ Hid) as [Hold|Hnone]; [by eapply Hpub|by destruct (Hnone token)].
Qed.

(** The artifact of a leased attempt is saved unpublished. *)
Definition export_ok (export : descriptor) : Prop :=
  field export "published" = PBool false \/ field export "lease_token" = PNone.

Lemma save_leads capacity issued q sha256_hex job_exists export chunks failed size_hint r q' :
  queue_ok capacity issued q -> export_ok export ->
  save_export_stream sha256_hex job_exists export chunks failed size_hint q = (r, q') -> leads capacity issued issued q q'.
Proof.
  intros Hq He. unfold save_export_stream. destruct (mbind _ _) as [[[[id stored] content]|]|e] eqn:Hs;
    [|intros [= _ <-]; by apply leads_refl..]. intros [= _ <-].
  apply exports_leads; [done|done|]. intros id' e. cbn. destruct (decide (id' = id)) as [->|Hne].
  - rewrite lookup_insert_eq. intros [= <-]. right. intros token Hp Ht.
    apply bind_Ok in Hs as (content' & _ & Hs). apply bind_Ok in Hs as (job & _ & Hs). destruct (negb _); [done|].
    apply bind_Ok in Hs as (id2 & _ & Hs). case_bool_decide; [done|]. apply (inj Ok) in Hs. injection Hs as <- <- <-.
    unfold field, update in Hp, Ht. cbn in Hp, Ht. rewrite !lookup_insert_ne in Hp by done. rewrite !lookup_insert_ne in Ht by done.
    unfold export_ok, field in He. destruct He; congruence.
  - rewrite lookup_insert_ne by done. by left.
Qed.

Lemma remove_artifact_lookup export_id q id e :
  (remove_artifact export_id q).(q_exports) !! id = Some e -> q.(q_exports) !! id = Some e.
Proof. cbn. by intros [_ ?]%lookup_delete_Some. Qed.

Lemma compensate_leads capacity issued q id attempt token artifact r q' :
  queue_ok capacity issued q -> compensate_pcap_export_artifact id attempt token artifact q = (r, q') ->
  leads capacity issued issued q q'.
Proof.
  intros Hq. unfold compensate_pcap_export_artifact, mbind, eff_bind, get, eff_lift, with_state.
  destruct (published_winner _ _ _) as [winner|e]; [|intros [= _ <-]; by apply leads_refl].
  destruct (_ || _); [intros [= _ <-]; by apply leads_refl|].
  destruct (q.(q_exports) !! id); [|intros [= _ <-]; by apply leads_refl].
  destruct (_ && _); intros [= _ <-]; [|by apply leads_refl].
  apply exports_leads; [done|done|]. intros id' e He. left. by eapply remove_artifact_lookup.
Qed.

Lemma cleanup_leads capacity issued q now age limit r q' :
  queue_ok capacity issued q -> cleanup_pcap_export_orphans now age limit q = (r, q') -> leads capacity issued issued q q'.
Proof.
  intros Hq. unfold cleanup_pcap_export_orphans.
  destruct (mbind _ _) as [candidates|e]; intros [= _ <-]; [|by apply leads_refl].
  assert (forall q1, (foldl (fun q c => remove_artifact c.2.1 q) q1 candidates).(q_jobs) = q1.(q_jobs) /\
    forall id e, (foldl (fun q c => remove_artifact c.2.1 q) q1 candidates).(q_exports) !! id = Some e -> q1.(q_exports) !! id = Some e) as Hfold.
  { induction candidates as [|c candidates IH]; intros q1; [done|]. cbn [foldl]. destruct (IH (remove_artifact c.2.1 q1)) as [Hj He].
    split; [by rewrite Hj|]. intros id e Hid. apply He in Hid. by eapply remove_artifact_lookup. }
  destruct (Hfold q) as [Hj He]. apply exports_leads; [done|done|]. intros id e Hid. left. by apply He.
Qed.

(** ** The system *)

(** One operation of a client, a worker or the maintenance, with the tokens
    issued so far.  [secrets] and [uuid4] give values that were not used before;
    [capacity] holds the settings. *)
Inductive queue_step (capacity : Limits) : relation (gset string * QueueState) :=
  | step_enqueue issued q validate id t principal requested snapshot candidate key fingerprint coalesce max_attempts job r q' :
      build_async_job id (iso t) principal requested snapshot candidate key fingerprint coalesce max_attempts = Ok job ->
      1 <= max_attempts -> job_at id q.(q_jobs) = None ->
      enqueue validate job capacity.(max_active) capacity.(max_per_principal) q = (r, q') -> queue_step capacity (issued, q) (issued, q')
  | step_claim issued q now lease_seconds token r q' :
      token ∉ issued -> claim now lease_seconds token q = (r, q') ->
      queue_step capacity (issued, q) ({[token]} ∪ issued, q')
  | step_heartbeat issued q id attempt token lease_seconds now updated r q' :
      heartbeat id attempt token lease_seconds now updated q = (r, q') -> queue_step capacity (issued, q) (issued, q')
  | step_progress issued q id attempt token values updated r q' :
      progress id attempt token values updated q = (r, q') -> queue_step capacity (issued, q) (issued, q')
  | step_complete issued q id attempt token artifact completed updated r q' :
      artifact_ok id artifact -> complete id attempt token artifact completed updated q = (r, q') ->
      queue_step capacity (issued, q) (issued, q')
  | step_retry issued q id attempt token transient code error base now updated r q' :
      retry_or_fail id attempt token transient code error base now updated q = (r, q') ->
      queue_step capacity (issued, q) (issued, q')
  | step_cancel issued q id reason requested completed r q' :
      cancel id reason requested completed q = (r, q') -> queue_step capacity (issued, q) (issued, q')
  | step_recover issued q now r q' :
      recover_expired now q = (r, q') -> queue_step capacity (issued, q) (issued, q')
  | step_retain issued q now age max_count max_bytes r q' :
      retain_terminal now age max_count max_bytes q = (r, q') -> queue_step capacity (issued, q) (issued, q')
  | step_save issued q sha256_hex job_exists export chunks failed size_hint r q' :
      export_ok export -> save_export_stream sha256_hex job_exists export chunks failed size_hint q = (r, q') ->
      queue_step capacity (issued, q) (issued, q')
  | step_compensate issued q id attempt token artifact r q' :
      compensate_pcap_export_artifact id attempt token artifact q = (r, q') -> queue_step capacity (issued, q) (issued, q')
  | step_cleanup issued q now age limit r q' :
      cleanup_pcap_export_orphans now age limit q = (r, q') -> queue_step capacity (issued, q) (issued, q').

Lemma queue_step_leads capacity s s' :
  queue_step capacity s s' -> queue_ok capacity s.1 s.2 -> s.1 ⊆ s'.1 /\ leads capacity s.1 s'.1 s.2 s'.2.
Proof.
  destruct 1; cbn [fst snd]; intros Hq; (split; [set_solver|]).
  - edestruct built_ok as (Hok & Hscope & Hnone); [done..|]. by eapply enqueue_leads.
  - by eapply claim_leads.
  - by eapply heartbeat_leads.
  - by eapply progress_leads.
  - by eapply complete_leads.
  - by eapply retry_leads.
  - by eapply cancel_leads.
  - by eapply recover_leads.
  - by eapply retain_leads.
  - by eapply save_leads.
  - by eapply compensate_leads.
  - by eapply cleanup_leads.
Qed.

Definition empty_queue : QueueState := mk_queue [] ∅ ∅.
Definition reachable (capacity : Limits) : gset string * QueueState -> Prop :=
  rtc (queue_step capacity) (∅, empty_queue).

Lemma empty_queue_ok capacity : queue_ok capacity ∅ empty_queue.
Proof. constructor; cbn; try done; [apply NoDup_nil_2|apply Z.le_max_l|intros; apply Z.le_max_l]. Qed.

Lemma steps_ok capacity s s' :
  rtc (queue_step capacity) s s' -> queue_ok capacity s.1 s.2 -> queue_ok capacity s'.1 s'.2.
Proof. induction 1 as [|s s1 s' Hstep _ IH]; [done|]. intros Hq. apply IH. by apply (queue_step_leads _ _ _ Hstep). Qed.

Lemma steps_issued capacity s s' :
  rtc (queue_step capacity) s s' -> queue_ok capacity s.1 s.2 -> s.1 ⊆ s'.1.
Proof.
  induction 1 as [|s s1 s' Hstep _ IH]; [done|]. intros Hq. destruct (queue_step_leads _ _ _ Hstep Hq) as (Hsub & Hq1 & _).
  etransitivity; [exact Hsub|by apply IH].
Qed.

Lemma reachable_ok capacity s : reachable capacity s -> queue_ok capacity s.1 s.2.
Proof. intros Hr. eapply steps_ok; [exact Hr|]. apply empty_queue_ok. Qed.

End steps.
