(* ===== verification/ExportQueueSafety.v ===== *)
(** * ExportQueueSafety

    What holds of every state the export queue can reach: its invariant, and
    that a worker which lost its lease changes nothing any more. *)

From Stdlib Require Import Ascii String.
From S2P Require Import Prelude Bytes PostingModel FlowFilter ExportRepository SequentialExport ExportQueue ExportQueueProofs ExportQueueSteps.
#[local] Open Scope Z_scope.

(** ** A clock *)

(** Times as binary numerals. *)
Fixpoint bits_text (p : positive) : string :=
  match p with
  | xH => EmptyString
  | xO p' => String "0"%char (bits_text p')
  | xI p' => String "1"%char (bits_text p')
  end.
Fixpoint text_bits (s : string) : res positive :=
  match s with
  | EmptyString => Ok xH
  | String c s' => p ← text_bits s'; Ok (if bool_decide (c = "1"%char) then xI p else xO p)
  end.

#[export] Instance numeral_clock : IsoClock := {
  iso t := match t with Z0 => "0"%string | Zpos p => String "+"%char (bits_text p) | Zneg p => String "-"%char (bits_text p) end;
  fromiso s :=
    match s with
    | String "0"%char _ => Ok 0
    | String "+"%char s' => p ← text_bits s'; Ok (Zpos p)
    | String "-"%char s' => p ← text_bits s'; Ok (Zneg p)
    | _ => Err (ValueError "Invalid isoformat string")
    end;
}.

Lemma text_bits_text p : text_bits (bits_text p) = Ok p.
Proof. induction p as [p IH|p IH|]; cbn; [by rewrite IH..|done]. Qed.

#[export] Instance numeral_clock_lawful : LawfulClock.
Proof. constructor; intros [|p|p]; cbn; try done; by rewrite text_bits_text. Qed.

(** ** The owner of a lease *)

(** The operation reports no success and leaves the queue as it is. *)
Definition refused (operation : eff QueueState bool) (q : QueueState) : Prop :=
  exists r, operation q = (r, q) /\ r <> Ok true.

Section safety.
Context {clock : IsoClock} {lawful : LawfulClock}.

Lemma complete_refused capacity issued q id attempt token artifact completed updated :
  queue_ok capacity issued q -> ~ owned q id attempt token -> refused (complete id attempt token artifact completed updated) q.
Proof.
  intros Hq Hno. unfold refused, complete, mbind, eff_bind. rewrite (find_job_at _ _ _ _ Hq).
  destruct (guarded_unowned capacity issued q id attempt token (complete_mutate id attempt token artifact completed) updated Hq Hno)
    as (r & -> & Hr). destruct r as [[]|e]; [done|by eexists..].
Qed.

(** The job with a new expiry. *)
Definition prolonged (expires updated : Z) (j : ExportJob) : ExportJob :=
  job_update [("lease_expires_at", PStr (iso expires)); ("updated_at", PStr (iso updated))]%string j.

Lemma owner_heartbeat capacity issued q id attempt token lease_seconds now updated expires :
  queue_ok capacity issued q -> owned q id attempt token -> ascii_only token = true -> add_seconds now lease_seconds = Ok expires ->
  exists j, job_at id q.(q_jobs) = Some j /\
    let j' := prolonged expires updated j in
    heartbeat id attempt token lease_seconds now updated q = (Ok true, with_jobs (store_job id j' q.(q_jobs)) q) /\
    has j' "lease_expires_at" (PStr (iso expires)) /\ owned (with_jobs (store_job id j' q.(q_jobs)) q) id attempt token.
Proof.
  intros Hq (j & Hj & Hh & Ha) Hascii Hexp. exists j. split; [done|]. cbv zeta. pose proof (qo_jobs _ _ _ Hq _ _ Hj) as Hok.
  assert (forall k v, k <> "lease_expires_at"%string -> k <> "updated_at"%string -> has j k v -> has (prolonged expires updated j) k v) as Hkeep.
  { intros k v H1 H2 Hv. unfold has, prolonged, job_update, update. cbn. by rewrite !lookup_insert_ne by done. }
  split_and!; [|unfold prolonged; look|].
  - unfold heartbeat, _guarded_update, mbind, eff_bind. rewrite (find_job_at _ _ _ _ Hq), Hj. unfold eff_lift.
    pose proof (owns_spec issued id j attempt token Hok) as Hown.
    destruct (_owns j attempt token) as [[]|e]; [|discriminate (proj2 Hown (conj Hh Ha))|by rewrite (Hown Hh) in Hascii].
    cbn [negb]. rewrite Hexp. unfold mret, eff_ret. cbn [negb]. rewrite job_update_app.
    change (job_update _ j) with (prolonged expires updated j).
    rewrite (save_job_at id); [done|]. apply Hkeep; [done..|apply Hok].
  - exists (prolonged expires updated j). cbn [q_jobs with_jobs]. rewrite job_at_store, bool_decide_true by done. destruct Hh as [Hs Ht].
    split; [reflexivity|]. split_and!; [split|]; by apply Hkeep.
Qed.

(** The lease of a token at a later state was its lease before. *)
Lemma held_before capacity s s' id token :
  rtc (queue_step capacity) s s' -> queue_ok capacity s.1 s.2 -> token ∈ s.1 ->
  forall j', job_at id s'.2.(q_jobs) = Some j' -> holds j' token ->
  exists j, job_at id s.2.(q_jobs) = Some j /\ holds j token /\ same_attempt j j'.
Proof.
  induction 1 as [s|s s1 s' Hstep _ IH]; [intros _ _ j' Hj Hh; by exists j'|]. intros Hq Ht j' Hj' Hh'.
  destruct (queue_step_leads _ _ _ Hstep Hq) as (Hsub & Hq1 & [_ _ Hl]).
  destruct (IH Hq1 (Hsub _ Ht) _ Hj' Hh') as (j1 & Hj1 & Hh1 & Ha1).
  destruct (Hl _ _ _ Hj1 Hh1) as [(j & Hj & Hh & Ha)|Hnew]; [|done]. exists j. unfold same_attempt in *.
  split_and!; [done..|congruence].
Qed.

(** ** Properties *)

(** C7: the invariant of the export queue, whatever the clients, workers and
    maintenance do and in whatever order: jobs are stored once and under their
    own id; each waits (with an attempt left and no lease), is leased (to a
    token that was issued, within its attempts) or has ended; no token leases two
    jobs; the active jobs stay within the capacity and, for each principal,
    within its limit; 100 percent is reported by completed jobs only; and an
    artifact of a leased attempt can be read only when its job completed.  No
    step drops a job that has not ended, changes how a job ended, or brings an
    old lease back. *)
Theorem reachable_queue_ok capacity s :
  reachable capacity s ->
  queue_ok capacity s.1 s.2 /\
  (forall id metadata token q', get_export_metadata id s.2 = (Ok (Some metadata), q') -> field metadata "lease_token" = PStr token ->
     exists j, job_at id s.2.(q_jobs) = Some j /\ ended j "COMPLETED") /\
  (forall s', queue_step capacity s s' -> advances s.1 s.2 s'.2).
Proof.
  intros Hr%reachable_ok. split_and!; [done| |].
  - intros id metadata token q'. unfold get_export_metadata. destruct (s.2.(q_exports) !! id) as [e|] eqn:He; [|done].
    cbn [mbind option_bind]. case_bool_decide as Hp; [done|]. intros [= <- _] Ht. by eapply (qo_published _ _ _ Hr).
  - intros s' Hstep. by apply (queue_step_leads _ _ _ Hstep).
Qed.

(** C40: fencing.  In every reachable state the holder of a lease prolongs it with
    a heartbeat: the operation succeeds, the expiry of the job becomes the time of
    the heartbeat plus the lease duration, the rest of the job (its time of
    update apart) and of the queue stay as they are, and the lease is still held
    (tokens are ASCII text, and the new expiry is a time [datetime] can hold).
    Once a token no longer leases a job, every
    later heartbeat, progress report, completion, retry or failure that a worker
    sends with it, for any attempt, is refused and leaves the queue, the jobs
    and the artifacts as they are. *)
Theorem lease_fencing capacity s :
  reachable capacity s ->
  (forall id attempt token lease_seconds now updated expires,
     owned s.2 id attempt token -> ascii_only token = true -> add_seconds now lease_seconds = Ok expires ->
     exists j, job_at id s.2.(q_jobs) = Some j /\
       let j' := prolonged expires updated j in
       heartbeat id attempt token lease_seconds now updated s.2 = (Ok true, with_jobs (store_job id j' s.2.(q_jobs)) s.2) /\
       has j' "lease_expires_at" (PStr (iso expires)) /\
       owned (with_jobs (store_job id j' s.2.(q_jobs)) s.2) id attempt token) /\
  (forall s' id token, token ∈ s.1 -> (forall j, job_at id s.2.(q_jobs) = Some j -> ~ holds j token) ->
     rtc (queue_step capacity) s s' ->
     forall attempt,
       (forall lease_seconds now updated, refused (heartbeat id attempt token lease_seconds now updated) s'.2) /\
       (forall values updated, refused (progress id attempt token values updated) s'.2) /\
       (forall artifact completed updated, refused (complete id attempt token artifact completed updated) s'.2) /\
       (forall transient code error base now updated,
          refused (retry_or_fail id attempt token transient code error base now updated) s'.2)).
Proof.
  intros Hr%reachable_ok. split; [intros; by eapply owner_heartbeat|]. intros s' id token Ht Hlost Hsteps attempt.
  pose proof (steps_ok _ _ _ Hsteps Hr) as Hq.   assert (~ owned s'.2 id attempt token) as Hno
    by (intros (j' & Hj' & Hh' & _); destruct (held_before _ _ _ _ _ Hsteps Hr Ht _ Hj' Hh') as (j & Hj & Hh & _); by eapply Hlost).
  split_and!; intros; [by eapply guarded_unowned..|by eapply complete_refused|by eapply guarded_unowned].
Qed.
End safety.

(** ** A run of the queue *)

Module Run.
Definition limits : Limits := mk_limits 2 1.
Definition snapshot : descriptor :=
  list_to_map [("source_job_id", PStr "job-1"); ("source_generation", PStr "g"); ("policy_version", PInt 1);
               ("source_kind", PStr "PCAP_UPLOAD")]%string.
Definition job : ExportJob :=
  match build_async_job "export-1" (iso 1) "alice" "job-1" snapshot None None "request" "source" 3 with
  | Ok j => j
  | Err _ => mk_export_job ∅ None
  end.
Definition export : descriptor :=
  list_to_map [("id", PStr "export-1"); ("job_id", PStr "job-1"); ("object_key", PStr "key"); ("attempt", PInt 1);
               ("lease_token", PStr "first"); ("published", PBool false)]%string.
Definition artifact : descriptor :=
  list_to_map [("status", PStr "COMPLETED"); ("object_key", PStr "key"); ("published", PBool false)]%string.

Definition queued : QueueState := (enqueue None job 2 1 empty_queue).2.
Definition leased_once : QueueState := (claim 2 60 "first" queued).2.
Definition saved : QueueState :=
  (save_export_stream (fun _ => "digest"%string) (fun _ => true) export [[Byte.x01]] false 1 leased_once).2.
Definition completed : QueueState := (complete "export-1" 1 "first" artifact 5 6 saved).2.
Definition recovered_once : QueueState := (recover_expired 100000000 leased_once).2.
Definition leased_twice : QueueState := (claim 100000000 60 "second" recovered_once).2.

Lemma job_built : build_async_job "export-1" (iso 1) "alice" "job-1" snapshot None None "request" "source" 3 = Ok job.
Proof. reflexivity. Qed.

Lemma leased_reachable : reachable limits ({["first"%string]} ∪ ∅, leased_once).
Proof.
  apply (rtc_l _ _ (∅, queued)); [eapply (step_enqueue _ _ _ None); [exact job_built|done|reflexivity|apply surjective_pairing]|].
  apply rtc_once. eapply step_claim; [set_solver|apply surjective_pairing].
Qed.

Lemma completed_reachable : reachable limits ({["first"%string]} ∪ ∅, completed).
Proof.
  eapply rtc_trans; [exact leased_reachable|].
  apply (rtc_l _ _ ({["first"%string]} ∪ ∅, saved)); [eapply step_save with (export := export); [left; reflexivity|apply surjective_pairing]|].
  apply rtc_once. eapply (step_complete _ _ _ _ _ _ artifact); [|apply surjective_pairing].
  constructor; [left; reflexivity|repeat (apply Forall_cons; split); [reflexivity..|by apply Forall_nil]].
Qed.

Lemma leased_twice_steps : rtc (queue_step limits) ({["first"%string]} ∪ ∅, recovered_once) ({["second"%string]} ∪ ({["first"%string]} ∪ ∅), leased_twice).
Proof. apply rtc_once. eapply step_claim; [set_solver|apply surjective_pairing]. Qed.

Lemma recovered_reachable : reachable limits ({["first"%string]} ∪ ∅, recovered_once).
Proof. eapply rtc_trans; [exact leased_reachable|]. apply rtc_once. eapply step_recover. apply surjective_pairing. Qed.

(** What a computed state says about the job of the run. *)
Definition shows (q : QueueState) (key : string) (v : py_scalar) : bool :=
  match job_at "export-1" q.(q_jobs) with
  | Some j => bool_decide (j.(ej_fields) !! key = Some v)
  | None => false
  end.

Lemma shows_has q key v : shows q key v = true -> exists j, job_at "export-1" q.(q_jobs) = Some j /\ has j key v.
Proof. unfold shows. destruct (job_at _ _) as [j|]; [|discriminate]. intros H%bool_decide_eq_true. by exists j. Qed.

Lemma shows_owned q attempt token :
  shows q "status" (PStr "RUNNING") = true -> shows q "lease_token" (PStr token) = true -> shows q "attempt" (PInt attempt) = true ->
  owned q "export-1" attempt token.
Proof.
  intros (j & Hj & H1)%shows_has (j2 & Hj2 & H2)%shows_has (j3 & Hj3 & H3)%shows_has.
  assert (j2 = j) as -> by congruence. assert (j3 = j) as -> by congruence. by exists j.
Qed.

Lemma shows_waiting q token : shows q "status" (PStr "QUEUED") = true -> forall j, job_at "export-1" q.(q_jobs) = Some j -> ~ holds j token.
Proof.
  intros (j & Hj & H1)%shows_has j2 Hj2. assert (j2 = j) as -> by congruence. by eapply status_holds.
Qed.

Definition readable (q : QueueState) (content : bytes) (token : string) : bool :=
  match get_export "export-1" q with
  | (Ok (Some (metadata, stored)), _) =>
      bool_decide (field metadata "lease_token" = PStr token) && bool_decide (stored = content)
      && negb (bool_decide (field metadata "published" = PBool false))
  | _ => false
  end.

Lemma readable_metadata q content token :
  readable q content token = true ->
  exists metadata, get_export "export-1" q = (Ok (Some (metadata, content)), q) /\
    get_export_metadata "export-1" q = (Ok (Some metadata), q) /\ field metadata "lease_token" = PStr token.
Proof.
  unfold readable, get_export, get_export_metadata. destruct (_ !! _) as [metadata|]; [|discriminate].
  destruct (bool_decide (field metadata "published" = _)) eqn:Hp; [discriminate|]. destruct (q.(q_content) !! _) as [stored|]; [|discriminate].
  intros [[Ht%bool_decide_eq_true ->%bool_decide_eq_true]%andb_true_iff _]%andb_true_iff. exists metadata.
  cbn [mbind option_bind]. by rewrite Hp.
Qed.
End Run.

(** The job of a run completes and its artifact can then be read. *)
Lemma reachable_queue_ok_witness :
  queue_ok Run.limits ({["first"%string]} ∪ ∅) Run.completed /\
  exists metadata j, get_export "export-1" Run.completed = (Ok (Some (metadata, [Byte.x01])), Run.completed) /\
    job_at "export-1" Run.completed.(q_jobs) = Some j /\ ended j "COMPLETED".
Proof.
  destruct (reachable_queue_ok Run.limits (_, Run.completed) Run.completed_reachable) as (Hq & Hread & _).
  split; [exact Hq|].
  destruct (Run.readable_metadata Run.completed [Byte.x01] "first") as (metadata & Hget & Hmeta & Ht); [vm_compute; reflexivity|].
  destruct (Hread _ _ _ _ Hmeta Ht) as (j & Hj). exists metadata, j. exact (conj Hget Hj).
Defined.

(** The lease expires and another worker takes the job: the first one is refused,
    the second one goes on. *)
Lemma lease_fencing_witness :
  refused (heartbeat "export-1" 1 "first" 60 0 0) Run.leased_twice /\
  exists j, heartbeat "export-1" 2 "second" 60 100000001 100000001 Run.leased_twice
      = (Ok true, with_jobs (store_job "export-1" j Run.leased_twice.(q_jobs)) Run.leased_twice) /\
    has j "lease_expires_at" (PStr (iso 160000001)).
Proof.
  destruct (lease_fencing Run.limits (_, Run.recovered_once) Run.recovered_reachable) as [_ Hlost].
  destruct (lease_fencing Run.limits (_, Run.leased_twice)
    (rtc_trans _ _ _ Run.recovered_reachable Run.leased_twice_steps)) as [Hown _].
  split.
  - assert (forall j, job_at "export-1" Run.recovered_once.(q_jobs) = Some j -> ~ holds j "first") as Hgone
      by (apply Run.shows_waiting; vm_compute; reflexivity).
    destruct (Hlost _ "export-1"%string "first"%string ltac:(set_solver) Hgone Run.leased_twice_steps 1) as [H _]. exact (H 60 0 0).
  - assert (owned Run.leased_twice "export-1" 2 "second") as Howned by (apply Run.shows_owned; vm_compute; reflexivity).
    destruct (Hown _ _ _ 60 100000001 100000001 160000001 Howned eq_refl eq_refl) as (j & _ & Hbeat & Hexp & _).
    exists (prolonged 160000001 100000001 j). exact (conj Hbeat Hexp).
Defined.
