(* ===== verification/ExportWorker.v ===== *)
(** * ExportWorker

    pcap_export_worker.py: one worker of the export queue, over the facade
    pcap_export_queue.py without metrics.  The worker is not alone: before each of
    its calls to the queue the other threads (clients, other workers, its own
    heartbeat thread) may have done any number of steps, so a run is a run
    against an environment that says what they did.  Log messages and the
    repository the heartbeat thread opens for itself are left out. *)

From Stdlib Require Import String.
From S2P Require Import Prelude Bytes PostingModel FlowFilter ExportRepository SequentialExport ExportQueue ExportQueueProofs ExportQueueSteps.
#[local] Open Scope Z_scope.

(** ** The world of a worker *)

(** The queue, the tokens issued so far and the number of calls made. *)
Record World : Type := mk_world {
  w_issued : gset string;
  w_queue : QueueState;
  w_calls : nat;
}.
Definition world_state (w : World) : gset string * QueueState := (w.(w_issued), w.(w_queue)).

(** At each call: what the others have done before it, [datetime.now] when it
    starts and when it stamps a job, the monotonic clock (in a unit of the
    caller's), whether the source of a job is still the admitted one, and the
    token [secrets] would make. *)
Class Environment : Type := {
  others : nat -> gset string * QueueState -> gset string * QueueState;
  now_at : nat -> Z;
  stamp_at : nat -> Z;
  monotonic_at : nat -> Z;
  source_valid : nat -> ExportJob -> res bool;
  new_token : nat -> gset string -> string;
}.

Record WorkerSettings : Type := mk_worker_settings {
  ws_lease_seconds : Z;
  ws_retry_base_seconds : Z;
  ws_terminal_retention_seconds : Z;
  ws_terminal_max_count : Z;
  ws_terminal_max_artifact_bytes : Z;
  ws_orphan_max_age_seconds : Z;
  ws_orphan_cleanup_batch_size : Z;
  ws_job_timeout : Z;
}.

(** [try: ... except Exception: log] *)
Definition suppress {W A} (m : eff W A) : eff W unit := fun w => (Ok tt, (m w).2).

(** [try: m] with one handler for every exception. *)
Definition try_except {W A} (m : eff W A) (handler : exn -> eff W A) : eff W A := fun w =>
  match m w with
  | (Ok a, w') => (Ok a, w')
  | (Err e, w') => handler e w'
  end.

Section worker.
Context `{!IsoClock, !Environment} (settings : WorkerSettings).

(** One call of the queue, after what the others did. *)
Definition queue_call {A} (operation : nat -> eff QueueState A) : eff World A := fun w =>
  let '(issued, q) := others w.(w_calls) (world_state w) in
  let '(r, q') := operation w.(w_calls) q in
  (r, mk_world issued q' (S w.(w_calls))).

Definition claim_call : eff World (option ExportJob) := fun w =>
  let n := w.(w_calls) in
  let '(issued, q) := others n (world_state w) in
  let token := new_token n issued in
  let '(r, q') := claim (now_at n) settings.(ws_lease_seconds) token q in
  (r, mk_world ({[token]} ∪ issued) q' (S n)).

Definition monotonic_clock : eff World Z := fun w =>
  (Ok (monotonic_at w.(w_calls)), mk_world w.(w_issued) w.(w_queue) (S w.(w_calls))).

Definition datetime_now : eff World Z := fun w =>
  (Ok (now_at w.(w_calls)), mk_world w.(w_issued) w.(w_queue) (S w.(w_calls))).

Definition validate_source (job : ExportJob) : eff World bool := fun w =>
  (source_valid w.(w_calls) job, mk_world w.(w_issued) w.(w_queue) (S w.(w_calls))).

(** ** Maintenance *)

Definition _maintain : eff World unit :=
  now ← datetime_now;
  _ ← suppress (queue_call (fun _ => retain_terminal now settings.(ws_terminal_retention_seconds)
                  settings.(ws_terminal_max_count) settings.(ws_terminal_max_artifact_bytes)));
  suppress (queue_call (fun _ => cleanup_pcap_export_orphans now settings.(ws_orphan_max_age_seconds)
              settings.(ws_orphan_cleanup_batch_size))).

(** ** One attempt *)

(** The job the worker claimed: its id, the attempt and the token. *)
Record Lease : Type := mk_lease { l_id : string; l_attempt : Z; l_token : string }.

Definition _compensate_preserving_primary (lease : Lease) (artifact : descriptor) : eff World unit :=
  suppress (queue_call (fun _ => compensate_pcap_export_artifact lease.(l_id) lease.(l_attempt) lease.(l_token) artifact)).

Definition checkpoint (lease : Lease) (deadline : Z) (values : list (string * py_scalar)) : eff World unit :=
  t ← monotonic_clock;
  _ ← eff_raise_if (deadline <=? t) ExportTimedOut;
  current ← queue_call (fun _ => get lease.(l_id));
  match current with
  | None => eff_raise ExportCancelled
  | Some job =>
      _ ← eff_raise_if (py_truthy (field job.(ej_fields) "cancellation_requested")) ExportCancelled;
      held ← queue_call (fun n => progress lease.(l_id) lease.(l_attempt) lease.(l_token) values (stamp_at n));
      eff_raise_if (negb held) ExportCancelled
  end.

(** [self.executor(job, checkpoint)]; it works on the queue through its
    checkpoint and saves its artifact in the repository. *)
Definition Executor : Type := ExportJob -> (list (string * py_scalar) -> eff World unit) -> eff World descriptor.

(** The [execute] that [create_pcap_export_worker] wraps around an executor. *)
Definition execute (run : Executor) : Executor := fun job checkpoint =>
  try_except (run job checkpoint) (fun e =>
    match e with
    | ApiError status _ _ => if status =? 503 then eff_raise (TransientExportError "PCAP export storage unavailable") else eff_raise e
    | _ => eff_raise e
    end).

(** Up to the artifact. *)
Definition produce (executor : Executor) (job : ExportJob) (lease : Lease) (deadline : Z) : eff World descriptor :=
  _ ← checkpoint lease deadline [("phase", PStr "SOURCE_FETCH")]%string;
  valid ← validate_source job;
  _ ← eff_raise_if (negb valid) ExportSourceChanged;
  executor job (checkpoint lease deadline).

(** From the artifact to [won]. *)
Definition deliver (job : ExportJob) (lease : Lease) (deadline : Z) (artifact : descriptor) : eff World bool :=
  valid ← validate_source job;
  if negb valid then
    _ ← _compensate_preserving_primary lease artifact; eff_raise ExportSourceChanged
  else
    _ ← checkpoint lease deadline [("phase", PStr "PUBLISH"); ("percent", PInt 99)]%string;
    won ← queue_call (fun n => complete lease.(l_id) lease.(l_attempt) lease.(l_token) artifact (now_at n) (stamp_at n));
    _ ← (if negb won then _compensate_preserving_primary lease artifact else mret tt);
    mret won.

(** What each handler reports: whether to compensate, whether to retry, the
    error code and its text. *)
Definition failure (e : exn) : bool * (bool * (string * string)) :=
  match e with
  | ExportCancelled => (true, (false, ("PCAP_EXPORT_CANCELLED", "PCAP export was cancelled")))
  | TransientExportError _ | ExportQueueStorageError _ | ArtifactStorageError _ =>
      (true, (true, ("PCAP_EXPORT_STORAGE_ERROR", "PCAP export storage is temporarily unavailable")))
  | ExportSourceChanged => (false, (false, ("PCAP_SOURCE_GENERATION_CHANGED", "PCAP export source changed after admission")))
  | ExportTimedOut => (true, (true, ("PCAP_EXPORT_TIMEOUT", "PCAP export cooperative deadline exceeded")))
  | _ => (true, (false, ("PCAP_EXPORT_FAILED", "PCAP export failed")))
  end%string.

Definition handle (lease : Lease) (artifact : option descriptor) (e : exn) : eff World unit :=
  let '(compensate, (transient, (code, error))) := failure e in
  _ ← match artifact with
      | Some artifact => if compensate then _compensate_preserving_primary lease artifact else mret tt
      | None => mret tt
      end;
  _ ← queue_call (fun n => retry_or_fail lease.(l_id) lease.(l_attempt) lease.(l_token) transient code error
                              settings.(ws_retry_base_seconds) (now_at n) (stamp_at n));
  mret tt.

(** The attempt: [Some won] when the [try] block ended, [None] when a handler did. *)
Definition export_attempt (executor : Executor) (job : ExportJob) (lease : Lease) (deadline : Z) : eff World (option bool) := fun w =>
  match produce executor job lease deadline w with
  | (Err e, w1) => (_ ← handle lease None e; mret None) w1
  | (Ok artifact, w1) =>
      match deliver job lease deadline artifact w1 with
      | (Err e, w2) => (_ ← handle lease (Some artifact) e; mret None) w2
      | (Ok won, w2) => (Ok (Some won), w2)
      end
  end.

Definition job_lease (job : ExportJob) : res Lease :=
  id ← item job.(ej_fields) "id";
  attempt ← (v ← item job.(ej_fields) "attempt"; py_int v);
  token ← item job.(ej_fields) "lease_token";
  Ok (mk_lease (py_str id) attempt (py_str token)).

Definition _run_once (executor : Executor) : eff World bool :=
  found ← claim_call;
  match found with
  | None => mret false
  | Some job =>
      lease ← eff_lift (job_lease job);
      t ← monotonic_clock;
      _ ← export_attempt executor job lease (t + settings.(ws_job_timeout));
      mret true
  end.

Definition run_once (executor : Executor) : eff World bool :=
  _ ← queue_call (fun n => recover_expired (now_at n));
  _ ← _maintain;
  _run_once executor.

(** The loop of [run]; [rounds] is the number of rounds before the event is set. *)
Fixpoint run_rounds (executor : Executor) (rounds : nat) : eff World unit :=
  match rounds with
  | O => mret tt
  | S rounds' => _ ← _run_once executor; run_rounds executor rounds'
  end.

Definition run (executor : Executor) (rounds : nat) : eff World unit :=
  _ ← queue_call (fun n => recover_expired (now_at n));
  _ ← _maintain;
  run_rounds executor rounds.
End worker.
