(* ===== verification/ExportWorkerProofs.v ===== *)
(** * ExportWorkerProofs

    What a worker does to the queue are steps of the queue, and after an attempt
    it does not sit on its lease. *)

From Stdlib Require Import String.
From S2P Require Import Prelude Bytes PostingModel FlowFilter ExportRepository SequentialExport ExportQueue ExportQueueProofs ExportQueueSteps ExportQueueSafety ExportWorker.
#[local] Open Scope Z_scope.

(** The others work through the queue as well, and tokens are new. *)
Class LawfulEnvironment `{!IsoClock, !Environment} (capacity : Limits) : Prop := {
  others_steps n s : rtc (queue_step capacity) s (others n s);
  token_fresh n issued : new_token n issued ∉ issued;
}.

Section proofs.
Context {clock : IsoClock} {clock_ok : LawfulClock} {env : Environment} (capacity : Limits) {env_ok : LawfulEnvironment capacity}
  (settings : WorkerSettings).

(** ** Ends of an attempt *)

(** No job is leased to the token any more. *)
Definition lost (q : QueueState) (id token : string) : Prop := forall j, job_at id q.(q_jobs) = Some j -> ~ holds j token.

(** An update that reports a result found no lease, or ran on the leased job. *)
Lemma guarded_inv issued q id attempt token mutate t b q' :
  queue_ok capacity issued q -> _guarded_update id attempt token mutate t q = (Ok b, q') ->
  (b = false /\ ~ owned q id attempt token /\ q' = q) \/
  (exists j changed j' q1, job_at id q.(q_jobs) = Some j /\ leased issued id j attempt token /\ mutate j q = (Ok (changed, j'), q1) /\
     b = changed /\ (changed = true -> _save_locked (job_update [("updated_at", PStr (iso t))]%string j') q1 = (Ok tt, q'))).
Proof.
  intros Hq. unfold _guarded_update, mbind, eff_bind, mret, eff_ret. rewrite (find_job_at _ _ _ _ Hq).
  destruct (job_at id q.(q_jobs)) as [j|] eqn:Hj; [|intros [= <- <-]; left; split_and!; [done| |done]; intros (j & Hj' & _); congruence].
  pose proof (qo_jobs _ _ _ Hq _ _ Hj) as Hok. pose proof (owns_spec issued id j attempt token Hok) as Hown. unfold eff_lift.
  destruct (_owns j attempt token) as [[]|e]; cbn [negb]; [| |done].
  - destruct Hown as [Hown _]. destruct (Hown eq_refl) as [Hh Ha]. destruct (mutate j q) as [[[changed j']|e] q1] eqn:Hm; [|done].
    intros H. right. exists j, changed, j', q1. split_and!; [done|by apply leased_intro|done|..].
    + destruct changed; cbn [negb] in H; [|by injection H as <- _]. by destruct (_save_locked _ q1) as [[]?]; [injection H as <- _|].
    + intros ->. cbn [negb] in H. destruct (_save_locked _ q1) as [[[]|]?]; [|done]. by injection H as _ <-.
  - intros [= <- <-]. left. split_and!; [done| |done]. intros (j2 & Hj2 & Hh & Ha). assert (j2 = j) as -> by congruence.
    discriminate (proj2 Hown (conj Hh Ha)).
Qed.

(** The job that was saved is there and does not run. *)
Lemma saved_lost id token q1 q' j status :
  has j "id" (PStr id) -> has j "status" (PStr status) -> status <> "RUNNING"%string ->
  _save_locked j q1 = (Ok tt, q') -> lost q' id token.
Proof.
  intros Hid Hs Hne. rewrite (save_job_at id) by done. intros [= <-] j'. cbn [q_jobs with_jobs].
  rewrite job_at_store, bool_decide_true by done. intros [= <-]. by eapply status_holds.
Qed.

Definition tracked (q : QueueState) (id : string) (attempt : Z) (token : string) : Prop :=
  forall j, job_at id q.(q_jobs) = Some j -> holds j token -> has j "attempt" (PInt attempt).

Lemma retry_lost issued q id attempt token transient code error base now t b q' :
  queue_ok capacity issued q -> tracked q id attempt token ->
  retry_or_fail id attempt token transient code error base now t q = (Ok b, q') -> lost q' id token.
Proof.
  intros Hq Ht H. apply (guarded_inv issued) in H as [(-> & Hno & ->)|(j & changed & j' & q1 & Hj & L & Hm & -> & Hsave)]; [|  |done].
  { intros j Hj Hh. apply Hno. exists j. split_and!; [done..|by apply Ht]. }
  assert (exists values status, changed = true /\ j' = job_update values j /\ ("id"%string ∉ values.*1) /\
    has (job_update values j) "status" (PStr status) /\ status <> "RUNNING"%string) as (values & status & -> & -> & Hidv & Hs & Hne).
  { destruct (py_truthy _).
    { injection Hm as <- <- _. eexists _, "CANCELLED"%string. split_and!; [done|reflexivity|set_solver|look|done]. }
    unfold mbind, eff_bind, eff_lift, mret, eff_ret in Hm.
    destruct (if transient then _ else _) as [again q2] eqn:Ha in Hm.
    destruct again as [[]|e]; [|injection Hm as <- <- _; eexists _, "FAILED"%string; split_and!; [done|reflexivity|set_solver|look|done]|done].
    destruct (later _ _) as [next|e]; [|done]. injection Hm as <- <- _. eexists _, "QUEUED"%string. split_and!; [done|reflexivity|set_solver|look|done]. }
  specialize (Hsave eq_refl). eapply (saved_lost _ _ _ _ _ status); [| |done|exact Hsave].
  - unfold has, job_update. cbn [ej_fields]. rewrite !update_lookup_ne; [apply L|done|cbn; set_solver].
  - unfold has, job_update in *. cbn [ej_fields] in *. by rewrite update_lookup_ne by (cbn; set_solver).
Qed.

Lemma complete_lost issued q id attempt token artifact completed t q' :
  queue_ok capacity issued q -> artifact_ok id artifact ->
  complete id attempt token artifact completed t q = (Ok true, q') -> lost q' id token.
Proof.
  intros Hq Har. unfold complete, mbind, eff_bind, mret, eff_ret. rewrite (find_job_at _ _ _ _ Hq).
  destruct (_guarded_update _ _ _ _ _ _) as [[updated|e] q1] eqn:Hg; [|done]. intros [= H ->].
  apply andb_true_iff in H as [-> Hc]. apply (guarded_inv issued) in Hg as [(? & _)|(j & changed & j' & q1 & Hj & L & Hm & <- & Hsave)]; [done| |done].
  rewrite Hj in Hc. apply negb_true_iff in Hc. unfold complete_mutate in Hm. rewrite Hc in Hm. specialize (Hsave eq_refl).
  set (status := py_str _) in Hm. revert Hm. case_bool_decide as Hst; cbn [negb]; [|done].
  unfold mbind, eff_bind, eff_lift, mret, eff_ret. intros Hm.
  assert (forall a, artifact_ok id a -> finish_job status a completed j = Ok j' -> lost q' id token) as Hend.
  { intros a Ha Hf. destruct (finish_change _ _ _ _ _ _ _ _ t _ L Ha Hst Hf) as [Hch [Hterm Hs]].
    eapply saved_lost; [apply (ch_ok _ _ _ _ _ Hch)|exact Hs| |exact Hsave]. intros ->. by apply terminal_not_active in Hterm. }
  destruct (_ && _).
  - destruct (publish _ _ _ _ q) as [[[]|e] q2]; [|done..]. cbn [negb] in Hm.
    destruct (finish_job _ _ _ _) as [j2|e] eqn:Hf; [|done]. injection Hm as <- _. eapply Hend; [by apply artifact_published|exact Hf].
  - destruct (finish_job _ _ _ _) as [j2|e] eqn:Hf; [|done]. injection Hm as <- _. by eapply Hend.
Qed.

(** ** Worker operations are steps of the queue *)

Definition stays {A} (m : eff World A) : Prop :=
  forall w r w', m w = (r, w') -> rtc (queue_step capacity) (world_state w) (world_state w').

Lemma stays_ret {A} (a : A) : stays (mret a).
Proof. intros w r w' [= _ <-]. done. Qed.

Lemma stays_lift {A} (r : res A) : stays (eff_lift r).
Proof. intros w r' w' [= _ <-]. done. Qed.

Lemma stays_raise_if cond e : stays (eff_raise_if cond e).
Proof. apply stays_lift. Qed.

Lemma stays_bind {A B} (m : eff World A) (f : A -> eff World B) : stays m -> (forall a, stays (f a)) -> stays (m ≫= f).
Proof.
  intros Hm Hf w r w'. unfold mbind, eff_bind. destruct (m w) as [[a|e] w1] eqn:E.
  - intros H. etransitivity; [by eapply Hm|by eapply Hf].
  - intros [= _ <-]. by eapply Hm.
Qed.

Lemma stays_suppress {A} (m : eff World A) : stays m -> stays (suppress m).
Proof. intros Hm w r w' [= _ <-]. eapply Hm. apply surjective_pairing. Qed.

Lemma stays_try {A} (m : eff World A) handler : stays m -> (forall e, stays (handler e)) -> stays (try_except m handler).
Proof.
  intros Hm Hh w r w'. unfold try_except. destruct (m w) as [[a|e] w1] eqn:E.
  - intros [= _ <-]. by eapply Hm.
  - intros H. etransitivity; [by eapply Hm|by eapply Hh].
Qed.

Lemma stays_tick {A} (f : World -> res A) : stays (fun w => (f w, mk_world w.(w_issued) w.(w_queue) (S w.(w_calls)))).
Proof. intros w r w' [= _ <-]. done. Qed.

Lemma stays_validate job : stays (validate_source job).
Proof. apply (stays_tick (fun w => source_valid w.(w_calls) job)). Qed.

Lemma stays_call {A} (operation : nat -> eff QueueState A) :
  (forall n issued q r q', operation n q = (r, q') -> rtc (queue_step capacity) (issued, q) (issued, q')) -> stays (queue_call operation).
Proof.
  intros Hop w r w'. unfold queue_call. pose proof (others_steps w.(w_calls) (world_state w)) as Ho.
  destruct (others _ _) as [issued q]. destruct (operation _ q) as [r1 q'] eqn:E. intros [= _ <-].
  etransitivity; [exact Ho|]. by eapply Hop.
Qed.

Lemma stays_get id : stays (queue_call (fun _ => get id)).
Proof. apply stays_call. intros n issued q r q' [= _ <-]. done. Qed.

Lemma stays_progress id attempt token values f : stays (queue_call (fun n => progress id attempt token values (f n))).
Proof. apply stays_call. intros n issued q r q' H. by eapply rtc_once, step_progress. Qed.

Lemma stays_compensate lease artifact : stays (_compensate_preserving_primary lease artifact).
Proof. apply stays_suppress, stays_call. intros n issued q r q' H. by eapply rtc_once, step_compensate. Qed.

Lemma stays_recover : stays (queue_call (fun n => recover_expired (now_at n))).
Proof. apply stays_call. intros n issued q r q' H. by eapply rtc_once, step_recover. Qed.

Lemma stays_maintain : stays (_maintain settings).
Proof.
  apply stays_bind; [apply stays_tick|]. intros now. apply stays_bind; [|intros _]; apply stays_suppress, stays_call; intros n issued q r q' H.
  - by eapply rtc_once, step_retain.
  - by eapply rtc_once, step_cleanup.
Qed.

Lemma stays_claim : stays (claim_call settings).
Proof.
  intros w r w'. unfold claim_call. pose proof (others_steps w.(w_calls) (world_state w)) as Ho.
  destruct (others _ _) as [issued q]. destruct (claim _ _ _ q) as [r1 q'] eqn:E. intros [= _ <-].
  etransitivity; [exact Ho|]. eapply rtc_once, step_claim; [apply token_fresh|exact E].
Qed.

Lemma stays_checkpoint lease deadline values : stays (checkpoint lease deadline values).
Proof.
  apply stays_bind; [apply stays_tick|]. intros t. apply stays_bind; [apply stays_raise_if|]. intros _.
  apply stays_bind; [apply stays_get|]. intros [job|]; [|apply stays_lift].
  apply stays_bind; [apply stays_raise_if|]. intros _. apply stays_bind; [apply stays_progress|]. intros held. apply stays_raise_if.
Qed.

(** The executor works on the queue with its checkpoint and by saving artifacts,
    and the artifact it returns describes the job it was given. *)
Record lawful_executor (executor : Executor) : Prop := {
  le_stays : forall job (report : list (string * py_scalar) -> eff World unit),
    (forall values, stays (report values)) -> stays (executor job report);
  le_artifact : forall job report w artifact w' id,
    executor job report w = (Ok artifact, w') -> has job "id" (PStr id) -> artifact_ok id artifact;
}.

Lemma execute_lawful run : lawful_executor run -> lawful_executor (execute run).
Proof.
  intros [Hs Ha]. constructor.
  - intros job report Hr. apply stays_try; [by apply Hs|]. intros []; try apply stays_lift. destruct (_ =? _); apply stays_lift.
  - intros job report w artifact w' id. unfold execute, try_except. destruct (run job report w) as [[a|e] w1] eqn:E.
    + intros [= -> <-]. by eapply Ha.
    + destruct e; try done. by destruct (_ =? _).
Qed.

Section attempt.
Context (executor : Executor) (lawful : lawful_executor executor).

Lemma stays_produce job lease deadline : stays (produce executor job lease deadline).
Proof.
  apply stays_bind; [apply stays_checkpoint|]. intros _. apply stays_bind; [apply stays_validate|]. intros valid.
  apply stays_bind; [apply stays_raise_if|]. intros _. apply lawful. intros values. apply stays_checkpoint.
Qed.

Lemma produce_artifact job lease deadline w artifact w' id :
  produce executor job lease deadline w = (Ok artifact, w') -> has job "id" (PStr id) -> artifact_ok id artifact.
Proof.
  unfold produce, mbind, eff_bind. destruct (checkpoint _ _ _ w) as [[]  w1]; [|done].
  destruct (validate_source job w1) as [[valid|e] w2]; [|done]. destruct (eff_raise_if _ _ w2) as [[] w3]; [|done].
  intros H. by eapply lawful.
Qed.

Lemma stays_complete lease artifact : artifact_ok lease.(l_id) artifact ->
  stays (queue_call (fun n => complete lease.(l_id) lease.(l_attempt) lease.(l_token) artifact (now_at n) (stamp_at n))).
Proof. intros Ha. apply stays_call. intros n issued q r q' H. by eapply rtc_once, step_complete. Qed.

Lemma stays_deliver job lease deadline artifact : artifact_ok lease.(l_id) artifact -> stays (deliver job lease deadline artifact).
Proof.
  intros Ha. apply stays_bind; [apply stays_validate|]. intros []; cbn [negb].
  - apply stays_bind; [apply stays_checkpoint|]. intros _. apply stays_bind; [by apply stays_complete|]. intros won.
    apply stays_bind; [|intros _; apply stays_ret]. destruct won; [apply stays_ret|apply stays_compensate].
  - apply stays_bind; [apply stays_compensate|]. intros _. apply stays_lift.
Qed.

Lemma stays_handle lease artifact e : stays (handle settings lease artifact e).
Proof.
  unfold handle. destruct (failure e) as [compensate [transient [code error]]]. apply stays_bind.
  - destruct artifact; [|apply stays_ret]. destruct compensate; [apply stays_compensate|apply stays_ret].
  - intros _. apply stays_bind; [|intros _; apply stays_ret]. apply stays_call. intros n issued q r q' H. by eapply rtc_once, step_retry.
Qed.

Lemma stays_attempt job lease deadline : has job "id" (PStr lease.(l_id)) -> stays (export_attempt settings executor job lease deadline).
Proof.
  intros Hid w r w'. unfold export_attempt. destruct (produce _ _ _ _ w) as [[artifact|e] w1] eqn:Hp.
  - pose proof (produce_artifact _ _ _ _ _ _ _ Hp Hid) as Ha. destruct (deliver _ _ _ _ w1) as [[won|e] w2] eqn:Hd.
    + intros [= _ <-]. etransitivity; [by eapply stays_produce|by eapply stays_deliver].
    + intros H. etransitivity; [by eapply stays_produce|]. etransitivity; [by eapply stays_deliver|].
      eapply stays_bind; [apply stays_handle| |exact H]. intros ?. apply stays_ret.
  - intros H. etransitivity; [by eapply stays_produce|]. eapply stays_bind; [apply stays_handle| |exact H]. intros ?. apply stays_ret.
Qed.

(** *** The lease over the attempt *)

Lemma attempt_tracked w w' id attempt token :
  queue_ok capacity w.(w_issued) w.(w_queue) -> owned w.(w_queue) id attempt token ->
  rtc (queue_step capacity) (world_state w) (world_state w') ->
  queue_ok capacity w'.(w_issued) w'.(w_queue) /\ tracked w'.(w_queue) id attempt token.
Proof.
  intros Hq (j & Hj & Hh & Ha) Hsteps. split; [by apply (steps_ok _ _ _ Hsteps)|]. intros j' Hj' Hh'.
  assert (token ∈ w.(w_issued)) as Ht by (eapply held_issued; [by apply (qo_jobs _ _ _ Hq)|done]).
  destruct (held_before _ _ _ id token Hsteps Hq Ht j' Hj' Hh') as (j0 & Hj0 & _ & Hsame).
  assert (j0 = j) as -> by (cbn in Hj0; congruence). unfold has, same_attempt in *. by rewrite Hsame.
Qed.

(** A call of the queue meets the lease as it was left by the others. *)
Lemma call_tracked {A} (operation : nat -> eff QueueState A) w0 w r w' id attempt token :
  queue_ok capacity w0.(w_issued) w0.(w_queue) -> owned w0.(w_queue) id attempt token ->
  rtc (queue_step capacity) (world_state w0) (world_state w) -> queue_call operation w = (r, w') ->
  exists n issued q, queue_ok capacity issued q /\ tracked q id attempt token /\ operation n q = (r, w'.(w_queue)).
Proof.
  intros Hq Hown Hsteps. unfold queue_call. pose proof (others_steps w.(w_calls) (world_state w)) as Ho.
  destruct (others _ _) as [issued q]. destruct (operation _ q) as [r1 q'] eqn:E. intros [= -> <-].
  exists w.(w_calls), issued, q. destruct (attempt_tracked w0 (mk_world issued q 0) id attempt token Hq Hown) as [Hq' Ht].
  - etransitivity; [exact Hsteps|exact Ho].
  - by split_and!.
Qed.

Lemma handle_lost w0 w lease artifact e w' :
  queue_ok capacity w0.(w_issued) w0.(w_queue) -> owned w0.(w_queue) lease.(l_id) lease.(l_attempt) lease.(l_token) ->
  rtc (queue_step capacity) (world_state w0) (world_state w) ->
  handle settings lease artifact e w = (Ok tt, w') -> lost w'.(w_queue) lease.(l_id) lease.(l_token).
Proof.
  intros Hq Hown Hsteps. unfold handle. destruct (failure e) as [compensate [transient [code error]]].
  set (first := match artifact with Some _ => _ | None => _ end).
  assert (stays first) as Hfirst.
  { unfold first. destruct artifact; [|apply stays_ret]. destruct compensate; [apply stays_compensate|apply stays_ret]. }
  unfold mbind, eff_bind. destruct (first w) as [[[]|e1] w1] eqn:Hf; [|done].
  destruct (queue_call _ w1) as [[b|e1] w2] eqn:Hc; [|done]. intros [= <-].
  eapply call_tracked in Hc as (n & issued & q & Hq' & Ht & Hr); [|exact Hq|exact Hown|etransitivity; [exact Hsteps|by eapply Hfirst]].
  by eapply retry_lost.
Qed.

(** The attempt ends without the lease unless its artifact was refused. *)
Lemma attempt_lost job lease deadline w outcome w' :
  queue_ok capacity w.(w_issued) w.(w_queue) -> owned w.(w_queue) lease.(l_id) lease.(l_attempt) lease.(l_token) ->
  has job "id" (PStr lease.(l_id)) -> export_attempt settings executor job lease deadline w = (Ok outcome, w') ->
  outcome = Some false \/ lost w'.(w_queue) lease.(l_id) lease.(l_token).
Proof.
  intros Hq Hown Hid. unfold export_attempt. destruct (produce _ _ _ _ w) as [[artifact|e] w1] eqn:Hp; pose proof (stays_produce _ _ _ _ _ _ Hp) as H1.
  - pose proof (produce_artifact _ _ _ _ _ _ _ Hp Hid) as Ha. destruct (deliver _ _ _ _ w1) as [[won|e] w2] eqn:Hd.
    + intros [= <- <-]. destruct won; [right|by left]. revert Hd. unfold deliver, mbind, eff_bind, mret, eff_ret.
      destruct (validate_source job w1) as [[[]|e] w3] eqn:Hv; [| |done]; cbn [negb].
      2: { by destruct (_compensate_preserving_primary _ _ w3) as [[] ?]. }
      destruct (checkpoint _ _ _ w3) as [[]  w4] eqn:Hk; [|done]. destruct (queue_call _ w4) as [[won|e] w5] eqn:Hc; [|done].
      destruct won; cbn [negb]; [|by destruct (_compensate_preserving_primary _ _ w5) as [[] ?]]. intros [= <-].
      eapply call_tracked in Hc as (n & issued & q & Hq' & _ & Hr); [by eapply complete_lost|exact Hq|exact Hown|].
      etransitivity; [exact H1|]. etransitivity; [by eapply stays_validate|by eapply stays_checkpoint].
    + unfold mbind, eff_bind, mret, eff_ret. destruct (handle _ _ _ _ w2) as [[[]|e1] w3] eqn:Hh; [|done]. intros [= <- <-]. right.
      eapply handle_lost; [exact Hq|exact Hown| |exact Hh]. etransitivity; [exact H1|by eapply stays_deliver].
  - unfold mbind, eff_bind, mret, eff_ret. destruct (handle _ _ _ _ w1) as [[[]|e1] w3] eqn:Hh; [|done]. intros [= <- <-]. right.
    by eapply handle_lost.
Qed.
End attempt.

(** ** The claim *)

Lemma claim_owned issued q now lease token j q' :
  queue_ok capacity issued q -> claim now lease token q = (Ok (Some j), q') ->
  exists id attempt, has j "id" (PStr id) /\ job_lease j = Ok (mk_lease id attempt token) /\ owned q' id attempt token.
Proof.
  intros Hq [[_ Hno]|(key & j0 & a & expires & Hj & Hs & Ha & Hr & ->)]%(claim_inv _ _ _ _ _ _ _ _ Hq); [by destruct (Hno j)|].
  injection Hr as ->. pose proof (jo_id _ _ _ (qo_jobs _ _ _ Hq _ _ Hj)) as Hid. set (j := claimed_job token now expires a j0).
  assert (has j "id" (PStr key)) as H1 by (unfold j, claimed_job; look).
  assert (has j "attempt" (PInt (a + 1))) as H2 by (unfold j, claimed_job; look).
  assert (has j "lease_token" (PStr token)) as H3 by (unfold j, claimed_job; look).
  assert (has j "status" (PStr "RUNNING")) as H4 by (unfold j, claimed_job; look).
  exists key, (a + 1). split_and!; [done| |].
  - unfold job_lease, item. unfold has in *. rewrite H1, H2, H3. done.
  - exists j. cbn [q_jobs with_jobs]. rewrite job_at_store, bool_decide_true by done. done.
Qed.

Section worker_run.
Context (executor : Executor) (lawful : lawful_executor executor).

(** The round of a worker that claimed a job. *)
Lemma run_once_attempt w w' :
  queue_ok capacity w.(w_issued) w.(w_queue) -> _run_once settings executor w = (Ok true, w') ->
  exists job lease deadline w1 outcome,
    (lease.(l_token) ∉ w.(w_issued)) /\ owned w1.(w_queue) lease.(l_id) lease.(l_attempt) lease.(l_token) /\
    export_attempt settings executor job lease deadline w1 = (Ok outcome, w') /\
    (outcome = Some false \/ lost w'.(w_queue) lease.(l_id) lease.(l_token)).
Proof.
  intros Hq. unfold _run_once, mbind, eff_bind, mret, eff_ret.
  destruct (claim_call settings w) as [[[job|]|e] w1] eqn:Hc; [|done..]. pose proof (steps_ok _ _ _ (stays_claim _ _ _ Hc) Hq) as Hq1.
  unfold claim_call in Hc. pose proof (steps_ok _ _ _ (others_steps w.(w_calls) (world_state w)) Hq) as Hqo.
  assert (w.(w_issued) ⊆ (others w.(w_calls) (world_state w)).1) as Hsub by (apply (steps_issued _ (world_state w) _ (others_steps _ _) Hq)).
  destruct (others _ _) as [issued q]. set (token := new_token _ _) in Hc. destruct (claim _ _ _ q) as [r q'] eqn:Hcl. injection Hc as -> <-.
  destruct (claim_owned _ _ _ _ _ _ _ Hqo Hcl) as (id & attempt & Hid & Hlease & Hown). rewrite Hlease. cbn [eff_lift].
  unfold monotonic_clock. cbn [w_issued w_queue w_calls]. set (w2 := mk_world _ _ (S (S _))). set (deadline := _ + _).
  destruct (export_attempt settings executor job (mk_lease id attempt token) deadline w2) as [[outcome|e] w3] eqn:Ha; [|done].
  intros [= <-]. exists job, (mk_lease id attempt token), deadline, w2, outcome. split_and!; [|done|done|].
  - cbn. intros Hin. apply (token_fresh w.(w_calls) issued). by apply Hsub.
  - apply (attempt_lost executor lawful job _ deadline w2); [exact Hq1|done|done|exact Ha].
Qed.

Lemma stays_run_once : forall w r w', queue_ok capacity w.(w_issued) w.(w_queue) -> _run_once settings executor w = (r, w') ->
  rtc (queue_step capacity) (world_state w) (world_state w').
Proof.
  intros w r w' Hq. unfold _run_once, mbind, eff_bind, mret, eff_ret.
  destruct (claim_call settings w) as [[[job|]|e] w1] eqn:Hc; [|intros [= _ <-]; by eapply stays_claim..].
  pose proof (stays_claim _ _ _ Hc) as H1. unfold claim_call in Hc.
  pose proof (steps_ok _ _ _ (others_steps w.(w_calls) (world_state w)) Hq) as Hqo. destruct (others _ _) as [issued q].
  destruct (claim _ _ _ q) as [r1 q'] eqn:Hcl. injection Hc as -> <-.
  destruct (claim_owned _ _ _ _ _ _ _ Hqo Hcl) as (id & attempt & Hid & Hlease & _). rewrite Hlease. cbn [eff_lift].
  unfold monotonic_clock. cbn beta iota.
  destruct (export_attempt _ _ _ _ _ _) as [[outcome|e] w3] eqn:Ha; intros [= _ <-];
    (etransitivity; [exact H1|]; eapply stays_attempt in Ha; [exact Ha|done|done]).
Qed.

Lemma stays_run_rounds rounds : forall w r w', queue_ok capacity w.(w_issued) w.(w_queue) -> run_rounds settings executor rounds w = (r, w') ->
  rtc (queue_step capacity) (world_state w) (world_state w').
Proof.
  induction rounds as [|rounds IH]; intros w r w' Hq; cbn [run_rounds]; [by intros [= _ <-]|]. unfold mbind, eff_bind.
  destruct (_run_once settings executor w) as [[claimed|e] w1] eqn:H1; pose proof (stays_run_once _ _ _ Hq H1) as Hs; [|by intros [= _ <-]].
  intros H. etransitivity; [exact Hs|]. eapply IH; [|exact H]. by apply (steps_ok _ _ _ Hs).
Qed.

(** What the worker does before it claims. *)
Lemma opening w : exists r w1, (_ ← queue_call (fun n => recover_expired (now_at n)); _maintain settings) w = (r, w1) /\
  rtc (queue_step capacity) (world_state w) (world_state w1).
Proof.
  destruct ((_ ← queue_call (fun n => recover_expired (now_at n)); _maintain settings) w) as [r w1] eqn:E. exists r, w1. split; [done|].
  eapply stays_bind; [apply stays_recover|intros ?; apply stays_maintain|exact E].
Qed.
End worker_run.

(** ** Properties *)

(** C3: a worker against any behaviour of the other threads.  Whatever a round of
    the worker, or the whole loop, does to the queue is a sequence of steps of
    the queue, so the queue's invariant and the fencing hold of systems of
    workers.  A round that reports work claimed a job under a token that was not
    in use, made one attempt, and when it returns no job is leased to that token
    any more, whether the attempt succeeded, failed, was cancelled or timed out;
    only an artifact that [complete] refused leaves the lease to expire. *)
Theorem worker_round (export : Executor) (w w' : World) (r : res bool) :
  reachable capacity (world_state w) -> lawful_executor export ->
  run_once settings (execute export) w = (r, w') ->
  rtc (queue_step capacity) (world_state w) (world_state w') /\
  (r = Ok true -> exists job lease deadline w1 outcome,
     (lease.(l_token) ∉ w.(w_issued)) /\ owned w1.(w_queue) lease.(l_id) lease.(l_attempt) lease.(l_token) /\
     export_attempt settings (execute export) job lease deadline w1 = (Ok outcome, w') /\
     (outcome = Some false \/ lost w'.(w_queue) lease.(l_id) lease.(l_token))) /\
  (forall rounds r2 w2, run settings (execute export) rounds w = (r2, w2) -> rtc (queue_step capacity) (world_state w) (world_state w2)).
Proof.
  intros Hq%reachable_ok Hl%execute_lawful Hrun. destruct (opening w) as (r0 & w0 & H0 & Hs0).
  pose proof (steps_ok _ _ _ Hs0 Hq) as Hq0. pose proof (steps_issued _ _ _ Hs0 Hq) as Hsub.
  assert (forall A (rest : eff World A) r1 w1,
    (_ ← queue_call (fun n => recover_expired (now_at n)); _ ← _maintain settings; rest) w = (r1, w1) ->
    (exists e, r0 = Err e /\ r1 = Err e /\ w1 = w0) \/ (r0 = Ok tt /\ rest w0 = (r1, w1))) as Hopen.
  { intros A rest r1 w1. unfold mbind, eff_bind in H0 |- *. destruct (queue_call _ w) as [[n|e] wa];
      [destruct (_maintain settings wa) as [[[]|e] wb]; injection H0 as <- <-|injection H0 as <- <-];
      [by right|intros [= <- <-]; left; by exists e..]. }
  split_and!.
  - destruct (Hopen _ _ _ _ Hrun) as [(e & _ & _ & ->)|[_ H]]; [done|]. etransitivity; [exact Hs0|by eapply stays_run_once].
  - intros ->. destruct (Hopen _ _ _ _ Hrun) as [(e & _ & ? & _)|[_ H]]; [done|].
    destruct (run_once_attempt _ Hl _ _ Hq0 H) as (job & lease & deadline & w1 & outcome & Ht & Hrest).
    exists job, lease, deadline, w1, outcome. split; [|done]. intros Hin. by apply Ht, Hsub.
  - intros rounds r2 w2 H2. destruct (Hopen _ _ _ _ H2) as [(e & _ & _ & ->)|[_ H]]; [done|].
    etransitivity; [exact Hs0|by eapply stays_run_rounds].
Qed.
End proofs.

(** ** A round of a worker *)

Module Round.
(** Nobody else is there; the clock counts calls. *)
#[local] Instance alone : Environment := {
  others _ s := s;
  now_at n := Z.of_nat n;
  stamp_at n := Z.of_nat n;
  monotonic_at n := Z.of_nat n;
  source_valid _ _ := Ok true;
  new_token _ issued := fresh issued;
}.
#[local] Instance alone_lawful : LawfulEnvironment Run.limits.
Proof. constructor; [done|]. intros n issued. apply is_fresh. Qed.

Definition settings : WorkerSettings := mk_worker_settings 120 5 604800 10000 107374182400 3600 100 1800.

Definition metadata (job : ExportJob) : descriptor :=
  list_to_map [("id", field job.(ej_fields) "id"); ("job_id", field job.(ej_fields) "job_id"); ("object_key", PStr "key");
               ("attempt", field job.(ej_fields) "attempt"); ("lease_token", field job.(ej_fields) "lease_token");
               ("published", PBool false)]%string.

Definition save (job : ExportJob) : eff World (option descriptor) := fun w =>
  let '(r, q) := save_export_stream (fun _ => "digest"%string) (fun _ => true) (metadata job) [[Byte.x01]] false 1 w.(w_queue) in
  (r, mk_world w.(w_issued) q (S w.(w_calls))).

Definition export : Executor := fun job report =>
  _ ← report [("percent", PInt 50)]%string; _ ← save job; mret Run.artifact.

Lemma export_lawful : lawful_executor Run.limits export.
Proof.
  constructor.
  - intros job report Hr. apply stays_bind; [apply Hr|]. intros _. apply stays_bind; [|intros _; apply stays_ret].
    intros w r w'. unfold save. destruct (save_export_stream _ _ _ _ _ _ _) as [r1 q] eqn:E. intros [= _ <-].
    eapply rtc_once, (step_save _ _ _ _ _ (metadata job)); [left; reflexivity|exact E].
  - intros job report w artifact w' id. unfold export, mbind, eff_bind, mret, eff_ret.
    destruct (report _ w) as [[] w1]; [|done]. destruct (save job w1) as [[] w2]; [|done]. intros [= <- _] _.
    constructor; [left; reflexivity|repeat (apply Forall_cons; split); [reflexivity..|by apply Forall_nil]].
Qed.

Definition start : World := mk_world ∅ Run.queued 0.
Definition finish : World := (run_once settings (execute export) start).2.

Lemma start_reachable : reachable Run.limits (world_state start).
Proof. apply rtc_once. eapply (step_enqueue _ _ _ None); [exact Run.job_built|done|reflexivity|apply surjective_pairing]. Qed.

Lemma finishes : run_once settings (execute export) start = (Ok true, finish).
Proof.
  rewrite (surjective_pairing (run_once settings (execute export) start)). unfold finish. f_equal.
Qed.
End Round.

(** A round claims the job of a run, exports and completes it. *)
Lemma worker_round_witness :
  rtc (queue_step Run.limits) (world_state Round.start) (world_state Round.finish) /\
  Run.shows Round.finish.(w_queue) "status" (PStr "COMPLETED") = true.
Proof.
  split; [|vm_compute; reflexivity].
  exact (proj1 (@worker_round _ _ Round.alone Run.limits Round.alone_lawful Round.settings Round.export Round.start Round.finish (Ok true)
    Round.start_reachable Round.export_lawful Round.finishes)).
Defined.
